(* ===== verification/_CoqProject ===== *)
-Q . S2P
Prelude.v
Codec.v
Buffer.v
Posix.v
Files.v
Quiet.v
RemoveDir.v
Updates.v
Faults.v
Records.v
Entries.v
KvEntries.v
Wal.v
WalFormat.v
WalLoad.v
WalSpec.v
WalRestart.v
WalTheorems.v
Checkpoint.v
CheckpointLoad.v
CheckpointSave.v
CheckpointTheorems.v
CheckpointCrash.v
KvMap.v
MiniKV.v
KvContracts.v
KvRecovery.v
KvTheorems.v
BlockingQueue.v
MemPool.v
MemPoolSlots.v
MemPoolInv.v
MemPoolTheorems.v
Acc.v
AccTheorems.v
KvFactory.v
Net.v
NetWorker.v
NetRecv.v
NetSend.v
NetHandshake.v
NetTheorems.v
Rpc.v
RpcServe.v
RpcKv.v
Timer.v
RpcClient.v
RpcCalls.v
RpcTheorems.v
Hash.v
HashTheorems.v
ConnMgr.v
EventLoop.v
SocketService.v
ServiceInv.v
ServiceOps.v
ServiceRound.v
ServiceOpen.v
ServiceTheorems.v
ServiceEdges.v
ServiceRpc.v
ThreadPool.v
Locks.v
CJson.v
CJsonTheorems.v
CJsonGrammar.v
CJsonConfig.v
Client.v
Server.v
Shutdown.v
