(* ===== verification/Prelude.v ===== *)
(** * flyingkv: a verification library

    flyingkv is a key-value server in C++: a store in memory ([MiniKV]) that logs every
    change to a segmented write-ahead log, saves checkpoints from a forked child, limits
    requests with token buckets, and talks to its clients over framed messages.  This
    library models these parts from the sources under src/ and proves what each of them
    promises.  C++ code becomes a program of the state monad [M] below: it runs against
    the state it works on and returns, is killed ([Crashed]), has undefined behaviour
    ([Undefined]), ends the process ([Aborted]: [LOG(FATAL)], an exception nobody catches) or
    does not return ([Diverged]).  A theorem that a call returns says so: [wp] excludes all
    of these, and the statements give the result as [Ok].

    ** The parts and their files

    - Foundations.  [Prelude]: outcomes, the monad, weakest preconditions and their
      tactics, machine integers ([u8] .. [u64], [i32], [i64] wrap around), bytes, memory
      regions.  [Codec]: utils/codec-utils, both byte orders.  [Buffer]: common/buffer,
      and [MemAlloc], what clients expect of the memory pool.  [Posix]: the system calls
      on files, with a schedule of faults (errors, partial transfers, a kill before any
      call).  [Files]: utils/io-utils, file-utils, common-utils.  [RemoveDir]: the removal of
      directories.  [Quiet], [Updates],
      [Faults]: what sequences of these calls do in a world without faults, as file
      updates, and under every schedule.
    - Entries.  [Entries]: common/ientry.h as the class [IEntry] with its laws
      [IEntryLaws], and the three classes of kv/entries; [KvEntries] shows that they keep
      the laws.  The protobuf wire format is the class [PbEntry]: generated code, of which
      the round trip is assumed.
    - The log (wal/wals/log-clean-wal).  [Records]: frames in a file, shared with the
      checkpoint.  [Wal]: [LogCleanWal], member by member.  [WalFormat], [WalLoad],
      [WalSpec], [WalRestart]: the bytes of a segment, the batched loader, the log as a
      list of segments, opening it.  [WalTheorems].
    - The checkpoint (checkpoint/checkpoints/entry-order-checkpoint).  [Checkpoint]: the
      class with its forked save.  [CheckpointLoad], [CheckpointSave],
      [CheckpointTheorems], [CheckpointCrash].
    - The store (kv/mini-kv).  [KvMap]: the key order and the ordered map.  [MiniKV]: the
      handlers, start and stop, against the interfaces [IWal] and [ICheckpoint].
      [KvContracts]: what the store relies on in them, with the proofs that the log and
      the checkpoint provide it.  [KvRecovery]: recovery as a function of checkpoint and
      log.  [KvTheorems].  [KvFactory]: configuration and factories.
    - The memory pool (sys/mem-pool).  [MemPool]: the pool on a heap; [MemPoolSlots],
      [MemPoolInv], [MemPoolTheorems].
    - Threads.  [BlockingQueue] (common/blocking-queue.h): the operations as atomic rounds
      and a step relation for any number of threads.  [ThreadPool] (sys/thread-pool.h): its
      threads, cut at their accesses to shared memory.  [Locks] (sys/spin-lock,
      sys/rw-mutex.h): the guards and the locks under them.
    - Admission control (acc).  [Acc]: token buckets on a clock, the list of limiters,
      weights, configuration; [AccTheorems].
    - Configuration files (3rd/cjson).  [CJson]: the parser, on the text and the library's
      heap.  [CJsonTheorems], [CJsonGrammar]: what it does on any text, and on a text of
      the grammar of RFC 8259.  [CJsonConfig]: the configuration of admission control
      read through it; [Acc] and [KvFactory] have the parser as a parameter.
    - Hash functions (utils/hash-algorithms).  [Hash], [HashTheorems].
    - Connections (net).  [Net]: messages, headers, the socket.  [NetWorker]: the worker
      of a connection with [Recv], [Send], [handshake] and [Initialize].  [NetRecv], [NetSend],
      [NetHandshake]: receiving, sending and opening.  [NetTheorems].
    - The socket service (net/net-protocol-stacks).  [ConnMgr]: the manager of connections.
      [EventLoop]: a worker thread with its epoll descriptor and its pipe.
      [SocketService]: the connections of a process from their creation to their deletion.
      [ServiceInv], [ServiceOps], [ServiceRound], [ServiceOpen]: the invariant and what each
      call does to it.  [ServiceTheorems]; [ServiceEdges]: where it breaks; [ServiceRpc]: the
      service as the [ISocketService] of the calls below.
    - Remote procedure calls (rpc, server/rpc, client/rpc).  [Rpc]: requests, responses and
      the server, with the store as its handlers; the protobuf classes are the class
      [PbMessage], the socket service the class [ISocketService].  [RpcServe]: what the
      server does with a request.  [RpcKv]: the store behind it, under every interleaving of
      arrivals and work.  [Timer]: sys/timer.  [RpcClient]: the calls of a client, cut at
      its critical sections; [RpcCalls]: the step relation of its threads, the network and
      the timer, and its invariant.  [RpcTheorems].
    - The programs.  [Client] (client/flyingkv-client): the client object.  [Server]
      (server/flyingkvd-main.cc): [startup], which puts configuration, store and rpc server
      together.  [Shutdown] (the same file): signals, [stop] and [waitStop] as interleaving
      threads, with a handler as a frame on the stack of the thread it interrupts.

    ** What is proved

    - The whole server: started from its flags, a configuration file and the files of an
      earlier run, it answers as a finite map and keeps what it has answered over a kill and
      a restart ([server_restarts]).  When a signal stops it, it ends, the rpc server before
      the store, unless a handler interrupts its own thread inside the mutex
      ([shutdown_completes], [shutdown_order]).
    - Durability: after any accepted requests, a restart on the same files gives the
      state the requests have built up ([kv_durable], [kv_start]), requests answer as a
      finite map does ([kv_requests], [kv_map_refines], [kv_key_order], the scans), a request
      whose log record fails is refused and changes nothing in memory ([kv_log_failure]).
    - The log: appended entries come back in order ([wal_durable], [wal_append],
      [wal_reopen]), for every batch size of the loader ([wal_load_batches]); a torn last
      record is reported ([wal_load_torn]); under any fault an append leaves the entries
      before it ([wal_append_any_fault]).
    - The checkpoint: a save and a load give the entries back ([checkpoint_save_load]);
      whatever fails or dies during a save, the next start finds the old or the new
      checkpoint ([checkpoint_crash_safe], [checkpoint_recover_old],
      [checkpoint_recover_new]).
    - Memory: the pool hands out disjoint aligned memory, never twice, and frees every
      page ([mp_safe], [mp_no_leak]); a buffer releases what it owns once
      ([buffer_releases_once]).
    - Concurrency: the queue is first in, first out under every interleaving, and loses no
      wake-up when it has no bound ([queue_fifo], [queue_wakes]); the pool runs every task
      once and its destructor ends ([pool_runs_once], [pool_joins]); a spin lock has one
      owner ([spin_exclusive]).
    - Configuration: the JSON parser returns on every text, within its memory and without
      leaks ([json_parse_safe]), builds the value of every text of the grammar
      ([json_parse_complete]), and a written configuration is the one that is loaded
      ([acc_config_loaded]).
    - Files: the removal of a directory removes its tree and nothing else
      ([directory_removed]).
    - Hashes: each function reads its key only and is the fold of one step over the blocks of
      the key ([hash_reference]).
    - Admission: a bucket never grants more than its rate and its size allow, grants when
      it should, and a list of limiters takes from all or none ([acc_rate], [acc_grant],
      [acc_all_or_nothing]).
    - Connections: what one side queues is what the other side's user gets, however the
      stream is cut ([net_delivery]); arbitrary input is split into frames or the
      connection is given up with the reason ([net_recv]); the handshake ends with both
      sides in agreement ([net_handshake]).
    - The socket service: in every reachable state its calls touch live objects only and
      every connection is deleted once ([service_safe], [round_deletes]); its manager is a
      table of the earliest connections ([unique_manager]), its loop loses no wake-up
      ([loop_wakes]); it keeps what the calls rely on ([service_promise]), so the store
      answers over it ([kv_over_service]).
    - Calls: the server answers each request once and as a finite map does ([rpc_kv]); the
      client's tables agree in every reachable state ([rpc_tables]), a caller gets the
      response to its own request ([rpc_reply]) or learns that the connection is gone
      ([rpc_completes]), and what it gets is what the handler has returned ([rpc_call]); what
      the client object sends is the request the server expects ([client_sends]); the timer
      runs what is due, in order ([timer_runs_due]).
    - Errors found on the way are theorems too: concrete runs in which the code loses
      data, leaks or hangs, next to the positive results of their component.

    ** Fuel and bounds

    Loops whose bound is not structural take fuel and end in [Diverged] without it.  The
    loops over partial reads and writes have the number of bytes left; the loaders the
    length of the file; the grant loop of a bucket one round, which is shown to be enough;
    [Recv] and [Send] any fuel above the bytes (and messages) at hand, which their theorems
    ask for explicitly; the JSON parser 1001 levels of nesting, one more than it accepts, and
    for its loops the length of the text.  Page sizes of the pool are powers of two from 32 bytes to
    128 KiB.  Times of a bucket stay below a horizon [T] for which the 64-bit products of
    the code do not overflow.

    ** Not modelled

    The printer of the JSON library and its functions that build and change trees
    (the program calls none of them), logging and [DumpDebugInfo] (output only), the set-up of
    flags and logs, socket options, the counting of processors,
    the example program, and the protobuf runtime, which is a parameter.
    Critical sections of the store and the pool of memory are atomic steps; signal handlers
    run on threads other than those of the rpc server's pool.  A checkpoint runs in a
    forked process in the code and as a call with its own process state here; the store's
    checker thread is the call it makes. *)

From stdpp Require Export base gmap sets list sorting strings numbers.
From Stdlib Require Export ZArith Lia Ascii.
From Stdlib Require Strings.Byte.
From Corelib Require Export Byte.

#[global] Open Scope Z_scope.

#[global] Arguments Z.shiftl : simpl never.
#[global] Arguments Z.shiftr : simpl never.
#[global] Arguments Z.lor : simpl never.
#[global] Arguments Z.land : simpl never.
#[global] Arguments Z.lxor : simpl never.
#[global] Arguments Z.modulo : simpl never.
#[global] Arguments Z.div : simpl never.

(** ** Outcomes and the state monad

    C++ code runs against a state and either returns a value or stops: it is
    killed, executes undefined behaviour, or calls [LOG(FATAL)].  [Diverged]
    marks a loop that ran out of the fuel the model gives it. *)

Inductive stop : Type := Crashed | Undefined | Aborted | Diverged.

Inductive outcome (A : Type) : Type :=
  | Ok (a : A)
  | Stop (s : stop).
Arguments Ok {A} a.
Arguments Stop {A} s.

Definition M (S A : Type) : Type := S -> outcome A * S.

#[global] Instance M_ret S : MRet (M S) := fun A a s => (Ok a, s).
#[global] Instance M_bind S : MBind (M S) := fun A B k c s =>
  match c s with
  | (Ok a, s') => k a s'
  | (Stop e, s') => (Stop e, s')
  end.

(** The state as a value, a state change, and the three ways to stop. *)
Definition getS {S A} (f : S -> A) : M S A := fun s => (Ok (f s), s).
Definition modS {S} (f : S -> S) : M S unit := fun s => (Ok tt, f s).
Definition halt {S A} (e : stop) : M S A := fun s => (Stop e, s).

(** Objects live beside the operating system's state: an operation of an object
    of type [O] runs on [O * W].  [io] lifts what touches only the system. *)
Definition io {O W A} (c : M W A) : M (O * W) A := fun s =>
  match c s.2 with (r, w) => (r, (s.1, w)) end.
Definition getO {O W A} (f : O -> A) : M (O * W) A := fun s => (Ok (f s.1), s).
Definition modO {O W} (f : O -> O) : M (O * W) unit := fun s => (Ok tt, (f s.1, s.2)).

(** A member object inside a larger one: run the member's operation on it. *)
Definition zoom {P O W A} (get : P -> O) (put : O -> P -> P) (c : M (O * W) A) : M (P * W) A :=
  fun s => match c (get s.1, s.2) with (r, (o, w)) => (r, (put o s.1, w)) end.

(** A partial read of memory: outside the object it is undefined behaviour. *)
Definition of_mem {S A} (o : option A) : M S A :=
  match o with Some a => mret a | None => halt Undefined end.

Section monad_lemmas.
Context {S : Type}.

Lemma bind_ok {A B} (c : M S A) (k : A -> M S B) s a s' :
  c s = (Ok a, s') -> (c ≫= k) s = k a s'.
Proof. intros H. unfold mbind, M_bind. by rewrite H. Qed.

Lemma bind_stop {A B} (c : M S A) (k : A -> M S B) s e s' :
  c s = (Stop e, s') -> (c ≫= k) s = (Stop e, s').
Proof. intros H. unfold mbind, M_bind. by rewrite H. Qed.

Lemma bind_inv {A B} (c : M S A) (k : A -> M S B) s b s'' :
  (c ≫= k) s = (Ok b, s'') -> exists a s', c s = (Ok a, s') /\ k a s' = (Ok b, s'').
Proof.
  unfold mbind, M_bind. destruct (c s) as [[a|e] s'] eqn:E; intros H; [|done].
  by exists a, s'.
Qed.
End monad_lemmas.

Lemma io_ok {O W A} (c : M W A) (o : O) (w w' : W) r :
  c w = (r, w') -> io c (o, w) = (r, (o, w')).
Proof. intros H. unfold io. simpl. by rewrite H. Qed.

(** ** Results

    The result objects of the sources carry a code and a message: [Good] is
    code [OK] with the payload, [Bad] any other code.  A message is the text of
    an [errno] or a constant.  [rbind] is the early return on an error. *)

Inductive errmsg := Strerror (e : Z) | Msg (s : string).

Inductive result (C A : Type) : Type :=
  | Good (a : A)
  | Bad (rc : C) (m : errmsg).
Arguments Good {C A} a.
Arguments Bad {C A} rc m.

Definition rbind {S C A B} (c : M S (result C A)) (k : A -> M S (result C B)) : M S (result C B) :=
  r ← c;
  match r with
  | Good a => k a
  | Bad rc m => mret (Bad rc m)
  end.

Notation "x ←! c ; k" := (rbind c (fun x => k))
  (at level 20, c at level 100, k at level 200, format "x  ←!  c ;  '/' k").

(** ** Weakest preconditions

    [wpc c s Q R]: run from [s], the program either returns a value and a state
    in [Q], or stops in a way and a state in [R].  [wp] forbids stopping. *)

Definition wpc {S A} (c : M S A) (s : S) (Q : A -> S -> Prop) (R : stop -> S -> Prop) : Prop :=
  match c s with
  | (Ok a, s') => Q a s'
  | (Stop e, s') => R e s'
  end.

Definition wp {S A} (c : M S A) (s : S) (Q : A -> S -> Prop) : Prop :=
  wpc c s Q (fun _ _ => False).

Section wp_lemmas.
Context {S : Type}.

Lemma wpc_bind {A B} (c : M S A) (k : A -> M S B) s Q R :
  wpc c s (fun a s' => wpc (k a) s' Q R) R -> wpc (c ≫= k) s Q R.
Proof. unfold wpc, mbind, M_bind. by destruct (c s) as [[a|e] s']. Qed.

Lemma wpc_ret {A} (a : A) (s : S) Q R : Q a s -> wpc (mret a) s Q R.
Proof. done. Qed.

Lemma wpc_mono {A} (c : M S A) s (Q Q' : A -> S -> Prop) (R R' : stop -> S -> Prop) :
  wpc c s Q R -> (forall a s', Q a s' -> Q' a s') -> (forall e s', R e s' -> R' e s') ->
  wpc c s Q' R'.
Proof. unfold wpc. destruct (c s) as [[a|e] s']; eauto. Qed.

(** A program that runs like another from here on. *)
Lemma wpc_conv {A} (c c' : M S A) s s' Q R : c s = c' s' -> wpc c' s' Q R -> wpc c s Q R.
Proof. unfold wpc. by intros ->. Qed.

Lemma wp_conv {A} (c c' : M S A) s s' Q : c s = c' s' -> wp c' s' Q -> wp c s Q.
Proof. apply wpc_conv. Qed.

Lemma wp_bind {A B} (c : M S A) (k : A -> M S B) s Q :
  wp c s (fun a s' => wp (k a) s' Q) -> wp (c ≫= k) s Q.
Proof. apply wpc_bind. Qed.

Lemma wp_ret {A} (a : A) (s : S) Q : Q a s -> wp (mret a) s Q.
Proof. done. Qed.

Lemma wp_mono {A} (c : M S A) s (Q Q' : A -> S -> Prop) :
  wp c s Q -> (forall a s', Q a s' -> Q' a s') -> wp c s Q'.
Proof. intros. eapply wpc_mono; eauto. Qed.

Lemma wp_run {A} (c : M S A) s Q : wp c s Q -> exists a s', c s = (Ok a, s') /\ Q a s'.
Proof. unfold wp, wpc. destruct (c s) as [[a|e] s']; [eauto|done]. Qed.

Lemma wp_eq {A} (c : M S A) s a s' Q : c s = (Ok a, s') -> Q a s' -> wp c s Q.
Proof. unfold wp, wpc. by intros ->. Qed.

Lemma wp_getS {A} (f : S -> A) s Q : Q (f s) s -> wp (getS f) s Q.
Proof. done. Qed.
Lemma wp_modS (f : S -> S) s Q : Q tt (f s) -> wp (modS f) s Q.
Proof. done. Qed.
End wp_lemmas.

Lemma wp_io {O W A} (c : M W A) (o : O) (w : W) Q :
  wp c w (fun a w' => Q a (o, w')) -> wp (io c) (o, w) Q.
Proof. unfold wp, wpc, io. simpl. by destruct (c w) as [[a|e] w']. Qed.
Lemma wp_getO {O W A} (f : O -> A) (o : O) (w : W) Q : Q (f o) (o, w) -> wp (getO f) (o, w) Q.
Proof. done. Qed.
Lemma wp_modO {O W} (f : O -> O) (o : O) (w : W) Q : Q tt (f o, w) -> wp (modO f) (o, w) Q.
Proof. done. Qed.
Lemma wp_zoom {P O W A} (get : P -> O) put (c : M (O * W) A) (p : P) (w : W) Q :
  wp c (get p, w) (fun a s => Q a (put s.1 p, s.2)) -> wp (zoom get put c) (p, w) Q.
Proof. unfold wp, wpc, zoom. simpl. by destruct (c (get p, w)) as [[a|e] [o w']]. Qed.

Lemma wp_rbind {S C A B} (c : M S (result C A)) (k : A -> M S (result C B)) s Q :
  wp c s (fun r s' => match r with Good a => wp (k a) s' Q | Bad rc m => Q (Bad rc m) s' end) ->
  wp (rbind c k) s Q.
Proof. intros H. apply wp_bind. eapply wp_mono; [exact H|]. by intros [a|rc m] s'. Qed.

Lemma wpc_io {O W A} (c : M W A) (o : O) (w : W) Q R :
  wpc c w (fun a w' => Q a (o, w')) (fun e w' => R e (o, w')) -> wpc (io c) (o, w) Q R.
Proof. unfold wpc, io. simpl. by destruct (c w) as [[a|e] w']. Qed.
Lemma wpc_getO {O W A} (f : O -> A) (o : O) (w : W) Q R : Q (f o) (o, w) -> wpc (getO f) (o, w) Q R.
Proof. done. Qed.
Lemma wpc_modO {O W} (f : O -> O) (o : O) (w : W) Q R : Q tt (f o, w) -> wpc (modO f) (o, w) Q R.
Proof. done. Qed.
Lemma wpc_rbind {S C A B} (c : M S (result C A)) (k : A -> M S (result C B)) s Q R :
  wpc c s (fun r s' => match r with Good a => wpc (k a) s' Q R | Bad rc m => Q (Bad rc m) s' end) R ->
  wpc (rbind c k) s Q R.
Proof. intros H. apply wpc_bind. eapply wpc_mono; [exact H| |done]. by intros [a|rc m] s'. Qed.

(** One statement of a program: [wbind] opens it, [wlift] the one of a system
    call, [wpure] runs reads and writes of the state and plain returns. *)
Ltac wbind := apply wp_bind.
Ltac wlift := apply wp_bind; apply wp_io.
Ltac wone :=
  lazymatch goal with
  | |- wp (getS _) _ _ => apply wp_getS
  | |- wp (modS _) _ _ => apply wp_modS
  | |- wp (getO _) _ _ => apply wp_getO
  | |- wp (modO _) _ _ => apply wp_modO
  | |- wp (mret _) _ _ => apply wp_ret
  | |- wp (mbind _ (getS _)) _ _ => apply wp_bind; apply wp_getS
  | |- wp (mbind _ (modS _)) _ _ => apply wp_bind; apply wp_modS
  | |- wp (mbind _ (getO _)) _ _ => apply wp_bind; apply wp_getO
  | |- wp (mbind _ (modO _)) _ _ => apply wp_bind; apply wp_modO
  | |- wp (mbind _ (mret _)) _ _ => apply wp_bind; apply wp_ret
  | |- wp (mbind _ (mbind _ _)) _ _ => apply wp_bind
  | |- wp (mbind _ (rbind _ _)) _ _ => apply wp_bind
  | |- wp (rbind (mbind _ _) _) _ _ => apply wp_rbind
  | |- wp (rbind (rbind _ _) _) _ _ => apply wp_rbind
  | |- wp (rbind (mret _) _) _ _ => apply wp_rbind; apply wp_ret
  end.
Ltac wpure :=
  cbn beta iota zeta;
  repeat (wone; cbn beta iota zeta delta [fst snd]).

(** The same for runs that may stop. *)
Ltac cone :=
  lazymatch goal with
  | |- wpc (mret _) _ _ _ => apply wpc_ret
  | |- wpc (getO _) _ _ _ => apply wpc_getO
  | |- wpc (modO _) _ _ _ => apply wpc_modO
  | |- wpc (mbind _ (getO _)) _ _ _ => apply wpc_bind; apply wpc_getO
  | |- wpc (mbind _ (modO _)) _ _ _ => apply wpc_bind; apply wpc_modO
  | |- wpc (mbind _ (mret _)) _ _ _ => apply wpc_bind; apply wpc_ret
  | |- wpc (rbind (mret _) _) _ _ _ => apply wpc_rbind; apply wpc_ret
  end.
Ltac cpure :=
  cbn beta iota zeta;
  repeat (cone; cbn beta iota zeta delta [fst snd]).

(** ** Machine integers *)

Definition u8 (z : Z) : Z := z mod 256.
Definition u16 (z : Z) : Z := z mod 65536.
Definition u32 (z : Z) : Z := z mod 4294967296.
Definition u64 (z : Z) : Z := z mod 18446744073709551616.
Definition i32 (z : Z) : Z := (z + 2147483648) mod 4294967296 - 2147483648.
Definition i64 (z : Z) : Z :=
  (z + 9223372036854775808) mod 18446744073709551616 - 9223372036854775808.

Lemma u32_small z : 0 <= z < 4294967296 -> u32 z = z.
Proof. intros. unfold u32. by apply Z.mod_small. Qed.
Lemma u64_small z : 0 <= z < 18446744073709551616 -> u64 z = z.
Proof. intros. unfold u64. by apply Z.mod_small. Qed.
Lemma i32_small z : -2147483648 <= z < 2147483648 -> i32 z = z.
Proof. intros. unfold i32. rewrite Z.mod_small; lia. Qed.
Lemma i64_small z : -9223372036854775808 <= z < 9223372036854775808 -> i64 z = z.
Proof. intros. unfold i64. rewrite Z.mod_small; lia. Qed.
Lemma u32_range z : 0 <= u32 z < 4294967296.
Proof. apply Z.mod_pos_bound. lia. Qed.
Lemma u64_range z : 0 <= u64 z < 18446744073709551616.
Proof. apply Z.mod_pos_bound. lia. Qed.

(** ** Bytes *)

#[global] Instance byte_eq_dec : EqDecision byte := Byte.byte_eq_dec.
#[global] Instance byte_countable : Countable byte := inj_countable Byte.to_N Byte.of_N Byte.of_to_N.

Definition b2z (b : byte) : Z := Z.of_N (Byte.to_N b).
Definition z2b (z : Z) : byte :=
  match Byte.of_N (Z.to_N (z mod 256)) with Some b => b | None => x00 end.

Lemma b2z_range b : 0 <= b2z b < 256.
Proof. unfold b2z. pose proof (Byte.to_N_bounded b). lia. Qed.

Lemma b2z_z2b z : b2z (z2b z) = z mod 256.
Proof.
  unfold b2z, z2b. pose proof (Z.mod_pos_bound z 256 ltac:(lia)).
  destruct (Byte.of_N (Z.to_N (z mod 256))) as [b|] eqn:E.
  - apply Byte.to_of_N in E. rewrite E. lia.
  - apply Byte.of_N_None_iff in E. lia.
Qed.

Lemma z2b_b2z b : z2b (b2z b) = b.
Proof.
  unfold z2b. rewrite Z.mod_small by apply b2z_range.
  unfold b2z. rewrite N2Z.id, Byte.of_to_N. done.
Qed.

Lemma b2z_inj b c : b2z b = b2z c -> b = c.
Proof. intros H. by rewrite <- (z2b_b2z b), <- (z2b_b2z c), H. Qed.

(** ** Byte sequences

    [zlen] is the length as a [Z]; [slice off n l] the [n] bytes at [off];
    [mem_write off bs m] memory [m] after [bs] is stored at [off]. *)

Definition zlen {A} (l : list A) : Z := Z.of_nat (length l).
Definition slice {A} (off n : Z) (l : list A) : list A :=
  take (Z.to_nat n) (drop (Z.to_nat off) l).
Definition mem_write (off : Z) (bs m : list byte) : list byte :=
  take (Z.to_nat off) m ++ bs ++ drop (Z.to_nat off + length bs) m.

Lemma zlen_nonneg {A} (l : list A) : 0 <= zlen l.
Proof. unfold zlen. lia. Qed.
Lemma zlen_app {A} (l k : list A) : zlen (l ++ k) = zlen l + zlen k.
Proof. unfold zlen. rewrite length_app. lia. Qed.
Lemma zlen_cons {A} (a : A) l : zlen (a :: l) = 1 + zlen l.
Proof. unfold zlen. simpl. lia. Qed.
Lemma zlen_single {A} (a : A) : zlen [a] = 1.
Proof. done. Qed.
Lemma zlen_0 {A} (l : list A) : zlen l = 0 -> l = [].
Proof. unfold zlen. intros H. destruct l; [done|simpl in H; lia]. Qed.

Create HintDb flykv discriminated.
#[export] Hint Rewrite @zlen_app @zlen_single @zlen_cons : flykv.
Ltac zlens := autorewrite with flykv; repeat change (zlen (@nil byte)) with 0.
#[export] Hint Resolve zlen_nonneg b2z_range u32_range u64_range : flykv.

Lemma mem_write_length off bs m :
  0 <= off -> off + zlen bs <= zlen m -> length (mem_write off bs m) = length m.
Proof.
  unfold zlen, mem_write. intros. rewrite !length_app, length_take, length_drop. lia.
Qed.

(** Writing right after a prefix of the region extends the prefix. *)
Lemma mem_write_extend (pre bs rest : list byte) :
  zlen bs <= zlen rest ->
  mem_write (zlen pre) bs (pre ++ rest) = (pre ++ bs) ++ drop (length bs) rest.
Proof.
  intros. unfold mem_write, zlen. rewrite Nat2Z.id, take_app_length.
  rewrite <- app_assoc. f_equal. f_equal.
  by rewrite <- drop_drop, drop_app_length.
Qed.
