(* ===== verification/Codec.v ===== *)
(** * Byte order codecs (src/utils/codec-utils.{h,cc})

    [LittleEndianCodecUtils] and [BigEndianCodecUtils] are the two classes of
    codec-utils.cc; [ByteOrderUtils] is the macro of codec-utils.h that picks
    one of them for the host's byte order.  A [uchar*] argument is the list of
    the bytes from the pointer on; a write returns that memory after the call,
    a read outside it is [None].  [be_bytes] and [be_val] are the reference:
    network order, most significant byte first. *)

From S2P Require Import Prelude.

(** ** Reference: network order *)

Fixpoint be_bytes (k : nat) (n : Z) : list byte :=
  match k with
  | O => []
  | S k => be_bytes k (n / 256) ++ [z2b n]
  end.

Definition be_val (l : list byte) : Z := fold_left (fun acc b => acc * 256 + b2z b) l 0.

Lemma be_bytes_length k n : length (be_bytes k n) = k.
Proof. revert n. induction k; intros; simpl; [done|]. rewrite length_app, IHk. simpl. lia. Qed.

Lemma be_val_snoc l b : be_val (l ++ [b]) = be_val l * 256 + b2z b.
Proof. unfold be_val. by rewrite fold_left_app. Qed.

Lemma be_val_bytes k n : be_val (be_bytes k n) = n mod 256 ^ Z.of_nat k.
Proof.
  revert n. induction k as [|k IH]; intros n.
  - simpl. by rewrite Z.mod_1_r.
  - cbn [be_bytes]. rewrite be_val_snoc, IH, b2z_z2b.
    rewrite Nat2Z.inj_succ, Z.pow_succ_r by lia.
    rewrite Z.rem_mul_r by lia. lia.
Qed.

Lemma be_val_range l : 0 <= be_val l < 256 ^ zlen l.
Proof.
  induction l as [|b l IH] using rev_ind; [unfold be_val, zlen; simpl; lia|].
  rewrite be_val_snoc, zlen_app, zlen_single.
  change (zlen l + 1) with (Z.succ (zlen l)).
  rewrite Z.pow_succ_r by apply zlen_nonneg. pose proof (b2z_range b). lia.
Qed.

Lemma be_bytes_val k l : length l = k -> be_bytes k (be_val l) = l.
Proof.
  revert l. induction k as [|k IH]; intros l Hl.
  - by destruct l.
  - destruct l as [|b l _] using rev_ind; [done|].
    rewrite length_app in Hl. simpl in Hl. cbn [be_bytes].
    rewrite be_val_snoc. pose proof (b2z_range b).
    rewrite Z.div_add_l, (Z.div_small (b2z b)), Z.add_0_r by lia.
    rewrite IH by lia. do 2 f_equal. apply b2z_inj.
    rewrite b2z_z2b, Z.add_comm, Z_mod_plus_full. by apply Z.mod_small.
Qed.

(** ** Shift lemmas shared by the unrolled loops *)

(** Two integers that agree on their [k] low bytes; a shift by one byte,
    wrapped to [K] bytes, keeps all but one of them. *)
Definition agree (k : nat) (a b : Z) : Prop := a mod 256 ^ Z.of_nat k = b mod 256 ^ Z.of_nat k.

Lemma div_of_mod k a : (a mod 256 ^ Z.of_nat (S k)) / 256 = (a / 256) mod 256 ^ Z.of_nat k.
Proof.
  rewrite Nat2Z.inj_succ, Z.pow_succ_r, Z.rem_mul_r by lia.
  rewrite (Z.mul_comm 256), Z.div_add by lia.
  rewrite (Z.div_small (a mod 256)); [lia|]. apply Z.mod_pos_bound. lia.
Qed.

Lemma mod_mod_le (k K : nat) a :
  (k <= K)%nat -> (a mod 256 ^ Z.of_nat K) mod 256 ^ Z.of_nat k = a mod 256 ^ Z.of_nat k.
Proof.
  intros H. apply Z.mod_mod_divide.
  exists (256 ^ Z.of_nat (K - k)). rewrite <- Z.pow_add_r by lia. f_equal. lia.
Qed.

Lemma agree_shift K k a b :
  (k <= K)%nat -> agree (S k) a b -> agree k ((Z.shiftr a 8) mod 256 ^ Z.of_nat K) (b / 256).
Proof.
  unfold agree. intros Hk H. rewrite Z.shiftr_div_pow2, mod_mod_le by lia.
  change (2 ^ 8) with 256. by rewrite <- !div_of_mod, H.
Qed.

Lemma agree_u16 k a b : (k <= 2)%nat -> agree (S k) a b -> agree k (u16 (Z.shiftr a 8)) (b / 256).
Proof. apply (agree_shift 2). Qed.
Lemma agree_u32 k a b : (k <= 4)%nat -> agree (S k) a b -> agree k (u32 (Z.shiftr a 8)) (b / 256).
Proof. apply (agree_shift 4). Qed.
Lemma agree_u64 k a b : (k <= 8)%nat -> agree (S k) a b -> agree k (u64 (Z.shiftr a 8)) (b / 256).
Proof. apply (agree_shift 8). Qed.

Lemma agree_z2b k a b : agree (S k) a b -> z2b a = z2b b.
Proof.
  unfold agree. intros H. apply b2z_inj. rewrite !b2z_z2b.
  change 256 with (256 ^ Z.of_nat 1).
  by rewrite <- (mod_mod_le 1 (S k) a), <- (mod_mod_le 1 (S k) b), H by lia.
Qed.

Lemma lor_byte a b : 0 <= b < 256 -> Z.lor (a * 256) b = a * 256 + b.
Proof.
  intros Hb. rewrite <- (Z.add_lor_land (a * 256) b).
  assert (Z.land (a * 256) b = 0) as ->; [|lia].
  apply Z.bits_inj'. intros i Hi. rewrite Z.land_spec, Z.bits_0.
  change 256 with (2 ^ 8). destruct (Z.lt_ge_cases i 8).
  - by rewrite Z.mul_pow2_bits_low by lia.
  - rewrite (Z.bits_above_log2 b i), andb_false_r; [done|lia|].
    destruct (decide (b = 0)) as [->|]; [simpl; lia|].
    apply Z.lt_le_trans with 8; [|done]. apply Z.log2_lt_pow2; lia.
Qed.

(** One [n <<= 8; n |= buf[i];] step of a read, [w] the width's modulus. *)
Lemma push_byte w a b :
  0 <= b < 256 -> 0 <= a * 256 + b < w ->
  Z.lor ((Z.shiftl a 8) mod w) b = a * 256 + b.
Proof.
  intros Hb Hw. rewrite Z.shiftl_mul_pow2 by lia. change (2 ^ 8) with 256.
  rewrite Z.mod_small by lia. by apply lor_byte.
Qed.

(** ** class LittleEndianCodecUtils *)

Module LittleEndianCodecUtils.

Definition WriteUInt16 (buf : list byte) (n : Z) : list byte :=
  let buf := <[1%nat := z2b n]> buf in
  let n := u16 (Z.shiftr n 8) in
  <[0%nat := z2b n]> buf.

Definition WriteUInt32 (buf : list byte) (n : Z) : list byte :=
  let buf := <[3%nat := z2b n]> buf in
  let n := u32 (Z.shiftr n 8) in
  let buf := <[2%nat := z2b n]> buf in
  let n := u32 (Z.shiftr n 8) in
  let buf := <[1%nat := z2b n]> buf in
  let n := u32 (Z.shiftr n 8) in
  <[0%nat := z2b n]> buf.

Definition WriteUInt64 (buf : list byte) (n : Z) : list byte :=
  let buf := <[7%nat := z2b n]> buf in
  let n := u64 (Z.shiftr n 8) in
  let buf := <[6%nat := z2b n]> buf in
  let n := u64 (Z.shiftr n 8) in
  let buf := <[5%nat := z2b n]> buf in
  let n := u64 (Z.shiftr n 8) in
  let buf := <[4%nat := z2b n]> buf in
  let n := u64 (Z.shiftr n 8) in
  let buf := <[3%nat := z2b n]> buf in
  let n := u64 (Z.shiftr n 8) in
  let buf := <[2%nat := z2b n]> buf in
  let n := u64 (Z.shiftr n 8) in
  let buf := <[1%nat := z2b n]> buf in
  let n := u64 (Z.shiftr n 8) in
  <[0%nat := z2b n]> buf.

Definition ReadUInt16 (buf : list byte) : option Z :=
  b ← buf !! 0%nat;
  let n := b2z b in
  let n := u16 (Z.shiftl n 8) in
  b ← buf !! 1%nat;
  Some (Z.lor n (b2z b)).

Definition ReadUInt32 (buf : list byte) : option Z :=
  b ← buf !! 0%nat;
  let n := b2z b in
  let n := u32 (Z.shiftl n 8) in
  b ← buf !! 1%nat;
  let n := Z.lor n (b2z b) in
  let n := u32 (Z.shiftl n 8) in
  b ← buf !! 2%nat;
  let n := Z.lor n (b2z b) in
  let n := u32 (Z.shiftl n 8) in
  b ← buf !! 3%nat;
  Some (Z.lor n (b2z b)).

Definition ReadUInt64 (buf : list byte) : option Z :=
  b ← buf !! 0%nat;
  let n := b2z b in
  let n := u64 (Z.shiftl n 8) in
  b ← buf !! 1%nat;
  let n := Z.lor n (b2z b) in
  let n := u64 (Z.shiftl n 8) in
  b ← buf !! 2%nat;
  let n := Z.lor n (b2z b) in
  let n := u64 (Z.shiftl n 8) in
  b ← buf !! 3%nat;
  let n := Z.lor n (b2z b) in
  let n := u64 (Z.shiftl n 8) in
  b ← buf !! 4%nat;
  let n := Z.lor n (b2z b) in
  let n := u64 (Z.shiftl n 8) in
  b ← buf !! 5%nat;
  let n := Z.lor n (b2z b) in
  let n := u64 (Z.shiftl n 8) in
  b ← buf !! 6%nat;
  let n := Z.lor n (b2z b) in
  let n := u64 (Z.shiftl n 8) in
  b ← buf !! 7%nat;
  Some (Z.lor n (b2z b)).

End LittleEndianCodecUtils.

(** ** class BigEndianCodecUtils

    Selected on a big-endian host, where the memory image of an integer is its
    bytes from the most significant on: [((uchar* )(&n))[i]] is byte [i] of
    [host_image] and the load [*((uint32_t* )buf)] is [host_load]. *)

Module BigEndianCodecUtils.

Definition host_image (k : nat) (n : Z) : list byte := be_bytes k n.
Definition host_load (k : nat) (buf : list byte) : option Z :=
  if (length buf <? k)%nat then None else Some (be_val (take k buf)).

(** [#define NTOC(b, n, i) b[i] = ((uchar* )(&n))[i]] *)
Definition NTOC (k : nat) (b : list byte) (n : Z) (i : nat) : list byte :=
  match host_image k n !! i with Some c => <[i := c]> b | None => b end.

Definition WriteUInt16 (buf : list byte) (n : Z) : list byte :=
  let buf := NTOC 2 buf n 0 in NTOC 2 buf n 1.
Definition WriteUInt32 (buf : list byte) (n : Z) : list byte :=
  let buf := NTOC 4 buf n 0 in
  let buf := NTOC 4 buf n 1 in
  let buf := NTOC 4 buf n 2 in
  NTOC 4 buf n 3.
Definition WriteUInt64 (buf : list byte) (n : Z) : list byte :=
  let buf := NTOC 8 buf n 0 in
  let buf := NTOC 8 buf n 1 in
  let buf := NTOC 8 buf n 2 in
  let buf := NTOC 8 buf n 3 in
  let buf := NTOC 8 buf n 4 in
  let buf := NTOC 8 buf n 5 in
  let buf := NTOC 8 buf n 6 in
  NTOC 8 buf n 7.
Definition ReadUInt16 (buf : list byte) : option Z := host_load 2 buf.
Definition ReadUInt32 (buf : list byte) : option Z := host_load 4 buf.
Definition ReadUInt64 (buf : list byte) : option Z := host_load 8 buf.

End BigEndianCodecUtils.

(** ** ByteOrderUtils: the class codec-utils.h selects for BYTE_ORDER *)

Inductive byte_order : Type := BIG_ENDIAN | LITTLE_ENDIAN.

Module ByteOrderUtils.
Definition WriteUInt16 (host : byte_order) : list byte -> Z -> list byte :=
  match host with
  | BIG_ENDIAN => BigEndianCodecUtils.WriteUInt16
  | LITTLE_ENDIAN => LittleEndianCodecUtils.WriteUInt16
  end.
Definition ReadUInt16 (host : byte_order) : list byte -> option Z :=
  match host with
  | BIG_ENDIAN => BigEndianCodecUtils.ReadUInt16
  | LITTLE_ENDIAN => LittleEndianCodecUtils.ReadUInt16
  end.
Definition WriteUInt32 (host : byte_order) : list byte -> Z -> list byte :=
  match host with
  | BIG_ENDIAN => BigEndianCodecUtils.WriteUInt32
  | LITTLE_ENDIAN => LittleEndianCodecUtils.WriteUInt32
  end.
Definition WriteUInt64 (host : byte_order) : list byte -> Z -> list byte :=
  match host with
  | BIG_ENDIAN => BigEndianCodecUtils.WriteUInt64
  | LITTLE_ENDIAN => LittleEndianCodecUtils.WriteUInt64
  end.
Definition ReadUInt32 (host : byte_order) : list byte -> option Z :=
  match host with
  | BIG_ENDIAN => BigEndianCodecUtils.ReadUInt32
  | LITTLE_ENDIAN => LittleEndianCodecUtils.ReadUInt32
  end.
Definition ReadUInt64 (host : byte_order) : list byte -> option Z :=
  match host with
  | BIG_ENDIAN => BigEndianCodecUtils.ReadUInt64
  | LITTLE_ENDIAN => LittleEndianCodecUtils.ReadUInt64
  end.
End ByteOrderUtils.

(** ** Correctness *)

Ltac split_buf buf :=
  repeat match goal with
  | H : (S _ <= length buf)%nat |- _ => destruct buf as [|? buf]; simpl in H; [lia|]; apply le_S_n in H
  end.

Ltac solve_agree :=
  first [ exact eq_refl
        | first [ apply agree_u16 | apply agree_u32 | apply agree_u64 ];
          [lia | solve_agree] ].

Lemma le_write16 buf n :
  (2 <= length buf)%nat -> LittleEndianCodecUtils.WriteUInt16 buf n = be_bytes 2 n ++ drop 2 buf.
Proof.
  intros H. split_buf buf. cbv [LittleEndianCodecUtils.WriteUInt16]. simpl.
  repeat (apply (f_equal2 cons); [solve [reflexivity | apply (agree_z2b 0); solve_agree]|]); done.
Qed.

Lemma le_write32 buf n :
  (4 <= length buf)%nat -> LittleEndianCodecUtils.WriteUInt32 buf n = be_bytes 4 n ++ drop 4 buf.
Proof.
  intros H. split_buf buf. cbv [LittleEndianCodecUtils.WriteUInt32]. simpl.
  repeat (apply (f_equal2 cons); [solve [reflexivity | apply (agree_z2b 0); solve_agree]|]); done.
Qed.

Lemma le_write64 buf n :
  (8 <= length buf)%nat -> LittleEndianCodecUtils.WriteUInt64 buf n = be_bytes 8 n ++ drop 8 buf.
Proof.
  intros H. split_buf buf. cbv [LittleEndianCodecUtils.WriteUInt64]. simpl.
  repeat (apply (f_equal2 cons); [solve [reflexivity | apply (agree_z2b 0); solve_agree]|]); done.
Qed.

(** The big-endian writers store the same network-order bytes. *)
Lemma be_write16 buf n :
  (2 <= length buf)%nat -> BigEndianCodecUtils.WriteUInt16 buf n = be_bytes 2 n ++ drop 2 buf.
Proof. intros H. by split_buf buf. Qed.
Lemma be_write32 buf n :
  (4 <= length buf)%nat -> BigEndianCodecUtils.WriteUInt32 buf n = be_bytes 4 n ++ drop 4 buf.
Proof. intros H. by split_buf buf. Qed.
Lemma be_write64 buf n :
  (8 <= length buf)%nat -> BigEndianCodecUtils.WriteUInt64 buf n = be_bytes 8 n ++ drop 8 buf.
Proof. intros H. by split_buf buf. Qed.

(** Unfolds a read of the explicit bytes into [push_byte] steps. *)
Ltac read_bytes :=
  unfold be_val; simpl;
  repeat match goal with
  | b : byte |- _ => lazymatch goal with
    | _ : 0 <= b2z b < 256 |- _ => fail
    | _ => pose proof (b2z_range b)
    end
  end;
  unfold u16, u32, u64;
  repeat match goal with
  | |- context [Z.lor ((Z.shiftl ?a 8) mod ?w) (b2z ?b)] =>
      lazymatch a with context [Z.lor] => fail | _ => rewrite (push_byte w a (b2z b)) by lia end
  end;
  f_equal; lia.

Lemma le_read16 buf :
  LittleEndianCodecUtils.ReadUInt16 buf = BigEndianCodecUtils.ReadUInt16 buf.
Proof.
  destruct buf as [|? [|? buf]]; [done..|].
  cbv [BigEndianCodecUtils.ReadUInt16 BigEndianCodecUtils.host_load LittleEndianCodecUtils.ReadUInt16]. read_bytes.
Qed.
Lemma le_read32 buf :
  LittleEndianCodecUtils.ReadUInt32 buf = BigEndianCodecUtils.ReadUInt32 buf.
Proof.
  destruct buf as [|? [|? [|? [|? buf]]]]; [done..|].
  cbv [BigEndianCodecUtils.ReadUInt32 BigEndianCodecUtils.host_load LittleEndianCodecUtils.ReadUInt32]. read_bytes.
Qed.
Lemma le_read64 buf :
  LittleEndianCodecUtils.ReadUInt64 buf = BigEndianCodecUtils.ReadUInt64 buf.
Proof.
  destruct buf as [|? [|? [|? [|? [|? [|? [|? [|? buf]]]]]]]]; [done..|].
  cbv [BigEndianCodecUtils.ReadUInt64 BigEndianCodecUtils.host_load LittleEndianCodecUtils.ReadUInt64]. read_bytes.
Qed.

(** What clients of [ByteOrderUtils] use, for either host. *)
Lemma write16_spec host buf n :
  (2 <= length buf)%nat -> ByteOrderUtils.WriteUInt16 host buf n = be_bytes 2 n ++ drop 2 buf.
Proof. destruct host; [apply be_write16|apply le_write16]. Qed.
Lemma write32_spec host buf n :
  (4 <= length buf)%nat -> ByteOrderUtils.WriteUInt32 host buf n = be_bytes 4 n ++ drop 4 buf.
Proof. destruct host; [apply be_write32|apply le_write32]. Qed.
Lemma write64_spec host buf n :
  (8 <= length buf)%nat -> ByteOrderUtils.WriteUInt64 host buf n = be_bytes 8 n ++ drop 8 buf.
Proof. destruct host; [apply be_write64|apply le_write64]. Qed.

Lemma host_load_app k l rest :
  length l = k -> BigEndianCodecUtils.host_load k (l ++ rest) = Some (be_val l).
Proof.
  intros <-. unfold BigEndianCodecUtils.host_load. rewrite length_app.
  destruct (Nat.ltb_spec (length l + length rest) (length l)); [lia|].
  by rewrite take_app_length.
Qed.

Lemma read16_spec host l rest :
  length l = 2%nat -> ByteOrderUtils.ReadUInt16 host (l ++ rest) = Some (be_val l).
Proof. intros. destruct host; simpl; [|rewrite le_read16]; by apply host_load_app. Qed.
Lemma read32_spec host l rest :
  length l = 4%nat -> ByteOrderUtils.ReadUInt32 host (l ++ rest) = Some (be_val l).
Proof. intros. destruct host; simpl; [|rewrite le_read32]; by apply host_load_app. Qed.
Lemma read64_spec host l rest :
  length l = 8%nat -> ByteOrderUtils.ReadUInt64 host (l ++ rest) = Some (be_val l).
Proof. intros. destruct host; simpl; [|rewrite le_read64]; by apply host_load_app. Qed.

Lemma read32_be host n rest : ByteOrderUtils.ReadUInt32 host (be_bytes 4 n ++ rest) = Some (u32 n).
Proof. rewrite read32_spec by apply be_bytes_length. by rewrite be_val_bytes. Qed.
Lemma read64_be host n rest : ByteOrderUtils.ReadUInt64 host (be_bytes 8 n ++ rest) = Some (u64 n).
Proof. rewrite read64_spec by apply be_bytes_length. by rewrite be_val_bytes. Qed.
Lemma read16_be host n rest : ByteOrderUtils.ReadUInt16 host (be_bytes 2 n ++ rest) = Some (u16 n).
Proof. rewrite read16_spec by apply be_bytes_length. by rewrite be_val_bytes. Qed.

(** An integer written with [ByteOrderUtils] on a host of
    one byte order and read on a host of any byte order is the integer, at each
    width, wherever the destination has room for it. *)
Theorem codec_roundtrip (writer reader : byte_order) (buf : list byte) (n : Z)
    (Hbuf : (8 <= length buf)%nat) :
  ByteOrderUtils.ReadUInt16 reader (ByteOrderUtils.WriteUInt16 writer buf n) = Some (u16 n) /\
  ByteOrderUtils.ReadUInt32 reader (ByteOrderUtils.WriteUInt32 writer buf n) = Some (u32 n) /\
  ByteOrderUtils.ReadUInt64 reader (ByteOrderUtils.WriteUInt64 writer buf n) = Some (u64 n).
Proof.
  rewrite write16_spec, write32_spec, write64_spec by lia.
  by rewrite read16_be, read32_be, read64_be.
Qed.

Lemma codec_roundtrip_witness :
  LittleEndianCodecUtils.ReadUInt32
    (BigEndianCodecUtils.WriteUInt32 (replicate 8 x00) 1936550003) = Some 1936550003.
Proof. exact (proj1 (proj2 (codec_roundtrip BIG_ENDIAN LITTLE_ENDIAN (replicate 8 x00) 1936550003 ltac:(simpl; lia)))). Defined.

(** The two classes store the same bytes (most significant
    first) and touch nothing behind the field, so a file or a message written on
    a host of either byte order has the same image. *)
Theorem codec_portable (buf : list byte) (n : Z) (Hbuf : (8 <= length buf)%nat) :
  LittleEndianCodecUtils.WriteUInt16 buf n = BigEndianCodecUtils.WriteUInt16 buf n /\
  LittleEndianCodecUtils.WriteUInt32 buf n = BigEndianCodecUtils.WriteUInt32 buf n /\
  LittleEndianCodecUtils.WriteUInt64 buf n = BigEndianCodecUtils.WriteUInt64 buf n /\
  drop 4 (LittleEndianCodecUtils.WriteUInt32 buf n) = drop 4 buf /\
  drop 8 (LittleEndianCodecUtils.WriteUInt64 buf n) = drop 8 buf.
Proof.
  rewrite le_write16, le_write32, le_write64, be_write16, be_write32, be_write64 by lia.
  by rewrite !drop_app_ge by (rewrite be_bytes_length; lia).
Qed.

Lemma codec_portable_witness :
  drop 4 (LittleEndianCodecUtils.WriteUInt32 (replicate 9 x2a) 7) = replicate 5 x2a.
Proof.
  exact (proj1 (proj2 (proj2 (proj2 (codec_portable (replicate 9 x2a) 7 ltac:(simpl; lia)))))).
Defined.

#[global] Arguments be_bytes : simpl never.
