(* ===== verification/Buffer.v ===== *)
(** * Buffers over pool memory (src/common/buffer.{h,cc})

    [Buffer] is the class of buffer.h with its seven members; a [uchar*] is an
    address, [0] the null pointer.  [Refresh] also reports what it gives back:
    the pool object or the array the buffer owned.  [dbuf] pairs a buffer with
    the bytes its memory holds from [m_pStart] on, and [MemAlloc] is what a
    client of [sys::MemPool::Get] relies on. *)

From S2P Require Import Prelude Codec.

(** ** class Buffer *)

Record Buffer := mkBuffer {
  m_pPos : Z;
  m_pLast : Z;
  m_pStart : Z;
  m_pEnd : Z;
  m_pMpObject : option Z;
  m_bAvailable : bool;
  m_bOwn : bool
}.

(** [Buffer() = default] with the member initialisers. *)
Definition Buffer_default : Buffer := mkBuffer 0 0 0 0 None false false.

(** What a buffer releases: nothing, a pool object ([m_pMpObject->Put()]), or
    the array at [m_pStart] ([DELETE_ARR_PTR], which skips the null pointer). *)
Inductive release := PutObj (mpo : Z) | DeleteArr (p : Z).

Definition available (pos last start end_ : Z) : bool :=
  if (start =? 0) || (end_ =? 0) || (pos =? 0) || (last =? 0) then false else pos <=? last.

Definition check_available (b : Buffer) : Buffer :=
  mkBuffer (m_pPos b) (m_pLast b) (m_pStart b) (m_pEnd b) (m_pMpObject b)
    (available (m_pPos b) (m_pLast b) (m_pStart b) (m_pEnd b)) (m_bOwn b).

(** [Buffer(pos, last, start, end, mpo, own)] *)
Definition Buffer_make (pos last start end_ : Z) (mpo : option Z) (own : bool) : Buffer :=
  check_available (mkBuffer pos last start end_ mpo false own).

Definition Refresh (pos last start end_ : Z) (mpo : option Z) (own : bool) (b : Buffer) :
    Buffer * list release :=
  let released :=
    if m_bOwn b then
      match m_pMpObject b with
      | Some o => [PutObj o]
      | None => if m_pStart b =? 0 then [] else [DeleteArr (m_pStart b)]
      end
    else [] in
  (check_available (mkBuffer pos last start end_ mpo (m_bAvailable b) own), released).

Definition Put (b : Buffer) : Buffer * list release := Refresh 0 0 0 0 None false b.
Definition Reset (b : Buffer) : Buffer * list release := Refresh 0 0 0 0 None false b.
(** [~Buffer()] *)
Definition Buffer_destroy (b : Buffer) : list release := (Put b).2.

Definition Valid (b : Buffer) : bool := m_bAvailable b.

Definition MoveHeadBack (n : Z) (b : Buffer) : Buffer :=
  if (m_pPos b =? 0) || (m_pLast b =? 0) then
    mkBuffer (m_pPos b) (m_pLast b) (m_pStart b) (m_pEnd b) (m_pMpObject b) false (m_bOwn b)
  else
    check_available (mkBuffer (m_pPos b + n) (m_pLast b) (m_pStart b) (m_pEnd b)
      (m_pMpObject b) (m_bAvailable b) (m_bOwn b)).

Definition MoveTailBack (n : Z) (b : Buffer) : Buffer :=
  if negb (m_pLast b =? 0) then
    mkBuffer (m_pPos b) (m_pLast b + n) (m_pStart b) (m_pEnd b) (m_pMpObject b)
      (m_bAvailable b) (m_bOwn b)
  else
    check_available (mkBuffer (m_pPos b) (m_pStart b + n - 1) (m_pStart b) (m_pEnd b)
      (m_pMpObject b) (m_bAvailable b) (m_bOwn b)).

Definition TotalLength (b : Buffer) : Z :=
  if (m_pStart b =? 0) || (m_pEnd b =? 0) then 0 else i32 (i32 (m_pEnd b - m_pStart b) + 1).

Definition AvailableLength (b : Buffer) : Z :=
  if negb (m_bAvailable b) then 0
  else if (m_pLast b =? 0) || (m_pPos b =? 0) then 0
  else i32 (i32 (m_pLast b - m_pPos b) + 1).

Definition UnusedSize (b : Buffer) : Z :=
  if negb (m_bAvailable b) then 0
  else if negb (m_pLast b =? 0) then u64 (m_pEnd b - m_pLast b)
  else u64 (u64 (m_pEnd b - m_pStart b) + 1).

Definition SetPos (p : Z) (b : Buffer) : Buffer :=
  check_available (mkBuffer p (m_pLast b) (m_pStart b) (m_pEnd b) (m_pMpObject b)
    (m_bAvailable b) (m_bOwn b)).
Definition SetLast (l : Z) (b : Buffer) : Buffer :=
  check_available (mkBuffer (m_pPos b) l (m_pStart b) (m_pEnd b) (m_pMpObject b)
    (m_bAvailable b) (m_bOwn b)).
Definition SetStart (s : Z) (b : Buffer) : Buffer :=
  mkBuffer (m_pPos b) (m_pLast b) s (m_pEnd b) (m_pMpObject b) (m_bAvailable b) (m_bOwn b).
Definition SetEnd (e : Z) (b : Buffer) : Buffer :=
  mkBuffer (m_pPos b) (m_pLast b) (m_pStart b) e (m_pMpObject b) (m_bAvailable b) (m_bOwn b).
(** [BZero] also clears the bytes of [[m_pStart, m_pEnd]]. *)
Definition BZero (b : Buffer) : Buffer :=
  mkBuffer 0 0 (m_pStart b) (m_pEnd b) (m_pMpObject b) false (m_bOwn b).

Definition GetPos (b : Buffer) : Z := m_pPos b.
Definition GetLast (b : Buffer) : Z := m_pLast b.
Definition GetStart (b : Buffer) : Z := m_pStart b.
Definition GetEnd (b : Buffer) : Z := m_pEnd b.

(** [CommonUtils::GetNewBuffer] (src/utils/common-utils.cc) *)
Definition GetNewBuffer (ptr mpo totalBufferSize : Z) : Buffer :=
  Buffer_make 0 0 ptr (ptr + totalBufferSize - 1) (Some mpo) true.

(** ** A buffer with its bytes *)

Record dbuf := DBuf { db : Buffer; db_mem : list byte }.

(** The bytes of [[pos, last]], and a write at the buffer's position. *)
Definition db_content (d : dbuf) : list byte :=
  slice (m_pPos (db d) - m_pStart (db d)) (AvailableLength (db d)) (db_mem d).
Definition db_write (f : list byte -> list byte) (d : dbuf) : dbuf :=
  let off := Z.to_nat (m_pPos (db d) - m_pStart (db d)) in
  DBuf (db d) (take off (db_mem d) ++ f (drop off (db_mem d))).
Definition db_op (f : Buffer -> Buffer) (d : dbuf) : dbuf := DBuf (f (db d)) (db_mem d).

(** A view of [len] received bytes at address [p], in memory that holds [mem]
    from there on: the [common::Buffer b] that the loaders refresh over an
    entry's content. *)
Definition view (p len : Z) (mem : list byte) : dbuf :=
  DBuf (Refresh p (p + len - 1) p (p + len - 1) None false Buffer_default).1 mem.

(** ** Memory from a pool *)

Record memobj := MemObj { mo_ptr : Z; mo_size : Z; mo_mem : list byte }.

(** What [m_pMp->Get(size)] promises: an object at a non-null address with room
    for [size] bytes, holding whatever was there. *)
Class MemAlloc := {
  mp_Get : Z -> memobj;
  mp_Get_ok : forall n, 0 < n < 4294967296 ->
    0 < mo_ptr (mp_Get n) /\ n <= mo_size (mp_Get n) < 4294967296 /\
    zlen (mo_mem (mp_Get n)) = mo_size (mp_Get n)
}.

(** ** Lemmas *)

(** The invariant of a buffer: it is available only over a non-empty, non-null
    interval. *)
Definition buffer_ok (b : Buffer) : Prop :=
  m_bAvailable b = true -> m_pPos b <> 0 /\ m_pLast b <> 0 /\ m_pPos b <= m_pLast b.

Lemma available_true pos last start end_ :
  available pos last start end_ = true <->
  start <> 0 /\ end_ <> 0 /\ pos <> 0 /\ last <> 0 /\ pos <= last.
Proof.
  unfold available.
  destruct (Z.eqb_spec start 0), (Z.eqb_spec end_ 0), (Z.eqb_spec pos 0), (Z.eqb_spec last 0);
    simpl; rewrite ?Z.leb_le; split; (discriminate || lia).
Qed.

Lemma check_available_ok b : buffer_ok (check_available b).
Proof. intros H. apply available_true in H. simpl. tauto. Qed.

#[export] Hint Resolve check_available_ok : flykv.

Lemma MoveTailBack_ok n b : 0 <= n -> 0 <= m_pLast b -> buffer_ok b -> buffer_ok (MoveTailBack n b).
Proof.
  unfold MoveTailBack. intros Hn Hl Hb. destruct (Z.eqb_spec (m_pLast b) 0); simpl; auto with flykv.
  intros Ha. specialize (Hb Ha). simpl. lia.
Qed.

Lemma AvailableLength_avail b :
  m_bAvailable b = true -> buffer_ok b -> m_pLast b - m_pPos b < 2147483647 ->
  AvailableLength b = m_pLast b - m_pPos b + 1.
Proof.
  intros Ha Hok Hlen. destruct (Hok Ha) as (?&?&?). unfold AvailableLength. rewrite Ha. simpl.
  destruct (Z.eqb_spec (m_pLast b) 0), (Z.eqb_spec (m_pPos b) 0); [lia..|].
  simpl. rewrite !i32_small; rewrite ?i32_small; lia.
Qed.

Lemma AvailableLength_false b : m_bAvailable b = false -> AvailableLength b = 0.
Proof. unfold AvailableLength. by intros ->. Qed.

(** ** Behaviour *)

(** The operations on one buffer object after its construction. *)
Inductive bop :=
  | OpRefresh (pos last start end_ : Z) (mpo : option Z) (own : bool)
  | OpPut | OpReset
  | OpMoveHeadBack (n : Z) | OpMoveTailBack (n : Z)
  | OpSetPos (p : Z) | OpSetLast (p : Z) | OpSetEnd (p : Z)
  | OpBZero.

Definition run_bop (o : bop) (b : Buffer) : Buffer * list release :=
  match o with
  | OpRefresh pos last start end_ mpo own => Refresh pos last start end_ mpo own b
  | OpPut => Put b
  | OpReset => Reset b
  | OpMoveHeadBack n => (MoveHeadBack n b, [])
  | OpMoveTailBack n => (MoveTailBack n b, [])
  | OpSetPos p => (SetPos p b, [])
  | OpSetLast p => (SetLast p b, [])
  | OpSetEnd p => (SetEnd p b, [])
  | OpBZero => (BZero b, [])
  end.

Fixpoint run_bops (l : list bop) (b : Buffer) : Buffer * list release :=
  match l with
  | [] => (b, [])
  | o :: l => let '(b, r) := run_bop o b in let '(b, r') := run_bops l b in (b, r ++ r')
  end.

(** What a [Refresh] hands to the buffer to own. *)
Definition owned (start : Z) (mpo : option Z) (own : bool) : list release :=
  if own then
    match mpo with
    | Some o => [PutObj o]
    | None => if start =? 0 then [] else [DeleteArr start]
    end
  else [].

Definition handed (o : bop) : list release :=
  match o with OpRefresh _ _ start _ mpo own => owned start mpo own | _ => [] end.

Definition holding (b : Buffer) : list release := owned (m_pStart b) (m_pMpObject b) (m_bOwn b).

Lemma run_bop_holding o b :
  (run_bop o b).2 ++ holding (run_bop o b).1 = holding b ++ handed o.
Proof.
  destruct o; unfold holding; simpl; rewrite ?app_nil_r; try done.
  - unfold MoveHeadBack. by destruct (_ || _).
  - unfold MoveTailBack. by destruct (negb _).
Qed.

Lemma run_bops_holding l b :
  (run_bops l b).2 ++ holding (run_bops l b).1 = holding b ++ concat (map handed l).
Proof.
  revert b. induction l as [|o l IH]; intros b; [by rewrite app_nil_r|]. simpl.
  pose proof (run_bop_holding o b) as H. destruct (run_bop o b) as [b1 r1]. simpl in H.
  specialize (IH b1). destruct (run_bops l b1) as [b2 r2]. simpl in *.
  by rewrite <- app_assoc, IH, !app_assoc, H.
Qed.

(** Over the life of a [Buffer] (any sequence of
    operations, then the destructor) every pool object or array it was given to
    own is released exactly once and in order, and nothing else is released:
    no leak and no double free. *)
Theorem buffer_releases_once (l : list bop) :
  let '(b, released) := run_bops l Buffer_default in
  released ++ Buffer_destroy b = concat (map handed l).
Proof.
  pose proof (run_bops_holding l Buffer_default) as H.
  destruct (run_bops l Buffer_default) as [b r]. exact H.
Qed.

(** Every operation keeps the invariant, moving the tail by a length. *)
Definition bop_ok (o : bop) : Prop :=
  match o with OpMoveTailBack n => 0 <= n | _ => True end.

Lemma run_bop_ok o b : bop_ok o -> 0 <= m_pLast b -> buffer_ok b -> buffer_ok (run_bop o b).1.
Proof.
  destruct o; simpl; intros Ho Hl Hb; auto with flykv; try (unfold SetPos, SetLast; auto with flykv).
  - unfold MoveHeadBack. destruct (_ || _); auto with flykv. intros H. discriminate H.
  - by apply MoveTailBack_ok.
  - intros H. discriminate H.
Qed.

(** [MoveHeadBack(n)] consumes [n] bytes of an available
    buffer: the available length drops by [n], and to [0] (with [Valid()]
    false) when [n] reaches past the last byte; the invariant that an available
    buffer spans a non-empty non-null interval is kept. *)
Theorem buffer_head_back (b : Buffer) (n : Z)
    (Havail : m_bAvailable b = available (m_pPos b) (m_pLast b) (m_pStart b) (m_pEnd b))
    (Hpos : 0 <= m_pPos b) (Hn : 0 <= n) (Hlen : m_pLast b - m_pPos b < 2147483647) :
  AvailableLength (MoveHeadBack n b) = Z.max 0 (AvailableLength b - n) /\
  (Valid (MoveHeadBack n b) = true <-> n < AvailableLength b) /\
  buffer_ok (MoveHeadBack n b).
Proof.
  destruct (m_bAvailable b) eqn:Ha.
  - symmetry in Havail. apply available_true in Havail as (?&?&?&?&?).
    assert (AvailableLength b = m_pLast b - m_pPos b + 1) as ->.
    { apply AvailableLength_avail; [done|intros _; lia|done]. }
    unfold MoveHeadBack. destruct (Z.eqb_spec (m_pPos b) 0), (Z.eqb_spec (m_pLast b) 0); [lia..|]. cbn [orb].
    set (c := check_available _). assert (buffer_ok c) by apply check_available_ok.
    destruct (m_bAvailable c) eqn:Hc.
    + rewrite AvailableLength_avail by (done || simpl; lia). unfold Valid. rewrite Hc.
      apply available_true in Hc. simpl in *. split; [lia|]. split; [|done]. split; [lia|done].
    + rewrite AvailableLength_false by done. unfold Valid. rewrite Hc.
      assert (~ (m_pPos b + n <= m_pLast b)).
      { intros Hle. assert (m_bAvailable c = true); [|congruence]. apply available_true. simpl. lia. }
      split; [lia|]. split; [|done]. split; [done|lia].
  - rewrite (AvailableLength_false b) by done.
    assert (m_bAvailable (MoveHeadBack n b) = false) as Hf.
    { unfold MoveHeadBack. destruct (_ || _) eqn:E; [done|]. simpl.
      apply orb_false_iff in E as [E1%Z.eqb_neq E2%Z.eqb_neq].
      apply not_true_is_false. intros Ht%available_true. simpl in Ht.
      symmetry in Havail. apply not_true_iff_false in Havail. apply Havail, available_true. lia. }
    rewrite (AvailableLength_false _ Hf). unfold Valid. rewrite Hf.
    split; [lia|]. split; [split; [done|lia]|]. intros H. congruence.
Qed.

Lemma buffer_head_back_witness :
  AvailableLength (MoveHeadBack 1 (Buffer_make 4096 4100 4096 4111 (Some 7) true)) = 4.
Proof.
  exact (proj1 (buffer_head_back (Buffer_make 4096 4100 4096 4111 (Some 7) true) 1
    eq_refl ltac:(simpl; lia) ltac:(lia) ltac:(simpl; lia))).
Defined.

(** ** Received bytes *)

Lemma view_shape p len mem :
  0 < p -> 0 < len ->
  db (view p len mem) = mkBuffer p (p + len - 1) p (p + len - 1) None true false.
Proof.
  intros Hp Hlen. unfold view, Refresh, check_available. simpl. f_equal.
  apply available_true. lia.
Qed.

Lemma zlen_pos {A} (l : list A) : l <> [] -> 0 < zlen l.
Proof. destruct l; [done|]. rewrite zlen_cons. pose proof (zlen_nonneg l). lia. Qed.

Lemma avail_buffer_length pos last start end_ mpo own :
  0 < pos <= last -> last - pos < 2147483647 ->
  AvailableLength (mkBuffer pos last start end_ mpo true own) = last - pos + 1.
Proof. intros. apply AvailableLength_avail; [done| intros _; simpl; lia | simpl; lia]. Qed.

(** A loader's view of the [n + 1] bytes at [p] and the same view after its
    first byte is consumed. *)
Lemma view_content p bs rest :
  0 < p -> bs <> [] -> zlen bs < 2147483648 ->
  let v := view p (zlen bs) (bs ++ rest) in
  Valid (db v) = true /\ AvailableLength (db v) = zlen bs /\ db_content v = bs.
Proof.
  intros Hp Hbs%zlen_pos Hlen. cbv zeta. unfold db_content. rewrite view_shape by done.
  cbn [m_pPos m_pStart Valid m_bAvailable view db_mem].
  rewrite avail_buffer_length by lia. split; [done|]. split; [lia|].
  unfold slice. rewrite Z.sub_diag. replace (p + zlen bs - 1 - p + 1) with (zlen bs) by lia.
  unfold zlen. rewrite Nat2Z.id. simpl. apply take_app_length.
Qed.

Lemma view_tail p b bs rest :
  0 < p -> bs <> [] -> zlen (b :: bs) < 2147483648 ->
  let v := db_op (MoveHeadBack 1) (view p (zlen (b :: bs)) ((b :: bs) ++ rest)) in
  Valid (db v) = true /\ db_content v = bs.
Proof.
  intros Hp Hbs%zlen_pos Hlen. unfold db_content, db_op. cbv zeta. rewrite zlen_cons in *.
  rewrite view_shape by lia. unfold MoveHeadBack. cbn [m_pPos m_pLast db db_mem view].
  destruct (Z.eqb_spec p 0), (Z.eqb_spec (p + (1 + zlen bs) - 1) 0); [lia..|]. cbn [orb].
  unfold check_available. cbn [m_pPos m_pLast m_pStart m_pEnd m_pMpObject m_bOwn Valid m_bAvailable].
  assert (available (p + 1) (p + (1 + zlen bs) - 1) p (p + (1 + zlen bs) - 1) = true) as ->.
  { apply available_true. lia. }
  rewrite avail_buffer_length by lia. split; [done|].
  unfold slice. replace (Z.to_nat (p + 1 - p)) with 1%nat by lia. cbn [app drop].
  replace (p + (1 + zlen bs) - 1 - (p + 1) + 1) with (zlen bs) by lia.
  unfold zlen. rewrite Nat2Z.id. apply take_app_length.
Qed.
