(* ===== verification/Posix.v ===== *)
(** * The operating system the code runs on

    The POSIX calls the sources make, as state passing over a [world]: the
    regular files by path, the directories, the open descriptors of the process
    with their offsets, [errno], and the file locks.  An environment schedule
    [w_sched] says what happens at each coming system call: nothing special, an
    error, a partial transfer, or a kill of the process.  Nothing is assumed
    about it; a theorem about fault-free runs says so with [quiet].

    The root directory is the empty path and ["."] the working directory.
    Descriptors refer to paths: no code of the model reads or writes a file
    through a descriptor after the file was unlinked or renamed. *)

From S2P Require Import Prelude.
#[global] Open Scope string_scope.
#[global] Open Scope list_scope.
#[global] Open Scope Z_scope.

(** ** Strings *)

Definition slash : ascii := "/"%char.
Definition dot : ascii := "."%char.

(** [rfind(c)]: what is before and after the last [c]. *)
Fixpoint split_last (c : ascii) (s : string) : option (string * string) :=
  match s with
  | EmptyString => None
  | String a s' =>
      match split_last c s' with
      | Some (p, q) => Some (String a p, q)
      | None => if decide (a = c) then Some ("", s') else None
      end
  end.

Fixpoint str_has (c : ascii) (s : string) : bool :=
  match s with
  | EmptyString => false
  | String a s' => bool_decide (a = c) || str_has c s'
  end.

(** [s.find(pat) != std::string::npos] *)
Fixpoint str_contains (pat s : string) : bool :=
  String.prefix pat s || match s with EmptyString => false | String _ s' => str_contains pat s' end.

(** The rest of [s] after the prefix [pre]. *)
Fixpoint strip_prefix (pre s : string) : option string :=
  match pre, s with
  | EmptyString, _ => Some s
  | String a pre, String b s => if decide (a = b) then strip_prefix pre s else None
  | String _ _, EmptyString => None
  end.

Definition dirname (p : string) : string :=
  match split_last slash p with Some (d, _) => d | None => "." end.

Definition bytes_of (s : string) : list byte := String.list_byte_of_string s.
Definition string_of (l : list byte) : string := String.string_of_list_byte l.

Lemma string_of_bytes_of s : string_of (bytes_of s) = s.
Proof. apply String.string_of_list_byte_of_string. Qed.
Lemma bytes_of_string_of l : bytes_of (string_of l) = l.
Proof. apply String.list_byte_of_string_of_list_byte. Qed.

Lemma str_has_app c s t : str_has c (s +:+ t) = str_has c s || str_has c t.
Proof. induction s as [|a s IH]; simpl; [done|]. by rewrite IH, orb_assoc. Qed.

Lemma split_last_none c s : str_has c s = false -> split_last c s = None.
Proof.
  induction s as [|a s IH]; simpl; [done|]. intros [H1 H2]%orb_false_iff.
  rewrite (IH H2). destruct (decide (a = c)); [|done]. subst.
  by rewrite bool_decide_eq_false in H1.
Qed.

Lemma split_last_app c p q : str_has c q = false -> split_last c (p +:+ String c q) = Some (p, q).
Proof.
  intros Hq. induction p as [|a p IH]; simpl.
  - rewrite split_last_none by done. by rewrite decide_True.
  - by rewrite IH.
Qed.

Lemma strip_prefix_app p q : strip_prefix p (p +:+ q) = Some q.
Proof. induction p as [|a p IH]; simpl; [done|]. by rewrite decide_True. Qed.

Lemma strip_prefix_Some p s q : strip_prefix p s = Some q -> s = p +:+ q.
Proof.
  revert s. induction p as [|a p IH]; intros s; simpl.
  - by intros [= ->].
  - destruct s as [|b s]; [done|]. destruct (decide (a = b)); [|done]. intros ->%IH. by subst.
Qed.

Lemma str_app_assoc (s t u : string) : (s +:+ t) +:+ u = s +:+ (t +:+ u).
Proof. induction s as [|a s IH]; [done|]. exact (f_equal (String a) IH). Qed.

Lemma str_app_inj_l (p s t : string) : p +:+ s = p +:+ t -> s = t.
Proof. induction p as [|a p IH]; simpl; [done|]. intros [= H]. by apply IH. Qed.

(** ** The world *)

Inductive event :=
  | Fine
  | Fault (e : Z)      (* the call fails with [errno = e] *)
  | Partial (n : Z)    (* a read or write transfers at most [n] bytes *)
  | Kill.              (* the process dies before the call takes effect *)

Record fdesc := FDesc { fd_path : string; fd_off : Z }.

Record world := World {
  w_files : gmap string (list byte);
  w_dirs : gset string;
  w_fds : gmap Z fdesc;
  w_next_fd : Z;
  w_errno : Z;
  w_locking : gset string;    (* FileUtils::s_LockingFiles of this process *)
  w_flocks : gset string;     (* files locked by another process *)
  w_sched : list event
}.

Definition set_files f (w : world) : world :=
  World (f (w_files w)) (w_dirs w) (w_fds w) (w_next_fd w) (w_errno w) (w_locking w) (w_flocks w) (w_sched w).
Definition set_dirs f (w : world) : world :=
  World (w_files w) (f (w_dirs w)) (w_fds w) (w_next_fd w) (w_errno w) (w_locking w) (w_flocks w) (w_sched w).
Definition set_fds f (w : world) : world :=
  World (w_files w) (w_dirs w) (f (w_fds w)) (w_next_fd w) (w_errno w) (w_locking w) (w_flocks w) (w_sched w).
Definition set_next_fd n (w : world) : world :=
  World (w_files w) (w_dirs w) (w_fds w) n (w_errno w) (w_locking w) (w_flocks w) (w_sched w).
Definition set_errno e (w : world) : world :=
  World (w_files w) (w_dirs w) (w_fds w) (w_next_fd w) e (w_locking w) (w_flocks w) (w_sched w).
Definition set_locking f (w : world) : world :=
  World (w_files w) (w_dirs w) (w_fds w) (w_next_fd w) (w_errno w) (f (w_locking w)) (w_flocks w) (w_sched w).
Definition set_flocks f (w : world) : world :=
  World (w_files w) (w_dirs w) (w_fds w) (w_next_fd w) (w_errno w) (w_locking w) (f (w_flocks w)) (w_sched w).
Definition set_sched l (w : world) : world :=
  World (w_files w) (w_dirs w) (w_fds w) (w_next_fd w) (w_errno w) (w_locking w) (w_flocks w) l.

(** No fault, partial transfer or kill is coming. *)
Definition quiet (w : world) : Prop := w_sched w = [].

(** ** errno values *)

Definition ENOENT : Z := 2.
Definition EINTR : Z := 4.
Definition EBADF : Z := 9.
Definition EAGAIN : Z := 11.
Definition EEXIST : Z := 17.
Definition ENOTDIR : Z := 20.
Definition EISDIR : Z := 21.
Definition EINVAL : Z := 22.
Definition ERANGE : Z := 34.

(** ** System calls

    [sys_enter] takes the schedule's next entry.  A call then answers as POSIX
    has it from the state alone; an error sets [errno]. *)

Inductive entered := EFine | EFault | EPartial (n : Z).

Definition sys_enter : M world entered := fun w =>
  match w_sched w with
  | [] => (Ok EFine, w)
  | Fine :: l => (Ok EFine, set_sched l w)
  | Fault e :: l => (Ok EFault, set_errno e (set_sched l w))
  | Partial n :: l => (Ok (EPartial n), set_sched l w)
  | Kill :: l => (Stop Crashed, set_sched l w)
  end.

Definition fail {A} (e : Z) (a : A) : M world A := modS (set_errno e);; mret a.

Definition exists_path (p : string) (w : world) : bool :=
  bool_decide (is_Some (w_files w !! p)) || bool_decide (p ∈ w_dirs w).

(** [access(path, F_OK) != -1] *)
Definition sys_access (p : string) : M world bool :=
  e ← sys_enter;
  match e with
  | EFault => mret false
  | _ => b ← getS (exists_path p); if b : bool then mret true else fail ENOENT false
  end.

Inductive accmode := O_RDONLY | O_WRONLY | O_RDWR.

Definition alloc_fd (p : string) : M world Z := fun w =>
  (Ok (w_next_fd w),
   set_fds <[w_next_fd w := FDesc p 0]> (set_next_fd (w_next_fd w + 1) w)).

(** [open(path, mode | creat | trunc)]; [creat], [trunc] say whether the flag is set. *)
Definition sys_open (p : string) (mode : accmode) (creat trunc : bool) : M world Z :=
  e ← sys_enter;
  match e with
  | EFault => mret (-1)
  | _ =>
      isdir ← getS (fun w => bool_decide (p ∈ w_dirs w));
      if isdir : bool then fail EISDIR (-1)
      else
        f ← getS (fun w => w_files w !! p);
        match f with
        | Some _ =>
            (if trunc then modS (set_files <[p := []]>) else mret tt);;
            alloc_fd p
        | None =>
            if creat then
              parent ← getS (fun w => bool_decide (dirname p ∈ w_dirs w));
              if parent : bool then modS (set_files <[p := []]>);; alloc_fd p
              else fail ENOENT (-1)
            else fail ENOENT (-1)
        end
  end.

(** [close(fd)] *)
Definition sys_close (fd : Z) : M world Z :=
  e ← sys_enter;
  match e with
  | EFault => modS (set_fds (delete fd));; mret (-1)
  | _ =>
      d ← getS (fun w => w_fds w !! fd);
      match d with
      | Some _ => modS (set_fds (delete fd));; mret 0
      | None => fail EBADF (-1)
      end
  end.

(** The bytes transferred when [n] are asked for: at least one of them. *)
Definition clip (e : entered) (n : Z) : Z :=
  match e with EPartial k => Z.max 1 (Z.min k n) | _ => n end.

(** [read(fd, buf, n)]: [None] is [-1], [Some bs] the bytes stored in [buf]. *)
Definition sys_read (fd n : Z) : M world (option (list byte)) :=
  e ← sys_enter;
  match e with
  | EFault => mret None
  | _ =>
      d ← getS (fun w => w_fds w !! fd);
      match d with
      | None => fail EBADF None
      | Some d =>
          f ← getS (fun w => w_files w !! fd_path d);
          match f with
          | None => fail EBADF None
          | Some c =>
              let bs := slice (fd_off d) (clip e n) c in
              modS (set_fds <[fd := FDesc (fd_path d) (fd_off d + zlen bs)]>);;
              mret (Some bs)
          end
      end
  end.

(** [pread(fd, buf, n, off)] *)
Definition sys_pread (fd n off : Z) : M world (option (list byte)) :=
  e ← sys_enter;
  match e with
  | EFault => mret None
  | _ =>
      d ← getS (fun w => w_fds w !! fd);
      match d with
      | None => fail EBADF None
      | Some d =>
          f ← getS (fun w => w_files w !! fd_path d);
          match f with
          | None => fail EBADF None
          | Some c => mret (Some (slice off (clip e n) c))
          end
      end
  end.

(** A file's bytes after [bs] is written at [off]: a gap is filled with zeros. *)
Definition file_write (off : Z) (bs c : list byte) : list byte :=
  let c := c ++ replicate (Z.to_nat off - length c) x00 in
  take (Z.to_nat off) c ++ bs ++ drop (Z.to_nat off + length bs) c.

(** [write(fd, bs, |bs|)]: [-1] or the number of bytes written. *)
Definition sys_write (fd : Z) (bs : list byte) : M world Z :=
  e ← sys_enter;
  match e with
  | EFault => mret (-1)
  | _ =>
      d ← getS (fun w => w_fds w !! fd);
      match d with
      | None => fail EBADF (-1)
      | Some d =>
          f ← getS (fun w => w_files w !! fd_path d);
          match f with
          | None => fail EBADF (-1)
          | Some c =>
              let n := clip e (zlen bs) in
              modS (set_files <[fd_path d := file_write (fd_off d) (take (Z.to_nat n) bs) c]>);;
              modS (set_fds <[fd := FDesc (fd_path d) (fd_off d + n)]>);;
              mret n
          end
      end
  end.

Inductive whence := SEEK_SET | SEEK_CUR.

(** [lseek(fd, off, whence)] *)
Definition sys_lseek (fd off : Z) (wh : whence) : M world Z :=
  e ← sys_enter;
  match e with
  | EFault => mret (-1)
  | _ =>
      d ← getS (fun w => w_fds w !! fd);
      match d with
      | None => fail EBADF (-1)
      | Some d =>
          let p := match wh with SEEK_SET => off | SEEK_CUR => fd_off d + off end in
          if p <? 0 then fail EINVAL (-1)
          else modS (set_fds <[fd := FDesc (fd_path d) p]>);; mret p
      end
  end.

(** [stat]: [None] for an error, else the size of a file ([None] for a directory). *)
Definition sys_stat (p : string) : M world (option (option Z)) :=
  e ← sys_enter;
  match e with
  | EFault => mret None
  | _ =>
      f ← getS (fun w => w_files w !! p);
      match f with
      | Some c => mret (Some (Some (zlen c)))
      | None =>
          isdir ← getS (fun w => bool_decide (p ∈ w_dirs w));
          if isdir : bool then mret (Some None) else fail ENOENT None
      end
  end.

(** [fstat(fd)]: the size, [-1] for an error. *)
Definition sys_fstat (fd : Z) : M world Z :=
  e ← sys_enter;
  match e with
  | EFault => mret (-1)
  | _ =>
      d ← getS (fun w => w_fds w !! fd);
      match d with
      | None => fail EBADF (-1)
      | Some d =>
          f ← getS (fun w => w_files w !! fd_path d);
          match f with None => fail EBADF (-1) | Some c => mret (zlen c) end
      end
  end.

Definition sys_unlink (p : string) : M world Z :=
  e ← sys_enter;
  match e with
  | EFault => mret (-1)
  | _ =>
      f ← getS (fun w => w_files w !! p);
      match f with
      | Some _ => modS (set_files (delete p));; mret 0
      | None => fail ENOENT (-1)
      end
  end.

Definition sys_rename (p q : string) : M world Z :=
  e ← sys_enter;
  match e with
  | EFault => mret (-1)
  | _ =>
      f ← getS (fun w => w_files w !! p);
      match f with
      | Some c => modS (set_files (fun m => <[q := c]> (delete p m)));; mret 0
      | None => fail ENOENT (-1)
      end
  end.

Definition sys_fdatasync (fd : Z) : M world Z :=
  e ← sys_enter;
  match e with
  | EFault => mret (-1)
  | _ =>
      d ← getS (fun w => w_fds w !! fd);
      match d with Some _ => mret 0 | None => fail EBADF (-1) end
  end.

Definition sys_mkdir (p : string) : M world Z :=
  e ← sys_enter;
  match e with
  | EFault => mret (-1)
  | _ =>
      b ← getS (exists_path p);
      parent ← getS (fun w => bool_decide (dirname p ∈ w_dirs w));
      if b : bool then fail EEXIST (-1)
      else if negb parent then fail ENOENT (-1)
      else modS (set_dirs (fun d => {[p]} ∪ d));; mret 0
  end.

(** [opendir] and the names [readdir] yields, [.] and [..] apart: the children
    of the directory, in an order the system chooses. *)
Definition child_name (dir p : string) : option string :=
  match strip_prefix (dir +:+ "/") p with
  | Some n => if str_has slash n || String.eqb n "" then None else Some n
  | None => None
  end.

Definition children (dir : string) (w : world) : list string :=
  omap (child_name dir) (map fst (map_to_list (w_files w)) ++ elements (w_dirs w)).

Definition sys_readdir (dir : string) : M world (option (list string)) :=
  e ← sys_enter;
  match e with
  | EFault => mret None
  | _ =>
      isdir ← getS (fun w => bool_decide (dir ∈ w_dirs w));
      if isdir : bool then l ← getS (children dir); mret (Some l) else fail ENOENT None
  end.

(** [fcntl(fd, F_SETLK / F_SETLKW / F_GETLK, F_WRLCK)] on the whole file. *)
Definition sys_setlk (p : string) : M world Z :=
  e ← sys_enter;
  match e with
  | EFault => mret (-1)
  | _ =>
      b ← getS (fun w => bool_decide (p ∈ w_flocks w));
      if b : bool then fail EAGAIN (-1) else mret 0
  end.

(** [F_SETLKW] waits until the other process has released the file. *)
Definition sys_setlkw (p : string) : M world Z :=
  e ← sys_enter;
  match e with
  | EFault => mret (-1)
  | _ => modS (set_flocks (fun s => s ∖ {[p]}));; mret 0
  end.

(** [F_GETLK]: [None] for an error, else whether another process holds it. *)
Definition sys_getlk (p : string) : M world (option bool) :=
  e ← sys_enter;
  match e with
  | EFault => mret None
  | _ => b ← getS (fun w => bool_decide (p ∈ w_flocks w)); mret (Some b)
  end.

Definition get_errno : M world Z := getS w_errno.

(** ** System calls of a fault-free run

    Each lemma gives a call's answer and the world after it; [errno] may have
    changed. *)

Section quiet_calls.
Context (w : world) (Hq : quiet w).

Lemma wp_enter Q : Q EFine w -> wp sys_enter w Q.
Proof. unfold wp, wpc, sys_enter. by rewrite Hq. Qed.

Ltac syscall := intros; wbind; apply wp_enter; wpure.

Lemma wp_access p Q :
  (forall e, Q (exists_path p w) (set_errno e w)) -> wp (sys_access p) w Q.
Proof.
  syscall. destruct (exists_path p w); [|unfold fail; wpure; eauto].
  wpure. specialize (H (w_errno w)). by destruct w.
Qed.

Lemma wp_close fd d Q :
  w_fds w !! fd = Some d -> Q 0 (set_fds (delete fd) w) -> wp (sys_close fd) w Q.
Proof. syscall. rewrite H. by wpure. Qed.

Lemma wp_read fd n d c Q :
  w_fds w !! fd = Some d -> w_files w !! fd_path d = Some c ->
  Q (Some (slice (fd_off d) n c))
    (set_fds <[fd := FDesc (fd_path d) (fd_off d + zlen (slice (fd_off d) n c))]> w) ->
  wp (sys_read fd n) w Q.
Proof. syscall. rewrite H. wpure. rewrite H0. by wpure. Qed.

Lemma wp_write fd bs d c Q :
  w_fds w !! fd = Some d -> w_files w !! fd_path d = Some c ->
  Q (zlen bs) (set_fds <[fd := FDesc (fd_path d) (fd_off d + zlen bs)]>
    (set_files <[fd_path d := file_write (fd_off d) bs c]> w)) ->
  wp (sys_write fd bs) w Q.
Proof.
  syscall. rewrite H. wpure. rewrite H0. wpure. simpl clip.
  unfold zlen in *. by rewrite Nat2Z.id, firstn_all.
Qed.

Lemma wp_lseek_set fd off d Q :
  w_fds w !! fd = Some d -> 0 <= off ->
  Q off (set_fds <[fd := FDesc (fd_path d) off]> w) -> wp (sys_lseek fd off SEEK_SET) w Q.
Proof. syscall. rewrite H. wpure. destruct (Z.ltb_spec off 0); [lia|]. by wpure. Qed.

Lemma wp_lseek_cur fd off d Q :
  w_fds w !! fd = Some d -> 0 <= fd_off d + off ->
  Q (fd_off d + off) (set_fds <[fd := FDesc (fd_path d) (fd_off d + off)]> w) ->
  wp (sys_lseek fd off SEEK_CUR) w Q.
Proof. syscall. rewrite H. wpure. destruct (Z.ltb_spec (fd_off d + off) 0); [lia|]. by wpure. Qed.

Lemma wp_fstat fd d c Q :
  w_fds w !! fd = Some d -> w_files w !! fd_path d = Some c -> Q (zlen c) w ->
  wp (sys_fstat fd) w Q.
Proof. syscall. rewrite H. wpure. rewrite H0. by wpure. Qed.

Lemma wp_stat_file p c Q :
  w_files w !! p = Some c -> Q (Some (Some (zlen c))) w -> wp (sys_stat p) w Q.
Proof. syscall. rewrite H. by wpure. Qed.

Lemma wp_stat_dir p Q :
  w_files w !! p = None -> p ∈ w_dirs w -> Q (Some None) w -> wp (sys_stat p) w Q.
Proof. syscall. rewrite H. wpure. rewrite bool_decide_eq_true_2 by done. by wpure. Qed.

Lemma wp_unlink p c Q :
  w_files w !! p = Some c -> Q 0 (set_files (delete p) w) -> wp (sys_unlink p) w Q.
Proof. syscall. rewrite H. by wpure. Qed.

Lemma wp_rename p q c Q :
  w_files w !! p = Some c -> Q 0 (set_files (fun m => <[q := c]> (delete p m)) w) ->
  wp (sys_rename p q) w Q.
Proof. syscall. rewrite H. by wpure. Qed.

Lemma wp_fdatasync fd d Q : w_fds w !! fd = Some d -> Q 0 w -> wp (sys_fdatasync fd) w Q.
Proof. syscall. rewrite H. by wpure. Qed.

Lemma wp_open_existing p mode creat c Q :
  p ∉ w_dirs w -> w_files w !! p = Some c ->
  Q (w_next_fd w) (set_fds <[w_next_fd w := FDesc p 0]> (set_next_fd (w_next_fd w + 1) w)) ->
  wp (sys_open p mode creat false) w Q.
Proof. syscall. rewrite bool_decide_eq_false_2 by done. wpure. rewrite H0. by wpure. Qed.

(** Creating, or truncating if the file is there: an empty file either way. *)
Lemma wp_open_trunc p mode Q :
  p ∉ w_dirs w -> dirname p ∈ w_dirs w ->
  Q (w_next_fd w) (set_fds <[w_next_fd w := FDesc p 0]> (set_next_fd (w_next_fd w + 1)
    (set_files <[p := []]> w))) ->
  wp (sys_open p mode true true) w Q.
Proof.
  syscall. rewrite bool_decide_eq_false_2 by done. wpure.
  destruct (w_files w !! p); wpure; [done|]. rewrite bool_decide_eq_true_2 by done. by wpure.
Qed.

Lemma wp_open_creat p mode trunc Q :
  p ∉ w_dirs w -> dirname p ∈ w_dirs w -> w_files w !! p = None ->
  Q (w_next_fd w) (set_fds <[w_next_fd w := FDesc p 0]> (set_next_fd (w_next_fd w + 1)
    (set_files <[p := []]> w))) ->
  wp (sys_open p mode true trunc) w Q.
Proof.
  syscall. rewrite bool_decide_eq_false_2 by done. wpure. rewrite H1. wpure.
  rewrite bool_decide_eq_true_2 by done. by wpure.
Qed.

Lemma wp_readdir dir Q :
  dir ∈ w_dirs w -> Q (Some (children dir w)) w -> wp (sys_readdir dir) w Q.
Proof. syscall. rewrite bool_decide_eq_true_2 by done. by wpure. Qed.
End quiet_calls.
