(* ===== verification/Files.v ===== *)
(** * File and text helpers (src/utils/{io-utils,file-utils,common-utils})

    [IOUtils]: full reads and writes over the partial ones of the system.
    [FileUtils]: directories, sizes, whole-file reads, deletion and the lock
    files with the process-wide set [s_LockingFiles].  [CommonUtils]: decimal
    conversion ([strtoul] as the C library has it), trimming, powers of two.
    The spin lock around [s_LockingFiles] is taken and released within each
    function and is not modelled. *)

From S2P Require Import Prelude Posix.

(** ** class IOUtils *)

Module IOUtils.

(** [while (left_size) { n = write(...); ... }]; [true] when all was written. *)
Fixpoint write_loop (fuel : nat) (fd : Z) (left : list byte) : M world bool :=
  match left with
  | [] => mret true
  | _ =>
      match fuel with
      | O => halt Diverged
      | S fuel =>
          n ← sys_write fd left;
          if n =? -1 then mret false else write_loop fuel fd (drop (Z.to_nat n) left)
      end
  end.

(** [buf] is [None] for the null pointer, else the [size] bytes to write. *)
Definition WriteFully (fd : Z) (buf : option (list byte)) : M world Z :=
  match buf with
  | None => mret (-1)
  | Some bs =>
      if fd =? -1 then mret (-1)
      else if zlen bs =? 0 then mret 0
      else
        ok ← write_loop (length bs) fd bs;
        mret (if ok : bool then zlen bs else -1)
  end.

(** The loop of [ReadFully] and [ReadFully_V4]: the bytes read so far, [None]
    after an error; the end of the file ends it early. *)
Fixpoint read_loop (fuel : nat) (fd left : Z) (acc : list byte) : M world (option (list byte)) :=
  if left =? 0 then mret (Some acc)
  else
    match fuel with
    | O => halt Diverged
    | S fuel =>
        r ← sys_read fd left;
        match r with
        | None => mret None
        | Some [] => mret (Some acc)
        | Some bs => read_loop fuel fd (left - zlen bs) (acc ++ bs)
        end
    end.

(** The destination after [bzero(buf, size)] and a read of [bs]. *)
Definition zero_filled (size : Z) (bs : list byte) : list byte :=
  bs ++ replicate (Z.to_nat size - length bs) x00.

(** The returned count and the buffer's bytes. *)
Definition ReadFully_V4 (fd size : Z) : M world (Z * list byte) :=
  if (fd =? -1) || (size =? 0) then mret (0, [])
  else
    r ← read_loop (Z.to_nat size) fd size [];
    mret (match r with
          | None => (-1, zero_filled size [])
          | Some bs => (zlen bs, zero_filled size bs)
          end).

(** [ReadFully] allocates the buffer itself; [None] is the pointer left null. *)
Definition ReadFully (fd size : Z) : M world (Z * option (list byte)) :=
  if (fd =? -1) || (size =? 0) then mret (0, None)
  else
    r ← read_loop (Z.to_nat size) fd size [];
    mret (match r with
          | None => (-1, None)
          | Some bs => (zlen bs, Some (zero_filled size bs))
          end).

(** [while (0 < (n = pread(fd, buf + nread, total - nread, nread)))] *)
Fixpoint pread_loop (fuel : nat) (fd total : Z) (acc : list byte) : M world (option (list byte)) :=
  match fuel with
  | O => halt Diverged
  | S fuel =>
      r ← sys_pread fd (total - zlen acc) (zlen acc);
      match r with
      | None => mret None
      | Some [] => mret (Some acc)
      | Some bs => pread_loop fuel fd total (acc ++ bs)
      end
  end.

Definition ReadFully_V2 (fd size : Z) : M world (Z * option (list byte)) :=
  if (fd =? -1) || (size =? 0) then mret (0, None)
  else
    r ← pread_loop (S (Z.to_nat size)) fd size [];
    mret (match r with
          | None => (-1, None)
          | Some bs => (zlen bs, Some (zero_filled size bs))
          end).

Definition ReadFully_V3 (fd size : Z) : M world (Z * list byte) :=
  if (fd =? -1) || (size =? 0) then mret (0, [])
  else
    r ← pread_loop (S (Z.to_nat size)) fd size [];
    mret (match r with
          | None => (-1, zero_filled size [])
          | Some bs => (zlen bs, zero_filled size bs)
          end).

End IOUtils.

(** ** class CommonUtils: text *)

Module CommonUtils.

Definition is_digit (c : ascii) : bool :=
  (48 <=? nat_of_ascii c)%nat && (nat_of_ascii c <=? 57)%nat.
Definition digit_val (c : ascii) : Z := Z.of_nat (nat_of_ascii c) - 48.
Definition digit_chr (d : Z) : ascii := ascii_of_nat (Z.to_nat (48 + d)).
(** [isspace] of the C locale *)
Definition is_space (c : ascii) : bool :=
  (nat_of_ascii c =? 32)%nat || ((9 <=? nat_of_ascii c)%nat && (nat_of_ascii c <=? 13)%nat).
Definition nul : ascii := ascii_of_nat 0.

(** [ToString]: [ss << s] of an unsigned integer, at most 20 digits. *)
Fixpoint dec_digits (fuel : nat) (n : Z) (acc : string) : string :=
  match fuel with
  | O => acc
  | S fuel =>
      let acc := String (digit_chr (n mod 10)) acc in
      if n <? 10 then acc else dec_digits fuel (n / 10) acc
  end.
Definition ToString (n : Z) : string := dec_digits 20 n "".

(** [strtoul(s, &endptr, 10)] *)
Fixpoint skip_space (s : string) : string :=
  match s with
  | String c s' => if is_space c then skip_space s' else s
  | EmptyString => s
  end.

Fixpoint parse_digits (s : string) (acc : Z) : Z * string :=
  match s with
  | String c s' => if is_digit c then parse_digits s' (acc * 10 + digit_val c) else (acc, s)
  | EmptyString => (acc, s)
  end.

Definition ULONG_MAX : Z := 18446744073709551615.

(** The value, the errno the call sets, and [endptr] ([None] when it is [s]
    itself because there was nothing to convert). *)
Definition strtoul (s : string) : Z * option Z * option string :=
  let s1 := skip_space s in
  let '(neg, s2) :=
    match s1 with
    | String c s' =>
        if decide (c = "-"%char) then (true, s')
        else if decide (c = "+"%char) then (false, s') else (false, s1)
    | EmptyString => (false, s1)
    end in
  match s2 with
  | String c _ =>
      if is_digit c then
        let '(v, rest) := parse_digits s2 0 in
        if ULONG_MAX <? v then (ULONG_MAX, Some ERANGE, Some rest)
        else (if neg then u64 (- v) else v, None, Some rest)
      else (0, None, None)
  | EmptyString => (0, None, None)
  end.

(** The C string of a [std::string] ends at its first NUL. *)
Fixpoint c_str (s : string) : string :=
  match s with
  | String c s' => if decide (c = nul) then EmptyString else String c (c_str s')
  | EmptyString => EmptyString
  end.

(** [ToUint46_t(s, val)]: the returned flag and [val].  [errno] is tested as
    the call finds it: it is not cleared first. *)
Definition ToUint46_t (s : string) : M world (bool * Z) :=
  let '(val, err, endptr) := strtoul (c_str s) in
  match err with Some e => modS (set_errno e) | None => mret tt end;;
  errno ← get_errno;
  if ((errno =? ERANGE) && ((val =? ULONG_MAX) || (val =? 0)))
     || (negb (errno =? 0) && (val =? 0))
  then mret (false, val)
  else
    match endptr with
    | None => mret (false, val)
    | Some rest => mret (String.eqb rest "", val)
    end.

(** [IsPowerOfTwo(int x)] *)
Definition IsPowerOfTwo (x : Z) : bool := (0 <? x) && (Z.land x (x - 1) =? 0).

(** [ltrim], [rtrim], [trim] *)
Definition ltrim (s : string) : string := skip_space s.
Fixpoint rtrim (s : string) : string :=
  match s with
  | String c s' =>
      match rtrim s' with
      | EmptyString => if is_space c then EmptyString else String c EmptyString
      | r => String c r
      end
  | EmptyString => EmptyString
  end.
Definition trim (s : string) : string := rtrim (ltrim s).

End CommonUtils.

(** ** struct File, class FileUtils *)

Record File := MkFile { fd : Z; path : string }.
Definition File_default : File := MkFile (-1) "".

Module FileUtils.

Definition CreateDir (dir : string) : M world Z :=
  st ← sys_stat dir;
  match st with
  | Some None => mret 0
  | Some (Some _) => mret (-1)
  | None =>
      r ← sys_mkdir dir;
      if negb (r =? 0) then
        err ← get_errno;
        if err =? EEXIST then mret 0 else mret (-1)
      else mret 0
  end.

(** The loop over the path's characters: [done] is the part before [p]. *)
Fixpoint create_dirs (done rest : string) : M world Z :=
  match rest with
  | EmptyString => CreateDir done
  | String c rest' =>
      if decide (c = slash) then
        r ← CreateDir done;
        if r =? -1 then mret (-1) else create_dirs (done +:+ String c EmptyString) rest'
      else create_dirs (done +:+ String c EmptyString) rest'
  end.

Definition PATH_MAX : nat := 4096.

Definition CreateDirPath (path : string) : M world Z :=
  let buffer := CommonUtils.c_str (String.substring 0 PATH_MAX path) in
  match buffer with
  | String c rest =>
      if decide (c = slash) then create_dirs (String c EmptyString) rest
      else create_dirs EmptyString buffer
  | EmptyString => CreateDir EmptyString
  end.

Definition Exist (path : string) : M world bool := sys_access path.
Definition Open (path : string) (mode : accmode) (creat trunc : bool) : M world Z :=
  sys_open path mode creat trunc.
Definition IsDir (path : string) : M world bool :=
  st ← sys_stat path; mret (match st with Some None => true | _ => false end).
Definition IsFile (path : string) : M world bool :=
  st ← sys_stat path; mret (match st with Some (Some _) => true | _ => false end).

(** The [readdir] loop of [CollectFileChildren]: [rs] collects the paths of the
    regular files that pass the filter; a failing [stat] ends it with its errno. *)
Fixpoint collect (dir : string) (filter : string -> bool) (names rs : list string) :
    M world (Z * list string) :=
  match names with
  | [] => mret (0, rs)
  | n :: names =>
      let buf := dir +:+ "/" +:+ n in
      st ← sys_stat buf;
      match st with
      | None => e ← get_errno; mret (e, rs)
      | Some (Some _) => collect dir filter names (if filter buf then rs ++ [buf] else rs)
      | Some None => collect dir filter names rs
      end
  end.

Definition CollectFileChildren (path : string) (filter : string -> bool) :
    M world (Z * list string) :=
  d ← sys_readdir path;
  match d with
  | None => e ← get_errno; mret (e, [])
  | Some names => collect path filter names []
  end.

(** [GetFileSize(path)]; the size of a directory is the file system's. *)
Definition GetFileSize (path : string) : M world Z :=
  st ← sys_stat path;
  mret (match st with None => -1 | Some (Some n) => n | Some None => 4096 end).

Definition GetFileSize_fd (fd : Z) : M world Z :=
  if fd <=? 0 then mret (-1) else sys_fstat fd.

(** [ss << fs.rdbuf()]: reads to the end of the file, or to the first error. *)
Fixpoint read_stream (fuel : nat) (fd : Z) (acc : list byte) : M world (list byte) :=
  match fuel with
  | O => halt Diverged
  | S fuel =>
      r ← sys_read fd 8191;
      match r with
      | None | Some [] => mret acc
      | Some bs => read_stream fuel fd (acc ++ bs)
      end
  end.

Definition ReadAllString (fp : string) : M world string :=
  fd ← sys_open fp O_RDONLY false false;
  if fd =? -1 then mret ""
  else
    size ← getS (fun w => match w_files w !! fp with Some c => length c | None => O end);
    c ← read_stream (S (S size)) fd [];
    sys_close fd;;
    mret (string_of c).

Definition Unlink (path : string) : M world Z :=
  b ← Exist path;
  if negb b then mret 0 else sys_unlink path.

Definition is_locking_file (path : string) : M world bool :=
  getS (fun w => bool_decide (path ∈ w_locking w)).
Definition remove_locking_file_if_exist (file : File) : M world unit :=
  modS (set_locking (fun s => s ∖ {[Files.path file]})).
Definition add_locking (path : string) : M world unit :=
  modS (set_locking (fun s => {[path]} ∪ s)).

Definition TryLockFile (file : File) : M world Z :=
  b ← is_locking_file (path file);
  if b : bool then mret EEXIST
  else
    r ← sys_setlk (path file);
    if r =? -1 then get_errno
    else add_locking (path file);; mret 0.

Definition TryLockPath (path : string) : M world File :=
  b ← is_locking_file path;
  if b : bool then mret File_default
  else
    fd ← sys_open path O_RDWR false false;
    if fd =? -1 then mret File_default
    else
      r ← sys_setlk path;
      if r =? -1 then sys_close fd;; mret File_default
      else add_locking path;; mret (MkFile fd path).

Definition LockPath (path : string) : M world File :=
  b ← is_locking_file path;
  if b : bool then mret File_default
  else
    fd ← Open path O_RDWR true false;
    if fd =? -1 then mret File_default
    else
      r ← sys_setlkw path;
      if r =? -1 then sys_close fd;; mret File_default
      else add_locking path;; mret (MkFile fd path).

Definition LockFile (file : File) : M world Z :=
  b ← is_locking_file (path file);
  if b : bool then mret EEXIST
  else
    r ← sys_setlkw (path file);
    if r =? -1 then get_errno
    else add_locking (path file);; mret 0.

(** [F_SETLK] with [F_UNLCK] releases this process's lock. *)
Definition UnlockFile (file : File) : M world Z :=
  e ← sys_enter;
  match e with
  | EFault => get_errno
  | _ => remove_locking_file_if_exist file;; mret 0
  end.

(** [-1] error, [0] not locked, [1] locked. *)
Definition IsLocking (path : string) : M world Z :=
  b ← is_locking_file path;
  if b : bool then mret 1
  else
    ex ← Exist path;
    if negb ex then mret 0
    else
      fd ← Open path O_RDWR false false;
      if fd =? -1 then mret (-1)
      else
        lk ← sys_getlk path;
        match lk with
        | None => sys_close fd;; mret (-1)
        | Some locked => sys_close fd;; mret (if locked : bool then 1 else 0)
        end.

Definition OpenFile (p : string) (mode : accmode) : M world File :=
  fd ← sys_open p mode false false;
  mret (if fd =? -1 then File_default else MkFile fd p).

Definition CloseFile (file : File) : M world Z :=
  err ← sys_close (fd file);
  remove_locking_file_if_exist file;;
  mret err.

Definition CloseWithoutRemoveLock (file : File) : M world Z := sys_close (fd file).

End FileUtils.

(** ** Idioms of the components *)

(** An error result with the text of the current [errno]. *)
Definition bad_errno {O C A} (rc : C) : M (O * world) (result C A) :=
  e ← io get_errno; mret (Bad rc (Strerror e)).

(** [if (-1 == call) return Result(rc, strerror(errno));] *)
Definition check_io {O C} (c : M world Z) (rc : C) : M (O * world) (result C Z) :=
  r ← io c;
  if r =? -1 then bad_errno rc else mret (Good r).

(** [FileCloser fc(fd);] closes the descriptor when the function is left. *)
Definition with_closer {O A} (fd : Z) (body : M (O * world) A) : M (O * world) A :=
  a ← body;
  (if fd =? -1 then mret tt else (io (sys_close fd);; mret tt));;
  mret a.

Lemma wp_check_io {O C} (k : M world Z) (rc : C) (o : O) w Q :
  wp k w (fun r w' => r <> -1 /\ Q (Good r) (o, w')) -> wp (check_io k rc) (o, w) Q.
Proof.
  intros Hk. unfold check_io. wlift. eapply wp_mono; [exact Hk|]. intros r w' [Hr HQ].
  destruct (Z.eqb_spec r (-1)); [done|]. by wpure.
Qed.

Lemma wpc_check_io {O C} (k : M world Z) (rc : C) (o : O) w (Q : result C Z -> O * world -> Prop) R :
  wpc k w (fun r w' => (r = -1 -> forall m, Q (Bad rc m) (o, w')) /\ (r <> -1 -> Q (Good r) (o, w')))
    (fun e w' => R e (o, w')) ->
  wpc (check_io k rc) (o, w) Q R.
Proof.
  intros Hk. unfold check_io. apply wpc_bind, wpc_io. eapply wpc_mono; [exact Hk| |done].
  intros r w' [H1 H2]. destruct (Z.eqb_spec r (-1)); [by apply H1|by apply H2].
Qed.

(** Descriptors closed again leave the world as it was. *)
Lemma wp_with_closer {O A} fd (body : M (O * world) A) o w Q :
  fd <> -1 ->
  wp body (o, w) (fun a s => exists d, quiet s.2 /\ w_fds s.2 !! fd = Some d /\
                                       Q a (s.1, set_fds (delete fd) s.2)) ->
  wp (with_closer fd body) (o, w) Q.
Proof.
  intros Hfd Hb. wbind. eapply wp_mono; [exact Hb|]. intros a [o' w'] (d&Hq&Hd&HQ). simpl in *.
  destruct (Z.eqb_spec fd (-1)); [lia|]. wbind. wlift. by eapply wp_close.
Qed.

(** ** Full transfers *)

(** A schedule without errors and kills: calls may still transfer partially. *)
Definition benign (l : list event) : Prop :=
  Forall (fun e => match e with Fine | Partial _ => True | _ => False end) l.

Lemma file_write_app off a b c :
  0 <= off -> off <= zlen c ->
  file_write (off + zlen a) b (file_write off a c) = file_write off (a ++ b) c.
Proof.
  unfold file_write, zlen. intros H0 Hc.
  replace (Z.to_nat off - length c)%nat with 0%nat by lia.
  cbn [replicate]. rewrite (app_nil_r c).
  set (n := Z.to_nat off). replace (Z.to_nat (off + Z.of_nat (length a))) with (n + length a)%nat by lia.
  assert (n <= length c)%nat by lia.
  rewrite !length_app, length_take, length_drop.
  replace (n + length a - _)%nat with 0%nat by lia.
  cbn [replicate]. rewrite app_nil_r, (app_assoc (take n c) a).
  assert (length (take n c ++ a) = n + length a)%nat as Hlen.
  { rewrite length_app, length_take. lia. }
  rewrite take_app_le, take_ge by (rewrite ?Hlen; lia).
  rewrite <- !app_assoc. do 3 f_equal.
  rewrite drop_app_ge by (rewrite length_take; lia).
  rewrite length_take, drop_app_ge, drop_drop by lia. f_equal. lia.
Qed.

Lemma file_write_nil off c : 0 <= off <= zlen c -> file_write off [] c = c.
Proof.
  unfold file_write, zlen. intros. replace (Z.to_nat off - length c)%nat with 0%nat by lia.
  simpl. by rewrite app_nil_r, Nat.add_0_r, take_drop.
Qed.

Lemma file_write_end bs c : file_write (zlen c) bs c = c ++ bs.
Proof.
  unfold file_write, zlen. rewrite Nat2Z.id, Nat.sub_diag. simpl.
  rewrite app_nil_r, take_ge, drop_ge by lia. by rewrite app_nil_r.
Qed.

Lemma file_write_length off bs c :
  0 <= off <= zlen c -> off + zlen bs <= zlen (file_write off bs c).
Proof.
  unfold file_write, zlen. intros. replace (Z.to_nat off - length c)%nat with 0%nat by lia.
  simpl. rewrite app_nil_r, !length_app, length_take. lia.
Qed.

(** The state after [k] bytes of [bs] reached the file. *)
Definition wrote (w : world) (fd : Z) (d : fdesc) (c bs : list byte) (k : nat) (w' : world) : Prop :=
  w_files w' = <[fd_path d := file_write (fd_off d) (take k bs) c]> (w_files w) /\
  w_fds w' = <[fd := FDesc (fd_path d) (fd_off d + Z.of_nat k)]> (w_fds w) /\
  w_dirs w' = w_dirs w /\ w_next_fd w' = w_next_fd w /\ w_locking w' = w_locking w /\
  w_flocks w' = w_flocks w.

Lemma wrote_0 w fd d c bs e l :
  w_fds w !! fd = Some d -> w_files w !! fd_path d = Some c -> 0 <= fd_off d <= zlen c ->
  wrote w fd d c bs 0 (set_errno e (set_sched l w)).
Proof.
  intros Hd Hc Ho. unfold wrote. simpl. rewrite Z.add_0_r, file_write_nil by done.
  repeat split; symmetry; apply insert_id; [done|]. by destruct d.
Qed.

Lemma wpc_write w fd d c bs (Q : Z -> world -> Prop) (R : stop -> world -> Prop) :
  w_fds w !! fd = Some d -> w_files w !! fd_path d = Some c -> 0 <= fd_off d <= zlen c -> bs <> [] ->
  (forall e l, Q (-1) (set_errno e (set_sched l w))) ->
  (forall l, R Crashed (set_sched l w)) ->
  (forall k w', (0 < k <= length bs)%nat -> wrote w fd d c bs k w' -> Q (Z.of_nat k) w') ->
  wpc (sys_write fd bs) w Q R.
Proof.
  intros Hd Hc Ho Hbs Hf Hk Hw. apply wpc_bind. unfold wpc at 1, sys_enter.
  assert (0 < length bs)%nat by (destruct bs; simpl; [done|lia]).
  assert (forall e l, e <> EFault -> wpc
    (d0 ← getS (fun w0 => w_fds w0 !! fd);
     match d0 with
     | Some d0 =>
         f ← getS (fun w0 => w_files w0 !! fd_path d0);
         match f with
         | Some c0 =>
             let n := clip e (zlen bs) in
             modS (set_files <[fd_path d0 := file_write (fd_off d0) (take (Z.to_nat n) bs) c0]>);;
             modS (set_fds <[fd := FDesc (fd_path d0) (fd_off d0 + n)]>);;
             mret n
         | None => fail EBADF (-1)
         end
     | None => fail EBADF (-1)
     end) (set_sched l w) Q R) as Hgo.
  { intros e l He. apply wpc_bind. cbn. rewrite Hd. apply wpc_bind. cbn. rewrite Hc.
    set (n := clip e (zlen bs)). assert (1 <= n <= zlen bs) by (unfold n, zlen, clip in *; destruct e; lia).
    unfold wpc. cbn. rewrite <- (Z2Nat.id n) by lia. rewrite Nat2Z.id.
    apply Hw; [unfold zlen in *; lia|]. unfold wrote. cbn. repeat split; by rewrite ?Z2Nat.id by lia. }
  destruct (w_sched w) as [|[| e | n |] l] eqn:Es.
  - specialize (Hgo EFine []). assert (set_sched [] w = w) as Hw0 by (destruct w; simpl in *; by subst).
    rewrite Hw0 in Hgo. by apply Hgo.
  - by apply (Hgo EFine l).
  - apply Hf.
  - by apply (Hgo (EPartial n) l).
  - apply Hk.
Qed.

Lemma wrote_trans w fd d c bs k w1 k2 w2 :
  0 <= fd_off d <= zlen c -> (k <= length bs)%nat ->
  wrote w fd d c bs k w1 ->
  wrote w1 fd (FDesc (fd_path d) (fd_off d + Z.of_nat k)) (file_write (fd_off d) (take k bs) c)
    (drop k bs) k2 w2 ->
  wrote w fd d c bs (k + k2) w2.
Proof.
  intros Ho Hk (Hf&Hd&?&?&?&?) (Hf2&Hd2&?&?&?&?). unfold wrote. simpl in *.
  assert (zlen (take k bs) = Z.of_nat k) as Hz by (unfold zlen; rewrite length_take; lia).
  rewrite <- Hz, file_write_app in Hf2 by lia.
  rewrite take_take_drop in Hf2. rewrite Hf2, Hd2, Hf, Hd, !insert_insert_eq.
  repeat split; try congruence. do 2 f_equal. lia.
Qed.

Lemma write_loop_spec fuel : forall w fd d c bs,
  (length bs <= fuel)%nat ->
  w_fds w !! fd = Some d -> w_files w !! fd_path d = Some c -> 0 <= fd_off d <= zlen c ->
  wpc (IOUtils.write_loop fuel fd bs) w
    (fun ok w' => exists k, (k <= length bs)%nat /\ wrote w fd d c bs k w' /\
                            ok = bool_decide (k = length bs))
    (fun e w' => e = Crashed /\ exists k, (k < length bs)%nat /\ wrote w fd d c bs k w').
Proof.
  induction fuel as [|fuel IH]; intros w fd d c bs Hfuel Hd Hc Ho.
  - destruct bs; [|simpl in Hfuel; lia]. apply wpc_ret. exists 0%nat. simpl.
    split; [done|]. split; [|done]. destruct w. by apply wrote_0.
  - destruct bs as [|b bs'] eqn:Ebs.
    { apply wpc_ret. exists 0%nat. split; [done|]. split; [|done]. destruct w. by apply wrote_0. }
    rewrite <- Ebs in *. assert (bs <> []) by (by subst).
    assert (IOUtils.write_loop (S fuel) fd bs =
      (n ← sys_write fd bs;
       if n =? -1 then mret false else IOUtils.write_loop fuel fd (drop (Z.to_nat n) bs))) as ->.
    { by rewrite Ebs. }
    assert (0 < length bs)%nat by (rewrite Ebs; simpl; lia).
    apply wpc_bind. eapply wpc_write; eauto.
    + intros e l. apply wpc_ret. exists 0%nat. split; [lia|]. split; [by apply wrote_0|].
      rewrite bool_decide_eq_false_2 by lia. done.
    + intros l. split; [done|]. exists 0%nat. split; [done|]. destruct w. by apply wrote_0.
    + intros k w1 Hk Hw. destruct (Z.eqb_spec (Z.of_nat k) (-1)); [lia|]. rewrite Nat2Z.id.
      pose proof Hw as (Hf1&Hd1&_).
      eapply wpc_mono; [eapply (IH w1 fd (FDesc (fd_path d) (fd_off d + Z.of_nat k))
        (file_write (fd_off d) (take k bs) c))| |].
      * rewrite length_drop. lia.
      * by rewrite Hd1, lookup_insert_eq.
      * simpl. by rewrite Hf1, lookup_insert_eq.
      * simpl. pose proof (file_write_length (fd_off d) (take k bs) c Ho).
        unfold zlen in *. rewrite length_take in *. lia.
      * intros ok w2 (k2&Hk2&Hw2&->). rewrite length_drop in *.
        exists (k + k2)%nat. split; [lia|]. split; [eapply wrote_trans; eauto; lia|].
        apply bool_decide_ext. lia.
      * intros e w2 (->&k2&Hk2&Hw2). rewrite length_drop in *. split; [done|].
        exists (k + k2)%nat. split; [lia|]. eapply wrote_trans; eauto; lia.
Qed.

Lemma wpc_WriteFully w fd d c bs (Q : Z -> world -> Prop) (R : stop -> world -> Prop) :
  fd <> -1 -> bs <> [] ->
  w_fds w !! fd = Some d -> w_files w !! fd_path d = Some c -> 0 <= fd_off d <= zlen c ->
  (forall k w', wrote w fd d c bs k w' -> (k <= length bs)%nat ->
     Q (if bool_decide (k = length bs) then zlen bs else -1) w') ->
  (forall k w', wrote w fd d c bs k w' -> (k < length bs)%nat -> R Crashed w') ->
  wpc (IOUtils.WriteFully fd (Some bs)) w Q R.
Proof.
  intros Hfd Hbs Hd Hc Ho HQ HR. unfold IOUtils.WriteFully. destruct (Z.eqb_spec fd (-1)); [done|].
  destruct (Z.eqb_spec (zlen bs) 0) as [Hz|_]; [by apply zlen_0 in Hz|].
  apply wpc_bind. eapply wpc_mono; [by eapply (write_loop_spec (length bs) w fd d c bs)| |].
  - intros ok w' (k&Hk&Hw&->). apply wpc_ret. by apply HQ.
  - intros e w' (->&k&Hk&Hw). by eapply HR.
Qed.

(** Whatever the environment does (errors, partial
    writes, a kill at any call), [WriteFully] terminates, and the file then
    holds a prefix of the bytes at the descriptor's offset: the whole of them
    exactly when the result is [size], a proper prefix when it is [-1] or the
    process died; nothing else of the file system changed. *)
Theorem write_fully_prefix (w : world) (fd : Z) (d : fdesc) (c bs : list byte)
    (Hfd : fd <> -1) (Hbs : bs <> [])
    (Hd : w_fds w !! fd = Some d) (Hc : w_files w !! fd_path d = Some c)
    (Ho : 0 <= fd_off d <= zlen c) :
  wpc (IOUtils.WriteFully fd (Some bs)) w
    (fun r w' => exists k, wrote w fd d c bs k w' /\
       (r = zlen bs /\ k = length bs \/ r = -1 /\ (k < length bs)%nat))
    (fun e w' => e = Crashed /\ exists k, (k < length bs)%nat /\ wrote w fd d c bs k w').
Proof.
  eapply wpc_WriteFully; [done..| |].
  - intros k w' Hw Hk. exists k. split; [done|]. case_bool_decide; [by left|right; lia].
  - intros k w' Hw Hk. split; [done|]. by exists k.
Qed.

(** A world with one open file, to run the helpers on. *)
Definition demo_world (c : list byte) (off : Z) (sched : list event) : world :=
  World {["f" := c]} {["."]} {[3 := FDesc "f" off]} 4 0 ∅ ∅ sched.

Lemma write_fully_prefix_witness :
  wpc (IOUtils.WriteFully 3 (Some [x61; x62; x63])) (demo_world [x00] 1 [Partial 1; Kill])
    (fun _ _ => False)
    (fun e w' => e = Crashed /\ w_files w' !! "f" = Some [x00; x61]).
Proof.
  pose proof (write_fully_prefix (demo_world [x00] 1 [Partial 1; Kill]) 3 (FDesc "f" 1) [x00]
    [x61; x62; x63] ltac:(lia) ltac:(done) ltac:(vm_compute; reflexivity) ltac:(vm_compute; reflexivity)
    ltac:(unfold zlen; simpl; lia)) as H.
  vm_compute. vm_compute in H. split; [exact (proj1 H)|reflexivity].
Defined.

Lemma wp_WriteFully w fd d c bs Q :
  quiet w -> fd <> -1 -> bs <> [] ->
  w_fds w !! fd = Some d -> w_files w !! fd_path d = Some c ->
  Q (zlen bs) (set_fds <[fd := FDesc (fd_path d) (fd_off d + zlen bs)]>
    (set_files <[fd_path d := file_write (fd_off d) bs c]> w)) ->
  wp (IOUtils.WriteFully fd (Some bs)) w Q.
Proof.
  intros Hq Hfd Hbs Hd Hc HQ. unfold IOUtils.WriteFully.
  destruct (Z.eqb_spec fd (-1)); [done|].
  destruct (Z.eqb_spec (zlen bs) 0) as [Hz|Hz]; [by apply zlen_0 in Hz|].
  wbind. destruct bs as [|b bs]; [done|]. cbn [length IOUtils.write_loop].
  wbind. eapply wp_write; eauto. pose proof (zlen_nonneg (b :: bs)).
  destruct (Z.eqb_spec (zlen (b :: bs)) (-1)); [lia|].
  unfold zlen at 1. rewrite Nat2Z.id, drop_all.
  destruct (length bs); wpure; done.
Qed.

Lemma slice_length {A} off n (l : list A) :
  0 <= off -> 0 <= n -> zlen (slice off n l) = Z.min n (Z.max 0 (zlen l - off)).
Proof. unfold slice, zlen. intros. rewrite length_take, length_drop. lia. Qed.

Lemma slice_split {A} off k n (l : list A) :
  0 <= off -> 0 <= k <= n -> k <= zlen l - off ->
  slice off n l = slice off k l ++ slice (off + k) (n - k) l.
Proof.
  unfold slice, zlen. intros.
  replace (Z.to_nat (off + k)) with (Z.to_nat off + Z.to_nat k)%nat by lia.
  rewrite <- drop_drop. set (l' := drop _ l).
  replace (Z.to_nat n) with (Z.to_nat k + Z.to_nat (n - k))%nat by lia.
  by rewrite take_take_drop.
Qed.

Lemma slice_zlen {A} off m (l : list A) : slice off (zlen (slice off m l)) l = slice off m l.
Proof.
  unfold slice, zlen. rewrite Nat2Z.id, length_take.
  destruct (Nat.min_spec (Z.to_nat m) (length (drop (Z.to_nat off) l))) as [[? ->]|[? ->]]; [done|].
  by rewrite !take_ge by lia.
Qed.

(** What a read of [n] bytes leaves behind. *)
Definition after_read (w : world) (fd : Z) (d : fdesc) (k : Z) (l : list event) : world :=
  set_fds <[fd := FDesc (fd_path d) (fd_off d + k)]> (set_sched l w).

(** The schedule left after a benign run; an empty one stays empty. *)
Definition run_down (l l' : list event) : Prop := benign l' /\ (l = [] -> l' = []).

Lemma wp_read_benign w fd d c n Q :
  benign (w_sched w) -> w_fds w !! fd = Some d -> w_files w !! fd_path d = Some c ->
  0 <= fd_off d -> 0 < n ->
  (forall m l, 1 <= m <= n -> run_down (w_sched w) l ->
     Q (Some (slice (fd_off d) m c)) (after_read w fd d (zlen (slice (fd_off d) m c)) l)) ->
  wp (sys_read fd n) w Q.
Proof.
  intros Hb Hd Hc Ho Hn HQ. unfold wp, wpc, sys_read, mbind, M_bind, sys_enter.
  destruct (w_sched w) as [|e l] eqn:Es.
  - unfold getS, modS, mret, M_ret. rewrite Hd. simpl. rewrite Hc. simpl.
    specialize (HQ n []). unfold after_read in HQ.
    replace (set_sched [] w) with w in HQ by (destruct w; simpl in *; by subst).
    apply HQ; [lia|]. split; [constructor|done].
  - inversion_clear Hb as [|? ? He Hl].
    destruct e as [| |k|]; try done; unfold getS, modS, mret, M_ret; simpl; rewrite Hd; simpl; rewrite Hc; simpl.
    + apply HQ; [lia|]. by split.
    + apply HQ; [lia|]. by split.
Qed.

Lemma read_loop_benign fuel : forall w fd d c n acc Q,
  benign (w_sched w) -> w_fds w !! fd = Some d -> w_files w !! fd_path d = Some c ->
  0 <= fd_off d -> 0 <= n -> (Z.to_nat n <= fuel)%nat ->
  (forall l, run_down (w_sched w) l ->
     Q (Some (acc ++ slice (fd_off d) n c)) (after_read w fd d (zlen (slice (fd_off d) n c)) l)) ->
  wp (IOUtils.read_loop fuel fd n acc) w Q.
Proof.
  assert (forall w fd d (c acc : list byte) (Q : option (list byte) -> world -> Prop), benign (w_sched w) -> w_fds w !! fd = Some d ->
    (forall l, run_down (w_sched w) l ->
       Q (Some (acc ++ slice (fd_off d) 0 c)) (after_read w fd d (zlen (slice (fd_off d) 0 c)) l)) ->
    Q (Some acc) w) as Hdone.
  { intros w fd d c acc Q Hb Hd HQ. specialize (HQ (w_sched w) ltac:(by split)).
    unfold slice, after_read in HQ. simpl in HQ. rewrite app_nil_r, Z.add_0_r in HQ.
    destruct w, d. unfold set_fds, set_sched in HQ. simpl in *. by rewrite insert_id in HQ. }
  induction fuel as [|fuel IH]; intros w fd d c n acc Q Hb Hd Hc Ho Hn Hfuel HQ.
  - assert (n = 0) by lia. subst n. simpl. wpure. by eapply Hdone.
  - simpl. destruct (Z.eqb_spec n 0) as [->|]; [wpure; by eapply Hdone|].
    wbind. eapply wp_read_benign; eauto; [lia|]. intros m l Hm Hl.
    set (s := slice (fd_off d) m c) in *. pose proof (slice_length (fd_off d) m c Ho ltac:(lia)) as Hs.
    fold s in Hs. destruct s as [|b s'] eqn:Es.
    + wpure. assert (slice (fd_off d) n c = []) as Hnil.
      { apply zlen_0. rewrite slice_length by lia. change (zlen (@nil byte)) with 0 in Hs. lia. }
      specialize (HQ l Hl). rewrite Hnil, app_nil_r in HQ. exact HQ.
    + rewrite <- Es in *. assert (1 <= zlen s) by (rewrite Es, zlen_cons; pose proof (zlen_nonneg s'); lia).
      replace (acc ++ b :: s') with (acc ++ s) by (by rewrite Es).
      destruct Hl as [Hl Hl0].
      eapply (IH _ fd (FDesc (fd_path d) (fd_off d + zlen s)) c); simpl; eauto; try lia.
      { by rewrite lookup_insert_eq. }
      intros l' [Hl' Hl'0].
      assert (slice (fd_off d) n c = s ++ slice (fd_off d + zlen s) (n - zlen s) c) as Hsp.
      { rewrite (slice_split (fd_off d) (zlen s) n) by lia. f_equal. unfold s.
        by rewrite slice_zlen. }
      specialize (HQ l'). rewrite Hsp, zlen_app, app_assoc in HQ.
      unfold after_read in *. simpl in *.
      replace (fd_off d + zlen s + _) with (fd_off d + (zlen s + zlen (slice (fd_off d + zlen s) (n - zlen s) c))) by lia.
      replace (set_fds _ (set_sched l' _)) with
        (set_fds <[fd := FDesc (fd_path d) (fd_off d + (zlen s + zlen (slice (fd_off d + zlen s) (n - zlen s) c)))]>
          (set_sched l' w)).
      { apply HQ. split; [done|]. intros H0. by apply Hl'0, Hl0. }
      destruct w. unfold set_fds, set_sched. simpl. by rewrite insert_insert_eq.
Qed.

Lemma wp_ReadFully_V4_benign w fd d c n Q :
  benign (w_sched w) -> fd <> -1 -> w_fds w !! fd = Some d -> w_files w !! fd_path d = Some c ->
  0 <= fd_off d -> 0 < n ->
  (forall l, run_down (w_sched w) l ->
     Q (zlen (slice (fd_off d) n c), IOUtils.zero_filled n (slice (fd_off d) n c))
       (after_read w fd d (zlen (slice (fd_off d) n c)) l)) ->
  wp (IOUtils.ReadFully_V4 fd n) w Q.
Proof.
  intros Hb Hfd Hd Hc Ho Hn HQ. unfold IOUtils.ReadFully_V4.
  destruct (Z.eqb_spec fd (-1)), (Z.eqb_spec n 0); [lia..|]. cbn [orb].
  wbind. eapply (read_loop_benign _ w fd d c); [done..|lia|lia|]. intros l Hl. wpure. by apply HQ.
Qed.

Lemma wp_ReadFully_V4 w fd d c n Q :
  quiet w -> fd <> -1 -> w_fds w !! fd = Some d -> w_files w !! fd_path d = Some c ->
  0 <= fd_off d -> 0 < n ->
  Q (zlen (slice (fd_off d) n c), IOUtils.zero_filled n (slice (fd_off d) n c))
    (set_fds <[fd := FDesc (fd_path d) (fd_off d + zlen (slice (fd_off d) n c))]> w) ->
  wp (IOUtils.ReadFully_V4 fd n) w Q.
Proof.
  intros Hq Hfd Hd Hc Ho Hn HQ. eapply wp_ReadFully_V4_benign; eauto.
  { rewrite Hq. constructor. }
  intros l [_ Hl]. specialize (Hl Hq) as ->. unfold after_read.
  replace (set_sched [] w) with w; [done|]. destruct w. by unfold quiet in *; simpl in *; subst.
Qed.

(** As long as no call fails, [ReadFully_V4] returns the
    number of bytes from the descriptor's offset to the end of the file, at most
    [size], with exactly those bytes in the buffer and zeros behind them,
    however the system splits the transfer; the descriptor moves past them. *)
Theorem read_fully_exact (w : world) (fd : Z) (d : fdesc) (c : list byte) (size : Z)
    (Hb : benign (w_sched w)) (Hfd : fd <> -1) (Hd : w_fds w !! fd = Some d)
    (Hc : w_files w !! fd_path d = Some c) (Ho : 0 <= fd_off d <= zlen c) (Hs : 0 < size) :
  wp (IOUtils.ReadFully_V4 fd size) w (fun r w' =>
    let bs := slice (fd_off d) size c in
    r = (Z.min size (zlen c - fd_off d), IOUtils.zero_filled size bs) /\
    w_files w' = w_files w /\
    w_fds w' = <[fd := FDesc (fd_path d) (fd_off d + zlen bs)]> (w_fds w)).
Proof.
  eapply (wp_ReadFully_V4_benign w fd d c); [done..|lia|done|]. intros l _. simpl.
  split; [|done]. f_equal. rewrite slice_length by lia. lia.
Qed.

Lemma read_fully_exact_witness :
  wp (IOUtils.ReadFully_V4 3 4) (demo_world [x01; x02; x03] 1 [Partial 1; Fine]) (fun r w' =>
    r = (2, [x02; x03; x00; x00]) /\
    w_files w' = {["f" := [x01; x02; x03]]} /\ w_fds w' = <[3 := FDesc "f" 3]> {[3 := FDesc "f" 1]}).
Proof.
  exact (read_fully_exact (demo_world [x01; x02; x03] 1 [Partial 1; Fine]) 3 (FDesc "f" 1)
    [x01; x02; x03] 4 ltac:(repeat constructor) ltac:(lia) ltac:(vm_compute; reflexivity)
    ltac:(vm_compute; reflexivity) ltac:(unfold zlen; simpl; lia) ltac:(lia)).
Defined.

(** ** Decimal text *)

Section decimal.
Import CommonUtils.

Lemma nat_of_digit d : 0 <= d < 10 -> nat_of_ascii (digit_chr d) = Z.to_nat (48 + d).
Proof. intros. unfold digit_chr. apply nat_ascii_embedding. lia. Qed.

Lemma digit_chr_digit d : 0 <= d < 10 -> is_digit (digit_chr d) = true.
Proof.
  intros. unfold is_digit. rewrite nat_of_digit by done.
  apply andb_true_iff. rewrite !Nat.leb_le. lia.
Qed.
Lemma digit_chr_val d : 0 <= d < 10 -> digit_val (digit_chr d) = d.
Proof. intros. unfold digit_val. rewrite nat_of_digit by done. lia. Qed.

Lemma parse_dec_digits fuel : forall n t,
  0 <= n < 10 ^ Z.of_nat fuel ->
  exists k, forall a, parse_digits (dec_digits fuel n t) a = parse_digits t (a * 10 ^ Z.of_nat k + n).
Proof.
  induction fuel as [|fuel IH]; intros n t Hn.
  - exists 0%nat. intros a. simpl in *. f_equal. lia.
  - simpl. pose proof (Z.mod_pos_bound n 10 ltac:(lia)) as Hm.
    rewrite Nat2Z.inj_succ, Z.pow_succ_r in Hn by lia.
    destruct (Z.ltb_spec n 10) as [Hlt|Hge].
    + exists 1%nat. intros a. simpl. rewrite digit_chr_digit, digit_chr_val by done.
      rewrite Z.mod_small by lia. done.
    + destruct (IH (n / 10) (String (digit_chr (n mod 10)) t)) as [k Hk].
      { split; [apply Z.div_pos; lia|]. apply Z.div_lt_upper_bound; lia. }
      exists (S k). intros a. rewrite Hk. simpl. rewrite digit_chr_digit, digit_chr_val by done.
      f_equal. rewrite Nat2Z.inj_succ, Z.pow_succ_r by lia. pose proof (Z.div_mod n 10 ltac:(lia)). lia.
Qed.

(** The text of a number starts with a digit and holds nothing but digits. *)
Fixpoint all_digits (s : string) : bool :=
  match s with EmptyString => true | String c s => is_digit c && all_digits s end.

Lemma dec_digits_digits fuel n t :
  0 <= n -> all_digits t = true ->
  all_digits (dec_digits fuel n t) = true /\ (dec_digits fuel n t = "" -> t = "" /\ fuel = 0%nat).
Proof.
  revert n t. induction fuel as [|fuel IH]; intros n t Hn Ht; [done|]. simpl.
  pose proof (Z.mod_pos_bound n 10 ltac:(lia)) as Hm.
  assert (all_digits (String (digit_chr (n mod 10)) t) = true) as Ht'.
  { simpl. by rewrite digit_chr_digit, Ht. }
  destruct (n <? 10); [done|].
  destruct (IH (n / 10) _ ltac:(apply Z.div_pos; lia) Ht') as [H1 H2].
  split; [done|]. intros H%H2. by destruct H.
Qed.

Lemma is_digit_not_space c : is_digit c = true -> is_space c = false.
Proof.
  unfold is_digit, is_space. rewrite andb_true_iff, !Nat.leb_le. intros [? ?].
  apply orb_false_iff. rewrite Nat.eqb_neq, andb_false_iff, !Nat.leb_gt. lia.
Qed.

Lemma is_digit_char c : is_digit c = true -> c <> "-"%char /\ c <> "+"%char /\ c <> nul /\ c <> slash /\ c <> dot.
Proof. intros H. repeat split; intros ->; discriminate H. Qed.

Lemma c_str_digits s : all_digits s = true -> c_str s = s.
Proof.
  induction s as [|c s IH]; [done|]. simpl. intros [Hc Hs]%andb_true_iff.
  apply is_digit_char in Hc. rewrite decide_False by tauto. by rewrite IH.
Qed.

Lemma digits_no_char c s :
  all_digits s = true -> is_digit c = false -> str_has c s = false.
Proof.
  induction s as [|a s IH]; [done|]. simpl. intros [Ha Hs]%andb_true_iff Hc.
  rewrite IH by done. rewrite orb_false_r. apply bool_decide_eq_false. intros ->. congruence.
Qed.

Lemma ToString_digits n : 0 <= n -> all_digits (ToString n) = true /\ ToString n <> "".
Proof.
  intros Hn. destruct (dec_digits_digits 20 n "" Hn eq_refl) as [H1 H2].
  split; [done|]. intros H%H2. by destruct H.
Qed.

Lemma strtoul_ToString n : 0 <= n < 18446744073709551616 -> strtoul (ToString n) = (n, None, Some "").
Proof.
  intros Hn. destruct (ToString_digits n ltac:(lia)) as [Hd Hne].
  destruct (parse_dec_digits 20 n "" ltac:(simpl; lia)) as [k Hk].
  specialize (Hk 0). rewrite Z.mul_0_l, Z.add_0_l in Hk. fold (ToString n) in Hk.
  unfold strtoul. destruct (ToString n) as [|c s] eqn:E; [done|].
  assert (is_digit c = true) as Hc by (simpl in Hd; by apply andb_true_iff in Hd as [? _]).
  pose proof (is_digit_char c Hc) as (?&?&_). cbn [skip_space]. rewrite is_digit_not_space by done.
  rewrite !decide_False by done. rewrite Hc, Hk. cbn [parse_digits].
  destruct (Z.ltb_spec ULONG_MAX n); [unfold ULONG_MAX in *; lia|done].
Qed.

Lemma wp_ToUint46_t w n Q :
  0 < n < 18446744073709551615 -> Q (true, n) w -> wp (ToUint46_t (ToString n)) w Q.
Proof.
  intros Hn HQ. unfold ToUint46_t. destruct (ToString_digits n ltac:(lia)) as [Hd _].
  rewrite (c_str_digits _ Hd), strtoul_ToString by lia. unfold get_errno. wpure.
  destruct (Z.eqb_spec n ULONG_MAX); [unfold ULONG_MAX in *; lia|].
  destruct (Z.eqb_spec n 0); [lia|]. simpl. rewrite !andb_false_r. simpl. by wpure.
Qed.

Lemma ToString_inj m n :
  0 <= m < 18446744073709551616 -> 0 <= n < 18446744073709551616 -> ToString m = ToString n -> m = n.
Proof.
  intros Hm Hn H. pose proof (strtoul_ToString m Hm) as H1. rewrite H, strtoul_ToString in H1 by done.
  by injection H1.
Qed.
End decimal.

(** The entry and segment ids that [ToString] writes
    into file names and meta files are read back by [ToUint46_t], whatever
    [errno] a previous call left behind, for every id the system can assign
    ([0] and [ULONG_MAX] apart, which a stale [errno] turns into a failure). *)
Theorem decimal_roundtrip (w : world) (n : Z) (Hn : 0 < n < CommonUtils.ULONG_MAX) :
  CommonUtils.ToUint46_t (CommonUtils.ToString n) w = (Ok (true, n), w).
Proof.
  destruct (wp_run (CommonUtils.ToUint46_t (CommonUtils.ToString n)) w (fun r w' => r = (true, n) /\ w' = w)) as (r&w'&H&->&->).
  { apply wp_ToUint46_t; [unfold CommonUtils.ULONG_MAX in Hn; lia|done]. }
  done.
Qed.

Lemma decimal_roundtrip_witness :
  CommonUtils.ToUint46_t "1024" (demo_world [] 0 []) = (Ok (true, 1024), demo_world [] 0 []).
Proof.
  exact (decimal_roundtrip (demo_world [] 0 []) 1024 ltac:(unfold CommonUtils.ULONG_MAX; lia)).
Defined.

(** A stale [errno] makes [ToUint46_t] reject the text of zero. *)
Example stale_errno_rejects_zero :
  (CommonUtils.ToUint46_t "0" (set_errno ENOENT (demo_world [] 0 []))).1 = Ok (false, 0).
Proof. vm_compute. reflexivity. Qed.

(** [IsPowerOfTwo] decides exactly the powers of two. *)
Theorem power_of_two (x : Z) :
  CommonUtils.IsPowerOfTwo x = true <-> exists k, 0 <= k /\ x = 2 ^ k.
Proof.
  unfold CommonUtils.IsPowerOfTwo. rewrite andb_true_iff, Z.ltb_lt, Z.eqb_eq. split.
  - intros [Hx Hl]. exists (Z.log2 x). split; [apply Z.log2_nonneg|].
    destruct (Z.log2_spec x Hx) as [Hlo Hhi]. destruct (Z.eq_dec x (2 ^ Z.log2 x)) as [|Hne]; [done|].
    assert (x <> 1) by (intros ->; by apply Hne).
    assert (Z.testbit (Z.land x (x - 1)) (Z.log2 x) = true) as Hbit.
    { rewrite Z.land_spec, Z.bit_log2 by done. simpl.
      replace (Z.log2 x) with (Z.log2 (x - 1)); [apply Z.bit_log2; lia|].
      apply Z.log2_unique; [apply Z.log2_nonneg|]. lia. }
    by rewrite Hl, Z.bits_0 in Hbit.
  - intros (k&Hk&->). split; [lia|]. rewrite Z.sub_1_r, <- Z.ones_equiv, Z.land_ones by done.
    apply Z.mod_same. lia.
Qed.
