(* ===== verification/Quiet.v ===== *)
(** * Fault-free runs of the file helpers

    [wf] describes a world in which no fault is coming and the descriptor table
    is sane; [keeps w w'] says that an operation left the files, directories,
    locks and open descriptors alone.  The lemmas give the answer of each
    helper of [FileUtils] in such a world, for the components built on them. *)

From S2P Require Import Prelude Posix Files.

Record wf (w : world) : Prop := {
  wf_quiet : quiet w;
  wf_next : 0 < w_next_fd w;
  wf_fresh : forall fd, w_next_fd w <= fd -> w_fds w !! fd = None;
  wf_disj : forall p, p ∈ w_dirs w -> w_files w !! p = None
}.

Record keeps (w w' : world) : Prop := {
  keeps_wf : wf w -> wf w';
  keeps_files : w_files w' = w_files w;
  keeps_dirs : w_dirs w' = w_dirs w;
  keeps_locking : w_locking w' = w_locking w;
  keeps_flocks : w_flocks w' = w_flocks w;
  keeps_fds : forall fd d, w_fds w !! fd = Some d -> w_fds w' !! fd = Some d
}.

#[export] Instance keeps_preorder : PreOrder keeps.
Proof.
  split; [by split|]. intros w1 w2 w3 [] []. split; try congruence; eauto.
Qed.

Create HintDb quiet discriminated.
#[export] Hint Resolve wf_quiet wf_next wf_fresh wf_disj : quiet.

Lemma keeps_errno e w : keeps w (set_errno e w).
Proof. split; try done. intros []. by split. Qed.

Lemma wf_not_dir w p c : wf w -> w_files w !! p = Some c -> p ∉ w_dirs w.
Proof. intros Hw Hp Hd. apply (wf_disj w Hw) in Hd. congruence. Qed.

(** A fresh descriptor, and its removal. *)
Definition opened (p : string) (w : world) : world :=
  set_fds <[w_next_fd w := FDesc p 0]> (set_next_fd (w_next_fd w + 1) w).

Lemma keeps_opened p w : wf w -> keeps w (opened p w).
Proof.
  intros Hw. split; try done.
  - intros [? ? Hf ?]. split; try done; simpl; [lia|]. intros fd Hfd.
    rewrite lookup_insert_ne by lia. apply Hf. lia.
  - intros fd d Hd. simpl. rewrite lookup_insert_ne; [done|].
    intros <-. rewrite (wf_fresh w Hw) in Hd by lia. done.
Qed.

(** Closing what was opened on top of [w]. *)
Lemma keeps_closed w w' fd :
  wf w -> keeps w w' -> w_fds w !! fd = None -> keeps w (set_fds (delete fd) w').
Proof.
  intros Hw [Hk ? ? ? ? Hf] Hfd. split; try done.
  - intros H. destruct (Hk H) as [? ? Hfr ?]. split; try done. simpl. intros fd' H'.
    rewrite lookup_delete_None. auto.
  - intros fd' d Hd. simpl. rewrite lookup_delete_ne; [by apply Hf|]. intros <-. congruence.
Qed.

(** A file stored outside the directories keeps the world well formed. *)
Lemma wf_store w p c : wf w -> p ∉ w_dirs w -> wf (set_files <[p := c]> w).
Proof.
  intros [? ? ? Hd] Hp. split; try done. simpl. intros q Hq.
  rewrite lookup_insert_ne by (intros ->; done). auto.
Qed.
Lemma wf_remove w p : wf w -> wf (set_files (delete p) w).
Proof.
  intros [? ? ? Hd]. split; try done. simpl. intros q Hq.
  rewrite lookup_delete_None. auto.
Qed.
Lemma wf_close w fd : wf w -> wf (set_fds (delete fd) w).
Proof.
  intros [? ? Hf ?]. split; try done. simpl. intros fd' H'. rewrite lookup_delete_None. auto.
Qed.
(** Moving an open descriptor. *)
Lemma wf_seek w fd d d' : wf w -> w_fds w !! fd = Some d -> wf (set_fds <[fd := d']> w).
Proof.
  intros [? ? Hf ?] Hfd. split; try done. simpl. intros fd' H'.
  rewrite lookup_insert_ne; [by apply Hf|]. intros ->. rewrite Hf in Hfd by done. done.
Qed.

(** Using a descriptor that is not one of [w]'s. *)
Lemma keeps_touch w w1 fd d d' :
  keeps w w1 -> w_fds w !! fd = None -> w_fds w1 !! fd = Some d -> keeps w (set_fds <[fd := d']> w1).
Proof.
  intros [Hk ? ? ? ? Hf] Hfd Hd. split; try done.
  - intros Hw. by eapply wf_seek; [apply Hk|].
  - intros fd' e He. simpl. rewrite lookup_insert_ne; [by apply Hf|]. intros <-. congruence.
Qed.

(** The world after the process is gone: the files are what they were. *)
Definition reboot (w : world) : world :=
  World (w_files w) (w_dirs w) ∅ 3 0 ∅ (w_flocks w) [].

Lemma wf_reboot w : (forall p, p ∈ w_dirs w -> w_files w !! p = None) -> wf (reboot w).
Proof. by split. Qed.

(** ** The helpers *)

Lemma set_fds_twice fd d d' w : set_fds <[fd := d']> (set_fds <[fd := d]> w) = set_fds <[fd := d']> w.
Proof. destruct w. unfold set_fds. simpl. by rewrite insert_insert_eq. Qed.

Lemma quiet_Exist w p Q :
  wf w -> (forall w', keeps w w' -> Q (exists_path p w) w') -> wp (FileUtils.Exist p) w Q.
Proof. intros Hw HQ. apply wp_access; eauto using keeps_errno with quiet. Qed.

Lemma exists_path_file w p c : w_files w !! p = Some c -> exists_path p w = true.
Proof. intros H. unfold exists_path. by rewrite H. Qed.
Lemma exists_path_none w p : w_files w !! p = None -> p ∉ w_dirs w -> exists_path p w = false.
Proof.
  intros H Hd. unfold exists_path. rewrite H. rewrite (bool_decide_eq_false_2 _ Hd).
  by rewrite bool_decide_eq_false_2 by (by intros [? ?]).
Qed.

Lemma quiet_open_existing w p mode c creat Q :
  wf w -> w_files w !! p = Some c -> Q (w_next_fd w) (opened p w) ->
  wp (FileUtils.Open p mode creat false) w Q.
Proof.
  intros Hw Hp HQ. eapply wp_open_existing; eauto with quiet. by eapply wf_not_dir.
Qed.

Lemma quiet_GetFileSize w p c Q :
  wf w -> w_files w !! p = Some c -> Q (zlen c) w -> wp (FileUtils.GetFileSize p) w Q.
Proof. intros Hw Hp HQ. wbind. eapply wp_stat_file; eauto with quiet. Qed.

Lemma quiet_GetFileSize_fd w fd d c Q :
  wf w -> 0 < fd -> w_fds w !! fd = Some d -> w_files w !! fd_path d = Some c -> Q (zlen c) w ->
  wp (FileUtils.GetFileSize_fd fd) w Q.
Proof.
  intros Hw Hfd Hd Hc HQ. unfold FileUtils.GetFileSize_fd. destruct (Z.leb_spec fd 0); [lia|].
  eapply wp_fstat; eauto with quiet.
Qed.

Lemma quiet_Unlink w p Q :
  wf w -> p ∉ w_dirs w ->
  (forall w', keeps (set_files (delete p) w) w' -> Q 0 w') -> wp (FileUtils.Unlink p) w Q.
Proof.
  intros Hw Hd HQ. wbind. apply quiet_Exist; [done|]. intros w1 Hk.
  destruct (w_files w !! p) as [c|] eqn:Hp.
  - rewrite (exists_path_file _ _ _ Hp). cbn [negb].
    eapply (wp_unlink w1); [apply Hk in Hw; eauto with quiet|by rewrite (keeps_files _ _ Hk)|].
    apply HQ. destruct Hk as [Hkw Hkf ? ? ? ?]. split; try done; simpl.
    + intros _. by apply wf_remove, Hkw.
    + by rewrite Hkf.
  - rewrite exists_path_none by done. cbn [negb]. wpure. apply HQ.
    destruct Hk. split; try done; simpl; [auto|]. by rewrite delete_id.
Qed.

(** ** Directories *)

(** The directories [create_dirs] makes sure of. *)
Fixpoint dir_steps (done rest : string) : list string :=
  match rest with
  | EmptyString => [done]
  | String c rest' =>
      (if decide (c = slash) then [done] else []) ++ dir_steps (done +:+ String c EmptyString) rest'
  end.
Definition dir_path (path : string) : list string :=
  match CommonUtils.c_str (String.substring 0 FileUtils.PATH_MAX path) with
  | String c rest =>
      if decide (c = slash) then dir_steps (String c EmptyString) rest
      else dir_steps EmptyString (String c rest)
  | EmptyString => [EmptyString]
  end.

Lemma quiet_CreateDir w d Q :
  wf w -> d ∈ w_dirs w -> Q 0 w -> wp (FileUtils.CreateDir d) w Q.
Proof.
  intros Hw Hd HQ. wbind. apply wp_stat_dir; eauto with quiet.
Qed.

Lemma quiet_create_dirs w rest : forall done Q,
  wf w -> (forall d, d ∈ dir_steps done rest -> d ∈ w_dirs w) -> Q 0 w ->
  wp (FileUtils.create_dirs done rest) w Q.
Proof.
  induction rest as [|c rest IH]; intros done Q Hw Hd HQ; simpl in *.
  - apply quiet_CreateDir; [done| |done]. apply Hd. set_solver.
  - destruct (decide (c = slash)).
    + wbind. apply quiet_CreateDir; [done|apply Hd; set_solver|]. simpl.
      apply IH; [done| |done]. set_solver.
    + apply IH; [done| |done]. set_solver.
Qed.

Lemma quiet_CreateDirPath w path Q :
  wf w -> (forall d, d ∈ dir_path path -> d ∈ w_dirs w) -> Q 0 w ->
  wp (FileUtils.CreateDirPath path) w Q.
Proof.
  intros Hw Hd HQ. unfold FileUtils.CreateDirPath, dir_path in *.
  destruct (CommonUtils.c_str _) as [|c rest].
  - apply quiet_CreateDir; [done| |done]. apply Hd. set_solver.
  - destruct (decide (c = slash)); by apply quiet_create_dirs.
Qed.

(** ** Listing a directory *)

Lemma child_name_path dir p n : child_name dir p = Some n -> p = dir +:+ "/" +:+ n.
Proof.
  unfold child_name. destruct (strip_prefix _ p) as [q|] eqn:E; [|done].
  destruct (str_has slash q || String.eqb q ""); [done|]. intros [= ->].
  apply strip_prefix_Some in E. by rewrite E, str_app_assoc.
Qed.

Lemma child_name_self dir n : str_has slash n = false -> n <> "" -> child_name dir (dir +:+ "/" +:+ n) = Some n.
Proof.
  intros Hs Hn. unfold child_name. rewrite <- str_app_assoc, strip_prefix_app, Hs.
  destruct (String.eqb_spec n ""); done.
Qed.

(** The pure result of the [readdir] loop. *)
Fixpoint collected (dir : string) (f : string -> bool) (w : world) (names : list string) : list string :=
  match names with
  | [] => []
  | n :: names =>
      let p := dir +:+ "/" +:+ n in
      if bool_decide (is_Some (w_files w !! p)) && f p then p :: collected dir f w names
      else collected dir f w names
  end.

Lemma quiet_collect w dir f names : forall rs Q,
  wf w ->
  (forall n, n ∈ names -> is_Some (w_files w !! (dir +:+ "/" +:+ n)) \/ (dir +:+ "/" +:+ n) ∈ w_dirs w) ->
  Q (0, rs ++ collected dir f w names) w ->
  wp (FileUtils.collect dir f names rs) w Q.
Proof.
  induction names as [|n names IH]; intros rs Q Hw Hn HQ; simpl.
  - wpure. by rewrite app_nil_r in HQ.
  - simpl in HQ. cbv zeta in HQ. wbind. set (p := dir +:+ "/" +:+ n) in *.
    destruct (Hn n ltac:(set_solver)) as [[c Hc]|Hd]; fold p in Hc || fold p in Hd.
    + eapply wp_stat_file; eauto with quiet. apply IH; [done|set_solver|].
      fold p in Hc. rewrite Hc in HQ. rewrite bool_decide_eq_true_2 in HQ by eauto. simpl in HQ.
      destruct (f p); [|done]. by rewrite <- app_assoc.
    + pose proof (wf_disj w Hw p Hd) as Hnone. apply wp_stat_dir; eauto with quiet.
      apply IH; [done|set_solver|]. rewrite Hnone in HQ.
      by rewrite bool_decide_eq_false_2 in HQ by (by intros [? ?]).
Qed.

Lemma elem_of_children dir w n :
  n ∈ children dir w <-> exists p, (is_Some (w_files w !! p) \/ p ∈ w_dirs w) /\ child_name dir p = Some n.
Proof.
  unfold children. rewrite list_elem_of_omap. setoid_rewrite elem_of_app.
  setoid_rewrite list_elem_of_fmap. setoid_rewrite elem_of_elements. split.
  - intros (p&[([q c]&->&Hq%elem_of_map_to_list)|H]&Hc); simpl in *; eauto.
  - intros (p&[[c Hc]|H]&Hn); [|eauto]. exists p. split; [|done]. left.
    exists (p, c). by rewrite elem_of_map_to_list.
Qed.

Lemma NoDup_omap_inj {A B} (f : A -> option B) (l : list A) :
  (forall x y b, f x = Some b -> f y = Some b -> x = y) -> NoDup l -> NoDup (omap f l).
Proof.
  intros Hf. induction 1 as [|x l Hx Hl IH]; simpl; [constructor|].
  destruct (f x) as [b|] eqn:E; [|done]. constructor; [|done].
  intros (y&Hy&Ey)%list_elem_of_omap. by rewrite (Hf x y b E Ey) in Hx.
Qed.

Lemma children_nodup dir w : wf w -> NoDup (children dir w).
Proof.
  intros Hw. apply NoDup_omap_inj.
  - intros p q n Hp Hq%child_name_path. apply child_name_path in Hp. congruence.
  - apply list.NoDup_app. split; [apply NoDup_fst_map_to_list|]. split; [|apply NoDup_elements].
    intros p Hp Hd%elem_of_elements. apply list_elem_of_fmap in Hp as ([q c]&->&Hq%elem_of_map_to_list).
    simpl in *. apply (wf_disj w Hw) in Hd. congruence.
Qed.

Lemma elem_of_collected dir f w names p :
  p ∈ collected dir f w names <->
  exists n, n ∈ names /\ p = dir +:+ "/" +:+ n /\ is_Some (w_files w !! p) /\ f p = true.
Proof.
  induction names as [|n names IH]; simpl; [set_solver|]. cbv zeta.
  set (q := dir +:+ "/" +:+ n). destruct (bool_decide_reflect (is_Some (w_files w !! q))) as [Hs|Hs];
    [destruct (f q) eqn:Hf|]; simpl; rewrite ?elem_of_cons, IH; split.
  - intros [->|(m&?&?&?&?)]; [exists n; set_solver|exists m; set_solver].
  - intros (m&Hm&->&?&?). apply elem_of_cons in Hm as [->|Hm]; [by left|right; eauto].
  - intros (m&?&?&?&?). exists m. set_solver.
  - intros (m&Hm&->&?&?). apply elem_of_cons in Hm as [->|Hm]; [unfold q in *; congruence|eauto].
  - intros (m&?&?&?&?). exists m. set_solver.
  - intros (m&Hm&->&?&?). apply elem_of_cons in Hm as [->|Hm]; [done|eauto].
Qed.

Lemma collected_nodup dir f w names : NoDup names -> NoDup (collected dir f w names).
Proof.
  induction 1 as [|n names Hn Hnd IH]; simpl; [constructor|]. cbv zeta.
  destruct (_ && _); [|done]. constructor; [|done].
  intros (m&Hm&He&_)%elem_of_collected. apply str_app_inj_l, str_app_inj_l in He. congruence.
Qed.

(** The regular files in [dir] that pass the filter, each once. *)
Lemma quiet_CollectFileChildren w dir f Q :
  wf w -> dir ∈ w_dirs w ->
  (forall l, NoDup l ->
     (forall p, p ∈ l <-> is_Some (child_name dir p) /\ is_Some (w_files w !! p) /\ f p = true) ->
     Q (0, l) w) ->
  wp (FileUtils.CollectFileChildren dir f) w Q.
Proof.
  intros Hw Hd HQ. wbind. apply wp_readdir; eauto with quiet. apply quiet_collect; [done| |].
  - intros n (p&Hp&Hn)%elem_of_children. apply child_name_path in Hn as <-. done.
  - simpl. apply HQ; [by apply collected_nodup, children_nodup|].
    intros p. rewrite elem_of_collected. setoid_rewrite elem_of_children. split.
    + intros (n&(q&Hq&Hn)&->&Hs&Hf). split; [|done]. exists n.
      by rewrite <- (child_name_path _ _ _ Hn).
    + intros ([n Hn]&Hs&Hf). exists n. split; [eauto|]. split; [by apply child_name_path|done].
Qed.
