(* ===== verification/RemoveDir.v ===== *)
(** * Removing a directory with its content (src/utils/file-utils.cc: RemoveDirectory, CleanDirectory)

    The two functions call each other; the fuel is the depth of the tree.  [readdir] lists the
    directory as it was opened: what the loop removes meanwhile has been listed before. *)

From S2P Require Import Prelude Posix Files Quiet.

Definition ENOTEMPTY : Z := 39.

Definition sys_rmdir (p : string) : M world Z :=
  e ← sys_enter;
  match e with
  | EFault => mret (-1)
  | _ =>
      isdir ← getS (fun w => bool_decide (p ∈ w_dirs w));
      if negb isdir then
        b ← getS (exists_path p); fail (if b : bool then ENOTDIR else ENOENT) (-1)
      else
        l ← getS (children p);
        match l with
        | [] => modS (set_dirs (fun d => d ∖ {[p]}));; mret 0
        | _ :: _ => fail ENOTEMPTY (-1)
        end
  end.

(** The loop of [CleanDirectory]; [remove] is [RemoveDirectory]. *)
Fixpoint clean_loop (remove : string -> M world Z) (path : string) (names : list string) : M world Z :=
  match names with
  | [] => mret 0
  | n :: names =>
      let buf := path +:+ "/" +:+ n in
      st ← sys_stat buf;
      r2 ← match st with
           | None => mret (-1)
           | Some None => remove buf
           | Some (Some _) => sys_unlink buf
           end;
      rc ← (if r2 =? 0 then mret 0 else get_errno);
      if rc =? 0 then clean_loop remove path names else mret rc
  end.

Definition CleanDirectory_with (remove : string -> M world Z) (path : string) : M world Z :=
  d ← sys_readdir path;
  match d with
  | None => get_errno
  | Some names => clean_loop remove path names
  end.

Fixpoint RemoveDirectory (depth : nat) (path : string) : M world Z :=
  match depth with
  | O => halt Diverged
  | S depth =>
      rc ← CleanDirectory_with (RemoveDirectory depth) path;
      if rc =? 0 then
        rc ← sys_rmdir path;
        if rc =? 0 then mret 0 else get_errno
      else mret rc
  end.

Definition CleanDirectory (depth : nat) (path : string) : M world Z := CleanDirectory_with (RemoveDirectory depth) path.

(** ** Paths *)

(** [x] is [q] or below it. *)
Definition within (q x : string) : bool :=
  bool_decide (x = q) || match strip_prefix (q +:+ "/") x with Some _ => true | None => false end.

Lemma within_spec q x : within q x = true <-> x = q \/ exists r, x = q +:+ "/" +:+ r.
Proof.
  unfold within. rewrite orb_true_iff, bool_decide_eq_true. apply or_iff_compat_l. split.
  - destruct (strip_prefix _ _) as [r|] eqn:E; [|done]. intros _. exists r. apply strip_prefix_Some in E. by rewrite E, str_app_assoc.
  - intros [r ->]. by rewrite <- str_app_assoc, strip_prefix_app.
Qed.

Lemma within_self q : within q q = true.
Proof. apply within_spec. by left. Qed.

Lemma within_child q x n : within q x = true -> within q (x +:+ "/" +:+ n) = true.
Proof.
  rewrite !within_spec. intros [->|[r ->]]; right; [by exists n|]. exists (r +:+ "/" +:+ n). by rewrite !str_app_assoc.
Qed.

Lemma str_length_app s t : String.length (s +:+ t) = (String.length s + String.length t)%nat.
Proof. induction s as [|a s IH]; [done|]. cbn. by rewrite <- IH. Qed.

Lemma split_last_Some c s p q : split_last c s = Some (p, q) -> s = p +:+ String c q /\ str_has c q = false.
Proof.
  revert p. induction s as [|a s IH]; intros p; [done|]. cbn. destruct (split_last c s) as [[p' q']|] eqn:E.
  - intros [= <- <-]. destruct (IH p' eq_refl) as [-> H]. done.
  - destruct (decide (a = c)) as [->|]; [|done]. intros [= <- <-]. split; [done|]. clear IH. induction s as [|b s IH]; [done|].
    cbn in *. destruct (split_last c s) as [[]|]; [done|]. destruct (decide (b = c)); [done|]. rewrite bool_decide_false by done. by apply IH.
Qed.

(** The directory of something strictly below [q] is [q] or below it. *)
Lemma within_dir q d n : str_has slash n = false -> within q (d +:+ "/" +:+ n) = true -> d +:+ "/" +:+ n <> q -> within q d = true.
Proof.
  intros Hn [?|[r E]]%within_spec Hne; [done|]. pose proof (split_last_app slash d n Hn) as Hd. change (d +:+ String slash n) with (d +:+ "/" +:+ n) in Hd.
  rewrite E in Hd. apply within_spec. destruct (split_last slash r) as [[r1 r2]|] eqn:Er.
  - apply split_last_Some in Er as [-> H2]. right. exists r1.
    replace (q +:+ "/" +:+ r1 +:+ String slash r2) with ((q +:+ "/" +:+ r1) +:+ String slash r2) in Hd by (by rewrite !str_app_assoc).
    rewrite split_last_app in Hd by done. by injection Hd as <- _.
  - left. assert (str_has slash r = false) as Hr.
    { clear -Er. induction r as [|b s IH]; [done|]. cbn in *. destruct (split_last slash s) as [[]|]; [done|]. destruct (decide (b = slash)); [done|]. rewrite bool_decide_false by done. by apply IH. }
    change (q +:+ "/" +:+ r) with (q +:+ String slash r) in Hd. rewrite split_last_app in Hd by done. by injection Hd as <- _.
Qed.

(** What comes before the first slash. *)
Fixpoint first (s : string) : string :=
  match s with
  | EmptyString => ""
  | String a s => if decide (a = slash) then "" else String a (first s)
  end.

Lemma first_plain n : str_has slash n = false -> first n = n.
Proof.
  induction n as [|a n IH]; [done|]. cbn [str_has]. intros [H1 H2]%orb_false_iff. rewrite bool_decide_eq_false in H1. cbn [first]. rewrite decide_False by done. by rewrite IH.
Qed.
Lemma first_app n r : str_has slash n = false -> first (n +:+ "/" +:+ r) = n.
Proof.
  induction n as [|a n IH]; [done|]. cbn [str_has]. intros [H1 H2]%orb_false_iff. rewrite bool_decide_eq_false in H1. change (String a n +:+ "/" +:+ r) with (String a (n +:+ "/" +:+ r)). cbn [first]. rewrite decide_False by done. f_equal. by apply IH.
Qed.

Lemma within_apart p m n x : str_has slash m = false -> str_has slash n = false ->
  within (p +:+ "/" +:+ m) x = true -> within (p +:+ "/" +:+ n) x = true -> m = n.
Proof.
  intros Hm Hn H1%within_spec H2%within_spec.
  assert (forall k, str_has slash k = false -> x = p +:+ "/" +:+ k \/ (exists r, x = (p +:+ "/" +:+ k) +:+ "/" +:+ r) -> exists y, x = p +:+ "/" +:+ y /\ first y = k) as H.
  { intros k Hk [->|[r ->]]; [exists k; by rewrite first_plain|]. exists (k +:+ "/" +:+ r). split; [by rewrite !str_app_assoc|by apply first_app]. }
  apply H in H1 as (y1 & -> & <-); [|done]. apply H in H2 as (y2 & E & <-); [|done]. apply str_app_inj_l, str_app_inj_l in E. by subst.
Qed.

(** ** What is removed *)

Definition there (w : world) (x : string) : Prop := is_Some (w_files w !! x) \/ x ∈ w_dirs w.

(** Everything below [p] is in a directory that exists. *)
Definition tree (p : string) (w : world) : Prop := forall x, there w x -> within p x = true -> x <> p ->
  exists d n, x = d +:+ "/" +:+ n /\ str_has slash n = false /\ n <> ""%string /\ d ∈ w_dirs w.

(** No directory below [p] is as many levels down. *)
Definition deep (k : nat) (p : string) (w : world) : Prop :=
  forall x, x ∈ w_dirs w -> within p x = true -> (String.length x < String.length p + k)%nat.

(** [w'] is [w] without the files and directories of [P]. *)
Record pruned (P : string -> bool) (w w' : world) : Prop := {
  pr_wf : wf w';
  pr_files : forall x, w_files w' !! x = if P x then None else w_files w !! x;
  pr_dirs : forall x, x ∈ w_dirs w' <-> x ∈ w_dirs w /\ P x = false;
  pr_rest : w_fds w' = w_fds w /\ w_locking w' = w_locking w /\ w_flocks w' = w_flocks w
}.

Lemma there_pruned P w w' x : pruned P w w' -> there w' x <-> there w x /\ P x = false.
Proof.
  intros [_ Hf Hd _]. unfold there. rewrite Hf, Hd. destruct (P x); split.
  - intros [[? ?]|[]]; done.
  - by intros [].
  - intros [?|[]]; split; auto.
  - intros [[?|?] _]; auto.
Qed.

Lemma pruned_trans P Q w w1 w2 : pruned P w w1 -> pruned Q w1 w2 -> pruned (fun x => P x || Q x) w w2.
Proof.
  intros [_ Hf Hd (R1 & R2 & R3)] [Hw Hf' Hd' (R1' & R2' & R3')]. split; [done| | |split_and!; congruence].
  - intros x. rewrite Hf', Hf. by destruct (P x), (Q x).
  - intros x. rewrite Hd', Hd, orb_false_iff. tauto.
Qed.

Lemma pruned_ext P Q w w' : (forall x, there w x -> P x = Q x) -> pruned P w w' -> pruned Q w w'.
Proof.
  intros E [Hw Hf Hd Hr]. split; [done| | |done].
  - intros x. rewrite Hf. destruct (w_files w !! x) eqn:Ex; [|by destruct (P x), (Q x)]. by rewrite (E x) by (by left; rewrite Ex).
  - intros x. rewrite Hd. split; intros [H1 H2]; (split; [done|]); rewrite <- H2; [symmetry|]; apply E; by right.
Qed.

Lemma within_parent p n x : within (p +:+ "/" +:+ n) x = true -> within p x = true /\ x <> p.
Proof.
  intros H%within_spec. assert (exists r, x = p +:+ "/" +:+ r) as [r ->] by (destruct H as [->|[r ->]]; [by eexists|eexists; by rewrite !str_app_assoc]).
  split; [apply within_spec; right; by eexists|]. intros E%(f_equal String.length). rewrite !str_length_app in E. cbn in E. lia.
Qed.

Lemma tree_child p n w : tree p w -> tree (p +:+ "/" +:+ n) w.
Proof. intros Ht x Hx [Hin Hne]%within_parent _. by apply Ht. Qed.

Lemma deep_child k p n w : deep (S k) p w -> deep k (p +:+ "/" +:+ n) w.
Proof. intros Hd x Hx [Hin _]%within_parent. specialize (Hd x Hx Hin). rewrite !str_length_app. cbn. lia. Qed.

Lemma tree_keeps P p w w' : pruned P w w' -> (forall x, within p x = true -> P x = false) -> tree p w -> tree p w'.
Proof.
  intros Hp Hout Ht x [Hx _]%(there_pruned _ _ _ _ Hp) Hin Hne. destruct (Ht x Hx Hin Hne) as (d & n & -> & Hn & Hn' & Hd).
  exists d, n. split_and!; [done..|]. apply (pr_dirs _ _ _ Hp). split; [done|]. apply Hout. by eapply within_dir.
Qed.

Lemma deep_keeps P k p w w' : pruned P w w' -> deep k p w -> deep k p w'.
Proof. intros Hp Hd x [Hx _]%(pr_dirs _ _ _ Hp). by apply Hd. Qed.

(** Induction from a path to the directories above it. *)
Lemma top_child p w : tree p w -> forall k x, (String.length x < k)%nat -> there w x -> within p x = true -> x <> p ->
  p ∈ w_dirs w /\ exists n, n ∈ children p w /\ within (p +:+ "/" +:+ n) x = true.
Proof.
  intros Ht. induction k as [|k IH]; [lia|]. intros x Hk Hx Hin Hne. destruct (Ht x Hx Hin Hne) as (d & n & -> & Hn & Hn' & Hd).
  destruct (decide (d = p)) as [->|Hdp].
  - split; [done|]. exists n. split; [|apply within_self]. apply elem_of_children. exists (p +:+ "/" +:+ n). split; [done|]. by apply child_name_self.
  - destruct (IH d) as (Hp & m & Hm & Hw); [|by right|by eapply within_dir|done|].
    + rewrite !str_length_app in Hk. change (String.length "/") with 1%nat in Hk. lia.
    + split; [done|]. exists m. split; [done|]. by apply within_child.
Qed.

Lemma child_plain p n w : n ∈ children p w -> str_has slash n = false /\ there w (p +:+ "/" +:+ n).
Proof.
  intros (x & Hx & Hc)%elem_of_children. rewrite <- (child_name_path _ _ _ Hc). split; [|done].
  unfold child_name in Hc. destruct (strip_prefix _ x) as [y|]; [|done]. destruct (str_has slash y) eqn:E; [done|]. cbn in Hc. destruct (String.eqb y ""); [done|]. by injection Hc as <-.
Qed.

(** ** The removal *)

(** What the loop needs of the names it still has to process. *)
Definition listed (k : nat) (p : string) (w : world) (n : string) : Prop :=
  str_has slash n = false /\ there w (p +:+ "/" +:+ n) /\ tree (p +:+ "/" +:+ n) w /\ deep k (p +:+ "/" +:+ n) w.

Lemma listed_keeps k p m n w w' : m <> n -> str_has slash m = false -> pruned (within (p +:+ "/" +:+ m)) w w' -> listed k p w n -> listed k p w' n.
Proof.
  intros Hne Hm Hp (Hn & Hx & Ht & Hd).
  assert (forall x, within (p +:+ "/" +:+ n) x = true -> within (p +:+ "/" +:+ m) x = false) as Hout.
  { intros x Hx'. apply not_true_iff_false. intros Hx''. apply Hne. by eapply within_apart. }
  split; [done|]. split; [apply (there_pruned _ _ _ _ Hp); split; [done|]; apply Hout, within_self|].
  split; [by eapply tree_keeps|by eapply deep_keeps].
Qed.

Definition removes (k : nat) : Prop := forall p w, wf w -> p ∈ w_dirs w -> tree p w -> deep k p w ->
  wp (RemoveDirectory k p) w (fun rc w' => rc = 0 /\ pruned (within p) w w').

(** A file has nothing below it. *)
Lemma unlink_prunes p c w Q : wf w -> tree p w -> w_files w !! p = Some c -> (forall w', pruned (within p) w w' -> Q 0 w') -> wp (sys_unlink p) w Q.
Proof.
  intros Hw Ht Hp HQ. eapply wp_unlink; [by apply wf_quiet|exact Hp|]. apply HQ. eapply (pruned_ext (fun x => bool_decide (x = p))).
  - intros x Hx. case_bool_decide as E; [subst; symmetry; apply within_self|]. symmetry. apply not_true_iff_false. intros Hin.
    destruct (top_child p w Ht (S (String.length x)) x) as [Hd _]; [lia|done..|]. apply (wf_disj w Hw) in Hd. congruence.
  - split; [by apply wf_remove| | |done].
    + intros x. cbn. case_bool_decide as E; [subst; by rewrite lookup_delete_eq|by rewrite lookup_delete_ne].
    + intros x. cbn. rewrite bool_decide_eq_false. split; [|by intros []]. intros Hx. split; [done|]. intros ->. by eapply wf_not_dir.
Qed.

Lemma clean_loop_spec k : removes k -> forall names p w, wf w -> NoDup names -> Forall (listed k p w) names ->
  wp (clean_loop (RemoveDirectory k) p names) w (fun rc w' => rc = 0 /\ pruned (fun x => existsb (fun n => within (p +:+ "/" +:+ n) x) names) w w').
Proof.
  intros Hrm. induction names as [|n names IH]; intros p w Hw Hnd Hl; cbn [clean_loop].
  - apply wp_ret. split; [done|]. split; [done|done| |done]. intros x. cbn. tauto.
  - apply list.Forall_cons in Hl as [(Hn & Hx & Ht & Hd) Hl]. apply list.NoDup_cons in Hnd as [Hnin Hnd]. cbv zeta.
    assert (forall w1, pruned (within (p +:+ "/" +:+ n)) w w1 -> wp (rc ← (if 0 =? 0 then mret 0 else get_errno);
      if rc =? 0 then clean_loop (RemoveDirectory k) p names else mret rc) w1
      (fun rc w' => rc = 0 /\ pruned (fun x => existsb (fun n => within (p +:+ "/" +:+ n) x) (n :: names)) w w')) as Hgo.
    { intros w1 Hp. wbind. apply wp_ret. cbn [Z.eqb]. eapply wp_mono; [apply (IH p w1); [apply Hp|done|]|].
      - apply list.Forall_forall. intros m Hm. rewrite list.Forall_forall in Hl. eapply listed_keeps; [|exact Hn|exact Hp|by apply Hl].
        intros ->. done.
      - intros rc w' [-> Hp']. split; [done|]. by eapply pruned_trans. }
    wbind. destruct Hx as [[c Hc]|Hdir].
    + eapply wp_stat_file; [by apply wf_quiet|exact Hc|]. wbind. eapply unlink_prunes; [done|done|exact Hc|exact Hgo].
    + eapply wp_stat_dir; [by apply wf_quiet|by apply wf_disj|done|]. wbind. eapply wp_mono; [by apply Hrm|]. intros rc w1 [-> Hp]. by apply Hgo.
Qed.

Lemma children_gone p w : (forall x, there w x -> within p x = true -> x = p) -> children p w = [].
Proof.
  intros H. destruct (children p w) as [|n l] eqn:E; [done|]. assert (n ∈ children p w) as Hn by (rewrite E; left). destruct (child_plain _ _ _ Hn) as [_ Hx].
  destruct (within_parent p n (p +:+ "/" +:+ n) (within_self _)) as [Hin Hne]. destruct Hne. by apply H.
Qed.

Lemma existsb_children p w x : tree p w -> there w x ->
  existsb (fun n => within (p +:+ "/" +:+ n) x) (children p w) = within p x && negb (bool_decide (x = p)).
Proof.
  intros Ht Hx. apply eq_iff_eq_true. rewrite existsb_exists, andb_true_iff, negb_true_iff, bool_decide_eq_false. split.
  - intros (n & _ & Hn). by apply within_parent in Hn.
  - intros [Hin Hne]. destruct (top_child p w Ht (S (String.length x)) x) as (_ & n & Hn & Hw); [lia|done..|]. exists n. split; [by apply list_elem_of_In|done].
Qed.

Lemma clean_spec k p w : removes k -> wf w -> p ∈ w_dirs w -> tree p w -> deep (S k) p w ->
  wp (CleanDirectory k p) w (fun rc w' => rc = 0 /\ pruned (fun x => within p x && negb (bool_decide (x = p))) w w').
Proof.
  intros Hrm Hw Hp Ht Hd. unfold CleanDirectory, CleanDirectory_with. wbind. apply wp_readdir; [by apply wf_quiet|done|].
  eapply wp_mono; [apply (clean_loop_spec k Hrm (children p w) p w Hw (children_nodup p w Hw))|].
  - apply list.Forall_forall. intros n Hn. destruct (child_plain _ _ _ Hn) as [Hs Hx]. split_and!; [done|done|by apply tree_child|by apply deep_child].
  - intros rc w' [-> Hpr]. split; [done|]. eapply pruned_ext; [|exact Hpr]. intros x Hx. by apply existsb_children.
Qed.

Lemma rmdir_prunes p w Q : wf w -> p ∈ w_dirs w -> (forall x, there w x -> within p x = true -> x = p) ->
  (forall w', pruned (within p) w w' -> Q 0 w') -> wp (sys_rmdir p) w Q.
Proof.
  intros Hw Hp Honly HQ. unfold sys_rmdir. wbind. apply wp_enter; [by apply wf_quiet|]. wbind. apply wp_getS. rewrite bool_decide_true by done. cbn [negb].
  wbind. apply wp_getS. rewrite children_gone by done. wbind. apply wp_modS. apply wp_ret. apply HQ. eapply (pruned_ext (fun x => bool_decide (x = p))).
  - intros x Hx. apply eq_iff_eq_true. rewrite bool_decide_eq_true. split; [intros ->; apply within_self|by apply Honly].
  - pose proof (wf_disj w Hw p Hp) as Hnone. split; [| | |done].
    + destruct Hw as [H1 H2 H3 H4]. split; [done..|]. cbn. intros x [Hx _]%elem_of_difference. by apply H4.
    + intros x. cbn. case_bool_decide; by subst.
    + intros x. cbn. rewrite bool_decide_eq_false. set_solver.
Qed.

Lemma remove_spec k : removes k.
Proof.
  induction k as [|k IH]; intros p w Hw Hp Ht Hd.
  - specialize (Hd p Hp (within_self p)). lia.
  - cbn [RemoveDirectory]. wbind. eapply wp_mono; [by apply (clean_spec k p w)|]. intros rc w1 [-> Hpr]. cbn [Z.eqb]. wbind.
    assert (forall x, there w1 x -> within p x = true -> x = p) as Honly.
    { intros x [_ Hx]%(there_pruned _ _ _ _ Hpr) Hin. rewrite Hin in Hx. cbn in Hx. rewrite negb_false_iff, bool_decide_eq_true in Hx. done. }
    apply rmdir_prunes; [apply Hpr| |exact Honly|].
    + apply (pr_dirs _ _ _ Hpr). split; [done|]. rewrite bool_decide_true by done. cbn. by rewrite andb_false_r.
    + intros w2 Hpr2. cbn [Z.eqb]. apply wp_ret. split; [done|]. eapply pruned_ext; [|eapply pruned_trans; [exact Hpr|exact Hpr2]].
      intros x _. cbn. by destruct (within p x), (bool_decide (x = p)).
Qed.

(** C36 directory_removed: RemoveDirectory on a directory of a sound file tree returns 0 and
    removes exactly what is below it and the directory itself: every file and every directory
    elsewhere is left as it was, and so are open files and locks. The recursion ends at the
    depth of the tree. *)
Theorem directory_removed (depth : nat) (p : string) (w : world)
    (Hw : wf w) (Hp : p ∈ w_dirs w) (Ht : tree p w) (Hd : deep depth p w) :
  exists w', RemoveDirectory depth p w = (Ok 0, w') /\
    (forall x, w_files w' !! x = if within p x then None else w_files w !! x) /\
    (forall x, x ∈ w_dirs w' <-> x ∈ w_dirs w /\ within p x = false) /\
    w_fds w' = w_fds w /\ w_locking w' = w_locking w /\ w_flocks w' = w_flocks w.
Proof.
  destruct (wp_run _ _ _ (remove_spec depth p w Hw Hp Ht Hd)) as (rc & w' & E & -> & [_ Hf Hdirs Hr]).
  exists w'. split; [done|]. split; [done|]. split; [done|]. exact Hr.
Qed.

(** Two files and a directory below /a, and a file beside it. *)
Definition demo_tree : world :=
  World {["/a/x" := [x61]; "/a/b/y" := [x62]; "/ab" := [x63]]} {["/a"; "/a/b"]} ∅ 3 0 ∅ ∅ [].

Lemma directory_removed_witness : exists w', RemoveDirectory 5 "/a" demo_tree = (Ok 0, w') /\
  (forall x, w_files w' !! x = if within "/a" x then None else w_files demo_tree !! x) /\
  (forall x, x ∈ w_dirs w' <-> x ∈ w_dirs demo_tree /\ within "/a" x = false) /\
  w_fds w' = w_fds demo_tree /\ w_locking w' = w_locking demo_tree /\ w_flocks w' = w_flocks demo_tree.
Proof.
  apply (directory_removed 5 "/a" demo_tree).
  - split; [reflexivity|reflexivity|intros; apply lookup_empty|]. intros q Hq. cbn in Hq. rewrite elem_of_union, !elem_of_singleton in Hq.
    destruct Hq as [->| ->]; reflexivity.
  - cbn. set_solver.
  - intros x Hx Hin Hne. assert (x = "/a/x" \/ x = "/a/b/y" \/ x = "/ab" \/ x = "/a/b")%string as [->|[->|[->| ->]]].
    { destruct Hx as [[c Hc]|Hx]; cbn in *; [|set_solver]. rewrite !lookup_insert_Some, lookup_singleton_Some in Hc. intuition. }
    + exists "/a"%string, "x"%string. split_and!; [done..|]. cbn. set_solver.
    + exists "/a/b"%string, "y"%string. split_and!; [done..|]. cbn. set_solver.
    + discriminate Hin.
    + exists "/a"%string, "b"%string. split_and!; [done..|]. cbn. set_solver.
  - intros x Hx _. cbn in Hx. rewrite elem_of_union, !elem_of_singleton in Hx. destruct Hx as [->| ->]; cbn; lia.
Defined.
