(* ===== verification/Updates.v ===== *)
(** * Sequences of file updates

    [upd w F L w']: a fault-free run has led from [w] to [w'], in which the files
    are [F] and the lock table of the process is [L]; directories, locks of other
    processes and the descriptors that were open are as before.  The lemmas add
    one helper call to such a run. *)

From S2P Require Import Prelude Posix Files Quiet.

Record upd (w : world) (F : gmap string (list byte)) (L : gset string) (w' : world) : Prop := {
  upd_wf : wf w';
  upd_files : w_files w' = F;
  upd_locking : w_locking w' = L;
  upd_dirs : w_dirs w' = w_dirs w;
  upd_flocks : w_flocks w' = w_flocks w;
  upd_fds : forall fd d, w_fds w !! fd = Some d -> w_fds w' !! fd = Some d
}.

Lemma upd_refl w : wf w -> upd w (w_files w) (w_locking w) w.
Proof. by split. Qed.

Lemma upd_trans w F1 L1 w1 F2 L2 w2 : upd w F1 L1 w1 -> upd w1 F2 L2 w2 -> upd w F2 L2 w2.
Proof. intros [] []. split; try congruence; auto. Qed.

(** The run so far as the start of the next one. *)
Lemma upd_rebase w F L w1 : upd w F L w1 -> upd w1 F L w1.
Proof. intros []. by split. Qed.

Lemma upd_keeps w F L w' w'' : upd w F L w' -> keeps w' w'' -> upd w F L w''.
Proof. intros [] []. split; try congruence; auto. Qed.

Lemma upd_removed w F L w2 p : upd w F L w2 -> upd w (delete p F) L (set_files (delete p) w2).
Proof. intros [? <- ? ? ? ?]. split; try done. by apply wf_remove. Qed.

(** Opening gives the next descriptor, which the process did not have. *)
Lemma upd_opened w F L p w2 :
  upd w F L w2 -> upd w F L (opened p w2) /\ w_fds (opened p w2) !! w_next_fd w2 = Some (FDesc p 0) /\
    w_next_fd w2 <> -1 /\ 0 < w_next_fd w2 /\ w_fds w !! w_next_fd w2 = None.
Proof.
  intros Hu2. pose proof (upd_wf _ _ _ _ Hu2) as Hw2. pose proof (wf_next w2 Hw2).
  pose proof (keeps_opened p w2 Hw2) as Hk. split; [by eapply upd_keeps|].
  split; [apply lookup_insert_eq|]. split; [lia|]. split; [lia|].
  apply eq_None_not_Some. intros [d Hd]. apply (upd_fds _ _ _ _ Hu2) in Hd.
  rewrite (wf_fresh w2 Hw2) in Hd by lia. done.
Qed.

Lemma upd_stored w F L p c w2 : upd w F L w2 -> p ∉ w_dirs w -> upd w (<[p := c]> F) L (set_files <[p := c]> w2).
Proof.
  intros [? <- ? Hd ? ?] Hp. split; try done. apply wf_store; [done|]. by rewrite Hd.
Qed.

Section updates.
Context (w : world) (F : gmap string (list byte)) (L : gset string) (w1 : world) (Hu : upd w F L w1).

Let Hw1 := upd_wf _ _ _ _ Hu.

Lemma upd_Exist p Q :
  p ∉ w_dirs w -> (forall w2, upd w F L w2 -> Q (bool_decide (is_Some (F !! p))) w2) -> wp (FileUtils.Exist p) w1 Q.
Proof.
  intros Hp HQ. apply quiet_Exist; [done|]. intros w2 Hk.
  assert (exists_path p w1 = bool_decide (is_Some (F !! p))) as ->.
  { unfold exists_path. rewrite (upd_files _ _ _ _ Hu), (upd_dirs _ _ _ _ Hu).
    rewrite (bool_decide_eq_false_2 (p ∈ _)) by done. apply orb_false_r. }
  apply HQ. by eapply upd_keeps.
Qed.

Lemma upd_Unlink p Q :
  p ∉ w_dirs w -> (forall w2, upd w (delete p F) L w2 -> Q 0 w2) -> wp (FileUtils.Unlink p) w1 Q.
Proof.
  intros Hp HQ. apply quiet_Unlink; [done|by rewrite (upd_dirs _ _ _ _ Hu)|]. intros w2 Hk.
  apply HQ. eapply upd_keeps; [|exact Hk]. by apply upd_removed.
Qed.

Lemma upd_unlink p c Q :
  F !! p = Some c -> (forall w2, upd w (delete p F) L w2 -> Q 0 w2) -> wp (sys_unlink p) w1 Q.
Proof.
  intros Hp HQ. eapply wp_unlink; [apply Hw1|by rewrite (upd_files _ _ _ _ Hu)|]. by apply HQ, upd_removed.
Qed.

Lemma upd_rename p q c Q :
  F !! p = Some c -> q ∉ w_dirs w ->
  (forall w2, upd w (<[q := c]> (delete p F)) L w2 -> Q 0 w2) -> wp (sys_rename p q) w1 Q.
Proof.
  intros Hp Hq HQ. eapply wp_rename; [apply Hw1|by rewrite (upd_files _ _ _ _ Hu)|].
  apply HQ. destruct (upd_removed w F L w1 p Hu) as [Hw Hf ? Hd ? ?]. simpl in *.
  assert (wf (set_files <[q := c]> (set_files (delete p) w1))) as Hw2 by (apply wf_store; [done|]; simpl; by rewrite Hd).
  split; try done. simpl. by rewrite Hf.
Qed.

Lemma upd_open_existing p mode creat c Q :
  F !! p = Some c ->
  (forall fd w2, upd w F L w2 -> w_fds w2 !! fd = Some (FDesc p 0) -> fd <> -1 -> 0 < fd -> w_fds w !! fd = None ->
     Q fd w2) ->
  wp (FileUtils.Open p mode creat false) w1 Q.
Proof.
  intros Hp HQ. eapply quiet_open_existing; [done|by rewrite (upd_files _ _ _ _ Hu)|].
  destruct (upd_opened w F L p w1 Hu) as (?&?&?&?&?). by apply HQ.
Qed.

Lemma upd_close fd d Q :
  w_fds w1 !! fd = Some d -> w_fds w !! fd = None -> (forall w2, upd w F L w2 -> Q 0 w2) -> wp (sys_close fd) w1 Q.
Proof.
  intros Hd Hf HQ. eapply wp_close; [apply Hw1|done|]. apply HQ. destruct Hu as [? ? ? ? ? Hfds]. split; try done.
  - by apply wf_close.
  - intros fd' d' Hd'. simpl. rewrite lookup_delete_ne; [by apply Hfds|]. intros <-. congruence.
Qed.

(** Moving the descriptor this run has opened. *)
Lemma upd_touch fd d d' :
  w_fds w1 !! fd = Some d -> w_fds w !! fd = None -> upd w F L (set_fds <[fd := d']> w1).
Proof.
  intros Hd Hf. destruct Hu as [? ? ? ? ? Hfds]. split; try done.
  - by eapply wf_seek.
  - intros fd' e He. simpl. rewrite lookup_insert_ne; [by apply Hfds|]. intros <-. congruence.
Qed.

End updates.

Section writers.
Context (w : world) (F : gmap string (list byte)) (L : gset string) (w1 : world) (Hu : upd w F L w1).

Let Hw1 := upd_wf _ _ _ _ Hu.

(** [open(p, O_CREAT | O_TRUNC)], or without [O_TRUNC] a file that is not there. *)
Lemma upd_open_fresh p mode trunc Q :
  p ∉ w_dirs w -> dirname p ∈ w_dirs w -> trunc = true \/ F !! p = None ->
  (forall fd w2, upd w (<[p := []]> F) L w2 -> w_fds w2 !! fd = Some (FDesc p 0) -> fd <> -1 -> 0 < fd ->
     w_fds w !! fd = None -> Q fd w2) ->
  wp (FileUtils.Open p mode true trunc) w1 Q.
Proof.
  intros Hp Hd Ht HQ.
  destruct (upd_opened w (<[p := []]> F) L p (set_files <[p := []]> w1)) as (?&?&?&?&?).
  { by apply upd_stored. }
  assert (Q (w_next_fd w1) (opened p (set_files <[p := []]> w1))) as HQ' by (by apply HQ).
  destruct Ht as [->|Hn].
  - apply wp_open_trunc; [apply Hw1|by rewrite (upd_dirs _ _ _ _ Hu)..|done].
  - apply wp_open_creat; [apply Hw1|by rewrite (upd_dirs _ _ _ _ Hu)..|by rewrite (upd_files _ _ _ _ Hu)|done].
Qed.

(** [WriteFully] at the end of the file appends. *)
Lemma upd_append fd p c bs Q :
  w_fds w1 !! fd = Some (FDesc p (zlen c)) -> w_fds w !! fd = None -> fd <> -1 -> F !! p = Some c -> bs <> [] ->
  p ∉ w_dirs w ->
  (forall w2, upd w (<[p := c ++ bs]> F) L w2 -> w_fds w2 !! fd = Some (FDesc p (zlen (c ++ bs))) -> Q (zlen bs) w2) ->
  wp (IOUtils.WriteFully fd (Some bs)) w1 Q.
Proof.
  intros Hd Hf Hfd Hp Hbs Hdir HQ.
  eapply wp_WriteFully; [apply Hw1|done|done|done|simpl; by rewrite (upd_files _ _ _ _ Hu)|].
  cbn [fd_path fd_off]. rewrite file_write_end. rewrite zlen_app in HQ. apply HQ.
  - eapply upd_touch; [by apply upd_stored|exact Hd|done].
  - simpl. by rewrite lookup_insert_eq.
Qed.
End writers.

(** [ReadAllString] of a file gives its bytes. *)
Lemma quiet_read_stream fuel : forall w fd p pos acc c Q,
  wf w -> w_fds w !! fd = Some (FDesc p pos) -> w_files w !! p = Some c -> 0 <= pos <= zlen c ->
  (Z.to_nat (zlen c - pos) < fuel)%nat ->
  (forall d, Q (acc ++ drop (Z.to_nat pos) c) (set_fds <[fd := d]> w)) ->
  wp (FileUtils.read_stream fuel fd acc) w Q.
Proof.
  induction fuel as [|fuel IH]; intros w fd p pos acc c Q Hw Hd Hc Hpos Hf HQ; [lia|]. cbn [FileUtils.read_stream].
  wbind. eapply wp_read; [apply Hw|done|done|]. cbn [fd_off fd_path].
  pose proof (slice_length pos 8191 c ltac:(lia) ltac:(lia)) as Hs. set (s := slice pos 8191 c) in *.
  destruct s as [|b s'] eqn:Es.
  - wpure. change (zlen (@nil byte)) with 0 in *. specialize (HQ (FDesc p (pos + 0))).
    rewrite drop_ge, app_nil_r in HQ by (unfold zlen in *; lia). done.
  - rewrite <- Es in *. assert (0 < zlen s) by (rewrite Es, zlen_cons; pose proof (zlen_nonneg s'); lia).
    replace (acc ++ b :: s') with (acc ++ s) by (by rewrite Es).
    eapply (IH _ fd p (pos + zlen s) _ c); [by eapply wf_seek|by (simpl; rewrite lookup_insert_eq)|done|lia|lia|].
    intros d. rewrite set_fds_twice, <- app_assoc.
    assert (s ++ drop (Z.to_nat (pos + zlen s)) c = drop (Z.to_nat pos) c) as ->; [|apply HQ].
    unfold s at 1. rewrite <- (take_drop (Z.to_nat 8191) (drop (Z.to_nat pos) c)). f_equal.
    rewrite drop_drop. destruct (Z.le_gt_cases 8191 (zlen c - pos)); [f_equal; lia|].
    rewrite !drop_ge by (unfold zlen in *; lia). done.
Qed.

Lemma upd_ReadAllString w F L w1 p c Q :
  upd w F L w1 -> F !! p = Some c -> (forall w2, upd w F L w2 -> Q (string_of c) w2) ->
  wp (FileUtils.ReadAllString p) w1 Q.
Proof.
  intros Hu Hp HQ. unfold FileUtils.ReadAllString. wbind. eapply upd_open_existing; [done..|].
  intros fd w2 Hu2 Hd Hfd _ Hf. destruct (Z.eqb_spec fd (-1)); [done|]. wpure.
  rewrite (upd_files _ _ _ _ Hu2), Hp. wbind.
  eapply (quiet_read_stream _ w2 fd p 0 [] c); [by apply (upd_wf _ _ _ _ Hu2)|done|by rewrite (upd_files _ _ _ _ Hu2)
    |pose proof (zlen_nonneg c); lia|unfold zlen; lia|].
  intros d. cbn [app]. change (Z.to_nat 0) with 0%nat. rewrite drop_0. wbind.
  eapply upd_close; [by eapply upd_touch|by (simpl; rewrite lookup_insert_eq)|done|].
  intros w3 Hu3. wpure. by apply HQ.
Qed.
