(* ===== verification/Faults.v ===== *)
(** * Runs under any schedule

    What a sequence of calls can do to the files when every call may fail,
    transfer partially or be the process's last: [safe T w0 x w] says that a run
    from [w0] to [w] has changed no file outside [T], and that a descriptor opened
    since refers to a file in [T], with the exception of [x], one opened for
    reading.  Each lemma adds one call to such a run: the rest of the run may
    assume the same of its result, and a kill finds the files in that state. *)

From S2P Require Import Prelude Posix Files.

(** Equal up to [errno], the schedule and the locks. *)
Record blip (w w' : world) : Prop := {
  bl_files : w_files w' = w_files w;
  bl_dirs : w_dirs w' = w_dirs w;
  bl_fds : w_fds w' = w_fds w;
  bl_next : w_next_fd w' = w_next_fd w
}.

#[export] Instance blip_preorder : PreOrder blip.
Proof. split; [by split|]. intros ??? [] []. split; congruence. Qed.

Lemma wpc_getS {S A} (f : S -> A) s Q R : Q (f s) s -> wpc (getS f) s Q R.
Proof. done. Qed.

Section any.
Context (T : string -> Prop) (w0 : world).

Record safe (x : Z) (w : world) : Prop := {
  sf_files : forall p, ~ T p -> w_files w !! p = w_files w0 !! p;
  sf_dirs : w_dirs w = w_dirs w0;
  sf_next : 0 < w_next_fd w0 <= w_next_fd w;
  sf_fresh : forall fd, w_next_fd w <= fd -> w_fds w !! fd = None;
  sf_own : forall fd d, w_next_fd w0 <= fd -> fd <> x -> w_fds w !! fd = Some d -> T (fd_path d);
  sf_neg : w_fds w !! (-1) = None
}.

(** The descriptor of a failed [open], or one opened in this run. *)
Definition own (fd : Z) : Prop := fd = -1 \/ w_next_fd w0 <= fd.

Lemma safe_blip x w w' : safe x w -> blip w w' -> safe x w'.
Proof. intros [] [Hf Hd Hfd Hn]. split; rewrite ?Hf, ?Hd, ?Hfd, ?Hn; done. Qed.

Lemma safe_errno x w e : safe x w -> safe x (set_errno e w).
Proof. intros Hs. eapply safe_blip; [exact Hs|by split]. Qed.

Lemma safe_store x w f : (forall p, ~ T p -> f (w_files w) !! p = w_files w !! p) -> safe x w -> safe x (set_files f w).
Proof.
  intros Hf [Hs ? ? ? ? ?]. split; try done. intros p Hp. simpl. by rewrite Hf, Hs.
Qed.
Lemma safe_insert x w p c : T p -> safe x w -> safe x (set_files <[p := c]> w).
Proof. intros Hp. apply safe_store. intros q Hq. rewrite lookup_insert_ne; [done|]. by intros ->. Qed.
Lemma safe_delete x w p : T p \/ w_files w !! p = None -> safe x w -> safe x (set_files (delete p) w).
Proof.
  intros Hp. apply safe_store. intros q Hq. destruct (decide (p = q)) as [->|]; [|by rewrite lookup_delete_ne].
  rewrite lookup_delete_eq. destruct Hp as [|Hn]; [done|by rewrite Hn].
Qed.

Lemma safe_fd x w fd d d' :
  safe x w -> w_fds w !! fd = Some d -> fd_path d' = fd_path d -> safe x (set_fds <[fd := d']> w).
Proof.
  intros [? ? ? Hfr Ho Hneg] Hd Hp. split; try done; simpl.
  - intros fd' Hf. rewrite lookup_insert_ne; [by apply Hfr|]. intros ->. rewrite Hfr in Hd by done. done.
  - intros fd' e Hge Hx. destruct (decide (fd = fd')) as [->|]; [|rewrite lookup_insert_ne by done; by apply Ho].
    rewrite lookup_insert_eq. intros [= <-]. rewrite Hp. by eapply Ho.
  - rewrite lookup_insert_ne; [done|]. intros ->. congruence.
Qed.
Lemma safe_close x w fd : safe x w -> safe x (set_fds (delete fd) w).
Proof.
  intros [? ? ? Hfr Ho Hneg]. split; try done; simpl.
  - intros fd' Hf. rewrite lookup_delete_None. auto.
  - intros fd' e Hge Hx [_ ?]%lookup_delete_Some. by eapply Ho.
  - rewrite lookup_delete_None. auto.
Qed.
Lemma safe_open x w p : T p \/ x = w_next_fd w -> safe x w -> safe x (set_fds <[w_next_fd w := FDesc p 0]> (set_next_fd (w_next_fd w + 1) w)).
Proof.
  intros Hp [? ? Hn Hfr Ho Hneg]. split; try done; simpl; [lia| | |].
  - intros fd Hf. rewrite lookup_insert_ne by lia. apply Hfr. lia.
  - intros fd d Hge Hx [[<- <-]|[_ ?]]%lookup_insert_Some; [by destruct Hp|]. by eapply Ho.
  - rewrite lookup_insert_ne by lia. done.
Qed.

(** ** Calls *)

Context (R : stop -> world -> Prop) (HR : forall e x w, safe x w -> R e w).

Ltac by_case := repeat case_match; simplify_eq.

Lemma any_enter x w Q :
  safe x w -> (forall e w', safe x w' -> blip w w' -> Q e w') -> wpc sys_enter w Q R.
Proof.
  intros Hs HQ. unfold wpc, sys_enter.
  assert (forall e l, safe x (set_errno e (set_sched l w)) /\ blip w (set_errno e (set_sched l w))) as H1
    by (intros e l; assert (blip w (set_errno e (set_sched l w))) by (by split); split; [by eapply safe_blip|done]).
  assert (forall l, safe x (set_sched l w) /\ blip w (set_sched l w)) as H2
    by (intros l; assert (blip w (set_sched l w)) by (by split); split; [by eapply safe_blip|done]).
  destruct (w_sched w) as [|[] l]; [by apply HQ|apply HQ; apply H2|apply HQ; apply H1|apply HQ; apply H2|].
  eapply HR. apply H2.
Qed.

Lemma any_access x w p Q :
  safe x w -> (forall b w', safe x w' -> (b = true -> exists_path p w = true) -> blip w w' -> Q b w') ->
  wpc (sys_access p) w Q R.
Proof.
  intros Hs HQ. apply wpc_bind. eapply any_enter; [done|]. intros e w1 Hs1 Hb1.
  assert (wpc (b ← getS (exists_path p); if b : bool then mret true else fail ENOENT false) w1 Q R) as Hgo.
  { apply wpc_bind. unfold wpc, getS. assert (exists_path p w1 = exists_path p w) as ->.
    { unfold exists_path. by rewrite (bl_files _ _ Hb1), (bl_dirs _ _ Hb1). }
    destruct (exists_path p w); [by apply HQ|]. cbn. apply HQ; [by apply safe_errno|done|].
    etrans; [exact Hb1|by split]. }
  destruct e; [done|by apply HQ|done].
Qed.

(** [open] of a file in [T], or without [O_CREAT] and [O_TRUNC] of another one. *)
Lemma any_open w p mode creat trunc Q :
  safe (-1) w -> T p ->
  (forall fd w', safe (-1) w' -> own fd -> Q fd w') -> wpc (sys_open p mode creat trunc) w Q R.
Proof.
  intros Hs Hp HQ. apply wpc_bind. eapply any_enter; [done|]. intros e w1 Hs1 _.
  assert (own (-1)) as Hneg by (by left). clear w Hs.
  assert (own (w_next_fd w1)) as Hown by (right; apply (sf_next _ _ Hs1)).
  assert (forall w2, safe (-1) w2 -> own (w_next_fd w2)) as Hown2 by (intros w2 Hs2; right; apply (sf_next _ _ Hs2)).
  assert (forall w2 e, safe (-1) w2 -> Q (-1) (set_errno e w2)) as Hfail by (intros; apply HQ; [by apply safe_errno|done]).
  assert (forall w2, safe (-1) w2 -> wpc (alloc_fd p) w2 Q R) as Halloc.
  { intros w2 Hs2. apply HQ; [apply safe_open; [by left|done]|by apply Hown2]. }
  assert (wpc (isdir ← getS (fun w => bool_decide (p ∈ w_dirs w));
      if isdir : bool then fail EISDIR (-1)
      else
        f ← getS (fun w => w_files w !! p);
        match f with
        | Some _ => (if trunc then modS (set_files <[p := []]>) else mret tt);; alloc_fd p
        | None =>
            if creat then
              parent ← getS (fun w => bool_decide (dirname p ∈ w_dirs w));
              if parent : bool then modS (set_files <[p := []]>);; alloc_fd p
              else fail ENOENT (-1)
            else fail ENOENT (-1)
        end) w1 Q R) as Hgo; [|by destruct e; [|apply HQ|]].
  apply wpc_bind. cbn. destruct (bool_decide (p ∈ w_dirs w1)); [by apply Hfail|].
  apply wpc_bind. cbn. destruct (w_files w1 !! p).
  - apply wpc_bind. destruct trunc; [|by apply Halloc].
    apply (Halloc (set_files <[p := []]> w1)). by apply safe_insert.
  - destruct creat; [|by apply Hfail]. apply wpc_bind. cbn. destruct (bool_decide _); [|by apply Hfail].
    apply wpc_bind. apply (Halloc (set_files <[p := []]> w1)). by apply safe_insert.
Qed.

Lemma any_open_read w p mode Q :
  safe (-1) w -> (forall fd w', safe fd w' -> Q fd w') -> wpc (sys_open p mode false false) w Q R.
Proof.
  intros Hs HQ. apply wpc_bind. eapply any_enter; [done|]. intros e w1 Hs1 _. clear w Hs.
  assert (forall e, Q (-1) (set_errno e w1)) as Hfail by (intros; apply HQ; by apply safe_errno).
  assert (wpc (isdir ← getS (fun w => bool_decide (p ∈ w_dirs w));
      if isdir : bool then fail EISDIR (-1)
      else
        f ← getS (fun w => w_files w !! p);
        match f with
        | Some _ => mret tt;; alloc_fd p
        | None => fail ENOENT (-1)
        end) w1 Q R) as Hgo; [|by destruct e; [|apply HQ|]].
  apply wpc_bind. cbn. destruct (bool_decide (p ∈ w_dirs w1)); [by apply Hfail|].
  apply wpc_bind. cbn. destruct (w_files w1 !! p); [|by apply Hfail].
  apply HQ. apply safe_open; [by right|]. destruct Hs1 as [? ? ? ? Ho ?]. split; try done.
  intros fd d Hge Hne. destruct (decide (fd = -1)) as [->|]; [congruence|by apply Ho].
Qed.

Lemma any_close x w fd Q : safe x w -> (forall r w', safe x w' -> w_fds w' !! fd = None -> Q r w') -> wpc (sys_close fd) w Q R.
Proof.
  intros Hs HQ. apply wpc_bind. eapply any_enter; [done|]. intros e w1 Hs1 _.
  assert (Q (-1) (set_fds (delete fd) w1) /\ Q 0 (set_fds (delete fd) w1)) as [Hm H0].
  { split; (apply HQ; [by apply safe_close|apply lookup_delete_eq]). }
  assert (wpc (d ← getS (fun w => w_fds w !! fd);
      match d with Some _ => modS (set_fds (delete fd));; mret 0 | None => fail EBADF (-1) end) w1 Q R) as Hgo.
  { apply wpc_bind. cbn. destruct (w_fds w1 !! fd) eqn:Hd; [done|]. cbn. apply HQ; [by apply safe_errno|done]. }
  by destruct e.
Qed.

Lemma any_read x w fd n Q : safe x w -> (forall r w', safe x w' -> Q r w') -> wpc (sys_read fd n) w Q R.
Proof.
  intros Hs HQ. apply wpc_bind. eapply any_enter; [done|]. intros e w1 Hs1 _.
  assert (wpc (d ← getS (fun w => w_fds w !! fd);
      match d with
      | None => fail EBADF None
      | Some d =>
          f ← getS (fun w => w_files w !! fd_path d);
          match f with
          | None => fail EBADF None
          | Some c =>
              let bs := slice (fd_off d) (clip e n) c in
              modS (set_fds <[fd := FDesc (fd_path d) (fd_off d + zlen bs)]>);;
              mret (Some bs)
          end
      end) w1 Q R) as Hgo; [|by destruct e; [|apply HQ|]].
  apply wpc_bind. cbn. destruct (w_fds w1 !! fd) as [d|] eqn:Hd; [|apply HQ; by apply safe_errno].
  apply wpc_bind. cbn. destruct (w_files w1 !! fd_path d); [|apply HQ; by apply safe_errno].
  cbn. apply HQ. by eapply safe_fd.
Qed.

Lemma any_write w fd bs Q :
  safe (-1) w -> own fd -> (forall r w', safe (-1) w' -> Q r w') -> wpc (sys_write fd bs) w Q R.
Proof.
  intros Hs Hown HQ. apply wpc_bind. eapply any_enter; [done|]. intros e w1 Hs1 _.
  assert (wpc (d ← getS (fun w => w_fds w !! fd);
      match d with
      | None => fail EBADF (-1)
      | Some d =>
          f ← getS (fun w => w_files w !! fd_path d);
          match f with
          | None => fail EBADF (-1)
          | Some c =>
              let n := clip e (zlen bs) in
              modS (set_files <[fd_path d := file_write (fd_off d) (take (Z.to_nat n) bs) c]>);;
              modS (set_fds <[fd := FDesc (fd_path d) (fd_off d + n)]>);;
              mret n
          end
      end) w1 Q R) as Hgo; [|by destruct e; [|apply HQ|]].
  apply wpc_bind. cbn. destruct (w_fds w1 !! fd) as [d|] eqn:Hd; [|apply HQ; by apply safe_errno].
  apply wpc_bind. cbn. destruct (w_files w1 !! fd_path d) as [c|]; [|apply HQ; by apply safe_errno].
  cbn. apply HQ. eapply safe_fd; [apply safe_insert; [|done]|exact Hd|done].
  destruct Hown as [->|Hge]; [by rewrite (sf_neg _ _ Hs1) in Hd|].
  apply (sf_own _ _ Hs1 fd); [done| |done]. intros ->. pose proof (sf_next _ _ Hs1). lia.
Qed.

Lemma any_write_loop fuel : forall w fd bs Q,
  safe (-1) w -> own fd -> (forall r w', safe (-1) w' -> Q r w') -> wpc (IOUtils.write_loop fuel fd bs) w Q R.
Proof.
  induction fuel as [|fuel IH]; intros w fd bs Q Hs Hown HQ; cbn [IOUtils.write_loop].
  - destruct bs; [by apply HQ|by eapply HR].
  - destruct bs; [by apply HQ|]. apply wpc_bind. eapply any_write; [done..|]. intros r w1 Hs1.
    destruct (r =? -1); [by apply HQ|by apply IH].
Qed.

Lemma any_WriteFully w fd bs Q :
  safe (-1) w -> own fd -> (forall r w', safe (-1) w' -> Q r w') -> wpc (IOUtils.WriteFully fd bs) w Q R.
Proof.
  intros Hs Hown HQ. unfold IOUtils.WriteFully. destruct bs as [bs|]; [|by apply HQ]. destruct (fd =? -1); [by apply HQ|].
  destruct (_ =? _); [by apply HQ|]. apply wpc_bind. eapply any_write_loop; [done..|]. intros r w1 Hs1. by apply HQ.
Qed.

Lemma any_lseek x w fd off wh Q : safe x w -> (forall r w', safe x w' -> Q r w') -> wpc (sys_lseek fd off wh) w Q R.
Proof.
  intros Hs HQ. apply wpc_bind. eapply any_enter; [done|]. intros e w1 Hs1 _.
  assert (wpc (d ← getS (fun w => w_fds w !! fd);
      match d with
      | None => fail EBADF (-1)
      | Some d =>
          let p := match wh with SEEK_SET => off | SEEK_CUR => fd_off d + off end in
          if p <? 0 then fail EINVAL (-1)
          else modS (set_fds <[fd := FDesc (fd_path d) p]>);; mret p
      end) w1 Q R) as Hgo; [|by destruct e; [|apply HQ|]].
  apply wpc_bind. cbn. destruct (w_fds w1 !! fd) as [d|] eqn:Hd; [|apply HQ; by apply safe_errno].
  destruct (_ <? 0); [apply HQ; by apply safe_errno|]. cbn. apply HQ. by eapply safe_fd.
Qed.

Lemma any_fdatasync x w fd Q : safe x w -> (forall r w', safe x w' -> Q r w') -> wpc (sys_fdatasync fd) w Q R.
Proof.
  intros Hs HQ. apply wpc_bind. eapply any_enter; [done|]. intros e w1 Hs1 _.
  assert (wpc (d ← getS (fun w => w_fds w !! fd);
      match d with Some _ => mret 0 | None => fail EBADF (-1) end) w1 Q R) as Hgo; [|by destruct e; [|apply HQ|]].
  apply wpc_bind. cbn. destruct (w_fds w1 !! fd); apply HQ; [done|by apply safe_errno].
Qed.

Lemma any_unlink x w p Q :
  safe x w -> T p \/ w_files w !! p = None -> (forall r w', safe x w' -> Q r w') -> wpc (sys_unlink p) w Q R.
Proof.
  intros Hs Hp HQ. apply wpc_bind. eapply any_enter; [done|]. intros e w1 Hs1 Hb.
  assert (wpc (f ← getS (fun w => w_files w !! p);
      match f with Some _ => modS (set_files (delete p));; mret 0 | None => fail ENOENT (-1) end) w1 Q R) as Hgo;
    [|by destruct e; [|apply HQ|]].
  apply wpc_bind. cbn. destruct (w_files w1 !! p) eqn:Hf; apply HQ; [|by apply safe_errno].
  apply safe_delete; [|done]. by rewrite (bl_files _ _ Hb).
Qed.

(** [Unlink] of a file in [T], or of a path at which there is no file. *)
Lemma any_Unlink x w p Q :
  safe x w -> T p \/ w_files w !! p = None -> (forall r w', safe x w' -> Q r w') -> wpc (FileUtils.Unlink p) w Q R.
Proof.
  intros Hs Hp HQ. apply wpc_bind. eapply any_access; [done|]. intros b w1 Hs1 _ Hb. destruct b; cbn [negb].
  - eapply any_unlink; [done| |done]. by rewrite (bl_files _ _ Hb).
  - by apply HQ.
Qed.

(** [rename] inside [T]; when it succeeds the target is there. *)
Lemma any_rename x w p q Q :
  safe x w -> T p -> T q ->
  (forall r w', safe x w' -> (r <> -1 -> exists c, w_files w !! p = Some c /\
     w_files w' = <[q := c]> (delete p (w_files w))) -> Q r w') ->
  wpc (sys_rename p q) w Q R.
Proof.
  intros Hs Hp Hq HQ. apply wpc_bind. eapply any_enter; [done|]. intros e w1 Hs1 Hb.
  assert (wpc (f ← getS (fun w => w_files w !! p);
      match f with
      | Some c => modS (set_files (fun m => <[q := c]> (delete p m)));; mret 0
      | None => fail ENOENT (-1)
      end) w1 Q R) as Hgo; [|by destruct e; [|apply HQ; [|intros []]|]].
  apply wpc_bind. cbn. rewrite <- (bl_files _ _ Hb) in *. destruct (w_files w1 !! p) as [c|] eqn:Hf; cbn.
  - apply HQ; [|eauto]. apply safe_store; [|done]. intros r Hr.
    rewrite lookup_insert_ne, lookup_delete_ne; [done|intros ->; done..].
  - apply HQ; [by apply safe_errno|by intros []].
Qed.

Lemma any_setlkw x w p Q : safe x w -> (forall r w', safe x w' -> Q r w') -> wpc (sys_setlkw p) w Q R.
Proof.
  intros Hs HQ. apply wpc_bind. eapply any_enter; [done|]. intros e w1 Hs1 _.
  assert (Q 0 (set_flocks (fun s => s ∖ {[p]}) w1)) by (apply HQ; eapply safe_blip; [exact Hs1|by split]).
  by destruct e; [|apply HQ|].
Qed.

(** A descriptor opened for reading that is closed again. *)
Lemma safe_weaken x w : safe (-1) w -> safe x w.
Proof.
  intros [? ? ? ? Ho ?]. split; try done. intros fd d Hge _ Hd. destruct (decide (fd = -1)) as [->|]; [congruence|].
  by eapply Ho.
Qed.
Lemma safe_gone x w : safe x w -> w_fds w !! x = None -> safe (-1) w.
Proof.
  intros [? ? ? ? Ho ?] Hx. split; try done. intros fd d Hge _ Hd. destruct (decide (fd = x)) as [->|]; [congruence|].
  by eapply Ho.
Qed.

Lemma any_read_stream x fuel : forall w fd acc Q,
  safe x w -> (forall r w', safe x w' -> Q r w') -> wpc (FileUtils.read_stream fuel fd acc) w Q R.
Proof.
  induction fuel as [|fuel IH]; intros w fd acc Q Hs HQ; cbn [FileUtils.read_stream]; [by eapply HR|].
  apply wpc_bind. eapply any_read; [done|]. intros r w1 Hs1.
  destruct r as [[|b bs]|]; [by apply HQ|by apply IH|by apply HQ].
Qed.

Lemma any_ReadAllString w p Q :
  safe (-1) w -> (forall r w', safe (-1) w' -> Q r w') -> wpc (FileUtils.ReadAllString p) w Q R.
Proof.
  intros Hs HQ. apply wpc_bind. eapply any_open_read; [done|]. intros fd w1 Hs1.
  destruct (Z.eqb_spec fd (-1)) as [->|]; [by apply HQ|]. apply wpc_bind, wpc_getS. apply wpc_bind. eapply any_read_stream; [done|]. intros r w2 Hs2. apply wpc_bind.
  eapply any_close; [done|]. intros r3 w3 Hs3 Hfd. apply HQ. by eapply safe_gone.
Qed.

Lemma any_ToUint46_t x w s Q : safe x w -> (forall r w', safe x w' -> Q r w') -> wpc (CommonUtils.ToUint46_t s) w Q R.
Proof.
  intros Hs HQ. unfold CommonUtils.ToUint46_t. destruct (CommonUtils.strtoul _) as [[val err] endptr].
  apply wpc_bind. assert (forall w1, safe x w1 -> wpc (errno ← get_errno;
    if ((errno =? ERANGE) && ((val =? CommonUtils.ULONG_MAX) || (val =? 0))) || (negb (errno =? 0) && (val =? 0))
    then mret (false, val)
    else match endptr with None => mret (false, val) | Some rest => mret (String.eqb rest "", val) end) w1 Q R) as Hgo.
  { intros w1 Hs1. apply wpc_bind. cbn. destruct (_ || _); [by apply HQ|]. destruct endptr; by apply HQ. }
  destruct err; apply Hgo; [by apply safe_errno|done].
Qed.

Lemma any_LockPath w p Q :
  safe (-1) w -> T p -> (forall f w', safe (-1) w' -> fd f = -1 \/ path f = p -> Q f w') ->
  wpc (FileUtils.LockPath p) w Q R.
Proof.
  intros Hs Hp HQ. unfold FileUtils.LockPath. apply wpc_bind. cbn. destruct (bool_decide _); [apply HQ; auto|].
  apply wpc_bind. eapply any_open; [done..|]. intros fd w1 Hs1 Hown. destruct (fd =? -1); [apply HQ; auto|].
  apply wpc_bind. eapply any_setlkw; [done|]. intros r w2 Hs2. destruct (r =? -1).
  - apply wpc_bind. eapply any_close; [done|]. intros r3 w3 Hs3 _. apply HQ; auto.
  - apply wpc_bind. cbn. apply HQ; [|by right]. eapply safe_blip; [exact Hs2|by split].
Qed.

Lemma any_CloseFile x w f Q : safe x w -> (forall r w', safe x w' -> Q r w') -> wpc (FileUtils.CloseFile f) w Q R.
Proof.
  intros Hs HQ. apply wpc_bind. eapply any_close; [done|]. intros r w1 Hs1 _. apply wpc_bind. cbn. apply HQ.
  eapply safe_blip; [exact Hs1|by split].
Qed.
End any.
