(* ===== verification/Records.v ===== *)
(** * Framed records

    The log and the checkpoint store their entries in the same kind of frame: the
    length of the content, a fixed number of header bytes, the content, and the
    frame's own offset in the file.  This file has the facts both loaders need:
    where the fields are, how a prefix of a file of frames splits into whole
    frames and a torn one, and what one batched read leaves to the next. *)

From S2P Require Import Prelude Codec Buffer Posix Files.

Lemma zlen_be_bytes k n : zlen (be_bytes k n) = Z.of_nat k.
Proof. unfold zlen. by rewrite be_bytes_length. Qed.
#[export] Hint Rewrite zlen_be_bytes : flykv.

Lemma drop_past {A} (pre x : list A) k :
  0 <= k -> drop (Z.to_nat (zlen pre + k)) (pre ++ x) = drop (Z.to_nat k) x.
Proof.
  intros Hk. unfold zlen. replace (Z.to_nat _) with (length pre + Z.to_nat k)%nat by lia.
  by rewrite <- drop_drop, drop_app_length.
Qed.
Lemma drop_past0 {A} (pre x : list A) : drop (Z.to_nat (zlen pre)) (pre ++ x) = x.
Proof. unfold zlen. by rewrite Nat2Z.id, drop_app_length. Qed.

(** ** Frames *)

Record frec := Frec { f_hdr : list byte; f_body : list byte }.

Definition frame (off : Z) (f : frec) : list byte :=
  be_bytes 4 (zlen (f_body f)) ++ f_hdr f ++ f_body f ++ be_bytes 4 off.

Section frames.
(** [h] is the number of header bytes between the length and the content. *)
Context (h : Z).

Definition fsize (f : frec) : Z := zlen (f_body f) + (h + 8).
Definition f_ok (f : frec) : Prop := zlen (f_hdr f) = h /\ fsize f < 4294967296.

Fixpoint frames (off : Z) (fs : list frec) : list byte :=
  match fs with [] => [] | f :: fs => frame off f ++ frames (off + fsize f) fs end.
Fixpoint frames_size (fs : list frec) : Z :=
  match fs with [] => 0 | f :: fs => fsize f + frames_size fs end.

Lemma frame_length off f : f_ok f -> zlen (frame off f) = fsize f.
Proof. intros [Hh _]. unfold frame, fsize. zlens. lia. Qed.

Lemma frames_length fs : forall off, Forall f_ok fs -> zlen (frames off fs) = frames_size fs.
Proof.
  induction fs as [|f fs IH]; intros off Hf; [done|]. inversion_clear Hf.
  cbn [frames frames_size]. by rewrite zlen_app, IH, frame_length.
Qed.

(** [t] is the beginning of a frame, not the whole of it. *)
Definition torn (t : list byte) : Prop :=
  exists off f r, t ++ r = frame off f /\ r <> [] /\ f_ok f.

Lemma torn_nil : 0 <= h < 2147483648 -> torn [].
Proof.
  intros Hh. exists 0, (Frec (replicate (Z.to_nat h) x00) []), (frame 0 (Frec (replicate (Z.to_nat h) x00) [])).
  assert (zlen (replicate (Z.to_nat h) x00) = h) as Hz by (unfold zlen; rewrite length_replicate; lia).
  split; [done|]. split; [|split; [done|unfold fsize; change (zlen (f_body _)) with 0; lia]].
  intros Heq%(f_equal zlen). unfold frame in Heq. rewrite !zlen_app, !zlen_be_bytes in Heq. simpl in Heq.
  pose proof (zlen_nonneg (replicate (Z.to_nat h) x00)). change (zlen (@nil byte)) with 0 in Heq. lia.
Qed.

Lemma torn_take k t : torn t -> torn (take k t).
Proof.
  intros (off&f&r&Heq&Hr&Hf). exists off, f, (drop k t ++ r).
  rewrite app_assoc, take_drop. split; [done|]. split; [|done]. by intros [_ ?]%app_eq_nil.
Qed.

Lemma torn_frame k off f : f_ok f -> (k < length (frame off f))%nat -> torn (take k (frame off f)).
Proof.
  intros Hf Hk. exists off, f, (drop k (frame off f)). rewrite take_drop. split; [done|]. split; [|done].
  intros Hd%(f_equal length). rewrite length_drop in Hd. cbn [length] in Hd. lia.
Qed.

(** The length field decides how long a frame is, so no beginning of a frame
    contains a whole one. *)
Lemma torn_no_frame off f x : f_ok f -> ~ torn (frame off f ++ x).
Proof.
  intros [Hh Hs] (off'&f'&r&Heq&Hr&[Hh' Hs']). unfold fsize in *.
  pose proof (zlen_nonneg (f_body f)). pose proof (zlen_nonneg (f_body f')).
  pose proof (zlen_nonneg (f_hdr f)). pose proof (zlen_nonneg x).
  assert (zlen (f_body f) = zlen (f_body f')) as Hl.
  { pose proof Heq as Hp. unfold frame in Hp. rewrite <- !app_assoc in Hp.
    apply app_inj_1 in Hp as [Hp _]; [|by rewrite !be_bytes_length].
    apply (f_equal be_val) in Hp. rewrite !be_val_bytes in Hp.
    change (256 ^ Z.of_nat 4) with 4294967296 in Hp. rewrite !Z.mod_small in Hp by lia. done. }
  apply (f_equal zlen) in Heq. rewrite !zlen_app, !frame_length in Heq by done.
  unfold fsize in Heq. destruct r as [|b r]; [done|]. rewrite zlen_cons in Heq.
  pose proof (zlen_nonneg r). lia.
Qed.

Lemma torn_frames off fs x : Forall f_ok fs -> torn (frames off fs ++ x) -> fs = [].
Proof.
  intros Hf Ht. destruct fs as [|f fs]; [done|]. inversion_clear Hf.
  cbn [frames] in Ht. rewrite <- app_assoc in Ht. by apply torn_no_frame in Ht.
Qed.

(** Any prefix of the frames of a file is some whole frames and a torn one. *)
Lemma cut_frames tail fs : forall off k,
  torn tail -> Forall f_ok fs ->
  exists fs1 fs2 t, fs = fs1 ++ fs2 /\ take k (frames off fs ++ tail) = frames off fs1 ++ t /\ torn t /\
    t ++ drop k (frames off fs ++ tail) = frames (off + frames_size fs1) fs2 ++ tail.
Proof.
  induction fs as [|f fs IH]; intros off k Ht Hfs.
  - exists [], [], (take k tail). split; [done|]. split; [done|].
    split; [by apply torn_take|]. simpl. by rewrite take_drop.
  - inversion_clear Hfs as [|? ? Hf Hfs']. cbn [frames]. rewrite <- app_assoc.
    destruct (Nat.lt_ge_cases k (length (frame off f))) as [Hk|Hk].
    + exists [], (f :: fs), (take k (frame off f)). split; [done|]. split; [|split].
      * rewrite take_app_le by lia. done.
      * by apply torn_frame.
      * rewrite drop_app_le by lia. cbn [frames frames_size]. rewrite Z.add_0_r.
        by rewrite (app_assoc (take k _)), take_drop, <- app_assoc.
    + destruct (IH (off + fsize f) (k - length (frame off f))%nat Ht Hfs') as (fs1&fs2&t&->&Htk&Htt&Hd).
      exists (f :: fs1), fs2, t. split; [done|]. split; [|split; [done|]].
      * rewrite take_app_ge by lia. rewrite Htk. cbn [frames]. by rewrite app_assoc.
      * rewrite drop_app_ge by lia. rewrite Hd. cbn [frames_size]. do 2 f_equal. lia.
Qed.

(** One batched read at [pos]: with what was left of the batch before it makes
    whole frames and a torn one; a short read has reached the end of the file. *)
Lemma next_chunk content pos batch left off fs tail :
  0 <= pos <= zlen content -> 0 < batch -> Forall f_ok fs -> torn tail ->
  left ++ drop (Z.to_nat pos) content = frames off fs ++ tail ->
  let chunk := slice pos batch content in
  zlen chunk = Z.min batch (zlen content - pos) /\
  exists fs1 fs2 t, fs = fs1 ++ fs2 /\ left ++ chunk = frames off fs1 ++ t /\ torn t /\
    t ++ drop (Z.to_nat (pos + zlen chunk)) content = frames (off + frames_size fs1) fs2 ++ tail /\
    (zlen chunk < batch -> fs2 = [] /\ t = tail).
Proof.
  intros Hpos Hb Hfs Ht Heq chunk.
  assert (zlen chunk = Z.min batch (zlen content - pos)) as Hn
    by (unfold chunk; rewrite slice_length by lia; lia).
  split; [done|]. set (rest := drop (Z.to_nat pos) content) in *.
  destruct (cut_frames tail fs off (length left + length chunk)%nat Ht Hfs) as (fs1&fs2&t&->&Htk&Htt&Hd).
  rewrite <- Heq in Htk, Hd. exists fs1, fs2, t. split; [done|].
  assert (take (length left + length chunk) (left ++ rest) = left ++ chunk) as Hdata.
  { rewrite take_app_add'; [|done]. f_equal. unfold zlen in *.
    assert (length rest = length content - Z.to_nat pos)%nat by apply length_drop.
    change chunk with (take (Z.to_nat batch) rest) at 2.
    destruct (Nat.le_gt_cases (Z.to_nat batch) (length rest)); [f_equal; lia|].
    by rewrite !take_ge by lia. }
  assert (drop (length left + length chunk) (left ++ rest) = drop (Z.to_nat (pos + zlen chunk)) content) as Hrest.
  { rewrite drop_app_add'; [|done]. unfold rest. rewrite drop_drop. f_equal. unfold zlen. lia. }
  rewrite Hdata in Htk. rewrite Hrest in Hd. repeat split; try done.
  - apply Forall_app in Hfs as [_ Hf2]. eapply torn_frames; [exact Hf2|]. rewrite <- Hd.
    rewrite (drop_ge content) by (unfold zlen in *; lia). by rewrite app_nil_r.
  - apply Forall_app in Hfs as [_ Hf2]. rewrite (drop_ge content), app_nil_r in Hd by (unfold zlen in *; lia).
    assert (fs2 = []) as ->; [|done]. eapply torn_frames; [exact Hf2|]. by rewrite <- Hd.
Qed.

(** ** The fields of a frame *)

Context (host : byte_order).

Lemma frame_split off f rest :
  frame off f ++ rest = (be_bytes 4 (zlen (f_body f)) ++ f_hdr f) ++ f_body f ++ be_bytes 4 off ++ rest.
Proof. unfold frame. by rewrite <- !app_assoc. Qed.

Lemma read_len pre off f rest :
  zlen (f_body f) < 4294967296 ->
  ByteOrderUtils.ReadUInt32 host (drop (Z.to_nat (zlen pre)) (pre ++ frame off f ++ rest))
  = Some (zlen (f_body f)).
Proof.
  intros. pose proof (zlen_nonneg (f_body f)). rewrite drop_past0. unfold frame.
  rewrite <- app_assoc, read32_be. by rewrite u32_small.
Qed.

Lemma drop_body pre off f rest :
  0 <= h -> zlen (f_hdr f) = h ->
  drop (Z.to_nat (zlen pre + (h + 4))) (pre ++ frame off f ++ rest) = f_body f ++ be_bytes 4 off ++ rest.
Proof.
  intros Hh Hf. rewrite drop_past, frame_split by lia. apply drop_app_length'.
  unfold zlen in *. rewrite length_app, be_bytes_length. lia.
Qed.

Lemma read_off pre off f rest :
  0 <= h -> zlen (f_hdr f) = h -> 0 <= off < 4294967296 ->
  ByteOrderUtils.ReadUInt32 host
    (drop (Z.to_nat (zlen pre + (h + 4 + zlen (f_body f)))) (pre ++ frame off f ++ rest)) = Some off.
Proof.
  intros Hh Hf Ho. pose proof (zlen_nonneg (f_body f)). rewrite drop_past, frame_split, app_assoc by lia.
  rewrite drop_app_length'; [rewrite read32_be; by rewrite u32_small|].
  unfold zlen in *. rewrite !length_app, be_bytes_length. lia.
Qed.

(** The parsers recognise a torn frame as such. *)
Lemma torn_short pre t junk :
  0 <= h -> torn t ->
  zlen t < h + 4 \/
  exists len, ByteOrderUtils.ReadUInt32 host (drop (Z.to_nat (zlen pre)) (pre ++ t ++ junk)) = Some len /\
    zlen t < u32 (h + 8 + len).
Proof.
  intros Hh (off&f&r&Heq&Hr&[Hf Hs]). destruct (Z.lt_ge_cases (zlen t) (h + 4)) as [|Hge]; [by left|right].
  exists (zlen (f_body f)). unfold fsize in Hs. pose proof (zlen_nonneg (f_body f)). rewrite u32_small by lia. split.
  - assert (exists t', t = be_bytes 4 (zlen (f_body f)) ++ t') as [t' ->].
    { exists (drop 4 t). rewrite <- (take_drop 4 t) at 1. f_equal.
      apply (f_equal (take 4)) in Heq. unfold frame in Heq.
      rewrite take_app_le in Heq by (unfold zlen in *; lia). rewrite Heq.
      by rewrite take_app_length' by (by rewrite be_bytes_length). }
    rewrite drop_past0, <- app_assoc, read32_be. by rewrite u32_small by lia.
  - apply (f_equal zlen) in Heq. rewrite zlen_app, frame_length in Heq by done. unfold fsize in Heq.
    destruct r as [|b r]; [done|]. rewrite zlen_cons in Heq. pose proof (zlen_nonneg r). lia.
Qed.
End frames.

(** The number of batches a loader may need. *)
Lemma chunks_enough n batch : 4 <= n -> 0 < batch -> n - 4 < batch * Z.of_nat (Z.to_nat (n / batch + 2)).
Proof.
  intros Hn Hb. assert (0 <= n / batch) by (apply Z.div_pos; lia).
  pose proof (Z.div_mod n batch). pose proof (Z.mod_pos_bound n batch Hb). nia.
Qed.

(** ** Filling a write buffer *)

(** The write buffer after the bytes [pre]: the position is behind them. *)
Definition filling (start size : Z) (pre rest : list byte) (b : bool) : dbuf :=
  DBuf (mkBuffer (start + zlen pre) (start + size - 1) start (start + size - 1) (Some start) b true)
    (pre ++ rest).

Lemma filling_write start size pre rest b f bs :
  f rest = bs ++ drop (length bs) rest ->
  db_write f (filling start size pre rest b) =
  DBuf (db (filling start size pre rest b)) ((pre ++ bs) ++ drop (length bs) rest).
Proof.
  intros Hf. unfold db_write, filling. cbn [db db_mem m_pPos m_pStart].
  replace (Z.to_nat (start + zlen pre - start)) with (length pre) by (unfold zlen; lia).
  by rewrite take_app_length, drop_app_length, Hf, app_assoc.
Qed.

Lemma filling_step start size pre rest b f bs n :
  0 < start -> 0 < size -> zlen bs = n -> f rest = bs ++ drop (length bs) rest ->
  exists b', db_op (MoveHeadBack n) (db_write f (filling start size pre rest b)) =
             filling start size (pre ++ bs) (drop (length bs) rest) b'.
Proof.
  intros Hs Hz Hn Hf. rewrite (filling_write _ _ _ _ _ _ _ Hf).
  unfold db_op, filling. cbn [db db_mem]. unfold MoveHeadBack. cbn [m_pPos m_pLast].
  pose proof (zlen_nonneg pre).
  destruct (Z.eqb_spec (start + zlen pre) 0), (Z.eqb_spec (start + size - 1) 0); [lia..|]. cbn [orb].
  eexists. unfold check_available. cbn [m_pPos m_pLast m_pStart m_pEnd m_pMpObject m_bOwn].
  rewrite zlen_app. f_equal. f_equal. lia.
Qed.

Lemma mem_write_0 bs rest : mem_write 0 bs rest = bs ++ drop (length bs) rest.
Proof. unfold mem_write. simpl. done. Qed.

