(* ===== verification/Entries.v ===== *)
(** * Log and checkpoint entries (src/kv/entries, src/common/ientry.h)

    [IEntry] is the interface of src/common/ientry.h together with the
    [EntryCreateHandler] its users are given.  [RawPbEntryEntry], [WalPutEntry]
    and [WalDeleteEntry] are the three classes under src/kv/entries; an object's
    content pointer is an [option].  [protocol::Entry] is generated from
    proto/meta.proto: its two fields are a record, its wire format the class
    [PbEntry]. *)

From S2P Require Import Prelude Codec Buffer.

(** ** protocol::Entry *)

Record Entry := MkEntry { key : list byte; value : list byte }.

#[global] Instance Entry_eq_dec : EqDecision Entry.
Proof. solve_decision. Defined.

(** The generated code: [pb_bytes] is what [SerializeToArray] stores (there are
    [ByteSize()] of them), [pb_parse] what [ParseFromArray] reads.  Protocol
    buffers promise that parsing gives the message back, and a field that is not
    empty takes at least its tag. *)
Class PbEntry := {
  pb_bytes : Entry -> list byte;
  pb_parse : list byte -> option Entry;
  pb_roundtrip : forall e, pb_parse (pb_bytes e) = Some e;
  pb_nonempty : forall e, key e <> [] -> pb_bytes e <> []
}.

(** ** interface IEntry *)

(** [TypeId], [Encode] ([None] when it returns false, else the buffer) and
    [Decode] ([None] when it returns false, else the object after it). *)
Class IEntry (E : Type) := {
  TypeId : E -> Z;
  Encode : E -> option dbuf;
  Decode : E -> dbuf -> option E
}.

(** [EntryCreateHandler]: a blank object for received bytes, [None] is null. *)
Class EntryCreator (E : Type) := { entryCreator : dbuf -> option E }.

(** What a log relies on to read back what it wrote: the encoding of an entry
    is a non-empty available buffer, and creating an object for these bytes,
    wherever they lie and whatever follows, and decoding it gives the entry in its
    reloaded form. *)
Class IEntryLaws (E : Type) `{IEntry E, EntryCreator E} := {
  enc : E -> list byte;
  reload : E -> E;
  encodable : E -> Prop;
  enc_nonempty : forall e, encodable e -> enc e <> [];
  Encode_enc : forall e, encodable e -> zlen (enc e) < 2147483648 ->
    exists d, Encode e = Some d /\ db_content d = enc e /\ Valid (db d) = true /\
              AvailableLength (db d) = zlen (enc e);
  Decode_enc : forall e p rest, encodable e -> zlen (enc e) < 2147483648 -> 0 < p ->
    let b := view p (zlen (enc e)) (enc e ++ rest) in
    exists e0, entryCreator b = Some e0 /\ Decode e0 b = Some (reload e)
}.

(** ** enum class EntryType *)

Definition RawEntry : Z := 1.
Definition WalPut : Z := 2.
Definition WalDelete : Z := 3.

(** ** class ProtoBufUtils (src/utils/protobuf-utils.cc) *)

Module ProtoBufUtils.
Section defs.
Context `{MemAlloc} `{PbEntry}.

Definition Deserialize (from : dbuf) : option Entry := pb_parse (db_content from).

(** [Serialize(from, to, mp)]: into memory from the pool. *)
Definition Serialize_mp (from : Entry) (to : Buffer) : dbuf :=
  let len := u32 (zlen (pb_bytes from)) in
  let mo := mp_Get len in
  let start := mo_ptr mo in
  let mem := mem_write 0 (pb_bytes from) (mo_mem mo) in
  DBuf (Refresh start (start + len - 1) start (start + mo_size mo - 1) (Some start) true to).1 mem.

(** [Serialize(from, to)]: at the buffer's position. *)
Definition Serialize (from : Entry) (to : dbuf) : dbuf :=
  db_write (mem_write 0 (pb_bytes from)) to.
End defs.
End ProtoBufUtils.

(** ** class RawPbEntryEntry: the state is [m_sspContent] *)

Module RawPbEntryEntry.
Section defs.
Context `{MemAlloc} `{PbEntry}.

Definition TypeId (_ : option Entry) : Z := RawEntry.
Definition Encode (m_sspContent : option Entry) : option dbuf :=
  match m_sspContent with
  | None => None
  | Some e => Some (ProtoBufUtils.Serialize_mp e Buffer_default)
  end.
Definition Decode (_ : option Entry) (buffer : dbuf) : option (option Entry) :=
  if negb (Valid (db buffer)) then None
  else
    match ProtoBufUtils.Deserialize buffer with
    | None => None
    | Some entry => Some (Some entry)
    end.
End defs.
End RawPbEntryEntry.

(** A pool buffer for [size] bytes whose first byte is the entry's type, the
    position moved behind it: how both log entries start their [Encode]. *)
Definition typed_buffer `{MemAlloc} (type size : Z) : dbuf :=
  let totalLen := u32 (size + 1) in
  let mo := mp_Get (u32 (size + 1)) in
  let start := mo_ptr mo in
  let buffer := DBuf (Refresh start (start + totalLen - 1) start (start + mo_size mo - 1)
                        (Some start) true Buffer_default).1 (mo_mem mo) in
  let buffer := db_write (mem_write 0 [z2b type]) buffer in
  db_op (MoveHeadBack 1) buffer.

(** ** class WalPutEntry: the state is [m_sspContent] *)

Module WalPutEntry.
Section defs.
Context `{MemAlloc} `{PbEntry}.

Definition TypeId (_ : option Entry) : Z := WalPut.
Definition Encode (m_sspContent : option Entry) : option dbuf :=
  match m_sspContent with
  | None => None
  | Some e =>
      let pbSize := zlen (pb_bytes e) in
      let buffer := typed_buffer WalPut pbSize in
      let buffer := ProtoBufUtils.Serialize e buffer in
      Some (db_op (SetPos (GetStart (db buffer))) buffer)
  end.
Definition Decode (_ : option Entry) (buffer : dbuf) : option (option Entry) :=
  if negb (Valid (db buffer)) then None
  else
    let buffer := db_op (MoveHeadBack 1) buffer in
    if negb (Valid (db buffer)) then None
    else
      match ProtoBufUtils.Deserialize buffer with
      | None => None
      | Some entry => Some (Some entry)
      end.
End defs.
End WalPutEntry.

(** ** class WalDeleteEntry

    [m_pContent] is the memory at the pointer, a C string with its NUL (the
    key's [c_str()], or the copy [Decode] makes); [m_iSize] is the length the
    constructor was given, which [Decode] leaves at its initial [0]. *)

Module WalDeleteEntry.

Record t := Make { m_pContent : option (list byte); m_iSize : Z }.

(** [WalDeleteEntry(mp)] and [WalDeleteEntry(mp, key.c_str(), key.length(), false)]. *)
Definition blank : t := Make None 0.
Definition of_key (k : list byte) : t := Make (Some (k ++ [x00])) (zlen k).

Section defs.
Context `{MemAlloc}.

Definition TypeId (_ : t) : Z := WalDelete.
Definition Encode (e : t) : option dbuf :=
  match m_pContent e with
  | None => None
  | Some content =>
      let buffer := typed_buffer WalDelete (m_iSize e) in
      let buffer := db_write (mem_write 0 (slice 0 (m_iSize e) content)) buffer in
      Some (db_op (SetPos (GetStart (db buffer))) buffer)
  end.
Definition Decode (e : t) (buffer : dbuf) : option t :=
  if negb (Valid (db buffer)) then None
  else
    let buffer := db_op (MoveHeadBack 1) buffer in
    if negb (Valid (db buffer)) then None
    else Some (Make (Some (db_content buffer ++ [x00])) (m_iSize e)).
End defs.
End WalDeleteEntry.

(** ** Round trips of the entries *)

Section entry_lemmas.
Context `{MemAlloc}.

(** A typed buffer that is filled with [bs] and rewound holds the type byte and
    [bs], whatever the pool memory held before. *)
Lemma typed_buffer_filled type bs :
  zlen bs + 1 < 2147483648 ->
  let d := db_write (mem_write 0 bs) (typed_buffer type (zlen bs)) in
  let r := db_op (SetPos (GetStart (db d))) d in
  Valid (db r) = true /\ AvailableLength (db r) = zlen (z2b type :: bs) /\
  db_content r = z2b type :: bs.
Proof.
  intros Hlen. pose proof (zlen_nonneg bs) as H0. unfold typed_buffer.
  rewrite (u32_small (zlen bs + 1)) by lia.
  destruct (mp_Get_ok (zlen bs + 1) ltac:(lia)) as (Hp & Hsz & Hm).
  destruct (mp_Get (zlen bs + 1)) as [ptr size mem] eqn:E. simpl mo_ptr in *.
  simpl mo_size in *. simpl mo_mem in *. destruct mem as [|b0 mem]; [unfold zlen in *; simpl in *; lia|].
  set (buf := (Refresh _ _ _ _ _ _ _).1).
  assert (buf = mkBuffer ptr (ptr + (zlen bs + 1) - 1) ptr (ptr + size - 1) (Some ptr) true true) as Hbuf.
  { unfold buf, Refresh, check_available. simpl. f_equal. apply available_true. lia. }
  rewrite Hbuf. unfold db_write. simpl db. simpl m_pPos. simpl m_pStart. rewrite Z.sub_diag.
  unfold db_op. simpl db. simpl db_mem. unfold MoveHeadBack. simpl m_pPos. simpl m_pLast.
  destruct (Z.eqb_spec ptr 0), (Z.eqb_spec (ptr + (zlen bs + 1) - 1) 0); [lia..|]. cbn [orb].
  simpl m_pPos. simpl m_pStart. simpl GetStart. replace (Z.to_nat (ptr + 1 - ptr)) with 1%nat by lia.
  unfold SetPos, check_available. simpl.
  assert (available ptr (ptr + (zlen bs + 1) - 1) ptr (ptr + size - 1) = true) as ->
    by (apply available_true; lia).
  unfold db_content. simpl. rewrite avail_buffer_length by lia. rewrite zlen_cons.
  split; [done|]. split; [lia|]. rewrite Z.sub_diag. unfold slice, zlen, mem_write. simpl.
  replace (Z.to_nat (ptr + (Z.of_nat (length bs) + 1) - 1 - ptr + 1)) with (S (length bs)) by lia.
  simpl. f_equal. apply take_app_length.
Qed.

Context `{PbEntry}.

Lemma WalPut_Encode e :
  zlen (pb_bytes e) + 1 < 2147483648 ->
  exists d, WalPutEntry.Encode (Some e) = Some d /\ db_content d = z2b WalPut :: pb_bytes e /\
    Valid (db d) = true /\ AvailableLength (db d) = zlen (z2b WalPut :: pb_bytes e).
Proof.
  intros Hl. destruct (typed_buffer_filled WalPut (pb_bytes e) Hl) as (?&?&?).
  eexists. split; [reflexivity|]. auto.
Qed.

Lemma WalPut_Decode p e o rest :
  0 < p -> pb_bytes e <> [] -> zlen (pb_bytes e) + 1 < 2147483648 ->
  let bs := z2b WalPut :: pb_bytes e in
  WalPutEntry.Decode o (view p (zlen bs) (bs ++ rest)) = Some (Some e).
Proof.
  intros Hp Hne Hl. cbv zeta. unfold WalPutEntry.Decode.
  rewrite <- (Z.add_comm 1), <- (zlen_cons (z2b WalPut)) in Hl.
  destruct (view_content p (z2b WalPut :: pb_bytes e) rest) as (-> & _); [done..|].
  destruct (view_tail p (z2b WalPut) (pb_bytes e) rest) as (-> & Hc); [done..|]. simpl negb. cbv iota.
  unfold ProtoBufUtils.Deserialize. by rewrite Hc, pb_roundtrip.
Qed.

Lemma WalDelete_Encode k :
  zlen k + 1 < 2147483648 ->
  exists d, WalDeleteEntry.Encode (WalDeleteEntry.of_key k) = Some d /\
    db_content d = z2b WalDelete :: k /\ Valid (db d) = true /\
    AvailableLength (db d) = zlen (z2b WalDelete :: k).
Proof.
  intros Hl. destruct (typed_buffer_filled WalDelete k Hl) as (?&?&?).
  unfold WalDeleteEntry.Encode, WalDeleteEntry.of_key. simpl.
  assert (slice 0 (zlen k) (k ++ [x00]) = k) as ->.
  { unfold slice, zlen. rewrite Nat2Z.id. simpl. apply take_app_length. }
  eexists. split; [reflexivity|]. auto.
Qed.

Lemma WalDelete_Decode p k rest :
  0 < p -> k <> [] -> zlen k + 1 < 2147483648 ->
  let bs := z2b WalDelete :: k in
  WalDeleteEntry.Decode WalDeleteEntry.blank (view p (zlen bs) (bs ++ rest)) =
  Some (WalDeleteEntry.Make (Some (k ++ [x00])) 0).
Proof.
  intros Hp Hne Hl. cbv zeta. unfold WalDeleteEntry.Decode.
  rewrite <- (Z.add_comm 1), <- (zlen_cons (z2b WalDelete)) in Hl.
  destruct (view_content p (z2b WalDelete :: k) rest) as (-> & _); [done..|].
  destruct (view_tail p (z2b WalDelete) k rest) as (-> & Hc); [done..|]. simpl negb. cbv iota.
  by rewrite Hc.
Qed.

Lemma Raw_Encode e :
  pb_bytes e <> [] -> zlen (pb_bytes e) < 2147483648 ->
  exists d, RawPbEntryEntry.Encode (Some e) = Some d /\ db_content d = pb_bytes e /\
    Valid (db d) = true /\ AvailableLength (db d) = zlen (pb_bytes e).
Proof.
  intros Hne Hl. assert (0 < zlen (pb_bytes e)).
  { destruct (pb_bytes e); [done|]. rewrite zlen_cons. pose proof (zlen_nonneg l). lia. }
  eexists. split; [reflexivity|]. unfold ProtoBufUtils.Serialize_mp. cbv zeta.
  rewrite u32_small by lia. destruct (mp_Get_ok (zlen (pb_bytes e))) as (Hp & Hsz & Hm); [lia|].
  destruct (mp_Get (zlen (pb_bytes e))) as [ptr size mem] eqn:E. simpl mo_ptr in *.
  simpl mo_size in *. simpl mo_mem in *.
  assert ((Refresh ptr (ptr + zlen (pb_bytes e) - 1) ptr (ptr + size - 1) (Some ptr) true Buffer_default).1
    = mkBuffer ptr (ptr + zlen (pb_bytes e) - 1) ptr (ptr + size - 1) (Some ptr) true true) as Hb.
  { unfold Refresh, check_available. simpl. f_equal. apply available_true. lia. }
  unfold db_content. cbn [db db_mem]. cbn zeta. rewrite Hb. rewrite avail_buffer_length by lia.
  simpl. split; [|split; [done|lia]].
  unfold slice, mem_write. rewrite Z.sub_diag. simpl.
  replace (Z.to_nat (ptr + zlen (pb_bytes e) - 1 - ptr + 1)) with (length (pb_bytes e))
    by (unfold zlen; lia).
  apply take_app_length.
Qed.

Lemma Raw_Decode p e o rest :
  0 < p -> pb_bytes e <> [] -> zlen (pb_bytes e) < 2147483648 ->
  RawPbEntryEntry.Decode o (view p (zlen (pb_bytes e)) (pb_bytes e ++ rest)) = Some (Some e).
Proof.
  intros Hp Hne Hl. unfold RawPbEntryEntry.Decode, ProtoBufUtils.Deserialize.
  destruct (view_content p (pb_bytes e) rest) as (-> & _ & ->); [done..|]. by rewrite pb_roundtrip.
Qed.
End entry_lemmas.
