(* ===== verification/KvEntries.v ===== *)
(** * The entries of the key-value store as log and checkpoint entries

    The log of [MiniKV] holds [WalPutEntry] and [WalDeleteEntry] objects, its
    checkpoint [RawPbEntryEntry] objects; [create_wal_new_entry] and
    [create_checkpoint_new_entry] (src/kv/mini-kv/mini-kv.cc) make the blank
    object that is decoded into.  The instances show that these entries keep the
    contract [IEntryLaws] the log and the checkpoint rely on. *)

From S2P Require Import Prelude Codec Buffer Entries.

(** ** The objects behind an [IEntry*] of the log *)

Inductive wal_entry :=
  | PutE (m_sspContent : option Entry)
  | DelE (e : WalDeleteEntry.t).

(** The byte at [b.GetPos()]. *)
Definition first_byte (b : dbuf) : option byte :=
  nth_error (db_mem b) (Z.to_nat (GetPos (db b) - GetStart (db b))).

Section instances.
Context `{MemAlloc} `{PbEntry}.

#[global] Instance wal_IEntry : IEntry wal_entry := {|
  TypeId e := match e with
              | PutE c => WalPutEntry.TypeId c
              | DelE d => WalDeleteEntry.TypeId d
              end;
  Encode e := match e with
              | PutE c => WalPutEntry.Encode c
              | DelE d => WalDeleteEntry.Encode d
              end;
  Decode e b := match e with
                | PutE c => PutE <$> WalPutEntry.Decode c b
                | DelE d => DelE <$> WalDeleteEntry.Decode d b
                end
|}.

(** [MiniKV::create_wal_new_entry] *)
Definition create_wal_new_entry (b : dbuf) : option wal_entry :=
  match first_byte b with
  | None => None
  | Some type =>
      if b2z type =? WalPut then Some (PutE None)
      else if b2z type =? WalDelete then Some (DelE WalDeleteEntry.blank)
      else None
  end.

#[global] Instance wal_creator : EntryCreator wal_entry := {| entryCreator := create_wal_new_entry |}.

(** What is on disk for an entry, and the object [Decode] makes of it: the key of
    a delete entry is copied with a terminating NUL and its size is not kept. *)
Definition wal_bytes (e : wal_entry) : list byte :=
  match e with
  | PutE (Some e) => z2b WalPut :: pb_bytes e
  | PutE None => []
  | DelE d => z2b WalDelete :: slice 0 (WalDeleteEntry.m_iSize d) (default [] (WalDeleteEntry.m_pContent d))
  end.
Definition wal_reload (e : wal_entry) : wal_entry :=
  match e with
  | PutE c => PutE c
  | DelE d => DelE (WalDeleteEntry.Make
      (Some (slice 0 (WalDeleteEntry.m_iSize d) (default [] (WalDeleteEntry.m_pContent d)) ++ [x00])) 0)
  end.
(** The entries [Put] and [Delete] log: their key is not empty. *)
Definition wal_encodable (e : wal_entry) : Prop :=
  match e with
  | PutE (Some e) => key e <> []
  | PutE None => False
  | DelE d => exists k, k <> [] /\ d = WalDeleteEntry.of_key k
  end.

Lemma of_key_bytes k :
  slice 0 (WalDeleteEntry.m_iSize (WalDeleteEntry.of_key k))
    (default [] (WalDeleteEntry.m_pContent (WalDeleteEntry.of_key k))) = k.
Proof.
  unfold slice, WalDeleteEntry.of_key. cbn [WalDeleteEntry.m_iSize WalDeleteEntry.m_pContent default from_option id].
  change (Z.to_nat 0) with 0%nat. unfold zlen. by rewrite Nat2Z.id, drop_0, take_app_length.
Qed.

Lemma first_byte_view p b bs rest :
  0 < p -> first_byte (view p (zlen (b :: bs)) ((b :: bs) ++ rest)) = Some b.
Proof.
  intros Hp. unfold first_byte. rewrite view_shape; [|done|apply zlen_pos; done].
  unfold GetPos, GetStart. cbn [m_pPos m_pStart]. by rewrite Z.sub_diag.
Qed.

Lemma wal_Encode_enc e :
  wal_encodable e -> zlen (wal_bytes e) < 2147483648 ->
  exists d, Encode e = Some d /\ db_content d = wal_bytes e /\ Valid (db d) = true /\
            AvailableLength (db d) = zlen (wal_bytes e).
Proof.
  destruct e as [[e|]|d]; [| |]; cbn [wal_encodable wal_bytes]; intros He Hl; [|done|].
  - rewrite zlen_cons in Hl. apply WalPut_Encode. lia.
  - destruct He as (k&Hk&->). rewrite of_key_bytes in *. rewrite zlen_cons in Hl.
    apply WalDelete_Encode. lia.
Qed.

Lemma wal_Decode_enc e p rest :
  wal_encodable e -> zlen (wal_bytes e) < 2147483648 -> 0 < p ->
  let b := view p (zlen (wal_bytes e)) (wal_bytes e ++ rest) in
  exists e0, create_wal_new_entry b = Some e0 /\ Decode e0 b = Some (wal_reload e).
Proof.
  destruct e as [[e|]|d]; cbn [wal_encodable wal_bytes wal_reload]; intros He Hl Hp; [|done|].
  - exists (PutE None). cbv zeta. unfold create_wal_new_entry. rewrite first_byte_view by done.
    split; [done|]. cbn [Decode wal_IEntry]. rewrite zlen_cons in Hl.
    rewrite WalPut_Decode; [done|done|by apply pb_nonempty|lia].
  - destruct He as (k&Hk&->). rewrite of_key_bytes in *. exists (DelE WalDeleteEntry.blank). cbv zeta.
    unfold create_wal_new_entry. rewrite first_byte_view by done.
    split; [done|]. cbn [Decode wal_IEntry]. rewrite zlen_cons in Hl.
    rewrite WalDelete_Decode; [done|done|done|lia].
Qed.

#[global] Instance wal_laws : IEntryLaws wal_entry.
Proof.
  refine {| enc := wal_bytes; reload := wal_reload; encodable := wal_encodable;
            Encode_enc := wal_Encode_enc; Decode_enc := wal_Decode_enc |}.
  by intros [[e|]|d].
Defined.

(** ** The objects of the checkpoint *)

Inductive raw_entry := RawE (m_sspContent : option Entry).

#[global] Instance raw_IEntry : IEntry raw_entry := {|
  TypeId '(RawE c) := RawPbEntryEntry.TypeId c;
  Encode '(RawE c) := RawPbEntryEntry.Encode c;
  Decode '(RawE c) b := RawE <$> RawPbEntryEntry.Decode c b
|}.

(** [MiniKV::create_checkpoint_new_entry] *)
Definition create_checkpoint_new_entry (b : dbuf) : option raw_entry := Some (RawE None).

#[global] Instance raw_creator : EntryCreator raw_entry :=
  {| entryCreator := create_checkpoint_new_entry |}.

Definition raw_bytes (e : raw_entry) : list byte :=
  match e with RawE (Some e) => pb_bytes e | RawE None => [] end.
Definition raw_encodable (e : raw_entry) : Prop :=
  match e with RawE (Some e) => key e <> [] | RawE None => False end.

#[global] Instance raw_laws : IEntryLaws raw_entry.
Proof.
  refine {| enc := raw_bytes; reload := id; encodable := raw_encodable |}.
  - intros [[e|]]; [apply pb_nonempty|done].
  - intros [[e|]] He Hl; [|done]. apply Raw_Encode; [by apply pb_nonempty|done].
  - intros [[e|]] p rest He Hl Hp; [|done]. exists (RawE None). cbv zeta. split; [done|].
    cbn [Decode raw_IEntry raw_bytes]. rewrite Raw_Decode; [done|done|by apply pb_nonempty|done].
Defined.
End instances.

(** ** A concrete pool and codec *)

(** A pool that always serves from one address, with stale bytes. *)
Definition demo_pool : MemAlloc.
Proof.
  refine {| mp_Get n := MemObj 4096 n (replicate (Z.to_nat n) x2a) |}.
  intros n Hn. simpl. unfold zlen. rewrite length_replicate. lia.
Defined.

(** A self-delimiting wire format: each byte of the key behind a [1], a [0],
    then the value. *)
Fixpoint demo_key (k : list byte) : list byte :=
  match k with [] => [x00] | b :: k => x01 :: b :: demo_key k end.
Fixpoint demo_split (l : list byte) : option (list byte * list byte) :=
  match l with
  | x00 :: v => Some ([], v)
  | x01 :: b :: l => '(k, v) ← demo_split l; Some (b :: k, v)
  | _ => None
  end.
Lemma demo_split_key k v : demo_split (demo_key k ++ v) = Some (k, v).
Proof. induction k as [|b k IH]; simpl; [done|]. by rewrite IH. Qed.

Definition demo_pb : PbEntry.
Proof.
  refine {| pb_bytes e := demo_key (key e) ++ value e;
            pb_parse l := '(k, v) ← demo_split l; Some (MkEntry k v) |}.
  - intros [k v]. simpl. by rewrite demo_split_key.
  - intros [k v] _. simpl. by destruct k.
Defined.

(** What [Put] and [Delete] hand to the log survives
    the trip through bytes: [Encode] succeeds whatever the pool memory held, and
    the object [create_wal_new_entry] makes for these bytes, wherever they lie in
    a buffer and whatever follows them, decodes to a put entry with the same
    message, or to a delete entry with the key and a terminating NUL. *)
Theorem entries_roundtrip `{MemAlloc} `{PbEntry} (e : wal_entry) (p : Z) (rest : list byte)
    (He : wal_encodable e) (Hl : zlen (wal_bytes e) < 2147483648) (Hp : 0 < p) :
  exists d e0,
    Encode e = Some d /\ db_content d = wal_bytes e /\
    let b := view p (AvailableLength (db d)) (db_content d ++ rest) in
    create_wal_new_entry b = Some e0 /\ Decode e0 b = Some (wal_reload e).
Proof.
  destruct (wal_Encode_enc e He Hl) as (d&Hd&Hc&_&Ha).
  destruct (wal_Decode_enc e p rest He Hl Hp) as (e0&Hc0&Hc1). exists d, e0. rewrite Hc, Ha. done.
Qed.

Definition demo_delete : wal_entry := DelE (WalDeleteEntry.of_key [x6b; x31]).

Lemma entries_roundtrip_witness :
  exists d e0,
    Encode (IEntry := @wal_IEntry demo_pool demo_pb) demo_delete = Some d /\
    db_content d = @wal_bytes demo_pb demo_delete /\
    let b := view 100 (AvailableLength (db d)) (db_content d ++ [xff]) in
    create_wal_new_entry b = Some e0 /\
    Decode (IEntry := @wal_IEntry demo_pool demo_pb) e0 b = Some (wal_reload demo_delete).
Proof.
  apply (@entries_roundtrip demo_pool demo_pb demo_delete 100 [xff]).
  - exists [x6b; x31]. done.
  - vm_compute. reflexivity.
  - lia.
Defined.
