(* ===== verification/Wal.v ===== *)
(** * The segmented write-ahead log (src/wal, src/wal/wals/log-clean-wal.{h,cc})

    [LogCleanWal] is the object with the members of log-clean-wal.h;
    an operation runs on the object and the [world].  [Init], [Load],
    [AppendEntry], [Truncate] and [Size] are the methods of [IWal], the other
    functions the private ones.  A load callback is not called: the batches it
    would be given are returned in order.  [MemAlloc] is [g_pMemPool]. *)

From S2P Require Import Prelude Codec Buffer Posix Files Entries.

(** ** Constants and results (log-clean-wal.h, errors.h, iwal.h) *)

Definition LOGCLEAN_WAL_MAGIC_NO : Z := 1936551015. (* 0x736d6c67 *)
Definition LOGCLEAN_WAL_MAGIC_NO_LEN : Z := 4.
Definition LOGCLEAN_WAL_SEGMENT_PREFIX_NAME : string := "lclog.segment".
Definition LOGCLEAN_WAL_TRUNC_OK_NAME : string := "lclog.trunc.ok".
Definition LOGCLEAN_WAL_TRUNC_META_NAME : string := "lclog.truncmeta".
Definition LOGCLEAN_WAL_START_POS_LEN : Z := 4.
Definition LOGCLEAN_WAL_SIZE_LEN : Z := 4.
Definition LOGCLEAN_WAL_VERSION_LEN : Z := 1.
Definition LOGCLEAN_WAL_ENTRY_ID_LEN : Z := 8.
Definition LOGCLEAN_WAL_ENTRY_ID_OFFSET : Z := 5.
Definition LOGCLEAN_WAL_ENTRY_HEADER_LEN : Z := 13.
Definition LOGCLEAN_WAL_CONTENT_OFFSET : Z := 13.
Definition LOGCLEAN_WAL_ENTRY_EXTRA_FIELDS_SIZE : Z := 17.
Definition LOGCLEAN_WAL_INVALID_SEGMENT_ID : Z := 0.
Definition LOGCLEAN_WAL_INVALID_ENTRY_ID : Z := 0.
Definition LOGCLEAN_WAL_MIN_ENTRY_ID : Z := 1.

Inductive Code :=
  | Uninited | Unloaded | FileCorrupt | FileMameCorrupt | FileSystemError
  | EncodeEntryError | DecodeEntryError | EntryBytesSizeOverflow | InvalidEntryId.

Definition FileCorruptError := Msg " file corrupt".
Definition FileNameCorruptError := Msg " file name corrupt".
Definition UninitializedError := Msg " has not been initialized".
Definition UnloadedError := Msg " has not been loaded".
Definition EncodeEntryErrorMsg := Msg " encode entry error".
Definition DecodeEntryErrorMsg := Msg " decode entry error".
Definition EntryBytesSizeOverflowError := Msg " entry encoded bytes larger than max limit size".
Definition InvalidEntryIdError := Msg " invalid entry id".

(** ** class LogCleanWal *)

Record SegmentFileInfo := MkSeg { Id : Z; Path : string }.

Record LogCleanWal := MkWal {
  m_sRootDir : string;
  m_mpEntriesIdSegId : gmap Z Z;
  m_lastTruncMaxIdx : Z;
  m_currentEntryIdx : Z;
  m_currentSegFd : Z;
  m_currentSegFilePath : string;
  m_curSegFileSize : Z;
  m_bLoaded : bool;
  m_bInited : bool;
  m_currentSegmentId : Z;
  m_minSegmentId : Z;
  m_vInitSegments : list SegmentFileInfo;
  m_writeEntryVersion : Z;
  m_segmentMaxSize : Z;
  m_batchReadSize : Z
}.

Definition m_sTruncInfoFilePath (o : LogCleanWal) : string :=
  m_sRootDir o +:+ "/" +:+ LOGCLEAN_WAL_TRUNC_META_NAME.
Definition m_sTruncOKFlagFilePath (o : LogCleanWal) : string :=
  m_sRootDir o +:+ "/" +:+ LOGCLEAN_WAL_TRUNC_OK_NAME.
Definition m_maxEntrySize (o : LogCleanWal) : Z :=
  u32 (m_batchReadSize o - LOGCLEAN_WAL_ENTRY_EXTRA_FIELDS_SIZE).

(** Assignments to the members. *)
Definition set_map f (o : LogCleanWal) : LogCleanWal :=
  MkWal (m_sRootDir o) (f (m_mpEntriesIdSegId o)) (m_lastTruncMaxIdx o) (m_currentEntryIdx o)
    (m_currentSegFd o) (m_currentSegFilePath o) (m_curSegFileSize o) (m_bLoaded o) (m_bInited o)
    (m_currentSegmentId o) (m_minSegmentId o) (m_vInitSegments o) (m_writeEntryVersion o)
    (m_segmentMaxSize o) (m_batchReadSize o).
Definition set_lastTrunc x (o : LogCleanWal) : LogCleanWal :=
  MkWal (m_sRootDir o) (m_mpEntriesIdSegId o) x (m_currentEntryIdx o)
    (m_currentSegFd o) (m_currentSegFilePath o) (m_curSegFileSize o) (m_bLoaded o) (m_bInited o)
    (m_currentSegmentId o) (m_minSegmentId o) (m_vInitSegments o) (m_writeEntryVersion o)
    (m_segmentMaxSize o) (m_batchReadSize o).
Definition set_entryIdx x (o : LogCleanWal) : LogCleanWal :=
  MkWal (m_sRootDir o) (m_mpEntriesIdSegId o) (m_lastTruncMaxIdx o) x
    (m_currentSegFd o) (m_currentSegFilePath o) (m_curSegFileSize o) (m_bLoaded o) (m_bInited o)
    (m_currentSegmentId o) (m_minSegmentId o) (m_vInitSegments o) (m_writeEntryVersion o)
    (m_segmentMaxSize o) (m_batchReadSize o).
Definition set_segFd x p (o : LogCleanWal) : LogCleanWal :=
  MkWal (m_sRootDir o) (m_mpEntriesIdSegId o) (m_lastTruncMaxIdx o) (m_currentEntryIdx o)
    x p (m_curSegFileSize o) (m_bLoaded o) (m_bInited o)
    (m_currentSegmentId o) (m_minSegmentId o) (m_vInitSegments o) (m_writeEntryVersion o)
    (m_segmentMaxSize o) (m_batchReadSize o).
Definition set_segSize x (o : LogCleanWal) : LogCleanWal :=
  MkWal (m_sRootDir o) (m_mpEntriesIdSegId o) (m_lastTruncMaxIdx o) (m_currentEntryIdx o)
    (m_currentSegFd o) (m_currentSegFilePath o) x (m_bLoaded o) (m_bInited o)
    (m_currentSegmentId o) (m_minSegmentId o) (m_vInitSegments o) (m_writeEntryVersion o)
    (m_segmentMaxSize o) (m_batchReadSize o).
Definition set_loaded x (o : LogCleanWal) : LogCleanWal :=
  MkWal (m_sRootDir o) (m_mpEntriesIdSegId o) (m_lastTruncMaxIdx o) (m_currentEntryIdx o)
    (m_currentSegFd o) (m_currentSegFilePath o) (m_curSegFileSize o) x (m_bInited o)
    (m_currentSegmentId o) (m_minSegmentId o) (m_vInitSegments o) (m_writeEntryVersion o)
    (m_segmentMaxSize o) (m_batchReadSize o).
Definition set_inited x (o : LogCleanWal) : LogCleanWal :=
  MkWal (m_sRootDir o) (m_mpEntriesIdSegId o) (m_lastTruncMaxIdx o) (m_currentEntryIdx o)
    (m_currentSegFd o) (m_currentSegFilePath o) (m_curSegFileSize o) (m_bLoaded o) x
    (m_currentSegmentId o) (m_minSegmentId o) (m_vInitSegments o) (m_writeEntryVersion o)
    (m_segmentMaxSize o) (m_batchReadSize o).
Definition set_curSeg x (o : LogCleanWal) : LogCleanWal :=
  MkWal (m_sRootDir o) (m_mpEntriesIdSegId o) (m_lastTruncMaxIdx o) (m_currentEntryIdx o)
    (m_currentSegFd o) (m_currentSegFilePath o) (m_curSegFileSize o) (m_bLoaded o) (m_bInited o)
    x (m_minSegmentId o) (m_vInitSegments o) (m_writeEntryVersion o)
    (m_segmentMaxSize o) (m_batchReadSize o).
Definition set_minSeg x (o : LogCleanWal) : LogCleanWal :=
  MkWal (m_sRootDir o) (m_mpEntriesIdSegId o) (m_lastTruncMaxIdx o) (m_currentEntryIdx o)
    (m_currentSegFd o) (m_currentSegFilePath o) (m_curSegFileSize o) (m_bLoaded o) (m_bInited o)
    (m_currentSegmentId o) x (m_vInitSegments o) (m_writeEntryVersion o)
    (m_segmentMaxSize o) (m_batchReadSize o).
Definition set_initSegs x (o : LogCleanWal) : LogCleanWal :=
  MkWal (m_sRootDir o) (m_mpEntriesIdSegId o) (m_lastTruncMaxIdx o) (m_currentEntryIdx o)
    (m_currentSegFd o) (m_currentSegFilePath o) (m_curSegFileSize o) (m_bLoaded o) (m_bInited o)
    (m_currentSegmentId o) (m_minSegmentId o) x (m_writeEntryVersion o)
    (m_segmentMaxSize o) (m_batchReadSize o).

Abbreviation WM := (M (LogCleanWal * world)).
Abbreviation WR A := (M (LogCleanWal * world) (result Code A)).

(** [LogCleanWal(pc)]: the members' initialisers, and [LOGFFUN] (which ends the
    process) for a segment or batch size below the size of an empty entry. *)
Definition LogCleanWal_make (rootDir : string) (version segmentMax batchRead : Z) :
    outcome LogCleanWal :=
  if (segmentMax <? LOGCLEAN_WAL_ENTRY_EXTRA_FIELDS_SIZE)
     || (batchRead <? LOGCLEAN_WAL_ENTRY_EXTRA_FIELDS_SIZE)
  then Stop Aborted
  else Ok (MkWal rootDir ∅ LOGCLEAN_WAL_MIN_ENTRY_ID LOGCLEAN_WAL_MIN_ENTRY_ID (-1) "" 0
             false false 0 0 [] version segmentMax batchRead).

(** ** Segment files *)

Definition segment_path (root : string) (id : Z) : string :=
  root +:+ "/" +:+ LOGCLEAN_WAL_SEGMENT_PREFIX_NAME +:+ "." +:+ CommonUtils.ToString id.

Definition generate_segment_file_path (id : Z) : WM string :=
  getO (fun o => segment_path (m_sRootDir o) id).

(** [std::sort] by id. *)
Fixpoint insert_seg (s : SegmentFileInfo) (l : list SegmentFileInfo) : list SegmentFileInfo :=
  match l with
  | [] => [s]
  | t :: l' => if Id s <? Id t then s :: l else t :: insert_seg s l'
  end.
Definition sort_segs (l : list SegmentFileInfo) : list SegmentFileInfo :=
  foldr insert_seg [] l.

(** [c.substr(c.rfind('.') + 1)] *)
Definition after_dot (c : string) : string :=
  match split_last dot c with Some (_, q) => q | None => c end.

Fixpoint parse_children (l : list string) (rs : list SegmentFileInfo) : WR (list SegmentFileInfo) :=
  match l with
  | [] => mret (Good rs)
  | c :: l =>
      '(ok, id) ← io (CommonUtils.ToUint46_t (after_dot c));
      if negb ok then mret (Bad FileMameCorrupt FileNameCorruptError)
      else parse_children l (rs ++ [MkSeg id c])
  end.

Definition list_segments_asc : WR (list SegmentFileInfo) :=
  root ← getO m_sRootDir;
  '(rc, children) ← io (FileUtils.CollectFileChildren root
                          (str_contains LOGCLEAN_WAL_SEGMENT_PREFIX_NAME));
  if negb (rc =? 0) then bad_errno FileSystemError
  else
    rs ←! parse_children children [];
    mret (Good (sort_segs rs)).

Definition get_uncompleted_trunc_segments_max_id : WM Z :=
  okFlag ← getO m_sTruncOKFlagFilePath;
  info ← getO m_sTruncInfoFilePath;
  b ← io (FileUtils.Exist okFlag);
  if b : bool then mret LOGCLEAN_WAL_INVALID_SEGMENT_ID
  else
    b ← io (FileUtils.Exist info);
    if negb b then mret LOGCLEAN_WAL_INVALID_SEGMENT_ID
    else
      idStr ← io (FileUtils.ReadAllString info);
      if String.eqb idStr "" then mret LOGCLEAN_WAL_INVALID_SEGMENT_ID
      else
        '(rs, entryId) ← io (CommonUtils.ToUint46_t idStr);
        if negb rs then mret LOGCLEAN_WAL_INVALID_SEGMENT_ID else mret entryId.

Definition clean_trunc_status : WR unit :=
  info ← getO m_sTruncInfoFilePath;
  okFlag ← getO m_sTruncOKFlagFilePath;
  b ← io (FileUtils.Exist info);
  _ ←! (if b : bool then check_io (sys_unlink info) FileSystemError else mret (Good 0));
  b ← io (FileUtils.Exist okFlag);
  _ ←! (if b : bool then check_io (sys_unlink okFlag) FileSystemError else mret (Good 0));
  mret (Good tt).

Section wal.
Context (host : byte_order) `{MemAlloc} {E : Type} `{IEntry E, EntryCreator E}.

(** The part of [create_new_segment_file] behind the close. *)
Definition open_next_segment : WR unit :=
  modO (fun o => set_curSeg (u64 (m_currentSegmentId o + 1)) o);;
  id ← getO m_currentSegmentId;
  fp ← generate_segment_file_path id;
  fd ← io (FileUtils.Open fp O_WRONLY true false);
  modO (set_segFd fd fp);;
  if fd =? -1 then bad_errno FileSystemError
  else
    let header := ByteOrderUtils.WriteUInt32 host (replicate 4 x00) LOGCLEAN_WAL_MAGIC_NO in
    _ ←! check_io (IOUtils.WriteFully fd (Some header)) FileSystemError;
    modO (set_segSize LOGCLEAN_WAL_MAGIC_NO_LEN);;
    mret (Good tt).

Definition create_new_segment_file : WR unit :=
  fd ← getO m_currentSegFd;
  _ ←! (if fd =? -1 then mret (Good 0) else check_io (sys_close fd) FileSystemError);
  open_next_segment.

Definition create_trunc_info (segId : Z) : WR unit :=
  info ← getO m_sTruncInfoFilePath;
  fd ← io (FileUtils.Open info O_WRONLY true true);
  if fd =? -1 then bad_errno FileSystemError
  else
    with_closer fd (
      let segIdStr := CommonUtils.ToString segId in
      _ ←! check_io (IOUtils.WriteFully fd (Some (bytes_of segIdStr))) FileSystemError;
      mret (Good tt)).

Definition create_trunc_ok_flag : WR unit :=
  okFlag ← getO m_sTruncOKFlagFilePath;
  fd ← io (FileUtils.Open okFlag O_WRONLY true false);
  if fd =? -1 then bad_errno FileSystemError
  else
    _ ←! check_io (sys_close fd) FileSystemError;
    mret (Good tt).

(** ** Init *)

(** [for (uint64_t i = lo; i <= hi; ++i)]: for [hi = ULONG_MAX] the counter wraps. *)
Fixpoint for_count (n : nat) (i : Z) (body : Z -> WR unit) : WR unit :=
  match n with
  | O => mret (Good tt)
  | S n => _ ←! body i; for_count n (i + 1) body
  end.
Definition for_u64 (lo hi : Z) (body : Z -> WR unit) : WR unit :=
  _ ←! for_count (Z.to_nat (hi - lo + 1)) lo body;
  if (hi =? CommonUtils.ULONG_MAX) && (lo <=? hi) then halt Diverged else mret (Good tt).

(** The clean-up of an unfinished truncation: delete the segments up to the
    recorded id and drop them from the list.  Reading [Segments[0]] of an empty
    vector is undefined. *)
Definition clean_uncompleted (maxTrunc : Z) (segs : list SegmentFileInfo) :
    WR (list SegmentFileInfo) :=
  _ ←! (match segs with
        | [] => modO (set_initSegs []);; clean_trunc_status
        | _ => mret (Good tt)
        end);
  match segs with
  | [] => halt Undefined
  | s :: _ =>
      _ ←! for_u64 (Id s) maxTrunc (fun i =>
              fp ← generate_segment_file_path i;
              _ ←! check_io (FileUtils.Unlink fp) FileSystemError;
              mret (Good tt));
      mret (Good (filter (fun s => ~ (Id s <= maxTrunc)) segs))
  end.

(** The end of [Init]: open the current segment and go to its end. *)
Definition open_current : WR unit :=
  cur ← getO m_currentSegmentId;
  fp ← generate_segment_file_path cur;
  fd ← io (FileUtils.Open fp O_WRONLY true false);
  if fd =? -1 then bad_errno FileSystemError
  else
    modO (set_segFd fd fp);;
    size ← io (FileUtils.GetFileSize_fd fd);
    _ ←! check_io (sys_lseek fd size SEEK_SET) FileSystemError;
    mret (Good tt).

Definition Init_body : WR unit :=
  root ← getO m_sRootDir;
  _ ←! check_io (FileUtils.CreateDirPath root) FileSystemError;
  maxTruncUncompletedSegId ← get_uncompleted_trunc_segments_max_id;
  segs ←! list_segments_asc;
  segs ←! (if negb (maxTruncUncompletedSegId =? LOGCLEAN_WAL_INVALID_SEGMENT_ID)
           then clean_uncompleted maxTruncUncompletedSegId segs else mret (Good segs));
  _ ←! clean_trunc_status;
  _ ←! (match segs with
        | [] =>
            modO (set_minSeg 1);;
            modO (set_curSeg LOGCLEAN_WAL_INVALID_ENTRY_ID);;
            create_new_segment_file
        | s :: _ =>
            modO (set_minSeg (Id s));;
            modO (set_curSeg (Id (List.last segs s)));;
            mret (Good tt)
        end);
  modO (set_initSegs segs);;
  open_current.

(** [ObjReleaseHandler] sets the flag whenever the function is left. *)
Definition Init : WR unit := r ← Init_body; modO (set_inited true);; mret r.

(** ** Load *)

(** [WalEntry(entryId, entry)] *)
Abbreviation WalEntry := (Z * E)%type.

(** What one pass over the buffer leaves: the entries, the file offset of the
    next one, and the bytes that did not make a whole entry. *)
Record parsed := MkParsed { p_entries : list WalEntry; p_segOffset : Z; p_left : option (list byte) }.

(** [while (offset < availableBufferSize)]; [base] is the buffer's address. *)
Fixpoint parse_batch (fuel : nat) (segId base : Z) (buffer : list byte) (avail : Z) (ok : bool)
    (offset segmentEntryOffset : Z) (entries : list WalEntry) : WR parsed :=
  if negb (offset <? avail) then mret (Good (MkParsed entries segmentEntryOffset None))
  else
    match fuel with
    | O => halt Diverged
    | S fuel =>
        let leftSize := avail - offset in
        '(notEnoughOneEntry, len) ←
          (if leftSize <? LOGCLEAN_WAL_ENTRY_HEADER_LEN then mret (true, 0)
           else
             len ← of_mem (ByteOrderUtils.ReadUInt32 host (drop (Z.to_nat offset) buffer));
             let walEntryLen := u32 (LOGCLEAN_WAL_ENTRY_EXTRA_FIELDS_SIZE + len) in
             mret (leftSize <? walEntryLen, len));
        if notEnoughOneEntry : bool then
          if negb ok then mret (Bad FileCorrupt FileCorruptError)
          else mret (Good (MkParsed entries segmentEntryOffset (Some (slice offset leftSize buffer))))
        else
          let startPosOffset := u32 (LOGCLEAN_WAL_ENTRY_HEADER_LEN + len) in
          startPos ← of_mem (ByteOrderUtils.ReadUInt32 host
                       (drop (Z.to_nat (offset + startPosOffset)) buffer));
          if negb (startPos =? segmentEntryOffset) then mret (Bad FileCorrupt FileCorruptError)
          else
            entryId ← of_mem (ByteOrderUtils.ReadUInt64 host
                        (drop (Z.to_nat (offset + LOGCLEAN_WAL_ENTRY_ID_OFFSET)) buffer));
            let contentStart := offset + LOGCLEAN_WAL_CONTENT_OFFSET in
            let b := view (base + contentStart) len (drop (Z.to_nat contentStart) buffer) in
            entry ← of_mem (entryCreator b);
            match Decode entry b with
            | None => mret (Bad DecodeEntryError DecodeEntryErrorMsg)
            | Some entry =>
                let forwardOffset := u32 (len + LOGCLEAN_WAL_ENTRY_EXTRA_FIELDS_SIZE) in
                modO (set_map <[entryId := segId]>);;
                (let lastEntryId := u64 (entryId - 1) in
                 modO (fun o => if lastEntryId <? m_lastTruncMaxIdx o
                                then set_lastTrunc lastEntryId o else o));;
                modO (set_entryIdx entryId);;
                parse_batch fuel segId base buffer avail ok (u32 (offset + forwardOffset))
                  (u32 (segmentEntryOffset + forwardOffset)) (entries ++ [(entryId, entry)])
            end
    end.

(** [while (ok)]: read a batch behind what was left of the last one, parse it,
    hand the entries to the callback. *)
Fixpoint load_loop (fuel : nat) (fd segId fileSize : Z) (left : list byte) (segmentEntryOffset : Z)
    (batches : list (list WalEntry)) : WM (result Code Z * list (list WalEntry)) :=
  match fuel with
  | O => halt Diverged
  | S fuel =>
      batch ← getO m_batchReadSize;
      let readSize := batch + zlen left in
      (if u32 readSize <? readSize then halt Undefined else mret tt);;
      let base := mo_ptr (mp_Get readSize) in
      '(nRead, rbuf) ← io (IOUtils.ReadFully_V4 fd batch);
      if nRead =? -1 then r ← bad_errno FileSystemError; mret (r, batches)
      else if nRead =? 0 then
        if negb (zlen left =? 0) then mret (Bad FileCorrupt FileCorruptError, batches)
        else mret (Good (u32 fileSize), batches)
      else
        let ok := nRead =? batch in
        let avail := nRead + zlen left in
        r ← parse_batch (Z.to_nat avail) segId base (left ++ rbuf) avail ok 0 segmentEntryOffset [];
        match r with
        | Bad rc m => mret (Bad rc m, batches)
        | Good p =>
            let batches := batches ++ [p_entries p] in
            if ok then load_loop fuel fd segId fileSize (default [] (p_left p)) (p_segOffset p) batches
            else mret (Good (u32 fileSize), batches)
        end
  end.

Definition load_segment (filePath : string) (segId : Z) :
    WM (result Code Z * list (list WalEntry)) :=
  fd ← io (FileUtils.Open filePath O_RDONLY false false);
  if fd =? -1 then r ← bad_errno FileSystemError; mret (r, [])
  else with_closer fd (
    fileSize ← io (FileUtils.GetFileSize_fd fd);
    if fileSize =? -1 then r ← bad_errno FileCorrupt; mret (r, [])
    else if fileSize <? LOGCLEAN_WAL_MAGIC_NO_LEN then mret (Bad FileCorrupt FileCorruptError, [])
    else
      '(nRead, header) ← io (IOUtils.ReadFully_V4 fd LOGCLEAN_WAL_MAGIC_NO_LEN);
      if nRead =? -1 then r ← bad_errno FileSystemError; mret (r, [])
      else
        magicNo ← of_mem (ByteOrderUtils.ReadUInt32 host header);
        if negb (magicNo =? LOGCLEAN_WAL_MAGIC_NO) then mret (Bad FileCorrupt FileCorruptError, [])
        else
          batch ← getO m_batchReadSize;
          load_loop (Z.to_nat (fileSize / batch + 2)) fd segId fileSize []
            LOGCLEAN_WAL_MAGIC_NO_LEN []).

(** The loop of [Load] over the segments. *)
Fixpoint load_segments (segs : list SegmentFileInfo) (batches : list (list WalEntry)) :
    WM (result Code unit * list (list WalEntry)) :=
  match segs with
  | [] => mret (Good tt, batches)
  | s :: segs' =>
      '(rs, bs) ← load_segment (Path s) (Id s);
      match rs with
      | Bad rc m => mret (Bad rc m, batches ++ bs)
      | Good size =>
          (match segs' with [] => modO (set_segSize size) | _ => mret tt end);;
          load_segments segs' (batches ++ bs)
      end
  end.

Definition Load : WM (result Code unit * list (list WalEntry)) :=
  inited ← getO m_bInited;
  if negb inited then mret (Bad Uninited UninitializedError, [])
  else
    segs ← getO m_vInitSegments;
    r ← (match segs with
         | [] => mret (Good tt, [])
         | s :: _ => modO (set_minSeg (Id s));; load_segments segs []
         end);
    modO (set_loaded true);;
    mret r.

(** ** AppendEntry *)

(** The record [AppendEntry] lays out in the pool buffer [wb]. *)
Definition build_record (version entryIdx startOffset : Z) (eb : dbuf) : list byte :=
  let rawEntrySize := u32 (AvailableLength (db eb)) in
  let walEntrySize := u32 (rawEntrySize + LOGCLEAN_WAL_ENTRY_EXTRA_FIELDS_SIZE) in
  let mo := mp_Get walEntrySize in
  let bufferStart := mo_ptr mo in
  let wb := DBuf (Refresh bufferStart (bufferStart + walEntrySize - 1) bufferStart
                    (bufferStart + walEntrySize - 1) (Some bufferStart) true Buffer_default).1
              (mo_mem mo) in
  let wb := db_write (fun m => ByteOrderUtils.WriteUInt32 host m rawEntrySize) wb in
  let wb := db_op (MoveHeadBack LOGCLEAN_WAL_SIZE_LEN) wb in
  let wb := db_write (mem_write 0 [z2b version]) wb in
  let wb := db_op (MoveHeadBack LOGCLEAN_WAL_VERSION_LEN) wb in
  let wb := db_write (fun m => ByteOrderUtils.WriteUInt64 host m entryIdx) wb in
  let wb := db_op (MoveHeadBack LOGCLEAN_WAL_ENTRY_ID_LEN) wb in
  let wb := if Valid (db eb) then
              db_op (MoveHeadBack rawEntrySize) (db_write (mem_write 0 (db_content eb)) wb)
            else wb in
  let wb := db_write (fun m => ByteOrderUtils.WriteUInt32 host m startOffset) wb in
  slice 0 walEntrySize (db_mem wb).

(** [if (m_curSegFileSize >= m_segmentMaxSize) create_new_segment_file()] *)
Definition roll_over : WR unit :=
  full ← getO (fun o => m_segmentMaxSize o <=? m_curSegFileSize o);
  if full : bool then create_new_segment_file else mret (Good tt).

(** The part of [AppendEntry] behind the layout of the record. *)
Definition write_record (walEntrySize idx : Z) (rec : list byte) : WR Z :=
  fd ← getO m_currentSegFd;
  _ ←! check_io (IOUtils.WriteFully fd (Some rec)) FileSystemError;
  _ ←! check_io (sys_fdatasync fd) FileSystemError;
  modO (fun o => set_segSize (u32 (m_curSegFileSize o + walEntrySize)) o);;
  modO (fun o => set_map <[idx := m_currentSegmentId o]> o);;
  _ ←! roll_over;
  mret (Good idx).

Definition AppendEntry (entry : E) : WR Z :=
  inited ← getO m_bInited;
  if negb inited then mret (Bad Uninited UninitializedError)
  else
    loaded ← getO m_bLoaded;
    if negb loaded then mret (Bad Unloaded UnloadedError)
    else
      match Encode entry with
      | None => mret (Bad EncodeEntryError EncodeEntryErrorMsg)
      | Some eb =>
          walEntryStartOffset ← getO m_curSegFileSize;
          let rawEntrySize := u32 (AvailableLength (db eb)) in
          let walEntrySize := u32 (rawEntrySize + LOGCLEAN_WAL_ENTRY_EXTRA_FIELDS_SIZE) in
          maxEntrySize ← getO m_maxEntrySize;
          if maxEntrySize <? walEntrySize then
            mret (Bad EntryBytesSizeOverflow EntryBytesSizeOverflowError)
          else
            version ← getO m_writeEntryVersion;
            modO (fun o => set_entryIdx (u64 (m_currentEntryIdx o + 1)) o);;
            idx ← getO m_currentEntryIdx;
            let rec := build_record version idx walEntryStartOffset eb in
            write_record walEntrySize idx rec
      end.

(** ** Truncate and Size *)

Definition load_segment_max_entry_id (fp : string) : WR Z :=
  fd ← io (FileUtils.Open fp O_RDONLY false false);
  if fd =? -1 then bad_errno FileSystemError
  else with_closer fd (
    fileSize ← io (FileUtils.GetFileSize_fd fd);
    _ ←! check_io (sys_lseek fd (fileSize - LOGCLEAN_WAL_START_POS_LEN) SEEK_SET) FileSystemError;
    '(n, buf4Len) ← io (IOUtils.ReadFully_V4 fd LOGCLEAN_WAL_START_POS_LEN);
    if n =? -1 then bad_errno FileSystemError
    else
      startPos ← of_mem (ByteOrderUtils.ReadUInt32 host buf4Len);
      _ ←! check_io (sys_lseek fd startPos SEEK_SET) FileSystemError;
      '(n, buffer) ← io (IOUtils.ReadFully_V4 fd LOGCLEAN_WAL_ENTRY_HEADER_LEN);
      if n =? -1 then bad_errno FileSystemError
      else
        contentSize ← of_mem (ByteOrderUtils.ReadUInt32 host buffer);
        entryId ← of_mem (ByteOrderUtils.ReadUInt64 host
                    (drop (Z.to_nat LOGCLEAN_WAL_ENTRY_ID_OFFSET) buffer));
        _ ←! check_io (sys_lseek fd contentSize SEEK_CUR) FileSystemError;
        '(n, buf4Len) ← io (IOUtils.ReadFully_V4 fd LOGCLEAN_WAL_START_POS_LEN);
        if n =? -1 then bad_errno FileSystemError
        else
          checkStartPos ← of_mem (ByteOrderUtils.ReadUInt32 host buf4Len);
          if startPos =? checkStartPos then mret (Good entryId)
          else mret (Bad FileCorrupt FileCorruptError)).

(** The deletion loop of [Truncate]: returns [maxCleanEntryId]. *)
Fixpoint unlink_segments (n : nat) (i maxTruncateSegId maxClean : Z) : WR Z :=
  match n with
  | O => mret (Good maxClean)
  | S n =>
      fp ← generate_segment_file_path i;
      maxClean ←! (if i =? maxTruncateSegId then load_segment_max_entry_id fp
                   else mret (Good maxClean));
      _ ←! check_io (FileUtils.Unlink fp) FileSystemError;
      unlink_segments n (i + 1) maxTruncateSegId maxClean
  end.

(** [for (auto i = lo; i <= hi; ++i) erase(i)] on the id map. *)
Fixpoint erase_ids (n : nat) (i : Z) (m : gmap Z Z) : gmap Z Z :=
  match n with O => m | S n => erase_ids n (i + 1) (delete i m) end.

Definition Truncate (id : Z) : WR unit :=
  inited ← getO m_bInited;
  if negb inited then mret (Bad Uninited UninitializedError)
  else
    loaded ← getO m_bLoaded;
    if negb loaded then mret (Bad Unloaded UnloadedError)
    else
      found ← getO (fun o => m_mpEntriesIdSegId o !! id);
      match found with
      | None => mret (Bad InvalidEntryId InvalidEntryIdError)
      | Some seg =>
          _ ←! create_trunc_info id;
          cur ← getO m_currentSegmentId;
          let maxTruncateSegId := if seg =? cur then u64 (seg - 1) else seg in
          fp ← generate_segment_file_path (u64 (maxTruncateSegId + 1));
          nextSegSize ←! check_io (FileUtils.GetFileSize fp) FileSystemError;
          let maxTruncateSegId :=
            if nextSegSize =? LOGCLEAN_WAL_MAGIC_NO_LEN then u64 (maxTruncateSegId - 1)
            else maxTruncateSegId in
          minSeg ← getO m_minSegmentId;
          maxCleanEntryId ←! unlink_segments (Z.to_nat (maxTruncateSegId - minSeg + 1)) minSeg
                               maxTruncateSegId LOGCLEAN_WAL_INVALID_ENTRY_ID;
          if maxCleanEntryId =? LOGCLEAN_WAL_INVALID_ENTRY_ID then
            modO (set_minSeg LOGCLEAN_WAL_MIN_ENTRY_ID);;
            mret (Good tt)
          else
            modO (fun o => set_map (erase_ids (Z.to_nat (maxCleanEntryId - m_lastTruncMaxIdx o + 1))
                                      (m_lastTruncMaxIdx o)) o);;
            modO (set_lastTrunc (u64 (maxCleanEntryId + 1)));;
            modO (set_minSeg (u64 (maxTruncateSegId + 1)));;
            _ ←! create_trunc_ok_flag;
            _ ←! clean_trunc_status;
            mret (Good tt)
      end.

Fixpoint sum_sizes (segs : list SegmentFileInfo) (size : Z) : WR Z :=
  match segs with
  | [] => mret (Good size)
  | s :: segs =>
      sSize ←! check_io (FileUtils.GetFileSize (Path s)) FileSystemError;
      sum_sizes segs (u64 (size + sSize))
  end.

Definition Size : WR Z :=
  segs ←! list_segments_asc;
  match segs with [] => mret (Good 0) | _ => sum_sizes segs 0 end.

End wal.
