(* ===== verification/WalFormat.v ===== *)
(** * The bytes of a log segment

    The layout documented in log-clean-wal.h: a magic number, then one record
    per entry: content length, version, entry id, content, and the record's own
    offset in the file.  [AppendEntry] produces exactly this layout, and the
    batched parser of [load_segment] reads it back for every batch size. *)

From S2P Require Import Prelude Codec Buffer Posix Files Quiet Records Entries Wal.

(** ** The layout *)

Definition rec_bytes (ver id off : Z) (c : list byte) : list byte :=
  be_bytes 4 (zlen c) ++ [z2b ver] ++ be_bytes 8 id ++ c ++ be_bytes 4 off.

Definition wal_magic : list byte := be_bytes 4 LOGCLEAN_WAL_MAGIC_NO.

Lemma rec_bytes_length ver id off c : zlen (rec_bytes ver id off c) = zlen c + 17.
Proof. unfold rec_bytes. zlens. lia. Qed.

(** ** What AppendEntry writes *)

Section record.
Context (host : byte_order) `{MemAlloc}.

Lemma build_record_spec ver id off eb c :
  db_content eb = c -> Valid (db eb) = true -> AvailableLength (db eb) = zlen c ->
  zlen c + 17 < 2147483648 ->
  build_record host ver id off eb = rec_bytes ver id off c.
Proof.
  intros Hc Hv Hl Hb. pose proof (zlen_nonneg c) as H0. unfold build_record. cbv zeta.
  rewrite Hl, Hv, Hc. unfold LOGCLEAN_WAL_ENTRY_EXTRA_FIELDS_SIZE.
  rewrite (u32_small (zlen c)), (u32_small (zlen c + 17)) by lia.
  destruct (mp_Get_ok (zlen c + 17)) as (Hp & Hsz & Hm); [lia|].
  set (start := mo_ptr _) in *. set (mem := mo_mem _) in *.
  assert (zlen c + 17 <= zlen mem) as Hroom by lia. clearbody start mem. clear Hm Hsz.
  set (size := zlen c + 17) in *.
  replace (DBuf _ mem) with (filling start size [] mem true); cycle 1.
  { unfold filling, Refresh, check_available. cbn [fst m_pPos m_pLast m_pStart m_pEnd m_pMpObject m_bOwn app].
    change (zlen []) with 0. rewrite Z.add_0_r. do 2 f_equal. symmetry. apply available_true. lia. }
  assert (forall k : nat, (Z.of_nat k <= size) -> (k <= length mem)%nat) as Hk by (unfold zlen in *; lia).
  destruct (filling_step start size [] mem true (fun m => ByteOrderUtils.WriteUInt32 host m (zlen c))
    (be_bytes 4 (zlen c)) LOGCLEAN_WAL_SIZE_LEN) as [b1 ->]; [lia|lia|by zlens| |].
  { rewrite be_bytes_length. apply write32_spec, Hk. lia. }
  rewrite be_bytes_length, app_nil_l.
  destruct (filling_step start size (be_bytes 4 (zlen c)) (drop 4 mem) b1 (mem_write 0 [z2b ver])
    [z2b ver] LOGCLEAN_WAL_VERSION_LEN) as [b2 ->]; [lia|lia|done|done|]. cbn [length].
  destruct (filling_step start size (be_bytes 4 (zlen c) ++ [z2b ver]) (drop 1 (drop 4 mem)) b2
    (fun m => ByteOrderUtils.WriteUInt64 host m id) (be_bytes 8 id) LOGCLEAN_WAL_ENTRY_ID_LEN)
    as [b3 ->]; [lia|lia|by zlens| |].
  { rewrite be_bytes_length. apply write64_spec. rewrite !length_drop. specialize (Hk 13%nat). lia. }
  rewrite be_bytes_length. set (rest := drop 8 _). cbn [app] in *.
  assert (length rest = length mem - 13)%nat as Hrest by (unfold rest; rewrite !length_drop; lia).
  destruct (filling_step start size ((be_bytes 4 (zlen c) ++ [z2b ver]) ++ be_bytes 8 id) rest b3
    (mem_write 0 c) c (zlen c)) as [b4 ->]; [lia|lia|done|done|].
  rewrite (filling_write _ _ _ _ _ _ (be_bytes 4 off)); cycle 1.
  { rewrite be_bytes_length. apply write32_spec. rewrite length_drop. specialize (Hk (length c + 17)%nat).
    unfold size, zlen in *. lia. }
  cbn [db_mem]. unfold slice. change (Z.to_nat 0) with 0%nat. rewrite drop_0, be_bytes_length.
  replace (rec_bytes ver id off c) with
    ((((be_bytes 4 (zlen c) ++ [z2b ver]) ++ be_bytes 8 id) ++ c) ++ be_bytes 4 off)
    by (unfold rec_bytes; by rewrite <- !app_assoc).
  apply take_app_length'. unfold size, zlen.
  repeat rewrite length_app || rewrite be_bytes_length || cbn [length]. lia.
Qed.
End record.

(** ** Reading the layout *)

(** A record is a frame with nine header bytes. *)
Definition rec_frame (ver id : Z) (c : list byte) : frec := Frec (z2b ver :: be_bytes 8 id) c.

Lemma rec_frame_eq ver id off c : rec_bytes ver id off c = frame off (rec_frame ver id c).
Proof. reflexivity. Qed.

Lemma rec_frame_ok ver id c : zlen c + 17 < 4294967296 -> f_ok 9 (rec_frame ver id c).
Proof. intros Hc. split; [|exact Hc]. unfold rec_frame. cbn [f_hdr]. zlens. lia. Qed.

Lemma torn_nil9 : torn 9 [].
Proof. by apply torn_nil. Qed.

(** The fields of a record found at the position of [pre ++ record ++ rest]. *)
Lemma rec_read_len host pre ver id off c rest :
  zlen c < 4294967296 ->
  ByteOrderUtils.ReadUInt32 host (drop (Z.to_nat (zlen pre)) (pre ++ rec_bytes ver id off c ++ rest))
  = Some (zlen c).
Proof. apply (read_len host pre off (rec_frame ver id c)). Qed.

Lemma rec_read_off host pre ver id off c rest :
  0 <= off < 4294967296 ->
  ByteOrderUtils.ReadUInt32 host
    (drop (Z.to_nat (zlen pre + (LOGCLEAN_WAL_ENTRY_HEADER_LEN + zlen c)))
       (pre ++ rec_bytes ver id off c ++ rest)) = Some off.
Proof. by apply (read_off 9 host pre off (rec_frame ver id c)). Qed.

Lemma rec_drop_content pre ver id off c rest :
  drop (Z.to_nat (zlen pre + LOGCLEAN_WAL_CONTENT_OFFSET)) (pre ++ rec_bytes ver id off c ++ rest)
  = c ++ be_bytes 4 off ++ rest.
Proof. by apply (drop_body 9 pre off (rec_frame ver id c)). Qed.

Lemma rec_torn_short host pre t junk :
  torn 9 t ->
  zlen t < LOGCLEAN_WAL_ENTRY_HEADER_LEN \/
  exists len, ByteOrderUtils.ReadUInt32 host (drop (Z.to_nat (zlen pre)) (pre ++ t ++ junk)) = Some len /\
    zlen t < u32 (LOGCLEAN_WAL_ENTRY_EXTRA_FIELDS_SIZE + len).
Proof. by apply (torn_short 9 host pre t junk). Qed.

Lemma read_id host pre ver id off c rest :
  0 <= id < 18446744073709551616 ->
  ByteOrderUtils.ReadUInt64 host
    (drop (Z.to_nat (zlen pre + LOGCLEAN_WAL_ENTRY_ID_OFFSET)) (pre ++ rec_bytes ver id off c ++ rest))
  = Some id.
Proof.
  intros. rewrite drop_past by done.
  replace (rec_bytes ver id off c ++ rest) with
    ((be_bytes 4 (zlen c) ++ [z2b ver]) ++ be_bytes 8 id ++ c ++ be_bytes 4 off ++ rest)
    by (unfold rec_bytes; by rewrite <- !app_assoc).
  rewrite drop_app_length' by (rewrite length_app, be_bytes_length; done).
  rewrite read64_be. by rewrite u64_small.
Qed.

(** ** Records of entries *)

Record lrec (E : Type) := LRec { r_ver : Z; r_id : Z; r_entry : E }.
Arguments LRec {E}.
Arguments r_ver {E}.
Arguments r_id {E}.
Arguments r_entry {E}.

(** What the loader notes on the object for an entry of segment [segId]. *)
Definition noted {E} (segId : Z) (o : LogCleanWal) (r : lrec E) : LogCleanWal :=
  let o := set_map <[r_id r := segId]> o in
  let lastEntryId := u64 (r_id r - 1) in
  let o := if lastEntryId <? m_lastTruncMaxIdx o then set_lastTrunc lastEntryId o else o in
  set_entryIdx (r_id r) o.

Section parse.
Context (host : byte_order) `{MemAlloc} {E : Type} `{IEntryLaws E}.

Definition rsize (r : lrec E) : Z := zlen (enc (r_entry r)) + 17.
Definition rec_of (off : Z) (r : lrec E) : list byte :=
  rec_bytes (r_ver r) (r_id r) off (enc (r_entry r)).
Fixpoint recs (off : Z) (rs : list (lrec E)) : list byte :=
  match rs with [] => [] | r :: rs => rec_of off r ++ recs (off + rsize r) rs end.
Fixpoint recs_size (rs : list (lrec E)) : Z :=
  match rs with [] => 0 | r :: rs => rsize r + recs_size rs end.

(** The file of a segment, and the entries the callback gets for it. *)
Definition seg_file (rs : list (lrec E)) : list byte := wal_magic ++ recs LOGCLEAN_WAL_MAGIC_NO_LEN rs.
Definition loaded (rs : list (lrec E)) : list (Z * E) :=
  map (fun r => (r_id r, reload (r_entry r))) rs.

Definition rec_ok (r : lrec E) : Prop :=
  encodable (r_entry r) /\ 0 < r_id r < 18446744073709551615 /\ zlen (enc (r_entry r)) + 17 < 2147483648.

Lemma recs_length rs : forall off, zlen (recs off rs) = recs_size rs.
Proof.
  induction rs as [|r rs IH]; intros off; cbn [recs recs_size]; [done|].
  rewrite zlen_app, IH. unfold rec_of, rsize. by rewrite rec_bytes_length.
Qed.
Lemma rsize_pos r : 17 <= rsize r.
Proof. unfold rsize. pose proof (zlen_nonneg (enc (r_entry r))). lia. Qed.
Lemma recs_size_nonneg rs : 0 <= recs_size rs.
Proof. rewrite <- (recs_length rs 0). apply zlen_nonneg. Qed.
Lemma recs_app off rs rs' : recs off (rs ++ rs') = recs off rs ++ recs (off + recs_size rs) rs'.
Proof.
  revert off. induction rs as [|r rs IH]; intros off; cbn [recs recs_size app].
  - f_equal. lia.
  - rewrite IH, <- app_assoc. do 3 f_equal. lia.
Qed.
Lemma recs_size_app rs rs' : recs_size (rs ++ rs') = recs_size rs + recs_size rs'.
Proof. induction rs as [|r rs IH]; simpl; lia. Qed.
Lemma seg_file_length rs : zlen (seg_file rs) = 4 + recs_size rs.
Proof. unfold seg_file. by rewrite zlen_app, recs_length. Qed.
Lemma loaded_app rs rs' : loaded (rs ++ rs') = loaded rs ++ loaded rs'.
Proof. apply map_app. Qed.

(** What the parser returns at the end of a batch that stops inside a record. *)
Definition batch_end (ok : bool) (tail : list byte) (es : list (Z * E)) (off : Z) :
    result Code parsed :=
  match tail with
  | [] => Good (MkParsed es off None)
  | _ => if ok then Good (MkParsed es off (Some tail)) else Bad FileCorrupt FileCorruptError
  end.

Lemma parse_tail segId base ok fuel pre off tail junk acc o (w : world) Q :
  torn 9 tail -> zlen pre + zlen tail < 4294967296 -> (length tail <= fuel)%nat ->
  Q (batch_end ok tail acc off) (o, w) ->
  wp (parse_batch host fuel segId base (pre ++ tail ++ junk) (zlen pre + zlen tail) ok
        (zlen pre) off acc) (o, w) Q.
Proof.
  intros Ht Hb Hf HQ. pose proof (zlen_nonneg pre).
  assert (tail = [] \/ 0 < zlen tail) as [->|Hpos].
  { destruct tail; [by left|right]. rewrite zlen_cons. pose proof (zlen_nonneg tail). lia. }
  { destruct fuel; simpl; change (zlen (@nil byte)) with 0;
      (destruct (Z.ltb_spec (zlen pre) (zlen pre + 0)); [lia|done]). }
  assert (batch_end ok tail acc off =
    if ok then Good (MkParsed acc off (Some tail)) else Bad FileCorrupt FileCorruptError) as Hend
    by (by destruct tail).
  destruct fuel as [|fuel]; [unfold zlen in *; lia|]. cbn [parse_batch].
  destruct (Z.ltb_spec (zlen pre) (zlen pre + zlen tail)); [|lia]. cbn [negb]. cbv zeta.
  replace (zlen pre + zlen tail - zlen pre) with (zlen tail) by lia.
  assert (slice (zlen pre) (zlen tail) (pre ++ tail ++ junk) = tail) as Hsl.
  { unfold slice. rewrite drop_past0. unfold zlen. by rewrite Nat2Z.id, take_app_length. }
  rewrite Hsl. rewrite Hend in HQ.
  destruct (rec_torn_short host pre tail junk Ht) as [Hs|(len&Hlen&Hs)].
  - destruct (Z.ltb_spec (zlen tail) LOGCLEAN_WAL_ENTRY_HEADER_LEN); [|lia]. wpure.
    destruct ok; cbn [negb]; by wpure.
  - destruct (Z.ltb_spec (zlen tail) LOGCLEAN_WAL_ENTRY_HEADER_LEN); wpure.
    + destruct ok; cbn [negb]; by wpure.
    + rewrite Hlen. cbn [of_mem]. wpure.
      destruct (Z.ltb_spec (zlen tail) (u32 (LOGCLEAN_WAL_ENTRY_EXTRA_FIELDS_SIZE + len))); [|lia].
      destruct ok; cbn [negb]; by wpure.
Qed.

Lemma parse_step segId base ok fuel pre off r rest acc avail o (w : world) Q :
  rec_ok r -> 0 < base -> 0 <= off -> off + rsize r < 4294967296 ->
  zlen pre + rsize r <= avail < 4294967296 ->
  wp (parse_batch host fuel segId base ((pre ++ rec_of off r) ++ rest) avail ok
        (zlen (pre ++ rec_of off r)) (off + rsize r) (acc ++ [(r_id r, reload (r_entry r))]))
     (noted segId o r, w) Q ->
  wp (parse_batch host (S fuel) segId base (pre ++ rec_of off r ++ rest) avail ok (zlen pre) off acc)
     (o, w) Q.
Proof.
  intros (Henc & Hid & Hsz) Hbase Hoff0 Hoff Hav HQ. pose proof (zlen_nonneg pre).
  pose proof (rsize_pos r) as H17. unfold rsize, rec_of in *. set (c := enc (r_entry r)) in *.
  cbn [parse_batch]. destruct (Z.ltb_spec (zlen pre) avail); [|lia]. cbn [negb]. cbv zeta.
  rewrite rec_read_len by lia. unfold LOGCLEAN_WAL_ENTRY_EXTRA_FIELDS_SIZE, LOGCLEAN_WAL_ENTRY_HEADER_LEN.
  destruct (Z.ltb_spec (avail - zlen pre) 13); [lia|]. cbn [of_mem]. wpure.
  rewrite (u32_small (17 + zlen c)), (u32_small (13 + zlen c)), (u32_small (zlen c + 17)) by lia.
  destruct (Z.ltb_spec (avail - zlen pre) (17 + zlen c)); [lia|].
  pose proof (rec_read_off host pre (r_ver r) (r_id r) off c rest ltac:(lia)) as Hro.
  unfold LOGCLEAN_WAL_ENTRY_HEADER_LEN in Hro. rewrite Hro. clear Hro.
  cbn [of_mem]. wpure. rewrite Z.eqb_refl. cbn [negb].
  rewrite read_id by lia. cbn [of_mem]. wpure. rewrite rec_drop_content.
  destruct (Decode_enc (r_entry r) (base + (zlen pre + LOGCLEAN_WAL_CONTENT_OFFSET)) (be_bytes 4 off ++ rest))
    as (e0 & He0 & Hdec); [done|fold c; lia|unfold LOGCLEAN_WAL_CONTENT_OFFSET; lia|].
  fold c in He0, Hdec. rewrite He0. cbn [of_mem]. wpure. rewrite Hdec. wpure.
  rewrite zlen_app, rec_bytes_length, <- app_assoc in HQ.
  rewrite (u32_small (zlen pre + _)), (u32_small (off + _)) by lia.
  exact HQ.
Qed.

Lemma parse_batch_spec segId base ok rs : forall fuel pre off tail junk acc o (w : world) Q,
  Forall rec_ok rs -> torn 9 tail -> 0 < base -> 0 <= off ->
  zlen pre + recs_size rs + zlen tail < 4294967296 -> off + recs_size rs < 4294967296 ->
  (length (recs off rs ++ tail) <= fuel)%nat ->
  Q (batch_end ok tail (acc ++ loaded rs) (off + recs_size rs)) (foldl (noted segId) o rs, w) ->
  wp (parse_batch host fuel segId base (pre ++ recs off rs ++ tail ++ junk)
        (zlen pre + recs_size rs + zlen tail) ok (zlen pre) off acc) (o, w) Q.
Proof.
  induction rs as [|r rs IH]; intros fuel pre off tail junk acc o w Q Hrs Ht Hbase Hoff Hb Hb' Hf HQ;
    cbn [recs recs_size app foldl loaded map] in *.
  - rewrite !Z.add_0_r, ?app_nil_r in *. by apply parse_tail; [..|].
  - inversion_clear Hrs as [|? ? Hr Hrs']. pose proof (rsize_pos r). pose proof (recs_size_nonneg rs).
    pose proof (zlen_nonneg tail). pose proof (zlen_nonneg pre).
    assert (zlen (rec_of off r) = rsize r) as Hz by apply rec_bytes_length.
    destruct fuel as [|fuel].
    { rewrite <- app_assoc, length_app in Hf. unfold zlen in Hz. lia. }
    rewrite <- app_assoc. apply parse_step; [done|done|done|lia|lia|].
    replace (zlen pre + (rsize r + recs_size rs) + zlen tail)
      with (zlen (pre ++ rec_of off r) + recs_size rs + zlen tail) by (rewrite zlen_app; lia).
    apply IH; try done; try (rewrite ?zlen_app; lia).
    + rewrite <- app_assoc, length_app in Hf. unfold zlen in Hz. lia.
    + by rewrite <- app_assoc, <- Z.add_assoc.
Qed.
End parse.
