(* ===== verification/WalLoad.v ===== *)
(** * Loading a segment

    [load_segment] reads a segment in batches and carries what is left of a
    batch over to the next one.  Whatever the batch size, the callback gets the
    entries of the file in order, and a file that ends inside a record is
    reported as corrupt. *)

From S2P Require Import Prelude Codec Buffer Posix Files Quiet Records Entries Wal WalFormat.

Section load.
Context (host : byte_order) `{MemAlloc} {E : Type} `{IEntryLaws E}.

Abbreviation recs := (recs (E := E)).

(** The records as frames. *)
Definition frec_of (r : lrec E) : frec := rec_frame (r_ver r) (r_id r) (enc (r_entry r)).

Lemma frec_ok (rs : list (lrec E)) : Forall rec_ok rs -> Forall (f_ok 9) (map frec_of rs).
Proof.
  intros Hrs. apply Forall_map. eapply Forall_impl; [|exact Hrs]. intros r (_&_&Hs).
  apply rec_frame_ok. lia.
Qed.
Lemma recs_frames (rs : list (lrec E)) : forall off, recs off rs = frames 9 off (map frec_of rs).
Proof. induction rs as [|r rs IH]; intros off; [done|]. cbn [WalFormat.recs map frames]. by rewrite <- IH. Qed.
Lemma recs_size_frames (rs : list (lrec E)) : recs_size rs = frames_size 9 (map frec_of rs).
Proof. induction rs as [|r rs IH]; [done|]. cbn [recs_size map frames_size]. by rewrite <- IH. Qed.

Lemma torn_rec k off (r : lrec E) :
  rec_ok r -> (k < length (rec_of off r))%nat -> torn 9 (take k (rec_of off r)).
Proof.
  intros (_&_&Hs) Hk. apply (torn_frame 9 k off (frec_of r)); [apply rec_frame_ok; lia|exact Hk].
Qed.

Lemma torn_records off (rs : list (lrec E)) tail :
  Forall rec_ok rs -> torn 9 (recs off rs ++ tail) -> rs = [].
Proof.
  intros Hrs%frec_ok Ht. rewrite recs_frames in Ht. apply torn_frames in Ht; [|done].
  by apply map_eq_nil in Ht.
Qed.

Lemma next_records content pos batch left off (rs : list (lrec E)) tail :
  0 <= pos <= zlen content -> 0 < batch -> Forall rec_ok rs -> torn 9 tail ->
  left ++ drop (Z.to_nat pos) content = recs off rs ++ tail ->
  let chunk := slice pos batch content in
  zlen chunk = Z.min batch (zlen content - pos) /\
  exists rs1 rs2 t, rs = rs1 ++ rs2 /\ left ++ chunk = recs off rs1 ++ t /\ torn 9 t /\
    t ++ drop (Z.to_nat (pos + zlen chunk)) content = recs (off + recs_size rs1) rs2 ++ tail /\
    (zlen chunk < batch -> rs2 = [] /\ t = tail).
Proof.
  intros Hpos Hb Hrs%frec_ok Ht Heq. rewrite recs_frames in Heq.
  destruct (next_chunk 9 content pos batch left off _ tail Hpos Hb Hrs Ht Heq) as (Hn&fs1&fs2&t&Hfs&Hl&Htt&Hd&Hs).
  split; [done|]. apply map_eq_app in Hfs as (rs1&rs2&->&<-&<-). exists rs1, rs2, t.
  rewrite !recs_frames, recs_size_frames. do 4 (split; [done|]).
  intros Hlt. by apply Hs in Hlt as [->%map_eq_nil ->].
Qed.

Lemma noted_batch segId o (rs : list (lrec E)) :
  m_batchReadSize (foldl (noted segId) o rs) = m_batchReadSize o.
Proof.
  revert o. induction rs as [|r rs IH]; intros o; [done|]. simpl. rewrite IH. unfold noted.
  by destruct (_ <? _).
Qed.

(** The outcome of loading records followed by [tail]. *)
Definition load_end (fileSize : Z) (tail : list byte) : result Code Z :=
  match tail with [] => Good (u32 fileSize) | _ => Bad FileCorrupt FileCorruptError end.
Definition delivered (tail : list byte) (rs : list (lrec E)) (bs : list (list (Z * E))) : Prop :=
  concat bs `prefix_of` loaded rs /\ (tail = [] -> concat bs = loaded rs).

Lemma delivered_nil tail rs : (tail = [] -> rs = []) -> delivered tail rs [].
Proof. intros Hn. split; [apply prefix_nil|]. intros ->%Hn. done. Qed.

Lemma delivered_cons tail rs1 rs2 bs :
  delivered tail rs2 bs -> delivered tail (rs1 ++ rs2) (loaded rs1 :: bs).
Proof.
  intros [Hp He]. unfold delivered. cbn [concat]. rewrite loaded_app. split.
  - by apply prefix_app.
  - intros Hn. by rewrite (He Hn).
Qed.

Lemma load_loop_spec fd segId fileSize batch p content tail fuel : forall rs left pos off batches o w Q,
  quiet w -> fd <> -1 -> w_fds w !! fd = Some (FDesc p pos) -> w_files w !! p = Some content ->
  0 <= pos <= zlen content -> m_batchReadSize o = batch -> 0 < batch ->
  zlen content + batch < 4294967296 -> zlen left <= pos -> 0 <= off -> off + recs_size rs < 4294967296 ->
  Forall rec_ok rs -> torn 9 left -> torn 9 tail ->
  left ++ drop (Z.to_nat pos) content = recs off rs ++ tail ->
  zlen content - pos < batch * Z.of_nat fuel ->
  (forall bs d', delivered tail rs bs ->
     Q (load_end fileSize tail, batches ++ bs) (foldl (noted segId) o rs, set_fds <[fd := d']> w)) ->
  wp (load_loop host fuel fd segId fileSize left off batches) (o, w) Q.
Proof.
  induction fuel as [|fuel IH];
    intros rs left pos off batches o w Q Hq Hfd Hd Hc Hpos Hbt Hb0 Hbig Hleft Hoff Hend Hrs Htl Htt Heq Hf HQ;
    [lia|].
  destruct (next_records content pos batch left off rs tail Hpos Hb0 Hrs Htt Heq)
    as (Hn&rs1&rs2&t&->&Hdata&Htorn&Hdrop&Hshort).
  set (chunk := slice pos batch content) in *. pose proof (zlen_nonneg left) as Hl0.
  cbn [load_loop]. wpure. rewrite Hbt. rewrite (u32_small (batch + zlen left)) by lia. rewrite Z.ltb_irrefl. wpure.
  destruct (mp_Get_ok (batch + zlen left)) as (Hptr&_&_); [lia|].
  wlift. eapply wp_ReadFully_V4; [done|done|done|done|simpl; lia|done|]. cbn [fd_off fd_path]. fold chunk.
  apply Forall_app in Hrs as [Hrs1 Hrs2]. rewrite recs_size_app in Hend.
  destruct (Z.eqb_spec (zlen chunk) (-1)); [lia|]. destruct (Z.eqb_spec (zlen chunk) 0) as [Hz0|Hz0].
  { (* the end of the file *)
    apply zlen_0 in Hz0 as Hc0. rewrite Hc0, app_nil_r in Hdata. subst left.
    assert (rs1 = []) as -> by (by eapply torn_records). destruct Hshort as [-> ->]; [lia|].
    cbn [WalFormat.recs app foldl] in *. specialize (HQ [] (FDesc p (pos + zlen chunk))). rewrite app_nil_r in HQ.
    destruct tail as [|b tail]; cbn [zlen]; wpure; [|destruct (Z.eqb_spec (zlen (b :: tail)) 0) as [Hz|_];
      [by apply zlen_0 in Hz|]; cbn [negb]; wpure]; by apply HQ, delivered_nil. }
  assert (zlen chunk + zlen left = zlen (@nil byte) + recs_size rs1 + zlen t) as Hav.
  { change (zlen (@nil byte)) with 0. apply (f_equal zlen) in Hdata. rewrite !zlen_app, recs_length in Hdata. lia. }
  change (zlen (@nil byte)) with 0 in Hav. pose proof (recs_size_nonneg rs1). pose proof (recs_size_nonneg rs2).
  wbind. unfold IOUtils.zero_filled. rewrite (app_assoc left), Hdata, <- app_assoc, Hav.
  apply (parse_batch_spec host segId (mo_ptr (mp_Get (batch + zlen left)))
    (zlen chunk =? batch) rs1 _ [] off t); [done|done|done|done|change (zlen (@nil byte)) with 0; lia|lia| |].
  { apply (f_equal length) in Hdata. rewrite <- Hdata, length_app. unfold zlen in *. lia. }
  cbn [app]. destruct (Z.eqb_spec (zlen chunk) batch) as [Hfull|Hnot].
  - (* a full batch: go on with what is left of it *)
    assert (exists lf, batch_end true t (loaded rs1) (off + recs_size rs1) =
      Good (MkParsed (loaded rs1) (off + recs_size rs1) lf) /\ default [] lf = t) as (lf&->&Hlf).
    { destruct t; [by exists None|by eexists (Some _)]. }
    cbn [p_entries p_segOffset p_left]. rewrite Hlf.
    apply (IH rs2 t (pos + zlen chunk)); [done|done|by (simpl; rewrite lookup_insert_eq)|done|lia
      |by rewrite noted_batch|done|done|lia|lia|lia|done|done|done|done|lia|].
    intros bs d' Hdel. rewrite <- app_assoc, set_fds_twice. cbn [app].
    specialize (HQ (loaded rs1 :: bs) d'). rewrite foldl_app in HQ. by apply HQ, delivered_cons.
  - (* the last, short batch *)
    destruct Hshort as [-> ->]; [lia|]. rewrite app_nil_r in HQ. destruct tail as [|b tail]; cbn [batch_end]; wpure.
    + apply HQ. rewrite <- (app_nil_r rs1) at 1. apply delivered_cons, delivered_nil. done.
    + specialize (HQ [] (FDesc p (pos + zlen chunk))). rewrite app_nil_r in HQ. by apply HQ, delivered_nil.
Qed.

Lemma magic_read rest : ByteOrderUtils.ReadUInt32 host (wal_magic ++ rest) = Some LOGCLEAN_WAL_MAGIC_NO.
Proof. unfold wal_magic. by rewrite read32_be. Qed.

(** A segment file of complete records, then possibly a torn one. *)
Lemma load_segment_spec p segId (rs : list (lrec E)) tail o w Q :
  wf w -> w_files w !! p = Some (seg_file rs ++ tail) -> Forall rec_ok rs -> torn 9 tail ->
  0 < m_batchReadSize o -> zlen (seg_file rs ++ tail) + m_batchReadSize o < 4294967296 ->
  (forall bs w', keeps w w' -> delivered tail rs bs ->
     Q (load_end (zlen (seg_file rs ++ tail)) tail, bs) (foldl (noted segId) o rs, w')) ->
  wp (load_segment host p segId) (o, w) Q.
Proof.
  intros Hw Hp Hrs Ht Hb0 Hbig HQ. set (content := seg_file rs ++ tail) in *.
  pose proof (zlen_nonneg tail). pose proof (recs_size_nonneg rs).
  assert (zlen content = 4 + recs_size rs + zlen tail) as Hlen.
  { unfold content. by rewrite zlen_app, seg_file_length. }
  pose proof (wf_next w Hw) as Hn. unfold load_segment. wlift.
  eapply quiet_open_existing; [done|done|]. set (fd := w_next_fd w) in *.
  destruct (Z.eqb_spec fd (-1)); [lia|].
  pose proof (keeps_opened p w Hw) as Hk. pose proof (keeps_wf _ _ Hk Hw) as Hw1.
  assert (w_fds w !! fd = None) as Hfresh by (apply (wf_fresh w Hw); lia).
  set (w1 := opened p w) in *. assert (w_fds w1 !! fd = Some (FDesc p 0)) as Hfd1 by apply lookup_insert_eq.
  apply wp_with_closer; [done|]. wlift. eapply quiet_GetFileSize_fd; [done|lia|done|done|].
  fold content. rewrite Hlen. destruct (Z.eqb_spec (4 + recs_size rs + zlen tail) (-1)); [lia|].
  destruct (Z.ltb_spec (4 + recs_size rs + zlen tail) LOGCLEAN_WAL_MAGIC_NO_LEN);
    [unfold LOGCLEAN_WAL_MAGIC_NO_LEN in *; lia|].
  assert (content = wal_magic ++ recs LOGCLEAN_WAL_MAGIC_NO_LEN rs ++ tail) as Hcont
    by (unfold content, seg_file; by rewrite <- app_assoc).
  assert (slice 0 LOGCLEAN_WAL_MAGIC_NO_LEN content = wal_magic) as Hsl by (rewrite Hcont; done).
  wlift. eapply wp_ReadFully_V4; [apply Hw1|done|done|done|simpl; lia|done|]. cbn [fd_off fd_path].
  fold content. rewrite Hsl. change (zlen wal_magic) with 4. cbn [Z.eqb].
  unfold IOUtils.zero_filled. rewrite magic_read. cbn [of_mem]. wpure. cbn [Z.eqb Pos.eqb negb]. wpure.
  eapply (load_loop_spec fd segId _ (m_batchReadSize o) p content tail _ rs [] 4);
    [apply Hw1|done|simpl; by rewrite lookup_insert_eq|done|lia|done|done|done|done|done| |done|apply torn_nil9
    |done|by rewrite Hcont| |].
  - unfold LOGCLEAN_WAL_MAGIC_NO_LEN. lia.
  - rewrite Hlen. apply chunks_enough; [lia|done].
  - intros bs d' Hdel. exists d'. simpl. split; [apply Hw1|]. split; [by rewrite lookup_insert_eq|].
    rewrite <- Hlen. apply HQ; [|done]. apply keeps_closed; [done| |done].
    eapply keeps_touch; [|done|apply lookup_insert_eq]. by eapply keeps_touch.
Qed.
End load.
