(* ===== verification/WalSpec.v ===== *)
(** * The log as an abstract sequence of entries

    The abstract state of the write-ahead log is a list of segments, each a list
    of records.  [disk] relates it to the files of the root directory and [live]
    to a loaded [LogCleanWal] object.  [AppendEntry] appends one record (and
    starts a segment when the current one is full); a new object that runs
    [Init] and [Load] on the same files delivers exactly the entries. *)

From S2P Require Import Prelude Codec Buffer Posix Files Quiet Entries Wal WalFormat WalLoad.

(** ** Names of segment files *)

Lemma segment_path_eq root id :
  segment_path root id = (root +:+ "/" +:+ LOGCLEAN_WAL_SEGMENT_PREFIX_NAME) +:+ String dot (CommonUtils.ToString id).
Proof. unfold segment_path. by rewrite !str_app_assoc. Qed.

Lemma segment_path_inj root i j :
  0 <= i < 18446744073709551616 -> 0 <= j < 18446744073709551616 ->
  segment_path root i = segment_path root j -> i = j.
Proof.
  intros Hi Hj Heq. rewrite !segment_path_eq in Heq. apply str_app_inj_l in Heq.
  injection Heq as Heq. by apply ToString_inj.
Qed.

Lemma ToString_no_char c id : 0 <= id -> CommonUtils.is_digit c = false -> str_has c (CommonUtils.ToString id) = false.
Proof. intros Hid Hc. apply digits_no_char; [by apply ToString_digits|done]. Qed.

Lemma after_dot_segment root id : 0 <= id -> after_dot (segment_path root id) = CommonUtils.ToString id.
Proof.
  intros Hid. unfold after_dot. rewrite segment_path_eq, split_last_app; [done|].
  by apply ToString_no_char.
Qed.

Definition segment_name (id : Z) : string :=
  LOGCLEAN_WAL_SEGMENT_PREFIX_NAME +:+ "." +:+ CommonUtils.ToString id.

Lemma segment_name_no_slash id : 0 <= id -> str_has slash (segment_name id) = false.
Proof. intros Hid. unfold segment_name. rewrite !str_has_app, ToString_no_char by done. done. Qed.

Lemma child_name_segment root id : 0 <= id -> child_name root (segment_path root id) = Some (segment_name id).
Proof. intros Hid. apply child_name_self; [by apply segment_name_no_slash|done]. Qed.

Lemma dirname_segment root id : 0 <= id -> dirname (segment_path root id) = root.
Proof.
  intros Hid. unfold dirname, segment_path.
  change (root +:+ "/" +:+ LOGCLEAN_WAL_SEGMENT_PREFIX_NAME +:+ "." +:+ CommonUtils.ToString id)
    with (root +:+ String slash (segment_name id)).
  by rewrite split_last_app by (by apply segment_name_no_slash).
Qed.

Lemma prefix_app_true a b : String.prefix a (a +:+ b) = true.
Proof.
  induction a as [|c a IH]; [by destruct b|]. change (String c a +:+ b) with (String c (a +:+ b)).
  cbn [String.prefix]. destruct (ascii_dec c c); [done|congruence].
Qed.
Lemma str_contains_mid pat a b : str_contains pat (a +:+ pat +:+ b) = true.
Proof.
  induction a as [|c a IH].
  - change ("" +:+ pat +:+ b) with (pat +:+ b). pose proof (prefix_app_true pat b) as Hp.
    destruct (pat +:+ b); cbn [str_contains]; by rewrite Hp.
  - change (String c a +:+ pat +:+ b) with (String c (a +:+ pat +:+ b)). cbn [str_contains].
    by rewrite IH, orb_true_r.
Qed.
Lemma segment_contains root id : str_contains LOGCLEAN_WAL_SEGMENT_PREFIX_NAME (segment_path root id) = true.
Proof.
  unfold segment_path. rewrite <- (str_app_assoc root). apply str_contains_mid.
Qed.

(** ** The abstract log *)

Section spec.
Context (host : byte_order) `{MemAlloc} {E : Type} `{IEntryLaws E}.

(** Segments in ascending order, each with its id and records. *)
Abbreviation log := (list (Z * list (lrec E))).

Definition log_recs (segs : log) : list (lrec E) := concat (map snd segs).
(** The ids count from the object's initial [LOGCLEAN_WAL_MIN_ENTRY_ID]. *)
Definition last_idx (segs : log) : Z :=
  match list.last (log_recs segs) with Some r => r_id r | None => LOGCLEAN_WAL_MIN_ENTRY_ID end.
Definition id_map (segs : log) : gmap Z Z :=
  foldl (fun m s => foldl (fun m r => <[r_id r := s.1]> m) m s.2) ∅ segs.

(** The configuration: the members the constructor sets from it; and what the log
    shares the file system with, the other files and the directories. *)
Record wal_config := WalCfg {
  c_root : string; c_ver : Z; c_segmax : Z; c_batch : Z;
  c_rest : string -> option (list byte); c_dirs : gset string
}.

(** Sizes for which no 32-bit size of the log overflows. *)
Definition cfg_ok (c : wal_config) : Prop :=
  17 <= c_batch c /\ 17 <= c_segmax c /\ c_segmax c + 2 * c_batch c < 4294967296.

Definition seg_ok (c : wal_config) (s : Z * list (lrec E)) : Prop :=
  0 < s.1 < 18446744073709551615 /\ Forall rec_ok s.2 /\ zlen (seg_file s.2) < c_segmax c + c_batch c.

(** The files under the root directory are those of the log. *)
Record disk (c : wal_config) (segs : log) (w : world) : Prop := {
  d_wf : wf w;
  d_dirs : forall d, d ∈ dir_path (c_root c) -> d ∈ w_dirs w;
  d_root : c_root c ∈ w_dirs w;
  d_files : forall s, s ∈ segs -> w_files w !! segment_path (c_root c) s.1 = Some (seg_file s.2);
  d_only : forall p, is_Some (child_name (c_root c) p) -> is_Some (w_files w !! p) ->
    str_contains LOGCLEAN_WAL_SEGMENT_PREFIX_NAME p = true ->
    exists s, s ∈ segs /\ p = segment_path (c_root c) s.1;
  d_nodir : forall id, segment_path (c_root c) id ∉ w_dirs w;
  d_trunc : exists_path (c_root c +:+ "/" +:+ LOGCLEAN_WAL_TRUNC_META_NAME) w = false /\
            exists_path (c_root c +:+ "/" +:+ LOGCLEAN_WAL_TRUNC_OK_NAME) w = false;
  d_rest : (forall p, (forall id, p <> segment_path (c_root c) id) -> w_files w !! p = c_rest c p) /\
           w_dirs w = c_dirs c;
  d_sorted : StronglySorted (fun a b => a.1 < b.1) segs;
  d_segs : Forall (seg_ok c) segs
}.

(** An object that is open on the log: the last segment is the current one. *)
Record open_on (c : wal_config) (segs : log) (o : LogCleanWal) (w : world) : Prop := {
  l_disk : disk c segs w;
  l_cfg : m_sRootDir o = c_root c /\ m_writeEntryVersion o = c_ver c /\
          m_segmentMaxSize o = c_segmax c /\ m_batchReadSize o = c_batch c;
  l_flags : m_bInited o = true /\ m_bLoaded o = true;
  l_idx : m_currentEntryIdx o = last_idx segs;
  l_map : m_mpEntriesIdSegId o = id_map segs;
  l_cur : exists init sid rs, segs = init ++ [(sid, rs)] /\
    m_currentSegmentId o = sid /\ m_curSegFileSize o = zlen (seg_file rs) /\ 0 < m_currentSegFd o /\
    w_fds w !! m_currentSegFd o = Some (FDesc (segment_path (c_root c) sid) (zlen (seg_file rs)))
}.

(** Between operations the current segment is below the maximal size. *)
Definition roomy (c : wal_config) (segs : log) : Prop :=
  forall s, list.last segs = Some s -> zlen (seg_file s.2) < c_segmax c.
Definition live (c : wal_config) (segs : log) (o : LogCleanWal) (w : world) : Prop :=
  open_on c segs o w /\ roomy c segs.

(** The abstract operation: a record with the next id at the end, and an empty
    segment behind it once the current one has reached the maximal size. *)
Definition log_append (c : wal_config) (e : E) (segs : log) : log :=
  match list.last segs with
  | None => segs
  | Some (sid, rs) =>
      let rs' := rs ++ [LRec (c_ver c) (last_idx segs + 1) e] in
      take (length segs - 1) segs ++
      (sid, rs') :: (if c_segmax c <=? zlen (seg_file rs') then [(sid + 1, [])] else [])
  end.

Lemma log_append_eq c e init sid rs :
  log_append c e (init ++ [(sid, rs)]) =
  init ++ (sid, rs ++ [LRec (c_ver c) (last_idx (init ++ [(sid, rs)]) + 1) e]) ::
    (if c_segmax c <=? zlen (seg_file (rs ++ [LRec (c_ver c) (last_idx (init ++ [(sid, rs)]) + 1) e]))
     then [(sid + 1, [])] else []).
Proof.
  unfold log_append. rewrite list.last_snoc, length_app. cbn [length].
  replace (length init + 1 - 1)%nat with (length init) by lia. by rewrite take_app_length.
Qed.

Lemma log_recs_append c e init sid rs :
  log_recs (log_append c e (init ++ [(sid, rs)])) =
  log_recs (init ++ [(sid, rs)]) ++ [LRec (c_ver c) (last_idx (init ++ [(sid, rs)]) + 1) e].
Proof.
  rewrite log_append_eq. unfold log_recs. rewrite !map_app, !concat_app. cbn [map concat snd].
  destruct (_ <=? _); cbn [map concat snd app]; by rewrite ?app_nil_r, <- ?app_assoc, ?app_nil_r.
Qed.

Lemma last_idx_append c e init sid rs :
  last_idx (log_append c e (init ++ [(sid, rs)])) = last_idx (init ++ [(sid, rs)]) + 1.
Proof. unfold last_idx at 1. by rewrite log_recs_append, list.last_snoc. Qed.

Lemma id_map_snoc segs sid rs :
  id_map (segs ++ [(sid, rs)]) = foldl (fun m (r : lrec E) => <[r_id r := sid]> m) (id_map segs) rs.
Proof. unfold id_map. by rewrite foldl_app. Qed.

Lemma id_map_append c e init sid rs :
  id_map (log_append c e (init ++ [(sid, rs)])) =
  <[last_idx (init ++ [(sid, rs)]) + 1 := sid]> (id_map (init ++ [(sid, rs)])).
Proof.
  rewrite log_append_eq. set (i := last_idx _ + 1). destruct (_ <=? _).
  - change (?a :: [(sid + 1, [])]) with ([a] ++ [(sid + 1, @nil (lrec E))]).
    rewrite app_assoc, id_map_snoc. cbn [foldl]. rewrite !id_map_snoc, foldl_app. done.
  - rewrite !id_map_snoc, foldl_app. done.
Qed.

(** ** Changing one segment file *)

Lemma trunc_not_segment root n id :
  n = LOGCLEAN_WAL_TRUNC_META_NAME \/ n = LOGCLEAN_WAL_TRUNC_OK_NAME ->
  root +:+ "/" +:+ n <> segment_path root id.
Proof.
  intros Hn Heq. unfold segment_path in Heq. apply str_app_inj_l, str_app_inj_l in Heq.
  destruct Hn as [-> | ->]; discriminate Heq.
Qed.

Lemma exists_path_store w w' p q c :
  p <> q -> w_dirs w' = w_dirs w -> w_files w' = <[q := c]> (w_files w) ->
  exists_path p w' = exists_path p w.
Proof. intros Hne Hd Hf. unfold exists_path. by rewrite Hd, Hf, lookup_insert_ne. Qed.

Lemma disk_put c init old sid rs w w' :
  disk c (init ++ old) w -> (forall s, s ∈ old -> s.1 = sid) -> (forall s, s ∈ init -> s.1 < sid) ->
  seg_ok c (sid, rs) -> wf w' -> w_dirs w' = w_dirs w ->
  w_files w' = <[segment_path (c_root c) sid := seg_file rs]> (w_files w) ->
  disk c (init ++ [(sid, rs)]) w'.
Proof.
  intros [Hw Hds Hr Hf Ho Hn [Ht1 Ht2] [Hre1 Hre2] Hso Hse] Hold Hinit Hok Hw' Hd Hfi.
  apply Forall_app in Hse as [Hse _]. apply StronglySorted_app in Hso as (_&Hso&_).
  assert (forall s, s ∈ init -> segment_path (c_root c) s.1 <> segment_path (c_root c) sid) as Hne.
  { intros s Hs Heq. specialize (Hinit s Hs). rewrite list.Forall_forall in Hse.
    destruct (Hse s Hs) as (?&_&_). destruct Hok as (?&_&_). simpl in *.
    apply segment_path_inj in Heq; lia. }
  split; try (rewrite Hd); auto.
  - intros s [Hs|Hs%list_elem_of_singleton]%elem_of_app.
    + rewrite Hfi, lookup_insert_ne by (symmetry; auto). apply Hf. set_solver.
    + subst s. rewrite Hfi. apply lookup_insert_eq.
  - intros p Hp Hfp Hc. rewrite Hfi in Hfp.
    destruct (decide (p = segment_path (c_root c) sid)) as [->|Hpn]; [exists (sid, rs); set_solver|].
    rewrite lookup_insert_ne in Hfp by done.
    destruct (Ho p Hp Hfp Hc) as (s&[Hs|Hs]%elem_of_app&->); [exists s; set_solver|].
    by rewrite (Hold s Hs) in Hpn.
  - split; (erewrite exists_path_store; [eassumption| |done|done]);
      apply trunc_not_segment; tauto.
  - split; [|done]. intros p Hp. rewrite Hfi, lookup_insert_ne by (intros <-; by eapply Hp). by apply Hre1.
  - apply StronglySorted_app. split; [|split; [done|repeat constructor]].
    intros x y Hx Hy%list_elem_of_singleton. subst y. by apply Hinit.
  - apply Forall_app. split; [done|]. by constructor.
Qed.

Lemma disk_keeps c segs w w' : disk c segs w -> keeps w w' -> disk c segs w'.
Proof.
  intros [] []. split; unfold exists_path in *; try congruence; auto;
    match goal with Hf : w_files w' = _, Hd : w_dirs w' = _ |- _ => rewrite ?Hf, ?Hd; auto end.
Qed.

Lemma last_idx_range c segs w : disk c segs w -> 1 <= last_idx segs < 18446744073709551615.
Proof.
  intros Hd. unfold last_idx, LOGCLEAN_WAL_MIN_ENTRY_ID.
  destruct (list.last (log_recs segs)) as [r|] eqn:Hl; [|lia].
  apply list.last_Some in Hl as [l Hl]. assert (r ∈ log_recs segs) as Hr by (rewrite Hl; set_solver).
  unfold log_recs in Hr. apply list_elem_of_In, in_concat in Hr as (rs&Hrs&Hr).
  apply in_map_iff in Hrs as (s&<-&Hs). destruct Hd as [_ _ _ _ _ _ _ _ _ Hse].
  rewrite list.Forall_forall in Hse. destruct (Hse s) as (_&Hok&_); [by apply list_elem_of_In|].
  rewrite list.Forall_forall in Hok. destruct (Hok r) as (_&?&_); [by apply list_elem_of_In|]. lia.
Qed.

(** ** Starting a segment *)

Lemma no_segment_file c segs w sid :
  disk c segs w -> 0 < sid < 18446744073709551615 -> (forall s, s ∈ segs -> s.1 < sid) ->
  w_files w !! segment_path (c_root c) sid = None.
Proof.
  intros Hd Hsid Hlt. destruct (w_files w !! _) eqn:Hf; [|done]. exfalso.
  destruct (d_only _ _ _ Hd (segment_path (c_root c) sid)) as (s&Hs&Heq);
    [by rewrite child_name_segment by lia|by rewrite Hf|apply segment_contains|].
  specialize (Hlt s Hs). pose proof (d_segs _ _ _ Hd) as Hse. rewrite list.Forall_forall in Hse.
  destruct (Hse s Hs) as (?&_&_). apply segment_path_inj in Heq; lia.
Qed.

Lemma empty_seg_ok c sid : cfg_ok c -> 0 < sid < 18446744073709551615 -> seg_ok c (sid, []).
Proof. intros (?&?&?) Hs. split; [done|]. split; [constructor|]. rewrite seg_file_length. simpl. lia. Qed.

(** The state [create_new_segment_file] leaves the object in. *)
Definition on_new_segment (fd sid : Z) (o : LogCleanWal) : LogCleanWal :=
  set_segSize LOGCLEAN_WAL_MAGIC_NO_LEN
    (set_segFd fd (segment_path (m_sRootDir o) sid) (set_curSeg sid o)).

Lemma header_bytes :
  ByteOrderUtils.WriteUInt32 host (replicate 4 x00) LOGCLEAN_WAL_MAGIC_NO = wal_magic.
Proof. rewrite write32_spec by (simpl; lia). simpl drop. by rewrite app_nil_r. Qed.

Lemma open_next_spec c segs o w w1 Q :
  cfg_ok c -> disk c segs w -> wf w1 -> w_files w1 = w_files w -> w_dirs w1 = w_dirs w ->
  m_sRootDir o = c_root c -> 0 <= m_currentSegmentId o < 18446744073709551614 ->
  (forall s, s ∈ segs -> s.1 <= m_currentSegmentId o) ->
  (forall fd w', let sid := m_currentSegmentId o + 1 in
     disk c (segs ++ [(sid, [])]) w' -> 0 < fd ->
     w_fds w' !! fd = Some (FDesc (segment_path (c_root c) sid) 4) ->
     Q (Good tt) (on_new_segment fd sid o, w')) ->
  wp (open_next_segment host) (o, w1) Q.
Proof.
  intros Hc Hd Hw1 Hf1 Hd1 Hroot Hcur Hlt HQ. set (sid := m_currentSegmentId o + 1) in *.
  unfold open_next_segment, generate_segment_file_path. wpure.
  cbn [m_currentSegmentId m_sRootDir set_curSeg].
  rewrite (u64_small (m_currentSegmentId o + 1)) by lia. fold sid. rewrite Hroot.
  set (p := segment_path (c_root c) sid).
  assert (p ∉ w_dirs w1) as Hpd by (rewrite Hd1; apply (d_nodir _ _ _ Hd)).
  assert (forall s, s ∈ segs -> s.1 < sid) as Hlt' by (intros s Hs; specialize (Hlt s Hs); lia).
  wlift. apply wp_open_creat; [apply Hw1|done| | |].
  { unfold p. rewrite dirname_segment, Hd1 by lia. apply (d_root _ _ _ Hd). }
  { rewrite Hf1. apply (no_segment_file c segs); [done|lia|done]. }
  set (w2 := set_files <[p := []]> w1). assert (wf w2) as Hw2 by (by apply wf_store).
  change (set_fds _ _) with (opened p w2).
  pose proof (keeps_wf _ _ (keeps_opened p w2 Hw2) Hw2) as Hw3. pose proof (wf_next w1 Hw1) as Hn1.
  change (w_next_fd w1) with (w_next_fd w2) in *. set (fd := w_next_fd w2) in *. wpure.
  destruct (Z.eqb_spec fd (-1)); [lia|]. rewrite header_bytes. apply wp_rbind, wp_check_io.
  eapply wp_WriteFully; [apply Hw3|done|done|apply lookup_insert_eq|apply lookup_insert_eq|].
  cbn [fd_path fd_off]. split; [done|]. wpure.
  replace (set_segFd fd p _) with (set_segFd fd (segment_path (m_sRootDir o) sid) (set_curSeg sid o))
    by (by rewrite Hroot).
  apply HQ; [|lia|apply lookup_insert_eq].
  apply (disk_put c segs [] sid [] w); [by rewrite app_nil_r|set_solver|done|by apply empty_seg_ok; [|lia]| |done|].
  - eapply wf_seek; [|apply lookup_insert_eq]. by apply wf_store.
  - simpl. fold p. rewrite insert_insert_eq, Hf1. done.
Qed.

Lemma new_segment_spec c segs o w d Q :
  cfg_ok c -> disk c segs w -> m_sRootDir o = c_root c ->
  m_currentSegFd o = -1 \/ w_fds w !! m_currentSegFd o = Some d ->
  0 <= m_currentSegmentId o < 18446744073709551614 ->
  (forall s, s ∈ segs -> s.1 <= m_currentSegmentId o) ->
  (forall fd w', let sid := m_currentSegmentId o + 1 in
     disk c (segs ++ [(sid, [])]) w' -> 0 < fd ->
     w_fds w' !! fd = Some (FDesc (segment_path (c_root c) sid) 4) ->
     Q (Good tt) (on_new_segment fd sid o, w')) ->
  wp (create_new_segment_file host) (o, w) Q.
Proof.
  intros Hc Hd Hroot Hfd Hcur Hlt HQ. unfold create_new_segment_file. wpure.
  pose proof (d_wf _ _ _ Hd) as Hw. destruct (Z.eqb_spec (m_currentSegFd o) (-1)).
  - wpure. by apply (open_next_spec c segs o w).
  - destruct Hfd as [|Hfd]; [done|]. apply wp_rbind, wp_check_io.
    eapply wp_close; [apply Hd|done|]. split; [done|].
    apply (open_next_spec c segs o w); try done. by apply wf_close.
Qed.

(** ** AppendEntry *)

Lemma seg_file_snoc rs (r : lrec E) : seg_file (rs ++ [r]) = seg_file rs ++ rec_of (zlen (seg_file rs)) r.
Proof.
  unfold seg_file at 1. rewrite recs_app. cbn [recs]. rewrite app_nil_r, app_assoc.
  by rewrite seg_file_length.
Qed.

Lemma rec_of_nonempty off (r : lrec E) : rec_of off r <> [].
Proof. intros Heq%(f_equal zlen). unfold rec_of in Heq. rewrite rec_bytes_length in Heq.
  change (zlen []) with 0 in Heq. pose proof (zlen_nonneg (enc (r_entry r))). lia. Qed.

(** An entry the log accepts: the record, which has to be at most the maximal
    entry size, and with it the buffers fit. *)
Definition accepts (c : wal_config) (e : E) : Prop := encodable e /\ zlen (enc e) + 34 <= c_batch c.

Lemma sorted_below c init sid rs w s :
  disk c (init ++ [(sid, rs)]) w -> s ∈ init -> s.1 < sid.
Proof.
  intros Hd Hs. apply (StronglySorted_app_1_elem_of _ _ _ s (sid, rs) (d_sorted _ _ _ Hd) Hs). set_solver.
Qed.

Lemma roll_spec c init sid rs o w Q :
  cfg_ok c -> open_on c (init ++ [(sid, rs)]) o w -> sid < 18446744073709551614 ->
  let next := if c_segmax c <=? zlen (seg_file rs) then [(sid + 1, [])] else [] in
  (forall o' w', live c (init ++ (sid, rs) :: next) o' w' -> Q (Good tt) (o', w')) ->
  wp (roll_over host) (o, w) Q.
Proof.
  intros Hc [Hd (Hr&Hv&Hm&Hb) Hfl Hidx Hmap (i'&s'&r'&Heq&Hcur&Hsz&Hfd0&Hfd)] Hsid next HQ.
  apply app_inj_tail in Heq as [<- [= <- <-]]. unfold roll_over. wpure. rewrite Hm, Hsz. unfold next in HQ.
  pose proof (d_segs _ _ _ Hd) as Hse. apply Forall_app in Hse as [_ Hse].
  inversion_clear Hse as [|? ? (Hid&_&_) _]. simpl in Hid.
  destruct (Z.leb_spec (c_segmax c) (zlen (seg_file rs))) as [Hfull|Hroom].
  - eapply (new_segment_spec c); [done|done|done|by right|lia| |].
    { intros s [Hs|Hs%list_elem_of_singleton]%elem_of_app; [|subst s; simpl; lia].
      pose proof (sorted_below _ _ _ _ _ _ Hd Hs). lia. }
    cbv zeta. rewrite Hcur. intros fd w' Hd' Hfd' Hlk.
    apply HQ. rewrite <- app_assoc in Hd'. split.
    + split; simpl; try done.
      * rewrite Hidx. unfold last_idx, log_recs. rewrite !map_app, !concat_app. simpl. by rewrite app_nil_r.
      * rewrite Hmap. change ((sid, rs) :: [(sid + 1, [])]) with ([(sid, rs)] ++ [(sid + 1, @nil (lrec E))]).
        rewrite app_assoc. by rewrite (id_map_snoc (init ++ [(sid, rs)])).
      * exists (init ++ [(sid, rs)]), (sid + 1), []. rewrite <- app_assoc. done.
    + intros s. change ((sid, rs) :: [(sid + 1, [])]) with ([(sid, rs)] ++ [(sid + 1, @nil (lrec E))]).
      rewrite app_assoc, list.last_snoc. intros [= <-]. rewrite seg_file_length. simpl.
      destruct Hc as (?&?&?). lia.
  - wpure. apply HQ. split.
    + split; try done. by exists init, sid, rs.
    + intros s. rewrite list.last_snoc. by intros [= <-].
Qed.

(** Up to the write, [AppendEntry] only counts the id up. *)
Lemma append_to_write c init sid rs e o w :
  cfg_ok c -> live c (init ++ [(sid, rs)]) o w -> accepts c e ->
  last_idx (init ++ [(sid, rs)]) + 1 < 18446744073709551615 ->
  let idx := last_idx (init ++ [(sid, rs)]) + 1 in
  forall w', AppendEntry host e (o, w') =
    write_record host (zlen (enc e) + 17) idx
      (rec_of (zlen (seg_file rs)) (LRec (c_ver c) idx e)) (set_entryIdx idx o, w').
Proof.
  intros Hc [[Hd (Hr&Hv&Hm&Hb) (Hi&Hlo) Hidx Hmap (i'&s'&r'&Heq&Hcur&Hsz&Hfd0&Hfd)] Hroom] [He Hlen] Hid idx w'.
  apply app_inj_tail in Heq as [<- [= <- <-]].
  pose proof (last_idx_range _ _ _ Hd) as Hir. pose proof Hc as (Hc1&Hc2&Hc3).
  pose proof (zlen_nonneg (enc e)) as Hl0.
  destruct (Encode_enc e He ltac:(lia)) as (eb&HE&Hcont&Hval&Hav).
  unfold AppendEntry. rewrite (bind_ok _ _ _ (m_bInited o) (o, w')), Hi by done. cbn [negb].
  rewrite (bind_ok _ _ _ (m_bLoaded o) (o, w')), Hlo by done. cbn [negb]. rewrite HE. cbv zeta.
  rewrite (bind_ok _ _ _ (m_curSegFileSize o) (o, w')) by done.
  rewrite (bind_ok _ _ _ (m_maxEntrySize o) (o, w')) by done.
  unfold m_maxEntrySize, LOGCLEAN_WAL_ENTRY_EXTRA_FIELDS_SIZE. rewrite Hav, Hb.
  rewrite (u32_small (zlen (enc e))), (u32_small (zlen (enc e) + 17)), (u32_small (c_batch c - 17)) by lia.
  destruct (Z.ltb_spec (c_batch c - 17) (zlen (enc e) + 17)); [lia|].
  rewrite (bind_ok _ _ _ (m_writeEntryVersion o) (o, w')) by done.
  rewrite (bind_ok _ _ _ tt (set_entryIdx (u64 (m_currentEntryIdx o + 1)) o, w')) by done.
  rewrite Hidx, (u64_small (last_idx _ + 1)) by lia. fold idx.
  rewrite (bind_ok _ _ _ idx (set_entryIdx idx o, w')) by done. rewrite Hv, Hsz.
  by rewrite (build_record_spec host (c_ver c) idx _ eb (enc e)) by (done || lia).
Qed.

Lemma append_spec c segs e o w Q :
  cfg_ok c -> live c segs o w -> accepts c e -> last_idx segs + 1 < 18446744073709551615 ->
  m_currentSegmentId o < 18446744073709551614 ->
  (forall o' w', live c (log_append c e segs) o' w' -> Q (Good (last_idx segs + 1)) (o', w')) ->
  wp (AppendEntry host e) (o, w) Q.
Proof.
  intros Hc Hlive Hacc Hid Hseg HQ. pose proof Hlive as
    [[Hd (Hr&Hv&Hm&Hb) (Hi&Hlo) Hidx Hmap (init&sid&rs&->&Hcur&Hsz&Hfd0&Hfd)] Hroom].
  eapply wp_conv; [by apply (append_to_write c init sid rs e o w)|].
  set (idx := last_idx _ + 1) in *. set (r := LRec (c_ver c) idx e).
  destruct Hacc as [He Hlen]. pose proof Hc as (Hc1&Hc2&Hc3). pose proof (last_idx_range _ _ _ Hd) as Hir.
  specialize (Hroom _ (list.last_snoc _ _)). simpl in Hroom. pose proof (zlen_nonneg (enc e)) as Hl0.
  pose proof (zlen_nonneg (seg_file rs)).
  pose proof (d_segs _ _ _ Hd) as Hse. apply Forall_app in Hse as [_ Hse].
  inversion_clear Hse as [|? ? (Hsid&Hrs&_) _]. cbn [fst snd] in *.
  assert (zlen (rec_of (zlen (seg_file rs)) r) = zlen (enc e) + 17) as Hrl by apply rec_bytes_length.
  assert (zlen (seg_file (rs ++ [r])) = zlen (seg_file rs) + (zlen (enc e) + 17)) as Hnl
    by (by rewrite seg_file_snoc, zlen_app, Hrl).
  set (p := segment_path (c_root c) sid) in *.
  assert (w_files w !! p = Some (seg_file rs)) as Hfile
    by (apply (d_files _ _ _ Hd (sid, rs)); set_solver).
  unfold write_record. wpure. cbn [m_currentSegFd set_entryIdx].
  apply wp_rbind, wp_check_io. eapply wp_WriteFully; [apply Hd|lia|apply rec_of_nonempty|exact Hfd|exact Hfile|].
  cbn [fd_path fd_off]. rewrite file_write_end, <- seg_file_snoc. split; [lia|].
  set (w2 := set_fds _ _). assert (w_fds w2 !! m_currentSegFd o = Some (FDesc p (zlen (seg_file (rs ++ [r]))))) as Hfd2.
  { simpl. rewrite lookup_insert_eq, Hnl, Hrl. done. }
  assert (wf w2) as Hw2 by (eapply wf_seek; [apply wf_store; [apply Hd|apply (d_nodir _ _ _ Hd)]|exact Hfd]).
  apply wp_rbind, wp_check_io. eapply wp_fdatasync; [apply Hw2|exact Hfd2|]. split; [done|]. wpure.
  apply wp_rbind. apply (roll_spec c init sid (rs ++ [r])); [done| |lia|].
  - split; cbn [m_sRootDir m_writeEntryVersion m_segmentMaxSize m_batchReadSize m_bInited m_bLoaded
      m_currentEntryIdx m_mpEntriesIdSegId m_currentSegmentId m_curSegFileSize m_currentSegFd
      set_map set_segSize set_entryIdx]; try done.
    + eapply (disk_put c init [(sid, rs)] sid (rs ++ [r])); [exact Hd|set_solver| | |done|done|done].
      * intros s Hs. by eapply sorted_below.
      * split; [done|]. cbn [snd]. split; [|lia]. apply Forall_app. split; [done|].
        constructor; [|done]. repeat split; simpl; (done || lia).
    + unfold last_idx at 1, log_recs. rewrite map_app, concat_app. cbn [map concat snd].
      by rewrite app_nil_r, app_assoc, list.last_snoc.
    + rewrite Hmap, Hcur, !id_map_snoc, foldl_app. done.
    + exists init, sid, (rs ++ [r]). rewrite Hsz, u32_small, <- Hnl by lia. done.
  - intros o' w' Hlive'. wpure. apply HQ. by rewrite log_append_eq.
Qed.
End spec.
