(* ===== verification/WalRestart.v ===== *)
(** * Opening a log: Init and Load

    On a directory that holds a log, [Init] lists the segments in order and
    opens the last one, [Load] delivers every entry and leaves the object ready
    to append; on an empty directory the first segment is created. *)

From S2P Require Import Prelude Codec Buffer Posix Files Quiet Records Entries Wal WalFormat WalLoad WalSpec.

(** ** Sorting the segments *)

Definition seg_le (a b : SegmentFileInfo) : Prop := Id a <= Id b.

Lemma insert_seg_perm s l : insert_seg s l ≡ₚ s :: l.
Proof.
  induction l as [|t l IH]; simpl; [done|]. destruct (Id s <? Id t); [done|].
  rewrite IH. apply Permutation_swap.
Qed.
Lemma sort_segs_perm l : sort_segs l ≡ₚ l.
Proof. induction l as [|s l IH]; simpl; [done|]. by rewrite insert_seg_perm, IH. Qed.

Lemma insert_seg_sorted s l : StronglySorted seg_le l -> StronglySorted seg_le (insert_seg s l).
Proof.
  induction 1 as [|t l Hl IH Ht]; simpl; [by repeat constructor|].
  destruct (Z.ltb_spec (Id s) (Id t)).
  - constructor; [by constructor|]. constructor; [unfold seg_le; lia|].
    eapply Forall_impl; [|exact Ht]. unfold seg_le. intros; lia.
  - constructor; [done|]. rewrite insert_seg_perm. constructor; [unfold seg_le; lia|done].
Qed.
Lemma sort_segs_sorted l : StronglySorted seg_le (sort_segs l).
Proof. induction l as [|s l IH]; simpl; [constructor|]. by apply insert_seg_sorted. Qed.

(** [std::sort] puts the segment files in the order of a list sorted by id. *)
Lemma sort_segs_unique l l' :
  StronglySorted (fun a b => Id a < Id b) l' -> l ≡ₚ l' -> sort_segs l = l'.
Proof.
  intros Hs Hp. assert (NoDup (map Id l')) as Hnd.
  { clear Hp. induction Hs as [|t l' Hl IH Ht]; simpl; [constructor|]. constructor; [|done].
    intros (x&Hx&Hin)%list_elem_of_fmap. rewrite list.Forall_forall in Ht. specialize (Ht x Hin). lia. }
  apply (StronglySorted_unique_strong seg_le).
  - intros a b Ha Hb Hab Hba. assert (Id a = Id b) as Heq by (unfold seg_le in *; lia).
    rewrite sort_segs_perm, Hp in Ha. apply list_elem_of_lookup in Ha as [i Hi], Hb as [j Hj].
    assert (i = j) as ->; [|congruence].
    eapply (NoDup_lookup _ i j (Id a) Hnd); rewrite list_lookup_fmap; [by rewrite Hi|by rewrite Hj, Heq].
  - apply sort_segs_sorted.
  - clear Hp Hnd. induction Hs as [|t l' Hl IH Ht]; constructor; [done|].
    eapply Forall_impl; [|exact Ht]. unfold seg_le. intros; lia.
  - by rewrite sort_segs_perm.
Qed.

Section restart.
Context (host : byte_order) `{MemAlloc} {E : Type} `{IEntryLaws E}.

Abbreviation log := (list (Z * list (lrec E))).
Definition seg_info (root : string) (id : Z) : SegmentFileInfo := MkSeg id (segment_path root id).
Definition seg_infos (root : string) (segs : log) : list SegmentFileInfo :=
  map (fun s => seg_info root s.1) segs.

Lemma parse_children_spec root ids : forall rs (o : LogCleanWal) w Q,
  Forall (fun id => 0 < id < 18446744073709551615) ids ->
  Q (Good (rs ++ map (seg_info root) ids)) (o, w) ->
  wp (parse_children (map (segment_path root) ids) rs) (o, w) Q.
Proof.
  induction ids as [|id ids IH]; intros rs o w Q Hids HQ; cbn [map parse_children].
  - wpure. by rewrite app_nil_r in HQ.
  - inversion_clear Hids as [|? ? Hid Hids']. rewrite after_dot_segment by lia. wlift.
    apply wp_ToUint46_t; [done|]. cbn [negb]. apply IH; [done|]. by rewrite <- app_assoc.
Qed.

Lemma list_segments_spec c (segs : log) (o : LogCleanWal) w Q :
  disk c segs w -> m_sRootDir o = c_root c -> Q (Good (seg_infos (c_root c) segs)) (o, w) ->
  wp list_segments_asc (o, w) Q.
Proof.
  intros Hd Hroot HQ. unfold list_segments_asc. wpure. rewrite Hroot. wlift.
  apply quiet_CollectFileChildren; [apply Hd|apply (d_root _ _ _ Hd)|]. intros l Hnd Hl.
  cbn [Z.eqb negb]. pose proof (d_segs _ _ _ Hd) as Hse. rewrite list.Forall_forall in Hse.
  assert (l ≡ₚ map (segment_path (c_root c)) (map fst segs)) as Hperm.
  { apply NoDup_Permutation; [done| |].
    - apply NoDup_fmap_2_strong; [|].
      + intros i j (s&->&Hs)%list_elem_of_fmap (t&->&Ht)%list_elem_of_fmap.
        destruct (Hse s Hs) as (?&_), (Hse t Ht) as (?&_). apply segment_path_inj; lia.
      + pose proof (d_sorted _ _ _ Hd) as Hso. clear - Hso. induction Hso as [|s segs Hs IH Hall]; simpl; [constructor|].
        constructor; [|done]. intros (t&Ht&Hin)%list_elem_of_fmap. rewrite list.Forall_forall in Hall.
        specialize (Hall t Hin). simpl in *. lia.
    - intros p. rewrite Hl, list_elem_of_fmap. split.
      + intros (Hc&Hf&Hp). destruct (d_only _ _ _ Hd p Hc Hf Hp) as (s&Hs&->).
        exists s.1. split; [done|]. apply list_elem_of_fmap. eauto.
      + intros (i&->&(s&->&Hs)%list_elem_of_fmap). destruct (Hse s Hs) as (?&_).
        rewrite child_name_segment, (d_files _ _ _ Hd s Hs) by lia.
        split; [done|]. split; [done|]. apply segment_contains. }
  apply Permutation_map_inv in Hperm as (ids&->&Hids). apply wp_rbind. apply parse_children_spec.
  { rewrite <- Hids. apply list.Forall_forall. intros i (s&->&Hs)%list_elem_of_fmap. by destruct (Hse s Hs). }
  cbn [app]. wpure. rewrite (sort_segs_unique _ (seg_infos (c_root c) segs)); [done| |].
  - pose proof (d_sorted _ _ _ Hd) as Hso. unfold seg_infos. by eapply StronglySorted_fmap; [|exact Hso].
  - rewrite <- Hids. unfold seg_infos. by rewrite map_map.
Qed.

(** ** Init *)

(** An object as the constructor leaves it. *)
Record fresh (c : wal_config) (o : LogCleanWal) : Prop := {
  f_cfg : m_sRootDir o = c_root c /\ m_writeEntryVersion o = c_ver c /\
          m_segmentMaxSize o = c_segmax c /\ m_batchReadSize o = c_batch c;
  f_map : m_mpEntriesIdSegId o = ∅;
  f_idx : m_currentEntryIdx o = LOGCLEAN_WAL_MIN_ENTRY_ID;
  f_fd : m_currentSegFd o = -1
}.

Lemma make_fresh c o :
  LogCleanWal_make (c_root c) (c_ver c) (c_segmax c) (c_batch c) = Ok o -> fresh c o.
Proof. unfold LogCleanWal_make. destruct (_ || _); [done|]. intros [= <-]. by split. Qed.

(** The log an empty directory becomes. *)
Definition started (segs : log) : log := match segs with [] => [(1, [])] | _ => segs end.

(** After [Init]: the segments found are listed, the last one is open for
    appending; nothing is loaded yet. *)
Record initialised (c : wal_config) (segs : log) (o : LogCleanWal) (w : world) : Prop := {
  i_disk : disk c (started segs) w;
  i_cfg : m_sRootDir o = c_root c /\ m_writeEntryVersion o = c_ver c /\
          m_segmentMaxSize o = c_segmax c /\ m_batchReadSize o = c_batch c;
  i_inited : m_bInited o = true;
  i_segs : m_vInitSegments o = seg_infos (c_root c) segs;
  i_map : m_mpEntriesIdSegId o = ∅;
  i_idx : m_currentEntryIdx o = LOGCLEAN_WAL_MIN_ENTRY_ID;
  i_size : segs = [] -> m_curSegFileSize o = 4;
  i_cur : exists init sid rs, started segs = init ++ [(sid, rs)] /\
    m_currentSegmentId o = sid /\ 0 < m_currentSegFd o /\
    w_fds w !! m_currentSegFd o = Some (FDesc (segment_path (c_root c) sid) (zlen (seg_file rs)))
}.

Lemma no_trunc_spec c (segs : log) (o : LogCleanWal) w Q :
  disk c segs w -> m_sRootDir o = c_root c ->
  (forall w', keeps w w' -> Q LOGCLEAN_WAL_INVALID_SEGMENT_ID (o, w')) ->
  wp get_uncompleted_trunc_segments_max_id (o, w) Q.
Proof.
  intros Hd Hroot HQ. unfold get_uncompleted_trunc_segments_max_id, m_sTruncOKFlagFilePath, m_sTruncInfoFilePath.
  wpure. rewrite Hroot. destruct (d_trunc _ _ _ Hd) as [Ht1 Ht2]. wlift.
  apply quiet_Exist; [apply Hd|]. intros w1 Hk1. rewrite Ht2. wlift.
  apply quiet_Exist; [apply Hk1, Hd|]. intros w2 Hk2.
  assert (exists_path (c_root c +:+ "/" +:+ LOGCLEAN_WAL_TRUNC_META_NAME) w1 = false) as ->.
  { unfold exists_path in *. by rewrite (keeps_files _ _ Hk1), (keeps_dirs _ _ Hk1). }
  cbn [negb]. wpure. apply HQ. by transitivity w1.
Qed.

Lemma clean_none_spec c (segs : log) (o : LogCleanWal) w Q :
  disk c segs w -> m_sRootDir o = c_root c ->
  (forall w', keeps w w' -> Q (Good tt) (o, w')) -> wp clean_trunc_status (o, w) Q.
Proof.
  intros Hd Hroot HQ. unfold clean_trunc_status, m_sTruncOKFlagFilePath, m_sTruncInfoFilePath.
  wpure. rewrite Hroot. destruct (d_trunc _ _ _ Hd) as [Ht1 Ht2]. wlift.
  apply quiet_Exist; [apply Hd|]. intros w1 Hk1. rewrite Ht1. wpure. wlift.
  apply quiet_Exist; [apply Hk1, Hd|]. intros w2 Hk2.
  assert (exists_path (c_root c +:+ "/" +:+ LOGCLEAN_WAL_TRUNC_OK_NAME) w1 = false) as ->.
  { unfold exists_path in *. by rewrite (keeps_files _ _ Hk1), (keeps_dirs _ _ Hk1). }
  wpure. apply HQ. by transitivity w1.
Qed.

Lemma open_current_spec c init sid rs (o : LogCleanWal) w Q :
  disk c (init ++ [(sid, rs)]) w -> m_sRootDir o = c_root c -> m_currentSegmentId o = sid ->
  (forall fd w', disk c (init ++ [(sid, rs)]) w' -> 0 < fd ->
     w_fds w' !! fd = Some (FDesc (segment_path (c_root c) sid) (zlen (seg_file rs))) ->
     Q (Good tt) (set_segFd fd (segment_path (c_root c) sid) o, w')) ->
  wp open_current (o, w) Q.
Proof.
  intros Hd Hroot Hcur HQ. unfold open_current, generate_segment_file_path. wpure. rewrite Hroot, Hcur.
  pose proof (d_wf _ _ _ Hd) as Hw. pose proof (wf_next _ Hw) as Hn. set (p := segment_path (c_root c) sid).
  assert (w_files w !! p = Some (seg_file rs)) as Hf by (apply (d_files _ _ _ Hd (sid, rs)); set_solver).
  wlift. eapply quiet_open_existing; [done|exact Hf|]. destruct (Z.eqb_spec (w_next_fd w) (-1)); [lia|]. wpure.
  pose proof (keeps_opened p w Hw) as Hk. pose proof (keeps_wf _ _ Hk Hw) as Hw1.
  wlift. eapply quiet_GetFileSize_fd; [done|lia|apply lookup_insert_eq|exact Hf|].
  pose proof (zlen_nonneg (seg_file rs)). apply wp_rbind, wp_check_io.
  eapply wp_lseek_set; [apply Hw1|apply lookup_insert_eq|done|]. split; [lia|]. wpure.
  apply HQ; [|lia|apply lookup_insert_eq]. eapply disk_keeps; [exact Hd|].
  eapply keeps_touch; [exact Hk|apply (wf_fresh _ Hw); lia|apply lookup_insert_eq].
Qed.

Lemma init_spec c (segs : log) o w Q :
  cfg_ok c -> disk c segs w -> fresh c o ->
  (forall o' w', initialised c segs o' w' -> Q (Good tt) (o', w')) ->
  wp (Init host) (o, w) Q.
Proof.
  intros Hc Hd [(Hr&Hv&Hm&Hb) Hmap Hidx Hfd] HQ. unfold Init, Init_body. wpure. apply wp_rbind.
  apply wp_check_io. rewrite Hr. apply quiet_CreateDirPath; [apply Hd|apply (d_dirs _ _ _ Hd)|].
  split; [done|]. wbind. eapply no_trunc_spec; [done|done|]. intros w1 Hk1.
  pose proof (disk_keeps _ _ _ _ Hd Hk1) as Hd1. apply wp_rbind.
  eapply list_segments_spec; [exact Hd1|done|]. cbn [Z.eqb negb LOGCLEAN_WAL_INVALID_SEGMENT_ID]. wpure.
  apply wp_rbind. eapply clean_none_spec; [done|done|]. intros w2 Hk2.
  pose proof (disk_keeps _ _ _ _ Hd1 Hk2) as Hd2.
  destruct segs as [|s segs'].
  - cbn [seg_infos map]. wpure. eapply (new_segment_spec host c [] _ _ (FDesc EmptyString 0)); [done|done|done|by left|done|set_solver|].
    cbv zeta. intros fd w' Hd' Hfd' Hlk. cbn [app] in Hd'. wpure.
    eapply (open_current_spec c [] 1 []); [exact Hd'|done|done|]. intros fd2 w3 Hd3 Hfd3 Hlk3. wpure.
    apply HQ. split; try done. by exists [], 1, [].
  - destruct (exists_last (l := s :: segs')) as (init&[sid rs]&Hl); [done|].
    cbn [seg_infos map]. wpure.
    assert (Id (List.last (seg_infos (c_root c) (s :: segs')) (seg_info (c_root c) s.1)) = sid) as Hlast.
    { rewrite Hl. unfold seg_infos. rewrite map_app. cbn [map]. by rewrite List.last_last. }
    rewrite Hl in Hd2. eapply (open_current_spec c init sid rs); [exact Hd2|done|exact Hlast|].
    intros fd w3 Hd3 Hfd3 Hlk. wpure. rewrite <- Hl in Hd3. apply HQ. split; try done.
    exists init, sid, rs. done.
Qed.

(** ** Load *)

(** The object after the segments were loaded. *)
Fixpoint load_effect (o : LogCleanWal) (segs : log) : LogCleanWal :=
  match segs with
  | [] => o
  | s :: segs' =>
      let o := foldl (noted s.1) o s.2 in
      load_effect (match segs' with [] => set_segSize (zlen (seg_file s.2)) o | _ => o end) segs'
  end.

Lemma load_segments_spec c (segs : log) : forall o w batches Q,
  wf w -> (forall s, s ∈ segs -> w_files w !! segment_path (c_root c) s.1 = Some (seg_file s.2)) ->
  cfg_ok c -> Forall (seg_ok c) segs -> m_batchReadSize o = c_batch c ->
  (forall bs w', keeps w w' -> concat bs = loaded (log_recs segs) ->
     Q (Good tt, batches ++ bs) (load_effect o segs, w')) ->
  wp (load_segments host (seg_infos (c_root c) segs) batches) (o, w) Q.
Proof.
  induction segs as [|s segs IH]; intros o w batches Q Hw Hf Hc Hse Hb HQ.
  - cbn [seg_infos map load_segments]. wpure. specialize (HQ [] w). rewrite app_nil_r in HQ.
    by apply HQ.
  - inversion_clear Hse as [|? ? (Hid&Hrs&Hsz) Hse']. pose proof Hc as (?&?&?).
    cbn [seg_infos map load_segments seg_info Id Path]. wbind.
    pose proof (Hf s ltac:(set_solver)) as Hfs. rewrite <- (app_nil_r (seg_file s.2)) in Hfs.
    eapply (load_segment_spec host _ s.1 s.2 []); [done|exact Hfs|done|apply torn_nil9|lia| |].
    { rewrite app_nil_r. lia. }
    intros bs w1 Hk [_ Hbs]. specialize (Hbs eq_refl). rewrite app_nil_r. cbn [load_end].
    pose proof (zlen_nonneg (seg_file s.2)). rewrite u32_small by lia.
    set (o1 := foldl (noted s.1) o s.2) in *.
    assert (forall o2, o2 = match segs with [] => set_segSize (zlen (seg_file s.2)) o1 | _ => o1 end ->
      wp (load_segments host (seg_infos (c_root c) segs) (batches ++ bs)) (o2, w1) Q) as Hrest.
    { intros o2 Ho2. apply IH; [by apply Hk| |done|done| |].
      - intros t Ht. rewrite (keeps_files _ _ Hk). apply Hf. set_solver.
      - rewrite Ho2. pose proof (noted_batch s.1 o s.2) as Hnb. fold o1 in Hnb.
        destruct segs; simpl; congruence.
      - intros bs' w' Hk' Hbs'. rewrite <- app_assoc, Ho2.
        apply (HQ (bs ++ bs')); [by transitivity w1|].
        rewrite concat_app, Hbs, Hbs'. unfold log_recs. cbn [map concat]. by rewrite loaded_app. }
    destruct segs as [|t segs']; cbn [seg_infos map]; wpure; by apply Hrest.
Qed.

(** What loading changes on the object, member by member. *)
Lemma noted_all (sid : Z) (rs : list (lrec E)) : forall o,
  m_mpEntriesIdSegId (foldl (noted sid) o rs) =
    foldl (fun m r => <[r_id r := sid]> m) (m_mpEntriesIdSegId o) rs /\
  m_currentEntryIdx (foldl (noted sid) o rs) =
    match list.last rs with Some r => r_id r | None => m_currentEntryIdx o end /\
  m_sRootDir (foldl (noted sid) o rs) = m_sRootDir o /\
  m_writeEntryVersion (foldl (noted sid) o rs) = m_writeEntryVersion o /\
  m_segmentMaxSize (foldl (noted sid) o rs) = m_segmentMaxSize o /\
  m_batchReadSize (foldl (noted sid) o rs) = m_batchReadSize o /\
  m_bInited (foldl (noted sid) o rs) = m_bInited o /\
  m_currentSegmentId (foldl (noted sid) o rs) = m_currentSegmentId o /\
  m_currentSegFd (foldl (noted sid) o rs) = m_currentSegFd o /\
  m_curSegFileSize (foldl (noted sid) o rs) = m_curSegFileSize o.
Proof.
  induction rs as [|r rs IH]; intros o; [done|]. cbn [foldl].
  destruct (IH (noted sid o r)) as (->&->&->&->&->&->&->&->&->&->).
  unfold noted. destruct (_ <? _); cbn; (repeat split); rewrite list.last_cons;
    by destruct (list.last rs).
Qed.

Lemma load_effect_all (segs : log) : forall o,
  m_mpEntriesIdSegId (load_effect o segs) =
    foldl (fun m s => foldl (fun m r => <[r_id r := s.1]> m) m s.2) (m_mpEntriesIdSegId o) segs /\
  m_currentEntryIdx (load_effect o segs) =
    match list.last (log_recs segs) with Some r => r_id r | None => m_currentEntryIdx o end /\
  m_sRootDir (load_effect o segs) = m_sRootDir o /\
  m_writeEntryVersion (load_effect o segs) = m_writeEntryVersion o /\
  m_segmentMaxSize (load_effect o segs) = m_segmentMaxSize o /\
  m_batchReadSize (load_effect o segs) = m_batchReadSize o /\
  m_bInited (load_effect o segs) = m_bInited o /\
  m_currentSegmentId (load_effect o segs) = m_currentSegmentId o /\
  m_currentSegFd (load_effect o segs) = m_currentSegFd o /\
  m_curSegFileSize (load_effect o segs) =
    match list.last segs with Some s => zlen (seg_file s.2) | None => m_curSegFileSize o end.
Proof.
  induction segs as [|s segs IH]; intros o; [done|]. cbn [load_effect foldl].
  set (o1 := foldl (noted s.1) o s.2).
  destruct (noted_all s.1 s.2 o) as (H1'&H2'&H3&H4&H5&H6&H7&H8&H9&H10). fold o1 in H1', H2', H3, H4, H5, H6, H7, H8, H9, H10.
  destruct (IH (match segs with [] => set_segSize (zlen (seg_file s.2)) o1 | _ => o1 end))
    as (->&->&->&->&->&->&->&->&->&->).
  unfold log_recs. cbn [map concat]. rewrite list.last_app, list.last_cons.
  destruct segs as [|t segs']; cbn -[list.last seg_file zlen foldl]; repeat split; try congruence.
  - rewrite H2'. done.
  - rewrite H2'. by destruct (list.last (t.2 ++ _)).
  - destruct (list.last (t :: segs')) eqn:El; [done|]. by apply list.last_None in El.
Qed.

Lemma load_spec c (segs : log) o w Q :
  cfg_ok c -> initialised c segs o w -> roomy c segs ->
  (forall bs o' w', concat bs = loaded (log_recs segs) -> live c (started segs) o' w' ->
     Q (Good tt, bs) (o', w')) ->
  wp (Load host) (o, w) Q.
Proof.
  intros Hc [Hd (Hr&Hv&Hm&Hb) Hi Hsegs Hmap Hidx Hsz (init&sid&rs&Heq&Hcur&Hfd0&Hfd)] Hroom HQ.
  unfold Load. wpure. rewrite Hi. cbn [negb]. wpure. rewrite Hsegs. destruct segs as [|s segs'].
  - cbn [seg_infos map]. wpure. apply HQ; [done|]. cbn [started] in *. split.
    + split; try done; simpl. exists init, sid, rs. rewrite Hsz by done.
      destruct init as [|? [|? ?]]; [|done|done]. injection Heq as <- <-. done.
    + intros t [= <-]. destruct Hc as (?&?&?). rewrite seg_file_length. simpl. lia.
  - set (segs := s :: segs') in *. change (started segs) with segs in *.
    change (seg_infos (c_root c) segs) with (seg_info (c_root c) s.1 :: seg_infos (c_root c) segs').
    wpure. change (seg_info (c_root c) s.1 :: seg_infos (c_root c) segs') with (seg_infos (c_root c) segs).
    eapply (load_segments_spec c segs); [apply Hd|apply (d_files _ _ _ Hd)|done|apply (d_segs _ _ _ Hd)|done|].
    intros bs w' Hk Hbs. wpure. apply HQ; [done|].
    destruct (load_effect_all segs (set_minSeg (Id (seg_info (c_root c) s.1)) o))
      as (E1&E2&E3&E4&E5&E6&E7&E8&E9&E10).
    split; [|done]. split; cbn [m_sRootDir m_writeEntryVersion m_segmentMaxSize m_batchReadSize m_bInited
      m_bLoaded m_currentEntryIdx m_mpEntriesIdSegId m_currentSegmentId m_curSegFileSize m_currentSegFd
      set_loaded].
    + by eapply disk_keeps.
    + rewrite E3, E4, E5, E6. done.
    + rewrite E7. done.
    + rewrite E2. cbn [m_currentEntryIdx set_minSeg]. by rewrite Hidx.
    + rewrite E1. cbn [m_mpEntriesIdSegId set_minSeg]. by rewrite Hmap.
    + exists init, sid, rs. rewrite E8, E9, E10, Heq, list.last_snoc. repeat split; try done.
      by apply Hk.
Qed.

(** ** A process that starts again *)

Lemma reboot_disk c (segs : log) w : disk c segs w -> disk c segs (reboot w).
Proof.
  intros [[] ? ? ? ? ? ? ? ? ?]. split; try done.
Qed.

(** Open a log: construct the object, [Init], [Load]. *)
Definition open_log : M (LogCleanWal * world) (result Code unit * list (list (Z * E))) :=
  r ← Init host;
  match r with Bad rc m => mret (Bad rc m, []) | Good _ => Load host end.

Lemma open_log_spec c (segs : log) o w Q :
  cfg_ok c -> disk c segs w -> roomy c segs -> fresh c o ->
  (forall bs o' w', concat bs = loaded (log_recs segs) -> live c (started segs) o' w' ->
     Q (Good tt, bs) (o', w')) ->
  wp open_log (o, w) Q.
Proof.
  intros Hc Hd Hroom Hf HQ. unfold open_log. wbind. eapply init_spec; [done|done|done|].
  intros o1 w1 Hi. by eapply load_spec.
Qed.

(** Several appends in a row, with the ids they return. *)
Fixpoint append_all (es : list E) : M (LogCleanWal * world) (result Code (list Z)) :=
  match es with
  | [] => mret (Good [])
  | e :: es =>
      id ←! AppendEntry host e;
      ids ←! append_all es;
      mret (Good (id :: ids))
  end.

Fixpoint numbered {A} (i : Z) (l : list A) : list (Z * A) :=
  match l with [] => [] | a :: l => (i, a) :: numbered (i + 1) l end.

Lemma live_shape c (segs : log) o w :
  live c segs o w -> exists init rs, segs = init ++ [(m_currentSegmentId o, rs)] /\ 0 < m_currentSegmentId o.
Proof.
  intros [[Hd _ _ _ _ (init&sid&rs&->&->&_)] _]. exists init, rs. split; [done|].
  pose proof (d_segs _ _ _ Hd) as Hse. apply Forall_app in Hse as [_ Hse].
  inversion_clear Hse as [|? ? (?&_) _]. simpl in *. lia.
Qed.

Lemma live_next c (segs : log) e o w o' w' :
  live c segs o w -> live c (log_append c e segs) o' w' ->
  m_currentSegmentId o' <= m_currentSegmentId o + 1 /\
  loaded (log_recs (log_append c e segs)) = loaded (log_recs segs) ++ [(last_idx segs + 1, reload e)] /\
  last_idx (log_append c e segs) = last_idx segs + 1.
Proof.
  intros (init&rs&->&_)%live_shape (init'&rs'&Heq&_)%live_shape.
  split; [|split; [by rewrite log_recs_append, loaded_app|by rewrite last_idx_append]].
  rewrite log_append_eq in Heq. destruct (_ <=? _).
  - change (?a :: [?b]) with ([a] ++ [b]) in Heq. rewrite app_assoc in Heq.
    apply app_inj_tail in Heq as [_ [= <- _]]. lia.
  - apply app_inj_tail in Heq as [_ [= <- _]]. lia.
Qed.

Lemma append_all_spec c es : forall (segs : log) o w Q,
  cfg_ok c -> live c segs o w -> Forall (accepts c) es ->
  last_idx segs + zlen es < 18446744073709551615 ->
  m_currentSegmentId o + zlen es < 18446744073709551615 ->
  (forall segs' o' w', live c segs' o' w' ->
     loaded (log_recs segs') = loaded (log_recs segs) ++ numbered (last_idx segs + 1) (map reload es) ->
     Q (Good (map fst (numbered (last_idx segs + 1) es))) (o', w')) ->
  wp (append_all es) (o, w) Q.
Proof.
  induction es as [|e es IH]; intros segs o w Q Hc Hl Hes Hid Hseg HQ; cbn [append_all].
  - wpure. apply (HQ segs); [done|]. by rewrite app_nil_r.
  - inversion_clear Hes as [|? ? He Hes']. rewrite zlen_cons in *. pose proof (zlen_nonneg es).
    apply wp_rbind. eapply append_spec; [done|done|done|lia|lia|]. intros o1 w1 Hl1.
    destruct (live_next _ _ _ _ _ _ _ Hl Hl1) as (Hs1&Hr1&Hi1). apply wp_rbind.
    eapply IH; [done|exact Hl1|done|lia|lia|]. intros segs' o' w' Hl' Hrec. wpure.
    rewrite Hi1. apply (HQ segs'); [done|]. rewrite Hrec, Hr1, Hi1, <- app_assoc. done.
Qed.
End restart.
