(* ===== verification/WalTheorems.v ===== *)
(** * What the write-ahead log guarantees

    The theorems about [LogCleanWal] for every entry type that keeps the
    contract [IEntryLaws], and runs of the log on a concrete directory. *)

From S2P Require Import Prelude Codec Buffer Posix Files Quiet Records Entries KvEntries.
From S2P Require Import Wal WalFormat WalLoad WalSpec WalRestart.

(** ** A concrete log *)

#[local] Existing Instance demo_pool.
#[local] Existing Instance demo_pb.

Definition demo_put (k v : list byte) : wal_entry := PutE (Some (MkEntry k v)).

Definition demo_log : list (Z * list (lrec wal_entry)) :=
  [(1, [LRec 1 2 (demo_put [x61] [x31]); LRec 1 3 demo_delete]); (2, [])].
Definition demo_disk (files : gmap string (list byte)) : world :=
  World files {["/w"]} ∅ 3 0 ∅ ∅ [].
Definition demo_files : gmap string (list byte) :=
  {["/w/lclog.segment.1" := seg_file (demo_log !!! 0%nat).2;
    "/w/lclog.segment.2" := seg_file (demo_log !!! 1%nat).2;
    "/w/readme" := [x00]]}.

Definition demo_cfg : wal_config := WalCfg "/w" 1 64 64 (fun p => demo_files !! p) {["/w"]}.

Lemma demo_cfg_ok : cfg_ok demo_cfg.
Proof. unfold cfg_ok. simpl. lia. Qed.

Lemma demo_accepts e : e = demo_put [x61] [x31] \/ e = demo_delete -> accepts demo_cfg e.
Proof.
  intros [-> | ->]; (split; [|vm_compute; discriminate]); [done|]. exists [x6b; x31]. done.
Qed.

Lemma demo_rec_ok r : In r (log_recs demo_log) -> rec_ok r.
Proof.
  intros [<-|[<-|[]]]; (split; [|split; [simpl; lia|vm_compute; reflexivity]]); [done|].
  exists [x6b; x31]. done.
Qed.

Lemma demo_disk_ok : disk demo_cfg demo_log (demo_disk demo_files).
Proof.
  split.
  - split; [done|done|done|]. intros p. simpl. rewrite elem_of_singleton. by intros ->.
  - intros d. vm_compute. set_solver.
  - simpl. set_solver.
  - intros s Hs. apply list_elem_of_In in Hs as [<-|[<-|[]]]; vm_compute; reflexivity.
  - intros p _ Hp Hc. simpl in Hp. unfold demo_files in Hp. rewrite !lookup_insert_is_Some, lookup_singleton_is_Some in Hp.
    destruct Hp as [<-|[_ [<-|[_ <-]]]]; [| |discriminate Hc].
    + eexists. split; [by left|done].
    + eexists. split; [by right; left|done].
  - intros id. simpl. rewrite elem_of_singleton. unfold segment_path. discriminate.
  - split; vm_compute; reflexivity.
  - by split.
  - repeat constructor.
  - apply list.Forall_forall. intros s Hs. apply list_elem_of_In in Hs as [<-|[<-|[]]];
      (split; [simpl; lia|]); (split; [|vm_compute; reflexivity]);
      apply list.Forall_forall; intros r Hr%list_elem_of_In; apply demo_rec_ok; [exact Hr|destruct Hr].
Qed.

Definition demo_object : LogCleanWal := MkWal "/w" ∅ 1 1 (-1) "" 0 false false 0 0 [] 1 64 64.
Lemma demo_fresh : fresh demo_cfg demo_object.
Proof. by split. Qed.
Lemma demo_roomy : roomy demo_cfg demo_log.
Proof. intros s [= <-]. vm_compute. reflexivity. Qed.

(** ** The format *)

(** For every entry, on either byte order and whatever
    the pool memory held, the buffer [AppendEntry] fills is the documented
    record: content length, version, id, content, and the record's offset. *)
Theorem wal_record_layout (host : byte_order) `{MemAlloc} {E} `{IEntryLaws E} (e : E) (ver id off : Z)
    (He : encodable e) (Hl : zlen (enc e) + 17 < 2147483648) :
  exists eb, Encode e = Some eb /\
    build_record host ver id off eb =
    be_bytes 4 (zlen (enc e)) ++ [z2b ver] ++ be_bytes 8 id ++ enc e ++ be_bytes 4 off.
Proof.
  destruct (Encode_enc e He ltac:(lia)) as (eb&Hb&Hc&Hv&Ha). exists eb. split; [done|].
  by apply build_record_spec.
Qed.

Lemma wal_record_layout_witness :
  exists eb, Encode demo_delete = Some eb /\
    build_record LITTLE_ENDIAN 1 2 4 eb =
    be_bytes 4 (zlen (enc demo_delete)) ++ [z2b 1] ++ be_bytes 8 2 ++ enc demo_delete ++ be_bytes 4 4.
Proof.
  apply (wal_record_layout LITTLE_ENDIAN demo_delete 1 2 4).
  - exists [x6b; x31]. done.
  - vm_compute. reflexivity.
Defined.

(** A segment of complete records is loaded without
    error for every batch size, in particular one that splits records: the
    callback's batches, put together, are the entries of the file in order with
    their ids, the object has noted each of them, the file's size is returned,
    and no descriptor stays open. *)
Theorem wal_load_batches (host : byte_order) `{MemAlloc} {E} `{IEntryLaws E}
    (p : string) (segId : Z) (rs : list (lrec E)) (o : LogCleanWal) (w : world)
    (Hw : wf w) (Hp : w_files w !! p = Some (seg_file rs)) (Hrs : Forall rec_ok rs)
    (Hb : 0 < m_batchReadSize o) (Hs : zlen (seg_file rs) + m_batchReadSize o < 4294967296) :
  wp (load_segment host p segId) (o, w) (fun r s => exists bs,
    r = (Good (zlen (seg_file rs)), bs) /\ concat bs = loaded rs /\
    s.1 = foldl (noted segId) o rs /\ keeps w s.2).
Proof.
  pose proof (zlen_nonneg (seg_file rs)).
  eapply (load_segment_spec host p segId rs []); rewrite ?app_nil_r; [done..|apply torn_nil9|done|done|].
  intros bs w' Hk [_ Hd]. exists bs. cbn [load_end]. rewrite u32_small by lia. auto.
Qed.

Definition demo_batch (n : Z) : LogCleanWal := MkWal "/w" ∅ 1 1 (-1) "" 0 false true 0 0 [] 1 64 n.

Lemma wal_load_batches_witness :
  wp (load_segment LITTLE_ENDIAN "/w/lclog.segment.1" 1) (demo_batch 5, demo_disk demo_files)
    (fun r s => exists bs,
      r = (Good (zlen (seg_file (log_recs demo_log))), bs) /\ concat bs = loaded (log_recs demo_log) /\
      s.1 = foldl (noted 1) (demo_batch 5) (log_recs demo_log) /\ keeps (demo_disk demo_files) s.2).
Proof.
  apply (wal_load_batches LITTLE_ENDIAN "/w/lclog.segment.1" 1 (log_recs demo_log) (demo_batch 5)
    (demo_disk demo_files)).
  - exact (d_wf _ _ _ demo_disk_ok).
  - vm_compute. reflexivity.
  - apply list.Forall_forall. intros r Hr%list_elem_of_In. by apply demo_rec_ok.
  - done.
  - vm_compute. reflexivity.
Defined.

(** C10 wal_load_torn: a segment that ends inside a record, as a crash in the
    middle of an append leaves it, is reported as corrupt for every batch size;
    what the callback got before that is a prefix of the entries. *)
Theorem wal_load_torn (host : byte_order) `{MemAlloc} {E} `{IEntryLaws E}
    (p : string) (segId : Z) (rs : list (lrec E)) (tail : list byte) (o : LogCleanWal) (w : world)
    (Hw : wf w) (Hp : w_files w !! p = Some (seg_file rs ++ tail)) (Hrs : Forall rec_ok rs)
    (Ht : torn 9 tail) (Hne : tail <> []) (Hb : 0 < m_batchReadSize o)
    (Hs : zlen (seg_file rs ++ tail) + m_batchReadSize o < 4294967296) :
  wp (load_segment host p segId) (o, w) (fun r s => exists bs,
    r = (Bad FileCorrupt FileCorruptError, bs) /\ concat bs `prefix_of` loaded rs).
Proof.
  eapply (load_segment_spec host p segId rs tail); [done..|].
  intros bs w' Hk [Hd _]. exists bs. by destruct tail.
Qed.

Definition demo_torn : gmap string (list byte) :=
  {["/w/lclog.segment.1" := seg_file (log_recs demo_log) ++ take 19 (rec_of 62 (LRec 1 4 demo_delete))]}.

Lemma wal_load_torn_witness :
  wp (load_segment LITTLE_ENDIAN "/w/lclog.segment.1" 1) (demo_batch 16, demo_disk demo_torn)
    (fun r s => exists bs, r = (Bad FileCorrupt FileCorruptError, bs) /\
       concat bs `prefix_of` loaded (log_recs demo_log)).
Proof.
  apply (wal_load_torn LITTLE_ENDIAN "/w/lclog.segment.1" 1 (log_recs demo_log)
    (take 19 (rec_of 62 (LRec 1 4 demo_delete))) (demo_batch 16) (demo_disk demo_torn)).
  - split; [done|done|done|]. intros q. simpl. rewrite elem_of_singleton. by intros ->.
  - vm_compute. reflexivity.
  - apply list.Forall_forall. intros r Hr%list_elem_of_In. by apply demo_rec_ok.
  - apply torn_rec; [|vm_compute; lia]. split; [exists [x6b; x31]; done|].
    split; [simpl; lia|vm_compute; reflexivity].
  - discriminate.
  - done.
  - vm_compute. reflexivity.
Defined.

(** ** Appending *)

(** A loaded object on the concrete log. *)
Definition demo_live : LogCleanWal * world :=
  (open_log (E := wal_entry) LITTLE_ENDIAN (demo_object, demo_disk demo_files)).2.

Lemma demo_live_ok : live demo_cfg demo_log demo_live.1 demo_live.2.
Proof.
  assert (wp (open_log (E := wal_entry) LITTLE_ENDIAN) (demo_object, demo_disk demo_files)
    (fun _ s => live demo_cfg demo_log s.1 s.2)) as Hwp.
  { apply (open_log_spec LITTLE_ENDIAN demo_cfg demo_log demo_object (demo_disk demo_files));
      [exact demo_cfg_ok|exact demo_disk_ok|exact demo_roomy|exact demo_fresh|].
    intros bs o' w' _ Hl. exact Hl. }
  apply wp_run in Hwp as (r&s&Hr&Hl). unfold demo_live. rewrite Hr. exact Hl.
Qed.

(** C7 wal_append: on an open log, [AppendEntry] of an acceptable entry
    returns the next id and takes the log to the abstract one with the record at
    the end of the current segment; when that reaches the maximal size, the next
    segment file is created with its header and becomes the current one.  The
    representation invariant (files, current descriptor and its offset, sizes, id
    map) holds again. *)
Theorem wal_append (host : byte_order) `{MemAlloc} {E} `{IEntryLaws E}
    (c : wal_config) (segs : list (Z * list (lrec E))) (e : E) (o : LogCleanWal) (w : world)
    (Hc : cfg_ok c) (Hl : live c segs o w) (He : accepts c e)
    (Hid : last_idx segs + 1 < 18446744073709551615)
    (Hseg : m_currentSegmentId o < 18446744073709551614) :
  wp (AppendEntry host e) (o, w) (fun r s =>
    r = Good (last_idx segs + 1) /\ live c (log_append c e segs) s.1 s.2).
Proof. eapply append_spec; eauto. Qed.

Lemma wal_append_witness :
  wp (AppendEntry LITTLE_ENDIAN demo_delete) (demo_live.1, demo_live.2) (fun r s =>
    r = Good (last_idx demo_log + 1) /\ live demo_cfg (log_append demo_cfg demo_delete demo_log) s.1 s.2).
Proof.
  apply (wal_append LITTLE_ENDIAN demo_cfg demo_log demo_delete demo_live.1 demo_live.2).
  - apply demo_cfg_ok.
  - apply demo_live_ok.
  - apply demo_accepts. by right.
  - vm_compute. reflexivity.
  - vm_compute. reflexivity.
Defined.

(** [AppendEntry] refuses, with the documented code
    and without touching the object or the files, before [Init], before [Load],
    when the entry cannot be encoded, and when its record is larger than
    [m_maxEntrySize]. *)
Theorem wal_append_rejects (host : byte_order) `{MemAlloc} {E} `{IEntryLaws E} (e : E)
    (o : LogCleanWal) (w : world) :
  (m_bInited o = false ->
     AppendEntry host e (o, w) = (Ok (Bad Uninited UninitializedError), (o, w))) /\
  (m_bInited o = true -> m_bLoaded o = false ->
     AppendEntry host e (o, w) = (Ok (Bad Unloaded UnloadedError), (o, w))) /\
  (m_bInited o = true -> m_bLoaded o = true -> Encode e = None ->
     AppendEntry host e (o, w) = (Ok (Bad EncodeEntryError EncodeEntryErrorMsg), (o, w))) /\
  (m_bInited o = true -> m_bLoaded o = true -> encodable e ->
     m_maxEntrySize o < zlen (enc e) + 17 < 2147483648 ->
     AppendEntry host e (o, w) = (Ok (Bad EntryBytesSizeOverflow EntryBytesSizeOverflowError), (o, w))).
Proof.
  unfold AppendEntry, mbind, M_bind, getO. cbn [fst]. repeat split.
  - by intros ->.
  - intros Hi Hlo. rewrite Hi. cbn [negb fst]. by rewrite Hlo.
  - intros Hi Hlo He. rewrite Hi. cbn [negb fst]. rewrite Hlo. cbn [negb]. by rewrite He.
  - intros Hi Hlo He Hsz. rewrite Hi. cbn [negb fst]. rewrite Hlo. cbn [negb]. destruct (Encode_enc e He) as (eb&->&_&_&->); [lia|]. cbn [negb].
    pose proof (zlen_nonneg (enc e)). unfold LOGCLEAN_WAL_ENTRY_EXTRA_FIELDS_SIZE.
    rewrite (u32_small (zlen (enc e))), u32_small by lia.
    cbn [fst]. destruct (Z.ltb_spec (m_maxEntrySize o) (zlen (enc e) + 17)); [done|lia].
Qed.

(** ** Opening and durability *)

(** C8 wal_reopen: a new object on a directory that holds a log, run through
    [Init] and [Load] without faults, terminates without error, hands the
    callback exactly the entries of the log in order, and ends open on the same
    log (an empty directory becomes a log with one empty segment). *)
Theorem wal_reopen (host : byte_order) `{MemAlloc} {E} `{IEntryLaws E}
    (c : wal_config) (segs : list (Z * list (lrec E))) (o : LogCleanWal) (w : world)
    (Hc : cfg_ok c) (Hd : disk c segs w) (Hr : roomy c segs)
    (Hf : LogCleanWal_make (c_root c) (c_ver c) (c_segmax c) (c_batch c) = Ok o) :
  wp (open_log (E := E) host) (o, w) (fun r s => exists bs,
    r = (Good tt, bs) /\ concat bs = loaded (log_recs segs) /\ live c (started segs) s.1 s.2).
Proof. eapply open_log_spec; eauto using make_fresh. Qed.

Lemma wal_reopen_witness :
  wp (open_log (E := wal_entry) LITTLE_ENDIAN) (demo_object, demo_disk demo_files) (fun r s => exists bs,
    r = (Good tt, bs) /\ concat bs = loaded (log_recs demo_log) /\
    live demo_cfg (started demo_log) s.1 s.2).
Proof.
  apply (wal_reopen LITTLE_ENDIAN demo_cfg demo_log demo_object (demo_disk demo_files)).
  - exact demo_cfg_ok.
  - exact demo_disk_ok.
  - exact demo_roomy.
  - reflexivity.
Defined.

(** C3 wal_durable: entries that were appended (over any number of segment
    roll-overs) survive the process: after all appends returned their ids, a
    process that starts again on these files with the same configuration is
    given the earlier entries and then the new ones, in order, under the ids the
    appends returned. *)
Theorem wal_durable (host : byte_order) `{MemAlloc} {E} `{IEntryLaws E}
    (c : wal_config) (segs : list (Z * list (lrec E))) (es : list E) (o o2 : LogCleanWal) (w : world)
    (Hc : cfg_ok c) (Hl : live c segs o w) (He : Forall (accepts c) es)
    (Hid : last_idx segs + zlen es < 18446744073709551615)
    (Hseg : m_currentSegmentId o + zlen es < 18446744073709551615)
    (Hf : LogCleanWal_make (c_root c) (c_ver c) (c_segmax c) (c_batch c) = Ok o2) :
  wp (append_all host es) (o, w) (fun r s =>
    r = Good (map fst (numbered (last_idx segs + 1) es)) /\
    wp (open_log host) (o2, reboot s.2) (fun r2 _ => exists bs,
      r2 = (Good tt, bs) /\
      concat bs = loaded (log_recs segs) ++ numbered (last_idx segs + 1) (map reload es))).
Proof.
  eapply append_all_spec; [done..|]. intros segs' o' w' [[Hd _ _ _ _ _] Hroom] Hrec. split; [done|].
  eapply open_log_spec; [done|by apply reboot_disk|done|by apply make_fresh|].
  intros bs o3 w3 Hbs _. exists bs. by rewrite Hbs, Hrec.
Qed.

Lemma wal_durable_witness :
  wp (append_all LITTLE_ENDIAN [demo_put [x61] [x31]; demo_delete; demo_delete]) (demo_live.1, demo_live.2)
    (fun r s =>
      r = Good (map fst (numbered (last_idx demo_log + 1) [demo_put [x61] [x31]; demo_delete; demo_delete])) /\
      wp (open_log LITTLE_ENDIAN) (demo_object, reboot s.2) (fun r2 _ => exists bs,
        r2 = (Good tt, bs) /\
        concat bs = loaded (log_recs demo_log) ++
          numbered (last_idx demo_log + 1) (map reload [demo_put [x61] [x31]; demo_delete; demo_delete]))).
Proof.
  apply (wal_durable LITTLE_ENDIAN demo_cfg demo_log [demo_put [x61] [x31]; demo_delete; demo_delete]
    demo_live.1 demo_object demo_live.2).
  - exact demo_cfg_ok.
  - exact demo_live_ok.
  - repeat constructor; apply demo_accepts; tauto.
  - vm_compute. reflexivity.
  - vm_compute. reflexivity.
  - reflexivity.
Defined.

(** [fdatasync] in any environment. *)
Lemma wpc_fdatasync w fd d (Q : Z -> world -> Prop) (R : stop -> world -> Prop) :
  w_fds w !! fd = Some d ->
  (forall r w', w_files w' = w_files w -> Q r w') -> (forall w', w_files w' = w_files w -> R Crashed w') ->
  wpc (sys_fdatasync fd) w Q R.
Proof.
  intros Hd HQ HR. unfold wpc, sys_fdatasync, mbind, M_bind, sys_enter.
  destruct (w_sched w) as [|[] l]; cbn; rewrite ?Hd; try (by apply HQ); by apply HR.
Qed.

(** C9 wal_append_any_fault: whatever the environment does during an append
    that does not fill the segment (errors, partial writes, a kill at any call),
    the only file that changes is the current segment, and it ends with a prefix
    of the new record, the whole record if the id was returned: a later load
    sees the old entries, those and the new one, or a torn record. *)
Theorem wal_append_any_fault (host : byte_order) `{MemAlloc} {E} `{IEntryLaws E}
    (c : wal_config) (init : list (Z * list (lrec E))) (sid : Z) (rs : list (lrec E)) (e : E)
    (o : LogCleanWal) (w : world) (sched : list event)
    (Hc : cfg_ok c) (Hl : live c (init ++ [(sid, rs)]) o w) (He : accepts c e)
    (Hid : last_idx (init ++ [(sid, rs)]) + 1 < 18446744073709551615)
    (Hfull : zlen (seg_file rs) + zlen (enc e) + 17 < c_segmax c) :
  let idx := last_idx (init ++ [(sid, rs)]) + 1 in
  let rec := rec_of (zlen (seg_file rs)) (LRec (c_ver c) idx e) in
  let left_with k (w' : world) :=
    w_files w' = <[segment_path (c_root c) sid := seg_file rs ++ take k rec]> (w_files w) in
  wpc (AppendEntry host e) (o, set_sched sched w)
    (fun res s => exists k, left_with k s.2 /\
       (res = Good idx /\ k = length rec \/ exists m, res = Bad FileSystemError m))
    (fun st s => st = Crashed /\ exists k, left_with k s.2).
Proof.
  intros idx rec left_with. eapply wpc_conv; [by apply (append_to_write host c init sid rs e o w)|].
  fold idx rec.
  destruct Hl as [[Hd (Hr&Hv&Hm&Hb) _ Hidx _ (i'&s'&r'&Heq&Hcur&Hsz&Hfd0&Hfd)] _].
  apply app_inj_tail in Heq as [<- [= <- <-]]. destruct Hc as (Hc1&Hc2&Hc3).
  pose proof (zlen_nonneg (enc e)). pose proof (zlen_nonneg (seg_file rs)).
  unfold write_record. cpure. cbn [m_currentSegFd set_entryIdx].
  apply wpc_rbind, wpc_check_io.
  eapply wpc_WriteFully; [lia|apply rec_of_nonempty|exact Hfd
    |apply (d_files _ _ _ Hd (sid, rs)); set_solver|simpl; lia| |].
  - intros k w' (Hwf&Hwd&_) Hk. cbn [fd_path fd_off] in *. rewrite file_write_end in Hwf.
    assert (left_with k w') as Hk' by exact Hwf.
    case_bool_decide as Hkl; (split; [intros Hr1|intros Hr1]).
    + pose proof (zlen_nonneg rec). lia.
    + apply wpc_rbind, wpc_check_io. eapply wpc_fdatasync; [rewrite Hwd; apply lookup_insert_eq| |].
      * intros r2 w2 Hw2. split; [intros _ m; exists k; split; [by unfold left_with; cbn [snd]; rewrite Hw2|eauto]|].
        intros _. cpure. unfold roll_over. apply wpc_rbind. cpure.
        cbn [m_segmentMaxSize m_curSegFileSize set_map set_segSize set_entryIdx]. rewrite Hm, Hsz.
        rewrite u32_small by lia. destruct (Z.leb_spec (c_segmax c) (zlen (seg_file rs) + (zlen (enc e) + 17))); [lia|].
        cpure. exists k. split; [by unfold left_with; cbn [snd]; rewrite Hw2|by left].
      * intros w2 Hw2. split; [done|]. exists k. unfold left_with. cbn [snd]. by rewrite Hw2.
    + intros m. exists k. split; [done|eauto].
    + done.
  - intros k w' (Hwf&_) Hk. cbn [fd_path fd_off] in *. rewrite file_write_end in Hwf. split; [done|]. by exists k.
Qed.

Lemma wal_append_any_fault_witness :
  let idx := last_idx ([demo_log !!! 0%nat] ++ [(2, [])]) + 1 in
  let rec := rec_of (zlen (seg_file (E := wal_entry) [])) (LRec (c_ver demo_cfg) idx demo_delete) in
  let left_with k (w' : world) :=
    w_files w' = <[segment_path (c_root demo_cfg) 2 := seg_file [] ++ take k rec]> (w_files demo_live.2) in
  wpc (AppendEntry LITTLE_ENDIAN demo_delete) (demo_live.1, set_sched [Partial 7; Kill] demo_live.2)
    (fun res s => exists k, left_with k s.2 /\
       (res = Good idx /\ k = length rec \/ exists m, res = Bad FileSystemError m))
    (fun st s => st = Crashed /\ exists k, left_with k s.2).
Proof.
  apply (wal_append_any_fault LITTLE_ENDIAN demo_cfg [demo_log !!! 0%nat] 2 [] demo_delete
    demo_live.1 demo_live.2 [Partial 7; Kill]).
  - exact demo_cfg_ok.
  - exact demo_live_ok.
  - apply demo_accepts. by right.
  - vm_compute. reflexivity.
  - vm_compute. reflexivity.
Defined.

(** ** Truncation and restart

    [Truncate] records the id of an entry, [Init] reads the record as the id of a
    segment; and when the whole log is in the current segment, [Truncate] returns
    without removing the record.  A log of three entries in one segment is
    truncated at the second one and appended to; every call succeeds, and the
    next start deletes the segment with all entries. *)

Definition big_object : LogCleanWal := MkWal "/w" ∅ 1 1 (-1) "" 0 false false 0 0 [] 1 4096 64.

Definition truncate_and_append :
    M (LogCleanWal * world) (result Code (list Z) * result Code unit * result Code Z) :=
  _ ← open_log (E := wal_entry) LITTLE_ENDIAN;
  r1 ← append_all LITTLE_ENDIAN [demo_put [x61] [x31]; demo_delete; demo_delete];
  r2 ← Truncate LITTLE_ENDIAN 3;
  r3 ← AppendEntry LITTLE_ENDIAN demo_delete;
  mret (r1, r2, r3).

Theorem truncate_then_restart_loses :
  let '(r, s) := truncate_and_append (big_object, demo_disk ∅) in
  r = Ok (Good [2; 3; 4], Good tt, Good 5) /\
  (open_log (E := wal_entry) LITTLE_ENDIAN (big_object, reboot s.2)).1 = Ok (Good tt, []).
Proof. vm_compute. split; reflexivity. Qed.
