(* ===== verification/Checkpoint.v ===== *)
(** * Checkpoints (src/checkpoint, src/checkpoint/checkpoints/entry-order-checkpoint.{h,cc})

    [EntryOrderCheckpoint.t] is the object with the members of the class; the
    seven paths are functions of the root directory, as the constructor sets
    them.  [Init], [Load] and [Save] are the methods of [ICheckpoint].  A load
    callback is not called: the batches it would be given are returned in order.
    A traveller is the entries it has still to hand out with the largest id; the
    hooks [Save] calls on it are returned.

    [Save] forks.  The child runs [do_save_in_child] on the same files with its
    own copy of descriptors and lock table and may die; the parent waits for it
    and looks at the files. *)

From S2P Require Import Prelude Codec Buffer Posix Files Entries.

Definition EOCP_MAGIC_NO : Z := 1936548720. (* 0x736d6370 *)
Definition EOCP_MAGIC_NO_LEN : Z := 4.
Definition EOCP_PREFIX_NAME : string := "smcp".
Definition EOCP_SAVE_START_FLAG : string := "smcp.start".
Definition EOCP_COMPLETE_FLAG : string := "smcp.ok".
Definition EOCP_META_SUFFIX : string := ".meta".
Definition EOCP_NEW_FILE_SUFFIX : string := ".new".
Definition EOCP_LOCK_NAME : string := ".lock".
Definition EOCP_SIZE_LEN : Z := 4.
Definition EOCP_VERSION_LEN : Z := 1.
Definition EOCP_ENTRY_HEADER_LEN : Z := 5.
Definition EOCP_CONTENT_OFFSET : Z := 5.
Definition EOCP_ENTRY_EXTRA_FIELDS_SIZE : Z := 9.
Definition EOCP_INVALID_ENTRY_ID : Z := 0.

Module EntryOrderCheckpoint.

(** ** errors.h *)

Inductive Code :=
  | Uninited | Locking | FileCorrupt | FileSystemError | EncodeEntryError | DecodeEntryError
  | MissingFile | ForkError | WaitChildError | UnknownChildProcessError.

Definition FileCorruptError := Msg " file corrupt".
Definition UninitializedError := Msg " has not been initialized".
Definition EncodeEntryErrorMsg := Msg " encode entry error".
Definition DecodeEntryErrorMsg := Msg " decode entry error".
Definition MissingFileError := Msg " file is missing".
Definition IsLockingError := Msg " is in locking state".
Definition UnknownChildError := Msg " unknown child process error".

(** ** class EntryOrderCheckpoint *)

Record t := Make {
  m_sRootDir : string;
  m_bInited : bool;
  m_writeEntryVersion : Z;
  m_batchReadSize : Z
}.

Definition m_sCpFilePath (o : t) : string := m_sRootDir o +:+ "/" +:+ EOCP_PREFIX_NAME.
Definition m_sNewCpFilePath (o : t) : string := m_sCpFilePath o +:+ EOCP_NEW_FILE_SUFFIX.
Definition m_sNewCpSaveOkFilePath (o : t) : string := m_sRootDir o +:+ "/" +:+ EOCP_COMPLETE_FLAG.
Definition m_sCpMetaFilePath (o : t) : string := m_sRootDir o +:+ "/" +:+ EOCP_META_SUFFIX.
Definition m_sNewCpMetaFilePath (o : t) : string := m_sCpMetaFilePath o +:+ EOCP_NEW_FILE_SUFFIX.
Definition m_sNewStartFlagFilePath (o : t) : string := m_sRootDir o +:+ "/" +:+ EOCP_SAVE_START_FLAG.
Definition m_sLockPath (o : t) : string := m_sRootDir o +:+ "/" +:+ EOCP_LOCK_NAME.

Definition set_inited b (o : t) : t :=
  Make (m_sRootDir o) b (m_writeEntryVersion o) (m_batchReadSize o).

Abbreviation CM := (M (t * world)).
Abbreviation CR A := (M (t * world) (result Code A)).

(** [if (-1 == Unlink(path)) return CheckpointResult(FileSystemError, ...)] *)
Definition unlink_or_fail (p : t -> string) : CR unit :=
  path ← getO p;
  _ ←! check_io (FileUtils.Unlink path) FileSystemError;
  mret (Good tt).

(** ** State of the directory *)

Definition is_completed : CM bool :=
  lock ← getO m_sLockPath;
  start ← getO m_sNewStartFlagFilePath;
  okf ← getO m_sNewCpSaveOkFilePath;
  b1 ← io (FileUtils.Exist lock);
  if b1 : bool then mret false
  else
    b2 ← io (FileUtils.Exist start);
    if b2 : bool then mret false
    else
      b3 ← io (FileUtils.Exist okf);
      mret (negb b3).

Definition clean_new_cp_tmp : CR unit :=
  _ ←! unlink_or_fail m_sNewCpMetaFilePath;
  _ ←! unlink_or_fail m_sNewCpFilePath;
  _ ←! unlink_or_fail m_sNewStartFlagFilePath;
  _ ←! unlink_or_fail m_sNewCpSaveOkFilePath;
  mret (Good tt).

Definition replace_old_checkpoint : CR unit :=
  _ ←! unlink_or_fail m_sCpMetaFilePath;
  _ ←! unlink_or_fail m_sCpFilePath;
  meta ← getO m_sCpMetaFilePath;
  newMeta ← getO m_sNewCpMetaFilePath;
  cp ← getO m_sCpFilePath;
  newCp ← getO m_sNewCpFilePath;
  _ ←! check_io (sys_rename newMeta meta) FileSystemError;
  _ ←! check_io (sys_rename newCp cp) FileSystemError;
  mret (Good tt).

Definition check_and_recover : CR unit :=
  b ← is_completed;
  if b : bool then mret (Good tt)
  else
    okf ← getO m_sNewCpSaveOkFilePath;
    b ← io (FileUtils.Exist okf);
    if b : bool then
      _ ←! replace_old_checkpoint;
      _ ←! check_io (sys_unlink okf) FileSystemError;
      mret (Good tt)
    else clean_new_cp_tmp.

Definition load_meta : CR Z :=
  meta ← getO m_sCpMetaFilePath;
  b ← io (FileUtils.Exist meta);
  if negb b then mret (Good EOCP_INVALID_ENTRY_ID)
  else
    entryIdStr ← io (FileUtils.ReadAllString meta);
    '(rs, entryId) ← io (CommonUtils.ToUint46_t entryIdStr);
    if negb rs then mret (Bad FileCorrupt FileCorruptError)
    else mret (Good entryId).

Definition Init : CR unit :=
  root ← getO m_sRootDir;
  r ← (_ ←! check_io (FileUtils.CreateDirPath root) FileSystemError; check_and_recover);
  modO (set_inited true);;
  mret r.

Section checkpoint.
Context (host : byte_order) `{MemAlloc} {E : Type} `{IEntry E, EntryCreator E}.

(** ** Load *)

(** What one pass over the buffer leaves: the entries, the file offset of the
    next one, and the bytes that did not make a whole entry. *)
Record parsed := MkParsed { p_entries : list E; p_cpOffset : Z; p_left : option (list byte) }.

(** [while (offset < availableBufferSize)]; [base] is the buffer's address. *)
Fixpoint parse_batch (fuel : nat) (base : Z) (buffer : list byte) (avail : Z) (ok : bool)
    (offset cpEntryOffset : Z) (entries : list E) : CR parsed :=
  if negb (offset <? avail) then mret (Good (MkParsed entries cpEntryOffset None))
  else
    match fuel with
    | O => halt Diverged
    | S fuel =>
        let leftSize := avail - offset in
        '(notEnoughOneEntry, len) ←
          (if leftSize <? EOCP_ENTRY_HEADER_LEN then mret (true, 0)
           else
             len ← of_mem (ByteOrderUtils.ReadUInt32 host (drop (Z.to_nat offset) buffer));
             mret (leftSize <? u32 (EOCP_ENTRY_EXTRA_FIELDS_SIZE + len), len));
        if notEnoughOneEntry : bool then
          if negb ok then mret (Bad FileCorrupt FileCorruptError)
          else mret (Good (MkParsed entries cpEntryOffset (Some (slice offset leftSize buffer))))
        else
          let startPosOffset := u32 (EOCP_SIZE_LEN + EOCP_VERSION_LEN + len) in
          startPos ← of_mem (ByteOrderUtils.ReadUInt32 host
                       (drop (Z.to_nat (offset + startPosOffset)) buffer));
          if negb (startPos =? cpEntryOffset) then mret (Bad FileCorrupt FileCorruptError)
          else
            let contentStart := offset + EOCP_CONTENT_OFFSET in
            let b := view (base + contentStart) len (drop (Z.to_nat contentStart) buffer) in
            entry ← of_mem (entryCreator b);
            match Decode entry b with
            | None => mret (Bad DecodeEntryError DecodeEntryErrorMsg)
            | Some entry =>
                let forwardOffset := u32 (len + EOCP_ENTRY_EXTRA_FIELDS_SIZE) in
                parse_batch fuel base buffer avail ok (u32 (offset + forwardOffset))
                  (u32 (cpEntryOffset + forwardOffset)) (entries ++ [entry])
            end
    end.

(** [while (ok)]: read a batch behind what was left of the last one, parse it,
    hand the entries to the callback. *)
Fixpoint load_loop (fuel : nat) (fd maxId : Z) (left : list byte) (cpEntryOffset : Z)
    (batches : list (list E)) : CM (result Code Z * list (list E)) :=
  match fuel with
  | O => halt Diverged
  | S fuel =>
      batch ← getO m_batchReadSize;
      let readSize := batch + zlen left in
      (if u32 readSize <? readSize then halt Undefined else mret tt);;
      let base := mo_ptr (mp_Get readSize) in
      '(nRead, rbuf) ← io (IOUtils.ReadFully_V4 fd batch);
      if nRead =? -1 then r ← bad_errno FileSystemError; mret (r, batches)
      else if nRead =? 0 then
        if negb (zlen left =? 0) then mret (Bad FileCorrupt FileCorruptError, batches)
        else mret (Good maxId, batches)
      else
        let ok := nRead =? batch in
        let avail := nRead + zlen left in
        r ← parse_batch (Z.to_nat avail) base (left ++ rbuf) avail ok 0 cpEntryOffset [];
        match r with
        | Bad rc m => mret (Bad rc m, batches)
        | Good p =>
            let batches := batches ++ [p_entries p] in
            if ok then load_loop fuel fd maxId (default [] (p_left p)) (p_cpOffset p) batches
            else mret (Good maxId, batches)
        end
  end.

(** The part of [Load] behind [load_meta], for an id that is not the invalid one. *)
Definition load_file (maxId : Z) : CM (result Code Z * list (list E)) :=
  path ← getO m_sCpFilePath;
  b ← io (FileUtils.Exist path);
  if negb b then mret (Bad MissingFile MissingFileError, [])
  else
    fd ← io (FileUtils.Open path O_RDONLY false false);
    if fd =? -1 then r ← bad_errno FileSystemError; mret (r, [])
    else with_closer fd (
      fileSize ← io (FileUtils.GetFileSize_fd fd);
      if fileSize =? -1 then r ← bad_errno FileCorrupt; mret (r, [])
      else if fileSize <? EOCP_MAGIC_NO_LEN then mret (Bad FileCorrupt FileCorruptError, [])
      else
        '(nRead, header) ← io (IOUtils.ReadFully_V4 fd EOCP_MAGIC_NO_LEN);
        if nRead =? -1 then r ← bad_errno FileSystemError; mret (r, [])
        else
          magicNo ← of_mem (ByteOrderUtils.ReadUInt32 host header);
          if negb (magicNo =? EOCP_MAGIC_NO) then mret (Bad FileCorrupt FileCorruptError, [])
          else
            batch ← getO m_batchReadSize;
            load_loop (Z.to_nat (fileSize / batch + 2)) fd maxId [] EOCP_MAGIC_NO_LEN []).

Definition Load : CM (result Code Z * list (list E)) :=
  inited ← getO m_bInited;
  if negb inited then mret (Bad Uninited UninitializedError, [])
  else
    metaRs ← load_meta;
    match metaRs with
    | Bad rc m => mret (Bad rc m, [])
    | Good id =>
        if id =? EOCP_INVALID_ENTRY_ID then mret (Good EOCP_INVALID_ENTRY_ID, [])
        else load_file id
    end.

(** ** Writing a new checkpoint *)

Definition create_new_meta_file (id : Z) : CR unit :=
  path ← getO m_sNewCpMetaFilePath;
  fd ← io (FileUtils.Open path O_WRONLY true true);
  if fd =? -1 then bad_errno FileSystemError
  else with_closer fd (
    let idStr := CommonUtils.ToString id in
    _ ←! check_io (IOUtils.WriteFully fd (Some (bytes_of idStr))) FileSystemError;
    mret (Good tt)).

(** [LOGFFUN] ends the process when the file cannot be created. *)
Definition create_new_checkpoint_file : CR unit :=
  path ← getO m_sNewCpFilePath;
  fd ← io (FileUtils.Open path O_WRONLY true true);
  if fd =? -1 then halt Aborted
  else with_closer fd (
    let header := ByteOrderUtils.WriteUInt32 host (replicate 4 x00) EOCP_MAGIC_NO in
    _ ←! check_io (IOUtils.WriteFully fd (Some header)) FileSystemError;
    mret (Good tt)).

Definition init_new_checkpoint (id : Z) : CR unit :=
  path ← getO m_sNewStartFlagFilePath;
  fd ← io (FileUtils.Open path O_WRONLY true false);
  if fd =? -1 then bad_errno FileSystemError
  else
    io (sys_close fd);;
    _ ←! create_new_meta_file id;
    create_new_checkpoint_file.

Definition create_ok_flag : CR unit :=
  path ← getO m_sNewCpSaveOkFilePath;
  fd ← io (FileUtils.Open path O_WRONLY true true);
  if fd =? -1 then bad_errno FileSystemError
  else
    _ ←! check_io (sys_close fd) FileSystemError;
    mret (Good tt).

(** The record [save_new_checkpoint] lays out in the pool buffer [wb]. *)
Definition build_record (version offset : Z) (eb : dbuf) : list byte :=
  let rawEntrySize := u32 (AvailableLength (db eb)) in
  let walEntrySize := u32 (rawEntrySize + EOCP_ENTRY_EXTRA_FIELDS_SIZE) in
  let mo := mp_Get walEntrySize in
  let bufferStart := mo_ptr mo in
  let wb := DBuf (Refresh bufferStart (bufferStart + walEntrySize - 1) bufferStart
                    (bufferStart + walEntrySize - 1) (Some bufferStart) true Buffer_default).1
              (mo_mem mo) in
  let wb := db_write (fun m => ByteOrderUtils.WriteUInt32 host m rawEntrySize) wb in
  let wb := db_op (MoveHeadBack EOCP_SIZE_LEN) wb in
  let wb := db_write (mem_write 0 [z2b version]) wb in
  let wb := db_op (MoveHeadBack EOCP_VERSION_LEN) wb in
  let wb := if Valid (db eb) then
              db_op (MoveHeadBack rawEntrySize) (db_write (mem_write 0 (db_content eb)) wb)
            else wb in
  let wb := db_write (fun m => ByteOrderUtils.WriteUInt32 host m offset) wb in
  slice 0 walEntrySize (db_mem wb).

(** A traveller: the entries [GetNextEntry] will still return, and [MaxId()]. *)
Record traveller := Traveller { tr_entries : list E; tr_MaxId : Z }.

(** [while ((entry = traveller->GetNextEntry()))] *)
Fixpoint save_entries (fd : Z) (entries : list E) (offset : Z) : CR unit :=
  match entries with
  | [] => mret (Good tt)
  | entry :: entries =>
      match Encode entry with
      | None => mret (Bad EncodeEntryError EncodeEntryErrorMsg)
      | Some eb =>
          version ← getO m_writeEntryVersion;
          let walEntrySize := u32 (u32 (AvailableLength (db eb)) + EOCP_ENTRY_EXTRA_FIELDS_SIZE) in
          _ ←! check_io (IOUtils.WriteFully fd (Some (build_record version offset eb))) FileSystemError;
          save_entries fd entries (u32 (offset + walEntrySize))
      end
  end.

Definition save_new_checkpoint (tr : traveller) : CR unit :=
  path ← getO m_sNewCpFilePath;
  fd ← io (FileUtils.Open path O_WRONLY false false);
  with_closer fd (
    _ ←! check_io (sys_lseek fd EOCP_MAGIC_NO_LEN SEEK_SET) FileSystemError;
    _ ←! save_entries fd (tr_entries tr) EOCP_MAGIC_NO_LEN;
    _ ←! check_io (sys_fdatasync fd) FileSystemError;
    mret (Good tt)).

(** ** Save *)

(** [CloseFile(lockFile)], then [Unlink(lockFile.path)]; [false] when one fails. *)
Definition drop_lock (lockFile : File) : CM bool :=
  r ← io (FileUtils.CloseFile lockFile);
  if r =? -1 then mret false
  else
    r ← io (FileUtils.Unlink (path lockFile));
    mret (negb (r =? -1)).

(** The end of [do_save_in_child], behind the lock: start flag, old checkpoint,
    ok flag. *)
Definition promote : CM unit :=
  start ← getO m_sNewStartFlagFilePath;
  r ← io (FileUtils.Unlink start);
  if r =? -1 then mret tt
  else
    rs ← replace_old_checkpoint;
    match rs with
    | Bad _ _ => mret tt
    | Good _ => okf ← getO m_sNewCpSaveOkFilePath; io (FileUtils.Unlink okf);; mret tt
    end.

Definition do_save_in_child (tr : traveller) : CM unit :=
  lockPath ← getO m_sLockPath;
  lockFile ← io (FileUtils.LockPath lockPath);
  if fd lockFile =? -1 then mret tt
  else
    loadMetaRs ← load_meta;
    match loadMetaRs with
    | Bad _ _ => mret tt
    | Good entryId =>
        if tr_MaxId tr <=? entryId then drop_lock lockFile;; mret tt
        else
          rs ← check_and_recover;
          match rs with
          | Bad _ _ => mret tt
          | Good _ =>
              rs ← init_new_checkpoint (tr_MaxId tr);
              match rs with
              | Bad _ _ => mret tt
              | Good _ =>
                  save_new_checkpoint tr;;
                  rs ← create_ok_flag;
                  match rs with
                  | Bad _ _ => mret tt
                  | Good _ =>
                      ok ← drop_lock lockFile;
                      if ok : bool then promote else mret tt
                  end
              end
          end
    end.

(** The hooks of the traveller, in the order they are called. *)
Inductive hook := Prepare | CompletePrepare.

(** [waitpid]: [EINTR] is retried, another error ends the wait. *)
Fixpoint wait_child (fuel : nat) : M world bool :=
  match fuel with
  | O => halt Diverged
  | S fuel =>
      e ← sys_enter;
      match e with
      | EFault => err ← get_errno; if err =? EINTR then wait_child fuel else mret false
      | _ => mret true
      end
  end.

Definition do_save_in_parent : CR Z :=
  n ← io (getS (fun w => length (w_sched w)));
  ok ← io (wait_child (S n));
  if negb ok then bad_errno WaitChildError
  else
    b ← is_completed;
    if b : bool then load_meta
    else mret (Bad UnknownChildProcessError UnknownChildError).

(** The child runs on the files and ends, one way or another; the descriptors,
    [errno] and [s_LockingFiles] of the parent are its own. *)
Definition run_child (body : CM unit) : CM unit := fun s =>
  match body s with
  | (Stop Diverged, s') => (Stop Diverged, s')
  | (_, (_, w')) =>
      let w := s.2 in
      (Ok tt, (s.1, World (w_files w') (w_dirs w') (w_fds w) (w_next_fd w) (w_errno w)
                      (w_locking w) (w_flocks w') (w_sched w')))
  end.

(** The result, and the hooks that were called. *)
Definition Save (tr : traveller) : CM (result Code Z * list hook) :=
  inited ← getO m_bInited;
  if negb inited then mret (Bad Uninited UninitializedError, [])
  else
    lockPath ← getO m_sLockPath;
    lockRs ← io (FileUtils.IsLocking lockPath);
    if lockRs =? -1 then r ← bad_errno FileSystemError; mret (r, [])
    else if lockRs =? 1 then mret (Bad Locking IsLockingError, [])
    else
      fork ← io sys_enter;
      match fork with
      | EFault => r ← bad_errno ForkError; mret (r, [Prepare])
      | _ =>
          run_child (do_save_in_child tr);;
          r ← do_save_in_parent;
          mret (r, [Prepare; CompletePrepare])
      end.

End checkpoint.
End EntryOrderCheckpoint.
