(* ===== verification/CheckpointLoad.v ===== *)
(** * Reading and writing checkpoint files

    A checkpoint file is a magic number and a frame with a one-byte header (the
    version) per entry.  [save_entries] writes this layout and [load_file] reads
    it back for every batch size. *)

From S2P Require Import Prelude Codec Buffer Posix Files Quiet Records Entries Checkpoint.
Import EntryOrderCheckpoint.

Definition cp_magic : list byte := be_bytes 4 EOCP_MAGIC_NO.

Section format.
Context (host : byte_order) `{MemAlloc} {E : Type} `{IEntryLaws E}.

(** ** The layout *)

Definition cp_frame (ver : Z) (e : E) : frec := Frec [z2b ver] (enc e).
Definition cp_frames (vs : list (Z * E)) : list frec := map (fun v => cp_frame v.1 v.2) vs.
(** The file of a checkpoint: each entry with the version it was written in. *)
Definition cp_file (vs : list (Z * E)) : list byte :=
  cp_magic ++ frames 1 EOCP_MAGIC_NO_LEN (cp_frames vs).
Definition cp_size (vs : list (Z * E)) : Z := frames_size 1 (cp_frames vs).

Definition cp_entry_ok (e : E) : Prop := encodable e /\ zlen (enc e) + 9 < 2147483648.
Abbreviation cp_ok := (Forall (fun v : Z * E => cp_entry_ok v.2)).

Lemma cp_frame_ok ver e : cp_entry_ok e -> f_ok 1 (cp_frame ver e).
Proof. intros (_&Hs). split; [done|]. unfold fsize. cbn [f_body cp_frame]. lia. Qed.
Lemma cp_frames_ok vs : cp_ok vs -> Forall (f_ok 1) (cp_frames vs).
Proof.
  intros Hv. apply Forall_map. eapply Forall_impl; [|exact Hv]. intros v Hk. by apply cp_frame_ok.
Qed.
Lemma cp_size_nonneg vs : cp_ok vs -> 0 <= cp_size vs.
Proof. intros Hv%cp_frames_ok. unfold cp_size. rewrite <- (frames_length 1 _ 0) by done. apply zlen_nonneg. Qed.
Lemma cp_file_length vs : cp_ok vs -> zlen (cp_file vs) = 4 + cp_size vs.
Proof. intros Hv%cp_frames_ok. unfold cp_file. by rewrite zlen_app, frames_length. Qed.

Lemma frames_app off fs fs' :
  frames 1 off (fs ++ fs') = frames 1 off fs ++ frames 1 (off + frames_size 1 fs) fs'.
Proof.
  revert off. induction fs as [|f fs IH]; intros off; cbn [frames frames_size app].
  - f_equal. lia.
  - rewrite IH, <- app_assoc. do 3 f_equal. lia.
Qed.
Lemma frames_size_app fs fs' : frames_size 1 (fs ++ fs') = frames_size 1 fs + frames_size 1 fs'.
Proof. induction fs as [|f fs IH]; cbn [frames_size app]; lia. Qed.
Lemma cp_file_snoc vs v : cp_ok vs -> cp_file (vs ++ [v]) = cp_file vs ++ frame (zlen (cp_file vs)) (cp_frame v.1 v.2).
Proof.
  intros Hv. rewrite (cp_file_length vs Hv). unfold cp_file at 1, cp_frames. rewrite map_app, frames_app. cbn [map frames].
  by rewrite app_nil_r, app_assoc.
Qed.

(** The record [save_new_checkpoint] fills is the frame, whatever the pool held. *)
Lemma cp_record_spec ver off eb c :
  db_content eb = c -> Valid (db eb) = true -> AvailableLength (db eb) = zlen c ->
  zlen c + 9 < 2147483648 ->
  build_record host ver off eb = frame off (Frec [z2b ver] c).
Proof.
  intros Hc Hv Hl Hb. pose proof (zlen_nonneg c). unfold build_record. cbv zeta.
  rewrite Hl, Hv, Hc. unfold EOCP_ENTRY_EXTRA_FIELDS_SIZE.
  rewrite (u32_small (zlen c)), (u32_small (zlen c + 9)) by lia.
  destruct (mp_Get_ok (zlen c + 9)) as (Hp & Hsz & Hm); [lia|].
  set (start := mo_ptr _) in *. set (mem := mo_mem _) in *.
  assert (zlen c + 9 <= zlen mem) as Hroom by lia. clearbody start mem. clear Hm Hsz.
  set (size := zlen c + 9) in *.
  replace (DBuf _ mem) with (filling start size [] mem true); cycle 1.
  { unfold filling, Refresh, check_available. cbn [fst m_pPos m_pLast m_pStart m_pEnd m_pMpObject m_bOwn app].
    change (zlen []) with 0. rewrite Z.add_0_r. do 2 f_equal. symmetry. apply available_true. lia. }
  assert (forall k : nat, (Z.of_nat k <= size) -> (k <= length mem)%nat) as Hk by (unfold zlen in *; lia).
  destruct (filling_step start size [] mem true (fun m => ByteOrderUtils.WriteUInt32 host m (zlen c))
    (be_bytes 4 (zlen c)) EOCP_SIZE_LEN) as [b1 ->]; [lia|lia|by zlens| |].
  { rewrite be_bytes_length. apply write32_spec, Hk. lia. }
  rewrite be_bytes_length, app_nil_l.
  destruct (filling_step start size (be_bytes 4 (zlen c)) (drop 4 mem) b1 (mem_write 0 [z2b ver])
    [z2b ver] EOCP_VERSION_LEN) as [b2 ->]; [lia|lia|done|done|]. cbn [length].
  set (rest := drop 1 _).
  assert (length rest = length mem - 5)%nat as Hrest by (unfold rest; rewrite !length_drop; lia).
  destruct (filling_step start size (be_bytes 4 (zlen c) ++ [z2b ver]) rest b2
    (mem_write 0 c) c (zlen c)) as [b4 ->]; [lia|lia|done|done|].
  rewrite (filling_write _ _ _ _ _ _ (be_bytes 4 off)); cycle 1.
  { rewrite be_bytes_length. apply write32_spec. rewrite length_drop. specialize (Hk (length c + 9)%nat).
    unfold size, zlen in *. lia. }
  cbn [db_mem]. unfold slice. change (Z.to_nat 0) with 0%nat. rewrite drop_0, be_bytes_length.
  replace (frame off (Frec [z2b ver] c)) with
    (((be_bytes 4 (zlen c) ++ [z2b ver]) ++ c) ++ be_bytes 4 off)
    by (unfold frame; cbn [f_body f_hdr]; by rewrite <- !app_assoc).
  apply take_app_length'. unfold size, zlen.
  repeat rewrite length_app || rewrite be_bytes_length || cbn [length]. lia.
Qed.

(** ** The parser *)

Definition reloaded (vs : list (Z * E)) : list E := map (fun v => reload v.2) vs.

Definition batch_end (ok : bool) (tail : list byte) (es : list E) (off : Z) : result Code parsed :=
  match tail with
  | [] => Good (MkParsed es off None)
  | _ => if ok then Good (MkParsed es off (Some tail)) else Bad FileCorrupt FileCorruptError
  end.

Lemma cp_parse_tail base ok fuel pre off tail junk acc (o : t) (w : world) Q :
  torn 1 tail -> zlen pre + zlen tail < 4294967296 -> (length tail <= fuel)%nat ->
  Q (batch_end ok tail acc off) (o, w) ->
  wp (parse_batch host fuel base (pre ++ tail ++ junk) (zlen pre + zlen tail) ok (zlen pre) off acc) (o, w) Q.
Proof.
  intros Ht Hb Hf HQ. pose proof (zlen_nonneg pre).
  assert (tail = [] \/ 0 < zlen tail) as [->|Hpos].
  { destruct tail; [by left|right]. rewrite zlen_cons. pose proof (zlen_nonneg tail). lia. }
  { destruct fuel; simpl; change (zlen (@nil byte)) with 0;
      (destruct (Z.ltb_spec (zlen pre) (zlen pre + 0)); [lia|done]). }
  assert (batch_end ok tail acc off =
    if ok then Good (MkParsed acc off (Some tail)) else Bad FileCorrupt FileCorruptError) as Hend
    by (by destruct tail).
  destruct fuel as [|fuel]; [unfold zlen in *; lia|]. cbn [parse_batch].
  destruct (Z.ltb_spec (zlen pre) (zlen pre + zlen tail)); [|lia]. cbn [negb]. cbv zeta.
  replace (zlen pre + zlen tail - zlen pre) with (zlen tail) by lia.
  assert (slice (zlen pre) (zlen tail) (pre ++ tail ++ junk) = tail) as Hsl.
  { unfold slice. rewrite drop_past0. unfold zlen. by rewrite Nat2Z.id, take_app_length. }
  rewrite Hsl. rewrite Hend in HQ. unfold EOCP_ENTRY_HEADER_LEN, EOCP_ENTRY_EXTRA_FIELDS_SIZE.
  destruct (torn_short 1 host pre tail junk ltac:(lia) Ht) as [Hs|(len&Hlen&Hs)];
    change (1 + 4) with 5 in *; change (1 + 8) with 9 in *.
  - destruct (Z.ltb_spec (zlen tail) 5); [|lia]. wpure. destruct ok; cbn [negb]; by wpure.
  - destruct (Z.ltb_spec (zlen tail) 5); wpure.
    + destruct ok; cbn [negb]; by wpure.
    + rewrite Hlen. cbn [of_mem]. wpure.
      destruct (Z.ltb_spec (zlen tail) (u32 (9 + len))); [|lia]. destruct ok; cbn [negb]; by wpure.
Qed.

Lemma cp_parse_step base ok fuel pre off ver e rest acc avail (o : t) (w : world) Q :
  cp_entry_ok e -> 0 < base -> 0 <= off -> off + fsize 1 (cp_frame ver e) < 4294967296 ->
  zlen pre + fsize 1 (cp_frame ver e) <= avail < 4294967296 ->
  wp (parse_batch host fuel base ((pre ++ frame off (cp_frame ver e)) ++ rest) avail ok
        (zlen (pre ++ frame off (cp_frame ver e))) (off + fsize 1 (cp_frame ver e)) (acc ++ [reload e])) (o, w) Q ->
  wp (parse_batch host (S fuel) base (pre ++ frame off (cp_frame ver e) ++ rest) avail ok (zlen pre) off acc)
     (o, w) Q.
Proof.
  intros (Henc & Hsz) Hbase Hoff0 Hoff Hav HQ. pose proof (zlen_nonneg pre). set (f := cp_frame ver e) in *.
  assert (f_body f = enc e) as Hbody by done. assert (zlen (f_hdr f) = 1) as Hhdr by done.
  pose proof (zlen_nonneg (enc e)). rewrite zlen_app, (frame_length 1) in HQ by (by apply cp_frame_ok).
  unfold fsize in *. rewrite Hbody in *. cbn [parse_batch].
  destruct (Z.ltb_spec (zlen pre) avail); [|lia]. cbn [negb]. cbv zeta.
  rewrite read_len by (rewrite Hbody; lia). rewrite Hbody.
  unfold EOCP_ENTRY_EXTRA_FIELDS_SIZE, EOCP_ENTRY_HEADER_LEN, EOCP_SIZE_LEN, EOCP_VERSION_LEN, EOCP_CONTENT_OFFSET.
  destruct (Z.ltb_spec (avail - zlen pre) 5); [lia|]. cbn [of_mem]. wpure.
  change (4 + 1 + zlen (enc e)) with (5 + zlen (enc e)).
  rewrite (u32_small (9 + zlen (enc e))), (u32_small (5 + zlen (enc e))), (u32_small (zlen (enc e) + 9)) by lia.
  destruct (Z.ltb_spec (avail - zlen pre) (9 + zlen (enc e))); [lia|].
  pose proof (read_off 1 host pre off f rest ltac:(lia) Hhdr ltac:(lia)) as Hro. rewrite Hbody in Hro.
  change (1 + 4) with 5 in Hro. rewrite Hro. clear Hro. cbn [of_mem]. wpure. rewrite Z.eqb_refl. cbn [negb].
  pose proof (drop_body 1 pre off f rest ltac:(lia) Hhdr) as Hdb. change (1 + 4) with 5 in Hdb.
  rewrite Hdb, Hbody. clear Hdb.
  destruct (Decode_enc e (base + (zlen pre + 5)) (be_bytes 4 off ++ rest)) as (e0 & He0 & Hdec); [done|lia|lia|].
  rewrite He0. cbn [of_mem]. wpure. rewrite Hdec. wpure.
  rewrite (u32_small (zlen pre + _)), (u32_small (off + _)) by lia. by rewrite <- app_assoc in HQ.
Qed.

Lemma cp_parse_batch_spec base ok vs : forall fuel pre off tail junk acc (o : t) (w : world) Q,
  cp_ok vs -> torn 1 tail -> 0 < base -> 0 <= off ->
  zlen pre + cp_size vs + zlen tail < 4294967296 -> off + cp_size vs < 4294967296 ->
  (length (frames 1 off (cp_frames vs) ++ tail) <= fuel)%nat ->
  Q (batch_end ok tail (acc ++ reloaded vs) (off + cp_size vs)) (o, w) ->
  wp (parse_batch host fuel base (pre ++ frames 1 off (cp_frames vs) ++ tail ++ junk)
        (zlen pre + cp_size vs + zlen tail) ok (zlen pre) off acc) (o, w) Q.
Proof.
  induction vs as [|v vs IH]; intros fuel pre off tail junk acc o w Q Hvs Ht Hbase Hoff Hb Hb' Hf HQ;
    cbn [cp_frames map frames cp_size frames_size app reloaded] in *.
  - unfold cp_size in *. cbn [cp_frames map frames_size] in *. rewrite !Z.add_0_r, ?app_nil_r in *.
    by apply cp_parse_tail; [..|].
  - inversion_clear Hvs as [|? ? Hv Hvs']. pose proof (cp_frame_ok v.1 v.2 Hv) as Hfo.
    pose proof (cp_size_nonneg vs Hvs') as Hn. pose proof (zlen_nonneg tail). pose proof (zlen_nonneg pre).
    pose proof (frame_length 1 off _ Hfo) as Hz. pose proof (zlen_nonneg (enc v.2)).
    assert (0 < fsize 1 (cp_frame v.1 v.2)) by (unfold fsize; cbn [f_body cp_frame]; lia).
    unfold cp_size in *. cbn [cp_frames map frames_size] in *. fold (cp_frames vs) in *.
    destruct fuel as [|fuel]. { rewrite <- app_assoc, length_app in Hf. unfold zlen in Hz. lia. }
    rewrite <- app_assoc. apply cp_parse_step; [done|done|done|lia|lia|].
    replace (zlen pre + (_ + frames_size 1 (cp_frames vs)) + zlen tail)
      with (zlen (pre ++ frame off (cp_frame v.1 v.2)) + frames_size 1 (cp_frames vs) + zlen tail)
      by (rewrite zlen_app; lia).
    apply IH; try done; try (rewrite ?zlen_app; lia).
    + rewrite <- app_assoc, length_app in Hf. unfold zlen in Hz. lia.
    + by rewrite <- app_assoc, <- Z.add_assoc.
Qed.

(** ** The batched loop *)

Lemma next_entries content pos batch left off vs tail :
  0 <= pos <= zlen content -> 0 < batch -> cp_ok vs -> torn 1 tail ->
  left ++ drop (Z.to_nat pos) content = frames 1 off (cp_frames vs) ++ tail ->
  let chunk := slice pos batch content in
  zlen chunk = Z.min batch (zlen content - pos) /\
  exists vs1 vs2 t, vs = vs1 ++ vs2 /\ left ++ chunk = frames 1 off (cp_frames vs1) ++ t /\ torn 1 t /\
    t ++ drop (Z.to_nat (pos + zlen chunk)) content = frames 1 (off + cp_size vs1) (cp_frames vs2) ++ tail /\
    (zlen chunk < batch -> vs2 = [] /\ t = tail).
Proof.
  intros Hpos Hb Hvs%cp_frames_ok Ht Heq.
  destruct (next_chunk 1 content pos batch left off _ tail Hpos Hb Hvs Ht Heq) as (Hn&fs1&fs2&t&Hfs&Hl&Htt&Hd&Hs).
  split; [done|]. apply map_eq_app in Hfs as (vs1&vs2&->&<-&<-). exists vs1, vs2, t.
  do 4 (split; [done|]). intros Hlt. by apply Hs in Hlt as [->%map_eq_nil ->].
Qed.

Lemma torn_entries off vs tail : cp_ok vs -> torn 1 (frames 1 off (cp_frames vs) ++ tail) -> vs = [].
Proof. intros Hvs%cp_frames_ok Ht. apply torn_frames in Ht; [|done]. by apply map_eq_nil in Ht. Qed.

Lemma cp_size_app vs vs' : cp_size (vs ++ vs') = cp_size vs + cp_size vs'.
Proof. unfold cp_size, cp_frames. by rewrite map_app, frames_size_app. Qed.

(** The outcome of loading the entries [vs] followed by [tail]: all of them in
    order, or a corrupt file when there is a torn tail. *)
Definition cp_end (maxId : Z) (tail : list byte) : result Code Z :=
  match tail with [] => Good maxId | _ => Bad FileCorrupt FileCorruptError end.
Definition handed (tail : list byte) (vs : list (Z * E)) (bs : list (list E)) : Prop :=
  concat bs `prefix_of` reloaded vs /\ (tail = [] -> concat bs = reloaded vs).

Lemma handed_nil tail vs : (tail = [] -> vs = []) -> handed tail vs [].
Proof. intros Hn. split; [apply prefix_nil|]. intros ->%Hn. done. Qed.
Lemma handed_cons tail vs1 vs2 bs : handed tail vs2 bs -> handed tail (vs1 ++ vs2) (reloaded vs1 :: bs).
Proof.
  intros [Hp He]. unfold handed, reloaded in *. cbn [concat]. rewrite map_app. split.
  - by apply prefix_app.
  - intros Hn. by rewrite (He Hn).
Qed.

Lemma cp_load_loop_spec fd maxId batch p content tail fuel : forall vs left pos off batches (o : t) w Q,
  quiet w -> fd <> -1 -> w_fds w !! fd = Some (FDesc p pos) -> w_files w !! p = Some content ->
  0 <= pos <= zlen content -> m_batchReadSize o = batch -> 0 < batch ->
  zlen content + batch < 4294967296 -> zlen left <= pos -> 0 <= off -> off + cp_size vs < 4294967296 ->
  cp_ok vs -> torn 1 left -> torn 1 tail ->
  left ++ drop (Z.to_nat pos) content = frames 1 off (cp_frames vs) ++ tail ->
  zlen content - pos < batch * Z.of_nat fuel ->
  (forall bs d', handed tail vs bs -> Q (cp_end maxId tail, batches ++ bs) (o, set_fds <[fd := d']> w)) ->
  wp (load_loop host fuel fd maxId left off batches) (o, w) Q.
Proof.
  induction fuel as [|fuel IH];
    intros vs left pos off batches o w Q Hq Hfd Hd Hc Hpos Hbt Hb0 Hbig Hleft Hoff Hend Hvs Htl Htt Heq Hf HQ;
    [lia|].
  destruct (next_entries content pos batch left off vs tail Hpos Hb0 Hvs Htt Heq)
    as (Hn&vs1&vs2&t&->&Hdata&Htorn&Hdrop&Hshort).
  set (chunk := slice pos batch content) in *. pose proof (zlen_nonneg left) as Hl0.
  cbn [load_loop]. wpure. rewrite Hbt. rewrite (u32_small (batch + zlen left)) by lia. rewrite Z.ltb_irrefl. wpure.
  destruct (mp_Get_ok (batch + zlen left)) as (Hptr&_&_); [lia|].
  wlift. eapply wp_ReadFully_V4; [done|done|done|done|simpl; lia|done|]. cbn [fd_off fd_path]. fold chunk.
  apply Forall_app in Hvs as [Hvs1 Hvs2]. rewrite cp_size_app in Hend.
  destruct (Z.eqb_spec (zlen chunk) (-1)); [lia|]. destruct (Z.eqb_spec (zlen chunk) 0) as [Hz0|Hz0].
  { (* the end of the file *)
    apply zlen_0 in Hz0 as Hc0. rewrite Hc0, app_nil_r in Hdata. subst left.
    assert (vs1 = []) as -> by (by eapply torn_entries). destruct Hshort as [-> ->]; [lia|].
    cbn [cp_frames map frames app] in *. specialize (HQ [] (FDesc p (pos + zlen chunk))). rewrite app_nil_r in HQ.
    destruct tail as [|b tail]; cbn [zlen]; wpure; [|destruct (Z.eqb_spec (zlen (b :: tail)) 0) as [Hz|_];
      [by apply zlen_0 in Hz|]; cbn [negb]; wpure]; by apply HQ, handed_nil. }
  assert (zlen chunk + zlen left = zlen (@nil byte) + cp_size vs1 + zlen t) as Hav.
  { change (zlen (@nil byte)) with 0. apply (f_equal zlen) in Hdata.
    rewrite !zlen_app, frames_length in Hdata by (by apply cp_frames_ok). unfold cp_size. lia. }
  change (zlen (@nil byte)) with 0 in Hav. pose proof (cp_size_nonneg vs1 Hvs1). pose proof (cp_size_nonneg vs2 Hvs2).
  wbind. unfold IOUtils.zero_filled. rewrite (app_assoc left), Hdata, <- app_assoc, Hav.
  apply (cp_parse_batch_spec (mo_ptr (mp_Get (batch + zlen left)))
    (zlen chunk =? batch) vs1 _ [] off t); [done|done|done|done|change (zlen (@nil byte)) with 0; lia|lia| |].
  { apply (f_equal length) in Hdata. rewrite <- Hdata, length_app. unfold zlen in *. lia. }
  cbn [app]. destruct (Z.eqb_spec (zlen chunk) batch) as [Hfull|Hnot].
  - (* a full batch: go on with what is left of it *)
    assert (exists lf, batch_end true t (reloaded vs1) (off + cp_size vs1) =
      Good (MkParsed (reloaded vs1) (off + cp_size vs1) lf) /\ default [] lf = t) as (lf&->&Hlf).
    { destruct t; [by exists None|by eexists (Some _)]. }
    cbn [p_entries p_cpOffset p_left]. rewrite Hlf.
    apply (IH vs2 t (pos + zlen chunk)); [done|done|by (simpl; rewrite lookup_insert_eq)|done|lia
      |done|done|done|lia|lia|lia|done|done|done|done|lia|].
    intros bs d' Hdel. rewrite <- app_assoc, set_fds_twice. cbn [app].
    by apply HQ, handed_cons.
  - (* the last, short batch *)
    destruct Hshort as [-> ->]; [lia|]. rewrite app_nil_r in HQ. destruct tail as [|b tail]; cbn [batch_end]; wpure.
    + apply HQ. rewrite <- (app_nil_r vs1) at 1. apply handed_cons, handed_nil. done.
    + specialize (HQ [] (FDesc p (pos + zlen chunk))). rewrite app_nil_r in HQ. by apply HQ, handed_nil.
Qed.

Lemma cp_magic_read rest : ByteOrderUtils.ReadUInt32 host (cp_magic ++ rest) = Some EOCP_MAGIC_NO.
Proof. unfold cp_magic. by rewrite read32_be. Qed.

(** A checkpoint file of complete entries, then possibly a torn one. *)
Lemma load_file_spec maxId vs tail (o : t) w Q :
  wf w -> w_files w !! m_sCpFilePath o = Some (cp_file vs ++ tail) -> cp_ok vs -> torn 1 tail ->
  0 < m_batchReadSize o -> zlen (cp_file vs ++ tail) + m_batchReadSize o < 4294967296 ->
  (forall bs w', keeps w w' -> handed tail vs bs -> Q (cp_end maxId tail, bs) (o, w')) ->
  wp (load_file host maxId) (o, w) Q.
Proof.
  intros Hw Hp Hvs Ht Hb0 Hbig HQ. set (content := cp_file vs ++ tail) in *. set (p := m_sCpFilePath o) in *.
  pose proof (zlen_nonneg tail). pose proof (cp_size_nonneg vs Hvs).
  assert (zlen content = 4 + cp_size vs + zlen tail) as Hlen.
  { unfold content. by rewrite zlen_app, cp_file_length. }
  unfold load_file. wpure. fold p. wlift. apply quiet_Exist; [done|]. intros w0 Hk0.
  rewrite (exists_path_file _ _ _ Hp). cbn [negb]. pose proof (keeps_wf _ _ Hk0 Hw) as Hw0.
  assert (w_files w0 !! p = Some content) as Hp0 by (by rewrite (keeps_files _ _ Hk0)).
  assert (forall bs w', keeps w0 w' -> handed tail vs bs -> Q (cp_end maxId tail, bs) (o, w')) as HQ0
    by (intros; apply HQ; [by etrans|done]). clear HQ Hk0 Hp Hw w. rename w0 into w, Hw0 into Hw, Hp0 into Hp, HQ0 into HQ.
  pose proof (wf_next w Hw) as Hn. wlift.
  eapply quiet_open_existing; [done|done|]. set (fd := w_next_fd w) in *.
  destruct (Z.eqb_spec fd (-1)); [lia|].
  pose proof (keeps_opened p w Hw) as Hk. pose proof (keeps_wf _ _ Hk Hw) as Hw1.
  assert (w_fds w !! fd = None) as Hfresh by (apply (wf_fresh w Hw); lia).
  set (w1 := opened p w) in *. assert (w_fds w1 !! fd = Some (FDesc p 0)) as Hfd1 by apply lookup_insert_eq.
  apply wp_with_closer; [done|]. wlift. eapply quiet_GetFileSize_fd; [done|lia|done|done|].
  fold content. rewrite Hlen. destruct (Z.eqb_spec (4 + cp_size vs + zlen tail) (-1)); [lia|].
  destruct (Z.ltb_spec (4 + cp_size vs + zlen tail) EOCP_MAGIC_NO_LEN);
    [unfold EOCP_MAGIC_NO_LEN in *; lia|].
  assert (content = cp_magic ++ frames 1 EOCP_MAGIC_NO_LEN (cp_frames vs) ++ tail) as Hcont
    by (unfold content, cp_file; by rewrite <- app_assoc).
  assert (slice 0 EOCP_MAGIC_NO_LEN content = cp_magic) as Hsl by (rewrite Hcont; done).
  wlift. eapply wp_ReadFully_V4; [apply Hw1|done|done|done|simpl; lia|done|]. cbn [fd_off fd_path].
  fold content. rewrite Hsl. change (zlen cp_magic) with 4. cbn [Z.eqb].
  unfold IOUtils.zero_filled. rewrite cp_magic_read. cbn [of_mem]. wpure. cbn [Z.eqb Pos.eqb negb]. wpure.
  eapply (cp_load_loop_spec fd maxId (m_batchReadSize o) p content tail _ vs [] 4);
    [apply Hw1|done|simpl; by rewrite lookup_insert_eq|done|lia|done|done|done|done|done| |done|by apply torn_nil
    |done|by rewrite Hcont| |].
  - unfold EOCP_MAGIC_NO_LEN. lia.
  - rewrite Hlen. apply chunks_enough; [lia|done].
  - intros bs d' Hdel. exists d'. simpl. split; [apply Hw1|]. split; [by rewrite lookup_insert_eq|].
    apply HQ; [|done]. apply keeps_closed; [done| |done].
    eapply keeps_touch; [|done|apply lookup_insert_eq]. by eapply keeps_touch.
Qed.
End format.
