(* ===== verification/CheckpointSave.v ===== *)
(** * Saving and recovering a checkpoint

    The directory of a checkpoint as a map of files: which checkpoint it holds
    ([holds]), whether a save is under way ([idle]), and what [check_and_recover],
    [Save] and [Load] make of it in a run without faults. *)

From S2P Require Import Prelude Codec Buffer Posix Files Quiet Updates Records Entries Checkpoint CheckpointLoad.
Import EntryOrderCheckpoint.

(** ** The seven paths *)

Definition at_root (root name : string) : string := root +:+ String slash name.

Lemma at_root_ne root a b : a <> b -> at_root root a <> at_root root b.
Proof. intros Hn Heq%str_app_inj_l. by injection Heq. Qed.
Lemma dirname_at_root root n : str_has slash n = false -> dirname (at_root root n) = root.
Proof. intros Hn. unfold dirname, at_root. by rewrite split_last_app. Qed.

Section paths.
Context (o : t).
Lemma CpFile_at : m_sCpFilePath o = at_root (m_sRootDir o) "smcp".
Proof. done. Qed.
Lemma NewCpFile_at : m_sNewCpFilePath o = at_root (m_sRootDir o) "smcp.new".
Proof. unfold m_sNewCpFilePath, m_sCpFilePath. by rewrite !str_app_assoc. Qed.
Lemma OkFlag_at : m_sNewCpSaveOkFilePath o = at_root (m_sRootDir o) "smcp.ok".
Proof. done. Qed.
Lemma Meta_at : m_sCpMetaFilePath o = at_root (m_sRootDir o) ".meta".
Proof. done. Qed.
Lemma NewMeta_at : m_sNewCpMetaFilePath o = at_root (m_sRootDir o) ".meta.new".
Proof. unfold m_sNewCpMetaFilePath, m_sCpMetaFilePath. by rewrite !str_app_assoc. Qed.
Lemma StartFlag_at : m_sNewStartFlagFilePath o = at_root (m_sRootDir o) "smcp.start".
Proof. done. Qed.
Lemma Lock_at : m_sLockPath o = at_root (m_sRootDir o) ".lock".
Proof. done. Qed.
End paths.

Definition cp_names : list string :=
  ["smcp"; "smcp.new"; "smcp.ok"; ".meta"; ".meta.new"; "smcp.start"; ".lock"].

Ltac at_paths := rewrite ?CpFile_at, ?NewCpFile_at, ?OkFlag_at, ?Meta_at, ?NewMeta_at, ?StartFlag_at, ?Lock_at.
Ltac path_ne := at_paths; apply at_root_ne; discriminate.
(** Look-ups of a path in an updated directory. *)
Ltac cp_lookup := repeat first
  [ rewrite lookup_insert_eq | rewrite lookup_delete_eq
  | rewrite lookup_insert_ne by path_ne | rewrite lookup_delete_ne by path_ne ].

(** The directory is there, and none of the paths is a directory. *)
Record cp_root (o : t) (w : world) : Prop := {
  cr_wf : wf w;
  cr_root : m_sRootDir o ∈ w_dirs w;
  cr_files : forall n, n ∈ cp_names -> at_root (m_sRootDir o) n ∉ w_dirs w
}.

Ltac in_names := apply list_elem_of_In; simpl; tauto.
Ltac not_dir := at_paths; match goal with H : cp_root _ _ |- _ => apply (cr_files _ _ H); in_names end.
Ltac in_root := at_paths; rewrite dirname_at_root by done; match goal with H : cp_root _ _ |- _ => apply (cr_root _ _ H) end.

Section save.
Context (host : byte_order) `{MemAlloc} {E : Type} `{IEntryLaws E}.

(** ** What a directory holds *)

Abbreviation dirmap := (gmap string (list byte)).
(** A checkpoint: the largest entry id in it, and its entries. *)
Abbreviation snapshot := (option (Z * list (Z * E))).

Definition snap_id (old : snapshot) : Z := match old with Some (id, _) => id | None => EOCP_INVALID_ENTRY_ID end.
Definition snap_ok (old : snapshot) : Prop :=
  match old with Some (id, vs) => 0 < id < CommonUtils.ULONG_MAX /\ Forall (fun v => cp_entry_ok v.2) vs | None => True end.

Definition meta_bytes (id : Z) : list byte := bytes_of (CommonUtils.ToString id).

(** Files at the given paths hold the snapshot. *)
Definition holds_at (meta cp : string) (F : dirmap) (old : snapshot) : Prop :=
  match old with
  | Some (id, vs) => F !! meta = Some (meta_bytes id) /\ F !! cp = Some (cp_file vs)
  | None => F !! meta = None
  end.
Definition holds (o : t) : dirmap -> snapshot -> Prop := holds_at (m_sCpMetaFilePath o) (m_sCpFilePath o).
Definition holds_new (o : t) : dirmap -> snapshot -> Prop := holds_at (m_sNewCpMetaFilePath o) (m_sNewCpFilePath o).

(** No save is under way or unfinished. *)
Definition idle (o : t) (F : dirmap) : Prop :=
  F !! m_sLockPath o = None /\ F !! m_sNewStartFlagFilePath o = None /\ F !! m_sNewCpSaveOkFilePath o = None.

(** The rest of the directory is not touched. *)
Definition elsewhere (o : t) (F F' : dirmap) : Prop :=
  forall p, (forall n, n ∈ cp_names -> p <> at_root (m_sRootDir o) n) -> F' !! p = F !! p.

Section calls.
Context (o : t) (w : world) (F : dirmap) (L : gset string) (w1 : world).
Context (Hr : cp_root o w) (Hu : upd w F L w1).

Lemma upd_is_completed Q :
  (forall w2, upd w F L w2 ->
     Q (negb (bool_decide (is_Some (F !! m_sLockPath o))) &&
        negb (bool_decide (is_Some (F !! m_sNewStartFlagFilePath o))) &&
        negb (bool_decide (is_Some (F !! m_sNewCpSaveOkFilePath o)))) (o, w2)) ->
  wp is_completed (o, w1) Q.
Proof.
  intros HQ. unfold is_completed. wpure. wlift. eapply upd_Exist; [done|not_dir|]. intros w2 Hu2.
  destruct (bool_decide (is_Some (F !! m_sLockPath o))); cbn [negb andb] in HQ; [wpure; by apply HQ|].
  wlift. eapply upd_Exist; [done|not_dir|]. intros w3 Hu3.
  destruct (bool_decide (is_Some (F !! m_sNewStartFlagFilePath o))); cbn [negb andb] in HQ; [wpure; by apply HQ|].
  wlift. eapply upd_Exist; [done|not_dir|]. intros w4 Hu4. wpure. by apply HQ.
Qed.

Lemma upd_completed Q : idle o F -> (forall w2, upd w F L w2 -> Q true (o, w2)) -> wp is_completed (o, w1) Q.
Proof.
  intros (Hl&Hs&Hk) HQ. apply upd_is_completed. intros w2 Hu2. rewrite Hl, Hs, Hk.
  rewrite bool_decide_eq_false_2 by (by intros [? ?]). by apply HQ.
Qed.

Lemma upd_load_meta old Q :
  holds o F old -> snap_ok old ->
  (forall w2, upd w F L w2 -> Q (Good (snap_id old)) (o, w2)) -> wp load_meta (o, w1) Q.
Proof.
  intros Ho Hs HQ. unfold load_meta. wpure. wlift. eapply upd_Exist; [done|not_dir|]. intros w2 Hu2.
  destruct old as [[id vs]|]; cbn [holds holds_at snap_ok snap_id] in *.
  - destruct Ho as [Hm _]. rewrite bool_decide_eq_true_2 by (rewrite Hm; eauto). cbn [negb].
    wlift. eapply upd_ReadAllString; [done..|]. intros w3 Hu3. unfold meta_bytes. rewrite string_of_bytes_of.
    wlift. apply wp_ToUint46_t; [unfold CommonUtils.ULONG_MAX in *; lia|]. cbn [negb]. wpure. by apply HQ.
  - rewrite bool_decide_eq_false_2 by (rewrite Ho; by intros [? ?]). cbn [negb]. wpure. by apply HQ.
Qed.

Lemma upd_unlink_or_fail (p : t -> string) Q :
  p o ∉ w_dirs w -> (forall w2, upd w (delete (p o) F) L w2 -> Q (Good tt) (o, w2)) ->
  wp (unlink_or_fail p) (o, w1) Q.
Proof.
  intros Hp HQ. unfold unlink_or_fail. wpure. apply wp_rbind, wp_check_io.
  eapply upd_Unlink; [done..|]. intros w2 Hu2. split; [lia|]. wpure. by apply HQ.
Qed.
End calls.

(** What [replace_old_checkpoint] and [clean_new_cp_tmp] make of the files. *)
Definition replaced (o : t) (m c : list byte) (F : dirmap) : dirmap :=
  <[m_sCpFilePath o := c]> (delete (m_sNewCpFilePath o)
    (<[m_sCpMetaFilePath o := m]> (delete (m_sNewCpMetaFilePath o)
      (delete (m_sCpFilePath o) (delete (m_sCpMetaFilePath o) F))))).
Definition cleaned (o : t) (F : dirmap) : dirmap :=
  delete (m_sNewCpSaveOkFilePath o) (delete (m_sNewStartFlagFilePath o)
    (delete (m_sNewCpFilePath o) (delete (m_sNewCpMetaFilePath o) F))).

Ltac elsewhere_tac :=
  intros p Hp; unfold replaced, cleaned; at_paths;
  repeat first [ rewrite lookup_insert_ne by (symmetry; apply Hp; in_names)
               | rewrite lookup_delete_ne by (symmetry; apply Hp; in_names) ]; done.

Lemma elsewhere_cleaned o F : elsewhere o F (cleaned o F).
Proof. elsewhere_tac. Qed.
Lemma elsewhere_replaced o m c F : elsewhere o F (replaced o m c F).
Proof. elsewhere_tac. Qed.

Section recovery.
Context (o : t) (w : world) (F : dirmap) (L : gset string) (w1 : world).
Context (Hr : cp_root o w) (Hu : upd w F L w1).

Lemma upd_clean Q :
  (forall w2, upd w (cleaned o F) L w2 -> Q (Good tt) (o, w2)) -> wp clean_new_cp_tmp (o, w1) Q.
Proof.
  intros HQ. unfold clean_new_cp_tmp.
  do 4 (apply wp_rbind; eapply upd_unlink_or_fail; [eassumption|not_dir|];
        let w' := fresh "w" in let Hu' := fresh "Hu" in intros w' Hu').
  wpure. by apply HQ.
Qed.

Lemma upd_replace m c Q :
  F !! m_sNewCpMetaFilePath o = Some m -> F !! m_sNewCpFilePath o = Some c ->
  (forall w2, upd w (replaced o m c F) L w2 -> Q (Good tt) (o, w2)) ->
  wp replace_old_checkpoint (o, w1) Q.
Proof.
  intros Hm Hc HQ. unfold replace_old_checkpoint.
  apply wp_rbind. eapply upd_unlink_or_fail; [eassumption|not_dir|]. intros w2 Hu2.
  apply wp_rbind. eapply upd_unlink_or_fail; [eassumption|not_dir|]. intros w3 Hu3. wpure.
  apply wp_rbind, wp_check_io. eapply upd_rename; [eassumption|cp_lookup; exact Hm|not_dir|].
  intros w4 Hu4. split; [lia|].
  apply wp_rbind, wp_check_io. eapply upd_rename; [eassumption|cp_lookup; exact Hc|not_dir|].
  intros w5 Hu5. split; [lia|]. wpure. by apply HQ.
Qed.

Lemma replaced_holds new m c :
  F !! m_sNewCpMetaFilePath o = Some m -> F !! m_sNewCpFilePath o = Some c ->
  holds_new o F (Some new) -> holds o (replaced o m c F) (Some new).
Proof.
  destruct new as [id vs]. intros Hm Hc [H1' H2']. unfold holds, holds_at, replaced. cp_lookup.
  split; congruence.
Qed.
Lemma cleaned_holds old : holds o F old -> holds o (cleaned o F) old.
Proof. unfold holds, holds_at, cleaned. destruct old as [[id vs]|]; cp_lookup; done. Qed.

End recovery.

Section recover.
Context (o : t) (w : world) (F : dirmap) (L : gset string) (w1 : world).
Context (Hr : cp_root o w) (Hu : upd w F L w1).

(** An interrupted save whose ok flag is not there is forgotten; with the ok
    flag it is completed. *)
Lemma upd_recover old Q :
  F !! m_sNewCpSaveOkFilePath o = None -> holds o F old ->
  (forall F' w2, upd w F' L w2 -> holds o F' old -> F' !! m_sNewStartFlagFilePath o = None ->
     F' !! m_sNewCpSaveOkFilePath o = None -> F' !! m_sLockPath o = F !! m_sLockPath o -> elsewhere o F F' ->
     Q (Good tt) (o, w2)) ->
  wp check_and_recover (o, w1) Q.
Proof.
  intros Hk Ho HQ. unfold check_and_recover. wbind. eapply upd_is_completed; [done..|]. intros w2 Hu2.
  destruct (_ && _) eqn:Eb.
  - wpure. apply andb_true_iff in Eb as [[_ Hs]%andb_true_iff _]. apply negb_true_iff, bool_decide_eq_false in Hs.
    apply (HQ F); try done. by apply eq_None_not_Some.
  - wpure. wlift. eapply upd_Exist; [done|not_dir|]. intros w3 Hu3. rewrite Hk.
    rewrite bool_decide_eq_false_2 by (by intros [? ?]). eapply upd_clean; [done..|]. intros w4 Hu4.
    apply (HQ (cleaned o F)); [done|by apply cleaned_holds|by (unfold cleaned; cp_lookup)..|].
    apply elsewhere_cleaned.
Qed.

Lemma upd_recover_ok m c new Q :
  is_Some (F !! m_sNewCpSaveOkFilePath o) -> holds_new o F (Some new) ->
  F !! m_sNewCpMetaFilePath o = Some m -> F !! m_sNewCpFilePath o = Some c ->
  (forall w2, upd w (delete (m_sNewCpSaveOkFilePath o) (replaced o m c F)) L w2 -> Q (Good tt) (o, w2)) ->
  wp check_and_recover (o, w1) Q.
Proof.
  intros Hk Hn Hm Hc HQ. unfold check_and_recover. wbind. eapply upd_is_completed; [done..|]. intros w2 Hu2.
  rewrite (bool_decide_eq_true_2 _ Hk). cbn [negb]. rewrite andb_false_r. wpure.
  wlift. eapply upd_Exist; [done|not_dir|]. intros w3 Hu3. rewrite (bool_decide_eq_true_2 _ Hk). 
  apply wp_rbind. eapply upd_replace; [done..|]. intros w4 Hu4. destruct Hk as [k Hk].
  apply wp_rbind, wp_check_io. eapply upd_unlink; [done| |].
  { unfold replaced. cp_lookup. exact Hk. }
  intros w5 Hu5. split; [lia|]. wpure. by apply HQ.
Qed.
End recover.

(** ** Writing the new checkpoint *)

(** The entries with the version they are written in. *)
Definition versioned (o : t) (es : list E) : list (Z * E) := map (fun e => (m_writeEntryVersion o, e)) es.
Definition snap_of (o : t) (tr : traveller (E := E)) : Z * list (Z * E) := (tr_MaxId tr, versioned o (tr_entries tr)).

Definition entries_ok (es : list E) : Prop := Forall cp_entry_ok es.
Lemma versioned_ok o es : entries_ok es -> Forall (fun v => cp_entry_ok v.2) (versioned o es).
Proof. intros He. apply Forall_map. exact He. Qed.

Section writing.
Context (o : t) (w : world) (L : gset string).
Context (Hr : cp_root o w).

Lemma upd_save_entries fd p es : forall vs F w1 Q,
  upd w F L w1 -> w_fds w1 !! fd = Some (FDesc p (zlen (cp_file vs))) -> w_fds w !! fd = None -> fd <> -1 ->
  F !! p = Some (cp_file vs) -> p ∉ w_dirs w -> Forall (fun v => cp_entry_ok v.2) vs -> entries_ok es ->
  zlen (cp_file (vs ++ versioned o es)) < 4294967296 ->
  (forall w2, upd w (<[p := cp_file (vs ++ versioned o es)]> F) L w2 ->
     is_Some (w_fds w2 !! fd) -> Q (Good tt) (o, w2)) ->
  wp (save_entries host fd es (zlen (cp_file vs))) (o, w1) Q.
Proof.
  induction es as [|e es IH]; intros vs F w1 Q Hu Hd Hf Hfd Hp Hdir Hvs Hes Hlen HQ;
    cbn [versioned map save_entries] in *.
  - wpure. rewrite app_nil_r in HQ. apply HQ; [|eauto]. by rewrite insert_id.
  - inversion_clear Hes as [|? ? He Hes']. pose proof He as [Henc Hsz].
    destruct (Encode_enc e Henc ltac:(lia)) as (eb&->&Hc&Hv&Hl). wpure.
    rewrite (cp_record_spec host (m_writeEntryVersion o) _ eb (enc e) Hc Hv Hl Hsz), Hl.
    pose proof (zlen_nonneg (enc e)). unfold EOCP_ENTRY_EXTRA_FIELDS_SIZE.
    rewrite (u32_small (zlen (enc e))), (u32_small (zlen (enc e) + 9)) by lia.
    set (v := (m_writeEntryVersion o, e)) in *.
    change (Frec [z2b (m_writeEntryVersion o)] (enc e)) with (cp_frame v.1 v.2).
    pose proof (cp_file_snoc vs v Hvs) as Hsnoc.
    assert (zlen (frame (zlen (cp_file vs)) (cp_frame v.1 v.2)) = zlen (enc e) + 9) as Hfl.
    { rewrite (frame_length 1) by (by apply cp_frame_ok). unfold fsize. cbn [f_body cp_frame snd v]. lia. }
    assert (Forall (fun v => cp_entry_ok v.2) (vs ++ [v])) as Hvs' by (apply Forall_app; by repeat constructor).
    assert (zlen (cp_file (vs ++ [v])) = zlen (cp_file vs) + (zlen (enc e) + 9)) as Hnext
      by (by rewrite Hsnoc, zlen_app, Hfl).
    assert (vs ++ v :: versioned o es = (vs ++ [v]) ++ versioned o es) as Happ by (by rewrite <- app_assoc).
    fold (versioned o es) in *. rewrite Happ in *.
    assert (zlen (cp_file (vs ++ [v])) <= zlen (cp_file ((vs ++ [v]) ++ versioned o es))).
    { rewrite (cp_file_length (vs ++ [v])) by done.
      rewrite (cp_file_length ((vs ++ [v]) ++ _)) by (apply Forall_app; split; [done|by apply versioned_ok]).
      rewrite (cp_size_app (vs ++ [v])). pose proof (cp_size_nonneg (versioned o es) (versioned_ok o es Hes')). lia. }
    pose proof (zlen_nonneg (cp_file vs)).
    apply wp_rbind, wp_check_io. eapply upd_append; [done..| |done|].
    { intros Hnil. rewrite Hnil in Hfl. change (zlen (@nil byte)) with 0 in Hfl. lia. }
    intros w2 Hu2 Hd2. split; [lia|]. rewrite <- Hsnoc in Hu2, Hd2. rewrite u32_small by lia. rewrite <- Hnext.
    eapply IH; [exact Hu2|exact Hd2|done|done|by rewrite lookup_insert_eq|done|done|done|done|].
    intros w3 Hu3 Hd3. rewrite insert_insert_eq in Hu3. by apply HQ.
Qed.

Lemma upd_save_new F w1 tr Q :
  upd w F L w1 -> F !! m_sNewCpFilePath o = Some cp_magic -> entries_ok (tr_entries tr) ->
  zlen (cp_file (versioned o (tr_entries tr))) < 4294967296 ->
  (forall w2, upd w (<[m_sNewCpFilePath o := cp_file (versioned o (tr_entries tr))]> F) L w2 -> Q (Good tt) (o, w2)) ->
  wp (save_new_checkpoint host tr) (o, w1) Q.
Proof.
  intros Hu Hp Hes Hlen HQ. unfold save_new_checkpoint. wpure. wlift. eapply upd_open_existing; [done..|].
  intros fd w2 Hu2 Hd2 Hfd _ Hf. unfold with_closer. wbind.
  apply wp_rbind, wp_check_io. eapply wp_lseek_set; [apply (upd_wf _ _ _ _ Hu2)|done|done|].
  split; [done|]. apply wp_rbind.
  change EOCP_MAGIC_NO_LEN with (zlen (cp_file (E := E) [])).
  eapply (upd_save_entries fd (m_sNewCpFilePath o) _ [] F);
    [by eapply upd_touch|by (simpl; rewrite lookup_insert_eq)|done|done|done|not_dir|done|done|done|].
  intros w3 Hu3 [d Hd3]. cbn [app] in Hu3. apply wp_rbind, wp_check_io.
  eapply wp_fdatasync; [apply (upd_wf _ _ _ _ Hu3)|done|]. split; [lia|]. wpure.
  destruct (Z.eqb_spec fd (-1)); [done|]. wbind. wlift.
  eapply upd_close; [done..|]. intros w4 Hu4. wpure. by apply HQ.
Qed.

(** A file created, written and closed. *)
Lemma upd_write_file p bs F w1 Q (rc : Code) :
  upd w F L w1 -> p ∉ w_dirs w -> dirname p ∈ w_dirs w -> bs <> [] ->
  (forall w2, upd w (<[p := bs]> F) L w2 -> Q (Good tt) (o, w2)) ->
  wp (fd ← io (FileUtils.Open p O_WRONLY true true);
      if fd =? -1 then bad_errno FileSystemError
      else with_closer fd (
        _ ←! check_io (IOUtils.WriteFully fd (Some bs)) rc; mret (Good tt))) (o, w1) Q.
Proof.
  intros Hu Hp Hdir Hbs HQ. wlift. eapply upd_open_fresh; [done|done|done|by left|].
  intros fd w2 Hu2 Hd2 Hfd _ Hf. destruct (Z.eqb_spec fd (-1)) as [|_]; [done|]. unfold with_closer. wbind.
  apply wp_rbind, wp_check_io. eapply (upd_append _ _ _ _ Hu2 fd p []); [done|done|done|by rewrite lookup_insert_eq|done|done|].
  intros w3 Hu3 Hd3. split; [pose proof (zlen_nonneg bs); lia|]. wpure.
  destruct (Z.eqb_spec fd (-1)); [done|]. wbind. wlift.
  eapply upd_close; [done..|]. intros w4 Hu4. wpure. rewrite insert_insert_eq in Hu4. by apply HQ.
Qed.

Lemma upd_create_meta id F w1 Q :
  upd w F L w1 -> 0 <= id ->
  (forall w2, upd w (<[m_sNewCpMetaFilePath o := meta_bytes id]> F) L w2 -> Q (Good tt) (o, w2)) ->
  wp (create_new_meta_file id) (o, w1) Q.
Proof.
  intros Hu Hid HQ. unfold create_new_meta_file. wpure. eapply upd_write_file; [done|not_dir|in_root| |done].
  intros Hn. apply (ToString_digits id Hid). apply (f_equal string_of) in Hn. by rewrite string_of_bytes_of in Hn.
Qed.

Lemma upd_create_file F w1 Q :
  upd w F L w1 -> (forall w2, upd w (<[m_sNewCpFilePath o := cp_magic]> F) L w2 -> Q (Good tt) (o, w2)) ->
  wp (create_new_checkpoint_file host) (o, w1) Q.
Proof.
  intros Hu HQ. unfold create_new_checkpoint_file. wpure.
  assert (ByteOrderUtils.WriteUInt32 host (replicate 4 x00) EOCP_MAGIC_NO = cp_magic) as ->
    by (by destruct host).
  wlift. eapply upd_open_fresh; [done|not_dir|in_root|by left|].
  intros fd w2 Hu2 Hd2 Hfd _ Hf. destruct (Z.eqb_spec fd (-1)) as [|_]; [done|]. unfold with_closer. wbind.
  apply wp_rbind, wp_check_io.
  eapply (upd_append _ _ _ _ Hu2 fd _ []); [done|done|done|by rewrite lookup_insert_eq|done|not_dir|].
  intros w3 Hu3 Hd3. split; [done|]. wpure.
  destruct (Z.eqb_spec fd (-1)); [done|]. wbind. wlift.
  eapply upd_close; [done..|]. intros w4 Hu4. wpure. rewrite insert_insert_eq in Hu4. by apply HQ.
Qed.
End writing.

(** ** The child process *)

Lemma upd_set_locking w F L w1 f : upd w F L w1 -> upd w F (f L) (set_locking f w1).
Proof. intros [Hw ? <- ? ? ?]. split; try done. by destruct Hw. Qed.

Section child.
Context (o : t) (w : world) (L : gset string).
Context (Hr : cp_root o w) (Hnl : m_sLockPath o ∉ L) (Hnf : m_sLockPath o ∉ w_flocks w).

Definition touched (p : string) (F : dirmap) : dirmap := match F !! p with Some _ => F | None => <[p := []]> F end.

Lemma upd_LockPath F w1 Q :
  upd w F L w1 ->
  (forall fd w2, upd w (touched (m_sLockPath o) F) ({[m_sLockPath o]} ∪ L) w2 -> is_Some (w_fds w2 !! fd) ->
     w_fds w !! fd = None -> fd <> -1 -> Q (MkFile fd (m_sLockPath o)) w2) ->
  wp (FileUtils.LockPath (m_sLockPath o)) w1 Q.
Proof.
  intros Hu HQ. unfold FileUtils.LockPath, FileUtils.is_locking_file. wpure.
  rewrite (upd_locking _ _ _ _ Hu), bool_decide_eq_false_2 by done.
  assert (forall fd w2, upd w (touched (m_sLockPath o) F) L w2 -> w_fds w2 !! fd = Some (FDesc (m_sLockPath o) 0) ->
    fd <> -1 -> 0 < fd -> w_fds w !! fd = None ->
    wp (if fd =? -1 then mret File_default
        else r ← sys_setlkw (m_sLockPath o);
          if r =? -1 then sys_close fd;; mret File_default
          else FileUtils.add_locking (m_sLockPath o);; mret (MkFile fd (m_sLockPath o))) w2 Q) as Hrest.
  { intros fd w2 Hu2 Hd2 Hfd _ Hf. destruct (Z.eqb_spec fd (-1)); [done|]. unfold sys_setlkw. wpure.
    wbind. apply wp_enter; [apply (upd_wf _ _ _ _ Hu2)|]. wpure. cbn [Z.eqb Pos.eqb]. unfold FileUtils.add_locking. wpure.
    apply HQ; [|by simpl; eauto|done|done]. apply (upd_set_locking _ _ L).
    destruct Hu2 as [Hw2 ? ? ? Hfl ?]. split; try done; simpl; [by destruct Hw2|]. rewrite Hfl.
    by apply difference_disjoint_L, disjoint_singleton_r. }
  wbind. unfold touched in *. destruct (F !! m_sLockPath o) as [c|] eqn:Hc.
  - by eapply upd_open_existing.
  - eapply upd_open_fresh; [done|not_dir|in_root|by right|done].
Qed.

Lemma upd_drop_lock fd F w1 Q :
  upd w F ({[m_sLockPath o]} ∪ L) w1 -> is_Some (w_fds w1 !! fd) -> w_fds w !! fd = None ->
  (forall w2, upd w (delete (m_sLockPath o) F) L w2 -> Q true (o, w2)) ->
  wp (drop_lock (MkFile fd (m_sLockPath o))) (o, w1) Q.
Proof.
  intros Hu [d Hd] Hf HQ. unfold drop_lock, FileUtils.CloseFile. wlift. cbn [Files.fd Files.path]. wbind.
  eapply upd_close; [done..|]. intros w2 Hu2. unfold FileUtils.remove_locking_file_if_exist. wpure. cbn [Z.eqb].
  apply (upd_set_locking _ _ _ _ (fun s => s ∖ {[m_sLockPath o]})) in Hu2.
  replace (({[m_sLockPath o]} ∪ L) ∖ {[m_sLockPath o]}) with L in Hu2 by set_solver.
  wlift. eapply upd_Unlink; [exact Hu2|not_dir|]. intros w3 Hu3. wpure. by apply HQ.
Qed.
End child.

Section promotion.
Context (o : t) (w : world) (L : gset string).
Context (Hr : cp_root o w).

Lemma upd_init_new id F w1 Q :
  upd w F L w1 -> 0 <= id -> F !! m_sNewStartFlagFilePath o = None ->
  (forall w2, upd w (<[m_sNewCpFilePath o := cp_magic]> (<[m_sNewCpMetaFilePath o := meta_bytes id]>
                      (<[m_sNewStartFlagFilePath o := []]> F))) L w2 -> Q (Good tt) (o, w2)) ->
  wp (init_new_checkpoint host id) (o, w1) Q.
Proof.
  intros Hu Hid Hs HQ. unfold init_new_checkpoint. wpure. wlift.
  eapply upd_open_fresh; [done|not_dir|in_root|by right|]. intros fd w2 Hu2 Hd2 Hfd _ Hf.
  destruct (Z.eqb_spec fd (-1)); [done|]. wlift. eapply upd_close; [done..|]. intros w3 Hu3.
  apply wp_rbind. eapply upd_create_meta; [done..|]. intros w4 Hu4. by eapply upd_create_file.
Qed.

Lemma upd_create_ok F w1 Q :
  upd w F L w1 -> (forall w2, upd w (<[m_sNewCpSaveOkFilePath o := []]> F) L w2 -> Q (Good tt) (o, w2)) ->
  wp create_ok_flag (o, w1) Q.
Proof.
  intros Hu HQ. unfold create_ok_flag. wpure. wlift.
  eapply upd_open_fresh; [done|not_dir|in_root|by left|]. intros fd w2 Hu2 Hd2 Hfd _ Hf.
  destruct (Z.eqb_spec fd (-1)); [done|]. apply wp_rbind, wp_check_io. eapply upd_close; [done..|]. intros w3 Hu3.
  split; [lia|]. wpure. by apply HQ.
Qed.

Lemma upd_promote m c F w1 Q :
  upd w F L w1 -> F !! m_sNewCpMetaFilePath o = Some m -> F !! m_sNewCpFilePath o = Some c ->
  (forall w2, upd w (delete (m_sNewCpSaveOkFilePath o) (replaced o m c (delete (m_sNewStartFlagFilePath o) F))) L w2 ->
     Q tt (o, w2)) ->
  wp promote (o, w1) Q.
Proof.
  intros Hu Hm Hc HQ. unfold promote. wpure. wlift. eapply upd_Unlink; [done|not_dir|]. intros w2 Hu2. cbn [Z.eqb].
  wbind. eapply upd_replace; [done|done|cp_lookup; done..|]. intros w3 Hu3. wpure. wlift.
  eapply upd_Unlink; [done|not_dir|]. intros w4 Hu4. wpure. by apply HQ.
Qed.
End promotion.

(** ** The whole save *)

Lemma elsewhere_trans o F1 F2 F3 : elsewhere o F1 F2 -> elsewhere o F2 F3 -> elsewhere o F1 F3.
Proof. intros Ha Hb p Hp. by rewrite (Hb p Hp), (Ha p Hp). Qed.
Lemma elsewhere_touched o n F : n ∈ cp_names -> elsewhere o F (touched (at_root (m_sRootDir o) n) F).
Proof.
  intros Hn p Hp. unfold touched. destruct (F !! at_root _ n); [done|].
  rewrite lookup_insert_ne; [done|]. symmetry. by apply Hp.
Qed.
Lemma cp_root_upd o w F L w1 : cp_root o w -> upd w F L w1 -> cp_root o w1.
Proof. intros [? ? Hn] [? ? ? Hd ? ?]. split; [done|congruence|]. by rewrite Hd. Qed.

(** The traveller of a new checkpoint. *)
Definition tr_ok (o : t) (tr : traveller (E := E)) : Prop :=
  0 < tr_MaxId tr < CommonUtils.ULONG_MAX /\ entries_ok (tr_entries tr) /\
  zlen (cp_file (versioned o (tr_entries tr))) < 4294967296.

(** The child between taking the lock and dropping it. *)
Definition prepared (o : t) (tr : traveller (E := E)) (F : dirmap) : dirmap :=
  <[m_sNewCpSaveOkFilePath o := []]> (<[m_sNewCpFilePath o := cp_file (versioned o (tr_entries tr))]>
    (<[m_sNewCpMetaFilePath o := meta_bytes (tr_MaxId tr)]> (<[m_sNewStartFlagFilePath o := []]> F))).

(** The directory when the child is done. *)
Definition promoted (o : t) (tr : traveller (E := E)) (F : dirmap) : dirmap :=
  delete (m_sNewCpSaveOkFilePath o)
    (replaced o (meta_bytes (tr_MaxId tr)) (cp_file (versioned o (tr_entries tr)))
      (delete (m_sNewStartFlagFilePath o) (delete (m_sLockPath o) (prepared o tr F)))).

Lemma promoted_spec o tr F :
  holds o (promoted o tr F) (Some (snap_of o tr)) /\ idle o (promoted o tr F) /\ elsewhere o F (promoted o tr F).
Proof.
  split; [|split].
  - unfold holds, holds_at, promoted, replaced. cbn [snap_of]. by cp_lookup.
  - unfold idle, promoted, replaced, prepared. by cp_lookup.
  - unfold promoted, prepared. elsewhere_tac.
Qed.

Section whole.
Context (o : t) (w : world) (F : dirmap) (L : gset string) (w1 : world).
Context (Hr : cp_root o w) (Hnl : m_sLockPath o ∉ L) (Hnf : m_sLockPath o ∉ w_flocks w) (Hu : upd w F L w1).
Context (old : snapshot) (Ho : holds o F old) (Hold : snap_ok old).

Lemma upd_child tr Q :
  F !! m_sNewCpSaveOkFilePath o = None -> tr_ok o tr -> snap_id old < tr_MaxId tr ->
  (forall F' w2, upd w F' L w2 -> holds o F' (Some (snap_of o tr)) -> idle o F' -> elsewhere o F F' -> Q tt (o, w2)) ->
  wp (do_save_in_child host tr) (o, w1) Q.
Proof.
  intros Hk (Hid&Hes&Hlen) Hnew HQ. unfold do_save_in_child. wpure. wlift.
  eapply (upd_LockPath o w L Hr Hnl Hnf F w1); [done|]. intros fd w2 Hu2 Hd2 Hf Hfd. cbn [Files.fd]. destruct (Z.eqb_spec fd (-1)); [done|].
  set (F1 := touched (m_sLockPath o) F) in *.
  assert (forall p, p <> m_sLockPath o -> F1 !! p = F !! p) as HF1.
  { intros p Hp. unfold F1, touched. destruct (F !! m_sLockPath o); [done|]. by rewrite lookup_insert_ne. }
  assert (holds o F1 old) as Ho1.
  { destruct old as [[id vs]|]; unfold holds, holds_at in *; rewrite !HF1 by path_ne; done. }
  pose proof (cp_root_upd _ _ _ _ _ Hr Hu2) as Hr2. pose proof (upd_rebase _ _ _ _ Hu2) as Hb2.
  wbind. eapply (upd_load_meta o w2 F1 _ w2 Hr2 Hb2 old); [done..|]. intros w3 Hu3. destruct (Z.leb_spec (tr_MaxId tr) (snap_id old)); [lia|].
  wbind. eapply upd_recover; [done|exact Hu3|by rewrite HF1 by path_ne|exact Ho1|].
  intros F2 w4 Hu4 Ho2 Hs2 Hk2 _ Hel2.
  wbind. eapply upd_init_new; [done|exact Hu4|lia|done|]. intros w5 Hu5.
  wbind. eapply upd_save_new; [done|exact Hu5|by rewrite lookup_insert_eq|done|done|]. intros w6 Hu6.
  rewrite insert_insert_eq in Hu6. wbind. eapply upd_create_ok; [done|exact Hu6|]. intros w7 Hu7.
  fold (prepared o tr F2) in Hu7. pose proof (upd_trans _ _ _ _ _ _ _ Hu2 Hu7) as Hu7'.
  destruct Hd2 as [d Hd2]. wbind.
  eapply (upd_drop_lock o w L Hr Hnl Hnf); [exact Hu7'|exists d; by apply (upd_fds _ _ _ _ Hu7)|done|]. intros w8 Hu8.
  eapply upd_promote; [exact Hr|exact Hu8|unfold prepared; by cp_lookup..|]. intros w9 Hu9.
  fold (promoted o tr F2) in Hu9. destruct (promoted_spec o tr F2) as (?&?&?).
  apply (HQ (promoted o tr F2)); [done..|].
  eapply elsewhere_trans; [|done]. eapply elsewhere_trans; [|exact Hel2].
  unfold F1. rewrite Lock_at. apply elsewhere_touched. in_names.
Qed.

(** A traveller that is not ahead of the stored checkpoint changes nothing. *)
Lemma upd_child_stale tr Q :
  tr_MaxId tr <= snap_id old ->
  (forall w2, upd w (delete (m_sLockPath o) F) L w2 -> Q tt (o, w2)) ->
  wp (do_save_in_child host tr) (o, w1) Q.
Proof.
  intros Hst HQ. unfold do_save_in_child. wpure. wlift.
  eapply (upd_LockPath o w L Hr Hnl Hnf F w1); [done|]. intros fd w2 Hu2 [d Hd2] Hf Hfd. cbn [Files.fd]. destruct (Z.eqb_spec fd (-1)); [done|].
  set (F1 := touched (m_sLockPath o) F) in *.
  assert (forall p, p <> m_sLockPath o -> F1 !! p = F !! p) as HF1.
  { intros p Hp. unfold F1, touched. destruct (F !! m_sLockPath o); [done|]. by rewrite lookup_insert_ne. }
  assert (holds o F1 old) as Ho1.
  { destruct old as [[id vs]|]; unfold holds, holds_at in *; rewrite !HF1 by path_ne; done. }
  pose proof (cp_root_upd _ _ _ _ _ Hr Hu2) as Hr2. pose proof (upd_rebase _ _ _ _ Hu2) as Hb2.
  wbind. eapply (upd_load_meta o w2 F1 _ w2 Hr2 Hb2 old); [done..|]. intros w3 Hu3. destruct (Z.leb_spec (tr_MaxId tr) (snap_id old)); [|lia].
  pose proof (upd_trans _ _ _ _ _ _ _ Hu2 Hu3) as Hu3'.
  wbind. eapply (upd_drop_lock o w L Hr Hnl Hnf); [exact Hu3'|exists d; by apply (upd_fds _ _ _ _ Hu3)|done|]. intros w4 Hu4. wpure.
  apply HQ. replace (delete (m_sLockPath o) F) with (delete (m_sLockPath o) F1); [done|].
  apply map_eq. intros p. destruct (decide (p = m_sLockPath o)) as [->|Hp]; [by rewrite !lookup_delete_eq|].
  rewrite !lookup_delete_ne by done. by apply HF1.
Qed.
End whole.

(** ** The parent process *)

(** The parent's world after the child: the child's files, the parent's own
    descriptors and lock table. *)
Definition after_child (w w' : world) : world :=
  World (w_files w') (w_dirs w') (w_fds w) (w_next_fd w) (w_errno w) (w_locking w) (w_flocks w') (w_sched w').

Lemma wp_run_child body (o : t) w Q :
  wp body (o, w) (fun _ s => Q tt (o, after_child w s.2)) -> wp (run_child body) (o, w) Q.
Proof. unfold wp, wpc, run_child. by destruct (body (o, w)) as [[a|[]] [o' w']]. Qed.

Lemma upd_after_child w w1 F L F' L' w2 :
  upd w F L w1 -> upd w F' L' w2 -> upd w F' L (after_child w1 w2).
Proof.
  intros [Hw1 ? ? ? ? ?] [Hw2 ? ? Hd ? ?]. destruct Hw1 as [_ Hn Hf _], Hw2 as [Hq _ _ Hdj].
  split; simpl; try congruence; [by split|done].
Qed.

Lemma upd_IsLocking o w F L w1 Q :
  cp_root o w -> m_sLockPath o ∉ L -> m_sLockPath o ∉ w_flocks w -> upd w F L w1 ->
  (forall w2, upd w F L w2 -> Q 0 w2) -> wp (FileUtils.IsLocking (m_sLockPath o)) w1 Q.
Proof.
  intros Hr Hnl Hnf Hu HQ. unfold FileUtils.IsLocking, FileUtils.is_locking_file. wpure.
  rewrite (upd_locking _ _ _ _ Hu), bool_decide_eq_false_2 by done.
  wbind. eapply upd_Exist; [done|not_dir|]. intros w2 Hu2.
  destruct (F !! m_sLockPath o) as [c|] eqn:Hc.
  - rewrite bool_decide_eq_true_2 by eauto. cbn [negb]. wbind. eapply upd_open_existing; [done..|].
    intros fd w3 Hu3 Hd Hfd _ Hf. destruct (Z.eqb_spec fd (-1)); [done|]. unfold sys_getlk. wpure. wbind.
    apply wp_enter; [apply (upd_wf _ _ _ _ Hu3)|]. wpure.
    rewrite (upd_flocks _ _ _ _ Hu3), bool_decide_eq_false_2 by done.
    wbind. eapply upd_close; [done..|]. intros w4 Hu4. wpure. by apply HQ.
  - rewrite bool_decide_eq_false_2 by (by intros [? ?]). cbn [negb]. wpure. by apply HQ.
Qed.

Lemma upd_parent o w F L w1 now Q :
  cp_root o w -> upd w F L w1 -> idle o F -> holds o F now -> snap_ok now ->
  (forall w2, upd w F L w2 -> Q (Good (snap_id now)) (o, w2)) ->
  wp do_save_in_parent (o, w1) Q.
Proof.
  intros Hr Hu Hi Ho Hs HQ. unfold do_save_in_parent. wlift. wpure. wlift. cbn [wait_child]. wbind.
  apply wp_enter; [apply (upd_wf _ _ _ _ Hu)|]. wpure. cbn [negb].
  wbind. eapply upd_completed; [done..|]. intros w2 Hu2. by eapply upd_load_meta.
Qed.

(** A directory that holds [old] and in which [o] may save. *)
Record ready (o : t) (old : snapshot) (w : world) : Prop := {
  rd_root : cp_root o w;
  rd_inited : m_bInited o = true;
  rd_locking : m_sLockPath o ∉ w_locking w;
  rd_flocks : m_sLockPath o ∉ w_flocks w;
  rd_holds : holds o (w_files w) old;
  rd_snap : snap_ok old;
  rd_idle : idle o (w_files w)
}.

Lemma ready_upd o old w now F w1 :
  ready o old w -> upd w F (w_locking w) w1 -> holds o F now -> snap_ok now -> idle o F -> ready o now w1.
Proof.
  intros [Hr ? ? ? ? ? ?] Hu Hh Hs Hi. pose proof (cp_root_upd _ _ _ _ _ Hr Hu) as Hr1.
  destruct Hu as [? Hf Hl ? Hfl ?]. split; try done; rewrite ?Hf, ?Hl, ?Hfl; done.
Qed.

Section saving.
Context (o : t) (old : snapshot) (w : world) (Hrd : ready o old w).

(** The snapshot [Save] leaves: the traveller's, unless it is not ahead. *)
Definition saved (tr : traveller (E := E)) : snapshot :=
  if snap_id old <? tr_MaxId tr then Some (snap_of o tr) else old.

Lemma saved_ok tr : tr_ok o tr -> snap_ok (saved tr).
Proof.
  intros (?&?&?). unfold saved. destruct (_ <? _); [|apply (rd_snap _ _ _ Hrd)].
  split; [done|by apply versioned_ok].
Qed.

Lemma ready_child tr w1 Q :
  upd w (w_files w) (w_locking w) w1 -> tr_ok o tr ->
  (forall F' w2, upd w F' (w_locking w) w2 -> holds o F' (saved tr) -> idle o F' -> elsewhere o (w_files w) F' ->
     Q tt (o, w2)) ->
  wp (do_save_in_child host tr) (o, w1) Q.
Proof.
  intros Hu Htr HQ. destruct Hrd as [Hr _ Hnl Hnf Ho Hold Hi]. unfold saved in HQ.
  destruct (Z.ltb_spec (snap_id old) (tr_MaxId tr)).
  - apply (upd_child o w (w_files w) (w_locking w) w1 Hr Hnl Hnf Hu old Ho Hold); try done. apply Hi.
  - apply (upd_child_stale o w (w_files w) (w_locking w) w1 Hr Hnl Hnf Hu old Ho Hold); try done. intros w2 Hu2. destruct Hi as (Hl&Hs&Hk).
    rewrite delete_id in Hu2 by done. by apply (HQ (w_files w)).
Qed.

Lemma Save_spec tr Q :
  tr_ok o tr ->
  (forall w2, ready o (saved tr) w2 -> elsewhere o (w_files w) (w_files w2) -> w_dirs w2 = w_dirs w ->
     (forall fd d, w_fds w !! fd = Some d -> w_fds w2 !! fd = Some d) ->
     Q (Good (snap_id (saved tr)), [Prepare; CompletePrepare]) (o, w2)) ->
  wp (Save host tr) (o, w) Q.
Proof.
  intros Htr HQ. pose proof Hrd as [Hr Hin Hnl Hnf Ho Hold Hi]. unfold Save. wpure. rewrite Hin. cbn [negb]. wpure.
  wlift. eapply (upd_IsLocking o w _ (w_locking w)); [done|done|done|by apply upd_refl, (cr_wf _ _ Hr)|]. intros w1 Hu1. cbn [Z.eqb].
  wlift. apply wp_enter; [apply (upd_wf _ _ _ _ Hu1)|]. wbind. apply wp_run_child.
  eapply ready_child; [done..|]. intros F' w2 Hu2 Hh Hid Hel.
  pose proof (upd_after_child _ _ _ _ _ _ _ Hu1 Hu2) as Hu3. cbn [snd].
  wbind. eapply upd_parent; [done|exact Hu3|done|exact Hh|by apply saved_ok|]. intros w3 Hu4. wpure.
  pose proof (ready_upd o old w (saved tr) F' w3 Hrd Hu4 Hh (saved_ok tr Htr) Hid) as Hrd3.
  destruct Hu4 as [? Hf ? ? ? ?]. apply HQ; [done|by rewrite Hf|done|done].
Qed.
End saving.

(** ** Loading what a directory holds *)

Lemma upd_of_keeps w w' : wf w -> keeps w w' -> upd w (w_files w) (w_locking w) w'.
Proof. intros Hw Hk. eapply upd_keeps; [by apply upd_refl|done]. Qed.

Lemma Load_spec o id vs tail w Q :
  cp_root o w -> m_bInited o = true -> snap_ok (Some (id, vs)) ->
  w_files w !! m_sCpMetaFilePath o = Some (meta_bytes id) ->
  w_files w !! m_sCpFilePath o = Some (cp_file vs ++ tail) -> torn 1 tail ->
  0 < m_batchReadSize o -> zlen (cp_file vs ++ tail) + m_batchReadSize o < 4294967296 ->
  (forall bs w', upd w (w_files w) (w_locking w) w' -> handed tail vs bs -> Q (cp_end id tail, bs) (o, w')) ->
  wp (Load host) (o, w) Q.
Proof.
  intros Hr Hin Hs Hm Hc Ht Hb Hsz HQ. pose proof (upd_refl w (cr_wf _ _ Hr)) as Hu.
  unfold Load. wpure. rewrite Hin. cbn [negb]. wbind.
  assert (wp load_meta (o, w) (fun r s => exists w1, r = Good id /\ s = (o, w1) /\
    upd w (w_files w) (w_locking w) w1)) as Hload.
  { unfold load_meta. wpure. wlift. eapply upd_Exist; [exact Hu|not_dir|]. intros w2 Hu2.
    rewrite bool_decide_eq_true_2 by (rewrite Hm; eauto). cbn [negb].
    wlift. eapply upd_ReadAllString; [done..|]. intros w3 Hu3. unfold meta_bytes. rewrite string_of_bytes_of.
    wlift. destruct Hs as [Hid _]. apply wp_ToUint46_t; [unfold CommonUtils.ULONG_MAX in *; lia|].
    cbn [negb]. wpure. by exists w3. }
  eapply wp_mono; [exact Hload|]. intros r s (w1&->&->&Hu1). destruct Hs as [Hid Hvs].
  destruct (Z.eqb_spec id EOCP_INVALID_ENTRY_ID) as [->|_]; [unfold EOCP_INVALID_ENTRY_ID in *; lia|].
  eapply load_file_spec; [apply (upd_wf _ _ _ _ Hu1)|by rewrite (upd_files _ _ _ _ Hu1)|done|done|done|done|].
  intros bs w2 Hk Hh. apply HQ; [|done]. by eapply upd_keeps.
Qed.

Lemma Load_none o w Q :
  cp_root o w -> m_bInited o = true -> w_files w !! m_sCpMetaFilePath o = None ->
  (forall w', upd w (w_files w) (w_locking w) w' -> Q (Good EOCP_INVALID_ENTRY_ID, []) (o, w')) ->
  wp (Load host) (o, w) Q.
Proof.
  intros Hr Hin Hm HQ. pose proof (upd_refl w (cr_wf _ _ Hr)) as Hu.
  unfold Load. wpure. rewrite Hin. cbn [negb]. wbind.
  eapply (upd_load_meta o w (w_files w) (w_locking w) w Hr Hu None); [done..|]. intros w2 Hu2. cbn [snap_id]. wpure.
  by apply HQ.
Qed.

(** What a loader gets to see of a snapshot. *)
Definition shown (old : snapshot) (r : result Code Z * list (list E)) : Prop :=
  r.1 = Good (snap_id old) /\ concat r.2 = match old with Some (_, vs) => reloaded vs | None => [] end.
Definition fits (o : t) (old : snapshot) : Prop :=
  match old with Some (_, vs) => zlen (cp_file vs) + m_batchReadSize o < 4294967296 | None => True end.

Lemma Load_holds o old w Q :
  cp_root o w -> m_bInited o = true -> snap_ok old -> holds o (w_files w) old ->
  0 < m_batchReadSize o -> fits o old ->
  (forall r w', upd w (w_files w) (w_locking w) w' -> shown old r -> Q r (o, w')) ->
  wp (Load host) (o, w) Q.
Proof.
  intros Hr Hin Hs Ho Hb Hf HQ. destruct old as [[id vs]|]; cbn [holds holds_at] in Ho.
  - destruct Ho as [Hm Hc]. eapply (Load_spec o id vs []); rewrite ?app_nil_r; try done; [by apply torn_nil|].
    intros bs w' Hu [_ Hh]. apply HQ; [done|]. split; [done|]. by apply Hh.
  - eapply Load_none; try done. intros w' Hu. by apply HQ.
Qed.

Lemma Init_spec o w Q :
  (forall d, d ∈ dir_path (m_sRootDir o) -> d ∈ w_dirs w) -> wf w ->
  wp check_and_recover (o, w) (fun r s => Q r (set_inited true s.1, s.2)) -> wp Init (o, w) Q.
Proof.
  intros Hd Hw Hrun. unfold Init. wpure. apply wp_rbind, wp_check_io.
  apply quiet_CreateDirPath; [done|done|]. split; [done|]. eapply wp_mono; [exact Hrun|].
  intros r [o' w'] HQ. by wpure.
Qed.
End save.
