(* ===== verification/CheckpointTheorems.v ===== *)
(** * What the checkpoint guarantees

    The theorems about [EntryOrderCheckpoint] for every entry type that keeps the
    contract [IEntryLaws], and runs on a concrete directory. *)

From S2P Require Import Prelude Codec Buffer Posix Files Quiet Updates Records Entries KvEntries.
From S2P Require Import Checkpoint CheckpointLoad CheckpointSave.
Import EntryOrderCheckpoint.

(** ** A concrete directory *)

#[local] Existing Instance demo_pool.
#[local] Existing Instance demo_pb.

Definition cp_entry (k v : list byte) : raw_entry := RawE (Some (MkEntry k v)).
Definition cp_object (batch : Z) : t := Make "/c" true 1 batch.
Definition cp_fresh : t := Make "/c" false 1 16.
Definition cp_disk (files : gmap string (list byte)) : world := World files {["/c"; ""; "/"]} ∅ 3 0 ∅ ∅ [].

Definition cp_old : Z * list (Z * raw_entry) := (4, [(1, cp_entry [x61] [x31])]).
Definition cp_new : traveller (E := raw_entry) := Traveller [cp_entry [x61] [x31]; cp_entry [x62] [x32; x33]] 9.

Definition cp_old_files : gmap string (list byte) :=
  {["/c/.meta" := meta_bytes 4; "/c/smcp" := cp_file cp_old.2]}.
(** The new checkpoint is complete, the old one still in place. *)
Definition cp_both_files : gmap string (list byte) :=
  <["/c/.meta.new" := meta_bytes 9]> (<["/c/smcp.new" := cp_file (versioned (cp_object 16) (tr_entries cp_new))]>
    (<["/c/smcp.start" := []]> cp_old_files)).

Lemma cp_wf files : (forall p, p ∈ ({["/c"; ""; "/"]} : gset string) -> files !! p = None) -> wf (cp_disk files).
Proof. by split. Qed.
Lemma cp_disk_root b files :
  (forall p, p ∈ ({["/c"; ""; "/"]} : gset string) -> files !! p = None) -> cp_root (cp_object b) (cp_disk files).
Proof.
  intros Hf. split; [by apply cp_wf|simpl; set_solver|]. intros n Hn. cbn [w_dirs cp_disk].
  rewrite !elem_of_union, !elem_of_singleton. apply list_elem_of_In in Hn.
  repeat destruct Hn as [<-|Hn]; [vm_compute; intuition discriminate..|done].
Qed.
Lemma cp_entry_fits k v : k <> [] -> zlen (pb_bytes (MkEntry k v)) + 9 < 2147483648 -> cp_entry_ok (cp_entry k v).
Proof. by split. Qed.
Lemma cp_old_ok : snap_ok (Some cp_old).
Proof. split; [unfold CommonUtils.ULONG_MAX; simpl; lia|]. repeat constructor; try done. Qed.
Lemma cp_new_ok b : tr_ok (cp_object b) cp_new.
Proof.
  split; [unfold CommonUtils.ULONG_MAX; simpl; lia|]. split; [|vm_compute; reflexivity].
  repeat constructor; try done.
Qed.

Ltac no_dir_file := intros p; rewrite !elem_of_union, !elem_of_singleton; intuition subst; vm_compute; reflexivity.

Lemma cp_old_ready b : ready (cp_object b) (Some cp_old) (cp_disk cp_old_files).
Proof.
  split; [apply cp_disk_root; no_dir_file|done|done|done| |exact cp_old_ok|].
  - split; vm_compute; reflexivity.
  - repeat split; vm_compute; reflexivity.
Qed.

(** ** Save, then Load *)

(** C5 checkpoint_save_load: in a run without faults a [Save] of a traveller
    that is ahead of the stored checkpoint returns its id and calls both hooks,
    touches nothing outside the seven checkpoint files, and leaves the directory
    ready for the next save; a [Load] that follows returns that id and hands
    over exactly the saved entries in order, for every batch size. *)
Theorem checkpoint_save_load (host : byte_order) `{MemAlloc} {E} `{IEntryLaws E}
    (o : t) (old : option (Z * list (Z * E))) (tr : traveller (E := E)) (w : world)
    (Hrd : ready o old w) (Htr : tr_ok o tr) (Hnew : snap_id old < tr_MaxId tr)
    (Hb : 0 < m_batchReadSize o) (Hfit : fits o (Some (snap_of o tr))) :
  wp (r ← Save host tr; l ← Load host; mret (r, l)) (o, w) (fun x s =>
    x.1 = (Good (tr_MaxId tr), [Prepare; CompletePrepare]) /\
    x.2.1 = Good (tr_MaxId tr) /\ concat x.2.2 = map reload (tr_entries tr) /\
    elsewhere o (w_files w) (w_files s.2) /\ ready o (Some (snap_of o tr)) s.2).
Proof.
  wbind. eapply Save_spec; [exact Hrd|done|]. intros w1 Hrd1 Hel _ _. unfold saved in *.
  rewrite (proj2 (Z.ltb_lt _ _) Hnew) in *. wbind.
  eapply Load_holds; [apply Hrd1..|done|done|]. intros r w2 Hu2 [Hr1 Hr2]. wpure.
  split; [done|]. split; [done|]. split.
  - rewrite Hr2. unfold snap_of, reloaded, versioned. by rewrite map_map.
  - pose proof (upd_files _ _ _ _ Hu2) as Hf. split; [by rewrite Hf|].
    eapply ready_upd; [exact Hrd1|exact Hu2|apply Hrd1..].
Qed.

Lemma checkpoint_save_load_witness :
  wp (r ← Save LITTLE_ENDIAN cp_new; l ← Load LITTLE_ENDIAN; mret (r, l)) (cp_object 5, cp_disk cp_old_files)
    (fun x s =>
    x.1 = (Good (tr_MaxId cp_new), [Prepare; CompletePrepare]) /\
    x.2.1 = Good (tr_MaxId cp_new) /\ concat x.2.2 = map reload (tr_entries cp_new) /\
    elsewhere (cp_object 5) (w_files (cp_disk cp_old_files)) (w_files s.2) /\
    ready (cp_object 5) (Some (snap_of (cp_object 5) cp_new)) s.2).
Proof.
  apply (checkpoint_save_load LITTLE_ENDIAN (cp_object 5) (Some cp_old) cp_new (cp_disk cp_old_files)).
  - exact (cp_old_ready 5).
  - exact (cp_new_ok 5).
  - simpl. lia.
  - simpl. lia.
  - vm_compute. reflexivity.
Defined.

(** A [Save] of a traveller that is not ahead of the
    stored checkpoint returns the id of the stored one, keeps that checkpoint and
    touches nothing outside the seven checkpoint files. *)
Theorem checkpoint_save_stale (host : byte_order) `{MemAlloc} {E} `{IEntryLaws E}
    (o : t) (old : option (Z * list (Z * E))) (tr : traveller (E := E)) (w : world)
    (Hrd : ready o old w) (Htr : tr_ok o tr) (Hst : tr_MaxId tr <= snap_id old) :
  wp (Save host tr) (o, w) (fun x s =>
    x = (Good (snap_id old), [Prepare; CompletePrepare]) /\ ready o old s.2 /\ elsewhere o (w_files w) (w_files s.2)).
Proof.
  eapply Save_spec; [exact Hrd|done|]. intros w1 Hrd1 Hel _ _. unfold saved in *.
  assert (snap_id old <? tr_MaxId tr = false) as Hlt by (apply Z.ltb_ge; lia). rewrite Hlt in *. done.
Qed.

Lemma checkpoint_save_stale_witness :
  wp (Save LITTLE_ENDIAN (Traveller [] 4)) (cp_object 5, cp_disk cp_old_files) (fun x s =>
    x = (Good (snap_id (Some cp_old)), [Prepare; CompletePrepare]) /\ ready (cp_object 5) (Some cp_old) s.2 /\
    elsewhere (cp_object 5) (w_files (cp_disk cp_old_files)) (w_files s.2)).
Proof.
  apply (checkpoint_save_stale LITTLE_ENDIAN (cp_object 5) (Some cp_old) (Traveller [] 4) (cp_disk cp_old_files)).
  - exact (cp_old_ready 5).
  - split; [unfold CommonUtils.ULONG_MAX; simpl; lia|]. split; [constructor|vm_compute; reflexivity].
  - simpl. lia.
Defined.

(** A checkpoint file that ends inside an entry is
    reported as corrupt for every batch size; what the callback was given before
    is a prefix of the entries. *)
Theorem checkpoint_load_torn (host : byte_order) `{MemAlloc} {E} `{IEntryLaws E}
    (o : t) (id : Z) (vs : list (Z * E)) (tail : list byte) (w : world)
    (Hr : cp_root o w) (Hin : m_bInited o = true) (Hs : snap_ok (Some (id, vs)))
    (Hm : w_files w !! m_sCpMetaFilePath o = Some (meta_bytes id))
    (Hc : w_files w !! m_sCpFilePath o = Some (cp_file vs ++ tail)) (Ht : torn 1 tail) (Hne : tail <> [])
    (Hb : 0 < m_batchReadSize o) (Hsz : zlen (cp_file vs ++ tail) + m_batchReadSize o < 4294967296) :
  wp (Load host) (o, w) (fun r s =>
    r.1 = Bad FileCorrupt FileCorruptError /\ concat r.2 `prefix_of` reloaded vs).
Proof.
  eapply (Load_spec host o id vs tail); [done..|]. intros bs w' _ [Hh _]. by destruct tail.
Qed.

Definition cp_tail : list byte := take 6 (frame 30 (cp_frame 1 (cp_entry [x62] [x32]))).

Lemma checkpoint_load_torn_witness :
  wp (Load LITTLE_ENDIAN) (cp_object 7, cp_disk (<["/c/smcp" := cp_file cp_old.2 ++ cp_tail]> cp_old_files))
    (fun r s => r.1 = Bad FileCorrupt FileCorruptError /\ concat r.2 `prefix_of` reloaded cp_old.2).
Proof.
  apply (checkpoint_load_torn LITTLE_ENDIAN (cp_object 7) 4 cp_old.2 cp_tail).
  - apply cp_disk_root; no_dir_file.
  - reflexivity.
  - exact cp_old_ok.
  - vm_compute. reflexivity.
  - vm_compute. reflexivity.
  - apply torn_frame; [|vm_compute; lia]. apply cp_frame_ok. apply cp_entry_fits; [done|vm_compute; reflexivity].
  - discriminate.
  - simpl. lia.
  - vm_compute. reflexivity.
Defined.

(** ** Recovery *)

(** Starting up: [Init], then [Load]. *)
Definition start_up (host : byte_order) `{MemAlloc} {E} `{IEntryLaws E} :
    M (t * world) (result Code unit * (result Code Z * list (list E))) :=
  r ← Init; l ← Load host; mret (r, l).

Section recovery.
Context (host : byte_order) `{MemAlloc} {E} `{IEntryLaws E}.

Lemma start_up_spec o w (now : option (Z * list (Z * E))) Q :
  cp_root o w -> (forall d, d ∈ dir_path (m_sRootDir o) -> d ∈ w_dirs w) ->
  snap_ok now -> 0 < m_batchReadSize o -> fits o now ->
  wp check_and_recover (o, w) (fun r s => exists F w', r = Good tt /\ s = (o, w') /\ upd w F (w_locking w) w' /\ holds o F now) ->
  (forall l w', shown now l -> holds o (w_files w') now -> Q (Good tt, l) (set_inited true o, w')) ->
  wp (start_up host) (o, w) Q.
Proof.
  intros Hr Hd Hs Hb Hf Hrec HQ. unfold start_up. wbind. apply Init_spec; [done|apply (cr_wf _ _ Hr)|].
  eapply wp_mono; [exact Hrec|]. intros r s (F&w1&->&->&Hu&Hh). cbn [fst snd]. wbind.
  pose proof (cp_root_upd _ _ _ _ _ Hr Hu) as Hr1.
  eapply (Load_holds host (set_inited true o) now); [destruct Hr1; by split|done|done| |done|done|].
  { by rewrite (upd_files _ _ _ _ Hu). }
  intros l w2 Hu2 Hl. wpure. apply HQ; [done|]. rewrite (upd_files _ _ _ _ Hu2), (upd_files _ _ _ _ Hu). done.
Qed.
End recovery.

(** After a save was interrupted before the ok flag
    was there, whatever its temporary files, its start flag and its lock file
    look like, start-up succeeds and loads the checkpoint of before. *)
Theorem checkpoint_recover_old (host : byte_order) `{MemAlloc} {E} `{IEntryLaws E}
    (o : t) (old : option (Z * list (Z * E))) (w : world)
    (Hr : cp_root o w) (Hd : forall d, d ∈ dir_path (m_sRootDir o) -> d ∈ w_dirs w)
    (Hk : w_files w !! m_sNewCpSaveOkFilePath o = None) (Ho : holds o (w_files w) old)
    (Hs : snap_ok old) (Hb : 0 < m_batchReadSize o) (Hf : fits o old) :
  wp (start_up host) (o, w) (fun r s =>
    r.1 = Good tt /\ shown old r.2 /\ holds o (w_files s.2) old).
Proof.
  eapply (start_up_spec host o w old); [done..| |done].
  eapply (upd_recover o w _ _ w Hr (upd_refl w (cr_wf _ _ Hr)) old); [done..|].
  intros F w' Hu Hh _ _ _ _. by exists F, w'.
Qed.

Lemma checkpoint_recover_old_witness :
  wp (start_up LITTLE_ENDIAN) (cp_fresh, cp_disk cp_both_files) (fun r s =>
    r.1 = Good tt /\ shown (Some cp_old) r.2 /\ holds cp_fresh (w_files s.2) (Some cp_old)).
Proof.
  apply (checkpoint_recover_old LITTLE_ENDIAN cp_fresh (Some cp_old) (cp_disk cp_both_files)).
  - destruct (cp_disk_root 16 cp_both_files) as [Hw Hd Hn]; [no_dir_file|]. split; [exact Hw|exact Hd|exact Hn].
  - intros d. vm_compute. set_solver.
  - vm_compute. reflexivity.
  - split; vm_compute; reflexivity.
  - exact cp_old_ok.
  - simpl. lia.
  - vm_compute. reflexivity.
Defined.

(** With the ok flag and the two new files in place,
    whatever is left of the old checkpoint, start-up completes the interrupted
    save and loads the new checkpoint. *)
Theorem checkpoint_recover_new (host : byte_order) `{MemAlloc} {E} `{IEntryLaws E}
    (o : t) (new : Z * list (Z * E)) (w : world)
    (Hr : cp_root o w) (Hd : forall d, d ∈ dir_path (m_sRootDir o) -> d ∈ w_dirs w)
    (Hk : is_Some (w_files w !! m_sNewCpSaveOkFilePath o)) (Hn : holds_new o (w_files w) (Some new))
    (Hs : snap_ok (Some new)) (Hb : 0 < m_batchReadSize o) (Hf : fits o (Some new)) :
  wp (start_up host) (o, w) (fun r s =>
    r.1 = Good tt /\ shown (Some new) r.2 /\ holds o (w_files s.2) (Some new)).
Proof.
  eapply (start_up_spec host o w (Some new)); [done..| |done]. pose proof Hn as Hn'.
  destruct new as [id vs]. destruct Hn as [Hm Hc].
  eapply (upd_recover_ok o w _ _ w Hr (upd_refl w (cr_wf _ _ Hr)) (meta_bytes id) (cp_file vs)); [done..|].
  intros w' Hu. eexists _, w'. split; [done|]. split; [done|]. split; [done|].
  unfold holds, holds_at, replaced. by cp_lookup.
Qed.

Lemma checkpoint_recover_new_witness :
  let files := <["/c/smcp.ok" := []]> (delete "/c/.meta" cp_both_files) in
  wp (start_up LITTLE_ENDIAN) (cp_fresh, cp_disk files) (fun r s =>
    r.1 = Good tt /\ shown (Some (snap_of (cp_object 16) cp_new)) r.2 /\
    holds cp_fresh (w_files s.2) (Some (snap_of (cp_object 16) cp_new))).
Proof.
  intros files. apply (checkpoint_recover_new LITTLE_ENDIAN cp_fresh (snap_of (cp_object 16) cp_new) (cp_disk files)).
  - destruct (cp_disk_root 16 files) as [Hw Hd Hn]; [no_dir_file|]. split; [exact Hw|exact Hd|exact Hn].
  - intros d. vm_compute. set_solver.
  - vm_compute. eauto.
  - split; vm_compute; reflexivity.
  - destruct (cp_new_ok 16) as (?&?&?). split; [done|]. by apply versioned_ok.
  - simpl. lia.
  - vm_compute. reflexivity.
Defined.

(** ** Guards *)

(** Before [Init] neither [Load] nor [Save] touches
    anything, both answer [Uninited]; [Save] answers [Locking] while this process
    holds the lock; and when [fork] fails [Save] answers [ForkError], having
    called only the traveller's [Prepare] hook, not the one that undoes it, with
    all files as they were. *)
Theorem checkpoint_rejects (host : byte_order) `{MemAlloc} {E} `{IEntry E, EntryCreator E}
    (o : t) (w : world) (tr : traveller (E := E)) (e : Z) (l : list event) :
  (m_bInited o = false ->
     Save host tr (o, w) = (Ok (Bad Uninited UninitializedError, []), (o, w)) /\
     Load host (o, w) = (Ok (Bad Uninited UninitializedError, @nil (list E)), (o, w))) /\
  (m_bInited o = true -> m_sLockPath o ∈ w_locking w ->
     Save host tr (o, w) = (Ok (Bad Locking IsLockingError, []), (o, w))) /\
  (m_bInited o = true -> m_sLockPath o ∉ w_locking w -> exists_path (m_sLockPath o) w = false ->
     exists w', Save host tr (o, set_sched (Fine :: Fault e :: l) w) =
       (Ok (Bad ForkError (Strerror e), [Prepare]), (o, w')) /\ w_files w' = w_files w).
Proof.
  split; [|split].
  - intros Hin. unfold Save, Load, mbind, M_bind, getO, mret, M_ret. cbn [fst snd]. by rewrite Hin.
  - intros Hin Hl. unfold Save, FileUtils.IsLocking, FileUtils.is_locking_file.
    unfold mbind, M_bind, getO, getS, io, mret, M_ret. cbn [fst snd]. rewrite Hin. cbn [negb].
    by rewrite bool_decide_eq_true_2.
  - intros Hin Hl Hx. unfold Save, FileUtils.IsLocking, FileUtils.is_locking_file, FileUtils.Exist, sys_access.
    unfold mbind, M_bind, getO, getS, io, mret, M_ret. cbn [fst snd]. rewrite Hin. cbn [negb].
    rewrite bool_decide_eq_false_2 by done. unfold exists_path in *. cbn. rewrite Hx. cbn. eexists. split; done.
Qed.

(** ** Where atomicity ends

    [replace_old_checkpoint] cannot be repeated.  When the child dies between its
    two renames the ok flag is still there, and the next start-up removes the new
    meta file, then fails: neither checkpoint can be loaded any more. *)
Theorem recovery_not_idempotent :
  let '(r, s) := do_save_in_child LITTLE_ENDIAN cp_new
                   (cp_object 16, set_sched (replicate 39 Fine ++ [Kill]) (cp_disk cp_old_files)) in
  let '(r', s') := start_up (E := raw_entry) LITTLE_ENDIAN (cp_fresh, reboot s.2) in
  r = Stop Crashed /\
  r' = Ok (Bad FileSystemError (Strerror ENOENT), (Good EOCP_INVALID_ENTRY_ID, [])) /\
  w_files s'.2 !! "/c/.meta" = None /\ w_files s'.2 !! "/c/smcp" = None.
Proof. vm_compute. repeat split. Qed.

(** The result of [save_new_checkpoint] is not looked at: when writing the first
    entry fails, the ok flag is created all the same, [Save] reports success and
    the checkpoint that is loaded next has the new id and no entries. *)
Theorem failed_write_is_promoted :
  let '(r, s) := Save LITTLE_ENDIAN cp_new
                   (cp_object 16, set_sched (replicate 25 Fine ++ [Fault 28]) (cp_disk cp_old_files)) in
  r = Ok (Good 9, [Prepare; CompletePrepare]) /\
  (Load (E := raw_entry) LITTLE_ENDIAN s).1 = Ok (Good 9, []).
Proof. vm_compute. repeat split. Qed.
