(* ===== verification/CheckpointCrash.v ===== *)
(** * A checkpoint save under any schedule

    The child process of [Save] may be killed before any of its system calls, and
    any of them may fail.  Up to the creation of the ok flag the stored checkpoint
    is not touched, so that a start-up after the crash finds it; from then on the
    ok flag is there until the end. *)

From S2P Require Import Prelude Codec Buffer Posix Files Quiet Updates Faults Records Entries KvEntries.
From S2P Require Import Checkpoint CheckpointLoad CheckpointSave CheckpointTheorems.
Import EntryOrderCheckpoint.

(** ** Steps that only touch [T] *)

Section calm.
Context (T : string -> Prop) (w0 : world) (o : t).
Context (R : stop -> t * world -> Prop) (HR : forall e x w, safe T w0 x w -> R e (o, w)).

Definition calm {A} (c : M world A) : Prop := forall w Q,
  safe T w0 (-1) w -> (forall a w', safe T w0 (-1) w' -> Q a w') -> wpc c w Q (fun e w' => R e (o, w')).
Definition calmO {A} (c : M (t * world) A) : Prop := forall w Q,
  safe T w0 (-1) w -> (forall a w', safe T w0 (-1) w' -> Q a (o, w')) -> wpc c (o, w) Q R.

Lemma calm_ret {A} (a : A) : calmO (mret a).
Proof. intros w Q Hs HQ. by apply HQ. Qed.
Lemma calm_halt {A} e : calmO (halt (A := A) e).
Proof. intros w Q Hs HQ. by eapply HR. Qed.
Lemma calm_getO {A B} (f : t -> A) (k : A -> M (t * world) B) : calmO (k (f o)) -> calmO (getO f ≫= k).
Proof. intros Hk w Q Hs HQ. apply wpc_bind, wpc_getO. by apply Hk. Qed.
Lemma calm_bind {A B} (c : M (t * world) A) (k : A -> M (t * world) B) :
  calmO c -> (forall a, calmO (k a)) -> calmO (c ≫= k).
Proof. intros Hc Hk w Q Hs HQ. apply wpc_bind, Hc; [done|]. intros a w' Hs'. by apply Hk. Qed.
Lemma calm_io {A} (c : M world A) : calm c -> calmO (io c).
Proof. intros Hc w Q Hs HQ. by apply wpc_io, Hc. Qed.
Lemma calm_rbind {C A B} (c : M (t * world) (result C A)) (k : A -> M (t * world) (result C B)) :
  calmO c -> (forall a, calmO (k a)) -> calmO (rbind c k).
Proof. intros Hc Hk. apply calm_bind; [done|]. intros [a|rc m]; [done|apply calm_ret]. Qed.
Lemma calm_bad_errno {C A} (rc : C) : calmO (bad_errno (A := A) rc).
Proof. apply calm_bind; [|intros; apply calm_ret]. intros w Q Hs HQ. by apply HQ. Qed.
Lemma calm_check_io {C} (c : M world Z) (rc : C) : calm c -> calmO (check_io c rc).
Proof.
  intros Hc. apply calm_bind; [by apply calm_io|]. intros r. destruct (r =? -1); [apply calm_bad_errno|apply calm_ret].
Qed.

Lemma calm_access p : calm (FileUtils.Exist p).
Proof. intros w Q Hs HQ. eapply any_access; [done..|]. auto. Qed.
Lemma calm_close fd : calm (sys_close fd).
Proof. intros w Q Hs HQ. eapply any_close; [done..|]. auto. Qed.
Lemma calm_fdatasync fd : calm (sys_fdatasync fd).
Proof. intros w Q Hs HQ. by eapply any_fdatasync. Qed.
Lemma calm_lseek fd off wh : calm (sys_lseek fd off wh).
Proof. intros w Q Hs HQ. by eapply any_lseek. Qed.
Lemma calm_ReadAllString p : calm (FileUtils.ReadAllString p).
Proof. intros w Q Hs HQ. by eapply any_ReadAllString. Qed.
Lemma calm_ToUint46_t s : calm (CommonUtils.ToUint46_t s).
Proof. intros w Q Hs HQ. by eapply any_ToUint46_t. Qed.
Lemma calm_CloseFile f : calm (FileUtils.CloseFile f).
Proof. intros w Q Hs HQ. by eapply any_CloseFile. Qed.
Lemma calm_WriteFully fd bs : own w0 fd -> calm (IOUtils.WriteFully fd bs).
Proof. intros Hf w Q Hs HQ. by eapply any_WriteFully. Qed.
(** A path in [T], or one outside at which there is nothing. *)
Lemma calm_Unlink p : T p \/ (~ T p /\ w_files w0 !! p = None) -> calm (FileUtils.Unlink p).
Proof.
  intros Hp w Q Hs HQ. eapply any_Unlink; [done..| |done].
  destruct Hp as [|[Hn Hp]]; [by left|right]. by rewrite (sf_files _ _ _ _ Hs).
Qed.
Lemma calm_open {A} p mode creat trunc (k : Z -> M (t * world) A) :
  T p -> (forall fd, own w0 fd -> calmO (k fd)) -> calmO (io (FileUtils.Open p mode creat trunc) ≫= k).
Proof.
  intros Hp Hk w Q Hs HQ. apply wpc_bind, wpc_io. eapply any_open; [|done|done|].
  - intros e x w' Hs'. by eapply HR.
  - intros fd w' Hs' Hf. by apply Hk.
Qed.
Lemma calm_closer {A} fd (body : M (t * world) A) : calmO body -> calmO (with_closer fd body).
Proof.
  intros Hb. apply calm_bind; [done|]. intros a. apply calm_bind; [|intros; apply calm_ret].
  destruct (fd =? -1); [apply calm_ret|]. apply calm_bind; [apply calm_io, calm_close|intros; apply calm_ret].
Qed.

Create HintDb calm discriminated.
#[local] Hint Resolve calm_ret calm_halt calm_bad_errno calm_access calm_close calm_fdatasync calm_lseek
  calm_ReadAllString calm_ToUint46_t calm_CloseFile calm_WriteFully calm_Unlink : calm.

(** One statement of a calm program. *)
Ltac calm1 :=
  lazymatch goal with
  | |- calmO (mbind _ (getO _)) => apply calm_getO
  | |- calmO (mbind _ (io (FileUtils.Open _ _ _ _))) => apply calm_open; [auto|intros ? ?]
  | |- calmO (mbind _ _) => apply calm_bind; [|intros ?]
  | |- calmO (rbind _ _) => apply calm_rbind; [|intros ?]
  | |- calmO (check_io _ _) => apply calm_check_io
  | |- calmO (with_closer _ _) => apply calm_closer
  | |- calmO (io _) => apply calm_io
  | |- calmO (if ?b then _ else _) => destruct b
  | |- calmO (match ?x with _ => _ end) => destruct x
  | |- calmO (let '(_, _) := ?x in _) => destruct x
  end.
Ltac calm_run := repeat (cbv beta zeta; calm1); auto with calm.

Lemma calm_is_completed : calmO is_completed.
Proof. unfold is_completed. calm_run. Qed.
Lemma calm_load_meta : calmO load_meta.
Proof. unfold load_meta. calm_run. Qed.

Lemma calm_unlink_or_fail p : T (p o) \/ (~ T (p o) /\ w_files w0 !! p o = None) -> calmO (unlink_or_fail p).
Proof. intros Hp. unfold unlink_or_fail. calm_run. Qed.

(** Before the ok flag: the old checkpoint and the flag are outside [T]. *)
Section before_ok.
Context (HT : T (m_sLockPath o) /\ T (m_sNewStartFlagFilePath o) /\ T (m_sNewCpMetaFilePath o) /\ T (m_sNewCpFilePath o)).
Context (Hno : ~ T (m_sNewCpSaveOkFilePath o) /\ w_files w0 !! m_sNewCpSaveOkFilePath o = None /\
               m_sNewCpSaveOkFilePath o ∉ w_dirs w0).

Lemma calm_clean : calmO clean_new_cp_tmp.
Proof.
  destruct HT as (?&?&?&?), Hno as (?&?&?). unfold clean_new_cp_tmp.
  do 4 (apply calm_rbind; [apply calm_unlink_or_fail; auto|intros _]). apply calm_ret.
Qed.

Lemma calm_recover : calmO check_and_recover.
Proof.
  unfold check_and_recover. apply calm_bind; [apply calm_is_completed|]. intros [|]; [apply calm_ret|].
  apply calm_getO. intros w Q Hs HQ. destruct Hno as (Hn&Hf&Hd).
  apply wpc_bind, wpc_io. eapply any_access; [by intros; eapply HR|done|]. intros b w1 Hs1 Hb _.
  destruct b; [|by apply calm_clean]. specialize (Hb eq_refl). unfold exists_path in Hb.
  rewrite (sf_files _ _ _ _ Hs), Hf, (sf_dirs _ _ _ _ Hs) in Hb by done.
  rewrite !bool_decide_eq_false_2 in Hb by (done || by intros [? ?]). done.
Qed.

Section writing.
Context (host : byte_order) `{MemAlloc} {E : Type} `{IEntry E, EntryCreator E}.

Lemma calm_init_new id : calmO (init_new_checkpoint host id).
Proof.
  destruct HT as (?&?&?&?). unfold init_new_checkpoint, create_new_meta_file, create_new_checkpoint_file. calm_run.
Qed.

Lemma calm_save_entries fd (es : list E) : own w0 fd -> forall off, calmO (save_entries host fd es off).
Proof.
  intros Hf. induction es as [|e es IH]; intros off; cbn [save_entries]; [apply calm_ret|].
  destruct (Encode e); [|apply calm_ret]. calm_run.
Qed.

Lemma calm_save_new (tr : traveller (E := E)) : calmO (save_new_checkpoint host tr).
Proof.
  destruct HT as (?&?&?&?). unfold save_new_checkpoint. apply calm_getO. apply calm_open; [done|]. intros fd Hf.
  apply calm_closer. apply calm_rbind; [apply calm_check_io, calm_lseek|intros _].
  apply calm_rbind; [by apply calm_save_entries|intros _]. calm_run.
Qed.
End writing.
End before_ok.

(** After it: everything but the flag may change. *)
Section after_ok.
Context (HT : T (m_sLockPath o) /\ T (m_sNewStartFlagFilePath o) /\ T (m_sNewCpMetaFilePath o) /\ T (m_sNewCpFilePath o)).
Context (HT' : T (m_sCpMetaFilePath o) /\ T (m_sCpFilePath o)).

Lemma calm_drop_lock f : T (path f) -> calmO (drop_lock f).
Proof. intros Hf. unfold drop_lock. calm_run. Qed.

(** A completed replacement leaves both files in place. *)
Lemma any_replace w Q :
  safe T w0 (-1) w ->
  (forall rc m w', safe T w0 (-1) w' -> Q (Bad rc m) (o, w')) ->
  (forall w', safe T w0 (-1) w' -> is_Some (w_files w' !! m_sCpMetaFilePath o) ->
     is_Some (w_files w' !! m_sCpFilePath o) -> Q (Good tt) (o, w')) ->
  wpc replace_old_checkpoint (o, w) Q R.
Proof.
  destruct HT as (?&?&?&?), HT' as (?&?). intros Hs HB HG. unfold replace_old_checkpoint.
  do 2 (apply wpc_rbind; eapply calm_unlink_or_fail; [auto|eassumption|];
        let r := fresh "r" in let w' := fresh "w" in let Hs' := fresh "Hs" in
        intros r w' Hs'; destruct r; [|by apply HB]).
  cpure. apply wpc_rbind, wpc_check_io. eapply any_rename; [by intros; eapply HR|eassumption|done|done|].
  intros r w3 Hs3 Hr3. split; [intros _ m; by apply HB|]. intros Hr. destruct (Hr3 Hr) as (c1&_&Hf3).
  apply wpc_rbind, wpc_check_io. eapply any_rename; [by intros; eapply HR|eassumption|done|done|].
  intros r' w4 Hs4 Hr4. split; [intros _ m; by apply HB|]. intros Hr'. destruct (Hr4 Hr') as (c2&_&Hf4).
  cpure. apply HG; [done|rewrite Hf4, Hf3..]; cp_lookup; eauto.
Qed.
End after_ok.
End calm.

(** [open(p, O_CREAT | O_TRUNC)] fails without a trace, or there is a new empty
    file, from which a new run can be counted. *)
Lemma any_create T w0 R w p mode Q :
  (forall e x w, safe T w0 x w -> R e w) -> safe T w0 (-1) w ->
  (forall w', safe T w0 (-1) w' -> Q (-1) w') ->
  (forall fd w', fd <> -1 -> w_files w' = <[p := []]> (w_files w) -> w_dirs w' = w_dirs w ->
     (forall T', safe T' w' (-1) w') -> Q fd w') ->
  wpc (FileUtils.Open p mode true true) w Q R.
Proof.
  intros HR Hs HB HG. apply wpc_bind. eapply any_enter; [done..|]. intros e w1 Hs1 [Hf Hd Hfds Hn].
  assert (forall e, Q (-1) (set_errno e w1)) as Hfail by (intros; by apply HB, safe_errno).
  assert (Q (w_next_fd w1) (set_fds <[w_next_fd w1 := FDesc p 0]> (set_next_fd (w_next_fd w1 + 1)
    (set_files <[p := []]> w1)))) as Hgood.
  { pose proof (sf_next _ _ _ _ Hs1). pose proof (sf_fresh _ _ _ _ Hs1) as Hfr. pose proof (sf_neg _ _ _ _ Hs1).
    apply HG; [lia|simpl; by rewrite Hf|done|]. intros T'. split; simpl; try done; try lia.
    - intros fd Hge. rewrite lookup_insert_ne by lia. apply Hfr. lia.
    - intros fd d Hge _. rewrite lookup_insert_ne by lia. by rewrite Hfr by lia.
    - by rewrite lookup_insert_ne by lia. }
  assert (wpc (isdir ← getS (fun w => bool_decide (p ∈ w_dirs w));
      if isdir : bool then fail EISDIR (-1)
      else
        f ← getS (fun w => w_files w !! p);
        match f with
        | Some _ => modS (set_files <[p := []]>);; alloc_fd p
        | None =>
            parent ← getS (fun w => bool_decide (dirname p ∈ w_dirs w));
            if parent : bool then modS (set_files <[p := []]>);; alloc_fd p
            else fail ENOENT (-1)
        end) w1 Q R) as Hgo; [|by destruct e; [|apply HB|]].
  apply wpc_bind. cbn. destruct (bool_decide (p ∈ w_dirs w1)); [apply Hfail|].
  apply wpc_bind. cbn. destruct (w_files w1 !! p); [exact Hgood|].
  apply wpc_bind. cbn. destruct (bool_decide _); [exact Hgood|apply Hfail].
Qed.

(** ** The child *)

Section child.
Context (host : byte_order) `{MemAlloc} {E : Type} `{IEntryLaws E}.
Context (o : t) (w0 : world) (Hr : cp_root o w0) (Hno : w_files w0 !! m_sNewCpSaveOkFilePath o = None).

(** The stored checkpoint is as it was and the ok flag is not there. *)
Definition untouched (w : world) : Prop :=
  w_dirs w = w_dirs w0 /\ (forall p, p ∈ w_dirs w -> w_files w !! p = None) /\
  w_files w !! m_sNewCpSaveOkFilePath o = None /\
  w_files w !! m_sCpMetaFilePath o = w_files w0 !! m_sCpMetaFilePath o /\
  w_files w !! m_sCpFilePath o = w_files w0 !! m_sCpFilePath o.
Definition flagged (w : world) : Prop := is_Some (w_files w !! m_sNewCpSaveOkFilePath o).
Definition finished (w : world) : Prop :=
  is_Some (w_files w !! m_sCpMetaFilePath o) /\ is_Some (w_files w !! m_sCpFilePath o).

Definition temp (p : string) : Prop :=
  p = m_sLockPath o \/ p = m_sNewStartFlagFilePath o \/ p = m_sNewCpMetaFilePath o \/ p = m_sNewCpFilePath o.
Definition not_flag (p : string) : Prop := p <> m_sNewCpSaveOkFilePath o.

Lemma temp_not_ok : ~ temp (m_sNewCpSaveOkFilePath o).
Proof. intros [Heq|[Heq|[Heq|Heq]]]; revert Heq; path_ne. Qed.

Lemma safe_untouched x w : safe temp w0 x w -> untouched w.
Proof.
  intros [Hf Hd _ _ _ _]. split; [done|]. split.
  { intros p Hp. rewrite Hd in Hp. rewrite Hf; [by apply (wf_disj w0 (cr_wf _ _ Hr))|].
    intros [->|[->|[->| ->]]]; revert Hp; not_dir. }
  rewrite !Hf; [by rewrite Hno|..];
    intros [Heq|[Heq|[Heq|Heq]]]; revert Heq; path_ne.
Qed.

Lemma safe_flagged w1 x w : flagged w1 -> safe not_flag w1 x w -> flagged w.
Proof. intros Hk [Hf _ _ _ _ _]. unfold flagged. rewrite Hf; [done|]. by intros []. Qed.

Abbreviation R := (fun (e : stop) (s : t * world) => untouched s.2 \/ flagged s.2).
Abbreviation Q := (fun (a : unit) (s : t * world) => untouched s.2 \/ flagged s.2 \/ finished s.2).

Lemma crash_promote w1 w : flagged w1 -> safe not_flag w1 (-1) w -> wpc promote (o, w) Q R.
Proof.
  intros Hk Hs. assert (forall e x w, safe not_flag w1 x w -> R e (o, w)) as HR.
  { intros e x w2 Hs2. right. by eapply safe_flagged. }
  assert (forall w2 x, safe not_flag w1 x w2 -> Q tt (o, w2)) as HQ.
  { intros w2 x Hs2. right; left. by eapply safe_flagged. }
  unfold promote. cpure. apply wpc_bind, wpc_io. eapply (calm_Unlink not_flag w1 o R HR); [left; unfold not_flag; path_ne|done|].
  intros r w2 Hs2. destruct (r =? -1); [by eapply HQ|]. apply wpc_bind.
  eapply (any_replace not_flag w1 o R HR); [repeat split; unfold not_flag; path_ne..|done| |].
  { intros rc m w3 Hs3. by eapply HQ. }
  intros w3 Hs3 Hm Hc. cpure. apply wpc_bind, wpc_io. unfold FileUtils.Unlink. apply wpc_bind.
  eapply any_access; [by intros; eapply HR|done|]. intros b w4 Hs4 _ Hb4. destruct b; cbn [negb]; [|by eapply HQ].
  apply wpc_bind. eapply any_enter; [by intros; eapply HR|done|]. intros e w5 Hs5 Hb5.
  assert (wpc (f ← getS (fun w => w_files w !! m_sNewCpSaveOkFilePath o);
     match f with
     | Some _ => modS (set_files (delete (m_sNewCpSaveOkFilePath o)));; mret 0
     | None => fail ENOENT (-1)
     end) w5 (fun _ w' => Q tt (o, w')) (fun e w' => R e (o, w'))) as Hgo.
  { apply wpc_bind. cbn. destruct (w_files w5 !! m_sNewCpSaveOkFilePath o).
    - right; right. unfold finished. cbn. rewrite (bl_files _ _ Hb5), (bl_files _ _ Hb4). by cp_lookup.
    - eapply HQ. by apply safe_errno. }
  destruct e; [exact Hgo|by eapply HQ|exact Hgo].
Qed.

Lemma crash_child (tr : traveller (E := E)) w :
  safe temp w0 (-1) w -> wpc (do_save_in_child host tr) (o, w) Q R.
Proof.
  intros Hs. assert (forall e x w, safe temp w0 x w -> R e (o, w)) as HR.
  { intros e x w2 Hs2. left. by eapply safe_untouched. }
  assert (forall w2 x, safe temp w0 x w2 -> Q tt (o, w2)) as HQ.
  { intros w2 x Hs2. left. by eapply safe_untouched. }
  assert (temp (m_sLockPath o) /\ temp (m_sNewStartFlagFilePath o) /\ temp (m_sNewCpMetaFilePath o) /\
    temp (m_sNewCpFilePath o)) as HT by (unfold temp; tauto).
  assert (~ temp (m_sNewCpSaveOkFilePath o) /\ w_files w0 !! m_sNewCpSaveOkFilePath o = None /\
    m_sNewCpSaveOkFilePath o ∉ w_dirs w0) as Hnok by (split; [apply temp_not_ok|split; [done|not_dir]]).
  unfold do_save_in_child. cpure. apply wpc_bind, wpc_io.
  eapply any_LockPath; [by intros; eapply HR|done|apply HT|]. intros f w1 Hs1 Hf.
  destruct (Z.eqb_spec (fd f) (-1)); [by eapply HQ|]. destruct Hf as [|Hf]; [done|].
  apply wpc_bind. eapply (calm_load_meta temp w0 o R HR); [done|]. intros r w2 Hs2.
  destruct r as [entryId|]; [|by eapply HQ]. destruct (_ <=? _).
  { apply wpc_bind. eapply (calm_drop_lock temp w0 o R HR); [rewrite Hf; apply HT|done|]. intros b w3 Hs3. by eapply HQ. }
  apply wpc_bind. eapply (calm_recover temp w0 o R HR HT Hnok); [done|]. intros r w3 Hs3.
  destruct r; [|by eapply HQ].
  apply wpc_bind. eapply (calm_init_new temp w0 o R HR HT); [done|]. intros r w4 Hs4. destruct r; [|by eapply HQ].
  apply wpc_bind. eapply (calm_save_new temp w0 o R HR HT); [done|]. intros _ w5 Hs5.
  apply wpc_bind. unfold create_ok_flag. cpure. apply wpc_bind, wpc_io.
  eapply any_create; [by intros; eapply HR|done| |].
  { intros w6 Hs6. exact (HQ w6 _ Hs6). }
  intros okfd w6 Hokfd Hf6 Hd6 Hs6. destruct (Z.eqb_spec okfd (-1)); [done|].
  assert (flagged w6) as Hk6 by (unfold flagged; rewrite Hf6, lookup_insert_eq; eauto).
  assert (forall e x w, safe not_flag w6 x w -> R e (o, w)) as HR6 by (intros e x w7 Hs7; right; by eapply safe_flagged).
  assert (forall w7 x, safe not_flag w6 x w7 -> Q tt (o, w7)) as HQ6.
  { intros w7 x Hs7. right; left. by eapply safe_flagged. }
  eapply (calm_rbind not_flag w6 o R); [by apply calm_check_io, calm_close|intros _; apply calm_ret|apply Hs6|].
  intros r w7 Hs7. destruct r; [|by eapply HQ6]. apply wpc_bind.
  eapply (calm_drop_lock not_flag w6 o R HR6); [rewrite Hf; unfold not_flag; path_ne|done|]. intros b w8 Hs8.
  destruct b; [by eapply crash_promote|by eapply HQ6].
Qed.
End child.

(** ** What a start-up finds *)

(** The process is started again on what [w] left behind, and loads [old]. *)
Definition comes_back (host : byte_order) `{MemAlloc} {E} `{IEntryLaws E}
    (o : t) (old : option (Z * list (Z * E))) (w : world) : Prop :=
  wp (start_up host) (set_inited false o, reboot w) (fun r s => r.1 = Good tt /\ shown old r.2).

Section start.
Context (host : byte_order) `{MemAlloc} {E : Type} `{IEntryLaws E}.

Lemma untouched_comes_back o (old : option (Z * list (Z * E))) w0 w :
  cp_root o w0 -> (forall d, d ∈ dir_path (m_sRootDir o) -> d ∈ w_dirs w0) -> holds o (w_files w0) old -> snap_ok old ->
  0 < m_batchReadSize o -> fits o old -> untouched o w0 w ->
  comes_back host o old w.
Proof.
  intros Hr Hd Ho Hs Hb Hf (Hdirs&Hdj&Hk&Hm&Hc). unfold comes_back.
  assert (cp_root (set_inited false o) (reboot w)) as Hr'.
  { destruct Hr as [_ Hroot Hn]. split; [by apply wf_reboot|simpl; by rewrite Hdirs|]. intros n Hin. simpl. rewrite Hdirs.
    by apply Hn. }
  assert (holds (set_inited false o) (w_files (reboot w)) old) as Ho'.
  { destruct old as [[id vs]|]; [destruct Ho as [Ho1 Ho2]; split; [exact (eq_trans Hm Ho1)|exact (eq_trans Hc Ho2)]
      |exact (eq_trans Hm Ho)]. }
  eapply (start_up_spec host (set_inited false o) (reboot w) old); try done.
  { simpl. by rewrite Hdirs. }
  - eapply (upd_recover _ (reboot w) _ _ (reboot w) Hr' (upd_refl _ (cr_wf _ _ Hr')) old); [done..|].
    intros F w' Hu Hh _ _ _ _. by exists F, w'.
Qed.
End start.


#[local] Existing Instance demo_pool.
#[local] Existing Instance demo_pb.

