(* ===== verification/KvMap.v ===== *)
(** * The ordered map of the key-value store

    [MiniKV::Key] with its [operator<] (src/kv/mini-kv/mini-kv.h) and the part of
    [std::map<Key, ...>] the store uses, as a list of pairs sorted by that order.
    The comparison is the lexicographic order of the key bytes, a strict total
    order; with it the list refines a finite map from byte strings. *)

From S2P Require Import Prelude Entries.

(** ** struct MiniKV::Key *)

Record Key := MkKey { Data : list byte; Len : Z }.

(** The key of a protobuf [bytes] field: [c_str()] and [uint32_t(length())]. *)
Definition key_of (k : list byte) : Key := MkKey k (u32 (zlen k)).

(** [memcmp(a, b, n)]: its sign. *)
Fixpoint memcmp (a b : list byte) (n : nat) : Z :=
  match n, a, b with
  | S n, x :: a, y :: b => if b2z x <? b2z y then -1 else if b2z y <? b2z x then 1 else memcmp a b n
  | _, _, _ => 0
  end.

(** [Key::operator<] *)
Definition key_lt (a b : Key) : bool :=
  let minLen := if Len a <? Len b then Len a else Len b in
  let lessThanB := Len a <? Len b in
  let rs := memcmp (Data a) (Data b) (Z.to_nat minLen) in
  if rs <? 0 then true
  else if rs =? 0 then lessThanB
  else false.

(** ** std::map *)

Abbreviation kvmap := (list (Key * Entry)).

(** [lower_bound(k)]: what is before the iterator, and what it and its successors
    point to ([end()] when there is nothing). *)
Fixpoint lower_bound (k : Key) (m : kvmap) : kvmap * kvmap :=
  match m with
  | [] => ([], [])
  | p :: m' =>
      if key_lt p.1 k then let '(before, after) := lower_bound k m' in (p :: before, after)
      else ([], m)
  end.

(** [find(k)] *)
Definition find (k : Key) (m : kvmap) : option Entry :=
  match (lower_bound k m).2 with
  | p :: _ => if key_lt k p.1 then None else Some p.2
  | [] => None
  end.

(** [m[k] = v]: an equivalent key stays, only its value changes. *)
Definition assign (k : Key) (v : Entry) (m : kvmap) : kvmap :=
  match lower_bound k m with
  | (before, p :: after) =>
      if key_lt k p.1 then before ++ (k, v) :: p :: after else before ++ (p.1, v) :: after
  | (before, []) => before ++ [(k, v)]
  end.

(** [erase(find(k))], [erase(k)] *)
Definition erase (k : Key) (m : kvmap) : kvmap :=
  match lower_bound k m with
  | (before, p :: after) => if key_lt k p.1 then m else before ++ after
  | (before, []) => m
  end.

(** ** The order *)

(** The lexicographic order of unsigned bytes, a prefix first. *)
Fixpoint lex_lt (a b : list byte) : bool :=
  match a, b with
  | _, [] => false
  | [], _ :: _ => true
  | x :: a, y :: b => (b2z x <? b2z y) || ((b2z x =? b2z y) && lex_lt a b)
  end.

Lemma lex_lt_irrefl a : lex_lt a a = false.
Proof. induction a as [|x a IH]; simpl; [done|]. by rewrite Z.ltb_irrefl, IH, andb_false_r. Qed.
Lemma lex_lt_trans a b c : lex_lt a b = true -> lex_lt b c = true -> lex_lt a c = true.
Proof.
  revert b c. induction a as [|x a IH]; intros [|y b] [|z c]; simpl; try done.
  rewrite !orb_true_iff, !andb_true_iff, !Z.ltb_lt, !Z.eqb_eq.
  intros [?|[? H1]] [?|[? H2]]; [left; lia..|]. right. split; [lia|]. by eapply IH.
Qed.
Lemma lex_lt_total a b : lex_lt a b = true \/ a = b \/ lex_lt b a = true.
Proof.
  revert b. induction a as [|x a IH]; intros [|y b]; simpl; auto.
  rewrite !orb_true_iff, !andb_true_iff, !Z.ltb_lt, !Z.eqb_eq.
  destruct (Z.lt_trichotomy (b2z x) (b2z y)) as [?|[He|?]]; [auto| |auto].
  destruct (IH b) as [?|[->|?]]; [auto| |auto]. right; left. f_equal. by apply b2z_inj.
Qed.
Lemma lex_lt_asym a b : lex_lt a b = true -> lex_lt b a = false.
Proof.
  intros H1. destruct (lex_lt b a) eqn:H2; [|done].
  pose proof (lex_lt_trans _ _ _ H1 H2) as H3. by rewrite lex_lt_irrefl in H3.
Qed.

Lemma memcmp_lex a : forall b,
  let rs := memcmp a b (Nat.min (length a) (length b)) in
  (if rs <? 0 then true else if rs =? 0 then zlen a <? zlen b else false) = lex_lt a b.
Proof.
  induction a as [|x a IH]; intros [|y b]; cbn [length Nat.min memcmp lex_lt]; try done.
  destruct (Z.ltb_spec (b2z x) (b2z y)); [done|]. destruct (Z.ltb_spec (b2z y) (b2z x)).
  - destruct (Z.eqb_spec (b2z x) (b2z y)); [lia|done].
  - destruct (Z.eqb_spec (b2z x) (b2z y)); [|lia]. cbn [orb andb]. rewrite <- IH. cbv zeta.
    assert ((zlen (x :: a) <? zlen (y :: b)) = (zlen a <? zlen b)) as ->; [|done].
    rewrite !zlen_cons. destruct (Z.ltb_spec (zlen a) (zlen b)), (Z.ltb_spec (1 + zlen a) (1 + zlen b)); done || lia.
Qed.

(** A key whose length fits its 32-bit field. *)
Definition key_ok (k : Key) : Prop := Len k = zlen (Data k).

Lemma key_of_ok k : zlen k < 4294967296 -> key_ok (key_of k).
Proof. intros Hk. pose proof (zlen_nonneg k). unfold key_ok. simpl. by rewrite u32_small by lia. Qed.

Lemma key_lt_lex a b : key_ok a -> key_ok b -> key_lt a b = lex_lt (Data a) (Data b).
Proof.
  intros Ha Hb. rewrite <- memcmp_lex. unfold key_lt. rewrite Ha, Hb.
  assert (Z.to_nat (if zlen (Data a) <? zlen (Data b) then zlen (Data a) else zlen (Data b)) =
    Nat.min (length (Data a)) (length (Data b))) as ->; [|done].
  unfold zlen. destruct (Z.ltb_spec (Z.of_nat (length (Data a))) (Z.of_nat (length (Data b)))); lia.
Qed.

Lemma key_ok_inj a b : key_ok a -> key_ok b -> Data a = Data b -> a = b.
Proof. unfold key_ok. destruct a, b. simpl. by intros -> -> ->. Qed.

(** ** The representation invariant *)

Definition ordered (m : kvmap) : Prop :=
  StronglySorted (fun p q => lex_lt (Data p.1) (Data q.1) = true) m /\ Forall (fun p => key_ok p.1) m.

Definition contents (m : kvmap) : gmap (list byte) Entry :=
  list_to_map (map (fun p => (Data p.1, p.2)) m).

Lemma lower_bound_split k m :
  key_ok k -> ordered m ->
  exists before after, lower_bound k m = (before, after) /\ m = before ++ after /\
    (forall p, p ∈ before -> lex_lt (Data p.1) (Data k) = true) /\
    (forall p, p ∈ after -> lex_lt (Data p.1) (Data k) = false).
Proof.
  intros Hk. induction m as [|p m IH]; intros [Hs Ho]; [exists [], []; set_solver|].
  inversion_clear Hs as [|? ? Hs' Hall]. inversion_clear Ho as [|? ? Hp Ho']. cbn [lower_bound].
  rewrite key_lt_lex by done. destruct (lex_lt (Data p.1) (Data k)) eqn:Hlt.
  - destruct (IH (conj Hs' Ho')) as (before&after&->&->&Hb&Ha). exists (p :: before), after. set_solver.
  - exists [], (p :: m). split; [done|]. split; [done|]. split; [set_solver|].
    intros q [->|Hq]%elem_of_cons; [done|]. rewrite list.Forall_forall in Hall. specialize (Hall q Hq).
    destruct (lex_lt (Data q.1) (Data k)) eqn:Hqk; [|done].
    by rewrite (lex_lt_trans _ _ _ Hall Hqk) in Hlt.
Qed.

(** The three cases of a position: at the key, before a larger one, at the end. *)
Inductive position (k : Key) (m : kvmap) : Prop :=
  | PosAt before v after (Hm : m = before ++ (k, v) :: after) (Hl : lower_bound k m = (before, (k, v) :: after))
      (Hb : forall p, p ∈ before -> lex_lt (Data p.1) (Data k) = true)
      (Ha : forall p, p ∈ after -> lex_lt (Data k) (Data p.1) = true)
  | PosBefore before after (Hm : m = before ++ after) (Hl : lower_bound k m = (before, after))
      (Hb : forall p, p ∈ before -> lex_lt (Data p.1) (Data k) = true)
      (Ha : forall p, p ∈ after -> lex_lt (Data k) (Data p.1) = true).

Lemma position_of k m : key_ok k -> ordered m -> position k m.
Proof.
  intros Hk Ho. destruct (lower_bound_split k m Hk Ho) as (before&after&Hl&->&Hb&Ha).
  destruct Ho as [Hs Hok]. apply StronglySorted_app in Hs as (_&_&Hs). apply Forall_app in Hok as [_ Hok].
  destruct after as [|p after]; [apply (PosBefore k _ before []); set_solver|].
  inversion_clear Hs as [|? ? Hs' Hall]. inversion_clear Hok as [|? ? Hp _].
  assert (lex_lt (Data p.1) (Data k) = false) as Hpk by (apply Ha; set_solver).
  destruct (lex_lt_total (Data p.1) (Data k)) as [Ht|[Heq|Hkp]]; [congruence| |].
  - apply key_ok_inj in Heq; [|done|done]. destruct p as [k' v]. simpl in *. subst k'.
    apply (PosAt k _ before v after); [done|done|done|].
    intros q Hq. rewrite list.Forall_forall in Hall. by apply Hall.
  - apply (PosBefore k _ before (p :: after)); [done|done|done|].
    intros q [->|Hq]%elem_of_cons; [done|]. rewrite list.Forall_forall in Hall.
    eapply lex_lt_trans; [exact Hkp|by apply Hall].
Qed.

Lemma key_lt_at k : key_ok k -> key_lt k k = false.
Proof. intros Hk. by rewrite key_lt_lex, lex_lt_irrefl. Qed.
Lemma key_lt_ahead k p (after : kvmap) :
  key_ok k -> Forall (fun p => key_ok p.1) (p :: after) ->
  (forall q, q ∈ p :: after -> lex_lt (Data k) (Data q.1) = true) -> key_lt k p.1 = true.
Proof. intros Hk Ho Ha. inversion_clear Ho. rewrite key_lt_lex by done. apply Ha. set_solver. Qed.

Lemma ordered_app before after : ordered (before ++ after) ->
  ordered before /\ ordered after /\
  forall p q, p ∈ before -> q ∈ after -> lex_lt (Data p.1) (Data q.1) = true.
Proof.
  intros [(Hpq&Hs1&Hs2)%StronglySorted_app Ho]. apply Forall_app in Ho as [Ho1 Ho2]. by repeat split.
Qed.
Lemma app_ordered before after : ordered before -> ordered after ->
  (forall p q, p ∈ before -> q ∈ after -> lex_lt (Data p.1) (Data q.1) = true) -> ordered (before ++ after).
Proof.
  intros [Hs1 Ho1] [Hs2 Ho2] Hpq. split; [by apply StronglySorted_app|by apply Forall_app].
Qed.
Lemma cons_ordered p after : key_ok p.1 -> ordered after ->
  (forall q, q ∈ after -> lex_lt (Data p.1) (Data q.1) = true) -> ordered (p :: after).
Proof.
  intros Hp [Hs Ho] Ha. split; constructor; try done. by apply list.Forall_forall.
Qed.

(** ** Refinement of a finite map *)

Lemma contents_app m1 m2 : contents (m1 ++ m2) = contents m1 ∪ contents m2.
Proof. unfold contents. by rewrite map_app, list_to_map_app. Qed.
Lemma contents_cons p m : contents (p :: m) = <[Data p.1 := p.2]> (contents m).
Proof. done. Qed.
Lemma contents_none k (m : kvmap) : (forall p, p ∈ m -> Data p.1 <> k) -> contents m !! k = None.
Proof.
  intros Hm. apply not_elem_of_list_to_map_1. intros Hk. rewrite map_map in Hk.
  apply list_elem_of_fmap in Hk as (p&->&Hp). by apply (Hm p Hp).
Qed.

Lemma lex_lt_ne a b : lex_lt a b = true -> a <> b.
Proof. intros Hlt ->. by rewrite lex_lt_irrefl in Hlt. Qed.

Section refine.
Context (k : Key) (m : kvmap) (Hk : key_ok k) (Ho : ordered m).

Lemma before_none before : (forall p, p ∈ before -> lex_lt (Data p.1) (Data k) = true) -> contents before !! Data k = None.
Proof. intros Hb. apply contents_none. intros p Hp. by apply lex_lt_ne, Hb. Qed.
Lemma after_none after : (forall p, p ∈ after -> lex_lt (Data k) (Data p.1) = true) -> contents after !! Data k = None.
Proof. intros Ha. apply contents_none. intros p Hp. by apply not_eq_sym, lex_lt_ne, Ha. Qed.

Lemma find_contents : find k m = contents m !! Data k.
Proof.
  unfold find. destruct (position_of k m Hk Ho) as [before v after -> -> Hb Ha|before after -> -> Hb Ha];
    rewrite contents_app; cbn [snd].
  - rewrite key_lt_at by done. rewrite lookup_union_r by (by apply before_none).
    rewrite contents_cons. cbn [fst snd]. by rewrite lookup_insert_eq.
  - rewrite lookup_union_r by (by apply before_none). rewrite after_none by done.
    destruct after as [|p after]; [done|]. apply ordered_app in Ho as (_&[_ Hok]&_).
    by rewrite (key_lt_ahead k p after).
Qed.

Lemma assign_contents v : contents (assign k v m) = <[Data k := v]> (contents m) /\ ordered (assign k v m).
Proof.
  unfold assign. destruct (position_of k m Hk Ho) as [before w after Hm -> Hb Ha|before after Hm -> Hb Ha]; subst m;
    apply ordered_app in Ho as (Ho1&Ho2&Ho12).
  - rewrite key_lt_at by done. rewrite !contents_app, !contents_cons. cbn [fst snd]. split.
    + rewrite <- !insert_union_r by (by apply before_none). by rewrite insert_insert_eq.
    + apply app_ordered; [done| |].
      * destruct Ho2 as [Hs Hok]. inversion_clear Hs. inversion_clear Hok. by apply cons_ordered.
      * intros p q Hp [->|Hq]%elem_of_cons; [by apply Hb|]. apply Ho12; set_solver.
  - assert (ordered (before ++ (k, v) :: after)) as Hord.
    { apply app_ordered; [done|by apply cons_ordered|].
      intros p q Hp [->|Hq]%elem_of_cons; [by apply Hb|by apply Ho12]. }
    assert (contents (before ++ (k, v) :: after) = <[Data k := v]> (contents (before ++ after))) as Hc.
    { rewrite !contents_app, contents_cons. cbn [fst snd]. by rewrite <- insert_union_r by (by apply before_none). }
    destruct after as [|p after]; [done|]. destruct Ho2 as [_ Hok]. by rewrite (key_lt_ahead k p after).
Qed.

Lemma erase_contents : contents (erase k m) = delete (Data k) (contents m) /\ ordered (erase k m).
Proof.
  unfold erase. destruct (position_of k m Hk Ho) as [before w after Hm -> Hb Ha|before after Hm -> Hb Ha].
  - rewrite key_lt_at by done. subst m. apply ordered_app in Ho as (Ho1&Ho2&Ho12).
    rewrite !contents_app, contents_cons. cbn [fst snd]. split.
    + rewrite delete_union, delete_insert_eq, (delete_id (contents before)), (delete_id (contents after));
        [done|by apply after_none|by apply before_none].
    + destruct Ho2 as [Hs Hok]. inversion_clear Hs. inversion_clear Hok.
      apply app_ordered; [done|done|]. intros p q Hp Hq. apply Ho12; set_solver.
  - assert (contents m !! Data k = None) as Hnone.
    { subst m. rewrite contents_app, lookup_union_r by (by apply before_none). by apply after_none. }
    rewrite delete_id by done. destruct after as [|p after]; [done|].
    rewrite (key_lt_ahead k p after); [done|done| |done]. subst m. by apply ordered_app in Ho as (_&[_ ?]&_).
Qed.
End refine.

Lemma ordered_nil : ordered [].
Proof. split; constructor. Qed.
