(* ===== verification/MiniKV.v ===== *)
(** * The key-value store (src/kv/mini-kv)

    [MiniKV] with the members of the class, its request handlers [Put], [Get],
    [Delete] and [Scan], start and stop, the two load callbacks and the checkpoint
    trigger.  It uses its log and its checkpoint through the interfaces [IWal]
    (src/wal/iwal.h) and [ICheckpoint] (src/checkpoint/icheckpoint.h), here type
    classes over the state of the implementing object; the instances are
    [LogCleanWal] and [EntryOrderCheckpoint].

    The handlers are atomic here: [m_walLock] orders everything that writes, and
    is a member because a failing [Save] can leave it locked; a thread that waits
    for it forever is [Diverged].  The keys of [m_kvs] point into the entries they
    were inserted with; a replaced entry is never freed, so that the bytes a key
    compares are those it was inserted with, and the map holds them by value. *)

From S2P Require Import Prelude Codec Buffer Posix Files Entries KvEntries KvMap Wal Checkpoint.

(** ** The interfaces *)

Abbreviation wal_code := Wal.Code.
Abbreviation cp_code := EntryOrderCheckpoint.Code.
Abbreviation cp_traveller := (EntryOrderCheckpoint.traveller (E := raw_entry)).
Abbreviation cp_hook := EntryOrderCheckpoint.hook.

(** [Load] returns the batches its callback is called with. *)
Class IWal (W E : Type) := {
  wal_Init : M (W * world) (result wal_code unit);
  wal_Load : M (W * world) (result wal_code unit * list (list (Z * E)));
  wal_AppendEntry : E -> M (W * world) (result wal_code Z);
  wal_Truncate : Z -> M (W * world) (result wal_code unit);
  wal_Size : M (W * world) (result wal_code Z)
}.

(** [Save] returns the hooks it calls on the traveller, too. *)
Class ICheckpoint (C : Type) := {
  cp_Init : M (C * world) (result cp_code unit);
  cp_Load : M (C * world) (result cp_code Z * list (list raw_entry));
  cp_Save : cp_traveller -> M (C * world) (result cp_code Z * list cp_hook)
}.

Section implementations.
Context (host : byte_order) `{MemAlloc} `{PbEntry}.

Definition LogCleanWal_IWal : IWal LogCleanWal wal_entry := {|
  wal_Init := Wal.Init host;
  wal_Load := Wal.Load host;
  wal_AppendEntry := Wal.AppendEntry host;
  wal_Truncate := Wal.Truncate host;
  wal_Size := Wal.Size
|}.

Definition EntryOrderCheckpoint_ICheckpoint : ICheckpoint EntryOrderCheckpoint.t := {|
  cp_Init := EntryOrderCheckpoint.Init;
  cp_Load := EntryOrderCheckpoint.Load host;
  cp_Save := EntryOrderCheckpoint.Save host
|}.
End implementations.

(** ** Requests and responses (proto/kvrpc.proto) *)

(** [rc] when it is not [OK]. *)
Inductive pcode := ArgsErr | InternalErr.
Inductive SortOrder := Asc | Desc.

Record ScanRequest := MkScan { startKey : list byte; containStartKey : bool; order : SortOrder; limit : Z }.

Definition ServiceIsStoppedError := Msg "service is stopped".
Definition EntryOrKeyIsEmptyError := Msg "entry or key is empty".
Definition KeyIsEmptyError := Msg "key is empty".

(** ** class MiniKV *)

Record MiniKV (W C : Type) := MkKV {
  m_bStopped : bool;
  m_kvs : kvmap;
  m_pWal : W;
  m_pCheckpoint : C;
  m_walLock : bool;                     (* held *)
  m_triggerCheckpointWalSizeByte : Z;
  m_timers : Z;                         (* check-wal events subscribed so far *)
  m_applyId : Z;
  m_bCheck : bool
}.
Arguments MkKV {W C}.
Arguments m_bStopped {W C}.
Arguments m_kvs {W C}.
Arguments m_pWal {W C}.
Arguments m_pCheckpoint {W C}.
Arguments m_walLock {W C}.
Arguments m_triggerCheckpointWalSizeByte {W C}.
Arguments m_timers {W C}.
Arguments m_applyId {W C}.
Arguments m_bCheck {W C}.

Section kv.
Context {W C : Type} `{IWal W wal_entry} `{ICheckpoint C}.

Definition set_stopped b (o : MiniKV W C) : MiniKV W C :=
  MkKV b (m_kvs o) (m_pWal o) (m_pCheckpoint o) (m_walLock o) (m_triggerCheckpointWalSizeByte o)
    (m_timers o) (m_applyId o) (m_bCheck o).
Definition set_kvs f (o : MiniKV W C) : MiniKV W C :=
  MkKV (m_bStopped o) (f (m_kvs o)) (m_pWal o) (m_pCheckpoint o) (m_walLock o) (m_triggerCheckpointWalSizeByte o)
    (m_timers o) (m_applyId o) (m_bCheck o).
Definition set_wal x (o : MiniKV W C) : MiniKV W C :=
  MkKV (m_bStopped o) (m_kvs o) x (m_pCheckpoint o) (m_walLock o) (m_triggerCheckpointWalSizeByte o)
    (m_timers o) (m_applyId o) (m_bCheck o).
Definition set_cp x (o : MiniKV W C) : MiniKV W C :=
  MkKV (m_bStopped o) (m_kvs o) (m_pWal o) x (m_walLock o) (m_triggerCheckpointWalSizeByte o)
    (m_timers o) (m_applyId o) (m_bCheck o).
Definition set_walLock b (o : MiniKV W C) : MiniKV W C :=
  MkKV (m_bStopped o) (m_kvs o) (m_pWal o) (m_pCheckpoint o) b (m_triggerCheckpointWalSizeByte o)
    (m_timers o) (m_applyId o) (m_bCheck o).
Definition set_timers f (o : MiniKV W C) : MiniKV W C :=
  MkKV (m_bStopped o) (m_kvs o) (m_pWal o) (m_pCheckpoint o) (m_walLock o) (m_triggerCheckpointWalSizeByte o)
    (f (m_timers o)) (m_applyId o) (m_bCheck o).
Definition set_applyId i (o : MiniKV W C) : MiniKV W C :=
  MkKV (m_bStopped o) (m_kvs o) (m_pWal o) (m_pCheckpoint o) (m_walLock o) (m_triggerCheckpointWalSizeByte o)
    (m_timers o) i (m_bCheck o).
Definition set_check b (o : MiniKV W C) : MiniKV W C :=
  MkKV (m_bStopped o) (m_kvs o) (m_pWal o) (m_pCheckpoint o) (m_walLock o) (m_triggerCheckpointWalSizeByte o)
    (m_timers o) (m_applyId o) b.

(** The constructor, with the log and the checkpoint the factories make;
    [m_applyId] is not initialised. *)
Definition MiniKV_make (wal : W) (cp : C) (doCheckpointWalSizeBytes applyId : Z) : MiniKV W C :=
  MkKV true [] wal cp false doCheckpointWalSizeBytes 0 applyId false.

Abbreviation KM := (M (MiniKV W C * world)).

Definition on_wal {A} (c : M (W * world) A) : KM A := zoom m_pWal set_wal c.
Definition on_cp {A} (c : M (C * world) A) : KM A := zoom m_pCheckpoint set_cp c.

(** ** m_walLock *)

Definition lock_wal : KM unit :=
  b ← getO m_walLock;
  if b : bool then halt Diverged else modO (set_walLock true).
Definition unlock_wal : KM unit := modO (set_walLock false).
(** [std::unique_lock<std::mutex> l(m_walLock);] up to the end of the function. *)
Definition with_wal_lock {A} (body : KM A) : KM A :=
  lock_wal;; r ← body; unlock_wal;; mret r.

(** ** Load callbacks *)

Fixpoint on_checkpoint_load_entry (entries : list raw_entry) : KM unit :=
  match entries with
  | [] => mret tt
  | RawE None :: _ => halt Undefined
  | RawE (Some e) :: entries =>
      modO (set_kvs (assign (key_of (key e)) e));;
      on_checkpoint_load_entry entries
  end.

(** [strlen]: [None] when there is no NUL in the object. *)
Fixpoint strlen (s : list byte) : option nat :=
  match s with
  | [] => None
  | c :: s => if decide (c = x00) then Some 0%nat else S <$> strlen s
  end.

(** The switch of [on_wal_load_entries]. *)
Definition replay_entry (e : wal_entry) : KM unit :=
  match e with
  | DelE d =>
      kStr ← of_mem (WalDeleteEntry.m_pContent d);
      len ← of_mem (strlen kStr);
      modO (set_kvs (erase (key_of (take len kStr))))
  | PutE c =>
      e ← of_mem c;
      modO (set_kvs (assign (key_of (key e)) e))
  end.

Fixpoint on_wal_load_entries (entries : list (Z * wal_entry)) : KM unit :=
  match entries with
  | [] => mret tt
  | (id, e) :: entries =>
      applyId ← getO m_applyId;
      if id <? applyId then on_wal_load_entries entries
      else
        modO (set_applyId id);;
        replay_entry e;;
        on_wal_load_entries entries
  end.

(** The callback is called once per batch. *)
Fixpoint each_batch {A} (f : list A -> KM unit) (batches : list (list A)) : KM unit :=
  match batches with
  | [] => mret tt
  | b :: batches => f b;; each_batch f batches
  end.

(** ** Start, Stop *)

Definition register_trigger_check_wal_timer : KM unit := modO (set_timers (fun n => n + 1)).

(** The checker thread and the timer are left to run: [trigger_check_wal] and
    [check_wal] are what they do. *)
Definition Start : KM bool :=
  cpInitRs ← on_cp cp_Init;
  match cpInitRs with
  | Bad _ _ => mret false
  | Good _ =>
      '(cpLoadRs, cpBatches) ← on_cp cp_Load;
      each_batch on_checkpoint_load_entry cpBatches;;
      match cpLoadRs with
      | Bad _ _ => mret false
      | Good maxId =>
          modO (set_applyId maxId);;
          walInitRs ← on_wal wal_Init;
          match walInitRs with
          | Bad _ _ => mret false
          | Good _ =>
              '(walLoadRs, walBatches) ← on_wal wal_Load;
              each_batch on_wal_load_entries walBatches;;
              match walLoadRs with
              | Bad _ _ => mret false
              | Good _ =>
                  modO (set_stopped false);;
                  register_trigger_check_wal_timer;;
                  mret true
              end
          end
      end
  end.

Definition Stop : KM bool := modO (set_stopped true);; mret true.

(** ** The handlers *)

(** [if (m_applyId < walRs.EntryId) m_applyId = walRs.EntryId;] *)
Definition note_applied (id : Z) : KM unit :=
  applyId ← getO m_applyId;
  if applyId <? id then modO (set_applyId id) else mret tt.

Definition Put (entry : option Entry) : KM (result pcode unit) :=
  stopped ← getO m_bStopped;
  if stopped : bool then mret (Bad InternalErr ServiceIsStoppedError)
  else
    match entry with
    | None => mret (Bad ArgsErr EntryOrKeyIsEmptyError)
    | Some e =>
        if bool_decide (key e = []) then mret (Bad ArgsErr EntryOrKeyIsEmptyError)
        else with_wal_lock (
          walRs ← on_wal (wal_AppendEntry (PutE (Some e)));
          match walRs with
          | Bad _ m => mret (Bad InternalErr m)
          | Good entryId =>
              note_applied entryId;;
              modO (set_kvs (assign (key_of (key e)) e));;
              mret (Good tt)
          end)
    end.

Definition Get (k : list byte) : KM (result pcode (option Entry)) :=
  stopped ← getO m_bStopped;
  if stopped : bool then mret (Bad InternalErr ServiceIsStoppedError)
  else if bool_decide (k = []) then mret (Bad ArgsErr KeyIsEmptyError)
  else kvs ← getO m_kvs; mret (Good (find (key_of k) kvs)).

Definition Delete (k : list byte) : KM (result pcode unit) :=
  stopped ← getO m_bStopped;
  if stopped : bool then mret (Bad InternalErr ServiceIsStoppedError)
  else if bool_decide (k = []) then mret (Bad ArgsErr KeyIsEmptyError)
  else with_wal_lock (
    walRs ← on_wal (wal_AppendEntry (DelE (WalDeleteEntry.of_key k)));
    match walRs with
    | Bad _ m => mret (Bad InternalErr m)
    | Good entryId =>
        note_applied entryId;;
        modO (set_kvs (erase (key_of k)));;
        mret (Good tt)
    end).

(** [for (; curCnt < limit && iter != end(); ++iter)] from the iterator on. *)
Fixpoint scan_asc (limit curCnt : Z) (iter : kvmap) : list Entry :=
  match iter with
  | [] => []
  | p :: iter => if curCnt <? limit then p.2 :: scan_asc limit (u32 (curCnt + 1)) iter else []
  end.

(** [--iter], then the same loop downwards; [rest] is what is before the
    iterator, nearest first.  Decrementing [begin()] is undefined. *)
Fixpoint scan_desc (limit curCnt : Z) (rest : kvmap) : option (list Entry) :=
  match rest with
  | [] => None
  | p :: rest =>
      if curCnt <? limit then cons p.2 <$> scan_desc limit (u32 (curCnt + 1)) rest else Some []
  end.

Definition Scan (req : ScanRequest) : KM (result pcode (list Entry)) :=
  stopped ← getO m_bStopped;
  if stopped : bool then mret (Bad InternalErr ServiceIsStoppedError)
  else if 0 =? limit req then mret (Good [])
  else
    kvs ← getO m_kvs;
    match lower_bound (key_of (startKey req)) kvs with
    | (_, []) => mret (Good [])
    | (before, p :: after) =>
        let '(first, curCnt) := if containStartKey req then ([p.2], 1) else ([], 0) in
        match order req with
        | Asc => mret (Good (first ++ scan_asc (limit req) curCnt after))
        | Desc =>
            rs ← of_mem (scan_desc (limit req) curCnt (reverse before));
            mret (Good (first ++ rs))
        end
    end.

(** ** Checkpoints *)

(** [MiniKVTraveller]: from [begin()] on; the hooks lock and unlock [m_walLock]. *)
Definition MiniKVTraveller (kvs : kvmap) (maxId : Z) : cp_traveller :=
  EntryOrderCheckpoint.Traveller (map (fun p => RawE (Some p.2)) kvs) maxId.

Fixpoint run_hooks (hooks : list cp_hook) : KM unit :=
  match hooks with
  | [] => mret tt
  | EntryOrderCheckpoint.Prepare :: hooks => lock_wal;; run_hooks hooks
  | EntryOrderCheckpoint.CompletePrepare :: hooks => unlock_wal;; run_hooks hooks
  end.

Definition trigger_check_wal : KM unit := modO (set_check true).

(** [LOGFFUN] ends the process. *)
Definition check_wal : KM unit :=
  modO (set_check false);;
  stopped ← getO m_bStopped;
  if stopped : bool then mret tt
  else
    walRs ← on_wal wal_Size;
    match walRs with
    | Bad _ _ => halt Aborted
    | Good size =>
        trigger ← getO m_triggerCheckpointWalSizeByte;
        (if trigger <=? size then
           kvs ← getO m_kvs;
           applyId ← getO m_applyId;
           '(cpRs, hooks) ← on_cp (cp_Save (MiniKVTraveller kvs applyId));
           run_hooks hooks;;
           match cpRs with
           | Bad _ _ => mret tt
           | Good maxId => with_wal_lock (
               walTruncRs ← on_wal (wal_Truncate maxId);
               match walTruncRs with Bad _ _ => halt Aborted | Good _ => mret tt end)
           end
         else mret tt);;
        register_trigger_check_wal_timer
    end.
End kv.
