(* ===== verification/KvContracts.v ===== *)
(** * What the store relies on

    The contracts of [IWal] and [ICheckpoint] the store is verified against, in
    terms of the entries in the log and of the stored checkpoint, and the proofs
    that [LogCleanWal] and [EntryOrderCheckpoint] keep them. *)

From S2P Require Import Prelude Codec Buffer Posix Files Quiet Updates Records Entries KvEntries KvMap.
From S2P Require Import Wal WalFormat WalLoad WalSpec WalRestart Checkpoint CheckpointLoad CheckpointSave MiniKV.

(** The same files and directories, in a world without faults. *)
Definition same_disk (w w' : world) : Prop :=
  wf w' /\ w_files w' = w_files w /\ w_dirs w' = w_dirs w.

(** ** The log *)

(** [wal_open c l o w]: the object is open on a log with the entries [l];
    [wal_disk c l w]: the files hold such a log; [wal_room c n l o]: there are ids
    left for [n] more entries.  The log owns the files in its region. *)
Class IWalLaws (W E : Type) `{IWal W E} `{IEntryLaws E} := {
  wcfg : Type;
  wal_region : wcfg -> string -> Prop;
  wal_rest : wcfg -> string -> option (list byte);
  wal_dirs : wcfg -> gset string;
  wal_accepts : wcfg -> E -> Prop;
  wal_fresh : wcfg -> W -> Prop;
  wal_open : wcfg -> list (Z * E) -> W -> world -> Prop;
  wal_disk : wcfg -> list (Z * E) -> world -> Prop;
  wal_room : wcfg -> Z -> list (Z * E) -> W -> Prop;
  wal_next : list (Z * E) -> Z;

  wal_next_snoc : forall l e, wal_next (l ++ [(wal_next l, e)]) = wal_next l + 1;
  wal_append_law : forall c l e n o w Q,
    wal_open c l o w -> wal_accepts c e -> 0 < n -> wal_room c n l o ->
    (forall o' w', wal_open c (l ++ [(wal_next l, e)]) o' w' -> wal_room c (n - 1) (l ++ [(wal_next l, e)]) o' ->
       Q (Good (wal_next l)) (o', w')) ->
    wp (wal_AppendEntry e) (o, w) Q;
  wal_reopen_law : forall c l o w Q,
    wal_disk c l w -> wal_fresh c o ->
    (forall bs o' w', concat bs = map (fun x => (x.1, reload x.2)) l -> wal_open c l o' w' ->
       Q (Good tt, bs) (o', w')) ->
    wp wal_Init (o, w) (fun r s => r = Good tt /\ wp wal_Load s Q);
  wal_open_disk : forall c l o w, wal_open c l o w -> wal_disk c l w;
  wal_disk_rest : forall c l w, wal_disk c l w ->
    wf w /\ w_dirs w = wal_dirs c /\ Forall (fun x => encodable x.2) l /\
    forall p, ~ wal_region c p -> w_files w !! p = wal_rest c p;
  wal_disk_same : forall c l w w', wal_disk c l w -> same_disk w w' -> wal_disk c l w'
}.

(** ** The checkpoint *)

(** [cp_disk c snap w]: the directory holds the checkpoint [snap] (its largest id
    and its entries), and no save is under way. *)
Class ICheckpointLaws (C : Type) `{ICheckpoint C} := {
  ccfg : Type;
  cp_region : ccfg -> string -> Prop;
  cp_fresh : ccfg -> C -> Prop;
  cp_disk : ccfg -> option (Z * list raw_entry) -> world -> Prop;

  cp_start_law : forall c snap o w Q,
    cp_disk c snap w -> wf w -> cp_fresh c o ->
    (forall bs o' w', concat bs = from_option snd [] snap -> same_disk w w' ->
       Q (Good (from_option fst EOCP_INVALID_ENTRY_ID snap), bs) (o', w')) ->
    wp cp_Init (o, w) (fun r s => r = Good tt /\ wp cp_Load s Q);
  cp_disk_ok : forall c snap w, cp_disk c snap w ->
    Forall (fun e => exists x, e = RawE (Some x) /\ key x <> []) (from_option snd [] snap);
  cp_disk_frame : forall c snap w w', cp_disk c snap w -> wf w' -> w_dirs w' = w_dirs w ->
    (forall p, cp_region c p -> w_files w' !! p = w_files w !! p) -> cp_disk c snap w'
}.

(** ** LogCleanWal keeps the contract *)

Section wal.
Context (host : byte_order) `{MemAlloc} `{PbEntry}.

Definition log_of (segs : list (Z * list (lrec wal_entry))) : list (Z * wal_entry) :=
  map (fun r => (r_id r, r_entry r)) (log_recs segs).
Definition next_id (l : list (Z * wal_entry)) : Z :=
  match list.last l with Some x => x.1 | None => LOGCLEAN_WAL_MIN_ENTRY_ID end + 1.

Definition lc_open (c : wal_config) (l : list (Z * wal_entry)) (o : LogCleanWal) (w : world) : Prop :=
  cfg_ok c /\ exists segs, live c segs o w /\ log_of segs = l.
Definition lc_disk (c : wal_config) (l : list (Z * wal_entry)) (w : world) : Prop :=
  cfg_ok c /\ exists segs, disk c segs w /\ roomy c segs /\ log_of segs = l.
Definition lc_room (c : wal_config) (n : Z) (l : list (Z * wal_entry)) (o : LogCleanWal) : Prop :=
  next_id l + n <= 18446744073709551615 /\ m_currentSegmentId o + n <= 18446744073709551614.

Lemma next_id_log segs : next_id (log_of segs) = last_idx segs + 1.
Proof.
  unfold next_id, last_idx, log_of. rewrite list.fmap_last. by destruct (list.last (log_recs segs)).
Qed.
Lemma loaded_log segs : loaded (log_recs segs) = map (fun x => (x.1, reload x.2)) (log_of segs).
Proof. unfold loaded, log_of. by rewrite map_map. Qed.
Lemma log_of_started segs : log_of (started segs) = log_of segs.
Proof. by destruct segs. Qed.
Lemma roomy_started c segs : cfg_ok c -> roomy c segs -> roomy c (started segs).
Proof.
  intros (?&?&?) Hr. destruct segs; [|done]. intros s [= <-]. rewrite seg_file_length. simpl. lia.
Qed.

Lemma lc_append c l e n (o : LogCleanWal) (w : world) Q :
  lc_open c l o w -> accepts c e -> 0 < n -> lc_room c n l o ->
  (forall o' w', lc_open c (l ++ [(next_id l, e)]) o' w' -> lc_room c (n - 1) (l ++ [(next_id l, e)]) o' ->
     Q (Good (next_id l)) (o', w')) ->
  wp (Wal.AppendEntry host e) (o, w) Q.
Proof.
  intros (Hc&segs&Hl&<-) He Hn [Hr1 Hr2] HQ. rewrite next_id_log in *.
  eapply append_spec; [done|exact Hl|done|lia|lia|]. intros o' w' Hl'.
  destruct (live_shape _ _ _ _ Hl) as (init&rs&Hs&_). destruct (live_next _ _ _ _ _ _ _ Hl Hl') as (Hseg&_&Hidx).
  assert (log_of (log_append c e segs) = log_of segs ++ [(last_idx segs + 1, e)]) as Hlog.
  { rewrite Hs. unfold log_of. by rewrite log_recs_append, map_app. }
  apply HQ; [split; [done|by exists (log_append c e segs)]|]. rewrite <- Hlog. split; [|lia].
  rewrite next_id_log. lia.
Qed.

Lemma lc_reopen c l (o : LogCleanWal) (w : world) Q :
  lc_disk c l w -> fresh c o ->
  (forall bs o' w', concat bs = map (fun x => (x.1, reload x.2)) l -> lc_open c l o' w' -> Q (Good tt, bs) (o', w')) ->
  wp (Wal.Init host) (o, w) (fun r s => r = Good tt /\ wp (Wal.Load host) s Q).
Proof.
  intros (Hc&segs&Hd&Hr&<-) Hf HQ. eapply (init_spec host c segs); [done..|]. intros o1 w1 Hi. split; [done|].
  eapply (load_spec host c segs); [done..|]. intros bs o' w' Hbs Hl. apply HQ; [by rewrite Hbs, loaded_log|].
  split; [done|]. exists (started segs). split; [done|]. apply log_of_started.
Qed.

Lemma lc_open_disk c l o w : lc_open c l o w -> lc_disk c l w.
Proof. intros (Hc&segs&[[Hd _ _ _ _ _] Hr]&Hl). split; [done|]. by exists segs. Qed.

Lemma disk_same c segs w w' : disk (E := wal_entry) c segs w -> same_disk w w' -> disk c segs w'.
Proof.
  intros [Hw Hds Hr Hf Ho Hn Ht Hre Hso Hse] (Hw'&Hfi&Hd). split; rewrite ?Hfi, ?Hd; try done.
  unfold exists_path in *. by rewrite Hfi, Hd.
Qed.

Lemma lc_disk_rest c l w : lc_disk c l w ->
  wf w /\ w_dirs w = c_dirs c /\ Forall (fun x => encodable x.2) l /\
  forall p, ~ (exists id, p = segment_path (c_root c) id) -> w_files w !! p = c_rest c p.
Proof.
  intros (Hc&segs&[Hw Hds Hr Hf Ho Hn Ht [Hre1 Hre2] Hso Hse]&_&<-). split; [done|]. split; [done|]. split.
  - unfold log_of. apply Forall_map. apply list.Forall_forall. intros r Hrec. simpl.
    unfold log_recs in Hrec. apply list_elem_of_In, in_concat in Hrec as (rs&Hrs&Hr').
    apply in_map_iff in Hrs as (s&<-&Hs). rewrite list.Forall_forall in Hse.
    destruct (Hse s) as (_&Hok&_); [by apply list_elem_of_In|]. rewrite list.Forall_forall in Hok.
    by destruct (Hok r) as (?&_&_); [by apply list_elem_of_In|].
  - intros p Hp. apply Hre1. intros id ->. apply Hp. by exists id.
Qed.

Definition LogCleanWal_laws : IWalLaws LogCleanWal wal_entry (H := LogCleanWal_IWal host).
Proof.
  refine {| wcfg := wal_config; wal_region c p := exists id, p = segment_path (c_root c) id;
            wal_rest := c_rest; wal_dirs := c_dirs; wal_accepts := accepts;
            wal_fresh := fresh; wal_open := lc_open; wal_disk := lc_disk; wal_room := lc_room;
            wal_next := next_id |}.
  - intros l e. unfold next_id at 1. by rewrite list.last_snoc.
  - exact lc_append.
  - exact lc_reopen.
  - exact lc_open_disk.
  - exact lc_disk_rest.
  - intros c l w w' (Hc&segs&Hd&Hr&Hl) Hs. split; [done|]. exists segs. split; [by eapply disk_same|done].
Defined.
End wal.

(** ** EntryOrderCheckpoint keeps the contract *)

Section checkpoint.
Context (host : byte_order) `{MemAlloc} `{PbEntry}.
Import EntryOrderCheckpoint.

(** The snapshot as stored, with the versions of its records. *)
Definition unversioned (old : option (Z * list (Z * raw_entry))) : option (Z * list raw_entry) :=
  match old with Some (id, vs) => Some (id, map snd vs) | None => None end.

Definition eo_disk (c : t) (snap : option (Z * list raw_entry)) (w : world) : Prop :=
  0 < m_batchReadSize c /\ cp_root c w /\ (forall d, d ∈ dir_path (m_sRootDir c) -> d ∈ w_dirs w) /\
  idle c (w_files w) /\
  exists old, unversioned old = snap /\ holds c (w_files w) old /\ snap_ok old /\ fits c old.

Lemma eo_start c snap (o : t) w Q :
  eo_disk c snap w -> wf w -> o = set_inited false c ->
  (forall bs o' w', concat bs = from_option snd [] snap -> same_disk w w' ->
     Q (Good (from_option fst EOCP_INVALID_ENTRY_ID snap), bs) (o', w')) ->
  wp Init (o, w) (fun r s => r = Good tt /\ wp (Load host) s Q).
Proof.
  intros (Hb&Hr&Hd&Hi&old&<-&Ho&Hs&Hf) Hw -> HQ. apply Init_spec; [done|done|].
  assert (cp_root (set_inited false c) w) as Hr0 by (destruct Hr; by split).
  unfold check_and_recover. wbind.
  eapply (upd_completed (set_inited false c) w _ _ w Hr0 (upd_refl w Hw)); [exact Hi|]. intros w1 Hu1. wpure.
  split; [done|]. cbn [fst snd].
  assert (cp_root (set_inited true (set_inited false c)) w1) as Hr1.
  { pose proof (cp_root_upd _ _ _ _ _ Hr0 Hu1) as Hr1. destruct Hr1. by split. }
  eapply (Load_holds host (set_inited true (set_inited false c)) old w1); [done|done|done| |done|done|].
  { by rewrite (upd_files _ _ _ _ Hu1). }
  intros [r bs] w2 Hu2 [Hr2 Hbs]. cbn [fst snd] in *. subst r.
  replace (snap_id old) with (from_option fst EOCP_INVALID_ENTRY_ID (unversioned old)) by (by destruct old as [[id vs]|]).
  apply HQ.
  - rewrite Hbs. by destruct old as [[id vs]|].
  - split; [apply (upd_wf _ _ _ _ Hu2)|]. rewrite (upd_files _ _ _ _ Hu2), (upd_dirs _ _ _ _ Hu2).
    by rewrite (upd_files _ _ _ _ Hu1), (upd_dirs _ _ _ _ Hu1).
Qed.

Definition eo_region (c : t) (p : string) : Prop := exists n, n ∈ cp_names /\ p = at_root (m_sRootDir c) n.

Lemma eo_frame c snap w w' :
  eo_disk c snap w -> wf w' -> w_dirs w' = w_dirs w ->
  (forall p, eo_region c p -> w_files w' !! p = w_files w !! p) -> eo_disk c snap w'.
Proof.
  intros (Hb&[_ Hr Hn]&Hd&Hi&old&Heq&Ho&Hs&Hf) Hw' Hdir Hfr.
  assert (forall n, n ∈ cp_names -> w_files w' !! at_root (m_sRootDir c) n = w_files w !! at_root (m_sRootDir c) n)
    as Hat by (intros n Hin; apply Hfr; by exists n).
  split; [done|]. split; [by split; rewrite ?Hdir|]. split; [by rewrite Hdir|]. split.
  - unfold idle in *. revert Hi. at_paths. by rewrite !Hat by in_names.
  - exists old. split; [done|]. split; [|done]. revert Ho. unfold holds, holds_at. at_paths.
    by destruct old as [[id vs]|]; rewrite !Hat by in_names.
Qed.

Definition EntryOrderCheckpoint_laws : ICheckpointLaws t (H := EntryOrderCheckpoint_ICheckpoint host).
Proof.
  refine {| ccfg := t; cp_region := eo_region; cp_fresh c o := o = set_inited false c; cp_disk := eo_disk |}.
  - exact eo_start.
  - intros c snap w (_&_&_&_&old&<-&_&Hs&_). destruct old as [[id vs]|]; [|constructor]. destruct Hs as [_ Hvs].
    simpl. apply Forall_map. eapply Forall_impl; [|exact Hvs]. intros [v [[x|]]] [He _]; [|done]. by exists x.
  - exact eo_frame.
Defined.
End checkpoint.
