(* ===== verification/KvRecovery.v ===== *)
(** * State and recovery of the store

    [recover snap l] is the state a start-up computes from a checkpoint and a log;
    [running] is the invariant of the running store: its state is what a start-up
    would recover from the files.  [Start] establishes it, [Put] and [Delete]
    keep it, and so a restart at any point between two requests gives the same
    state. *)

From S2P Require Import Prelude Codec Buffer Posix Files Quiet Updates Entries KvEntries KvMap Checkpoint MiniKV KvContracts.

(** ** What the callbacks compute *)

Definition load_raw (m : kvmap) (e : raw_entry) : kvmap :=
  match e with RawE (Some x) => assign (key_of (key x)) x m | RawE None => m end.

Definition replay_kvs (m : kvmap) (e : wal_entry) : kvmap :=
  match e with
  | PutE (Some x) => assign (key_of (key x)) x m
  | PutE None => m
  | DelE d =>
      match WalDeleteEntry.m_pContent d with
      | Some s => match strlen s with Some n => erase (key_of (take n s)) m | None => m end
      | None => m
      end
  end.
(** The id that was applied last, and the map. *)
Definition replay1 (st : Z * kvmap) (x : Z * wal_entry) : Z * kvmap :=
  if x.1 <? st.1 then st else (x.1, replay_kvs st.2 x.2).

Section recovery.
Context `{MemAlloc} `{PbEntry}.

Definition from_snapshot (snap : option (Z * list raw_entry)) : Z * kvmap :=
  (from_option fst EOCP_INVALID_ENTRY_ID snap, foldl load_raw [] (from_option snd [] snap)).
Definition recover (snap : option (Z * list raw_entry)) (l : list (Z * wal_entry)) : Z * kvmap :=
  foldl replay1 (from_snapshot snap) (map (fun x => (x.1, reload x.2)) l).

(** An entry as it comes from disk. *)
Definition replayable (e : wal_entry) : Prop :=
  match e with
  | PutE c => is_Some c
  | DelE d => exists s n, WalDeleteEntry.m_pContent d = Some s /\ strlen s = Some n
  end.

Lemma strlen_nul s : exists n, strlen (s ++ [x00]) = Some n.
Proof.
  induction s as [|c s [n IH]]; simpl; [by exists 0%nat|]. destruct (decide (c = x00)); [by exists 0%nat|].
  exists (S n). by rewrite IH.
Qed.
Lemma reload_replayable e : encodable e -> replayable (reload e).
Proof.
  destruct e as [[e|]|d]; cbn; [by eauto|done|]. intros _.
  set (s := slice _ _ _). destruct (strlen_nul s) as [n Hn]. by exists (s ++ [x00]), n.
Qed.

(** A key without NUL is what [strlen] finds of it. *)
Definition no_nul (k : list byte) : Prop := Forall (fun c => c <> x00) k.
Lemma strlen_no_nul k : no_nul k -> strlen (k ++ [x00]) = Some (length k).
Proof.
  induction 1 as [|c k Hc Hk IH]; simpl; [done|]. rewrite decide_False by done. by rewrite IH.
Qed.
Lemma replay_delete k m :
  no_nul k -> replay_kvs m (reload (DelE (WalDeleteEntry.of_key k))) = erase (key_of k) m.
Proof.
  intros Hk. cbn [reload wal_laws wal_reload replay_kvs WalDeleteEntry.m_pContent]. rewrite of_key_bytes.
  rewrite strlen_no_nul by done. by rewrite take_app_length.
Qed.

(** ** The callbacks *)

Section callbacks.
Context {W C : Type} `{IWal W wal_entry} `{ICheckpoint C}.

(** The two members loading changes. *)
Definition with_state (st : Z * kvmap) (o : MiniKV W C) : MiniKV W C := set_applyId st.1 (set_kvs (fun _ => st.2) o).
Definition state_of (o : MiniKV W C) : Z * kvmap := (m_applyId o, m_kvs o).

Lemma with_state_of o : with_state (state_of o) o = o.
Proof. by destruct o. Qed.

Lemma cp_load_spec es : forall (o : MiniKV W C) (w : world) Q,
  Forall (fun e => exists x, e = RawE (Some x) /\ key x <> []) es ->
  Q tt (set_kvs (fun m => foldl load_raw m es) o, w) -> wp (on_checkpoint_load_entry es) (o, w) Q.
Proof.
  induction es as [|e es IH]; intros o w Q Hes HQ; cbn [on_checkpoint_load_entry].
  - wpure. by destruct o.
  - inversion_clear Hes as [|? ? (x&->&_) Hes']. wpure. by apply IH.
Qed.

Lemma cp_batches_spec bs : forall (o : MiniKV W C) (w : world) Q,
  Forall (fun e => exists x, e = RawE (Some x) /\ key x <> []) (concat bs) ->
  Q tt (set_kvs (fun m => foldl load_raw m (concat bs)) o, w) -> wp (each_batch on_checkpoint_load_entry bs) (o, w) Q.
Proof.
  induction bs as [|b bs IH]; intros o w Q Hes HQ; cbn [each_batch concat] in *.
  - wpure. by destruct o.
  - apply Forall_app in Hes as [Hb Hbs]. wbind. apply cp_load_spec; [done|]. apply IH; [done|].
    unfold set_kvs in *. cbn in *. by rewrite foldl_app in HQ.
Qed.

Lemma wal_load_spec l : forall (o : MiniKV W C) (w : world) Q,
  Forall (fun x => replayable x.2) l ->
  Q tt (with_state (foldl replay1 (state_of o) l) o, w) -> wp (on_wal_load_entries l) (o, w) Q.
Proof.
  induction l as [|[id e] l IH]; intros o w Q Hl HQ; cbn [on_wal_load_entries foldl] in *.
  - wpure. by rewrite with_state_of in HQ.
  - inversion_clear Hl as [|? ? He Hl']. wpure. unfold replay1 at 2 in HQ. cbn [fst snd state_of] in HQ.
    destruct (id <? m_applyId o); [by apply IH|]. wpure.
    assert (wp (replay_entry e) (set_applyId id o, w) (fun _ s => s = (with_state (id, replay_kvs (m_kvs o) e) o, w))) as Hrep.
    { destruct e as [[x|]|d]; cbn [replay_entry replayable snd] in *; [by wpure|by destruct He|].
      destruct He as (s&n&Hs&Hn). cbn [replay_kvs]. rewrite Hs. cbn [of_mem]. wpure. rewrite Hn. cbn [of_mem]. by wpure. }
    wbind. eapply wp_mono; [exact Hrep|]. intros _ s ->. apply IH; [done|]. by destruct o.
Qed.

Lemma wal_batches_spec bs : forall (o : MiniKV W C) (w : world) Q,
  Forall (fun x => replayable x.2) (concat bs) ->
  Q tt (with_state (foldl replay1 (state_of o) (concat bs)) o, w) -> wp (each_batch on_wal_load_entries bs) (o, w) Q.
Proof.
  induction bs as [|b bs IH]; intros o w Q Hl HQ; cbn [each_batch concat foldl] in *.
  - wpure. by rewrite with_state_of in HQ.
  - apply Forall_app in Hl as [Hb Hbs]. wbind. apply wal_load_spec; [done|]. apply IH; [done|].
    rewrite foldl_app in HQ. unfold with_state in *. cbn in *. by destruct (foldl replay1 (state_of o) b).
Qed.
End callbacks.

(** ** The invariant *)

Section running.
Context {W C : Type} `{!IWal W wal_entry, !IWalLaws W wal_entry} `{!ICheckpoint C, !ICheckpointLaws C}.

(** The log and the checkpoint use different files. *)
Definition separate (c : wcfg) (cc : ccfg) : Prop := forall p, cp_region cc p -> ~ wal_region c p.

Record running (c : wcfg) (cc : ccfg) (snap : option (Z * list raw_entry)) (l : list (Z * wal_entry))
    (o : MiniKV W C) (w : world) : Prop := {
  run_wal : wal_open c l (m_pWal o) w;
  run_cp : cp_disk cc snap w;
  run_state : state_of o = recover snap l;
  run_stopped : m_bStopped o = false;
  run_lock : m_walLock o = false;
  run_ids : m_applyId o < wal_next l
}.

Lemma cp_disk_wal c cc snap l l' w w' :
  separate c cc -> cp_disk cc snap w -> wal_disk c l w -> wal_disk c l' w' -> cp_disk cc snap w'.
Proof.
  intros Hsep Hcp (_&Hd&_&Hr)%wal_disk_rest (Hw'&Hd'&_&Hr')%wal_disk_rest.
  eapply cp_disk_frame; [exact Hcp|done|congruence|]. intros p Hp%Hsep. by rewrite Hr, Hr'.
Qed.

Lemma Start_spec c cc snap l wal cp trig junk w Q :
  separate c cc -> wal_disk c l w -> cp_disk cc snap w -> wal_fresh c wal -> cp_fresh cc cp ->
  (recover snap l).1 < wal_next l ->
  (forall o' w', running c cc snap l o' w' -> Q true (o', w')) ->
  wp Start (MiniKV_make wal cp trig junk, w) Q.
Proof.
  intros Hsep Hwd Hcd Hwf Hcf Hids HQ. pose proof (wal_disk_rest _ _ _ Hwd) as (Hw&_&Henc&_).
  set (o := MiniKV_make wal cp trig junk). unfold Start, on_cp, on_wal. wbind. apply wp_zoom.
  change (m_pCheckpoint o) with cp. eapply wp_mono; [eapply (cp_start_law cc snap cp w
    (fun r s => concat r.2 = from_option snd [] snap /\ r.1 = Good (from_option fst EOCP_INVALID_ENTRY_ID snap) /\
                same_disk w s.2)); [done..|]|].
  { intros bs o' w' Hbs Hsame. done. }
  intros r [cp1 w1] [-> Hload]. cbn [fst snd]. wbind. apply wp_zoom. cbn [m_pCheckpoint set_cp].
  eapply wp_mono; [exact Hload|]. intros [r bs] [cp2 w2] (Hbs&Hr&Hsame). cbn [fst snd] in *. subst r.
  wbind. apply cp_batches_spec; [rewrite Hbs; by eapply cp_disk_ok|]. rewrite Hbs. wpure.
  pose proof (wal_disk_same _ _ _ _ Hwd Hsame) as Hwd2.
  wbind. apply wp_zoom. cbn [m_pWal set_kvs set_cp set_applyId]. change (m_pWal o) with wal.
  eapply wp_mono; [eapply (wal_reopen_law c l wal w2
    (fun r s => concat r.2 = map (fun x => (x.1, reload x.2)) l /\ r.1 = Good tt /\ wal_open c l s.1 s.2)); [done..|]|].
  { intros bs' o' w' Hbs' Hopen. done. }
  intros r [wal1 w3] [-> Hwload]. cbn [fst snd]. wbind. apply wp_zoom. cbn [m_pWal set_wal].
  eapply wp_mono; [exact Hwload|]. intros [r bs'] [wal2 w4] (Hbs'&Hr'&Hopen). cbn [fst snd] in *. subst r.
  wbind. apply wal_batches_spec.
  { rewrite Hbs'. apply Forall_map. eapply Forall_impl; [|exact Henc]. intros x. by apply reload_replayable. }
  rewrite Hbs'. unfold register_trigger_check_wal_timer. wpure. apply HQ.
  assert (cp_disk cc snap w4) as Hcd4.
  { eapply (cp_disk_wal c cc snap l l w w4); [done..|by eapply wal_open_disk]. }
  unfold recover, from_snapshot in *. split; [done|done| |done|done|exact Hids].
  symmetry. apply surjective_pairing.
Qed.

(** ** Handlers that write *)

Lemma with_lock_spec {A} (o : MiniKV W C) w (body : M (MiniKV W C * world) A) Q :
  m_walLock o = false ->
  wp body (set_walLock true o, w) (fun a s => Q a (set_walLock false s.1, s.2)) ->
  wp (with_wal_lock body) (o, w) Q.
Proof.
  intros Hl Hb. unfold with_wal_lock, lock_wal, unlock_wal. wpure. rewrite Hl. wpure. wbind.
  eapply wp_mono; [exact Hb|]. intros a [o' w'] HQ. by wpure.
Qed.

(** One logged update: the entry is appended and the map changed by [f], as a
    replay of the reloaded entry changes it. *)
Lemma logged_spec {A} c cc snap l (o : MiniKV W C) w n e f (ok : A) (bad : errmsg -> A) Q :
  separate c cc -> running c cc snap l o w -> wal_accepts c e -> 0 < n -> wal_room c n l (m_pWal o) ->
  (forall m, replay_kvs m (reload e) = f m) ->
  (forall o' w', let l' := l ++ [(wal_next l, e)] in
     running c cc snap l' o' w' -> m_kvs o' = f (m_kvs o) -> wal_room c (n - 1) l' (m_pWal o') -> Q ok (o', w')) ->
  wp (with_wal_lock (
    walRs ← on_wal (wal_AppendEntry e);
    match walRs with
    | Bad _ m => mret (bad m)
    | Good entryId => note_applied entryId;; modO (set_kvs f);; mret ok
    end)) (o, w) Q.
Proof.
  intros Hsep [Hwal Hcp Hst Hstop Hlock Hids] Hacc Hn Hroom Hf HQ. apply with_lock_spec; [done|].
  wbind. unfold on_wal. apply wp_zoom. cbn [m_pWal set_walLock].
  eapply wal_append_law; [done..|]. intros wal' w' Hopen Hroom'. cbn [fst snd].
  unfold note_applied. wpure. cbn [m_applyId set_wal set_walLock].
  destruct (Z.ltb_spec (m_applyId o) (wal_next l)); [|lia]. wpure. apply HQ; [|done|done].
  split; cbn [m_pWal m_applyId m_kvs m_bStopped m_walLock set_kvs set_applyId set_wal set_walLock fst snd]; try done.
  - eapply (cp_disk_wal c cc snap l); [done|done|by eapply wal_open_disk|by eapply wal_open_disk].
  - unfold recover, state_of in *.
    cbn [m_applyId m_kvs set_kvs set_applyId set_wal set_walLock fst snd]. rewrite map_app, foldl_app. cbn [map foldl fst snd]. rewrite <- Hst.
    unfold replay1. cbn [fst snd]. destruct (Z.ltb_spec (wal_next l) (m_applyId o)); [lia|]. by rewrite Hf.
  - rewrite wal_next_snoc. lia.
Qed.

Lemma Put_spec c cc snap l (o : MiniKV W C) w n e Q :
  separate c cc -> running c cc snap l o w -> key e <> [] -> wal_accepts c (PutE (Some e)) ->
  0 < n -> wal_room c n l (m_pWal o) ->
  (forall o' w', let l' := l ++ [(wal_next l, PutE (Some e))] in
     running c cc snap l' o' w' -> m_kvs o' = assign (key_of (key e)) e (m_kvs o) ->
     wal_room c (n - 1) l' (m_pWal o') -> Q (Good tt) (o', w')) ->
  wp (Put (Some e)) (o, w) Q.
Proof.
  intros Hsep Hrun Hk Hacc Hn Hroom HQ. unfold Put. wpure. rewrite (run_stopped _ _ _ _ _ _ Hrun).
  rewrite bool_decide_eq_false_2 by done.
  by eapply (logged_spec c cc snap l o w n (PutE (Some e)) _ (Good tt) (fun m => Bad InternalErr m)).
Qed.

Lemma Delete_spec c cc snap l (o : MiniKV W C) w n k Q :
  separate c cc -> running c cc snap l o w -> k <> [] -> no_nul k ->
  wal_accepts c (DelE (WalDeleteEntry.of_key k)) -> 0 < n -> wal_room c n l (m_pWal o) ->
  (forall o' w', let l' := l ++ [(wal_next l, DelE (WalDeleteEntry.of_key k))] in
     running c cc snap l' o' w' -> m_kvs o' = erase (key_of k) (m_kvs o) ->
     wal_room c (n - 1) l' (m_pWal o') -> Q (Good tt) (o', w')) ->
  wp (Delete k) (o, w) Q.
Proof.
  intros Hsep Hrun Hk Hnul Hacc Hn Hroom HQ. unfold Delete. wpure. rewrite (run_stopped _ _ _ _ _ _ Hrun).
  rewrite bool_decide_eq_false_2 by done.
  eapply (logged_spec c cc snap l o w n (DelE (WalDeleteEntry.of_key k)) (erase (key_of k)) (Good tt) (fun m => Bad InternalErr m));
    [done..| |done]. intros m. by apply replay_delete.
Qed.
End running.
End recovery.
