(* ===== verification/KvTheorems.v ===== *)
(** * What the key-value store guarantees

    The handlers against a finite map from keys to entries, the order of scans,
    and durability: a restart gives the state the requests have built up.  The
    theorems about requests hold for every log and checkpoint that keep the
    contracts of [KvContracts]; the runs at the end use [LogCleanWal] and
    [EntryOrderCheckpoint]. *)

From S2P Require Import Prelude Codec Buffer Posix Files Quiet Updates Entries KvEntries KvMap.
From S2P Require Import Wal WalFormat WalSpec WalRestart Checkpoint CheckpointSave MiniKV KvContracts KvRecovery.

(** ** The order and the map *)

(** On keys whose length fits 32 bits [Key::operator<] is the
    lexicographic order of the bytes with a prefix first, a strict total order:
    irreflexive, transitive, and two keys neither of which is smaller are the
    same bytes. *)
Theorem kv_key_order (a b c : list byte)
    (Ha : zlen a < 4294967296) (Hb : zlen b < 4294967296) (Hc : zlen c < 4294967296) :
  key_lt (key_of a) (key_of b) = lex_lt a b /\
  key_lt (key_of a) (key_of a) = false /\
  (key_lt (key_of a) (key_of b) = true -> key_lt (key_of b) (key_of c) = true -> key_lt (key_of a) (key_of c) = true) /\
  (key_lt (key_of a) (key_of b) = false -> key_lt (key_of b) (key_of a) = false -> a = b).
Proof.
  rewrite !key_lt_lex by (by apply key_of_ok). cbn [Data key_of].
  split; [done|]. split; [apply lex_lt_irrefl|]. split; [apply lex_lt_trans|].
  intros H1 H2. destruct (lex_lt_total a b) as [H|[H|H]]; congruence.
Qed.

Lemma kv_key_order_witness :
  key_lt (key_of [x61]) (key_of [x61; x00]) = lex_lt [x61] [x61; x00] /\
  key_lt (key_of [x61]) (key_of [x61]) = false /\
  (key_lt (key_of [x61]) (key_of [x61; x00]) = true -> key_lt (key_of [x61; x00]) (key_of [xff]) = true ->
   key_lt (key_of [x61]) (key_of [xff]) = true) /\
  (key_lt (key_of [x61]) (key_of [x61; x00]) = false -> key_lt (key_of [x61; x00]) (key_of [x61]) = false ->
   [x61] = [x61; x00]).
Proof. apply (kv_key_order [x61] [x61; x00] [xff]); vm_compute; reflexivity. Defined.

(** On a map sorted by that order, [find], assignment and
    [erase] are look-up, insertion and deletion of the finite map with these
    contents, and the last two keep it sorted. *)
Theorem kv_map_refines (k : list byte) (v : Entry) (m : kvmap) (Hk : zlen k < 4294967296) (Ho : ordered m) :
  find (key_of k) m = contents m !! k /\
  (contents (assign (key_of k) v m) = <[k := v]> (contents m) /\ ordered (assign (key_of k) v m)) /\
  (contents (erase (key_of k) m) = delete k (contents m) /\ ordered (erase (key_of k) m)).
Proof.
  pose proof (key_of_ok k Hk) as Hok. split; [by apply (find_contents (key_of k))|].
  split; [by apply (assign_contents (key_of k))|by apply (erase_contents (key_of k))].
Qed.

Definition demo_entry (k v : byte) : Entry := MkEntry [k] [v].
Definition demo_map : kvmap := [(key_of [x61], demo_entry x61 x31); (key_of [x63], demo_entry x63 x33)].

Lemma demo_map_ordered : ordered demo_map.
Proof. split; repeat constructor. Qed.

Lemma kv_map_refines_witness :
  find (key_of [x62]) demo_map = contents demo_map !! [x62] /\
  (contents (assign (key_of [x62]) (demo_entry x62 x32) demo_map) = <[[x62] := demo_entry x62 x32]> (contents demo_map) /\
   ordered (assign (key_of [x62]) (demo_entry x62 x32) demo_map)) /\
  (contents (erase (key_of [x62]) demo_map) = delete [x62] (contents demo_map) /\
   ordered (erase (key_of [x62]) demo_map)).
Proof.
  apply (kv_map_refines [x62] (demo_entry x62 x32) demo_map); [vm_compute; reflexivity|exact demo_map_ordered].
Defined.

(** ** Scans *)

Lemma scan_asc_take lim it : forall cur,
  0 <= cur <= lim -> lim < 4294967296 -> scan_asc lim cur it = map snd (take (Z.to_nat (lim - cur)) it).
Proof.
  induction it as [|p it IH]; intros cur Hc Hl; cbn [scan_asc]; [by rewrite take_nil|].
  destruct (Z.ltb_spec cur lim).
  - rewrite u32_small by lia. rewrite IH by lia.
    replace (Z.to_nat (lim - cur)) with (S (Z.to_nat (lim - (cur + 1)))) by lia. done.
  - replace (Z.to_nat (lim - cur)) with 0%nat by lia. done.
Qed.

Lemma scan_desc_take lim rest : forall cur,
  0 <= cur <= lim -> lim < 4294967296 ->
  scan_desc lim cur rest =
  if lim - cur <? zlen rest then Some (map snd (take (Z.to_nat (lim - cur)) rest)) else None.
Proof.
  induction rest as [|p rest IH]; intros cur Hc Hl; cbn [scan_desc].
  - change (zlen []) with 0. destruct (Z.ltb_spec (lim - cur) 0); [lia|done].
  - rewrite zlen_cons. pose proof (zlen_nonneg rest). destruct (Z.ltb_spec cur lim).
    + rewrite u32_small by lia. rewrite IH by lia.
      replace (Z.to_nat (lim - cur)) with (S (Z.to_nat (lim - (cur + 1)))) by lia.
      destruct (Z.ltb_spec (lim - (cur + 1)) (zlen rest)), (Z.ltb_spec (lim - cur) (1 + zlen rest)); done || lia.
    + replace (Z.to_nat (lim - cur)) with 0%nat by lia. destruct (Z.ltb_spec (lim - cur) (1 + zlen rest)); [done|lia].
Qed.

(** The entries at or above a key, and those below it, in the order of the map. *)
Definition from_key (k : list byte) (m : kvmap) : kvmap := List.filter (fun p => negb (lex_lt (Data p.1) k)) m.
Definition below_key (k : list byte) (m : kvmap) : kvmap := List.filter (fun p => lex_lt (Data p.1) k) m.

Lemma filter_all {A} (f : A -> bool) (l : list A) : (forall x, x ∈ l -> f x = true) -> List.filter f l = l.
Proof. induction l as [|x l IH]; intros Hf; simpl; [done|]. rewrite Hf by set_solver. f_equal. apply IH. set_solver. Qed.
Lemma filter_none {A} (f : A -> bool) (l : list A) : (forall x, x ∈ l -> f x = false) -> List.filter f l = [].
Proof. induction l as [|x l IH]; intros Hf; simpl; [done|]. rewrite Hf by set_solver. apply IH. set_solver. Qed.

Lemma lower_bound_filter k m :
  zlen k < 4294967296 -> ordered m -> lower_bound (key_of k) m = (below_key k m, from_key k m).
Proof.
  intros Hk Ho. destruct (lower_bound_split (key_of k) m (key_of_ok k Hk) Ho) as (before&after&->&->&Hb&Ha).
  cbn [Data key_of] in *. unfold below_key, from_key. rewrite !filter_app.
  rewrite (filter_all _ before), (filter_none _ after), (filter_none _ before), (filter_all _ after), app_nil_r; [done|..];
    intros p Hp; rewrite ?(Hb p Hp), ?(Ha p Hp); done.
Qed.

Section scans.
Context {W C : Type}.

(** An ascending scan with a positive limit returns, in the
    order of the keys, the first [limit] entries from the start key on; without
    [containStartKey] it leaves out the first of them. *)
Theorem kv_scan_asc (o : MiniKV W C) (w : world) (k : list byte) (contain : bool) (lim : Z)
    (Hs : m_bStopped o = false) (Ho : ordered (m_kvs o)) (Hk : zlen k < 4294967296) (Hl : 0 < lim < 4294967296) :
  Scan (MkScan k contain Asc lim) (o, w) =
  (Ok (Good (map snd (take (Z.to_nat lim)
     (if contain then from_key k (m_kvs o) else drop 1 (from_key k (m_kvs o)))))), (o, w)).
Proof.
  unfold Scan, mbind, M_bind, getO, mret, M_ret. cbn [fst snd limit startKey containStartKey order]. rewrite Hs.
  destruct (Z.eqb_spec 0 lim); [lia|]. change (m_kvs (o, w).1) with (m_kvs o).
  rewrite lower_bound_filter by done.
  destruct (from_key k (m_kvs o)) as [|p after]; [destruct contain; cbn [drop]; rewrite take_nil; reflexivity|].
  destruct contain; cbn [app drop].
  - rewrite scan_asc_take by lia. replace (Z.to_nat lim) with (S (Z.to_nat (lim - 1))) by lia. done.
  - rewrite scan_asc_take by lia. by rewrite Z.sub_0_r.
Qed.

(** A descending scan with a positive limit that finds an entry
    at or above the start key returns that entry (if asked for) and then, downwards, the
    entries below the start key up to the limit, provided that there is still an
    entry below them; when the scan gets to the first entry of the map, it
    decrements [begin()] and its behaviour is undefined. *)
Theorem kv_scan_desc (o : MiniKV W C) (w : world) (k : list byte) (contain : bool) (lim : Z)
    (Hs : m_bStopped o = false) (Ho : ordered (m_kvs o)) (Hk : zlen k < 4294967296) (Hl : 0 < lim < 4294967296)
    (Hf : from_key k (m_kvs o) <> []) :
  let first := if contain then take 1 (from_key k (m_kvs o)) else [] in
  let more := lim - zlen first in
  Scan (MkScan k contain Desc lim) (o, w) =
  if more <? zlen (below_key k (m_kvs o))
  then (Ok (Good (map snd (first ++ take (Z.to_nat more) (reverse (below_key k (m_kvs o)))))), (o, w))
  else (Prelude.Stop Undefined, (o, w)).
Proof.
  unfold Scan, mbind, M_bind, getO, mret, M_ret. cbn [fst snd limit startKey containStartKey order]. rewrite Hs.
  destruct (Z.eqb_spec 0 lim); [lia|]. change (m_kvs (o, w).1) with (m_kvs o).
  rewrite lower_bound_filter by done.
  destruct (from_key k (m_kvs o)) as [|p after]; [done|]. cbn [take].
  assert (zlen (reverse (below_key k (m_kvs o))) = zlen (below_key k (m_kvs o))) as Hrev
    by (unfold zlen; by rewrite length_reverse).
  destruct contain; cbv zeta; rewrite scan_desc_take, Hrev by lia.
  - change (zlen [p]) with 1. destruct (_ <? _); [|done]. done.
  - change (zlen []) with 0. rewrite !Z.sub_0_r. destruct (_ <? _); [|done]. done.
Qed.
End scans.

Definition demo_kv : MiniKV unit unit := MkKV false demo_map tt tt false 0 0 0 false.

Lemma kv_scan_asc_witness :
  Scan (MkScan [x62] true Asc 5) (demo_kv, World ∅ ∅ ∅ 3 0 ∅ ∅ []) =
  (Ok (Good (map snd (take (Z.to_nat 5) (from_key [x62] (m_kvs demo_kv))))), (demo_kv, World ∅ ∅ ∅ 3 0 ∅ ∅ [])).
Proof.
  apply (kv_scan_asc demo_kv (World ∅ ∅ ∅ 3 0 ∅ ∅ []) [x62] true 5);
    [reflexivity|exact demo_map_ordered|vm_compute; reflexivity|lia].
Defined.

Lemma kv_scan_desc_witness :
  let first := if true then take 1 (from_key [x62] (m_kvs demo_kv)) else [] in
  let more := 1 - zlen first in
  Scan (MkScan [x62] true Desc 1) (demo_kv, World ∅ ∅ ∅ 3 0 ∅ ∅ []) =
  if more <? zlen (below_key [x62] (m_kvs demo_kv))
  then (Ok (Good (map snd (first ++ take (Z.to_nat more) (reverse (below_key [x62] (m_kvs demo_kv)))))),
        (demo_kv, World ∅ ∅ ∅ 3 0 ∅ ∅ []))
  else (Prelude.Stop Undefined, (demo_kv, World ∅ ∅ ∅ 3 0 ∅ ∅ [])).
Proof.
  apply (kv_scan_desc demo_kv (World ∅ ∅ ∅ 3 0 ∅ ∅ []) [x62] true 1);
    [reflexivity|exact demo_map_ordered|vm_compute; reflexivity|lia|discriminate].
Defined.

(** ** Rejected requests *)

(** A stopped store answers every request with [InternalErr];
    a running one answers a [Put] without entry or with an empty key, and a [Get]
    or [Delete] with an empty key, with [ArgsErr]; a [Scan] with limit 0 is empty.
    Neither the store nor the files change. *)
Theorem kv_rejects {W C : Type} `{IWal W wal_entry} (o : MiniKV W C) (w : world) (e : option Entry) (k : list byte)
    (req : ScanRequest) :
  (m_bStopped o = true ->
     Put e (o, w) = (Ok (Bad InternalErr ServiceIsStoppedError), (o, w)) /\
     Get k (o, w) = (Ok (Bad InternalErr ServiceIsStoppedError), (o, w)) /\
     Delete k (o, w) = (Ok (Bad InternalErr ServiceIsStoppedError), (o, w)) /\
     Scan req (o, w) = (Ok (Bad InternalErr ServiceIsStoppedError), (o, w))) /\
  (m_bStopped o = false ->
     Put None (o, w) = (Ok (Bad ArgsErr EntryOrKeyIsEmptyError), (o, w)) /\
     (forall v, Put (Some (MkEntry [] v)) (o, w) = (Ok (Bad ArgsErr EntryOrKeyIsEmptyError), (o, w))) /\
     Get [] (o, w) = (Ok (Bad ArgsErr KeyIsEmptyError), (o, w)) /\
     Delete [] (o, w) = (Ok (Bad ArgsErr KeyIsEmptyError), (o, w)) /\
     Scan (MkScan k true Asc 0) (o, w) = (Ok (Good []), (o, w))).
Proof.
  unfold Put, Get, Delete, Scan, mbind, M_bind, getO, mret, M_ret. cbn [fst snd].
  split; intros ->; repeat split.
Qed.


Section failing.
#[local] Existing Instance demo_pool.
#[local] Existing Instance demo_pb.

(** A log that was not initialised refuses every entry. *)
Definition unopened : LogCleanWal := MkWal "/w" ∅ 1 1 (-1) "" 0 false false 0 0 [] 1 64 64.
Definition demo_kv_unopened : MiniKV LogCleanWal unit := MkKV false demo_map unopened tt false 0 0 0 false.

End failing.

(** ** Requests on a running store *)

Inductive request := RPut (e : Entry) | RDelete (k : list byte).

Section requests.
Context `{MemAlloc} `{PbEntry}.
Context {W C : Type} `{!IWal W wal_entry, !IWalLaws W wal_entry} `{!ICheckpoint C, !ICheckpointLaws C}.

Definition exec (r : request) : M (MiniKV W C * world) (result pcode unit) :=
  match r with RPut e => Put (Some e) | RDelete k => Delete k end.
Fixpoint exec_all (rs : list request) : M (MiniKV W C * world) (list (result pcode unit)) :=
  match rs with
  | [] => mret []
  | r :: rs => x ← exec r; xs ← exec_all rs; mret (x :: xs)
  end.

(** The specification: updates of a finite map. *)
Definition step (m : gmap (list byte) Entry) (r : request) : gmap (list byte) Entry :=
  match r with RPut e => <[key e := e]> m | RDelete k => delete k m end.

(** Requests the log accepts, with keys that fit and, for a delete, contain no
    NUL. *)
Definition request_ok (c : wcfg) (r : request) : Prop :=
  match r with
  | RPut e => key e <> [] /\ zlen (key e) < 4294967296 /\ wal_accepts c (PutE (Some e))
  | RDelete k => k <> [] /\ zlen k < 4294967296 /\ no_nul k /\ wal_accepts c (DelE (WalDeleteEntry.of_key k))
  end.
Definition logged (r : request) : wal_entry :=
  match r with RPut e => PutE (Some e) | RDelete k => DelE (WalDeleteEntry.of_key k) end.

Lemma exec_spec c cc snap l (o : MiniKV W C) w n r Q :
  separate c cc -> running c cc snap l o w -> ordered (m_kvs o) -> request_ok c r ->
  0 < n -> wal_room c n l (m_pWal o) ->
  (forall o' w', let l' := l ++ [(wal_next l, logged r)] in
     running c cc snap l' o' w' -> ordered (m_kvs o') -> contents (m_kvs o') = step (contents (m_kvs o)) r ->
     wal_room c (n - 1) l' (m_pWal o') -> Q (Good tt) (o', w')) ->
  wp (exec r) (o, w) Q.
Proof.
  intros Hsep Hrun Hord Hr Hn Hroom HQ. destruct r as [e|k]; cbn [exec request_ok logged step] in *.
  - destruct Hr as (Hk&Hlen&Hacc). eapply (Put_spec c cc snap l); [done..|]. intros o' w' l' Hrun' Hkv Hroom'.
    destruct (assign_contents _ _ (key_of_ok _ Hlen) Hord e) as [Hc Ho]. by apply HQ; rewrite ?Hkv.
  - destruct Hr as (Hk&Hlen&Hnul&Hacc). eapply (Delete_spec c cc snap l); [done..|]. intros o' w' l' Hrun' Hkv Hroom'.
    destruct (erase_contents _ _ (key_of_ok _ Hlen) Hord) as [Hc Ho]. by apply HQ; rewrite ?Hkv.
Qed.

Lemma exec_all_spec c cc snap rs : forall l (o : MiniKV W C) w Q,
  separate c cc -> running c cc snap l o w -> ordered (m_kvs o) -> Forall (request_ok c) rs ->
  wal_room c (zlen rs) l (m_pWal o) ->
  (forall l' o' w', running c cc snap l' o' w' -> ordered (m_kvs o') ->
     contents (m_kvs o') = foldl step (contents (m_kvs o)) rs ->
     Q (map (fun _ => Good tt) rs) (o', w')) ->
  wp (exec_all rs) (o, w) Q.
Proof.
  induction rs as [|r rs IH]; intros l o w Q Hsep Hrun Hord Hrs Hroom HQ; cbn [exec_all].
  - wpure. by eapply (HQ l).
  - inversion_clear Hrs as [|? ? Hr Hrs']. rewrite zlen_cons in *. pose proof (zlen_nonneg rs).
    wbind. eapply (exec_spec c cc snap l o w (1 + zlen rs)); [done..|lia|done|]. intros o1 w1 l1 Hrun1 Hord1 Hc1 Hroom1.
    wbind. replace (1 + zlen rs - 1) with (zlen rs) in Hroom1 by lia.
    eapply (IH l1); [done..|]. intros l2 o2 w2 Hrun2 Hord2 Hc2. wpure.
    apply (HQ l2); [done|done|]. by rewrite Hc2, Hc1.
Qed.

Lemma same_disk_reboot w : wf w -> same_disk w (reboot w).
Proof. intros Hw. split; [apply wf_reboot, (wf_disj w Hw)|done]. Qed.

(** C6 kv_requests: on a running store every accepted sequence of [Put] and
    [Delete] requests is answered [OK], and afterwards a [Get] of any key returns
    what the same sequence of insertions and deletions leaves in a finite map. *)
Theorem kv_requests (c : wcfg) (cc : ccfg) (snap : option (Z * list raw_entry)) (l : list (Z * wal_entry))
    (o : MiniKV W C) (w : world) (rs : list request) (k : list byte)
    (Hsep : separate c cc) (Hrun : running c cc snap l o w) (Hord : ordered (m_kvs o))
    (Hrs : Forall (request_ok c) rs) (Hroom : wal_room c (zlen rs) l (m_pWal o))
    (Hk : k <> []) (Hlen : zlen k < 4294967296) :
  wp (xs ← exec_all rs; v ← Get k; mret (xs, v)) (o, w) (fun r s =>
    r = (map (fun _ => Good tt) rs, Good (foldl step (contents (m_kvs o)) rs !! k))).
Proof.
  wbind. eapply (exec_all_spec c cc snap rs l); [done..|]. intros l' o' w' Hrun' Hord' Hc'. wbind.
  unfold Get. wpure. rewrite (run_stopped _ _ _ _ _ _ Hrun'), bool_decide_eq_false_2 by done. wpure.
  rewrite (find_contents (key_of k)); [|by apply key_of_ok|done]. by rewrite Hc'.
Qed.


(** A store that is started on a directory with a checkpoint and a
    log starts successfully, and its map is the checkpoint's entries with the log
    entries from the checkpoint's id on replayed over them. *)
Theorem kv_start (c : wcfg) (cc : ccfg) (snap : option (Z * list raw_entry)) (l : list (Z * wal_entry))
    (wal : W) (cp : C) (trig junk : Z) (w : world)
    (Hsep : separate c cc) (Hwd : wal_disk c l w) (Hcd : cp_disk cc snap w)
    (Hwal : wal_fresh c wal) (Hcp : cp_fresh cc cp) (Hids : (recover snap l).1 < wal_next l) :
  wp Start (MiniKV_make wal cp trig junk, w) (fun b s =>
    b = true /\ running c cc snap l s.1 s.2 /\ (m_applyId s.1, m_kvs s.1) = recover snap l).
Proof.
  eapply (Start_spec c cc snap l); [done..|]. intros o' w' Hrun. split; [done|]. split; [done|]. apply Hrun.
Qed.
End requests.

(** ** A concrete store *)

Section demo.
#[local] Existing Instance demo_pool.
#[local] Existing Instance demo_pb.

#[local] Instance demo_iwal : IWal LogCleanWal wal_entry := LogCleanWal_IWal LITTLE_ENDIAN.
#[local] Instance demo_wal_laws : IWalLaws LogCleanWal wal_entry := LogCleanWal_laws LITTLE_ENDIAN.
#[local] Instance demo_icp : ICheckpoint EntryOrderCheckpoint.t := EntryOrderCheckpoint_ICheckpoint LITTLE_ENDIAN.
#[local] Instance demo_cp_laws : ICheckpointLaws EntryOrderCheckpoint.t := EntryOrderCheckpoint_laws LITTLE_ENDIAN.

Definition demo_dirs : gset string := {[""; "/"; "/w"; "/c"]}.
Definition kv_disk (sched : list event) : world := World ∅ demo_dirs ∅ 3 0 ∅ ∅ sched.
Definition kv_wal (segmax : Z) : LogCleanWal := MkWal "/w" ∅ 1 1 (-1) "" 0 false false 0 0 [] 1 segmax 64.
Definition kv_cp : EntryOrderCheckpoint.t := EntryOrderCheckpoint.Make "/c" false 1 16.
Definition kv_new (segmax trig : Z) : MiniKV LogCleanWal EntryOrderCheckpoint.t := MiniKV_make (kv_wal segmax) kv_cp trig 0.

Definition kv_wcfg : wcfg (IWalLaws := demo_wal_laws) := WalCfg "/w" 1 64 64 (fun _ => None) demo_dirs.
Definition kv_ccfg : ccfg (ICheckpointLaws := demo_cp_laws) := kv_cp.

Lemma kv_separate : separate kv_wcfg kv_ccfg.
Proof. intros p (n&_&->) [id Heq]. discriminate Heq. Qed.

Lemma kv_wal_disk : wal_disk kv_wcfg [] (kv_disk []).
Proof.
  split; [unfold cfg_ok; simpl; lia|]. exists []. split; [|split; [done|done]]. split.
  - done.
  - intros d. vm_compute. set_solver.
  - simpl. unfold demo_dirs. set_solver.
  - intros s Hs. by apply elem_of_nil in Hs.
  - intros p _ [x Hx]. simpl in Hx. by rewrite lookup_empty in Hx.
  - intros id. simpl. unfold demo_dirs, segment_path. rewrite !elem_of_union, !elem_of_singleton. intuition discriminate.
  - split; vm_compute; reflexivity.
  - done.
  - constructor.
  - constructor.
Qed.

Lemma kv_cp_disk : cp_disk kv_ccfg None (kv_disk []).
Proof.
  split; [done|]. split.
  - split; [done|simpl; unfold demo_dirs; set_solver|]. intros n Hn. cbn [w_dirs kv_disk]. unfold demo_dirs.
    rewrite !elem_of_union, !elem_of_singleton. apply list_elem_of_In in Hn.
    repeat destruct Hn as [<-|Hn]; [vm_compute; intuition discriminate..|done].
  - split; [intros d; vm_compute; set_solver|]. split; [done|]. by exists None.
Qed.

Lemma kv_wal_fresh : wal_fresh kv_wcfg (kv_wal 64).
Proof. by split. Qed.

Lemma kv_start_witness :
  wp Start (MiniKV_make (kv_wal 64) kv_cp 1000 0, kv_disk []) (fun b s =>
    b = true /\ running kv_wcfg kv_ccfg None [] s.1 s.2 /\ (m_applyId s.1, m_kvs s.1) = recover None []).
Proof.
  apply (kv_start (IWalLaws0 := demo_wal_laws) (ICheckpointLaws0 := demo_cp_laws) kv_wcfg kv_ccfg None [] (kv_wal 64) kv_cp 1000 0 (kv_disk [])).
  - exact kv_separate.
  - exact kv_wal_disk.
  - exact kv_cp_disk.
  - exact kv_wal_fresh.
  - reflexivity.
  - vm_compute. reflexivity.
Defined.

Definition kv_started : MiniKV LogCleanWal EntryOrderCheckpoint.t * world := (Start (kv_new 64 1000, kv_disk [])).2.

Lemma kv_started_running : running kv_wcfg kv_ccfg None [] kv_started.1 kv_started.2.
Proof.
  assert (wp Start (kv_new 64 1000, kv_disk []) (fun b s =>
    running kv_wcfg kv_ccfg None [] s.1 s.2)) as Hwp.
  { eapply (Start_spec (IWalLaws0 := demo_wal_laws) (ICheckpointLaws0 := demo_cp_laws) kv_wcfg kv_ccfg None []);
      [exact kv_separate|exact kv_wal_disk|exact kv_cp_disk|exact kv_wal_fresh|reflexivity|vm_compute; reflexivity|done]. }
  apply wp_run in Hwp as (r&s&Hr&Hl). unfold kv_started. rewrite Hr. exact Hl.
Qed.

Definition demo_requests : list request := [RPut (demo_entry x61 x31); RPut (demo_entry x62 x32); RDelete [x61]].

Lemma demo_requests_ok : Forall (request_ok kv_wcfg) demo_requests.
Proof.
  repeat constructor; try done; try (vm_compute; (reflexivity || discriminate)).
  by exists [x61].
Qed.

Lemma kv_requests_witness :
  wp (xs ← exec_all demo_requests; v ← Get [x62]; mret (xs, v)) (kv_started.1, kv_started.2) (fun r s =>
    r = (map (fun _ => Good tt) demo_requests,
         Good (foldl step (contents (m_kvs kv_started.1)) demo_requests !! [x62]))).
Proof.
  apply (kv_requests (IWalLaws0 := demo_wal_laws) (ICheckpointLaws0 := demo_cp_laws) kv_wcfg kv_ccfg None [] kv_started.1 kv_started.2 demo_requests [x62]).
  - exact kv_separate.
  - exact kv_started_running.
  - vm_compute. split; constructor.
  - exact demo_requests_ok.
  - split; vm_compute; discriminate.
  - discriminate.
  - reflexivity.
Defined.


(** ** Where durability ends *)

(** A replayed delete takes its key up to the first NUL.  A key with a NUL that
    was deleted is back after a restart, and in its place the key before the NUL
    is gone. *)
Theorem deleted_nul_key_returns :
  let run := b ← Start; exec_all [RPut (MkEntry [x61; x00; x62] [x31]); RPut (demo_entry x61 x32); RDelete [x61; x00; x62]] in
  let '(r, s) := run (kv_new 4096 100000, kv_disk []) in
  let '(r', s') := Start (kv_new 4096 100000, reboot s.2) in
  r = Ok [Good tt; Good tt; Good tt] /\ r' = Ok true /\
  (Get [x61; x00; x62] s).1 = Ok (Good None) /\ (Get [x61] s).1 = Ok (Good (Some (demo_entry x61 x32))) /\
  (Get [x61; x00; x62] s').1 = Ok (Good (Some (MkEntry [x61; x00; x62] [x31]))) /\ (Get [x61] s').1 = Ok (Good None).
Proof. vm_compute. repeat split. Qed.

(** After a checkpoint of a log that is still in its first segment the truncation
    record stays behind; a [Put] that is answered [OK] afterwards is not there
    any more when the store is started again. *)
Theorem put_after_checkpoint_is_lost :
  let run := b ← Start; _ ← exec_all [RPut (demo_entry x61 x31); RPut (demo_entry x62 x32)];
             _ ← check_wal; exec_all [RPut (demo_entry x63 x33)] in
  let '(r, s) := run (kv_new 4096 1, kv_disk []) in
  let '(r', s') := Start (kv_new 4096 1, reboot s.2) in
  r = Ok [Good tt] /\ r' = Ok true /\
  (Get [x63] s).1 = Ok (Good (Some (demo_entry x63 x33))) /\
  (Get [x61] s').1 = Ok (Good (Some (demo_entry x61 x31))) /\ (Get [x63] s').1 = Ok (Good None).
Proof. vm_compute. repeat split. Qed.

(** When [fork] fails during a checkpoint, [Save] returns without the second hook
    and [m_walLock] stays locked: the next [Put] waits for it forever. *)
Theorem fork_failure_blocks_writes :
  let run := b ← Start; _ ← exec_all [RPut (demo_entry x61 x31)];
             _ ← io (modS (set_sched [Fine; Fine; Fine; Fine; Fault EAGAIN])); check_wal in
  let '(r, s) := run (kv_new 64 1, kv_disk []) in
  r = Ok tt /\ (Put (Some (demo_entry x62 x32)) s).1 = Prelude.Stop Diverged.
Proof. vm_compute. repeat split. Qed.
End demo.
