(* ===== verification/BlockingQueue.v ===== *)
(** * The blocking queue (src/common/blocking-queue.h)

    [BlockingQueue<T>] is shared by threads: a mutex, a condition variable and a
    [std::queue].  A thread holds the mutex from the start of a call to its return or
    its wait, so that a call is a sequence of atomic rounds: [enter] is one round,
    whose result says whether the call returned or waits, and whether it signals the
    condition variable.  [step] interleaves the rounds of all threads; a signal wakes
    one of the waiting threads, any one, or none when no thread waits. *)

From S2P Require Import Prelude.

Section queue.
Context {T : Type}.

Record BlockingQueue := MkQ { m_iQueueMaxSize : Z; m_queue : list T }.

Inductive call := CTryPop | CPop | CTryPush (item : T) | CPush (item : T) | CEmpty | CSize | CClear.
Inductive answer := RBool (b : bool) | RItem (o : option T) | RSize (n : Z) | RUnit.
Inductive signal := NoSignal | NotifyOne | NotifyAll.

(** A round: the call returns with an answer and a signal, or waits. *)
Inductive round := Return (a : answer) (q : BlockingQueue) (s : signal) | Wait.

Definition pop_signal (q : BlockingQueue) : signal := if 0 =? m_iQueueMaxSize q then NoSignal else NotifyOne.
Definition is_full (q : BlockingQueue) : bool := negb (m_iQueueMaxSize q =? 0) && (m_iQueueMaxSize q <=? zlen (m_queue q)).

Definition TryPop (q : BlockingQueue) : round :=
  match m_queue q with
  | [] => Return (RItem None) q NoSignal
  | x :: xs => Return (RItem (Some x)) (MkQ (m_iQueueMaxSize q) xs) (pop_signal q)
  end.

Definition Pop (q : BlockingQueue) : round :=
  match m_queue q with
  | [] => Wait
  | x :: xs => Return (RItem (Some x)) (MkQ (m_iQueueMaxSize q) xs) (pop_signal q)
  end.

Definition TryPush (item : T) (q : BlockingQueue) : round :=
  if is_full q then Return (RBool false) q NoSignal
  else Return (RBool true) (MkQ (m_iQueueMaxSize q) (m_queue q ++ [item])) NotifyOne.

Definition Push (item : T) (q : BlockingQueue) : round :=
  if is_full q then Wait
  else Return RUnit (MkQ (m_iQueueMaxSize q) (m_queue q ++ [item])) NotifyOne.

Definition Empty (q : BlockingQueue) : round := Return (RBool (bool_decide (m_queue q = []))) q NoSignal.
Definition Size (q : BlockingQueue) : round := Return (RSize (zlen (m_queue q))) q NoSignal.
Definition Clear (q : BlockingQueue) : round := Return RUnit (MkQ (m_iQueueMaxSize q) []) NotifyAll.

Definition enter (c : call) (q : BlockingQueue) : round :=
  match c with
  | CTryPop => TryPop q
  | CPop => Pop q
  | CTryPush x => TryPush x q
  | CPush x => Push x q
  | CEmpty => Empty q
  | CSize => Size q
  | CClear => Clear q
  end.

(** ** Threads

    The calls that wait on the condition variable, those that wait for the mutex
    after they were woken, and what was pushed, popped and dropped so far. *)

Record sys := Sys {
  q : BlockingQueue;
  waiting : list call;
  woken : list call;
  pushed : list T;
  taken : list T
}.

Definition init (max : Z) : sys := Sys (MkQ max []) [] [] [] [].

(** Which waiters a signal moves to the woken ones. *)
Inductive signalled : signal -> list call -> list call -> list call -> list call -> Prop :=
  | sg_none ws rs : signalled NoSignal ws rs ws rs
  | sg_one ws c ws' rs : signalled NotifyOne (ws ++ c :: ws') rs (ws ++ ws') (rs ++ [c])
  | sg_nobody rs : signalled NotifyOne [] rs [] rs
  | sg_all ws rs : signalled NotifyAll ws rs [] (rs ++ ws).

(** The history of a round that returns. *)
Definition log_push (c : call) (a : answer) (ps : list T) : list T :=
  match c, a with
  | CTryPush x, RBool true => ps ++ [x]
  | CPush x, _ => ps ++ [x]
  | _, _ => ps
  end.
Definition log_take (c : call) (a : answer) (before : list T) (ts : list T) : list T :=
  match c, a with
  | CTryPop, RItem (Some x) => ts ++ [x]
  | CPop, RItem (Some x) => ts ++ [x]
  | CClear, _ => ts ++ before
  | _, _ => ts
  end.

(** One round of call [c] of a thread that has the mutex; [ws], [rs] are the other
    waiting and woken calls. *)
Inductive run_round (c : call) (s : sys) (ws rs : list call) : sys -> Prop :=
  | rr_return a q' sg ws' rs' :
      enter c (q s) = Return a q' sg -> signalled sg ws rs ws' rs' ->
      run_round c s ws rs (Sys q' ws' rs' (log_push c a (pushed s)) (log_take c a (m_queue (q s)) (taken s)))
  | rr_wait :
      enter c (q s) = Wait -> run_round c s ws rs (Sys (q s) (ws ++ [c]) rs (pushed s) (taken s)).

Inductive step (spurious : bool) (s : sys) : sys -> Prop :=
  (** a thread calls an operation *)
  | st_call c s' : run_round c s (waiting s) (woken s) s' -> step spurious s s'
  (** a woken thread gets the mutex and tests its condition again *)
  | st_retry c rs rs' s' :
      woken s = rs ++ c :: rs' -> run_round c s (waiting s) (rs ++ rs') s' -> step spurious s s'
  (** a wake-up without a signal, which the condition variable may produce *)
  | st_spurious c ws ws' :
      spurious = true -> waiting s = ws ++ c :: ws' -> step spurious s (Sys (q s) (ws ++ ws') (woken s ++ [c]) (pushed s) (taken s)).

Inductive reachable (spurious : bool) (max : Z) : sys -> Prop :=
  | re_init : reachable spurious max (init max)
  | re_step s s' : reachable spurious max s -> step spurious s s' -> reachable spurious max s'.

(** ** The invariant: first in, first out, and never more than the maximum *)

Record fifo (max : Z) (s : sys) : Prop := {
  ff_max : m_iQueueMaxSize (q s) = max;
  ff_order : pushed s = taken s ++ m_queue (q s);
  ff_bound : max <> 0 -> zlen (m_queue (q s)) <= max
}.

Lemma is_full_false q0 : is_full q0 = false -> m_iQueueMaxSize q0 <> 0 -> zlen (m_queue q0) < m_iQueueMaxSize q0.
Proof.
  unfold is_full. intros [E|E]%andb_false_iff Hm.
  - apply negb_false_iff, Z.eqb_eq in E. lia.
  - by apply Z.leb_gt in E.
Qed.

Lemma round_fifo max c s ws rs s' : 0 <= max -> fifo max s -> run_round c s ws rs s' -> fifo max s'.
Proof.
  intros Hmax [Hm Ho Hb] Hr. inversion Hr as [a q' sg ws' rs' He Hs|He]; subst; [|by split].
  clear Hs Hr. destruct c; simpl in He; unfold TryPop, Pop, TryPush, Push in He.
  1,2: destruct (m_queue (q s)) as [|x xs] eqn:Eq; [try done; injection He as <- <- <-|injection He as <- <- <-];
    split; simpl; rewrite ?Eq in *; try done; rewrite <- ?app_assoc; try done;
    intros Hne; specialize (Hb Hne); rewrite zlen_cons in Hb; lia.
  1,2: destruct (is_full (q s)) eqn:Ef; [try done; injection He as <- <- <-; by split|injection He as <- <- <-];
    split; simpl; [done|by rewrite Ho, app_assoc|]; intros Hne; apply is_full_false in Ef; [|done];
    rewrite zlen_app, zlen_single; lia.
  1,2: injection He as <- <- <-; by split.
  injection He as <- <- <-. split; simpl; [done|by rewrite app_nil_r|done].
Qed.

(** C27 queue_fifo: whatever the threads do and however their calls interleave, with
    spurious wake-ups, the items leave the queue in the order they were put in: what
    was pushed is what was taken (by pops and clears) followed by what is in the queue;
    and a bounded queue never holds more than its maximum. *)
Theorem queue_fifo (spurious : bool) (max : Z) (s : sys) (Hmax : 0 <= max) (Hr : reachable spurious max s) :
  pushed s = taken s ++ m_queue (q s) /\ (max <> 0 -> zlen (m_queue (q s)) <= max).
Proof.
  assert (fifo max s) as [_ Ho Hb]; [|done].
  induction Hr as [|s s' Hr IH Hst]; [by split|]. destruct Hst as [c s' Hrr|c rs rs' s' _ Hrr|c ws ws' _ Hw].
  - by eapply round_fifo.
  - by eapply round_fifo.
  - destruct IH. by split.
Qed.

(** ** No lost wake-up without a bound *)

(** In an unbounded queue only pops wait, and an item in the queue has a woken thread
    or a pop to come for it: no pop sleeps beside an item that nobody was told of. *)
Record alert (s : sys) : Prop := {
  al_max : m_iQueueMaxSize (q s) = 0;
  al_wait : Forall (fun c => c = CPop) (waiting s);
  al_awake : waiting s = [] \/ (length (m_queue (q s)) <= length (woken s))%nat;
  al_pops : Forall (fun c => c = CPop) (woken s)
}.

Lemma alert_round (b : bool) c s ws rs s' :
  m_iQueueMaxSize (q s) = 0 -> Forall (fun c => c = CPop) ws -> Forall (fun c => c = CPop) rs -> (b = true -> c = CPop) ->
  ws = [] \/ (length (m_queue (q s)) <= length rs + (if b then 1 else 0))%nat ->
  run_round c s ws rs s' -> alert s'.
Proof.
  intros Hm Hws Hrs Hb Hn Hr. inversion Hr as [a q' sg ws' rs' He Hs|He]; subst.
  - destruct c; simpl in He; unfold TryPop, Pop, TryPush, Push, is_full, pop_signal in He; rewrite ?Hm in He; simpl in He;
      try (destruct b; [by specialize (Hb eq_refl)|]).
    1,2: destruct (m_queue (q s)) as [|x xs] eqn:Eq; simplify_eq; inversion Hs; subst; split; simpl; rewrite ?Eq; try done;
      simpl in Hn; (destruct Hn as [Hn|Hn]; [by left|right]); try destruct b; simpl in *; lia.
    1,2: simplify_eq; inversion Hs; subst; split; simpl; try done;
      [by apply Forall_app in Hws as [H1 [_ H2]%Forall_cons_1]; apply Forall_app
      |right; rewrite !length_app; simpl; destruct Hn as [[_ Hn]%app_nil|Hn]; [done|lia]
      |apply Forall_app in Hws as [H1 [H2 _]%Forall_cons_1]; apply Forall_app; split; [done|by constructor]
      |by left].
    1,2: injection He as <- <- <-; inversion Hs; subst; split; simpl; try done; (destruct Hn; [by left|right; lia]).
    injection He as <- <- <-. inversion Hs; subst. split; simpl; try done; [by left|by apply Forall_app].
  - destruct c; simpl in He; unfold TryPop, Pop, TryPush, Push, is_full in He; rewrite ?Hm in He; simpl in He; try done.
    + by destruct (m_queue (q s)).
    + destruct (m_queue (q s)) eqn:Eq; [|done]. split; simpl; try done.
      * apply Forall_app. split; [done|by constructor].
      * right. rewrite Eq. simpl. lia.
Qed.

Lemma alert_reachable spurious s : reachable spurious 0 s -> alert s.
Proof.
  induction 1 as [|s s' _ IH Hst]; [split; simpl; [done|constructor|by left|constructor]|].
  destruct IH as [Hm Hw Ha Hp], Hst as [c s' Hrr|c rs rs' s' Ew Hrr|c ws ws' _ Ew].
  - apply (alert_round false) in Hrr; try done. by rewrite Nat.add_0_r.
  - rewrite Ew in *. apply Forall_app in Hp as [Hp1 [-> Hp2]%Forall_cons_1].
    apply (alert_round true) in Hrr; try done; [by apply Forall_app|].
    destruct Ha as [Ha|Ha]; [by left|right]. rewrite length_app in *. simpl in *. lia.
  - rewrite Ew in *. apply Forall_app in Hw as [Hw1 [-> Hw2]%Forall_cons_1]. split; simpl; try done.
    + by apply Forall_app.
    + right. destruct Ha as [[_ Ha]%app_nil|Ha]; [done|]. rewrite length_app. lia.
    + apply Forall_app. split; [done|by constructor].
Qed.

(** C28 queue_wakes: in a queue without a maximum no wake-up is lost: while items are in
    the queue and a Pop waits, some thread has been woken and is on its way, at least
    one for every item. *)
Theorem queue_wakes (spurious : bool) (s : sys) (Hr : reachable spurious 0 s) (Hw : waiting s <> []) :
  (length (m_queue (q s)) <= length (woken s))%nat.
Proof. by destruct (alert_reachable _ _ Hr) as [_ _ [?|?] _]. Qed.
End queue.
Arguments BlockingQueue : clear implicits.
Arguments call : clear implicits.
Arguments sys : clear implicits.

(** ** Witnesses *)

Lemma one_push_reachable : reachable false 0 (Sys (MkQ 0 [7]) [] [] [7] []).
Proof.
  eapply re_step; [apply re_init|]. apply (st_call _ _ (CPush 7)).
  exact (rr_return (CPush 7) (init 0) [] [] RUnit (MkQ 0 [7]) NotifyOne [] [] eq_refl (sg_nobody [])).
Qed.

Lemma queue_fifo_witness :
  pushed (Sys (MkQ 0 [7]) [] [] [7] []) = taken (Sys (MkQ 0 [7]) [] [] [7] []) ++ [7] /\
  ((0 : Z) <> 0 -> zlen (m_queue (q (Sys (MkQ 0 [7]) [] [] [7] []))) <= 0).
Proof. exact (queue_fifo false 0 _ ltac:(lia) one_push_reachable). Defined.

Lemma one_pop_reachable : reachable (T := Z) false 0 (Sys (MkQ 0 []) [CPop] [] [] []).
Proof. eapply re_step; [apply re_init|]. apply (st_call _ _ CPop). exact (rr_wait CPop (init 0) [] [] eq_refl). Qed.

Lemma queue_wakes_witness : (length (m_queue (q (Sys (MkQ 0 []) [@CPop Z] [] [] []))) <= 0)%nat.
Proof. exact (queue_wakes false _ one_pop_reachable ltac:(done)). Defined.

(** ** A lost wake-up

    With a maximum, pushes and pops wait on the same condition variable and a single
    signal can reach the wrong kind of thread.  Two pops wait on an empty queue of one
    item; a push wakes the first of them; a second push finds the queue full and waits;
    the first pop takes the item and its signal wakes the other pop, which finds nothing
    and waits again.  The queue is empty, the push waits, and no thread is left to wake
    it. *)
Theorem bounded_queue_loses_wakeup :
  reachable false 1 (Sys (MkQ 1 []) [CPush 2; CPop] [] [1] [1]).
Proof.
  apply (re_step _ _ (Sys (MkQ 1 []) [CPush 2] [CPop] [1] [1])).
  2: { apply (st_retry _ _ CPop [] []); [done|]. exact (rr_wait CPop (Sys (MkQ 1 []) [CPush 2] [CPop] [1] [1]) [CPush 2] [] eq_refl). }
  apply (re_step _ _ (Sys (MkQ 1 [1]) [CPop; CPush 2] [CPop] [1] [])).
  2: { apply (st_retry _ _ CPop [] []); [done|].
       exact (rr_return CPop (Sys (MkQ 1 [1]) [CPop; CPush 2] [CPop] [1] []) [CPop; CPush 2] [] (RItem (Some 1)) (MkQ 1 [])
         NotifyOne [CPush 2] [CPop] eq_refl (sg_one [] CPop [CPush 2] [])). }
  apply (re_step _ _ (Sys (MkQ 1 [1]) [CPop] [CPop] [1] [])).
  2: { apply (st_call _ _ (CPush 2)). exact (rr_wait (CPush 2) (Sys (MkQ 1 [1]) [CPop] [CPop] [1] []) [CPop] [CPop] eq_refl). }
  apply (re_step _ _ (Sys (MkQ 1 []) [CPop; CPop] [] [] [])).
  2: { apply (st_call _ _ (CPush 1)).
       exact (rr_return (CPush 1) (Sys (MkQ 1 []) [CPop; CPop] [] [] []) [CPop; CPop] [] RUnit (MkQ 1 [1]) NotifyOne [CPop] [CPop]
         eq_refl (sg_one [] CPop [CPop] [])). }
  apply (re_step _ _ (Sys (MkQ 1 []) [CPop] [] [] [])).
  2: { apply (st_call _ _ CPop). exact (rr_wait CPop (Sys (MkQ 1 []) [CPop] [] [] []) [CPop] [] eq_refl). }
  apply (re_step _ _ (init 1)); [apply re_init|].
  apply (st_call _ _ CPop). exact (rr_wait CPop (init 1) [] [] eq_refl).
Qed.
