(* ===== verification/MemPool.v ===== *)
(** * The memory pool (src/sys/mem-pool)

    [MemPool] hands out memory in four classes of sizes and keeps what is given
    back.  Tiny objects share one slot; small and big objects have a slot per
    multiple of 32 bytes and of the page size; each slot splits blocks of the system
    allocator ("pages") into objects of its size.  Bulk objects are kept by size and
    matched.  The heap of the process is the state the pool works on: the blocks
    [posix_memalign] has given out and [free] has not taken back.

    The spin locks make each operation on a slot atomic; one thread is modelled.
    [DumpDebugInfo], which prints, is left out. *)

From S2P Require Import Prelude.

(** ** The system allocator and the order of a hash table

    [posix_memalign] decides from the heap; [keys m] is the order in which an
    [std::unordered_map] is walked, of which only the set of keys is known. *)

Abbreviation heap := (gmap Z Z).

Class SysAlloc := { posix_memalign : heap -> Z -> Z -> option Z }.
Class HashOrder := {
  keys : forall V, gmap Z V -> list Z;
  keys_spec V (m : gmap Z V) : keys V m ≡ₚ (map_to_list m).*1
}.
Arguments keys {_ V} m.

Definition PAGE_NULL : Z := 0.

Section sys.
Context `{SysAlloc}.

Definition PosixMemAlign (align size : Z) : M heap Z := fun h =>
  match posix_memalign h align size with
  | Some a => (Ok a, <[a := size]> h)
  | None => (Ok PAGE_NULL, h)
  end.

(** [free] of an address that is not a block's is undefined behaviour. *)
Definition sys_free (p : Z) : M heap unit := fun h =>
  match h !! p with
  | Some _ => (Ok tt, delete p h)
  | None => (Stop Undefined, h)
  end.
End sys.

Definition udiv {S} (a b : Z) : M S Z := if b =? 0 then halt Undefined else mret (a / b).

(** ** Constants *)

Definition BULK_PAGE_SIZE_THRESHOLD : Z := 131072.
Definition TINY_OBJECT_SIZE_THRESHOLD : Z := 16.
Definition TINY_OBJECT_RESIDENT_CNT : Z := 512.
Definition DEFAULT_SMALL_OBJECT_SLOT_FOOTSTEP : Z := 32.
Definition ONE_SLOT_SMALL_OBJECT_RESIDENT_CNT : Z := 256.
Definition ONE_SLOT_BIG_OBJECT_RESIDENT_CNT : Z := 128.
Definition RESIDENT_BULK_OBJ_MAX_SIZE : Z := 1048576.
Definition DEFAULT_EXPAND_OBJ_CNT_FACTOR : Z := 32.
Definition DEFAULT_EXPAND_BULK_OBJ_CNT_FACTOR : Z := 4.

(** ** Objects and slots *)

Inductive MemObjectType := Tiny | Small | Big | Bulk.

#[global] Instance MemObjectType_eq_dec : EqDecision MemObjectType.
Proof. solve_decision. Defined.

Record MemObject := MkObj {
  m_type : MemObjectType; m_slot_size : Z; m_obj_pv : Z; m_obj_page_pv : Z }.

(** The free objects of a slot by page, and how many they are. *)
Record SlotObjPage := MkSlot { objs : gmap Z (list Z); cnt : Z }.

(** A slot of the tiny, small or big class with the pages it has: an index of
    [m_small_obj_pages] and of [m_free_small_objs], which have the same keys. *)
Record slot := Slot { s_pages : gset Z; s_free : SlotObjPage }.

Record PoolConfig := MkPoolConfig {
  m_sys_page_size : Z;
  m_small_obj_slot_footstep_size : Z;
  m_small_obj_slot_footstep_exponent : Z;
  m_big_obj_slot_footstep_exponent : Z;
  m_bulk_obj_slot_footstep_exponent : Z;
  m_one_slot_tiny_obj_resident_cnts : Z;
  m_one_slot_small_obj_resident_cnts : Z;
  m_one_slot_big_obj_resident_cnts : Z;
  m_one_slot_bulk_obj_resident_cnts : Z;
  m_tiny_obj_threshold : Z;
  m_big_obj_threshold : Z;
  m_bulk_obj_threshold : Z;
  m_available_reserve_bulk_obj_max_size : Z;
  m_expand_obj_cnt_factor : Z;
  m_expand_bulk_obj_cnt_factor : Z
}.

(** [m_free_bulk_objs] maps a slot to a pointer to its entry in
    [m_free_hash_bulk_objs]: here the set of its keys; the pointer dangles when that
    entry is gone.  [mem_objs] are the [MemObject]s that exist, by address, and
    [next_obj] the address of the next one. *)
Record MemPool := MkPool {
  conf : PoolConfig;
  m_tiny : slot;
  m_small : gmap Z slot;
  m_big : gmap Z slot;
  m_bulk_obj_pages : gmap Z (gset Z);
  m_free_hash_bulk_objs : gmap Z SlotObjPage;
  m_free_bulk_objs : gset Z;
  m_free_mem_objs : list Z;
  mem_objs : gmap Z MemObject;
  next_obj : Z
}.

Abbreviation PM := (M (MemPool * heap)).

Definition set_tiny x o := MkPool (conf o) x (m_small o) (m_big o) (m_bulk_obj_pages o) (m_free_hash_bulk_objs o)
  (m_free_bulk_objs o) (m_free_mem_objs o) (mem_objs o) (next_obj o).
Definition set_small x o := MkPool (conf o) (m_tiny o) x (m_big o) (m_bulk_obj_pages o) (m_free_hash_bulk_objs o)
  (m_free_bulk_objs o) (m_free_mem_objs o) (mem_objs o) (next_obj o).
Definition set_big x o := MkPool (conf o) (m_tiny o) (m_small o) x (m_bulk_obj_pages o) (m_free_hash_bulk_objs o)
  (m_free_bulk_objs o) (m_free_mem_objs o) (mem_objs o) (next_obj o).
Definition set_bulk_pages f o := MkPool (conf o) (m_tiny o) (m_small o) (m_big o) (f (m_bulk_obj_pages o))
  (m_free_hash_bulk_objs o) (m_free_bulk_objs o) (m_free_mem_objs o) (mem_objs o) (next_obj o).
Definition set_hash f o := MkPool (conf o) (m_tiny o) (m_small o) (m_big o) (m_bulk_obj_pages o)
  (f (m_free_hash_bulk_objs o)) (m_free_bulk_objs o) (m_free_mem_objs o) (mem_objs o) (next_obj o).
Definition set_bulk f o := MkPool (conf o) (m_tiny o) (m_small o) (m_big o) (m_bulk_obj_pages o)
  (m_free_hash_bulk_objs o) (f (m_free_bulk_objs o)) (m_free_mem_objs o) (mem_objs o) (next_obj o).
Definition set_descs fr mo n o := MkPool (conf o) (m_tiny o) (m_small o) (m_big o) (m_bulk_obj_pages o)
  (m_free_hash_bulk_objs o) (m_free_bulk_objs o) fr mo n.

(** ** Sizes *)

(** The least multiple of 2^exponent that is not below [in_]. *)
Definition roundup_to_the_next_highest_multiple_of_exponent2 (in_ exponent : Z) : Z :=
  let low_true := Z.lxor (u32 (Z.shiftl in_ (32 - exponent))) 0 in
  if low_true =? 0 then in_
  else
    let multiple_base := u32 (Z.shiftl 2 (exponent - 1)) in
    let mask := u32 (Z.shiftl (Z.shiftr 4294967295 exponent) exponent) in
    u32 (Z.land in_ mask + multiple_base).

Definition convert_slot_obj_size_to_slot_idx {S} (size footstep : Z) : M S Z := udiv size footstep.

Definition gen_expand_slot_page_size (objSize expandObjCntFactor pageSize : Z) : Z :=
  let expandCalSize := u32 (objSize * expandObjCntFactor) in
  let pageCnt := expandCalSize / pageSize in
  let pageCnt := if expandCalSize mod pageSize =? 0 then pageCnt else u32 (pageCnt + 1) in
  u32 (pageCnt * pageSize).

(** ** The constructor *)

Definition empty_slot : slot := Slot ∅ (MkSlot ∅ 0).

Definition slots_upto (n : Z) : gmap Z slot :=
  list_to_map ((fun i => (Z.of_nat i, empty_slot)) <$> seq 1 (Z.to_nat n)).

(** [junk] is what [m_free_tiny_objs_cnt] is before it is first set. *)
Definition MemPool_make (pageSize nprocs junk torc sorc borc tpt bipt bupt : Z) : MemPool :=
  let cf := MkPoolConfig pageSize DEFAULT_SMALL_OBJECT_SLOT_FOOTSTEP
    (Z.log2 DEFAULT_SMALL_OBJECT_SLOT_FOOTSTEP) (Z.log2 pageSize) (Z.log2 pageSize)
    torc sorc borc nprocs tpt bipt bupt RESIDENT_BULK_OBJ_MAX_SIZE
    DEFAULT_EXPAND_OBJ_CNT_FACTOR DEFAULT_EXPAND_BULK_OBJ_CNT_FACTOR in
  MkPool cf (Slot ∅ (MkSlot ∅ junk)) (slots_upto (bipt / DEFAULT_SMALL_OBJECT_SLOT_FOOTSTEP))
    (slots_upto (bupt / pageSize)) ∅ ∅ ∅ [] ∅ 1.

Definition MemPool_default (pageSize nprocs junk : Z) : MemPool :=
  MemPool_make pageSize nprocs junk TINY_OBJECT_RESIDENT_CNT ONE_SLOT_SMALL_OBJECT_RESIDENT_CNT
    ONE_SLOT_BIG_OBJECT_RESIDENT_CNT TINY_OBJECT_SIZE_THRESHOLD pageSize BULK_PAGE_SIZE_THRESHOLD.

Section pool.
Context `{SysAlloc} `{HashOrder}.

(** ** Pages *)

Definition split_mem_page {S} (slotSize pagePv pageSize : Z) : M S (list Z) :=
  n ← udiv pageSize slotSize;
  mret ((fun i => u64 (pagePv + u32 (slotSize * Z.of_nat i))) <$> seq 0 (Z.to_nat n)).

Definition alloc_page_objs (sys_page size slotSize : Z) (pages : gset Z) (freeObjs : gmap Z (list Z)) :
    M heap (option (gset Z * gmap Z (list Z))) :=
  page_pv ← PosixMemAlign sys_page size;
  if page_pv =? PAGE_NULL then mret None
  else
    splitObjs ← split_mem_page slotSize page_pv size;
    mret (Some ({[page_pv]} ∪ pages, <[page_pv := splitObjs]> freeObjs)).

(** The first free object of the first page of the table: the table without it, the
    page and the object, both 0 when there is none. *)
Definition get_free_obj_from_slot_page {S} (pages : gmap Z (list Z)) : M S (gmap Z (list Z) * Z * Z) :=
  match keys pages with
  | [] => mret (pages, 0, 0)
  | p :: _ =>
      match pages !! p with
      | Some (o :: rest) => mret (if rest is [] then delete p pages else <[p := rest]> pages, p, o)
      | _ => halt Undefined
      end
  end.

(** Taking an object from a slot, with a new page when it has none. *)
Definition slot_get (sys_page pageSize slotSize : Z) (s : slot) : M heap (slot * option (Z * Z)) :=
  s ← (if decide (objs (s_free s) = ∅) then
         r ← alloc_page_objs sys_page pageSize slotSize (s_pages s) (objs (s_free s));
         match r with
         | Some (pages, free) => n ← udiv pageSize slotSize; mret (Slot pages (MkSlot free n))
         | None => mret s
         end
       else mret s);
  r ← get_free_obj_from_slot_page (objs (s_free s));
  let '(free, page, obj) := r in
  if obj =? 0 then mret (Slot (s_pages s) (MkSlot free (cnt (s_free s))), None)
  else mret (Slot (s_pages s) (MkSlot free (u32 (cnt (s_free s) - 1))), Some (page, obj)).

(** The first page in the order of the table all of whose objects are free. *)
Fixpoint find_full (onePageObjsCnt : Z) (free : gmap Z (list Z)) (ps : list Z) : option Z :=
  match ps with
  | [] => None
  | p :: ps =>
      if match free !! p with Some l => onePageObjsCnt =? zlen l | None => false end then Some p
      else find_full onePageObjsCnt free ps
  end.

(** Giving an object back to a slot; when more than [resident] objects and a page
    are free, one page with no object in use is released. *)
Definition slot_put (onePageObjsCnt resident objPv objPagePv : Z) (s : slot) : M heap slot :=
  let free := objs (s_free s) in
  let free := <[objPagePv := default [] (free !! objPagePv) ++ [objPv]]> free in
  let c := u32 (cnt (s_free s) + 1) in
  if u32 (resident + onePageObjsCnt) <=? c then
    match find_full onePageObjsCnt free (keys free) with
    | Some p =>
        sys_free p;;
        mret (Slot (s_pages s ∖ {[p]}) (MkSlot (delete p free) (u32 (c - onePageObjsCnt))))
    | None => mret (Slot (s_pages s) (MkSlot free c))
    end
  else mret (Slot (s_pages s) (MkSlot free c)).

(** ** MemObjects: recycled before new ones are made *)

Definition get_mem_object (type : MemObjectType) (slotSize objPv slotStartPv : Z) : PM Z :=
  fr ← getO m_free_mem_objs; mo ← getO mem_objs; n ← getO next_obj;
  let x := MkObj type slotSize objPv slotStartPv in
  match fr with
  | id :: fr => modO (set_descs fr (<[id := x]> mo) n);; mret id
  | [] => modO (set_descs [] (<[n := x]> mo) (n + 1));; mret n
  end.

(** ** Bulk objects *)

(** The first object of the first page of a slot's table, and the rest. *)
Definition take_first {S} (sp : SlotObjPage) : M S (SlotObjPage * Z * Z) :=
  match keys (objs sp) with
  | [] => halt Undefined
  | p :: _ =>
      match objs sp !! p with
      | Some (o :: rest) =>
          mret (MkSlot (if rest is [] then delete p (objs sp) else <[p := rest]> (objs sp)) (cnt sp), p, o)
      | _ => halt Undefined
      end
  end.

Definition least (X : gset Z) : option Z :=
  foldr (fun x a => match a with Some y => Some (Z.min x y) | None => Some x end) None (elements X).
Definition greatest (X : gset Z) : option Z :=
  foldr (fun x a => match a with Some y => Some (Z.max x y) | None => Some x end) None (elements X).

(** A free object of at least [needSlotIdx] pages and at most twice as many: slot,
    object and page, all 0 when there is none.

    Removing the last object of a larger slot goes wrong in both branches of the
    code.  In the one for the smallest slot the iterator is used after its element
    was erased.  In the other the reverse iterator, whose element was erased, now
    refers to the next smaller slot, and that one's entry is erased from the hash
    table. *)
Definition get_suitable_bulk_page (needSlotIdx : Z) : PM (Z * Z * Z) :=
  hash ← getO m_free_hash_bulk_objs;
  match hash !! needSlotIdx with
  | Some sp =>
      r ← take_first sp;
      let '(sp, p, o) := r in
      (if decide (objs sp = ∅)
       then modO (set_hash (delete needSlotIdx));; modO (set_bulk (fun X => X ∖ {[needSlotIdx]}))
       else modO (set_hash (<[needSlotIdx := sp]>)));;
      mret (needSlotIdx, o, p)
  | None =>
      bulk ← getO m_free_bulk_objs;
      match least bulk, greatest bulk with
      | Some lo, Some hi =>
          let maxPageSize := u32 (needSlotIdx * 2) in
          if hi <? needSlotIdx then mret (0, 0, 0)
          else if needSlotIdx <? lo then
            if maxPageSize <? lo then mret (0, 0, 0)
            else
              sp ← of_mem (hash !! lo);
              r ← take_first sp;
              let '(sp, p, o) := r in
              if decide (objs sp = ∅) then halt Undefined
              else modO (set_hash (<[lo := sp]>));; mret (lo, o, p)
          else
            match greatest (filter (fun x => needSlotIdx < x <= maxPageSize) bulk) with
            | None => mret (0, 0, 0)
            | Some k =>
                sp ← of_mem (hash !! k);
                r ← take_first sp;
                let '(sp, p, o) := r in
                modO (set_hash (<[k := sp]>));;
                if decide (objs sp = ∅) then
                  modO (set_bulk (fun X => X ∖ {[k]}));;
                  match greatest (filter (fun x => x < k) bulk) with
                  | Some before => modO (set_hash (delete before));; mret (k, o, p)
                  | None => halt Undefined
                  end
                else mret (k, o, p)
            end
      | _, _ => mret (0, 0, 0)
      end
  end.

(** ** Get *)

Definition get_tiny : PM (option Z) :=
  cf ← getO conf; s ← getO m_tiny;
  r ← io (slot_get (m_sys_page_size cf) (m_sys_page_size cf) (m_tiny_obj_threshold cf) s);
  let '(s, got) := r in
  modO (set_tiny s);;
  match got with
  | Some (page, obj) => id ← get_mem_object Tiny (m_tiny_obj_threshold cf) obj page; mret (Some id)
  | None => mret None
  end.

Definition get_slot (type : MemObjectType) (get : MemPool -> gmap Z slot) (set : gmap Z slot -> MemPool -> MemPool)
    (footstep exponent size : Z) : PM (option Z) :=
  cf ← getO conf;
  let slotSize := roundup_to_the_next_highest_multiple_of_exponent2 size exponent in
  slotIdx ← convert_slot_obj_size_to_slot_idx slotSize footstep;
  slots ← getO get;
  s ← of_mem (slots !! slotIdx);
  let expandPageSize := gen_expand_slot_page_size slotSize (m_expand_obj_cnt_factor cf) (m_sys_page_size cf) in
  r ← io (slot_get (m_sys_page_size cf) expandPageSize slotSize s);
  let '(s, got) := r in
  modO (set (<[slotIdx := s]> slots));;
  match got with
  | Some (page, obj) => id ← get_mem_object type slotSize obj page; mret (Some id)
  | None => mret None
  end.

Definition get_bulk (size : Z) : PM (option Z) :=
  cf ← getO conf;
  let needPageSize := roundup_to_the_next_highest_multiple_of_exponent2 size (m_bulk_obj_slot_footstep_exponent cf) in
  needSlotIdx ← convert_slot_obj_size_to_slot_idx needPageSize (m_sys_page_size cf);
  r ← get_suitable_bulk_page needSlotIdx;
  r ← (if r.1.2 =? 0 then
         let expandPageSize :=
           if needPageSize <? m_available_reserve_bulk_obj_max_size cf
           then gen_expand_slot_page_size needPageSize (m_expand_bulk_obj_cnt_factor cf) (m_sys_page_size cf)
           else needPageSize in
         modO (set_bulk (union {[needSlotIdx]}));;
         a ← io (alloc_page_objs (m_sys_page_size cf) expandPageSize needPageSize ∅ ∅);
         (match a with
          | Some (pages, free) =>
              n ← udiv expandPageSize needPageSize;
              modO (set_bulk_pages (<[needSlotIdx := pages]>));;
              modO (set_hash (<[needSlotIdx := MkSlot free n]>))
          | None =>
              modO (set_bulk_pages (<[needSlotIdx := ∅]>));;
              modO (set_hash (delete needSlotIdx));;
              modO (set_bulk (fun X => X ∖ {[needSlotIdx]}))
          end);;
         get_suitable_bulk_page needSlotIdx
       else mret r);
  let '(k, obj, page) := r in
  if obj =? 0 then mret None
  else
    hash ← getO m_free_hash_bulk_objs;
    (match hash !! k with
     | Some sp => modO (set_hash (<[k := MkSlot (objs sp) (u32 (cnt sp - 1))]>))
     | None => mret tt
     end);;
    id ← get_mem_object Bulk (u32 (k * m_sys_page_size cf)) obj page;
    mret (Some id).

(** [assert(size > 0)] ends the process. *)
Definition Get (size : Z) : PM (option Z) :=
  if size <=? 0 then halt Aborted
  else
    cf ← getO conf;
    if size <=? m_tiny_obj_threshold cf then get_tiny
    else if size <=? m_bulk_obj_threshold cf then
      if m_big_obj_threshold cf <? size
      then get_slot Big m_big set_big (m_sys_page_size cf) (m_big_obj_slot_footstep_exponent cf) size
      else get_slot Small m_small set_small (m_small_obj_slot_footstep_size cf) (m_small_obj_slot_footstep_exponent cf) size
    else get_bulk size.

(** ** Put *)

Definition put_tiny (objPv objPagePv : Z) : PM unit :=
  cf ← getO conf;
  s ← getO m_tiny;
  onePageObjsCnt ← udiv (m_sys_page_size cf) (m_tiny_obj_threshold cf);
  s ← io (slot_put onePageObjsCnt (m_one_slot_tiny_obj_resident_cnts cf) objPv objPagePv s);
  modO (set_tiny s).

Definition put_slot (get : MemPool -> gmap Z slot) (set : gmap Z slot -> MemPool -> MemPool)
    (footstep resident slotSize objPv objPagePv : Z) : PM unit :=
  cf ← getO conf;
  slotIdx ← convert_slot_obj_size_to_slot_idx slotSize footstep;
  slots ← getO get;
  s ← of_mem (slots !! slotIdx);
  let onePageSize := gen_expand_slot_page_size slotSize (m_expand_obj_cnt_factor cf) (m_sys_page_size cf) in
  onePageObjsCnt ← udiv onePageSize slotSize;
  s ← io (slot_put onePageObjsCnt resident objPv objPagePv s);
  modO (set (<[slotIdx := s]> slots)).

Definition put_bulk (slotSize objPv objPagePv : Z) : PM unit :=
  cf ← getO conf;
  slotIdx ← convert_slot_obj_size_to_slot_idx slotSize (m_sys_page_size cf);
  if m_available_reserve_bulk_obj_max_size cf <? slotSize then
    allPages ← getO m_bulk_obj_pages;
    pages ← of_mem (A := gset Z) (allPages !! slotIdx);
    io (sys_free objPagePv);;
    let pages := pages ∖ {[objPagePv]} in
    modO (set_bulk_pages (fun m => if decide (pages = ∅) then delete slotIdx m else <[slotIdx := pages]> m))
  else
    hash ← getO m_free_hash_bulk_objs;
    sp ← (match hash !! slotIdx with
          | Some sp => mret sp
          | None => modO (set_bulk (union {[slotIdx]}));; mret (MkSlot ∅ 0)
          end);
    let free := <[objPagePv := default [] (objs sp !! objPagePv) ++ [objPv]]> (objs sp) in
    let onePageSize := gen_expand_slot_page_size slotSize (m_expand_bulk_obj_cnt_factor cf) (m_sys_page_size cf) in
    onePageObjsCnt ← udiv onePageSize slotSize;
    let c := u32 (cnt sp + 1) in
    modO (set_hash (<[slotIdx := MkSlot free c]>));;
    if u32 (m_one_slot_bulk_obj_resident_cnts cf + onePageObjsCnt) <=? c then
      match find_full onePageObjsCnt free (keys free) with
      | Some p =>
          allPages ← getO m_bulk_obj_pages;
          modO (set_bulk_pages (<[slotIdx := default ∅ (allPages !! slotIdx) ∖ {[p]}]>));;
          io (sys_free p);;
          let c := u32 (c - onePageObjsCnt) in
          if c =? 0 then
            modO (set_hash (delete slotIdx));; modO (set_bulk (fun X => X ∖ {[slotIdx]}))
          else modO (set_hash (<[slotIdx := MkSlot (delete p free) c]>))
      | None => mret tt
      end
    else mret tt.

Definition put (type : MemObjectType) (slotSize objPv objPagePv : Z) : PM unit :=
  cf ← getO conf;
  match type with
  | Tiny => put_tiny objPv objPagePv
  | Small => put_slot m_small set_small (m_small_obj_slot_footstep_size cf) (m_one_slot_small_obj_resident_cnts cf) slotSize objPv objPagePv
  | Big => put_slot m_big set_big (m_sys_page_size cf) (m_one_slot_big_obj_resident_cnts cf) slotSize objPv objPagePv
  | Bulk => put_bulk slotSize objPv objPagePv
  end.

(** [MemObject::Put]; a null pointer is ignored. *)
Definition Put (memObject : option Z) : PM unit :=
  match memObject with
  | None => mret tt
  | Some id =>
      mo ← getO mem_objs;
      x ← of_mem (mo !! id);
      put (m_type x) (m_slot_size x) (m_obj_pv x) (m_obj_page_pv x);;
      modO (fun o => set_descs (m_free_mem_objs o ++ [id]) (mem_objs o) (next_obj o) o)
  end.

(** ** The destructor *)

Fixpoint free_all (ps : list Z) : M heap unit :=
  match ps with
  | [] => mret tt
  | p :: ps => sys_free p;; free_all ps
  end.

Definition slot_pages (slots : gmap Z slot) : list Z :=
  map_to_list slots ≫= fun x => elements (s_pages x.2).

Definition MemPool_destroy : PM unit :=
  t ← getO m_tiny; sm ← getO m_small; bg ← getO m_big; bp ← getO m_bulk_obj_pages;
  io (free_all (elements (s_pages t)));;
  io (free_all (slot_pages sm));;
  io (free_all (slot_pages bg));;
  io (free_all (map_to_list bp ≫= fun x => elements x.2)).
End pool.
