(* ===== verification/MemPoolSlots.v ===== *)
(** * The slots of the memory pool

    The invariant of one slot: every page of the slot is a block of the heap, and
    the free objects of a page together with those in use are exactly the objects
    the page was split into.  Taking an object and giving one back keep it. *)

From S2P Require Import Prelude MemPool.

(** ** Heaps *)

Record heap_ok (h : heap) : Prop := {
  ho_block a n : h !! a = Some n -> 0 < a /\ 0 < n /\ a + n <= 18446744073709551616;
  ho_disj a b n k : h !! a = Some n -> h !! b = Some k -> a <> b -> a + n <= b \/ b + k <= a
}.

(** What [posix_memalign] documents: a block that overlaps no other. *)
Class SysAllocLaws `{SysAlloc} : Prop := {
  alloc_fresh h align size a :
    heap_ok h -> 0 < size -> posix_memalign h align size = Some a ->
    0 < a /\ a + size <= 18446744073709551616 /\
    forall b n, h !! b = Some n -> a + size <= b \/ b + n <= a
}.

Lemma heap_ok_insert h a n :
  heap_ok h -> 0 < a -> 0 < n -> a + n <= 18446744073709551616 ->
  (forall b k, h !! b = Some k -> a + n <= b \/ b + k <= a) -> heap_ok (<[a := n]> h).
Proof.
  intros Hh Ha Hn Hs Hf. split.
  - intros b k [[-> ->]|[_ Hb]]%lookup_insert_Some; [done|by apply Hh].
  - intros b c k m [[-> ->]|[? Hb]]%lookup_insert_Some [[-> ->]|[? Hc]]%lookup_insert_Some Hne; [done|..].
    + by apply Hf.
    + apply Hf in Hb. lia.
    + by eapply Hh.
Qed.

Lemma heap_ok_delete h a : heap_ok h -> heap_ok (delete a h).
Proof.
  intros Hh. split.
  - intros b k [_ Hb]%lookup_delete_Some. by apply Hh.
  - intros b c k m [_ Hb]%lookup_delete_Some [_ Hc]%lookup_delete_Some. by eapply Hh.
Qed.

Lemma fresh_none h a n : heap_ok h -> 0 < n -> (forall b k, h !! b = Some k -> a + n <= b \/ b + k <= a) -> h !! a = None.
Proof.
  intros Hh Hn Hf. destruct (h !! a) as [k|] eqn:E; [|done]. pose proof (ho_block _ Hh _ _ E). apply Hf in E. lia.
Qed.

(** ** Pages and objects *)

(** The objects of a page. *)
Definition split (sl p : Z) (n : nat) : list Z := (fun i => p + sl * Z.of_nat i) <$> seq 0 n.

Lemma split_length sl p n : length (split sl p n) = n.
Proof. unfold split. by rewrite length_fmap, length_seq. Qed.

Lemma elem_of_split sl p n o :
  o ∈ split sl p n <-> exists i : nat, (i < n)%nat /\ o = p + sl * Z.of_nat i.
Proof.
  unfold split. rewrite list_elem_of_fmap. split.
  - intros (i & -> & Hi). apply elem_of_seq in Hi. exists i. split; [lia|done].
  - intros (i & Hi & ->). exists i. split; [done|]. apply elem_of_seq. lia.
Qed.

Lemma split_NoDup sl p n : 0 < sl -> NoDup (split sl p n).
Proof.
  intros Hs. unfold split. apply NoDup_fmap_2_strong; [|apply NoDup_seq].
  intros i j _ _ Heq. nia.
Qed.

Lemma split_mem_page_spec {S} (s : S) sl p pb Q :
  0 < sl -> 0 <= pb < 4294967296 -> 0 < p -> p + pb <= 18446744073709551616 ->
  Q (split sl p (Z.to_nat (pb / sl))) s -> wp (split_mem_page sl p pb) s Q.
Proof.
  intros Hs Hb Hp He HQ. unfold split_mem_page, udiv. destruct (Z.eqb_spec sl 0); [lia|]. wpure.
  replace (_ <$> _) with (split sl p (Z.to_nat (pb / sl))); [done|].
  unfold split. apply list_fmap_ext. intros k i Hi. apply lookup_seq in Hi as [-> Hi].
  assert (sl * Z.of_nat (0 + k) < pb).
  { pose proof (Z.mul_div_le pb sl Hs). assert (Z.of_nat k < pb / sl) by lia. nia. }
  rewrite u32_small, u64_small by nia. done.
Qed.

(** The objects in use on page [p], out of pairs of page and object. *)
Definition on (p : Z) (live : list (Z * Z)) : list Z := omap (fun x => if decide (x.1 = p) then Some x.2 else None) live.

#[export] Instance on_perm p : Proper ((≡ₚ) ==> (≡ₚ)) (on p).
Proof. intros l k Hlk. unfold on. by rewrite Hlk. Qed.

Lemma on_cons_same p o live : on p ((p, o) :: live) = o :: on p live.
Proof. unfold on. simpl. by rewrite decide_True. Qed.
Lemma on_cons_other p q o live : q <> p -> on p ((q, o) :: live) = on p live.
Proof. intros. unfold on. simpl. by rewrite decide_False. Qed.
#[global] Arguments on : simpl never.
Lemma on_nil p live : on p live = [] -> forall x, x ∈ live -> x.1 <> p.
Proof.
  intros Hn x Hx Hp. assert (x.2 ∈ on p live) as Hin; [|rewrite Hn in Hin; by apply elem_of_nil in Hin].
  apply list_elem_of_omap. exists x. split; [done|]. by rewrite decide_True.
Qed.
Lemma on_not_in p live : (forall x, x ∈ live -> x.1 <> p) -> on p live = [].
Proof.
  induction live as [|[q o] live IH]; intros Hn; [done|]. rewrite on_cons_other.
  - apply IH. intros x Hx. apply Hn. by constructor.
  - apply (Hn (q, o)). constructor.
Qed.

(** How many objects of a table are free. *)
Definition free_count (m : gmap Z (list Z)) : Z := map_fold (fun _ l n => zlen l + n) 0 m.

Lemma free_count_empty : free_count ∅ = 0.
Proof. apply map_fold_empty. Qed.
Lemma free_count_insert m p l : m !! p = None -> free_count (<[p := l]> m) = zlen l + free_count m.
Proof. intros. unfold free_count. rewrite map_fold_insert_L; [done|intros; lia|done]. Qed.
Lemma free_count_delete m p l : m !! p = Some l -> free_count m = zlen l + free_count (delete p m).
Proof. intros. unfold free_count. rewrite (map_fold_delete_L _ _ p l m); [done|intros; lia|done]. Qed.
Lemma free_count_update m p l k : m !! p = Some l -> free_count (<[p := k]> m) = zlen k - zlen l + free_count m.
Proof.
  intros Hl. rewrite <- insert_delete_eq, free_count_insert, (free_count_delete m p l) by (done || apply lookup_delete_eq). lia.
Qed.

(** ** The invariant of a slot *)

Record slot_inv (h : heap) (pb sl : Z) (s : slot) (live : list (Z * Z)) : Prop := {
  si_size : 0 < sl <= pb /\ pb < 4294967296;
  si_pages p : p ∈ s_pages s -> h !! p = Some pb;
  si_free p l : objs (s_free s) !! p = Some l -> l <> [] /\ p ∈ s_pages s;
  si_part p : p ∈ s_pages s -> default [] (objs (s_free s) !! p) ++ on p live ≡ₚ split sl p (Z.to_nat (pb / sl));
  si_live x : x ∈ live -> x.1 ∈ s_pages s;
  si_cnt : s_pages s <> ∅ -> cnt (s_free s) = u32 (free_count (objs (s_free s)))
}.

#[export] Instance slot_inv_perm h pb sl s : Proper ((≡ₚ) ==> impl) (slot_inv h pb sl s).
Proof.
  intros l k Hlk []. split; [done..| | |done].
  - intros p Hp. rewrite <- Hlk. auto.
  - intros x. rewrite <- Hlk. auto.
Qed.

(** Other slots may take blocks of the heap. *)
Lemma slot_inv_heap h h' pb sl s live :
  slot_inv h pb sl s live -> (forall p, p ∈ s_pages s -> h' !! p = h !! p) -> slot_inv h' pb sl s live.
Proof. intros [] Hh. split; [done| |done..]. intros p Hp. rewrite Hh; auto. Qed.

Lemma empty_slot_inv h pb sl c : 0 < sl <= pb -> pb < 4294967296 -> slot_inv h pb sl (Slot ∅ (MkSlot ∅ c)) [].
Proof.
  intros Hs Hb. split; simpl; [done|..].
  - intros p. by rewrite elem_of_empty.
  - intros p l. by rewrite lookup_empty.
  - intros p. by rewrite elem_of_empty.
  - intros x. by rewrite elem_of_nil.
  - done.
Qed.

Lemma keys_elem `{HashOrder} {V} (m : gmap Z V) p : p ∈ keys m <-> is_Some (m !! p).
Proof.
  rewrite keys_spec, list_elem_of_fmap. split.
  - intros ([q v] & -> & Hq). apply elem_of_map_to_list in Hq. by exists v.
  - intros [v Hv]. exists (p, v). split; [done|]. by apply elem_of_map_to_list.
Qed.

Lemma keys_nil `{HashOrder} {V} (m : gmap Z V) : keys m = [] -> m = ∅.
Proof.
  intros Hk. apply map_eq. intros p. rewrite lookup_empty. destruct (m !! p) as [v|] eqn:E; [|done].
  assert (p ∈ keys m) as Hp by (apply keys_elem; by rewrite E). rewrite Hk in Hp. by apply elem_of_nil in Hp.
Qed.

Section slots.
Context `{SysAllocLaws} `{HashOrder}.

(** A new page for a slot that has no free object. *)
Lemma slot_inv_grow h pb sl s live p :
  slot_inv h pb sl s live -> objs (s_free s) = ∅ -> h !! p = None ->
  slot_inv (<[p := pb]> h) pb sl
    (Slot ({[p]} ∪ s_pages s) (MkSlot (<[p := split sl p (Z.to_nat (pb / sl))]> ∅) (pb / sl))) live.
Proof.
  intros [Hs Hp Hf Hpart Hl Hc] He Hn.
  assert (p ∉ s_pages s) as Hnp by (intros Hin%Hp; by rewrite Hin in Hn).
  assert (1 <= pb / sl) by (apply Z.div_le_lower_bound; lia).
  assert (pb / sl <= pb) by (apply Z.div_le_upper_bound; nia).
  split; simpl; [done|..].
  - intros q [->%elem_of_singleton|Hq]%elem_of_union; [by rewrite lookup_insert_eq|].
    rewrite lookup_insert_ne by (by intros ->). auto.
  - intros q l [[<- <-]|[_ Hq]]%lookup_insert_Some; [|by rewrite lookup_empty in Hq].
    split; [|set_solver]. intros Hnil. apply (f_equal length) in Hnil. rewrite split_length in Hnil. simpl in Hnil. lia.
  - intros q [->%elem_of_singleton|Hq]%elem_of_union.
    + rewrite lookup_insert_eq, on_not_in; [by rewrite app_nil_r|]. intros x Hx%Hl Hxp. by rewrite Hxp in Hx.
    + rewrite lookup_insert_ne by (by intros ->). rewrite lookup_empty. specialize (Hpart q Hq).
      by rewrite He, lookup_empty in Hpart.
  - intros x Hx%Hl. set_solver.
  - intros _. rewrite free_count_insert, free_count_empty by apply lookup_empty.
    unfold zlen. rewrite split_length, u32_small; lia.
Qed.

(** Taking the first object of a page. *)
Lemma slot_inv_take h pb sl s live p o rest c' :
  slot_inv h pb sl s live -> objs (s_free s) !! p = Some (o :: rest) -> c' = u32 (cnt (s_free s) - 1) ->
  slot_inv h pb sl (Slot (s_pages s) (MkSlot (if rest is [] then delete p (objs (s_free s)) else <[p := rest]> (objs (s_free s))) c'))
    ((p, o) :: live).
Proof.
  intros [Hs Hp Hf Hpart Hl Hc] Hlk ->. pose proof (Hf _ _ Hlk) as [_ Hin].
  set (m := match rest with [] => _ | _ => _ end).
  assert (default [] (m !! p) = rest) as Hmp.
  { unfold m. destruct rest; [by rewrite lookup_delete_eq|by rewrite lookup_insert_eq]. }
  assert (forall q, q <> p -> m !! q = objs (s_free s) !! q) as Hmq.
  { intros q Hq. unfold m. destruct rest; [by apply lookup_delete_ne|by apply lookup_insert_ne]. }
  assert (free_count m = free_count (objs (s_free s)) - 1) as Hcount.
  { unfold m. destruct rest as [|o' rest].
    - rewrite (free_count_delete (objs (s_free s)) p [o]) by done. unfold zlen. simpl. lia.
    - rewrite (free_count_update _ _ _ _ Hlk). unfold zlen. simpl. lia. }
  split; simpl; [done|done|..].
  - intros q l. destruct (decide (q = p)) as [->|Hq]; [|rewrite Hmq by done; apply Hf].
    intros E. rewrite E in Hmp. simpl in Hmp. subst l. split; [|done].
    intros ->. unfold m in E. by rewrite lookup_delete_eq in E.
  - intros q Hq. specialize (Hpart q Hq). destruct (decide (q = p)) as [->|Hne].
    + rewrite Hmp, on_cons_same. rewrite Hlk in Hpart. simpl in Hpart. rewrite <- Hpart.
      by rewrite Permutation_middle.
    + by rewrite Hmq, on_cons_other.
  - intros x [->|Hx]%elem_of_cons; [done|by apply Hl].
  - intros Hne. rewrite Hcount, (Hc Hne). unfold u32. by rewrite Zminus_mod_idemp_l.
Qed.

Lemma take_spec h pb sl s live (w : heap) Q :
  slot_inv h pb sl s live -> (objs (s_free s) = ∅ -> Q (∅, 0, 0) w) ->
  (forall p o rest, objs (s_free s) !! p = Some (o :: rest) ->
    Q (if rest is [] then delete p (objs (s_free s)) else <[p := rest]> (objs (s_free s)), p, o) w) ->
  wp (get_free_obj_from_slot_page (objs (s_free s))) w Q.
Proof.
  intros Hi HN HS. unfold get_free_obj_from_slot_page. destruct (keys _) as [|p ks] eqn:Ek.
  - apply keys_nil in Ek. wpure. rewrite Ek. auto.
  - assert (is_Some (objs (s_free s) !! p)) as [l Hl] by (apply keys_elem; rewrite Ek; constructor).
    rewrite Hl. pose proof (si_free _ _ _ _ _ Hi _ _ Hl) as [Hne _]. destruct l as [|o rest]; [done|].
    wpure. by apply HS.
Qed.

Lemma slot_obj_pos h pb sl s live p o : heap_ok h -> slot_inv h pb sl s ((p, o) :: live) -> 0 < o.
Proof.
  intros Hh [Hs Hp _ Hpart Hl _]. assert (p ∈ s_pages s) as Hin by (apply (Hl (p, o)); constructor).
  assert (o ∈ split sl p (Z.to_nat (pb / sl))) as Ho.
  { rewrite <- Hpart, on_cons_same by done. apply elem_of_app. right. constructor. }
  apply elem_of_split in Ho as (i & _ & ->). pose proof (ho_block _ Hh _ _ (Hp _ Hin)). nia.
Qed.

(** What taking an object from a slot leaves: it is one of the slot's objects that was
    not in use; the heap is as before or has one new block, a page of the slot. *)
Definition got (h : heap) (pb sl : Z) (s : slot) (live : list (Z * Z)) (r : slot * option (Z * Z)) (h' : heap) : Prop :=
  heap_ok h' /\
  match r with
  | (s', None) => h' = h /\ s_pages s' = s_pages s /\ slot_inv h pb sl s' live
  | (s', Some (p, o)) => slot_inv h' pb sl s' ((p, o) :: live) /\ 0 < o /\
      ((h' = h /\ s_pages s' = s_pages s) \/
       (h !! p = None /\ h' = <[p := pb]> h /\ s_pages s' = {[p]} ∪ s_pages s))
  end.

(** The slot once it has a free object, if it can get one. *)
Record filled (h : heap) (pb sl : Z) (s : slot) (s1 : slot) (h1 : heap) : Prop := {
  fl_empty : objs (s_free s1) = ∅ -> s1 = s /\ h1 = h;
  fl_grown : (h1 = h /\ s_pages s1 = s_pages s) \/
    (exists p, objs (s_free s1) = {[p := split sl p (Z.to_nat (pb / sl))]} /\
      h !! p = None /\ h1 = <[p := pb]> h /\ s_pages s1 = {[p]} ∪ s_pages s)
}.

Lemma slot_take_spec h pb sl s live s1 h1 :
  heap_ok h1 -> slot_inv h1 pb sl s1 live -> filled h pb sl s s1 h1 ->
  wp (r ← get_free_obj_from_slot_page (objs (s_free s1));
      let '(free, page, obj) := r in
      if obj =? 0 then mret (Slot (s_pages s1) (MkSlot free (cnt (s_free s1))), None)
      else mret (Slot (s_pages s1) (MkSlot free (u32 (cnt (s_free s1) - 1))), Some (page, obj))) h1
    (got h pb sl s live).
Proof.
  intros Hh1 Hi1 [He Hor]. wbind. eapply take_spec; [exact Hi1|..].
  - intros E. destruct (He E) as [-> ->]. simpl. wpure. split_and!; [done..|].
    rewrite <- E. by destruct s as [? []].
  - intros p o rest Hlk. pose proof (slot_inv_take _ _ _ _ _ _ _ _ _ Hi1 Hlk eq_refl) as Hi2.
    pose proof (slot_obj_pos _ _ _ _ _ _ _ Hh1 Hi2) as Ho. simpl.
    destruct (Z.eqb_spec o 0); [lia|]. wpure. split; [done|]. split_and!; [done..|].
    destruct Hor as [?|(q & Hobjs & ? & ? & ?)]; [by left|right].
    rewrite Hobjs in Hlk. apply lookup_singleton_Some in Hlk as [-> _]. done.
Qed.

Lemma wp_memalign (h : heap) align size Q :
  (posix_memalign h align size = None -> Q 0 h) ->
  (forall a, posix_memalign h align size = Some a -> Q a (<[a := size]> h)) ->
  wp (PosixMemAlign align size) h Q.
Proof. intros HN HS. unfold wp, wpc, PosixMemAlign. destruct (posix_memalign h align size); auto. Qed.

Lemma slot_get_spec sys_page h pb sl s live :
  heap_ok h -> slot_inv h pb sl s live -> wp (slot_get sys_page pb sl s) h (got h pb sl s live).
Proof.
  intros Hh Hi. unfold slot_get. wbind.
  destruct (decide (objs (s_free s) = ∅)) as [E|E];
    [|wpure; apply slot_take_spec; [done..|split; [done|by left]]].
  wbind. unfold alloc_page_objs. wbind. apply wp_memalign.
  - intros _. simpl. wpure. apply slot_take_spec; [done..|split; [done|by left]].
  - intros a Ea. pose proof (si_size _ _ _ _ _ Hi) as Hs.
    assert (0 < pb) as Hpb by lia. destruct (alloc_fresh _ _ _ _ Hh Hpb Ea) as (Ha & Hend & Hf).
    pose proof (fresh_none _ _ _ Hh Hpb Hf) as Hn.
    unfold PAGE_NULL. destruct (Z.eqb_spec a 0); [lia|].
    wbind. apply split_mem_page_spec; [lia..|]. wpure. unfold udiv. destruct (Z.eqb_spec sl 0); [lia|]. wpure.
    apply slot_take_spec.
    + apply heap_ok_insert; [done|lia..|done].
    + rewrite E. by apply slot_inv_grow.
    + split; simpl; [intros He; by apply insert_non_empty in He|]. right. exists a. rewrite E. done.
Qed.

(** ** Giving back *)

Lemma find_full_spec n free ps p :
  find_full n free ps = Some p -> exists l, free !! p = Some l /\ n = zlen l.
Proof.
  induction ps as [|q ps IH]; simpl; [done|]. destruct (free !! q) as [l|] eqn:E; [|done].
  destruct (Z.eqb_spec n (zlen l)); [|done]. intros [= <-]. eauto.
Qed.

Lemma slot_inv_give h pb sl s live p o :
  slot_inv h pb sl s ((p, o) :: live) ->
  slot_inv h pb sl (Slot (s_pages s) (MkSlot (<[p := default [] (objs (s_free s) !! p) ++ [o]]> (objs (s_free s)))
    (u32 (cnt (s_free s) + 1)))) live.
Proof.
  intros [Hs Hp Hf Hpart Hl Hc]. assert (p ∈ s_pages s) as Hin by (apply (Hl (p, o)); constructor).
  split; simpl; [done|done|..].
  - intros q l [[<- <-]|[_ Hq]]%lookup_insert_Some; [|by apply Hf]. split; [|done].
    by destruct (default [] _).
  - intros q Hq. specialize (Hpart q Hq). destruct (decide (q = p)) as [->|Hne].
    + rewrite lookup_insert_eq. simpl. rewrite on_cons_same in Hpart. by rewrite <- app_assoc.
    + by rewrite lookup_insert_ne, <- (on_cons_other q p o live) by done.
  - intros x Hx. apply Hl. by constructor.
  - intros Hne. rewrite (Hc Hne). destruct (objs (s_free s) !! p) as [l|] eqn:E; simpl.
    + rewrite (free_count_update _ _ _ _ E). unfold u32, zlen. rewrite Zplus_mod_idemp_l, length_app. f_equal. simpl. lia.
    + rewrite free_count_insert by done. unfold u32, zlen. rewrite Zplus_mod_idemp_l. f_equal. simpl. lia.
Qed.

(** A page whose objects are all free has none in use, and can go. *)
Lemma full_page_unused h pb sl s live p l :
  slot_inv h pb sl s live -> objs (s_free s) !! p = Some l -> pb / sl = zlen l -> on p live = [].
Proof.
  intros [Hs _ Hf Hpart _ _] Hlk Hn. destruct (Hf _ _ Hlk) as [_ Hin].
  specialize (Hpart p Hin). rewrite Hlk in Hpart. apply Permutation_length in Hpart.
  rewrite length_app, split_length, Hn in Hpart. simpl in Hpart. unfold zlen in Hpart.
  apply length_zero_iff_nil. lia.
Qed.

Lemma slot_inv_release h pb sl s live p l :
  slot_inv h pb sl s live -> objs (s_free s) !! p = Some l -> pb / sl = zlen l ->
  slot_inv (delete p h) pb sl (Slot (s_pages s ∖ {[p]}) (MkSlot (delete p (objs (s_free s)))
    (u32 (cnt (s_free s) - pb / sl)))) live.
Proof.
  intros Hi Hlk Hn. pose proof (on_nil _ _ (full_page_unused _ _ _ _ _ _ _ Hi Hlk Hn)) as Hno.
  destruct Hi as [Hs Hp Hf Hpart Hl Hc]. destruct (Hf _ _ Hlk) as [_ Hin]. split; simpl; [done|..].
  - intros q [Hq Hne%not_elem_of_singleton]%elem_of_difference. rewrite lookup_delete_ne by done. auto.
  - intros q k [Hne Hq]%lookup_delete_Some. destruct (Hf _ _ Hq). split; [done|set_solver].
  - intros q [Hq Hne%not_elem_of_singleton]%elem_of_difference. rewrite lookup_delete_ne by done. auto.
  - intros x Hx. pose proof (Hno x Hx). pose proof (Hl x Hx). set_solver.
  - intros _. rewrite Hc by set_solver. rewrite (free_count_delete _ _ _ Hlk), <- Hn. unfold u32.
    rewrite Zminus_mod_idemp_l. f_equal. lia.
Qed.

(** Giving an object back: the slot is as before without it in use; a page of the slot
    may have been returned to the system. *)
Lemma slot_put_spec h pb sl resident s live p o :
  heap_ok h -> slot_inv h pb sl s ((p, o) :: live) ->
  wp (slot_put (pb / sl) resident o p s) h (fun s' h' => heap_ok h' /\ slot_inv h' pb sl s' live /\
    ((h' = h /\ s_pages s' = s_pages s) \/
     (exists q, q ∈ s_pages s /\ h' = delete q h /\ s_pages s' = s_pages s ∖ {[q]}))).
Proof.
  intros Hh Hi. apply slot_inv_give in Hi. unfold slot_put. cbv zeta.
  destruct (_ <=? _); [|wpure; split_and!; [done..|by left]].
  destruct (find_full _ _ _) as [q|] eqn:Ef; [|wpure; split_and!; [done..|by left]].
  apply find_full_spec in Ef as (l & Hl & Hn).
  destruct (si_free _ _ _ _ _ Hi _ _ Hl) as [_ Hq]. simpl in Hq.
  wbind. eapply (wp_eq _ _ tt); [unfold sys_free; by rewrite (si_pages _ _ _ _ _ Hi _ Hq)|]. wpure.
  split_and!; [by apply heap_ok_delete|exact (slot_inv_release _ _ _ _ _ _ _ Hi Hl Hn)|].
  right. by exists q.
Qed.
End slots.
