(* ===== verification/MemPoolInv.v ===== *)
(** * The invariant of the memory pool

    The slots of the pool as one family indexed by class and object size.  Each page
    belongs to one slot, the heap is what it was when the pool was made plus the
    pages, and the objects in use are those of the descriptors handed out.  [Get] and
    [Put] keep this for all sizes below the bulk class. *)

From S2P Require Import Prelude MemPool MemPoolSlots.

(** ** Sizes *)

Lemma land_mask a e : 0 <= e <= 32 -> 0 <= a < 4294967296 ->
  Z.land a (Z.shiftl (Z.ones (32 - e)) e) = a / 2 ^ e * 2 ^ e.
Proof.
  intros He Ha. rewrite <- Z.shiftr_div_pow2, <- Z.shiftl_mul_pow2 by lia.
  apply Z.bits_inj_iff'. intros n Hn. rewrite Z.land_spec.
  destruct (decide (n < e)).
  { rewrite !Z.shiftl_spec_low by lia. by rewrite andb_false_r. }
  rewrite !Z.shiftl_spec, Z.shiftr_spec by lia. replace (n - e + e) with n by lia.
  destruct (decide (n < 32)).
  - rewrite Z.ones_spec_low by lia. by rewrite andb_true_r.
  - rewrite Z.ones_spec_high by lia. rewrite andb_false_r. symmetry. rewrite Z.testbit_eqb by lia.
    rewrite Z.div_small; [done|]. split; [lia|]. pose proof (Z.pow_le_mono_r 2 32 n ltac:(lia) ltac:(lia)) as Hpow.
    change (2 ^ 32) with 4294967296 in Hpow. lia.
Qed.

Lemma roundup_spec a e : 0 < e < 32 -> 0 <= a -> a + 2 ^ e <= 4294967296 ->
  roundup_to_the_next_highest_multiple_of_exponent2 a e = (a + 2 ^ e - 1) / 2 ^ e * 2 ^ e.
Proof.
  intros He Ha Hs. unfold roundup_to_the_next_highest_multiple_of_exponent2.
  pose proof (Z.pow_pos_nonneg 2 e ltac:(lia) ltac:(lia)) as Hp.
  assert (u32 (Z.shiftl a (32 - e)) = a mod 2 ^ e * 2 ^ (32 - e)) as ->.
  { unfold u32. rewrite Z.shiftl_mul_pow2 by lia.
    replace 4294967296 with (2 ^ e * 2 ^ (32 - e)) by (rewrite <- Z.pow_add_r by lia; by replace (e + (32 - e)) with 32 by lia).
    rewrite Z.mul_mod_distr_r by (apply Z.pow_nonzero; lia). done. }
  rewrite Z.lxor_0_r. pose proof (Z.div_mod a (2 ^ e) ltac:(lia)) as Hdm.
  pose proof (Z.mod_pos_bound a (2 ^ e) ltac:(lia)) as Hr.
  pose proof (Z.pow_pos_nonneg 2 (32 - e) ltac:(lia) ltac:(lia)).
  destruct (Z.eqb_spec (a mod 2 ^ e * 2 ^ (32 - e)) 0) as [E|E].
  - assert (a mod 2 ^ e = 0) as E0 by nia. replace (a + 2 ^ e - 1) with (2 ^ e - 1 + a / 2 ^ e * 2 ^ e) by lia.
    rewrite Z.div_add, (Z.div_small (2 ^ e - 1)) by lia. lia.
  - assert (u32 (Z.shiftl 2 (e - 1)) = 2 ^ e) as ->.
    { rewrite Z.shiftl_mul_pow2 by lia. replace (2 * 2 ^ (e - 1)) with (2 ^ e).
      - apply u32_small. pose proof (Z.pow_lt_mono_r 2 e 32 ltac:(lia) ltac:(lia) ltac:(lia)) as Hpow.
        change (2 ^ 32) with 4294967296 in Hpow. lia.
      - replace e with (1 + (e - 1)) at 1 by lia. rewrite Z.pow_add_r by lia. done. }
    assert (u32 (Z.shiftl (Z.shiftr 4294967295 e) e) = Z.shiftl (Z.ones (32 - e)) e) as ->.
    { change 4294967295 with (Z.ones 32). rewrite Z.shiftr_div_pow2, Z.ones_div_pow2 by lia.
      apply u32_small. rewrite Z.shiftl_mul_pow2, Z.ones_equiv by lia.
      assert (2 ^ (32 - e) * 2 ^ e = 4294967296) by (rewrite <- Z.pow_add_r by lia; by replace (32 - e + e) with 32 by lia).
      nia. }
    rewrite land_mask by lia.
    assert (a mod 2 ^ e <> 0) by (intros E0; rewrite E0 in E; lia).
    replace (a + 2 ^ e - 1) with (a mod 2 ^ e - 1 + (a / 2 ^ e + 1) * 2 ^ e) by lia.
    assert (0 <= a / 2 ^ e) by (apply Z.div_pos; lia).
    rewrite Z.div_add, (Z.div_small (a mod 2 ^ e - 1)) by lia. rewrite u32_small by nia. lia.
Qed.

Lemma expand_spec sl page : 0 < sl <= 131072 -> 0 < page <= 131072 ->
  let pb := gen_expand_slot_page_size sl 32 page in sl <= pb /\ pb < 4294967296.
Proof.
  intros Hs Hp. unfold gen_expand_slot_page_size. cbv zeta. rewrite (u32_small (sl * 32)) by lia.
  pose proof (Z.div_mod (sl * 32) page ltac:(lia)). pose proof (Z.mod_pos_bound (sl * 32) page ltac:(lia)).
  assert (0 <= sl * 32 / page) by (apply Z.div_pos; lia).
  assert (sl * 32 / page <= sl * 32) by (apply Z.div_le_upper_bound; nia).
  destruct (Z.eqb_spec (sl * 32 mod page) 0); [|rewrite (u32_small (_ + 1)) by lia]; rewrite u32_small; nia.
Qed.

(** ** A family of slots *)

Abbreviation slots := (MemObjectType -> Z -> option slot).
Abbreviation lives := (MemObjectType -> Z -> list (Z * Z)).

Record family (h0 h : heap) (pb : MemObjectType -> Z -> Z) (S : slots) (L : lives) : Prop := {
  fm_heap : heap_ok h;
  fm_slot ty sz s : S ty sz = Some s -> slot_inv h (pb ty sz) sz s (L ty sz);
  fm_own ty sz s ty' sz' s' p : S ty sz = Some s -> S ty' sz' = Some s' ->
    p ∈ s_pages s -> p ∈ s_pages s' -> ty = ty' /\ sz = sz';
  fm_base ty sz s p : S ty sz = Some s -> p ∈ s_pages s -> h0 !! p = None;
  fm_keep p n : h0 !! p = Some n -> h !! p = Some n;
  fm_all p n : h !! p = Some n -> h0 !! p = Some n \/ exists ty sz s, S ty sz = Some s /\ p ∈ s_pages s
}.

(** A slot that keeps its pages, gets one or gives one back, with the heap. *)
Inductive pages_step (h : heap) (pb : Z) (X : gset Z) : heap -> gset Z -> Prop :=
  | ps_same : pages_step h pb X h X
  | ps_grow p : h !! p = None -> pages_step h pb X (<[p := pb]> h) ({[p]} ∪ X)
  | ps_free q : q ∈ X -> pages_step h pb X (delete q h) (X ∖ {[q]}).

Lemma family_step h0 h h' pb S S' L L' ty sz s s' :
  family h0 h pb S L -> S ty sz = Some s -> S' ty sz = Some s' ->
  (forall ty' sz', (ty', sz') <> (ty, sz) -> S' ty' sz' = S ty' sz' /\ L' ty' sz' = L ty' sz') ->
  heap_ok h' -> slot_inv h' (pb ty sz) sz s' (L' ty sz) -> pages_step h (pb ty sz) (s_pages s) h' (s_pages s') ->
  family h0 h' pb S' L'.
Proof.
  intros [Hh Hsl Hown Hbase Hkeep Hall] HS HS' Hoth Hh' Hi Hst.
  assert (forall p, p ∈ s_pages s' -> p ∈ s_pages s \/ h !! p = None) as Hnew.
  { inversion Hst; set_solver. }
  assert (forall p, (h !! p <> None -> p ∉ s_pages s) -> h !! p <> None -> h' !! p = h !! p) as Hsame.
  { intros p Hp Hn. inversion Hst; subst; [done|..].
    - apply lookup_insert_ne. by intros ->.
    - apply lookup_delete_ne. intros ->. by apply Hp. }
  assert (forall ty' sz' s2 p, S ty' sz' = Some s2 -> p ∈ s_pages s2 -> h !! p = Some (pb ty' sz')) as Hpg.
  { intros ty' sz' s2 p H2 Hp. by eapply si_pages; [apply Hsl|]. }
  assert (forall ty' sz' s2 p, (ty', sz') <> (ty, sz) -> S ty' sz' = Some s2 -> p ∈ s_pages s2 -> p ∉ s_pages s') as Hsep.
  { intros ty' sz' s2 p Hne H2 Hp [Hp'|Hn]%Hnew; [|by rewrite (Hpg _ _ _ _ H2 Hp) in Hn].
    destruct (Hown _ _ _ _ _ _ _ H2 HS Hp Hp') as [-> ->]. done. }
  assert (forall ty' sz' s2, S' ty' sz' = Some s2 ->
    (ty' = ty /\ sz' = sz /\ s2 = s') \/ ((ty', sz') <> (ty, sz) /\ S ty' sz' = Some s2)) as Hcase.
  { intros ty' sz' s2 H2. destruct (decide (ty' = ty /\ sz' = sz)) as [[-> ->]|Hne].
    - left. rewrite HS' in H2. by injection H2 as <-.
    - right. assert ((ty', sz') <> (ty, sz)) as Hne' by (intros [= -> ->]; by apply Hne).
      split; [done|]. by rewrite <- (proj1 (Hoth _ _ Hne')). }
  split; [done|..].
  - intros ty' sz' s2 H2. destruct (Hcase _ _ _ H2) as [(-> & -> & ->)|[Hne H3]]; [done|].
    rewrite (proj2 (Hoth _ _ Hne)). eapply slot_inv_heap; [by apply Hsl|].
    intros p Hp. apply Hsame; [|by rewrite (Hpg _ _ _ _ H3 Hp)].
    intros _ Hp'. destruct (Hown _ _ _ _ _ _ _ H3 HS Hp Hp') as [-> ->]. done.
  - intros ty1 sz1 s1 ty2 sz2 s2 p H1 H2 Hp1 Hp2.
    destruct (Hcase _ _ _ H1) as [(-> & -> & ->)|[Hne1 H1']], (Hcase _ _ _ H2) as [(-> & -> & ->)|[Hne2 H2']]; [done|..].
    + by destruct (Hsep _ _ _ _ Hne2 H2' Hp2).
    + by destruct (Hsep _ _ _ _ Hne1 H1' Hp1).
    + by eapply Hown.
  - intros ty1 sz1 s1 p H1 Hp. destruct (Hcase _ _ _ H1) as [(-> & -> & ->)|[Hne1 H1']]; [|by eapply Hbase].
    destruct (Hnew p Hp) as [?|Hn]; [by eapply Hbase|].
    destruct (h0 !! p) as [n|] eqn:E; [|done]. by rewrite (Hkeep _ _ E) in Hn.
  - intros p n Hp. rewrite Hsame; [by apply Hkeep| |by rewrite (Hkeep _ _ Hp)].
    intros _ Hin. by rewrite (Hbase _ _ _ _ HS Hin) in Hp.
  - intros p n Hp. destruct (decide (p ∈ s_pages s')) as [Hin|Hout]; [right; eauto|].
    assert (h !! p = Some n /\ p ∉ s_pages s) as [Hpn Hps].
    { inversion Hst; subst; simplify_eq.
      - split; congruence.
      - rewrite lookup_insert_ne in Hp by set_solver. set_solver.
      - apply lookup_delete_Some in Hp as [? ?]. set_solver. }
    destruct (Hall _ _ Hpn) as [?|(ty1 & sz1 & s1 & H1 & Hp1)]; [by left|right].
    assert ((ty1, sz1) <> (ty, sz)) as Hne.
    { intros [= -> ->]. rewrite HS in H1. injection H1 as <-. done. }
    exists ty1, sz1, s1. split; [|done]. by rewrite (proj1 (Hoth _ _ Hne)).
Qed.

(** ** The pool as a family *)

(** Pages of 32 bytes to 128 KiB, and the thresholds of the default constructor. *)
Record std_conf (cf : PoolConfig) : Prop := {
  sc_exp : 5 <= m_big_obj_slot_footstep_exponent cf <= 17;
  sc_page : m_sys_page_size cf = 2 ^ m_big_obj_slot_footstep_exponent cf;
  sc_foot : m_small_obj_slot_footstep_size cf = 32;
  sc_sexp : m_small_obj_slot_footstep_exponent cf = 5;
  sc_tiny : m_tiny_obj_threshold cf = 16;
  sc_big : m_big_obj_threshold cf = m_sys_page_size cf;
  sc_bulk : m_bulk_obj_threshold cf = 131072;
  sc_factor : m_expand_obj_cnt_factor cf = 32
}.

Lemma page_range cf : std_conf cf -> 32 <= m_sys_page_size cf <= 131072.
Proof.
  intros [He -> _ _ _ _ _ _]. change 32 with (2 ^ 5). change 131072 with (2 ^ 17).
  split; apply Z.pow_le_mono_r; lia.
Qed.

Lemma page_divides cf : std_conf cf -> 131072 = 131072 / m_sys_page_size cf * m_sys_page_size cf.
Proof.
  intros [He -> _ _ _ _ _ _]. set (e := m_big_obj_slot_footstep_exponent cf) in *.
  assert (131072 = 2 ^ (17 - e) * 2 ^ e) as ->.
  { rewrite <- Z.pow_add_r by lia. by replace (17 - e + e) with 17 by lia. }
  rewrite Z.div_mul by (apply Z.pow_nonzero; lia). done.
Qed.

Definition slot_at (o : MemPool) : slots := fun ty sz =>
  match ty with
  | Tiny => if decide (sz = m_tiny_obj_threshold (conf o)) then Some (m_tiny o) else None
  | Small => if decide (sz mod 32 = 0) then m_small o !! (sz / 32) else None
  | Big => if decide (sz mod m_sys_page_size (conf o) = 0) then m_big o !! (sz / m_sys_page_size (conf o)) else None
  | Bulk => None
  end.

Definition page_bytes (cf : PoolConfig) (ty : MemObjectType) (sz : Z) : Z :=
  match ty with
  | Tiny => m_sys_page_size cf
  | _ => gen_expand_slot_page_size sz (m_expand_obj_cnt_factor cf) (m_sys_page_size cf)
  end.

(** The objects in use of a slot, from the descriptors handed out. *)
Definition at_slot (mo : gmap Z MemObject) (ty : MemObjectType) (sz : Z) (id : Z) : option (Z * Z) :=
  x ← mo !! id;
  if decide (m_type x = ty /\ m_slot_size x = sz) then Some (m_obj_page_pv x, m_obj_pv x) else None.
Definition live_at (mo : gmap Z MemObject) (live : list Z) : lives := fun ty sz => omap (at_slot mo ty sz) live.

Record pool_inv (h0 : heap) (o : MemPool) (h : heap) (live : list Z) : Prop := {
  pv_conf : std_conf (conf o);
  pv_fam : family h0 h (page_bytes (conf o)) (slot_at o) (live_at (mem_objs o) live);
  pv_small i : is_Some (m_small o !! i) <-> 1 <= i <= m_sys_page_size (conf o) / 32;
  pv_big i : is_Some (m_big o !! i) <-> 1 <= i <= 131072 / m_sys_page_size (conf o);
  pv_ids : NoDup (live ++ m_free_mem_objs o);
  pv_descs id : id ∈ live ++ m_free_mem_objs o -> is_Some (mem_objs o !! id);
  pv_next id : is_Some (mem_objs o !! id) -> id < next_obj o;
  pv_objs id x : id ∈ live -> mem_objs o !! id = Some x -> is_Some (slot_at o (m_type x) (m_slot_size x));
  pv_bulk : m_bulk_obj_pages o = ∅
}.

#[export] Instance live_at_perm mo : Proper ((≡ₚ) ==> eq ==> eq ==> (≡ₚ)) (live_at mo).
Proof. intros l k Hlk ? ty -> ? sz ->. unfold live_at. by rewrite Hlk. Qed.

Lemma family_perm h0 h pb S L L' : family h0 h pb S L -> (forall ty sz, L ty sz ≡ₚ L' ty sz) -> family h0 h pb S L'.
Proof. intros [] HL. split; [done| |done..]. intros ty sz s Hs. rewrite <- HL. auto. Qed.

#[export] Instance pool_inv_perm h0 o h : Proper ((≡ₚ) ==> impl) (pool_inv h0 o h).
Proof.
  intros l k Hlk []. split; try done.
  - eapply family_perm; [done|]. intros. by rewrite Hlk.
  - by rewrite <- Hlk.
  - intros id. rewrite <- Hlk. apply pv_descs0.
  - intros id x. rewrite <- Hlk. apply pv_objs0.
Qed.

(** *** Descriptors *)

Lemma live_at_insert mo live id x ty sz :
  id ∉ live -> live_at (<[id := x]> mo) live ty sz = live_at mo live ty sz.
Proof.
  intros Hni. unfold live_at. induction live as [|j live IH]; [done|].
  apply not_elem_of_cons in Hni as [Hj Hni]. cbn [omap list_omap]. rewrite IH by done.
  unfold at_slot at 1 3. by rewrite lookup_insert_ne.
Qed.

Lemma live_at_cons_same mo live id x :
  mo !! id = Some x -> live_at mo (id :: live) (m_type x) (m_slot_size x) =
    (m_obj_page_pv x, m_obj_pv x) :: live_at mo live (m_type x) (m_slot_size x).
Proof.
  intros Hx. unfold live_at. cbn [omap list_omap]. unfold at_slot at 1. rewrite Hx. simpl. by rewrite decide_True.
Qed.

Lemma live_at_cons_other mo live id x ty sz :
  mo !! id = Some x -> (ty, sz) <> (m_type x, m_slot_size x) -> live_at mo (id :: live) ty sz = live_at mo live ty sz.
Proof.
  intros Hx Hne. unfold live_at. cbn [omap list_omap]. unfold at_slot at 1. rewrite Hx. simpl.
  rewrite decide_False; [done|]. intros [<- <-]. done.
Qed.

(** The parts of a pool that an operation on one slot leaves alone. *)
Record one_slot (o o' : MemPool) (ty : MemObjectType) (sz : Z) (s' : slot) : Prop := {
  os_conf : conf o' = conf o;
  os_at : slot_at o' ty sz = Some s';
  os_other ty' sz' : (ty', sz') <> (ty, sz) -> slot_at o' ty' sz' = slot_at o ty' sz';
  os_small i : is_Some (m_small o' !! i) <-> is_Some (m_small o !! i);
  os_big i : is_Some (m_big o' !! i) <-> is_Some (m_big o !! i);
  os_free : m_free_mem_objs o' = m_free_mem_objs o;
  os_objs : mem_objs o' = mem_objs o;
  os_next : next_obj o' = next_obj o;
  os_bulk : m_bulk_obj_pages o' = m_bulk_obj_pages o
}.

Lemma one_slot_some o o' ty sz s s' ty' sz' :
  one_slot o o' ty sz s' -> slot_at o ty sz = Some s -> is_Some (slot_at o ty' sz') -> is_Some (slot_at o' ty' sz').
Proof.
  intros [] Hs Hi. destruct (decide (ty' = ty /\ sz' = sz)) as [[-> ->]|Hne]; [by rewrite os_at0|].
  rewrite os_other0; [done|]. intros [= -> ->]. by apply Hne.
Qed.

Lemma one_slot_tiny o s' : one_slot o (set_tiny s' o) Tiny (m_tiny_obj_threshold (conf o)) s'.
Proof.
  split; try done; simpl.
  - by rewrite decide_True.
  - intros [] sz' Hne; simpl; try done. rewrite !decide_False; [done|..]; intros ->; done.
Qed.

Lemma is_Some_insert {V} (m : gmap Z V) k v j : is_Some (m !! k) -> is_Some (<[k := v]> m !! j) <-> is_Some (m !! j).
Proof.
  intros Hk. destruct (decide (j = k)) as [->|Hne]; [by rewrite lookup_insert_eq|by rewrite lookup_insert_ne].
Qed.

Lemma same_multiple a b n : 0 < n -> a mod n = 0 -> b mod n = 0 -> a / n = b / n -> a = b.
Proof. intros Hn Ha Hb Hq. pose proof (Z.div_mod a n ltac:(lia)). pose proof (Z.div_mod b n ltac:(lia)). lia. Qed.

Lemma one_slot_small o sz s s' :
  slot_at o Small sz = Some s -> one_slot o (set_small (<[sz / 32 := s']> (m_small o)) o) Small sz s'.
Proof.
  simpl. destruct (decide (sz mod 32 = 0)) as [Hz|]; [|done]. intros Hs.
  split; try done; simpl.
  - by rewrite decide_True, lookup_insert_eq.
  - intros [] sz' Hne; simpl; try done. destruct (decide (sz' mod 32 = 0)); [|done].
    rewrite lookup_insert_ne; [done|]. intros Heq. apply Hne. f_equal. by apply (same_multiple _ _ 32).
  - intros i. apply is_Some_insert. by exists s.
Qed.

Lemma one_slot_big o sz s s' : 0 < m_sys_page_size (conf o) ->
  slot_at o Big sz = Some s ->
  one_slot o (set_big (<[sz / m_sys_page_size (conf o) := s']> (m_big o)) o) Big sz s'.
Proof.
  intros Hp. simpl. destruct (decide (sz mod m_sys_page_size (conf o) = 0)) as [Hz|]; [|done]. intros Hs.
  split; try done; simpl.
  - by rewrite decide_True, lookup_insert_eq.
  - intros [] sz' Hne; simpl; try done. destruct (decide (sz' mod m_sys_page_size (conf o) = 0)); [|done].
    rewrite lookup_insert_ne; [done|]. intros Heq. apply Hne. f_equal. by apply (same_multiple _ _ (m_sys_page_size (conf o))).
  - intros i. apply is_Some_insert. by exists s.
Qed.
