(* ===== verification/MemPoolTheorems.v ===== *)
(** * The memory pool: what it guarantees *)

From S2P Require Import Prelude MemPool MemPoolSlots MemPoolInv.

Section ops.
Context `{SysAllocLaws} `{HashOrder}.

Lemma got_step h pb sl s live s' p o h' :
  got h pb sl s live (s', Some (p, o)) h' ->
  heap_ok h' /\ slot_inv h' pb sl s' ((p, o) :: live) /\ pages_step h pb (s_pages s) h' (s_pages s').
Proof.
  intros (Hh & Hi & _ & [[-> ->]|(Hn & -> & ->)]); split_and!; try done; by constructor.
Qed.

(** ** Handing out a descriptor *)

Lemma hand_out h0 o o1 h h1 live ty sz s s1 p obj :
  pool_inv h0 o h live -> slot_at o ty sz = Some s -> one_slot o o1 ty sz s1 ->
  got h (page_bytes (conf o) ty sz) sz s (live_at (mem_objs o) live ty sz) (s1, Some (p, obj)) h1 ->
  wp (get_mem_object ty sz obj p) (o1, h1) (fun id st =>
    pool_inv h0 st.1 st.2 (id :: live) /\ mem_objs st.1 !! id = Some (MkObj ty sz obj p) /\
    id ∉ live /\ forall j, j ∈ live -> mem_objs st.1 !! j = mem_objs o !! j).
Proof.
  intros [Hc Hfam Hsm Hbg Hnd Hds Hnx Hob Hbk] Hs Hos Hgot. apply got_step in Hgot as (Hh1 & Hi1 & Hst).
  set (x := MkObj ty sz obj p).
  assert (forall id fr n, id ∉ live -> NoDup ((id :: live) ++ fr) -> (forall j, j ∈ fr -> is_Some (mem_objs o !! j)) ->
    id < n -> next_obj o <= n ->
    let o2 := set_descs fr (<[id := x]> (mem_objs o1)) n o1 in
    pool_inv h0 o2 h1 (id :: live) /\ mem_objs o2 !! id = Some x /\
    id ∉ live /\ forall j, j ∈ live -> mem_objs o2 !! j = mem_objs o !! j) as Hend.
  { intros id fr n Hni Hnd2 Hfr Hid Hn o2. pose proof Hos as [].
    assert (forall j, j ∈ live -> <[id := x]> (mem_objs o) !! j = mem_objs o !! j) as Hsame.
    { intros j Hj. apply lookup_insert_ne. by intros ->. }
    split_and!; [|simpl; apply lookup_insert_eq|done|simpl; by rewrite os_objs].
    split; simpl; rewrite ?os_conf, ?os_objs; try done.
    - apply (family_step h0 h h1 _ (slot_at o) (slot_at o1) (live_at (mem_objs o) live) _ ty sz s s1); try done.
      + intros ty' sz' Hne. split; [by apply os_other|].
        rewrite (live_at_cons_other _ _ id x) by (done || apply lookup_insert_eq). by apply live_at_insert.
      + change ty with (m_type x) at 2. change sz with (m_slot_size x) at 3.
        rewrite live_at_cons_same by apply lookup_insert_eq. by rewrite live_at_insert.
    - intros i. by rewrite os_small.
    - intros i. by rewrite os_big.
    - intros j [->|[Hj|Hj]%elem_of_app]%elem_of_cons.
      + by rewrite lookup_insert_eq.
      + rewrite Hsame by done. apply Hds, elem_of_app. by left.
      + destruct (decide (j = id)) as [->|]; [by rewrite lookup_insert_eq|rewrite lookup_insert_ne by done; auto].
    - intros j. destruct (decide (j = id)) as [->|]; [done|]. rewrite lookup_insert_ne by done. intros Hj%Hnx. lia.
    - intros j y [->|Hj]%elem_of_cons.
      + rewrite lookup_insert_eq. intros [= <-]. change (is_Some (slot_at o1 ty sz)). by rewrite os_at.
      + rewrite Hsame by done. intros Hy. apply (one_slot_some o o1 ty sz s s1); [done..|]. by apply (Hob j).
    - by rewrite os_bulk. }
  unfold get_mem_object. wpure. destruct Hos as [Eco Eat Eot Esm Ebg Efr Eob Enx Ebk] eqn:EE. clear EE.
  rewrite Efr. destruct (m_free_mem_objs o) as [|id fr] eqn:Ef; wpure; simpl.
  - rewrite Enx. apply Hend; [..|lia|lia].
    + intros Hin. assert (next_obj o < next_obj o); [|lia]. apply Hnx, Hds, elem_of_app. by left.
    + rewrite app_nil_r in *. constructor; [|done].
      intros Hin. assert (next_obj o < next_obj o); [|lia]. apply Hnx, Hds. by rewrite ?app_nil_r.
    + intros j. by rewrite elem_of_nil.
  - rewrite Enx. apply list.NoDup_app in Hnd as (Hnd1 & Hnd2 & Hnd3). apply list.NoDup_cons in Hnd3 as [Hnd3 Hnd4].
    apply Hend; [..|apply Hnx, Hds, elem_of_app; right; constructor|lia].
    + intros Hin. eapply Hnd2; [done|constructor].
    + simpl. constructor; [|apply list.NoDup_app; split_and!; [done| |done]].
      * rewrite not_elem_of_app. split; [|done]. intros Hin. eapply Hnd2; [done|constructor].
      * intros j Hj Hj'. eapply Hnd2; [done|by constructor].
    + intros j Hj. apply Hds, elem_of_app. right. by constructor.
Qed.

Lemma none_left h0 o o1 h h1 live ty sz s s1 :
  pool_inv h0 o h live -> slot_at o ty sz = Some s -> one_slot o o1 ty sz s1 ->
  got h (page_bytes (conf o) ty sz) sz s (live_at (mem_objs o) live ty sz) (s1, None) h1 ->
  pool_inv h0 o1 h1 live /\ forall j, j ∈ live -> mem_objs o1 !! j = mem_objs o !! j.
Proof.
  intros [Hc Hfam Hsm Hbg Hnd Hds Hnx Hob Hbk] Hs Hos (Hh1 & -> & Hp & Hi). pose proof Hos as [].
  split; [|by rewrite os_objs].
  split; rewrite ?os_conf, ?os_objs, ?os_free, ?os_next, ?os_bulk; try done.
  - eapply family_step; [done..| | |done|done|rewrite Hp; constructor]; [done|].
    intros ty' sz' Hne. split; [by apply os_other|done].
  - intros i. by rewrite os_small.
  - intros i. by rewrite os_big.
  - intros j y Hj Hy. eapply one_slot_some; [done..|]. by eapply Hob.
Qed.

(** What [Get] promises. *)
Definition get_post (h0 : heap) (o : MemPool) (live : list Z) (size : Z) (r : option Z) (st : MemPool * heap) : Prop :=
  match r with
  | None => pool_inv h0 st.1 st.2 live
  | Some id => pool_inv h0 st.1 st.2 (id :: live) /\ id ∉ live /\
      exists x, mem_objs st.1 !! id = Some x /\ size <= m_slot_size x
  end /\ forall j, j ∈ live -> mem_objs st.1 !! j = mem_objs o !! j.

Lemma get_slot_spec ty get set foot e size sz h0 o h live s :
  pool_inv h0 o h live -> sz = roundup_to_the_next_highest_multiple_of_exponent2 size e -> size <= sz -> 0 < foot ->
  get o !! (sz / foot) = Some s -> slot_at o ty sz = Some s ->
  (forall s', one_slot o (set (<[sz / foot := s']> (get o)) o) ty sz s') -> ty <> Tiny ->
  wp (get_slot ty get set foot e size) (o, h) (get_post h0 o live size).
Proof.
  intros Hinv -> Hle Hf Hg Hs Hos Hty. set (sz := roundup_to_the_next_highest_multiple_of_exponent2 size e) in *.
  unfold get_slot, convert_slot_obj_size_to_slot_idx, udiv. wpure. fold sz.
  destruct (Z.eqb_spec foot 0); [lia|]. wpure. rewrite Hg. simpl of_mem. wpure. wlift.
  pose proof Hinv as [Hc Hfam _ _ _ _ _ _ _].
  replace (gen_expand_slot_page_size _ _ _) with (page_bytes (conf o) ty sz) by (by destruct ty).
  eapply wp_mono; [apply slot_get_spec; [apply Hfam|by apply Hfam]|].
  intros [s1 [[p obj]|]] h1 Hgot; simpl; wpure.
  - wbind. eapply wp_mono; [by eapply hand_out|]. intros id [o2 h2] (Hi & Hx & Hni & Hsame). wpure.
    split; [|done]. split_and!; [done..|]. eauto.
  - eapply none_left in Hgot as [Hi Hsame]; [|done..]. done.
Qed.

Lemma get_tiny_spec size h0 o h live :
  pool_inv h0 o h live -> size <= 16 -> wp get_tiny (o, h) (get_post h0 o live size).
Proof.
  intros Hinv Hle. pose proof Hinv as [Hc Hfam _ _ _ _ _ _ _]. unfold get_tiny. wpure. wlift.
  assert (slot_at o Tiny (m_tiny_obj_threshold (conf o)) = Some (m_tiny o)) as Hs by (simpl; by rewrite decide_True).
  eapply wp_mono; [apply (slot_get_spec _ _ _ _ _ _ (fm_heap _ _ _ _ _ Hfam) (fm_slot _ _ _ _ _ Hfam _ _ _ Hs))|].
  intros [s1 [[p obj]|]] h1 Hgot; simpl; wpure.
  - wbind. eapply wp_mono; [eapply hand_out; [done|done|apply one_slot_tiny|done]|].
    intros id [o2 h2] (Hi & Hx & Hni & Hsame). wpure.
    split; [|done]. split_and!; [done..|]. eexists. split; [done|]. simpl. by rewrite (sc_tiny _ Hc).
  - eapply none_left in Hgot as [Hi Hsame]; [|done|done|apply one_slot_tiny]. done.
Qed.

Lemma multiple_bounds size n : 0 < n -> 0 < size ->
  let sz := (size + n - 1) / n * n in size <= sz < size + n /\ sz mod n = 0 /\ 1 <= sz / n.
Proof.
  intros Hn Hs. cbv zeta. pose proof (Z.div_mod (size + n - 1) n ltac:(lia)).
  pose proof (Z.mod_pos_bound (size + n - 1) n Hn). rewrite Z.div_mul, Z.mod_mul by lia.
  split_and!; [lia|lia|done|]. apply Z.div_le_lower_bound; lia.
Qed.

Lemma mp_Get_spec size h0 o h live :
  pool_inv h0 o h live -> 0 < size <= 131072 -> wp (Get size) (o, h) (get_post h0 o live size).
Proof.
  intros Hinv Hsize. pose proof Hinv as [Hc _ Hsm Hbg _ _ _ _ _]. pose proof (page_range _ Hc) as Hpr.
  pose proof (page_divides _ Hc) as Hpd. pose proof Hc as [Hexp Hpage Hfoot Hsexp Htiny Hbig Hbulk Hfac].
  unfold Get. destruct (Z.leb_spec size 0); [lia|]. wpure. rewrite Htiny, Hbulk, Hbig.
  destruct (Z.leb_spec size 16); [by apply get_tiny_spec|]. destruct (Z.leb_spec size 131072); [|lia].
  destruct (Z.ltb_spec (m_sys_page_size (conf o)) size).
  - pose proof (multiple_bounds size (m_sys_page_size (conf o)) ltac:(lia) ltac:(lia)) as (Hb & Hz & Hone).
    set (sz := (size + _ - 1) / _ * _) in *.
    assert (roundup_to_the_next_highest_multiple_of_exponent2 size (m_big_obj_slot_footstep_exponent (conf o)) = sz) as Hr.
    { unfold sz. rewrite Hpage. apply roundup_spec; [lia..|]. rewrite <- Hpage. lia. }
    assert (sz / m_sys_page_size (conf o) <= 131072 / m_sys_page_size (conf o)) as Hidx.
    { pose proof (Z.div_mod sz (m_sys_page_size (conf o)) ltac:(lia)).
      assert (m_sys_page_size (conf o) * (sz / m_sys_page_size (conf o)) <
        m_sys_page_size (conf o) * (131072 / m_sys_page_size (conf o) + 1)); [lia|].
      apply Z.lt_succ_r. nia. }
    assert (is_Some (m_big o !! (sz / m_sys_page_size (conf o)))) as [s Hs] by (apply Hbg; lia).
    assert (slot_at o Big sz = Some s) as Hsa by (simpl; by rewrite decide_True).
    apply (get_slot_spec _ _ _ _ _ _ sz _ _ _ _ s); try done; [lia|lia|].
    intros s'. apply (one_slot_big _ _ s); [lia|done].
  - pose proof (multiple_bounds size 32 ltac:(lia) ltac:(lia)) as (Hb & Hz & Hone).
    set (sz := (size + _ - 1) / _ * _) in *. rewrite Hfoot, Hsexp.
    assert (roundup_to_the_next_highest_multiple_of_exponent2 size 5 = sz) as Hr.
    { apply roundup_spec; [lia..|]. change (2 ^ 5) with 32. lia. }
    assert (sz / 32 <= m_sys_page_size (conf o) / 32) as Hidx.
    { assert (m_sys_page_size (conf o) mod 32 = 0) as Hpm.
      { rewrite Hpage. replace (m_big_obj_slot_footstep_exponent (conf o)) with (m_big_obj_slot_footstep_exponent (conf o) - 5 + 5) by lia.
        rewrite Z.pow_add_r by lia. change (2 ^ 5) with 32. apply Z.mod_mul. lia. }
      pose proof (Z.div_mod sz 32 ltac:(lia)). pose proof (Z.div_mod (m_sys_page_size (conf o)) 32 ltac:(lia)). lia. }
    assert (is_Some (m_small o !! (sz / 32))) as [s Hs] by (apply Hsm; lia).
    assert (slot_at o Small sz = Some s) as Hsa by (simpl; by rewrite decide_True).
    apply (get_slot_spec _ _ _ _ _ _ sz _ _ _ _ s); try done; [lia|].
    intros s'. by apply (one_slot_small _ _ s).
Qed.

(** ** Taking a descriptor back *)

Lemma take_back h0 o o1 h h1 live id x s s1 :
  pool_inv h0 o h (id :: live) -> mem_objs o !! id = Some x -> slot_at o (m_type x) (m_slot_size x) = Some s ->
  one_slot o o1 (m_type x) (m_slot_size x) s1 ->
  heap_ok h1 -> slot_inv h1 (page_bytes (conf o) (m_type x) (m_slot_size x)) (m_slot_size x) s1
    (live_at (mem_objs o) live (m_type x) (m_slot_size x)) ->
  (h1 = h /\ s_pages s1 = s_pages s) \/ (exists q, q ∈ s_pages s /\ h1 = delete q h /\ s_pages s1 = s_pages s ∖ {[q]}) ->
  pool_inv h0 (set_descs (m_free_mem_objs o1 ++ [id]) (mem_objs o1) (next_obj o1) o1) h1 live.
Proof.
  intros [Hc Hfam Hsm Hbg Hnd Hds Hnx Hob Hbk] Hx Hs Hos Hh1 Hi1 Hst. pose proof Hos as [].
  assert (live ++ m_free_mem_objs o ++ [id] ≡ₚ (id :: live) ++ m_free_mem_objs o) as Hperm.
  { simpl. rewrite app_assoc. by rewrite Permutation_app_comm. }
  split; simpl; rewrite ?os_conf, ?os_objs, ?os_free, ?os_next, ?os_bulk; try done.
  - apply (family_step h0 h h1 _ (slot_at o) (slot_at o1) (live_at (mem_objs o) (id :: live)) _
      (m_type x) (m_slot_size x) s s1); try done.
    + intros ty' sz' Hne. split; [by apply os_other|]. by rewrite (live_at_cons_other _ _ id x).
    + destruct Hst as [[-> ->]|(q & Hq & -> & ->)]; by constructor.
  - intros i. by rewrite os_small.
  - intros i. by rewrite os_big.
  - by rewrite Hperm.
  - intros j. rewrite Hperm. apply Hds.
  - intros j y Hj Hy. apply (one_slot_some o o1 (m_type x) (m_slot_size x) s s1); [done..|]. eapply Hob; [by constructor|done].
Qed.

(** What [Put] promises of an object in use. *)
Lemma mp_Put_spec id h0 o h live :
  pool_inv h0 o h (id :: live) ->
  wp (Put (Some id)) (o, h) (fun _ st => pool_inv h0 st.1 st.2 live /\ mem_objs st.1 = mem_objs o).
Proof.
  intros Hinv. pose proof Hinv as [Hc Hfam Hsm Hbg Hnd Hds Hnx Hob Hbk].
  destruct (Hds id) as [x Hx]; [simpl; constructor|].
  destruct (Hob id x ltac:(constructor) Hx) as [s Hs].
  pose proof (fm_slot _ _ _ _ _ Hfam _ _ _ Hs) as Hi. rewrite live_at_cons_same in Hi by done.
  pose proof (si_size _ _ _ _ _ Hi) as Hsz.
  pose proof (fm_heap _ _ _ _ _ Hfam) as Hh. pose proof (page_range _ Hc) as Hpr.
  unfold Put. wpure. rewrite Hx. simpl of_mem. wpure. wbind.
  destruct x as [ty sz obj page]. simpl in *. unfold put. wpure.
  assert (forall o1 s1 h1, one_slot o o1 ty sz s1 -> heap_ok h1 /\
    slot_inv h1 (page_bytes (conf o) ty sz) sz s1 (live_at (mem_objs o) live ty sz) /\
    ((h1 = h /\ s_pages s1 = s_pages s) \/ (exists q, q ∈ s_pages s /\ h1 = delete q h /\ s_pages s1 = s_pages s ∖ {[q]})) ->
    wp (modO (fun o => set_descs (m_free_mem_objs o ++ [id]) (mem_objs o) (next_obj o) o)) (o1, h1)
      (fun _ st => pool_inv h0 st.1 st.2 live /\ mem_objs st.1 = mem_objs o)) as Hend.
  { intros o1 s1 h1 Hos (Hh1 & Hi1 & Hst). wpure. split; [|apply Hos].
    exact (take_back h0 o o1 h h1 live id (MkObj ty sz obj page) s s1 Hinv Hx Hs Hos Hh1 Hi1 Hst). }
  destruct ty; [| | |done].
  - unfold put_tiny, udiv. wpure. simpl in Hs. destruct (decide (sz = _)) as [->|]; [|done]. injection Hs as <-.
    destruct (Z.eqb_spec (m_tiny_obj_threshold (conf o)) 0); [lia|]. wpure. wlift.
    eapply wp_mono; [by eapply (slot_put_spec h (m_sys_page_size (conf o)))|]. intros s1 h1 Hput. wpure.
    eapply Hend; [apply one_slot_tiny|done].
  - unfold put_slot, convert_slot_obj_size_to_slot_idx, udiv. wpure. rewrite (sc_foot _ Hc). simpl. wpure.
    pose proof (one_slot_small o sz s) as Hos. simpl in Hs, Hos. destruct (decide (sz mod 32 = 0)); [|done].
    rewrite Hs. simpl of_mem. wpure. destruct (Z.eqb_spec sz 0); [lia|]. wpure. wlift.
    eapply wp_mono; [by eapply slot_put_spec|]. intros s1 h1 Hput. wpure. eapply Hend; [by apply Hos|done].
  - unfold put_slot, convert_slot_obj_size_to_slot_idx, udiv. wpure.
    destruct (Z.eqb_spec (m_sys_page_size (conf o)) 0); [lia|]. wpure.
    pose proof (one_slot_big o sz s) as Hos. simpl in Hs, Hos. destruct (decide (sz mod _ = 0)); [|done].
    rewrite Hs. simpl of_mem. wpure. destruct (Z.eqb_spec sz 0); [lia|]. wpure. wlift.
    eapply wp_mono; [by eapply slot_put_spec|]. intros s1 h1 Hput. wpure. eapply Hend; [by apply Hos; [lia|]|done].
Qed.
End ops.

(** ** The objects in use do not overlap *)

Section live.
Context (h0 : heap) (o : MemPool) (h : heap) (live : list Z) (Hinv : pool_inv h0 o h live).

Definition mem_end (x : MemObject) : Z := m_obj_pv x + m_slot_size x.

(** Where an object in use lies: an object of a page of its slot. *)
Lemma live_in_page id x :
  id ∈ live -> mem_objs o !! id = Some x ->
  exists s, slot_at o (m_type x) (m_slot_size x) = Some s /\ m_obj_page_pv x ∈ s_pages s /\ 0 < m_slot_size x /\
    h !! m_obj_page_pv x = Some (page_bytes (conf o) (m_type x) (m_slot_size x)) /\
    exists i : nat, Z.of_nat i < page_bytes (conf o) (m_type x) (m_slot_size x) / m_slot_size x /\
      m_obj_pv x = m_obj_page_pv x + m_slot_size x * Z.of_nat i.
Proof.
  intros Hin Hx. destruct Hinv as [_ Hfam _ _ _ _ _ Hob _]. destruct (Hob _ _ Hin Hx) as [s Hs].
  exists s. pose proof (fm_slot _ _ _ _ _ Hfam _ _ _ Hs) as [Hsz Hpg _ Hpart Hl _].
  assert ((m_obj_page_pv x, m_obj_pv x) ∈ live_at (mem_objs o) live (m_type x) (m_slot_size x)) as Hat.
  { apply list_elem_of_omap. exists id. split; [done|]. unfold at_slot. rewrite Hx. simpl. by rewrite decide_True. }
  pose proof (Hl _ Hat) as Hp. simpl in Hp. split_and!; [done..|lia|by apply Hpg|].
  assert (m_obj_pv x ∈ split (m_slot_size x) (m_obj_page_pv x)
    (Z.to_nat (page_bytes (conf o) (m_type x) (m_slot_size x) / m_slot_size x))) as Ho.
  { rewrite <- (Hpart _ Hp). apply elem_of_app. right. apply list_elem_of_omap.
    exists (m_obj_page_pv x, m_obj_pv x). split; [done|]. simpl. by rewrite decide_True. }
  apply elem_of_split in Ho as (i & Hi & ->). exists i. split; [|done].
  assert (0 <= page_bytes (conf o) (m_type x) (m_slot_size x) / m_slot_size x) by (apply Z.div_pos; lia). lia.
Qed.

Lemma live_placed id x :
  id ∈ live -> mem_objs o !! id = Some x ->
  exists p n, h !! p = Some n /\ h0 !! p = None /\ 0 < p /\ p <= m_obj_pv x /\ mem_end x <= p + n.
Proof.
  intros Hin Hx. destruct (live_in_page id x Hin Hx) as (s & Hs & Hp & Hpos & Hh & i & Hi & Ho).
  destruct Hinv as [_ Hfam _ _ _ _ _ _ _]. exists (m_obj_page_pv x), (page_bytes (conf o) (m_type x) (m_slot_size x)).
  pose proof (ho_block _ (fm_heap _ _ _ _ _ Hfam) _ _ Hh) as (? & ? & ?).
  split_and!; [done|by eapply fm_base|done|nia|]. unfold mem_end. rewrite Ho.
  pose proof (Z.mul_div_le (page_bytes (conf o) (m_type x) (m_slot_size x)) (m_slot_size x) Hpos). nia.
Qed.

Lemma live_disjoint i j x y :
  i ∈ live -> j ∈ live -> i <> j -> mem_objs o !! i = Some x -> mem_objs o !! j = Some y ->
  mem_end x <= m_obj_pv y \/ mem_end y <= m_obj_pv x.
Proof.
  intros Hi Hj Hne Hx Hy.
  destruct (live_in_page i x Hi Hx) as (s & Hs & Hp & Hpos & Hh & a & Ha & Hox).
  destruct (live_in_page j y Hj Hy) as (s' & Hs' & Hp' & Hpos' & Hh' & b & Hb & Hoy).
  destruct Hinv as [_ Hfam _ _ Hnd _ _ _ _].
  pose proof (Z.mul_div_le (page_bytes (conf o) (m_type x) (m_slot_size x)) (m_slot_size x) Hpos).
  pose proof (Z.mul_div_le (page_bytes (conf o) (m_type y) (m_slot_size y)) (m_slot_size y) Hpos').
  unfold mem_end. destruct (decide (m_obj_page_pv x = m_obj_page_pv y)) as [E|E].
  - rewrite E in Hp. destruct (fm_own _ _ _ _ _ Hfam _ _ _ _ _ _ _ Hs Hs' Hp Hp') as [Ety Esz].
    rewrite Hox, Hoy, E, Esz. assert (a <> b) as Hab; [|nia]. intros <-.
    (* both ids at the same place: the page would hold the object twice *)
    apply list.NoDup_app in Hnd as (Hnd & _ & _).
    apply elem_of_Permutation in Hi as [rest Hrest].
    assert (j ∈ rest) as Hj2 by (rewrite Hrest in Hj; apply elem_of_cons in Hj as [->|?]; [done|done]).
    apply elem_of_Permutation in Hj2 as [rest2 Hrest2]. rewrite Hrest2 in Hrest.
    pose proof (si_part _ _ _ _ _ (fm_slot _ _ _ _ _ Hfam _ _ _ Hs) (m_obj_page_pv y) Hp) as Hpart.
    rewrite Hrest, (live_at_cons_same _ _ i x Hx), Ety, Esz, (live_at_cons_same _ _ j y Hy), E, !on_cons_same in Hpart.
    assert (m_obj_pv x = m_obj_pv y) as Eo by (rewrite Hox, Hoy, E, Esz; done). rewrite Eo in Hpart.
    assert (NoDup (default [] (objs (s_free s) !! m_obj_page_pv y) ++ m_obj_pv y :: m_obj_pv y ::
      on (m_obj_page_pv y) (live_at (mem_objs o) rest2 (m_type y) (m_slot_size y)))) as Hdup.
    { rewrite Hpart. apply split_NoDup. lia. }
    apply list.NoDup_app in Hdup as (_ & _ & Hdup). apply list.NoDup_cons in Hdup as [Hdup _].
    apply Hdup. constructor.
  - pose proof (ho_disj _ (fm_heap _ _ _ _ _ Hfam) _ _ _ _ Hh Hh' E). nia.
Qed.
End live.

(** ** A new pool *)

Lemma slots_upto_lookup n i s : 0 <= n -> slots_upto n !! i = Some s <-> s = empty_slot /\ 1 <= i <= n.
Proof.
  intros Hn. unfold slots_upto. rewrite <- elem_of_list_to_map.
  - rewrite list_elem_of_fmap. split.
    + intros (k & [= -> ->] & Hk). apply elem_of_seq in Hk. split; [done|lia].
    + intros [-> Hi]. exists (Z.to_nat i). rewrite elem_of_seq. split; [f_equal|]; lia.
  - rewrite <- list_fmap_compose. apply NoDup_fmap_2_strong; [|apply NoDup_seq]. simpl. lia.
Qed.

Lemma slots_upto_some n i : 0 <= n -> is_Some (slots_upto n !! i) <-> 1 <= i <= n.
Proof.
  intros Hn. split.
  - intros [s Hs]. apply (slots_upto_lookup _ _ _ Hn) in Hs. apply Hs.
  - intros Hi. exists empty_slot. by apply slots_upto_lookup.
Qed.

Lemma new_pool_inv e nprocs junk torc sorc borc h0 :
  5 <= e <= 17 -> heap_ok h0 ->
  pool_inv h0 (MemPool_make (2 ^ e) nprocs junk torc sorc borc 16 (2 ^ e) 131072) h0 [].
Proof.
  intros He Hh. set (o := MemPool_make _ _ _ _ _ _ _ _ _).
  assert (std_conf (conf o)) as Hc by (split; simpl; rewrite ?Z.log2_pow2 by lia; done || lia).
  pose proof (page_range _ Hc) as Hpr. change (m_sys_page_size (conf o)) with (2 ^ e) in Hpr.
  assert (0 <= 2 ^ e / 32) by (apply Z.div_pos; lia). assert (0 <= 131072 / 2 ^ e) by (apply Z.div_pos; lia).
  assert (forall ty sz s, slot_at o ty sz = Some s -> s_pages s = ∅ /\ slot_inv h0 (page_bytes (conf o) ty sz) sz s []) as Hempty.
  { intros [] sz s; simpl; unfold DEFAULT_SMALL_OBJECT_SLOT_FOOTSTEP, DEFAULT_EXPAND_OBJ_CNT_FACTOR; [| | |done].
    - destruct (decide _) as [->|]; [|done]. intros [= <-]. split; [done|]. apply empty_slot_inv; lia.
    - destruct (decide (sz mod 32 = 0)); [|done]. intros [-> Hi]%slots_upto_lookup; [|lia]. split; [done|].
      assert (0 < sz <= 131072) as Hsz.
      { pose proof (Z.div_mod sz 32 ltac:(lia)). pose proof (Z.mul_div_le (2 ^ e) 32 ltac:(lia)). lia. }
      destruct (expand_spec sz (2 ^ e) Hsz ltac:(lia)). apply empty_slot_inv; [lia|done].
    - destruct (decide (sz mod 2 ^ e = 0)); [|done]. intros [-> Hi]%slots_upto_lookup; [|lia]. split; [done|].
      assert (0 < sz <= 131072) as Hsz.
      { pose proof (Z.div_mod sz (2 ^ e) ltac:(lia)). pose proof (Z.mul_div_le 131072 (2 ^ e) ltac:(lia)). nia. }
      destruct (expand_spec sz (2 ^ e) Hsz ltac:(lia)). apply empty_slot_inv; [lia|done]. }
  split; try done.
  - split; [done|..].
    + intros ty sz s Hs. by apply Hempty.
    + intros ty sz s ty' sz' s' p Hs _ Hp. destruct (Hempty _ _ _ Hs) as [E _]. rewrite E in Hp. set_solver.
    + intros ty sz s p Hs Hp. destruct (Hempty _ _ _ Hs) as [E _]. rewrite E in Hp. set_solver.
    + done.
    + intros p n Hp. by left.
  - intros i. by apply slots_upto_some.
  - intros i. by apply slots_upto_some.
  - constructor.
  - intros id. simpl. by rewrite elem_of_nil.
  - intros id. simpl. rewrite lookup_empty. by intros [].
Qed.

(** ** The destructor *)

Definition cut (ps : list Z) (h : heap) : heap := filter (fun x => x.1 ∉ ps) h.

Lemma cut_lookup ps h q n : cut ps h !! q = Some n <-> h !! q = Some n /\ q ∉ ps.
Proof. unfold cut. by rewrite map_lookup_filter_Some. Qed.

Lemma free_all_spec ps h :
  NoDup ps -> (forall p, p ∈ ps -> is_Some (h !! p)) ->
  wp (free_all ps) h (fun _ h' => h' = cut ps h).
Proof.
  intros Hnd. revert h. induction Hnd as [|p ps Hp Hnd IH]; intros h Hin; simpl.
  { wpure. unfold cut. symmetry. apply map_filter_id. intros. apply not_elem_of_nil. }
  destruct (Hin p) as [n Hn]; [constructor|]. wbind.
  eapply (wp_eq _ _ tt); [unfold sys_free; by rewrite Hn|]. eapply wp_mono; [apply IH|].
  - intros q Hq. rewrite lookup_delete_ne by (by intros ->). apply Hin. by constructor.
  - intros _ ? ->. apply map_eq_iff. intros q. apply option_eq. intros k.
    rewrite !cut_lookup, lookup_delete_Some, not_elem_of_cons. naive_solver.
Qed.

Lemma elem_of_slot_pages (m : gmap Z slot) p :
  p ∈ slot_pages m <-> exists i s, m !! i = Some s /\ p ∈ s_pages s.
Proof.
  unfold slot_pages. rewrite list_elem_of_bind. split.
  - intros ([i s] & Hp & Hin). exists i, s. rewrite elem_of_map_to_list in Hin. simpl in Hp.
    by rewrite elem_of_elements in Hp.
  - intros (i & s & Hs & Hp). exists (i, s). split; [by apply elem_of_elements|by apply elem_of_map_to_list].
Qed.

Lemma NoDup_slot_pages (m : gmap Z slot) :
  (forall i j s t p, m !! i = Some s -> m !! j = Some t -> p ∈ s_pages s -> p ∈ s_pages t -> i = j) ->
  NoDup (slot_pages m).
Proof.
  intros Hd. apply NoDup_bind.
  - intros [i s] [j t'] p Hi Hj Hp Hq. apply elem_of_map_to_list in Hi, Hj.
    apply elem_of_elements in Hp, Hq. simpl in *.
    assert (i = j) as -> by (by eapply Hd). congruence.
  - intros [i s] _. apply NoDup_elements.
  - apply NoDup_map_to_list.
Qed.

Section destroy.
Context (h0 : heap) (o : MemPool) (h : heap) (live : list Z) (Hinv : pool_inv h0 o h live).

(** Each slot of a map is one of the family. *)
Lemma small_at i s : m_small o !! i = Some s -> slot_at o Small (i * 32) = Some s.
Proof. intros Hs. simpl. rewrite Z.mod_mul, Z.div_mul by lia. by rewrite decide_True. Qed.

Lemma big_at i s : m_big o !! i = Some s -> slot_at o Big (i * m_sys_page_size (conf o)) = Some s.
Proof.
  intros Hs. pose proof (page_range _ (pv_conf _ _ _ _ Hinv)). simpl.
  rewrite Z.mod_mul, Z.div_mul by lia. by rewrite decide_True.
Qed.

Lemma tiny_at : slot_at o Tiny (m_tiny_obj_threshold (conf o)) = Some (m_tiny o).
Proof. simpl. by rewrite decide_True. Qed.

Definition pool_pages : list Z := elements (s_pages (m_tiny o)) ++ slot_pages (m_small o) ++ slot_pages (m_big o).

Lemma elem_of_pool_pages p :
  p ∈ pool_pages <-> exists ty sz s, slot_at o ty sz = Some s /\ p ∈ s_pages s.
Proof.
  unfold pool_pages. rewrite !elem_of_app, !elem_of_slot_pages, elem_of_elements. split.
  - intros [Hp|[(i & s & Hs & Hp)|(i & s & Hs & Hp)]].
    + exists Tiny, (m_tiny_obj_threshold (conf o)), (m_tiny o). split; [apply tiny_at|done].
    + exists Small, (i * 32), s. split; [by apply small_at|done].
    + exists Big, (i * m_sys_page_size (conf o)), s. split; [by apply big_at|done].
  - intros ([] & sz & s & Hs & Hp); simpl in Hs; [| | |done]; (destruct (decide _); [|done]).
    + injection Hs as <-. by left.
    + right. left. eauto.
    + right. right. eauto.
Qed.

Lemma NoDup_pool_pages : NoDup pool_pages.
Proof.
  pose proof (pv_fam _ _ _ _ Hinv) as Hfam. pose proof (page_range _ (pv_conf _ _ _ _ Hinv)) as Hpr.
  assert (forall ty sz s ty' sz' s' p, slot_at o ty sz = Some s -> slot_at o ty' sz' = Some s' ->
    p ∈ s_pages s -> p ∈ s_pages s' -> ty = ty' /\ sz = sz') as Hown by apply Hfam.
  unfold pool_pages. rewrite !list.NoDup_app. split_and!.
  - apply NoDup_elements.
  - intros p Hp%elem_of_elements [(i & s & Hs & Hq)%elem_of_slot_pages|(i & s & Hs & Hq)%elem_of_slot_pages]%elem_of_app.
    + by destruct (Hown _ _ _ _ _ _ _ tiny_at (small_at _ _ Hs) Hp Hq).
    + by destruct (Hown _ _ _ _ _ _ _ tiny_at (big_at _ _ Hs) Hp Hq).
  - apply NoDup_slot_pages. intros i j s t' p Hs Ht Hp Hq.
    destruct (Hown _ _ _ _ _ _ _ (small_at _ _ Hs) (small_at _ _ Ht) Hp Hq). lia.
  - intros p (i & s & Hs & Hp)%elem_of_slot_pages (j & t' & Ht & Hq)%elem_of_slot_pages.
    by destruct (Hown _ _ _ _ _ _ _ (small_at _ _ Hs) (big_at _ _ Ht) Hp Hq).
  - apply NoDup_slot_pages. intros i j s t' p Hs Ht Hp Hq.
    destruct (Hown _ _ _ _ _ _ _ (big_at _ _ Hs) (big_at _ _ Ht) Hp Hq). nia.
Qed.

Lemma free_all_app ps qs h1 Q : wp (free_all (ps ++ qs)) h1 Q -> wp (free_all ps) h1 (fun _ h2 => wp (free_all qs) h2 (fun _ => Q tt)).
Proof.
  revert h1. induction ps as [|p ps IH]; intros h1 Hw; simpl in *.
  - wpure. eapply wp_mono; [exact Hw|]. by intros [] ?.
  - wbind. unfold wp, wpc, mbind, M_bind in Hw |- *. destruct (sys_free p h1) as [[[]|] h2]; [|done].
    by apply IH.
Qed.

(** The destructor gives every page back, once, and nothing else. *)
Lemma destroy_spec : wp MemPool_destroy (o, h) (fun _ st => st.2 = h0).
Proof.
  pose proof (pv_fam _ _ _ _ Hinv) as Hfam.
  assert (wp (free_all pool_pages) h (fun _ h' => h' = h0)) as Hall.
  { eapply wp_mono; [apply free_all_spec; [apply NoDup_pool_pages|]|].
    - intros p (ty & sz & s & Hs & Hp)%elem_of_pool_pages.
      rewrite (si_pages _ _ _ _ _ (fm_slot _ _ _ _ _ Hfam _ _ _ Hs) _ Hp). done.
    - intros _ ? ->. apply map_eq_iff. intros q. apply option_eq. intros n.
      rewrite cut_lookup, elem_of_pool_pages. split.
      + intros [Hq Hn]. destruct (fm_all _ _ _ _ _ Hfam _ _ Hq) as [?|?]; [done|by destruct Hn].
      + intros Hq. split; [by eapply fm_keep|]. intros (ty & sz & s & Hs & Hp).
        by rewrite (fm_base _ _ _ _ _ Hfam _ _ _ _ Hs Hp) in Hq. }
  unfold pool_pages in Hall. apply free_all_app in Hall.
  unfold MemPool_destroy. wpure. wlift. eapply wp_mono; [exact Hall|]. intros [] h1 Hall2. cbn beta in Hall2.
  apply free_all_app in Hall2. wlift. eapply wp_mono; [exact Hall2|]. intros [] h2 Hall3. cbn beta in Hall3.
  wlift. eapply wp_mono; [exact Hall3|]. intros [] h3 ->.
  apply wp_io. rewrite (pv_bulk _ _ _ _ Hinv), map_to_list_empty. simpl. by wpure.
Qed.
End destroy.

(** ** Clients of the pool *)

Inductive mem_op := OGet (size : Z) | OPut (k : nat).

Section session.
Context `{SysAlloc} `{HashOrder}.

(** A client that asks for memory and gives back the [k]-th object it holds; the
    objects are kept with the size that was asked for. *)
Fixpoint session (ops : list mem_op) (held : list (Z * Z)) : PM (list (Z * Z)) :=
  match ops with
  | [] => mret held
  | OGet size :: ops =>
      r ← Get size;
      session ops (match r with Some id => (id, size) :: held | None => held end)
  | OPut k :: ops =>
      match held !! k with
      | Some (id, _) => Put (Some id);; session ops (delete k held)
      | None => session ops held
      end
  end.
End session.

Definition op_ok (op : mem_op) : Prop := match op with OGet size => 0 < size <= 131072 | OPut _ => True end.

(** Every object held is at least as large as was asked for. *)
Definition sized (o : MemPool) (held : list (Z * Z)) : Prop :=
  forall id size, (id, size) ∈ held -> exists x, mem_objs o !! id = Some x /\ size <= m_slot_size x.

Lemma session_spec `{SysAllocLaws} `{HashOrder} h0 ops : forall o h held,
  Forall op_ok ops -> pool_inv h0 o h held.*1 -> sized o held ->
  wp (session ops held) (o, h) (fun held' st => pool_inv h0 st.1 st.2 held'.*1 /\ sized st.1 held').
Proof.
  induction ops as [|[size|k] ops IH]; intros o h held Hops Hinv Hsz; simpl; [by wpure|..];
    apply Forall_cons_1 in Hops as [Hop Hops].
  - wbind. eapply wp_mono; [by apply mp_Get_spec|]. intros [id|] [o1 h1] [Hg Hsame]; simpl in *.
    + destruct Hg as (Hi & Hni & x & Hx & Hle). apply IH; [done..|].
      intros j n [[= -> ->]|Hj]%elem_of_cons; [by exists x|].
      destruct (Hsz _ _ Hj) as (y & Hy & Hn). exists y. rewrite Hsame; [done|].
      apply list_elem_of_fmap. by exists (j, n).
    + apply IH; [done..|]. intros j n Hj. destruct (Hsz _ _ Hj) as (y & Hy & Hn). exists y. rewrite Hsame; [done|].
      apply list_elem_of_fmap. by exists (j, n).
  - destruct (held !! k) as [[id n]|] eqn:Hk; [|by apply IH].
    pose proof (delete_Permutation _ _ _ Hk) as Hperm. wbind.
    assert (pool_inv h0 o h (id :: (delete k held).*1)) as Hinv2.
    { eapply pool_inv_perm; [|exact Hinv]. exact (fmap_Permutation fst _ _ Hperm). }
    eapply wp_mono; [by apply mp_Put_spec|]. intros _ [o1 h1] [Hi Hmo]. simpl in *. apply IH; [done..|].
    intros j m Hj. rewrite Hmo. apply Hsz. apply (list_elem_of_delete_inv _ _ _ Hj).
Qed.

(** ** The theorems *)

Section pool_theorems.
Context `{SysAllocLaws} `{HashOrder}.

(** C25 mp_safe: a client of a new pool that asks for up to 128 KiB at a time, and
    gives back what it holds in any order, always gets its answers: no operation is
    undefined or aborts, whatever the order of the hash tables.  At any time every
    object it holds lies inside one block of the system allocator that was not there
    before the pool, is at least as large as was asked for, and overlaps no other
    object it holds; the blocks of others are untouched. *)
Theorem mp_safe (e nprocs junk torc sorc borc : Z) (h0 : heap) (ops : list mem_op)
    (He : 5 <= e <= 17) (Hh : heap_ok h0) (Hops : Forall op_ok ops) :
  wp (session ops []) (MemPool_make (2 ^ e) nprocs junk torc sorc borc 16 (2 ^ e) 131072, h0) (fun held st =>
    (forall id size, (id, size) ∈ held -> exists x p n, mem_objs st.1 !! id = Some x /\ size <= m_slot_size x /\
      st.2 !! p = Some n /\ h0 !! p = None /\ 0 < p <= m_obj_pv x /\ m_obj_pv x + m_slot_size x <= p + n) /\
    NoDup held.*1 /\
    (forall i j x y, i ∈ held.*1 -> j ∈ held.*1 -> i <> j -> mem_objs st.1 !! i = Some x -> mem_objs st.1 !! j = Some y ->
      m_obj_pv x + m_slot_size x <= m_obj_pv y \/ m_obj_pv y + m_slot_size y <= m_obj_pv x) /\
    (forall p n, h0 !! p = Some n -> st.2 !! p = Some n)).
Proof.
  eapply wp_mono; [apply (session_spec h0); [done|by apply new_pool_inv|]|].
  { intros id size Hin. by apply elem_of_nil in Hin. }
  intros held [o h] [Hinv Hsz]. simpl in *. split_and!.
  - intros id size Hin. destruct (Hsz _ _ Hin) as (x & Hx & Hle).
    destruct (live_placed h0 o h _ Hinv id x) as (p & n & Hp & Hp0 & Hpos & Hlo & Hhi); [|done|].
    { apply list_elem_of_fmap. by exists (id, size). }
    exists x, p, n. split_and!; done || lia.
  - destruct Hinv as [_ _ _ _ Hnd _ _ _ _]. by apply list.NoDup_app in Hnd as (? & _ & _).
  - intros i j x y Hi Hj Hne Hx Hy. exact (live_disjoint h0 o h _ Hinv i j x y Hi Hj Hne Hx Hy).
  - apply (pv_fam _ _ _ _ Hinv).
Qed.

End pool_theorems.

(** The shifts and masks of
    roundup_to_the_next_highest_multiple_of_exponent2 compute what its comment says:
    the least multiple of the power of two that is not below the argument, as long
    as that fits 32 bits. *)
Theorem mp_roundup (a e : Z) (He : 0 < e < 32) (Ha : 0 <= a) (Hfit : a + 2 ^ e <= 4294967296) :
  let r := roundup_to_the_next_highest_multiple_of_exponent2 a e in
  a <= r /\ r mod 2 ^ e = 0 /\ forall m, a <= m -> m mod 2 ^ e = 0 -> r <= m.
Proof.
  cbv zeta. rewrite roundup_spec by done. pose proof (Z.pow_pos_nonneg 2 e ltac:(lia) ltac:(lia)) as Hp.
  pose proof (Z.div_mod (a + 2 ^ e - 1) (2 ^ e) ltac:(lia)). pose proof (Z.mod_pos_bound (a + 2 ^ e - 1) (2 ^ e) Hp).
  split_and!; [lia|apply Z.mod_mul; lia|]. intros m Hm Hz. pose proof (Z.div_mod m (2 ^ e) ltac:(lia)) as Hd.
  assert ((a + 2 ^ e - 1) / 2 ^ e <= m / 2 ^ e); [|nia]. apply Z.lt_succ_r, Z.div_lt_upper_bound; nia.
Qed.

(** *** Witnesses: an allocator that never reuses an address *)

Section demo.

Definition heap_end (h : heap) : Z := map_fold (fun a n m => Z.max m (a + n)) 4096 h.

#[local] Instance bump : SysAlloc := {|
  posix_memalign h align size :=
    let a := heap_end h in if a + size <=? 18446744073709551616 then Some a else None |}.

Lemma heap_end_above h : 4096 <= heap_end h /\ forall a n, h !! a = Some n -> a + n <= heap_end h.
Proof.
  unfold heap_end. apply (map_fold_weak_ind (fun r h => 4096 <= r /\ forall a n, h !! a = Some n -> a + n <= r)).
  - split; [done|]. intros a n. by rewrite lookup_empty.
  - intros a n m r Hm [Hr IH]. split; [lia|]. intros b k [[<- <-]|[_ Hb]]%lookup_insert_Some; [lia|].
    apply IH in Hb. lia.
Qed.

#[local] Instance bump_laws : SysAllocLaws.
Proof.
  split. intros h align size a Hh Hs. simpl. destruct (Z.leb_spec (heap_end h + size) 18446744073709551616); [|done].
  intros [= <-]. pose proof (heap_end_above h) as [Hr Hab]. split_and!; [lia|done|]. intros b n Hb%Hab. lia.
Qed.

#[local] Program Instance list_order : HashOrder := {| keys V m := (map_to_list m).*1 |}.
Next Obligation. done. Qed.

Definition mp_demo_pool : MemPool := MemPool_make (2 ^ 12) 4 99 512 256 128 16 (2 ^ 12) 131072.
Definition mp_demo_ops : list mem_op := [OGet 10; OGet 20; OGet 5000; OPut 1; OGet 131072; OPut 0; OGet 30].

Lemma empty_heap_ok : heap_ok ∅.
Proof. split; intros *; by rewrite lookup_empty. Qed.

Lemma mp_demo_ops_ok : Forall op_ok mp_demo_ops.
Proof. repeat constructor; simpl; lia. Qed.

Lemma mp_safe_witness :
  wp (session mp_demo_ops []) (mp_demo_pool, ∅) (fun held st =>
    (forall id size, (id, size) ∈ held -> exists x p n, mem_objs st.1 !! id = Some x /\ size <= m_slot_size x /\
      st.2 !! p = Some n /\ (∅ : heap) !! p = None /\ 0 < p <= m_obj_pv x /\ m_obj_pv x + m_slot_size x <= p + n) /\
    NoDup held.*1 /\
    (forall i j x y, i ∈ held.*1 -> j ∈ held.*1 -> i <> j -> mem_objs st.1 !! i = Some x -> mem_objs st.1 !! j = Some y ->
      m_obj_pv x + m_slot_size x <= m_obj_pv y \/ m_obj_pv y + m_slot_size y <= m_obj_pv x) /\
    (forall p n, (∅ : heap) !! p = Some n -> st.2 !! p = Some n)).
Proof. apply (mp_safe 12 4 99 512 256 128 ∅ mp_demo_ops); [lia|exact empty_heap_ok|exact mp_demo_ops_ok]. Defined.


Lemma mp_roundup_witness :
  let r := roundup_to_the_next_highest_multiple_of_exponent2 5000 12 in
  5000 <= r /\ r mod 2 ^ 12 = 0 /\ forall m, 5000 <= m -> m mod 2 ^ 12 = 0 -> r <= m.
Proof. apply (mp_roundup 5000 12); lia. Defined.

Example mp_demo_held :
  fst (session mp_demo_ops [] (mp_demo_pool, ∅)) = Ok [(2, 30); (3, 5000); (1, 10)].
Proof. vm_compute. reflexivity. Qed.

(** *** The bulk class *)

(** Two objects of the same size above the reserve limit: the pages of the slot are
    forgotten by the second [Get], and giving the second object back and then the
    first looks for a slot that is gone. *)
Theorem bulk_put_undefined :
  fst (session [OGet 2000000; OGet 2000000; OPut 0; OPut 0] [] (mp_demo_pool, ∅)) = Stop Undefined.
Proof. vm_compute. reflexivity. Qed.

(** The pages a later [Get] of the same size forgets are never freed. *)
Theorem bulk_pages_leak :
  map_size (snd (snd ((session [OGet 2000000; OGet 2000000] [];; MemPool_destroy) (mp_demo_pool, ∅)))) = 1%nat.
Proof. vm_compute. reflexivity. Qed.

(** Serving a request from a larger slot whose last object it takes: the reverse
    iterator then refers to the next smaller slot, whose free objects are dropped,
    while the emptied slot stays in the hash table; the next request of its size
    reads the first object of an empty list. *)
Theorem bulk_wrong_slot_erased :
  fst (session [OGet 135168; OGet 1048576; OPut 0; OGet 600000; OGet 1048576] [] (mp_demo_pool, ∅)) = Stop Undefined.
Proof. vm_compute. reflexivity. Qed.
End demo.
