(* ===== verification/Acc.v ===== *)
(** * Admission control (src/acc)

    The token-bucket limiter, the list of limiters [SimpleRlc] puts in front of the
    requests, the request weights and the reading of the configuration from a
    parsed JSON document.  Limiters run against the machine's clock.  Signed
    overflow and a division by zero are undefined behaviour ([chk64], [cdiv],
    [crem]); the spin lock of a bucket makes each of its critical sections atomic,
    and only one thread is modelled. *)

From S2P Require Import Prelude Posix Files.

(** ** Signed 64-bit arithmetic *)

Definition in_i64 (z : Z) : bool := (-9223372036854775808 <=? z) && (z <? 9223372036854775808).
Definition chk64 {S} (z : Z) : M S Z := if in_i64 z then mret z else halt Undefined.
Definition cdiv {S} (a b : Z) : M S Z := if b =? 0 then halt Undefined else chk64 (Z.quot a b).
Definition crem {S} (a b : Z) : M S Z :=
  if (b =? 0) || negb (in_i64 (Z.quot a b)) then halt Undefined else mret (Z.rem a b).

(** ** The clock

    [t] is the current time in nanoseconds; between two calls the time moves by the
    next of [delays].  [nanosleep] suspends for its argument plus such a delay, and
    fails at once on a negative interval. *)

Record clock := MkClock { t : Z; delays : list Z }.

Definition tick (d : Z) (c : clock) : clock :=
  match delays c with
  | [] => MkClock (t c + d) []
  | x :: xs => MkClock (t c + d + x) xs
  end.

Definition get_total_nsecs : M clock Z := fun c => (Ok (t (tick 0 c)), tick 0 c).
Definition nanosleep (w : Z) : M clock unit :=
  if w <? 0 then mret tt else modS (tick w).

(** ** Requests and their weights (src/acc/rwt) *)

Inductive ReqRespType := ReqPut | ReqGet | ReqDelete | ReqScan.

#[global] Instance ReqRespType_eq_dec : EqDecision ReqRespType.
Proof. solve_decision. Defined.

Definition req_code (r : ReqRespType) : nat :=
  match r with ReqPut => 0 | ReqGet => 1 | ReqDelete => 2 | ReqScan => 3 end%nat.
Definition req_of_code (n : nat) : option ReqRespType :=
  match n with 0 => Some ReqPut | 1 => Some ReqGet | 2 => Some ReqDelete | 3 => Some ReqScan | _ => None end%nat.

#[global] Instance ReqRespType_countable : Countable ReqRespType.
Proof. refine (inj_countable req_code req_of_code _). by intros []. Defined.

Record RwtConfig := MkRwt { rwt_Put : Z; rwt_Get : Z; rwt_Delete : Z; rwt_Scan : Z }.

Definition RWT := gmap ReqRespType Z.

Definition RWT_Init (conf : RwtConfig) (table : RWT) : RWT :=
  <[ReqScan := rwt_Scan conf]> (<[ReqDelete := rwt_Delete conf]>
    (<[ReqGet := rwt_Get conf]> (<[ReqPut := rwt_Put conf]> table))).

Definition GetWeight (table : RWT) (rt : ReqRespType) : Z :=
  match table !! rt with
  | None => 1
  | Some w => w
  end.

(** ** class TokenBucketLimiter *)

Definition NANOSEC : Z := 1000000000.

Record TokenBucketLimiterConfig := MkTBConf {
  conf_Name : string; conf_Skip : bool; conf_MaxSize : Z; conf_Speed : Z; conf_Rwt : RwtConfig }.

Record TokenBucketLimiter := MkTB {
  m_lastUpdateTs : Z;
  m_tokenPerTimeUnit : Z;
  m_timeRemainder : Z;
  m_timeAccumulated : Z;
  m_pRWT : option RWT;
  m_maxResCnt : Z;
  m_currentResCount : Z;
  m_speed : Z;
  m_timeUnit : Z;
  m_sName : string;
  m_bSkipped : bool
}.

Abbreviation TM := (M (TokenBucketLimiter * clock)).

Definition set_last x o := MkTB x (m_tokenPerTimeUnit o) (m_timeRemainder o) (m_timeAccumulated o) (m_pRWT o)
  (m_maxResCnt o) (m_currentResCount o) (m_speed o) (m_timeUnit o) (m_sName o) (m_bSkipped o).
Definition set_rate p r o := MkTB (m_lastUpdateTs o) p r (m_timeAccumulated o) (m_pRWT o)
  (m_maxResCnt o) (m_currentResCount o) (m_speed o) (m_timeUnit o) (m_sName o) (m_bSkipped o).
Definition set_acc x o := MkTB (m_lastUpdateTs o) (m_tokenPerTimeUnit o) (m_timeRemainder o) x (m_pRWT o)
  (m_maxResCnt o) (m_currentResCount o) (m_speed o) (m_timeUnit o) (m_sName o) (m_bSkipped o).
Definition set_cur x o := MkTB (m_lastUpdateTs o) (m_tokenPerTimeUnit o) (m_timeRemainder o) (m_timeAccumulated o) (m_pRWT o)
  (m_maxResCnt o) x (m_speed o) (m_timeUnit o) (m_sName o) (m_bSkipped o).

(** The two constructors.  Members without an initialiser keep what the memory
    held: [junk]. *)
Definition TokenBucketLimiter_default (junk : TokenBucketLimiter) (timeUnit : Z) : TokenBucketLimiter :=
  MkTB (m_lastUpdateTs junk) (m_tokenPerTimeUnit junk) (m_timeRemainder junk) (m_timeAccumulated junk) None
    (m_maxResCnt junk) (m_currentResCount junk) (m_speed junk) timeUnit EmptyString false.

Definition now_timestamps : TM Z := io get_total_nsecs.

Definition initialize : TM unit :=
  now ← now_timestamps;
  modO (set_last now);;
  speed ← getO m_speed; unit ← getO m_timeUnit;
  q ← cdiv speed unit;
  r ← crem speed unit;
  modO (set_rate q r);;
  modO (set_acc 0);;
  modO (set_cur 0).

Definition TokenBucketLimiter_make (capacity speed timeUnit : Z) : TM unit :=
  modO (fun junk => MkTB (m_lastUpdateTs junk) (m_tokenPerTimeUnit junk) (m_timeRemainder junk)
    (m_timeAccumulated junk) None capacity (m_currentResCount junk) speed timeUnit EmptyString false);;
  initialize.

Definition TokenBucketLimiter_Init (conf : TokenBucketLimiterConfig) (o : TokenBucketLimiter) : TokenBucketLimiter :=
  MkTB (m_lastUpdateTs o) (m_tokenPerTimeUnit o) (m_timeRemainder o) (m_timeAccumulated o)
    (Some (RWT_Init (conf_Rwt conf) ∅)) (conf_MaxSize conf) (m_currentResCount o) (conf_Speed conf)
    (m_timeUnit o) (conf_Name conf) (conf_Skip conf).

Definition is_full (o : TokenBucketLimiter) : bool := m_maxResCnt o <=? m_currentResCount o.

Definition put_tokens (tokens : Z) : TM unit :=
  cur ← getO m_currentResCount;
  n ← chk64 (cur + tokens);
  modO (set_cur n);;
  full ← getO is_full;
  if full : bool then
    max ← getO m_maxResCnt;
    modO (set_cur max)
  else mret tt.

Definition calc_tokens_to_add (passedTime : Z) : TM Z :=
  per ← getO m_tokenPerTimeUnit;
  tokensToAdd ← chk64 (per * passedTime);
  rem ← getO m_timeRemainder; acc ← getO m_timeAccumulated;
  x ← chk64 (rem * passedTime);
  acc ← chk64 (acc + x);
  modO (set_acc acc);;
  unit ← getO m_timeUnit;
  if unit <=? acc then
    q ← cdiv acc unit;
    tokensToAdd ← chk64 (tokensToAdd + q);
    r ← crem acc unit;
    modO (set_acc r);;
    mret tokensToAdd
  else mret tokensToAdd.

Definition update (currentTs : Z) : TM unit :=
  last ← getO m_lastUpdateTs;
  passedTime ← chk64 (currentTs - last);
  if passedTime =? 0 then mret tt
  else
    full ← getO is_full;
    if full : bool then modO (set_last currentTs)
    else
      tokens ← calc_tokens_to_add passedTime;
      put_tokens tokens;;
      modO (set_last currentTs).

Definition consume_tokens (requiredTokenCnt : Z) : TM bool :=
  cur ← getO m_currentResCount;
  if requiredTokenCnt <=? cur then
    n ← chk64 (cur - requiredTokenCnt);
    modO (set_cur n);;
    mret true
  else mret false.

Definition update_and_consume_tokens (currentTs requiredTokenCnt : Z) : TM bool :=
  update currentTs;; consume_tokens requiredTokenCnt.

Definition cal_wait_time (tokens : Z) : TM Z :=
  unit ← getO m_timeUnit; speed ← getO m_speed;
  ticks ← chk64 (tokens * unit);
  t ← cdiv ticks speed;
  ticks ← crem ticks speed;
  t ← (if negb (ticks =? 0) then chk64 (t + 1) else mret t);
  q ← cdiv NANOSEC unit;
  chk64 (t * q).

(** The loop of [GrantUntil]; it has no bound of its own. *)
Fixpoint grant_loop (fuel : nat) (deadlineTs weight : Z) : TM bool :=
  match fuel with
  | O => halt Diverged
  | S fuel =>
      nowTs ← now_timestamps;
      if nowTs <=? deadlineTs then mret false
      else
        cur ← getO m_currentResCount;
        waitTokens ← chk64 (weight - cur);
        waitTime ← cal_wait_time waitTokens;
        s ← chk64 (deadlineTs + waitTime);
        if nowTs <=? s then mret false
        else
          io (nanosleep waitTime);;
          now ← now_timestamps;
          ok ← update_and_consume_tokens now weight;
          if ok : bool then mret true else grant_loop fuel deadlineTs weight
  end.

(** A weight above the capacity is logged with [LOG(FATAL)], which ends the
    process. *)
Definition GrantUntil (fuel : nat) (deadlineTs : Z) (type : ReqRespType) : TM bool :=
  skip ← getO m_bSkipped;
  if skip : bool then mret true
  else
    t0 ← now_timestamps;
    if t0 <=? deadlineTs then mret false
    else
      table ← getO m_pRWT;
      match table with
      | None => halt Undefined
      | Some table =>
          let weight := GetWeight table type in
          if weight =? 0 then mret true
          else
            max ← getO m_maxResCnt;
            if max <? weight then halt Aborted
            else
              now ← now_timestamps;
              ok ← update_and_consume_tokens now weight;
              if ok : bool then mret true else grant_loop fuel deadlineTs weight
      end.

Definition GiveBack (rt : ReqRespType) : TM unit :=
  skip ← getO m_bSkipped;
  if skip : bool then mret tt
  else
    table ← getO m_pRWT;
    match table with
    | None => halt Undefined
    | Some table =>
        let weight := GetWeight table rt in
        if weight =? 0 then mret tt else put_tokens weight
    end.

(** ** interface IGranter, class SimpleRlc *)

Class IGranter (G : Type) := {
  granter_GrantUntil : Z -> ReqRespType -> M (G * clock) bool;
  granter_GiveBack : ReqRespType -> M (G * clock) unit;
  granter_GetName : G -> string
}.

#[global] Instance TokenBucketLimiter_IGranter (fuel : nat) : IGranter TokenBucketLimiter := {|
  granter_GrantUntil := GrantUntil fuel;
  granter_GiveBack := GiveBack;
  granter_GetName := m_sName
|}.

Record SimpleRlc (G : Type) := MkRlc { rlc_bSkipped : bool; m_vGranters : list G; m_iGrantersCnt : Z }.
Arguments MkRlc {G}.
Arguments rlc_bSkipped {G}.
Arguments m_vGranters {G}.
Arguments m_iGrantersCnt {G}.

Section rlc.
Context {G : Type} `{IGranter G}.

Abbreviation RM := (M (SimpleRlc G * clock)).

(** [m_vGranters[i]->...]; an index outside the vector is undefined behaviour. *)
Definition on_granter {A} (i : nat) (c : M (G * clock) A) : RM A := fun s =>
  match m_vGranters s.1 !! i with
  | None => (Stop Undefined, s)
  | Some g =>
      match c (g, s.2) with
      | (r, (g', w)) => (r, (MkRlc (rlc_bSkipped s.1) (<[i := g']> (m_vGranters s.1)) (m_iGrantersCnt s.1), w))
      end
  end.

(** The first limiter from [i] on that refuses; [n] are still to be asked. *)
Fixpoint ask_granters (n i : nat) (deadline : Z) (rt : ReqRespType) : RM (option nat) :=
  match n with
  | O => mret None
  | S n =>
      ok ← on_granter i (granter_GrantUntil deadline rt);
      if ok : bool then ask_granters n (S i) deadline rt else mret (Some i)
  end.

Fixpoint give_back_granters (n i : nat) (rt : ReqRespType) : RM unit :=
  match n with
  | O => mret tt
  | S n => on_granter i (granter_GiveBack rt);; give_back_granters n (S i) rt
  end.

Definition SimpleRlc_GrantUntil (deadline : Z) (rt : ReqRespType) : RM bool :=
  skip ← getO rlc_bSkipped;
  if skip : bool then mret true
  else
    cnt ← getO m_iGrantersCnt;
    if cnt =? 0 then mret true
    else
      notOKIdx ← ask_granters (Z.to_nat cnt) 0 deadline rt;
      match notOKIdx with
      | Some i => give_back_granters i 0 rt;; mret false
      | None => mret true
      end.

Definition SimpleRlc_GiveBack (rt : ReqRespType) : RM unit := mret tt.

Definition contains_granter (granter : G) (vs : list G) : bool :=
  existsb (fun vg => String.eqb (granter_GetName vg) (granter_GetName granter)) vs.
End rlc.

(** ** The configuration *)

Inductive LimiterConfig := RefCounterConf | TokenBucketConf (c : TokenBucketLimiterConfig).
Record SimpleRlcConfig := MkRlcConf { rlc_Skip : bool; rlc_Limiters : list LimiterConfig }.

(** [SimpleRlc::Init]: [inl] is a thrown [std::runtime_error].  Each limiter is made
    by the constructor that leaves most members as the memory held them: [junk i]. *)
Section rlc_init.
Context (fuel : nat).

Abbreviation IM := (M (SimpleRlc TokenBucketLimiter * clock)).

Fixpoint init_granters (junk : nat -> TokenBucketLimiter) (i : nat) (ls : list LimiterConfig) : IM (string + bool) :=
  match ls with
  | [] =>
      modO (fun o => MkRlc (rlc_bSkipped o) (m_vGranters o) (u8 (zlen (m_vGranters o))));;
      mret (inr true)
  | RefCounterConf :: _ => mret (inr false)
  | TokenBucketConf c :: ls =>
      let pg := TokenBucketLimiter_Init c (TokenBucketLimiter_default (junk i) NANOSEC) in
      vs ← getO m_vGranters;
      if contains_granter (H := TokenBucketLimiter_IGranter fuel) pg vs
      then mret (inl (String.append "Cannot define repetitive limiter = " (m_sName pg)))
      else
        modO (fun o => MkRlc (rlc_bSkipped o) (m_vGranters o ++ [pg]) (m_iGrantersCnt o));;
        init_granters junk (S i) ls
  end.

Definition SimpleRlc_Init (junk : nat -> TokenBucketLimiter) (rc : SimpleRlcConfig) : IM (string + bool) :=
  modO (fun o => MkRlc (rlc_Skip rc) (m_vGranters o) (m_iGrantersCnt o));;
  init_granters junk 0 (rlc_Limiters rc).
End rlc_init.

(** ** JSON documents (src/3rd/cjson): the nodes and the accessors the parser uses *)

Inductive cJSON := MkJSON (name : option string) (valuestring : option string) (valueint : Z) (child : list cJSON).

Definition json_string (n : cJSON) : option string := let 'MkJSON s _ _ _ := n in s.
Definition json_valuestring (n : cJSON) : option string := let 'MkJSON _ v _ _ := n in v.
Definition json_valueint (n : cJSON) : Z := let 'MkJSON _ _ i _ := n in i.
Definition json_child (n : cJSON) : list cJSON := let 'MkJSON _ _ _ c := n in c.

Definition tolower (c : ascii) : ascii :=
  let n := N_of_ascii c in if (65 <=? n)%N && (n <=? 90)%N then ascii_of_N (n + 32) else c.

Fixpoint same_nocase (a b : string) : bool :=
  match a, b with
  | EmptyString, EmptyString => true
  | String x a, String y b => Ascii.eqb (tolower x) (tolower y) && same_nocase a b
  | _, _ => false
  end.

Fixpoint get_object_item (name : string) (elements : list cJSON) : option cJSON :=
  match elements with
  | [] => None
  | e :: elements =>
      if match json_string e with Some s => same_nocase name s | None => false end then Some e
      else get_object_item name elements
  end.

Definition cJSON_GetObjectItem (object : option cJSON) (name : string) : option cJSON :=
  o ← object; get_object_item name (json_child o).

(** Reading a member of a null item is undefined behaviour, and so is making a
    [std::string] of a null pointer. *)
Definition item_int {S} (object : option cJSON) (name : string) : M S Z :=
  i ← of_mem (cJSON_GetObjectItem object name); mret (json_valueint i).
Definition item_str {S} (object : option cJSON) (name : string) : M S string :=
  i ← of_mem (cJSON_GetObjectItem object name); of_mem (json_valuestring i).

(** [RwtConfig::Parse]: every one of the four values is stored in [Put]. *)
Definition RwtConfig_Parse {S} (object : option cJSON) (o : RwtConfig) : M S RwtConfig :=
  v ← item_int object "put";
  let o := MkRwt (u32 v) (rwt_Get o) (rwt_Delete o) (rwt_Scan o) in
  v ← item_int object "get";
  let o := MkRwt (u32 v) (rwt_Get o) (rwt_Delete o) (rwt_Scan o) in
  v ← item_int object "delete";
  let o := MkRwt (u32 v) (rwt_Get o) (rwt_Delete o) (rwt_Scan o) in
  v ← item_int object "scan";
  mret (MkRwt (u32 v) (rwt_Get o) (rwt_Delete o) (rwt_Scan o)).

Definition TokenBucketLimiterConfig_Parse {S} (object : option cJSON) (rwt : RwtConfig) : M S TokenBucketLimiterConfig :=
  skip ← item_int object "skip";
  name ← item_str object "name";
  ms ← item_int object "ms";
  speed ← item_int object "speed";
  rwt ← RwtConfig_Parse (cJSON_GetObjectItem object "rwt") rwt;
  mret (MkTBConf name (skip =? 1) ms speed rwt).

(** An unknown limiter type is logged with [LOG(FATAL)]. *)
Fixpoint parse_limiters {S} (items : list cJSON) : M S (list LimiterConfig) :=
  match items with
  | [] => mret []
  | item :: items =>
      type ← item_str (Some item) "type";
      if String.eqb type "token-bucket" then
        (* [new TokenBucketLimiterConfig()] zeroes the members *)
        c ← TokenBucketLimiterConfig_Parse (Some item) (MkRwt 0 0 0 0);
        cs ← parse_limiters items;
        mret (TokenBucketConf c :: cs)
      else halt Aborted
  end.

Definition SimpleRlcConfig_Parse {S} (accNode : option cJSON) : M S SimpleRlcConfig :=
  skip ← item_int accNode "skip";
  let limitersItem := cJSON_GetObjectItem accNode "limiters" in
  ls ← parse_limiters (match limitersItem with Some a => json_child a | None => [] end);
  mret (MkRlcConf (skip =? 1) ls).

(** [ParseAccConfig]; [cJSON_Parse] is the parser of the vendored library. *)
Section parse.
Context (cJSON_Parse : string -> option cJSON).

Definition ParseAccConfig (path : string) : M world SimpleRlcConfig :=
  confJsonString ← FileUtils.ReadAllString path;
  if String.eqb path "" then halt Aborted
  else
    let root := cJSON_Parse confJsonString in
    let accNode := cJSON_GetObjectItem root "acc" in
    type ← item_str accNode "type";
    if String.eqb type "simple" then SimpleRlcConfig_Parse accNode
    else halt Aborted.
End parse.
