(* ===== verification/AccTheorems.v ===== *)
(** * Admission control: what the limiters guarantee

    [bucket] is the invariant of a token bucket, [budget] the tokens it holds in
    units of a billionth; [ready] says that a bucket can be asked up to a time [T]
    without an overflow.  The bucket meets the laws [IGranterLaws] a list of
    limiters is proved against. *)

From S2P Require Import Prelude Acc.

(** ** Arithmetic that may overflow *)

Lemma wpc_chk {S} z (s : S) Q R :
  in_i64 z = true \/ R Undefined s -> Q z s -> wpc (chk64 z) s Q R.
Proof. unfold chk64. intros [->|HR] HQ; [exact HQ|]. by destruct (in_i64 z). Qed.

Lemma in_i64_true z : -9223372036854775808 <= z < 9223372036854775808 -> in_i64 z = true.
Proof. unfold in_i64. intros [? ?]. apply andb_true_intro; split; [by apply Z.leb_le|by apply Z.ltb_lt]. Qed.

Lemma quot_in_i64 a b : 0 < b -> 0 <= a -> in_i64 a = true -> in_i64 (a / b) = true.
Proof.
  unfold in_i64. intros Hb Ha [_ H2]%andb_true_iff. apply Z.ltb_lt in H2.
  apply in_i64_true. pose proof (Z.div_pos a b Ha Hb). pose proof (Z.div_le_upper_bound a b a Hb). nia.
Qed.

Lemma wpc_cdiv {S} a b (s : S) Q R :
  0 < b -> 0 <= a -> in_i64 a = true \/ R Undefined s -> Q (a / b) s -> wpc (cdiv a b) s Q R.
Proof.
  intros Hb Ha HR HQ. unfold cdiv. destruct (Z.eqb_spec b 0); [lia|].
  rewrite Z.quot_div_nonneg by lia. apply wpc_chk; [|done].
  destruct HR as [HR|]; [left; by apply quot_in_i64|by right].
Qed.

Lemma wpc_crem {S} a b (s : S) Q R :
  0 < b -> 0 <= a -> in_i64 a = true \/ R Undefined s -> Q (a mod b) s -> wpc (crem a b) s Q R.
Proof.
  intros Hb Ha HR HQ. unfold crem. destruct (Z.eqb_spec b 0); [lia|]. simpl.
  rewrite Z.quot_div_nonneg, Z.rem_mod_nonneg by lia.
  destruct HR as [HR|HR]; [by rewrite quot_in_i64|]. by destruct (in_i64 (a / b)).
Qed.

(** The clock only moves forward. *)
Definition forward (c : clock) : Prop := Forall (fun d => 0 <= d) (delays c).

Lemma tick_forward c d : forward c -> 0 <= d -> forward (tick d c) /\ t c + d <= t (tick d c).
Proof.
  unfold forward, tick. destruct (delays c) as [|x xs] eqn:E; simpl; [intros; split; [done|lia]|].
  intros [? ?]%Forall_cons_1 ?. split; [done|lia].
Qed.

Definition later (c c' : clock) : Prop := t c <= t c' /\ forward c'.

Lemma later_refl c : forward c -> later c c.
Proof. by split. Qed.
Lemma later_trans c1 c2 c3 : later c1 c2 -> later c2 c3 -> later c1 c3.
Proof. unfold later. intros [] []. split; [lia|done]. Qed.

Lemma wpc_now (tb : TokenBucketLimiter) c Q R :
  forward c -> (forall c', later c c' -> Q (t c') (tb, c')) -> wpc now_timestamps (tb, c) Q R.
Proof.
  intros Hc HQ. apply wpc_io. unfold wpc, get_total_nsecs.
  apply HQ. destruct (tick_forward c 0 Hc); [lia|]. split; [lia|done].
Qed.

Lemma wpc_sleep (tb : TokenBucketLimiter) c w Q R :
  forward c -> 0 <= w -> (forall c', later c c' -> t c + w <= t c' -> Q tt (tb, c')) ->
  wpc (io (nanosleep w)) (tb, c) Q R.
Proof.
  intros Hc Hw HQ. apply wpc_io. unfold nanosleep. destruct (Z.ltb_spec w 0); [lia|].
  destruct (tick_forward c w Hc Hw). unfold wpc, modS. apply HQ; [split; [lia|done]|lia].
Qed.

(** ** The bucket *)

Record bucket (tb : TokenBucketLimiter) : Prop := {
  b_unit : m_timeUnit tb = NANOSEC;
  b_speed : 0 < m_speed tb;
  b_per : m_tokenPerTimeUnit tb = m_speed tb / NANOSEC;
  b_rem : m_timeRemainder tb = m_speed tb mod NANOSEC;
  b_acc : 0 <= m_timeAccumulated tb < NANOSEC;
  b_cur : 0 <= m_currentResCount tb <= m_maxResCnt tb;
  b_last : 0 <= m_lastUpdateTs tb
}.

Definition budget (tb : TokenBucketLimiter) : Z := m_currentResCount tb * NANOSEC + m_timeAccumulated tb.

(** What asking a bucket leaves alone. *)
Definition like (tb tb' : TokenBucketLimiter) : Prop :=
  tb' = MkTB (m_lastUpdateTs tb') (m_tokenPerTimeUnit tb) (m_timeRemainder tb) (m_timeAccumulated tb')
    (m_pRWT tb) (m_maxResCnt tb) (m_currentResCount tb') (m_speed tb) (m_timeUnit tb) (m_sName tb) (m_bSkipped tb).

Lemma like_refl tb : like tb tb.
Proof. by destruct tb. Qed.
Lemma like_trans a b c : like a b -> like b c -> like a c.
Proof. unfold like. intros -> ->. done. Qed.

(** Times up to [T] fit. *)
Definition horizon (T : Z) (tb : TokenBucketLimiter) : Prop :=
  m_speed tb * (T - m_lastUpdateTs tb) + NANOSEC + m_maxResCnt tb < 9223372036854775808 /\
  T + m_maxResCnt tb * NANOSEC + NANOSEC < 9223372036854775808 /\ 0 <= T.

Definition cost (rt : ReqRespType) (tb : TokenBucketLimiter) : Z :=
  if m_bSkipped tb then 0
  else match m_pRWT tb with Some table => GetWeight table rt | None => 0 end.

(** [tb'] is [tb] some time later, after [w] tokens were taken. *)
Record drawn (w : Z) (tb tb' : TokenBucketLimiter) : Prop := {
  d_like : like tb tb';
  d_last : m_lastUpdateTs tb <= m_lastUpdateTs tb';
  d_rate : budget tb' + w * NANOSEC <= budget tb + m_speed tb * (m_lastUpdateTs tb' - m_lastUpdateTs tb);
  d_least : m_currentResCount tb <= m_currentResCount tb' + w;
  d_most : m_currentResCount tb' + w <= m_maxResCnt tb
}.

Lemma drawn_refl tb : bucket tb -> drawn 0 tb tb.
Proof. intros []. split; [apply like_refl|lia..]. Qed.

Lemma drawn_trans w w' a b c : drawn w a b -> drawn w' b c -> m_currentResCount c + w + w' <= m_maxResCnt a -> drawn (w + w') a c.
Proof.
  intros [L1 D1 R1 A1 M1] [L2 D2 R2 A2 M2] ?. split; [by eapply like_trans| |unfold budget in *|lia..].
  - lia.
  - assert (m_speed b = m_speed a) by (unfold like in L1; by rewrite L1). nia.
Qed.

Ltac wstep := apply wpc_bind.

(** ** Each step of a bucket *)

Section steps.
Context (T : Z).

(** A stop is an overflow that only a time past [T] can cause. *)
Abbreviation late := (fun (_ : stop) (s : TokenBucketLimiter * clock) => T < t s.2).

Lemma split_speed tb d : bucket tb -> m_speed tb * d = m_tokenPerTimeUnit tb * d * NANOSEC + m_timeRemainder tb * d.
Proof. intros []. pose proof (Z.div_mod (m_speed tb) NANOSEC ltac:(done)). nia. Qed.

Lemma calc_tokens_spec tb c d :
  bucket tb -> horizon T tb -> 0 <= d -> m_lastUpdateTs tb + d <= t c ->
  wpc (calc_tokens_to_add d) (tb, c) (fun n s =>
    s = (set_acc (m_timeAccumulated s.1) tb, c) /\ 0 <= n /\ 0 <= m_timeAccumulated s.1 < NANOSEC /\
    n * NANOSEC + m_timeAccumulated s.1 = m_timeAccumulated tb + m_speed tb * d) late.
Proof.
  intros Hb [H1 _] Hd Ht. pose proof (split_speed tb d Hb) as Hs. pose proof Hb as [].
  assert (0 <= m_tokenPerTimeUnit tb) by (rewrite b_per0; by apply Z.div_pos; [lia|]).
  assert (0 <= m_timeRemainder tb) by (rewrite b_rem0; by apply Z.mod_pos_bound).
  assert (Hr : T < t c \/ m_speed tb * d <= m_speed tb * (T - m_lastUpdateTs tb)) by nia.
  unfold NANOSEC in *. assert (0 <= m_tokenPerTimeUnit tb * d) by nia.
  assert (0 <= m_timeRemainder tb * d) by nia.
  unfold calc_tokens_to_add. cpure.
  wstep. apply wpc_chk; [destruct Hr; [by right|left; apply in_i64_true; lia]|]. cpure.
  wstep. apply wpc_chk; [destruct Hr; [by right|left; apply in_i64_true; lia]|]. cpure.
  wstep. apply wpc_chk; [destruct Hr; [by right|left; apply in_i64_true; lia]|]. cpure.
  set (x := m_timeAccumulated tb + _). simpl. rewrite b_unit0.
  pose proof (Z.div_mod x 1000000000 ltac:(done)). pose proof (Z.mod_pos_bound x 1000000000 ltac:(done)).
  assert (0 <= x / 1000000000) by (apply Z.div_pos; lia).
  destruct (Z.leb_spec 1000000000 x).
  - wstep. apply wpc_cdiv; [lia..| |]; [destruct Hr; [by right|left; apply in_i64_true; lia]|]. cpure.
    wstep. apply wpc_chk; [destruct Hr; [by right|left; apply in_i64_true; lia]|]. cpure.
    wstep. apply wpc_crem; [lia..| |]; [destruct Hr; [by right|left; apply in_i64_true; lia]|]. cpure.
    simpl. split_and!; [done|lia..].
  - cpure. simpl. split_and!; [done|lia..].
Qed.

Lemma put_tokens_spec tb c n :
  0 <= n -> 0 <= m_currentResCount tb ->
  m_currentResCount tb + n < 9223372036854775808 \/ T < t c ->
  wpc (put_tokens n) (tb, c) (fun _ s => s = (set_cur (Z.min (m_maxResCnt tb) (m_currentResCount tb + n)) tb, c)) late.
Proof.
  intros Hn Hc Hr. unfold put_tokens. cpure. wstep.
  apply wpc_chk; [destruct Hr; [left; apply in_i64_true; lia|by right]|]. cpure.
  unfold is_full. simpl. destruct (Z.leb_spec (m_maxResCnt tb) (m_currentResCount tb + n)); cpure.
  - by rewrite Z.min_l by lia.
  - by rewrite Z.min_r by lia.
Qed.

Lemma update_spec tb c :
  bucket tb -> horizon T tb -> m_lastUpdateTs tb <= t c ->
  wpc (update (t c)) (tb, c) (fun _ s => s.2 = c /\ bucket s.1 /\ drawn 0 tb s.1 /\ m_lastUpdateTs s.1 = t c /\
    (m_currentResCount s.1 = m_maxResCnt tb \/ budget s.1 = budget tb + m_speed tb * (t c - m_lastUpdateTs tb))) late.
Proof.
  intros Hb Hh Ht. pose proof Hb as []. unfold update. cpure. wstep.
  destruct (Hh) as (H1 & H2 & H3). unfold NANOSEC in *.
  apply wpc_chk; [destruct (decide (T < t c)); [by right|left; apply in_i64_true; lia]|]. cpure.
  destruct (Z.eqb_spec (t c - m_lastUpdateTs tb) 0).
  { cpure. simpl. split_and!; [done..|by apply drawn_refl|lia|right; lia]. }
  cpure. unfold is_full. destruct (Z.leb_spec (m_maxResCnt tb) (m_currentResCount tb)); cpure.
  { split_and!; [done|by split; simpl; [..|lia]| |done|left; simpl; lia].
    destruct tb; simpl in *. split; unfold like, budget, NANOSEC; simpl; [done|lia|nia|lia..]. }
  wstep. eapply wpc_mono; [apply calc_tokens_spec; [done..|lia|lia]| |done].
  intros k [tb1 c1] (E & Hn & Ha & He). injection E as E1 ->. simpl in *.
  set (a := m_timeAccumulated tb1) in *. clearbody a. subst tb1.
  wstep. eapply wpc_mono; [apply put_tokens_spec; simpl; [lia..|]| |done].
  { destruct (decide (T < t c)); [by right|left]. unfold NANOSEC in *. nia. }
  intros _ ? ->. cpure. simpl.
  assert (0 <= m_speed tb * (t c - m_lastUpdateTs tb)) by nia. unfold NANOSEC in *.
  split_and!; [done|by split; simpl; unfold NANOSEC; [..|lia|lia|lia]| |done|unfold budget, NANOSEC; simpl; lia].
  destruct tb; simpl in *. split; unfold like, budget, NANOSEC; simpl; [done|lia..].
Qed.

Lemma consume_spec tb c w :
  bucket tb -> 0 <= w -> m_maxResCnt tb < 9223372036854775808 ->
  wpc (consume_tokens w) (tb, c) (fun ok s =>
    if ok : bool then s = (set_cur (m_currentResCount tb - w) tb, c) /\ w <= m_currentResCount tb
    else s = (tb, c) /\ m_currentResCount tb < w) late.
Proof.
  intros [] Hw Hm. unfold consume_tokens. cpure. destruct (Z.leb_spec w (m_currentResCount tb)); cpure; [|done].
  wstep. apply wpc_chk; [left; apply in_i64_true; lia|]. by cpure.
Qed.

Lemma set_cur_bucket tb n : bucket tb -> 0 <= n <= m_maxResCnt tb -> bucket (set_cur n tb).
Proof. intros [] ?. by split. Qed.

Lemma drawn_take w tb tb' :
  drawn 0 tb tb' -> w <= m_currentResCount tb' -> drawn w tb (set_cur (m_currentResCount tb' - w) tb').
Proof.
  intros [L D R A M] Hw. unfold budget, like in *. split; unfold budget, like; simpl; [|lia..].
  rewrite L. simpl. done.
Qed.

Lemma update_and_consume_spec tb c w :
  bucket tb -> horizon T tb -> m_lastUpdateTs tb <= t c -> 0 <= w ->
  wpc (update_and_consume_tokens (t c) w) (tb, c) (fun ok s => s.2 = c /\ bucket s.1 /\ m_lastUpdateTs s.1 = t c /\
    (if ok : bool then drawn w tb s.1
     else drawn 0 tb s.1 /\ m_currentResCount s.1 < w /\
          (m_currentResCount s.1 = m_maxResCnt tb \/ budget s.1 = budget tb + m_speed tb * (t c - m_lastUpdateTs tb)))) late.
Proof.
  intros Hb Hh Ht Hw. wstep. eapply wpc_mono; [by apply update_spec| |done].
  intros _ [tb1 c1] (E & Hb1 & Hd & Hl & He). simpl in *. subst c1.
  assert (m_maxResCnt tb1 = m_maxResCnt tb) as Hm by (destruct Hd as [L]; unfold like in L; by rewrite L).
  assert (m_maxResCnt tb < 9223372036854775808) as Hx.
  { destruct Hh as (_ & ? & ?), Hb. unfold NANOSEC in *. lia. }
  eapply wpc_mono; [apply consume_spec; [done..|by rewrite Hm]| |done].
  intros [] s; [intros [-> Hc]|intros [-> Hc]]; simpl; split_and!; try done.
  - apply set_cur_bucket; [done|]. destruct Hb1. lia.
  - by apply drawn_take.
Qed.

(** The wait [cal_wait_time] computes is the least number of nanoseconds in which
    the bucket gains the missing tokens. *)
Lemma cal_wait_spec tb c n :
  bucket tb -> 0 < n -> n * NANOSEC + NANOSEC < 9223372036854775808 ->
  wpc (cal_wait_time n) (tb, c) (fun w s => s = (tb, c) /\ 0 <= w /\
    n * NANOSEC <= m_speed tb * w < n * NANOSEC + m_speed tb) late.
Proof.
  intros [] Hn Hx. unfold NANOSEC in *. unfold cal_wait_time. cpure. simpl. rewrite b_unit0.
  wstep. apply wpc_chk; [left; apply in_i64_true; lia|].
  wstep. apply wpc_cdiv; [lia..|left; apply in_i64_true; lia|].
  wstep. apply wpc_crem; [lia..|left; apply in_i64_true; lia|].
  set (x := n * 1000000000). pose proof (Z.div_mod x (m_speed tb) ltac:(lia)).
  pose proof (Z.mod_pos_bound x (m_speed tb) ltac:(lia)).
  assert (0 <= x / m_speed tb) by (apply Z.div_pos; lia).
  assert (x / m_speed tb <= x) by (apply Z.div_le_upper_bound; nia).
  assert (forall w, 0 <= w <= x + 1 -> n * 1000000000 <= m_speed tb * w < n * 1000000000 + m_speed tb ->
    wpc (q ← cdiv NANOSEC 1000000000; chk64 (w * q)) (tb, c)
      (fun w s => s = (tb, c) /\ 0 <= w /\ x <= m_speed tb * w < x + m_speed tb) late) as Hend.
  { intros w Hw He. wstep. unfold NANOSEC. apply wpc_cdiv; [done..|by left|].
    change (1000000000 / 1000000000) with 1. apply wpc_chk; [left; apply in_i64_true; lia|].
    rewrite Z.mul_1_r. split_and!; [done|lia..]. }
  wstep. destruct (Z.eqb_spec (x mod m_speed tb) 0); simpl.
  - cpure. apply Hend; [lia|]. nia.
  - apply wpc_chk; [left; apply in_i64_true; lia|]. apply Hend; [lia|]. nia.
Qed.
End steps.

(** ** One request *)

Record ready (T : Z) (rt : ReqRespType) (tb : TokenBucketLimiter) (c : clock) : Prop := {
  r_bucket : bucket tb;
  r_horizon : horizon T tb;
  r_clock : forward c;
  r_last : m_lastUpdateTs tb <= t c;
  r_cost : 0 <= cost rt tb <= m_maxResCnt tb;
  r_rwt : m_pRWT tb <> None
}.

Lemma like_cost rt tb tb' : like tb tb' -> cost rt tb' = cost rt tb.
Proof. unfold like, cost. intros ->. done. Qed.

Lemma drawn_horizon T w tb tb' : drawn w tb tb' -> bucket tb -> horizon T tb -> horizon T tb'.
Proof.
  intros [L D _ _ _] [] (H1 & H2 & H3). unfold horizon.
  assert (m_speed tb' = m_speed tb) as -> by (unfold like in L; by rewrite L).
  assert (m_maxResCnt tb' = m_maxResCnt tb) as -> by (unfold like in L; by rewrite L).
  split_and!; [nia|lia..].
Qed.

Lemma ready_after T rt w tb c tb' c' :
  drawn w tb tb' -> ready T rt tb c -> bucket tb' -> forward c' -> m_lastUpdateTs tb' <= t c' -> ready T rt tb' c'.
Proof.
  intros Hd [] Hb Hc Hl. split; [done|by eapply drawn_horizon|done|done| |]; destruct Hd as [L _ _ _ _].
  - rewrite (like_cost _ _ _ L). unfold like in L. by rewrite L.
  - unfold like in L. by rewrite L.
Qed.

Lemma ready_later T rt tb c c' : ready T rt tb c -> later c c' -> ready T rt tb c'.
Proof. intros [? ? ? ? ? ?] [? ?]. by split; [..|lia| |]. Qed.

(** The answer to a request: granted, its cost is taken; refused, nothing is taken
    and the deadline plus the time to earn the cost is not over. *)
Definition answered (rt : ReqRespType) (deadline : Z) (tb : TokenBucketLimiter) (c : clock)
    (ok : bool) (tb' : TokenBucketLimiter) : Prop :=
  if ok then drawn (cost rt tb) tb tb'
  else drawn 0 tb tb' /\ m_speed tb * (t c - deadline) < cost rt tb * NANOSEC + m_speed tb.

Section request.
Context (T : Z) (rt : ReqRespType) (deadline : Z) (fuel : nat).
Hypothesis (Hdead : -9223372036854775808 <= deadline).

Abbreviation late := (fun (_ : stop) (s : TokenBucketLimiter * clock) => T < t s.2).

Lemma wait_is_enough tb tb' w wait now :
  bucket tb -> m_currentResCount tb < w <= m_maxResCnt tb ->
  (w - m_currentResCount tb) * NANOSEC <= m_speed tb * wait -> m_lastUpdateTs tb + wait <= now -> bucket tb' ->
  m_currentResCount tb' = m_maxResCnt tb \/ budget tb' = budget tb + m_speed tb * (now - m_lastUpdateTs tb) ->
  w <= m_currentResCount tb'.
Proof.
  intros [] Hw Hwait Hnow [] [E|E]; [lia|]. unfold budget, NANOSEC in *.
  assert (m_speed tb * wait <= m_speed tb * (now - m_lastUpdateTs tb)) by nia. lia.
Qed.

(** The loop is left in its first round: the computed sleep is long enough. *)
Lemma grant_loop_spec tb c w :
  bucket tb -> horizon T tb -> forward c -> m_lastUpdateTs tb <= t c -> m_currentResCount tb < w <= m_maxResCnt tb ->
  wpc (grant_loop (S fuel) deadline w) (tb, c) (fun ok s => later c s.2 /\ bucket s.1 /\ m_lastUpdateTs s.1 <= t s.2 /\
    if ok : bool then drawn w tb s.1
    else s.1 = tb /\ m_speed tb * (t c - deadline) < w * NANOSEC + m_speed tb) late.
Proof.
  intros Hb Hh Hc Hl Hw. pose proof Hb as []. destruct Hh as (H1 & H2 & H3) eqn:EH. clear EH.
  cbn [grant_loop]. wstep. apply wpc_now; [done|]. intros c1 Hc1. pose proof Hc1 as [Ht1 Hf1].
  assert (m_currentResCount tb * NANOSEC >= 0) by (unfold NANOSEC; lia).
  destruct (Z.leb_spec (t c1) deadline).
  { cpure. simpl. split_and!; [done..|lia|done|]. unfold NANOSEC in *. nia. }
  cpure. wstep. apply wpc_chk; [left; apply in_i64_true; unfold NANOSEC in *; lia|].
  wstep. eapply wpc_mono; [apply (cal_wait_spec T); [done|lia|unfold NANOSEC in *; lia]| |done].
  intros wait ? (-> & Hw0 & Hw1 & Hw2).
  assert (wait <= m_maxResCnt tb * NANOSEC) as Hw3.
  { assert (m_speed tb * (wait - 1) < (w - m_currentResCount tb) * NANOSEC) by lia.
    destruct (decide (wait <= 1)); [unfold NANOSEC in *; lia|].
    assert (1 * (wait - 1) <= m_speed tb * (wait - 1)) by (apply Z.mul_le_mono_nonneg_r; lia).
    unfold NANOSEC in *. lia. }
  wstep. apply wpc_chk; [destruct (decide (T < t c1)); [by right|left; apply in_i64_true; lia]|].
  destruct (Z.leb_spec (t c1) (deadline + wait)).
  { cpure. simpl. split_and!; [done..|lia|done|].
    assert (m_speed tb * (t c - deadline) <= m_speed tb * wait) by (apply Z.mul_le_mono_nonneg_l; lia).
    unfold NANOSEC in *. lia. }
  wstep. apply wpc_sleep; [done..|]. intros c2 Hc2 Hs. pose proof Hc2 as [Ht2 Hf2].
  wstep. apply wpc_now; [done|]. intros c3 Hc3. pose proof Hc3 as [Ht3 Hf3].
  wstep. eapply wpc_mono; [apply update_and_consume_spec; [done..|lia|lia]| |done].
  intros ok [tb4 c4] (E & Hb4 & Hl4 & Hok). simpl in *. subst c4. destruct ok; cpure; simpl.
  - split_and!; [by eapply later_trans, later_trans|done|lia|done].
  - destruct Hok as (_ & Hlt & He). exfalso.
    pose proof (wait_is_enough tb tb4 w wait (t c3) Hb ltac:(lia) ltac:(lia) ltac:(lia) Hb4 He). lia.
Qed.

Lemma GrantUntil_spec tb c :
  ready T rt tb c ->
  wpc (GrantUntil (S fuel) deadline rt) (tb, c) (fun ok s =>
    ready T rt s.1 s.2 /\ later c s.2 /\ answered rt deadline tb c ok s.1) late.
Proof.
  intros Hr. pose proof Hr as [Hb Hh Hc Hl Hcost Hrwt]. unfold GrantUntil. cpure.
  destruct (m_bSkipped tb) eqn:Eskip.
  { cpure. simpl. split_and!; [done|by apply later_refl|]. unfold answered, cost. rewrite Eskip. by apply drawn_refl. }
  wstep. apply wpc_now; [done|]. intros c1 Hc1. pose proof Hc1 as [Ht1 Hf1].
  pose proof (b_speed _ Hb) as Hsp.
  destruct (Z.leb_spec (t c1) deadline).
  { cpure. simpl. split_and!; [by eapply ready_later|done|by apply drawn_refl|unfold NANOSEC; nia]. }
  cpure. destruct (m_pRWT tb) as [table|] eqn:Erwt; [|done].
  assert (cost rt tb = GetWeight table rt) as Ew by (unfold cost; by rewrite Eskip, Erwt).
  rewrite <- Ew. destruct (Z.eqb_spec (cost rt tb) 0) as [E0|E0].
  { cpure. simpl. split_and!; [by eapply ready_later|done|]. unfold answered. rewrite E0. by apply drawn_refl. }
  cpure. destruct (Z.ltb_spec (m_maxResCnt tb) (cost rt tb)); [lia|].
  wstep. apply wpc_now; [done|]. intros c2 Hc2. pose proof Hc2 as [Ht2 Hf2].
  wstep. eapply wpc_mono; [apply update_and_consume_spec; [done..|lia|lia]| |done].
  intros ok [tb3 c3] (E & Hb3 & Hl3 & Hok). simpl in *. subst c3. destruct ok; cpure; simpl.
  { split_and!; [by eapply ready_after; [..|lia]|by eapply later_trans|done]. }
  destruct Hok as (Hd & Hlt & _).
  assert (m_maxResCnt tb3 = m_maxResCnt tb) as Hm by (destruct Hd as [L]; unfold like in L; by rewrite L).
  assert (m_speed tb3 = m_speed tb) as Hs by (destruct Hd as [L]; unfold like in L; by rewrite L).
  eapply wpc_mono; [apply grant_loop_spec; [done|by eapply drawn_horizon|done|lia|lia]| |done].
  intros ok [tb4 c4] (Hla & Hb4 & Hl4 & Hok). simpl in *.
  assert (Hla' : later c c4) by (by eapply later_trans, later_trans). pose proof Hla' as [_ Hf4].
  destruct ok.
  - assert (drawn (cost rt tb) tb tb4) as Hd4.
    { replace (cost rt tb) with (0 + cost rt tb) by lia. eapply drawn_trans; [done..|].
      destruct Hok as [_ _ _ _ M]. lia. }
    split_and!; [by eapply ready_after|done|done].
  - destruct Hok as [-> Hok]. split_and!; [by eapply ready_after|done|split; [done|]].
    rewrite Hs in Hok. nia.
Qed.

Lemma GiveBack_spec tb tb' c :
  ready T rt tb' c -> drawn (cost rt tb) tb tb' ->
  wpc (GiveBack rt) (tb', c) (fun _ s => s.2 = c /\ ready T rt s.1 c /\ drawn 0 tb s.1) late.
Proof.
  intros Hr Hd. pose proof Hr as [Hb Hh Hc Hl Hcost Hrwt]. pose proof Hd as [L D R A M].
  rewrite <- (like_cost rt _ _ L) in *. unfold GiveBack. cpure.
  assert (m_maxResCnt tb' = m_maxResCnt tb) as Hm by (unfold like in L; by rewrite L).
  destruct (m_bSkipped tb') eqn:Eskip.
  { cpure. simpl. split_and!; [done..|]. replace (cost rt tb') with 0 in Hd; [done|]. unfold cost. by rewrite Eskip. }
  cpure. destruct (m_pRWT tb') as [table|] eqn:Erwt; [|done].
  assert (cost rt tb' = GetWeight table rt) as Ew by (unfold cost; by rewrite Eskip, Erwt).
  rewrite <- Ew. destruct (Z.eqb_spec (cost rt tb') 0) as [E0|E0].
  { cpure. simpl. rewrite E0 in Hd. done. }
  destruct Hh as (H1 & H2 & H3) eqn:EH. clear EH. pose proof Hb as [].
  eapply wpc_mono; [apply (put_tokens_spec T); [lia..|left; unfold NANOSEC in *; lia]| |done].
  intros _ ? ->. simpl. rewrite Z.min_r by lia.
  assert (drawn 0 tb (set_cur (m_currentResCount tb' + cost rt tb') tb')) as Hd'.
  { split; unfold budget, like in *; simpl; [by rewrite L|lia..]. }
  split_and!; [done| |done].
  split; [apply set_cur_bucket; [done|lia]|by split_and!|done|done|done|simpl; by rewrite Erwt].
Qed.
End request.

(** ** The interface and the list of limiters *)

(** What [SimpleRlc] relies on: a granted request is [lent] and can be given back,
    a refused one leaves the limiter [kept]. *)
Class IGranterLaws (G : Type) `{IGranter G} (T deadline : Z) (rt : ReqRespType) := {
  g_ready : G -> clock -> Prop;
  g_lent : G -> G -> Prop;
  g_kept : G -> G -> Prop;
  g_ready_later g c c' : g_ready g c -> later c c' -> g_ready g c';
  g_kept_refl g c : g_ready g c -> g_kept g g;
  g_grant g c : g_ready g c -> forward c ->
    wpc (granter_GrantUntil deadline rt) (g, c) (fun ok s =>
      g_ready s.1 s.2 /\ later c s.2 /\ if ok : bool then g_lent g s.1 else g_kept g s.1) (fun _ s => T < t s.2);
  g_giveback g g' c : g_lent g g' -> g_ready g' c ->
    wpc (granter_GiveBack rt) (g', c) (fun _ s =>
      s.2 = c /\ g_ready s.1 c /\ g_kept g s.1) (fun _ s => T < t s.2)
}.

#[global] Program Instance TokenBucketLimiter_laws (fuel : nat) (T deadline : Z)
    (Hd : -9223372036854775808 <= deadline) (rt : ReqRespType) :
    IGranterLaws TokenBucketLimiter (H := TokenBucketLimiter_IGranter (S fuel)) T deadline rt := {|
  g_ready := ready T rt;
  g_lent tb tb' := drawn (cost rt tb) tb tb';
  g_kept tb tb' := drawn 0 tb tb'
|}.
Next Obligation. intros. by eapply ready_later. Qed.
Next Obligation. intros fuel T deadline Hd rt g c []. by apply drawn_refl. Qed.
Next Obligation.
  intros fuel T deadline Hd rt g c Hr Hc. eapply wpc_mono; [by apply GrantUntil_spec| |done].
  intros ok s (? & ? & Ha). split_and!; [done..|]. unfold answered in Ha. destruct ok; [done|by destruct Ha].
Qed.
Next Obligation. intros. by apply GiveBack_spec. Qed.

Section rlc_laws.
Context {G : Type} `{HG : IGranter G} (T deadline : Z) (rt : ReqRespType) `{HL : !IGranterLaws G T deadline rt}.

Abbreviation late := (fun (_ : stop) (s : SimpleRlc G * clock) => T < t s.2).

Lemma wpc_on_granter {A} (rlc : SimpleRlc G) c i g (k : M (G * clock) A) Q :
  m_vGranters rlc !! i = Some g ->
  wpc k (g, c) (fun a s => Q a (MkRlc (rlc_bSkipped rlc) (<[i := s.1]> (m_vGranters rlc)) (m_iGrantersCnt rlc), s.2))
    (fun _ s => T < t s.2) ->
  wpc (on_granter i k) (rlc, c) Q late.
Proof. intros Hi. unfold wpc, on_granter. simpl. rewrite Hi. by destruct (k (g, c)) as [[a|e] [g' c']]. Qed.

(** The list while the limiters are asked: [done] of them have answered. *)
Lemma ask_granters_spec b (rest done_ done0 : list G) c cnt :
  Forall (fun g => g_ready g c) (done_ ++ rest) -> forward c -> Forall2 g_lent done0 done_ ->
  wpc (ask_granters (length rest) (length done_) deadline rt) (MkRlc b (done_ ++ rest) cnt, c) (fun r s =>
    exists gs', s.1 = MkRlc b gs' cnt /\ Forall (fun g => g_ready g s.2) gs' /\ forward s.2 /\
    match r with
    | None => Forall2 g_lent (done0 ++ rest) gs'
    | Some i => exists pre g post pre' g', done0 ++ rest = pre ++ g :: post /\ gs' = pre' ++ g' :: post /\
        i = length pre /\ Forall2 g_lent pre pre' /\ g_kept g g'
    end) late.
Proof.
  revert done_ done0 c. induction rest as [|g rest IH]; intros done_ done0 c Hr Hc Hl; simpl.
  { exists (done_ ++ []). split_and!; [done..|]. by rewrite !app_nil_r. }
  apply wpc_bind. apply (wpc_on_granter _ _ _ g); [simpl; by apply list_lookup_middle|].
  assert (g_ready g c) as Hg by (apply Forall_app in Hr as [_ Hr]; by apply Forall_cons_1 in Hr as [? _]).
  eapply wpc_mono; [by apply g_grant| |done].
  intros ok [g' c'] (Hg' & Hlt & Ha). simpl in *. rewrite insert_app_r_alt, Nat.sub_diag by done. simpl.
  assert (Forall (fun g => g_ready g c') (done_ ++ g' :: rest)) as Hr'.
  { apply Forall_app in Hr as [H1 H2]. apply Forall_cons_1 in H2 as [_ H2].
    assert (forall l, Forall (fun g => g_ready g c) l -> Forall (fun g => g_ready g c') l) as Hmono.
    { intros l. apply Forall_impl. intros x Hx. by eapply g_ready_later. }
    apply Forall_app; split; [|constructor]; auto. }
  destruct Hlt as [_ Hc']. destruct ok.
  - specialize (IH (done_ ++ [g']) (done0 ++ [g]) c').
    rewrite <- !app_assoc, length_app, Nat.add_1_r in IH. simpl in IH. apply IH; [done..|].
    apply Forall2_app; [done|by constructor].
  - cpure. exists (done_ ++ g' :: rest). split_and!; [done..|].
    exists done0, g, rest, done_, g'. split_and!; [done..|by eapply eq_sym, Forall2_length|done|done].
Qed.

Lemma give_back_spec b cnt (pre pre' todo : list G) (front0 front : list G) c :
  Forall2 g_lent pre pre' -> Forall2 g_kept front0 front -> Forall (fun g => g_ready g c) (front ++ pre' ++ todo) ->
  wpc (give_back_granters (length pre) (length front) rt) (MkRlc b (front ++ pre' ++ todo) cnt, c) (fun _ s =>
    exists back, s = (MkRlc b (back ++ todo) cnt, c) /\ Forall2 g_kept (front0 ++ pre) back /\
    Forall (fun g => g_ready g c) (back ++ todo)) late.
Proof.
  intros Hl. revert front0 front. induction Hl as [|g g' pre pre' Hg Hl IH]; intros front0 front Hk Hr; simpl.
  { exists front. split_and!; [done|by rewrite app_nil_r|done]. }
  apply wpc_bind. apply (wpc_on_granter _ _ _ g'); [simpl; by apply list_lookup_middle|].
  assert (g_ready g' c) by (apply Forall_app in Hr as [_ Hr]; simpl in Hr; by apply Forall_cons_1 in Hr as [? _]).
  eapply wpc_mono; [by eapply g_giveback| |done].
  intros _ [g'' c''] (E & Hg'' & Hkept). simpl in *. subst c''.
  rewrite insert_app_r_alt, Nat.sub_diag by done. simpl.
  specialize (IH (front0 ++ [g]) (front ++ [g''])).
  rewrite <- !app_assoc, length_app, Nat.add_1_r in IH. simpl in IH. apply IH.
  - apply Forall2_app; [done|by constructor].
  - apply Forall_app in Hr as [H1 H2]. apply Forall_cons_1 in H2 as [_ H2].
    apply Forall_app; split; [done|by constructor].
Qed.

Lemma kept_refls c (gs : list G) : Forall (fun g => g_ready g c) gs -> Forall2 g_kept gs gs.
Proof. induction 1; constructor; [by eapply g_kept_refl|done]. Qed.

Lemma SimpleRlc_GrantUntil_spec (gs : list G) c :
  Forall (fun g => g_ready g c) gs -> forward c ->
  wpc (SimpleRlc_GrantUntil deadline rt) (MkRlc false gs (zlen gs), c) (fun ok s =>
    exists gs', s.1 = MkRlc false gs' (zlen gs) /\ Forall (fun g => g_ready g s.2) gs' /\
      Forall2 (if ok : bool then g_lent else g_kept) gs gs') late.
Proof.
  intros Hr Hc. unfold SimpleRlc_GrantUntil. cpure. cbn [rlc_bSkipped]. cpure. cbn [m_iGrantersCnt].
  destruct (Z.eqb_spec (zlen gs) 0) as [E|E].
  { cpure. apply zlen_0 in E as ->. exists []. split_and!; [done|constructor|constructor]. }
  rewrite (Nat2Z.id (length gs) : Z.to_nat (zlen gs) = _). wstep.
  eapply wpc_mono; [apply (ask_granters_spec false gs [] [] c); [done..|constructor]| |done].
  intros [i|] [rlc c'] (gs' & E1 & Hr' & Hc' & H'); simpl in *; subst rlc; cpure; [|by exists gs'].
  destruct H' as (pre & g & post & pre' & g' & -> & -> & -> & Hl & Hk). wstep.
  eapply wpc_mono; [by apply (give_back_spec false _ pre pre' (g' :: post) [] [] c')| |done].
  intros _ ? (back & -> & Hb & Hrb). cpure. simpl in *.
  exists (back ++ g' :: post). split_and!; [done..|].
  apply Forall2_app; [done|constructor; [done|]]. apply (kept_refls c').
  apply Forall_app in Hrb as [_ Hrb]. by apply Forall_cons_1 in Hrb as [_ ?].
Qed.
End rlc_laws.

(** ** The theorems *)

(** A client that asks one bucket for a series of requests. *)
Fixpoint grants (fuel : nat) (reqs : list (Z * ReqRespType)) : TM (list bool) :=
  match reqs with
  | [] => mret []
  | (deadline, rt) :: reqs =>
      ok ← GrantUntil fuel deadline rt;
      oks ← grants fuel reqs;
      mret (ok :: oks)
  end.

Fixpoint spent (tb : TokenBucketLimiter) (reqs : list (Z * ReqRespType)) (oks : list bool) : Z :=
  match reqs, oks with
  | (_, rt) :: reqs, ok :: oks => (if ok then cost rt tb else 0) + spent tb reqs oks
  | _, _ => 0
  end.

Lemma spent_like tb tb' reqs oks : like tb tb' -> spent tb' reqs oks = spent tb reqs oks.
Proof.
  intros L. revert oks. induction reqs as [|[d rt] reqs IH]; intros [|ok oks]; simpl; [done..|].
  by rewrite IH, (like_cost rt _ _ L).
Qed.

(** A fresh bucket meets the invariant. *)
Lemma fresh_bucket tb c capacity speed :
  0 <= capacity -> 0 < speed < 4294967296 -> 0 <= t (tick 0 c) ->
  wp (TokenBucketLimiter_make capacity speed NANOSEC) (tb, c) (fun _ s =>
    bucket s.1 /\ budget s.1 = 0 /\ m_lastUpdateTs s.1 = t s.2 /\ m_maxResCnt s.1 = capacity /\ m_speed s.1 = speed).
Proof.
  intros Hc Hs Ht. unfold TokenBucketLimiter_make, initialize, now_timestamps. wpure. wlift.
  unfold get_total_nsecs. eapply wp_eq; [done|]. wpure. simpl.
  apply wpc_bind. apply wpc_cdiv; [done|lia|left; apply in_i64_true; lia|].
  apply wpc_bind. apply wpc_crem; [done|lia|left; apply in_i64_true; lia|].
  cpure. simpl. split_and!; try done. split; simpl; done || unfold NANOSEC; lia.
Qed.


(** C29 acc_rate: over any series of requests a bucket grants at most the tokens it
    held at first plus its speed times the time that has passed: the granted
    weights, in billionths, and what is left in the bucket together never exceed
    the initial content and the speed times the nanoseconds between the updates. *)
Theorem acc_rate (T : Z) (fuel : nat) (reqs : list (Z * ReqRespType)) (tb : TokenBucketLimiter) (c : clock) :
  (forall rt, ready T rt tb c) -> Forall (fun r => -9223372036854775808 <= r.1) reqs ->
  wpc (grants (S fuel) reqs) (tb, c) (fun oks s =>
    spent tb reqs oks * NANOSEC + budget s.1 <=
      budget tb + m_speed tb * (m_lastUpdateTs s.1 - m_lastUpdateTs tb) /\
    0 <= m_currentResCount s.1 <= m_maxResCnt tb /\ length oks = length reqs) (fun _ s => T < t s.2).
Proof.
  revert tb c. induction reqs as [|[d rt] reqs IH]; intros tb c Hr Hd; simpl.
  { cpure. simpl. destruct (Hr ReqPut) as [[] _ _ _ _ _]. split_and!; lia || done. }
  apply Forall_cons_1 in Hd as [Hd Hds]. simpl in Hd.
  wstep. eapply wpc_mono; [apply (GrantUntil_spec T rt d fuel Hd tb c), Hr| |done].
  intros ok [tb1 c1] (Hr1 & [_ Hf1] & Ha). simpl in *.
  assert (exists w, drawn w tb tb1 /\ w = if ok then cost rt tb else 0) as (w & Hdr & Ew).
  { unfold answered in Ha. destruct ok; [|destruct Ha]; eauto. }
  assert (forall rt', ready T rt' tb1 c1) as Hr1'.
  { intros rt'. destruct Hr1. by eapply ready_after. }
  wstep. eapply wpc_mono; [by apply IH| |done].
  intros oks [tb2 c2] (H1 & H2 & H3). cpure. simpl in *. destruct Hdr as [L D R A M].
  rewrite (spent_like _ _ _ _ L) in H1. rewrite <- Ew.
  assert (m_speed tb1 = m_speed tb) as Hs by (unfold like in L; by rewrite L).
  assert (m_maxResCnt tb1 = m_maxResCnt tb) as Hm by (unfold like in L; by rewrite L).
  rewrite Hs in H1. rewrite Hm in H2. unfold NANOSEC in *. split_and!; lia.
Qed.


(** *** Witnesses *)

(** A bucket of 100 tokens at 1000 a second, every request costing one token. *)
Definition qps_table : RWT := RWT_Init (MkRwt 1 1 1 1) ∅.
Definition qps_bucket : TokenBucketLimiter :=
  MkTB 5 0 1000 7 (Some qps_table) 100 0 1000 NANOSEC "qps" false.
Definition qps_clock : clock := MkClock 2000000 [1; 2; 3].

Lemma qps_ready rt : ready 1000000000000 rt qps_bucket qps_clock.
Proof.
  split; [by split|by split_and!|by repeat constructor|done|by destruct rt|done].
Qed.


Lemma acc_rate_witness :
  wpc (grants 1 [(0, ReqPut); (0, ReqGet); (0, ReqScan)]) (qps_bucket, qps_clock) (fun oks s =>
    spent qps_bucket [(0, ReqPut); (0, ReqGet); (0, ReqScan)] oks * NANOSEC + budget s.1 <=
      budget qps_bucket + 1000 * (m_lastUpdateTs s.1 - 5) /\
    0 <= m_currentResCount s.1 <= 100 /\ length oks = 3%nat) (fun _ s => 1000000000000 < t s.2).
Proof.
  apply (acc_rate 1000000000000 0 [(0, ReqPut); (0, ReqGet); (0, ReqScan)] qps_bucket qps_clock qps_ready).
  repeat constructor; simpl; lia.
Defined.


(** Three requests of which the bucket can serve all: the first two at once, the
    third after a sleep. *)
Example grants_example :
  (grants 1 [(0, ReqPut); (0, ReqGet); (0, ReqScan)] (qps_bucket, qps_clock)).1 = Ok [true; true; true].
Proof. reflexivity. Qed.

(** *** What the code does besides *)

(** The comparison with the deadline is the wrong way round: a request whose deadline
    lies ahead is refused, without a look at the tokens. *)
Theorem future_deadline_is_refused (fuel : nat) (deadline : Z) (rt : ReqRespType) (tb : TokenBucketLimiter) (c : clock) :
  m_bSkipped tb = false -> t (tick 0 c) <= deadline ->
  GrantUntil fuel deadline rt (tb, c) = (Ok false, (tb, tick 0 c)).
Proof.
  intros Hs Ht. unfold GrantUntil. rewrite (bind_ok (getO m_bSkipped) _ _ (m_bSkipped tb) (tb, c)) by done.
  rewrite Hs, (bind_ok now_timestamps _ _ (t (tick 0 c)) (tb, tick 0 c)) by done. destruct (Z.leb_spec (t (tick 0 c)) deadline); [done|lia].
Qed.

(** Reading the weights stores all of them in the weight of [Put]; the last one
    stays, and the other requests cost nothing. *)
Theorem weights_are_lost (p g d s : Z) (rest : RwtConfig) :
  0 <= s < 4294967296 ->
  let item n v := MkJSON (Some n) None v [] in
  RwtConfig_Parse (Some (MkJSON None None 0 [item "put" p; item "get" g; item "delete" d; item "scan" s])) rest tt =
    (Ok (MkRwt s (rwt_Get rest) (rwt_Delete rest) (rwt_Scan rest)), tt).
Proof. intros Hs item. cbv -[u32]. by rewrite u32_small. Qed.

(** The number of limiters is kept in 8 bits: with 256 of them nothing is limited. *)
Definition limiter_conf (n : nat) : LimiterConfig :=
  TokenBucketConf (MkTBConf (String (ascii_of_nat n) EmptyString) false 1 1 (MkRwt 1 1 1 1)).
Definition rlc_256 : outcome (string + bool) * (SimpleRlc TokenBucketLimiter * clock) :=
  SimpleRlc_Init 0 (fun _ => qps_bucket) (MkRlcConf false (map limiter_conf (seq 0 256))) (MkRlc false [] 0, qps_clock).

Theorem limiters_256_grant_everything (deadline : Z) (rt : ReqRespType) (c : clock) :
  fst rlc_256 = Ok (inr true) /\ length (m_vGranters (fst (snd rlc_256))) = 256%nat /\
  SimpleRlc_GrantUntil (H := TokenBucketLimiter_IGranter 0) deadline rt (fst (snd rlc_256), c) = (Ok true, (fst (snd rlc_256), c)).
Proof.
  assert (m_iGrantersCnt (fst (snd rlc_256)) = 0) as E by (vm_compute; reflexivity).
  split_and!; [vm_compute; reflexivity..|].
  destruct (fst (snd rlc_256)) as [skip gs n]. simpl in E. subst n. by destruct skip.
Qed.
