(* ===== verification/KvFactory.v ===== *)
(** * Putting a store together (src/kv/kv-factory.cc, src/wal/wal-factory.cc,
    src/checkpoint/checkpoint-factory.cc and the constructor of MiniKV)

    The configuration records, the factories that look a class up by its name and
    the whole constructor of [MiniKV] with what it makes: the log, the checkpoint
    and the admission control.  [LOG(FATAL)] ends the process ([Aborted]); so does
    the exception of a duplicate limiter, which nothing below [main] catches. *)

From S2P Require Import Prelude Codec Posix Files Entries KvEntries KvMap Wal WalSpec Checkpoint MiniKV Acc AccTheorems.

(** ** Configurations *)

Record KVConfig := MkKVConfig {
  kc_Type : string;
  kc_AccConfPath : string;
  kc_WalType : string;
  kc_WalRootDirPath : string;
  kc_WalWriteEntryVersion : Z;
  kc_WalMaxSegmentSize : Z;
  kc_WalReadBatchSize : Z;
  kc_CheckpointType : string;
  kc_CheckpointRootDirPath : string;
  kc_CheckpointWriteEntryVersion : Z;
  kc_CheckpointReadBatchSize : Z;
  kc_CheckWalSizeTickSeconds : Z;
  kc_DoCheckpointWalSizeBytes : Z
}.

Record LogCleanWalConfig := MkWalConfig {
  wc_Type : string; wc_RootDirPath : string;
  wc_WriteEntryVersion : Z; wc_MaxSegmentSize : Z; wc_ReadBatchSize : Z }.

Record EntryOrderCheckpointConfig := MkCpConfig {
  ec_Type : string; ec_RootDirPath : string; ec_WriteEntryVersion : Z; ec_BatchReadSize : Z }.

(** ** Factories: [g_typeMapper] maps a class name to a number *)

Definition wal_typeMapper : gmap string Z := {["log-clean" := 0]}.
Definition cp_typeMapper : gmap string Z := {["entry-order" := 0]}.
Definition kv_typeMapper : gmap string Z := {["mini" := 0]}.

(** [None] is the null pointer. *)
Definition WALFactory_CreateInstance {S} (pc : LogCleanWalConfig) : M S (option LogCleanWal) :=
  match wal_typeMapper !! wc_Type pc with
  | None => mret None
  | Some 0 =>
      match LogCleanWal_make (wc_RootDirPath pc) (wc_WriteEntryVersion pc) (wc_MaxSegmentSize pc) (wc_ReadBatchSize pc) with
      | Ok wal => mret (Some wal)
      | Prelude.Stop e => halt e
      end
  | Some _ => mret None
  end.

Definition CheckpointFactory_CreateInstance {S} (pc : EntryOrderCheckpointConfig) : M S (option EntryOrderCheckpoint.t) :=
  match cp_typeMapper !! ec_Type pc with
  | None => mret None
  | Some 0 => mret (Some (EntryOrderCheckpoint.Make (ec_RootDirPath pc) false (ec_WriteEntryVersion pc) (ec_BatchReadSize pc)))
  | Some _ => mret None
  end.

Section create.
Context (cJSON_Parse : string -> option cJSON).

(** Memory for the members no constructor sets: those of the limiters and
    [m_applyId]. *)
Context (junk : nat -> TokenBucketLimiter) (junkId : Z) (clk : clock).

Definition make_granter (conf : SimpleRlcConfig) : M world (SimpleRlc TokenBucketLimiter) :=
  match (SimpleRlc_Init 0 junk conf (MkRlc false [] 0, clk)) with
  | (Ok (inr true), (rlc, _)) => mret rlc
  | (Ok (inr false), _) => halt Aborted
  | (Ok (inl _), _) => halt Aborted
  | (Prelude.Stop e, _) => halt e
  end.

Definition MiniKV_new (pc : KVConfig) :
    M world (MiniKV LogCleanWal EntryOrderCheckpoint.t * SimpleRlc TokenBucketLimiter) :=
  m_pWal ← WALFactory_CreateInstance (MkWalConfig (kc_WalType pc) (kc_WalRootDirPath pc) (kc_WalWriteEntryVersion pc)
    (kc_WalMaxSegmentSize pc) (kc_WalReadBatchSize pc));
  match m_pWal with
  | None => halt Aborted
  | Some wal =>
      m_pCheckpoint ← CheckpointFactory_CreateInstance (MkCpConfig (kc_CheckpointType pc) (kc_CheckpointRootDirPath pc)
        (kc_CheckpointWriteEntryVersion pc) (kc_CheckpointReadBatchSize pc));
      match m_pCheckpoint with
      | None => halt Aborted
      | Some cp =>
          accConf ← ParseAccConfig cJSON_Parse (kc_AccConfPath pc);
          rlc ← make_granter accConf;
          mret (MiniKV_make wal cp (kc_DoCheckpointWalSizeBytes pc) junkId, rlc)
      end
  end.

Definition KVFactory_CreateInstance (pc : KVConfig) :
    M world (option (MiniKV LogCleanWal EntryOrderCheckpoint.t * SimpleRlc TokenBucketLimiter)) :=
  match kv_typeMapper !! kc_Type pc with
  | None => mret None
  | Some 0 => kv ← MiniKV_new pc; mret (Some kv)
  | Some _ => mret None
  end.

(** ** What a factory returns *)

Lemma one_type (name other : string) (m : gmap string Z) :
  m = {[name := 0]} -> (m !! other = Some 0 /\ other = name) \/ (m !! other = None /\ other <> name).
Proof.
  intros ->. destruct (decide (other = name)) as [->|Hne]; [left|right]; split; try done.
  - by rewrite lookup_singleton_eq.
  - by rewrite lookup_singleton_ne.
Qed.

Lemma init_granters_names fuel i ls (rlc rlc' : SimpleRlc TokenBucketLimiter) c c' :
  NoDup (m_sName <$> m_vGranters rlc) ->
  init_granters fuel junk i ls (rlc, c) = (Ok (inr true), (rlc', c')) ->
  NoDup (m_sName <$> m_vGranters rlc') /\ length (m_vGranters rlc') = (length (m_vGranters rlc) + length ls)%nat /\
  m_iGrantersCnt rlc' = u8 (zlen (m_vGranters rlc')) /\ rlc_bSkipped rlc' = rlc_bSkipped rlc.
Proof.
  revert i rlc. induction ls as [|[|cf] ls IH]; intros i rlc Hnd; simpl; [intros [= <- <-]|done|].
  { simpl. split_and!; [done|lia|done|done]. }
  unfold mbind at 1, M_bind at 1, getO at 1. cbn [fst].
  destruct (contains_granter _ _) eqn:E; [done|].
  unfold mbind at 1, M_bind at 1, modO at 1. intros Hrun.
  apply IH in Hrun as (H1 & H2 & H3 & H4); cbn [m_vGranters rlc_bSkipped fst] in *.
  - rewrite length_app in H2. simpl in H2. split_and!; [done|lia|done|done].
  - rewrite fmap_app. apply list.NoDup_app. split_and!; [done| |apply NoDup_singleton].
    intros x Hx Hy. apply list_elem_of_singleton in Hy as ->.
    apply list_elem_of_fmap in Hx as (g & Hg & Hin). unfold contains_granter in E.
    apply not_true_iff_false in E. apply E, existsb_exists. exists g. split; [by apply list_elem_of_In|].
    simpl. rewrite <- Hg. apply String.eqb_refl.
Qed.

(** A store is created only for the names "mini", "log-clean" and
    "entry-order" and for segment and batch sizes that hold at least an empty
    record; it then has the configured log and checkpoint, neither opened, is
    stopped and empty, and its limiters have different names.  With any other type
    of store the factory returns null and does nothing, with any other type of log
    or checkpoint it does not return. *)
Theorem kv_create (pc : KVConfig) (w : world) :
  match KVFactory_CreateInstance pc w with
  | (Ok None, w') => kc_Type pc <> "mini" /\ w' = w
  | (Ok (Some (kv, rlc)), _) =>
      kc_Type pc = "mini" /\ kc_WalType pc = "log-clean" /\ kc_CheckpointType pc = "entry-order" /\
      17 <= kc_WalMaxSegmentSize pc /\ 17 <= kc_WalReadBatchSize pc /\
      kv = MiniKV_make (MkWal (kc_WalRootDirPath pc) ∅ 1 1 (-1) "" 0 false false 0 0 [] (kc_WalWriteEntryVersion pc)
               (kc_WalMaxSegmentSize pc) (kc_WalReadBatchSize pc))
             (EntryOrderCheckpoint.Make (kc_CheckpointRootDirPath pc) false (kc_CheckpointWriteEntryVersion pc)
               (kc_CheckpointReadBatchSize pc)) (kc_DoCheckpointWalSizeBytes pc) junkId /\
      NoDup (m_sName <$> m_vGranters rlc) /\ m_iGrantersCnt rlc = u8 (zlen (m_vGranters rlc))
  | (Prelude.Stop _, _) => kc_Type pc = "mini"
  end.
Proof.
  unfold KVFactory_CreateInstance.
  destruct (one_type "mini" (kc_Type pc) kv_typeMapper eq_refl) as [[-> ->]|[-> Hne]]; [|done].
  destruct ((kv ← MiniKV_new pc; mret (Some kv)) w) as [[[[kv rlc]|]|e] w'] eqn:E; [|by apply bind_inv in E as (? & ? & _ & ?)|done].
  apply bind_inv in E as (? & ? & E & [= -> ->]). apply bind_inv in E as (wal & w1 & E1 & E).
  revert E1. unfold WALFactory_CreateInstance. cbn [wc_Type].
  destruct (one_type "log-clean" (kc_WalType pc) wal_typeMapper eq_refl) as [[-> ->]|[-> Hne]]; [|by intros [= <- <-]].
  unfold LogCleanWal_make. cbn [wc_RootDirPath wc_WriteEntryVersion wc_MaxSegmentSize wc_ReadBatchSize].
  change LOGCLEAN_WAL_ENTRY_EXTRA_FIELDS_SIZE with 17.
  destruct (Z.ltb_spec (kc_WalMaxSegmentSize pc) 17); [done|].
  destruct (Z.ltb_spec (kc_WalReadBatchSize pc) 17); [done|]. intros [= <- <-].
  apply bind_inv in E as (cp & w2 & E2 & E). revert E2.
  unfold CheckpointFactory_CreateInstance. cbn [ec_Type ec_RootDirPath ec_WriteEntryVersion ec_BatchReadSize].
  destruct (one_type "entry-order" (kc_CheckpointType pc) cp_typeMapper eq_refl) as [[-> ->]|[-> Hne]];
    [|by intros [= <- <-]].
  intros [= <- <-]. apply bind_inv in E as (conf & w3 & E3 & E).
  apply bind_inv in E as (rlc' & w4 & E4 & [= <- <- <-]).
  revert E4. unfold make_granter.
  destruct (SimpleRlc_Init 0 junk conf _) as [[[?|[]]|?] [rlc1 c1]] eqn:E5; try done. intros [= <- <-].
  apply (init_granters_names 0 0 (rlc_Limiters conf) (MkRlc (rlc_Skip conf) [] 0)) in E5 as (? & _ & ? & _);
    [|constructor].
  split_and!; done.
Qed.
End create.
