(* ===== verification/Net.v ===== *)
(** * Messages and connections (src/net: message, snd-message, rcv-message, notify-message,
    connection-socket)

    A message is a header (magic number, id, payload length) and a payload.  The
    state of the process the messages live in is [netw]: the socket of a connection,
    the objects of the memory pool that are in use, the list of free [Buffer] objects,
    the last message id, and what the user's callback was given.

    What arrives on the socket is a list of events, one for each thing a coming
    [::read] may find: bytes, an error, the end of the stream.  A read takes at most
    the bytes of one event; an empty list is a socket with nothing to read.  What a
    [::write] does is a list too; an empty one accepts everything.  No theorem assumes
    how the bytes are cut. *)

From S2P Require Import Prelude Codec Buffer Posix.

(** ** Peers *)

Inductive SocketProtocol := NoProtocol | Tcp | Udp.
Record net_peer_info := MkPeer { np_addr : string; np_port : Z; np_sp : SocketProtocol }.
Definition net_peer_info_default : net_peer_info := MkPeer EmptyString 0 NoProtocol.

#[global] Instance SocketProtocol_eq_dec : EqDecision SocketProtocol.
Proof. solve_decision. Defined.
#[global] Instance net_peer_info_eq_dec : EqDecision net_peer_info.
Proof. solve_decision. Defined.

(** ** The socket *)

Inductive revent := RdBytes (b : byte) (bs : list byte) | RdErr (e : Z) | RdEof.
Inductive wevent := WrSome (k : Z) | WrErr (e : Z) | WrZero.

Record socket := MkSock {
  sk_nonblock : bool;
  sk_in : list revent;
  sk_wr : list wevent;
  sk_out : list byte
}.

(** The outcome of a transfer: a count with the bytes, an error number, or a call that
    never returns (a blocking socket on which nothing arrives). *)
Inductive rdres := RdGot (bs : list byte) | RdFail (e : Z) | RdBlocked.

(** [do { n = ::read(fd, buf, nbytes); } while (n < 0 && EINTR == (err = errno))] *)
Fixpoint read_events (nonblock : bool) (nbytes : Z) (evs : list revent) : rdres * list revent :=
  match evs with
  | [] => (if nonblock then RdFail EAGAIN else RdBlocked, [])
  | RdBytes b bs :: evs' =>
      let got := take (Z.to_nat nbytes) (b :: bs) in
      (RdGot got, match drop (Z.to_nat nbytes) (b :: bs) with [] => evs' | c :: cs => RdBytes c cs :: evs' end)
  | RdErr e :: evs' => if e =? EINTR then read_events nonblock nbytes evs' else (RdFail e, evs')
  | RdEof :: _ => (RdGot [], evs)
  end.

Definition sock_read (nbytes : Z) (s : socket) : rdres * socket :=
  if nbytes =? 0 then (RdGot [], s)
  else let '(r, evs) := read_events (sk_nonblock s) nbytes (sk_in s) in
       (r, MkSock (sk_nonblock s) evs (sk_wr s) (sk_out s)).

Inductive wrres := WrSent (n : Z) | WrFail (e : Z).

Fixpoint write_events (nbytes : Z) (evs : list wevent) : wrres * list wevent :=
  match evs with
  | [] => (WrSent nbytes, [])
  | WrSome k :: evs => (WrSent (Z.max 1 (Z.min k nbytes)), evs)
  | WrZero :: evs => (WrSent 0, evs)
  | WrErr e :: evs => if e =? EINTR then write_events nbytes evs else (WrFail e, evs)
  end.

Definition sock_write (bs : list byte) (s : socket) : wrres * socket :=
  let '(r, evs) := write_events (zlen bs) (sk_wr s) in
  let out := match r with WrSent n => sk_out s ++ take (Z.to_nat n) bs | WrFail _ => sk_out s end in
  (r, MkSock (sk_nonblock s) (sk_in s) evs out).

(** ** Headers and received messages *)

Definition MESSAGE_MAGIC_NO : Z := 3735928559.
Definition MAX_MSG_PAYLOAD_SIZE : Z := 67108864.
Definition MSG_HEADER_SIZE : Z := 16.

Record Header := MkHeader { h_magic : Z; h_id : Z; h_len : Z }.

(** A [RcvMessage] lives in the pool object [rm_mpo]. *)
Record RcvMessage := MkRcv {
  rm_mpo : Z;
  rm_peer : net_peer_info;
  rm_header : Header;
  rm_buffer : dbuf
}.

(** The text of a worker's notification: the peer, or [strerror(err)], where [err] may
    never have been set. *)
Inductive note_text := ClosedBy (peer : net_peer_info) | ErrText (err : option Z).

Inductive WorkerNotifyMessageCode := WorkerOK | ClosedByPeer | WorkerError.
Inductive ServerNotifyMessageCode := ServerOK | ServerError.
Inductive NotifyMessage :=
  | ServerNotifyMessage (code : ServerNotifyMessageCode) (msg : string)
  | WorkerNotifyMessage (code : WorkerNotifyMessageCode) (peer : net_peer_info) (msg : note_text)
  | MessageNotifyMessage (rm : RcvMessage).

(** ** The state around a connection *)

Record netw := MkNet {
  nw_sock : socket;
  nw_live : list Z;
  nw_next : Z;
  s_freeBuffers : list Buffer;
  s_lastId : Z;
  nw_notes : list NotifyMessage
}.

Definition set_sock x (w : netw) : netw := MkNet x (nw_live w) (nw_next w) (s_freeBuffers w) (s_lastId w) (nw_notes w).
Definition set_pool l n (w : netw) : netw := MkNet (nw_sock w) l n (s_freeBuffers w) (s_lastId w) (nw_notes w).
Definition set_free x (w : netw) : netw := MkNet (nw_sock w) (nw_live w) (nw_next w) x (s_lastId w) (nw_notes w).
Definition set_lastId x (w : netw) : netw := MkNet (nw_sock w) (nw_live w) (nw_next w) (s_freeBuffers w) x (nw_notes w).
Definition add_note x (w : netw) : netw := MkNet (nw_sock w) (nw_live w) (nw_next w) (s_freeBuffers w) (s_lastId w) (nw_notes w ++ [x]).

Definition Read (nbytes : Z) : M netw rdres := fun w =>
  let '(r, s) := sock_read nbytes (nw_sock w) in (Ok r, set_sock s w).
Definition Write (bs : list byte) : M netw wrres := fun w =>
  let '(r, s) := sock_write bs (nw_sock w) in (Ok r, set_sock s w).

(** Objects of the pool have a number each; giving one back twice is undefined. *)
Definition pool_get `{MemAlloc} (n : Z) : M netw (Z * memobj) := fun w =>
  (Ok (nw_next w, mp_Get n), set_pool (nw_next w :: nw_live w) (nw_next w + 1) w).
Definition pool_put (id : Z) : M netw unit := fun w =>
  if decide (id ∈ nw_live w) then (Ok tt, set_pool (list_difference (nw_live w) [id]) (nw_next w) w)
  else (Stop Undefined, w).

Definition release_one (r : release) : M netw unit :=
  match r with PutObj o => pool_put o | DeleteArr _ => mret tt end.
Fixpoint release_all (l : list release) : M netw unit :=
  match l with [] => mret tt | r :: l => release_one r;; release_all l end.

(** ** class Message: the free list of buffers *)

Module Message.
Definition HeaderSize : Z := MSG_HEADER_SIZE.

Definition GetNewBuffer : M netw Buffer := fun w =>
  match s_freeBuffers w with
  | [] => (Ok Buffer_default, w)
  | b :: bs => (Ok b, set_free bs w)
  end.

(** [GetNewBuffer(pos, last, start, end, mpo)] *)
Definition GetNewBuffer_at (pos last start end_ : Z) (mpo : Z) : M netw Buffer :=
  buf ← GetNewBuffer;
  let '(buf, released) := Refresh pos last start end_ (Some mpo) true buf in
  release_all released;;
  mret buf.

(** [GetNewBuffer(mpo, totalBufferSize)] *)
Definition GetNewBuffer_mpo (mpo : Z) (mo : memobj) (totalBufferSize : Z) : M netw dbuf :=
  let bufferStart := mo_ptr mo in
  let bufferEnd := bufferStart + totalBufferSize - 1 in
  b ← GetNewBuffer_at 0 0 bufferStart bufferEnd mpo;
  mret (DBuf b (mo_mem mo)).

Definition GetNewAvailableBuffer (mpo : Z) (mo : memobj) (totalBufferSize : Z) : M netw dbuf :=
  let bufferStart := mo_ptr mo in
  let bufferEnd := bufferStart + totalBufferSize - 1 in
  b ← GetNewBuffer_at bufferStart bufferEnd bufferStart bufferEnd mpo;
  mret (DBuf b (mo_mem mo)).

Definition PutBuffer (buffer : dbuf) : M netw unit :=
  let '(b, released) := Put (db buffer) in
  release_all released;;
  modS (fun w => set_free (s_freeBuffers w ++ [b]) w).
End Message.

(** ** class SndMessage *)

(** The two functions a class derived from [SndMessage] has to provide; a write
    outside the buffer's memory is [None]. *)
Record IDerive := MkDerive { getDerivePayloadLength : Z; encodeDerive : dbuf -> option dbuf }.

Record SndMessage := MkSnd { snd_id : Z; snd_peer : net_peer_info; snd_derive : IDerive }.

(** A store of [k] bytes at the buffer's position, a load from [off] behind it. *)
Definition db_store (k : Z) (f : list byte -> list byte) (d : dbuf) : option dbuf :=
  if (m_pStart (db d) <=? m_pPos (db d)) && (m_pPos (db d) - m_pStart (db d) + k <=? zlen (db_mem d))
  then Some (db_write f d) else None.
Definition db_load {A} (f : list byte -> option A) (off : Z) (d : dbuf) : option A :=
  if m_pPos (db d) <? m_pStart (db d) then None
  else f (drop (Z.to_nat (m_pPos (db d) - m_pStart (db d) + off)) (db_mem d)).

Module SndMessage.
Section defs.
Context `{MemAlloc} (host : byte_order).

Definition GetNewId : M netw Z := fun w =>
  let i := u64 (s_lastId w + 1) in
  let i := if i =? 18446744073709551615 then 1 else i in
  (Ok i, set_lastId i w).

(** [SndMessage(mp, peerInfo)] and [SndMessage(mp, peerInfo, id)] *)
Definition make (peer : net_peer_info) (d : IDerive) : M netw SndMessage :=
  id ← GetNewId; mret (MkSnd id peer d).
Definition make_id (peer : net_peer_info) (id : Z) (d : IDerive) : SndMessage := MkSnd id peer d.

Definition encode_header (b : dbuf) (h : Header) : option dbuf :=
  b ← db_store 4 (fun m => ByteOrderUtils.WriteUInt32 host m (h_magic h)) b;
  let b := db_op (MoveHeadBack 4) b in
  b ← db_store 8 (fun m => ByteOrderUtils.WriteUInt64 host m (h_id h)) b;
  let b := db_op (MoveHeadBack 8) b in
  b ← db_store 4 (fun m => ByteOrderUtils.WriteUInt32 host m (h_len h)) b;
  Some (db_op (MoveHeadBack 4) b).

Definition Encode (sm : SndMessage) : M netw dbuf :=
  let deriveBufferSize := getDerivePayloadLength (snd_derive sm) in
  if deriveBufferSize <=? 0 then halt Aborted
  else if MAX_MSG_PAYLOAD_SIZE <? deriveBufferSize then halt Aborted
  else
    let totalBufferSize := u32 (Message.HeaderSize + deriveBufferSize) in
    let h := MkHeader MESSAGE_MAGIC_NO (snd_id sm) deriveBufferSize in
    '(mpo, mo) ← pool_get totalBufferSize;
    buf ← Message.GetNewAvailableBuffer mpo mo totalBufferSize;
    buf ← of_mem (encode_header buf h);
    buf ← of_mem (encodeDerive (snd_derive sm) buf);
    mret (db_op (SetPos (GetStart (db buf))) buf).
End defs.
End SndMessage.

(** ** class RcvMessage *)

Module RcvMessage.
Section defs.
Context `{MemAlloc} (host : byte_order).

(** [DecodeMsgHeader(buffer, header)]: the result and the header after the call. *)
Definition DecodeMsgHeader (buffer : dbuf) (header : Header) : option (bool * Header) :=
  if u32 (AvailableLength (db buffer)) <? Message.HeaderSize then Some (false, header)
  else
    magic ← db_load (ByteOrderUtils.ReadUInt32 host) 0 buffer;
    if negb (magic =? MESSAGE_MAGIC_NO) then Some (false, MkHeader magic (h_id header) (h_len header))
    else
      id ← db_load (ByteOrderUtils.ReadUInt64 host) 4 buffer;
      len ← db_load (ByteOrderUtils.ReadUInt32 host) 12 buffer;
      Some (len <=? MAX_MSG_PAYLOAD_SIZE, MkHeader magic id len).

(** [sizeof(RcvMessage)] on x86-64 with libstdc++: the virtual table pointer, the
    header (24), the pool, the peer (48), the buffer and the pool object. *)
Definition size : Z := 8 + 24 + 8 + 48 + 8 + 8.

Definition getNewRcvMessage (peer : net_peer_info) (h : Header) (buffer : dbuf) : M netw RcvMessage :=
  '(rmMpo, _) ← pool_get size;
  mret (MkRcv rmMpo peer h buffer).

(** [~RcvMessage()], and [releaseRcvMessage] *)
Definition destroy (rm : RcvMessage) : M netw unit :=
  pool_put (rm_mpo rm);;
  Message.PutBuffer (rm_buffer rm).
End defs.
End RcvMessage.

(** ** The messages of the handshake *)

Module ConnectRequestMessage.
Definition derive (host : byte_order) (logicPort : Z) : IDerive :=
  MkDerive 2 (db_store 2 (fun m => ByteOrderUtils.WriteUInt16 host m (u16 logicPort))).
End ConnectRequestMessage.

Module ConnectResponseMessage.
Inductive Status := OK | ERROR.
Definition status_code (s : Status) : Z := match s with OK => 0 | ERROR => 1 end.

Definition derive (host : byte_order) (m_stat : Status) (m_sWhat : list byte) : IDerive :=
  MkDerive (u32 (2 + zlen m_sWhat)) (fun b =>
    b ← db_store 2 (fun m => ByteOrderUtils.WriteUInt16 host m (status_code m_stat)) b;
    let b := db_op (MoveHeadBack 2) b in
    db_store (zlen m_sWhat) (mem_write 0 m_sWhat) b).
End ConnectResponseMessage.
