(* ===== verification/NetWorker.v ===== *)
(** * The message worker of a connection (src/net/.../network-api/net-stack-msg-worker,
    .../posix/tcp/net-stack-worker)

    [PosixTcpNetStackWorker] with the members of the class and of its base
    [ANetStackMessageWorker]; [Recv] and [Send] are what the event loop calls when the
    socket is readable or writable, [handshake] and [Initialize] open a connection.
    [Recv] handles the handshake's messages itself and [handshake] receives the next
    one with [Recv]: the two are one recursion, bounded by [fuel], of which every round
    takes one.  A round that does not end the call has read a byte, so that fuel above
    the number of bytes on the socket is enough ([NetRecv]).

    One thread works on a connection.  The peer information the socket descriptor
    keeps is part of the worker, and [m_onLogicConnect] is the answer of that
    callback. *)

From S2P Require Import Prelude Codec Buffer Posix BlockingQueue Net.

Inductive NetWorkerState := StartToRcvHeader | RcvingHeader | StartToRcvPayload | RcvingPayload.
Inductive ConnectionState := Connecting | ConnectSe | ConnectingRe | WaitLastACK | Connected.
Inductive CreatorType := Client | Server.

#[global] Instance ConnectionState_eq_dec : EqDecision ConnectionState.
Proof. solve_decision. Defined.

Record worker := MkWorker {
  m_ct : CreatorType;
  m_iLogicPort : Z;
  m_realPeer : net_peer_info;
  m_onLogicConnect : bool;
  m_msgCallback : bool;
  m_logicPeer : net_peer_info;
  m_pHeaderBuffer : dbuf;
  m_bqMessages : BlockingQueue SndMessage;
  m_rcvState : NetWorkerState;
  m_header : Header;
  m_payloadBuffer : option dbuf;
  m_pSendingBuffer : option dbuf;
  m_connState : ConnectionState;
  m_bConnHandShakeCompleted : bool
}.

Definition upd (o : worker) (lp : net_peer_info) (hb : dbuf) (bq : BlockingQueue SndMessage) (rs : NetWorkerState)
    (h : Header) (pb sb : option dbuf) (cs : ConnectionState) (done : bool) : worker :=
  MkWorker (m_ct o) (m_iLogicPort o) (m_realPeer o) (m_onLogicConnect o) (m_msgCallback o) lp hb bq rs h pb sb cs done.

Definition set_logicPeer x (o : worker) : worker :=
  upd o x (m_pHeaderBuffer o) (m_bqMessages o) (m_rcvState o) (m_header o) (m_payloadBuffer o) (m_pSendingBuffer o)
    (m_connState o) (m_bConnHandShakeCompleted o).
Definition set_headerBuffer x (o : worker) : worker :=
  upd o (m_logicPeer o) x (m_bqMessages o) (m_rcvState o) (m_header o) (m_payloadBuffer o) (m_pSendingBuffer o)
    (m_connState o) (m_bConnHandShakeCompleted o).
Definition set_bq x (o : worker) : worker :=
  upd o (m_logicPeer o) (m_pHeaderBuffer o) x (m_rcvState o) (m_header o) (m_payloadBuffer o) (m_pSendingBuffer o)
    (m_connState o) (m_bConnHandShakeCompleted o).
Definition set_rcvState x (o : worker) : worker :=
  upd o (m_logicPeer o) (m_pHeaderBuffer o) (m_bqMessages o) x (m_header o) (m_payloadBuffer o) (m_pSendingBuffer o)
    (m_connState o) (m_bConnHandShakeCompleted o).
Definition set_header x (o : worker) : worker :=
  upd o (m_logicPeer o) (m_pHeaderBuffer o) (m_bqMessages o) (m_rcvState o) x (m_payloadBuffer o) (m_pSendingBuffer o)
    (m_connState o) (m_bConnHandShakeCompleted o).
Definition set_payload x (o : worker) : worker :=
  upd o (m_logicPeer o) (m_pHeaderBuffer o) (m_bqMessages o) (m_rcvState o) (m_header o) x (m_pSendingBuffer o)
    (m_connState o) (m_bConnHandShakeCompleted o).
Definition set_sending x (o : worker) : worker :=
  upd o (m_logicPeer o) (m_pHeaderBuffer o) (m_bqMessages o) (m_rcvState o) (m_header o) (m_payloadBuffer o) x
    (m_connState o) (m_bConnHandShakeCompleted o).
Definition set_connState x (o : worker) : worker :=
  upd o (m_logicPeer o) (m_pHeaderBuffer o) (m_bqMessages o) (m_rcvState o) (m_header o) (m_payloadBuffer o)
    (m_pSendingBuffer o) x (m_bConnHandShakeCompleted o).
Definition set_completed x (o : worker) : worker :=
  upd o (m_logicPeer o) (m_pHeaderBuffer o) (m_bqMessages o) (m_rcvState o) (m_header o) (m_payloadBuffer o)
    (m_pSendingBuffer o) (m_connState o) x.

Definition NM (A : Type) : Type := M (worker * netw) A.

(** [*p] for a pointer member: a null pointer is undefined behaviour. *)
Definition deref {A} (o : option A) : NM A := of_mem o.

Section worker.
Context `{MemAlloc} (host : byte_order).

(** ** class ANetStackMessageWorker *)

(** The constructors: the base class takes the header's buffer from the pool. *)
Definition worker_new (ct : CreatorType) (logicPort : Z) (real logic : net_peer_info) (onLogicConnect callback : bool) :
    M netw worker :=
  '(mpo, mo) ← pool_get Message.HeaderSize;
  mret (MkWorker ct logicPort real onLogicConnect callback logic
          (DBuf (GetNewBuffer (mo_ptr mo) mpo Message.HeaderSize) (mo_mem mo))
          (MkQ 0 []) StartToRcvHeader (MkHeader 0 0 0) None None Connecting false).

Definition HandleMessage (m : NotifyMessage) : NM unit :=
  cb ← getO m_msgCallback;
  if cb : bool then io (modS (add_note m)) else mret tt.

(** A round of the queue that returns: [TryPush] and [TryPop] never wait. *)
Definition InsertMessage (m : SndMessage) : NM bool :=
  bq ← getO m_bqMessages;
  match TryPush m bq with
  | Return (RBool b) bq' _ => modO (set_bq bq');; mret b
  | _ => halt Diverged
  end.

(** [m_bqMessages->TryPop(sm)] *)
Definition pop_message : NM (option SndMessage) :=
  bq ← getO m_bqMessages;
  match TryPop bq with
  | Return (RItem r) bq' _ => modO (set_bq bq');; mret r
  | _ => halt Diverged
  end.

(** [SendMessage]: whether the message was accepted, and whether a write event is
    added to the event loop, which is then woken up. *)
Definition SendMessage (m : SndMessage) : NM (bool * bool) :=
  previousSize ← getO (fun o => zlen (m_queue (m_bqMessages o)));
  rc ← InsertMessage m;
  mret (rc, rc && (previousSize =? 0)).

(** [ClearMessage]: the queued messages are dropped, not deleted. *)
Definition ClearMessage : NM unit :=
  bq ← getO m_bqMessages;
  match Clear bq with
  | Return _ bq' _ => modO (set_bq bq')
  | Wait => halt Diverged
  end.

(** ** Notifications *)

Definition NotifyWorkerBrokenMessage (err : option Z) : NM unit :=
  peer ← getO m_realPeer;
  HandleMessage (WorkerNotifyMessage WorkerError peer (ErrText err)).
Definition NotifyWorkerPeerClosedMessage : NM unit :=
  peer ← getO m_realPeer;
  HandleMessage (WorkerNotifyMessage ClosedByPeer peer (ClosedBy peer)).

(** ** Send *)

Definition Put_Send_Buffer : NM unit :=
  b ← getO m_pSendingBuffer;
  b ← deref b;
  io (Message.PutBuffer b);;
  modO (set_sending None).

Fixpoint send_loop (fuel : nat) : NM bool :=
  match fuel with
  | O => halt Diverged
  | S fuel =>
      sb ← getO m_pSendingBuffer;
      let size := match sb with Some b => u64 (AvailableLength (db b)) | None => 0 end in
      if 0 <? size then
        b ← deref sb;
        n ← io (Write (slice (m_pPos (db b) - m_pStart (db b)) size (db_mem b)));
        match n with
        | WrSent 0 =>
            Put_Send_Buffer;;
            NotifyWorkerPeerClosedMessage;;
            mret false
        | WrSent n =>
            let b := db_op (MoveHeadBack (u32 n)) b in
            modO (set_sending (Some b));;
            (if AvailableLength (db b) <=? 0 then Put_Send_Buffer else mret tt);;
            send_loop fuel
        | WrFail e =>
            if e =? EAGAIN then mret true
            else
              Put_Send_Buffer;;
              NotifyWorkerBrokenMessage (Some e);;
              mret false
        end
      else
        sm ← pop_message;
        match sm with
        | Some sm =>
            b ← io (SndMessage.Encode host sm);
            modO (set_sending (Some b));;
            send_loop fuel
        | None => mret true
        end
  end.
Definition Send : nat -> NM bool := send_loop.

(** ** Recv *)

Definition CheckAndInitBufferPos (b : dbuf) : dbuf :=
  if m_pPos (db b) =? 0 then db_op (SetPos (GetStart (db b))) b else b.

(** [::read] into the buffer's memory at [off], of at most [n] bytes. *)
Definition read_into (off n : Z) (b : dbuf) : NM (rdres * dbuf) :=
  r ← io (Read n);
  match r with
  | RdGot bs =>
      if (0 <=? off) && (off + zlen bs <=? zlen (db_mem b))
      then mret (r, DBuf (db b) (mem_write off bs (db_mem b)))
      else halt Undefined
  | RdBlocked => halt Diverged
  | RdFail _ => mret (r, b)
  end.

(** Where the next bytes go: behind [last], or at the start. *)
Definition read_pos (b : dbuf) : Z :=
  if negb (GetLast (db b) =? 0) then GetLast (db b) + 1 - GetStart (db b) else 0.

(** The macros give [rc] and [interrupt] after them. *)
Definition ParseHeader (err : option Z) : NM (bool * bool) :=
  b ← getO m_pHeaderBuffer;
  if AvailableLength (db b) =? TotalLength (db b) then
    h ← getO m_header;
    '(headerRc, h) ← of_mem (RcvMessage.DecodeMsgHeader host b h);
    modO (set_header h);;
    if headerRc : bool then modO (set_rcvState StartToRcvPayload);; mret (true, false)
    else NotifyWorkerBrokenMessage err;; mret (false, false)
  else
    modO (set_rcvState RcvingHeader);;
    mret (true, true).

Definition ProcessAfterRcvHeader (n : rdres) (err : option Z) : NM (bool * bool) :=
  match n with
  | RdGot [] => NotifyWorkerPeerClosedMessage;; mret (false, false)
  | RdGot bs =>
      modO (fun o => set_headerBuffer
        (db_op (MoveTailBack (u32 (zlen bs))) (CheckAndInitBufferPos (m_pHeaderBuffer o))) o);;
      ParseHeader err
  | RdFail e =>
      if e =? EAGAIN then mret (true, true)
      else NotifyWorkerBrokenMessage (Some e);; mret (false, true)
  | RdBlocked => halt Diverged
  end.

(** [handshake_] is the worker's [handshake]. *)
Definition CheckPayload (handshake_ : RcvMessage -> NM unit) (breakWhenRecvOne : bool) : NM (bool * bool) :=
  pb ← getO m_payloadBuffer;
  b ← deref pb;
  len ← getO (fun o => h_len (m_header o));
  if u32 (AvailableLength (db b)) =? len then
    modO (set_rcvState StartToRcvHeader);;
    peer ← getO m_logicPeer;
    h ← getO m_header;
    rcvMessage ← io (RcvMessage.getNewRcvMessage peer h b);
    cs ← getO m_connState;
    (match cs with
     | Connected => HandleMessage (MessageNotifyMessage rcvMessage)
     | _ => handshake_ rcvMessage
     end);;
    modO (set_payload None);;
    mret (true, breakWhenRecvOne)
  else
    modO (set_rcvState RcvingPayload);;
    mret (true, true).

Definition ProcessAfterRcvPayload (handshake_ : RcvMessage -> NM unit) (breakWhenRecvOne : bool) (n : rdres) :
    NM (bool * bool) :=
  match n with
  | RdGot [] => NotifyWorkerPeerClosedMessage;; mret (false, false)
  | RdGot bs =>
      pb ← getO m_payloadBuffer;
      b ← deref pb;
      modO (set_payload (Some (db_op (MoveTailBack (u32 (zlen bs))) (CheckAndInitBufferPos b))));;
      CheckPayload handshake_ breakWhenRecvOne
  | RdFail e =>
      if e =? EAGAIN then mret (true, true)
      else NotifyWorkerBrokenMessage (Some e);; mret (false, true)
  | RdBlocked => halt Diverged
  end.

Definition err_of (n : rdres) (err : option Z) : option Z := match n with RdFail e => Some e | _ => err end.

(** One round of the loop of [Recv]: [rc], [interrupt] and [err] after it. *)
Definition recv_round (handshake_ : RcvMessage -> NM unit) (breakWhenRecvOne : bool) (err : option Z) :
    NM (bool * bool * option Z) :=
  st ← getO m_rcvState;
  match st with
  | StartToRcvHeader =>
      modO (fun o => set_headerBuffer
        (DBuf (BZero (db (m_pHeaderBuffer o)))
           (mem_write 0 (replicate (Z.to_nat (m_pEnd (db (m_pHeaderBuffer o)) - m_pStart (db (m_pHeaderBuffer o)) + 1)) x00)
              (db_mem (m_pHeaderBuffer o)))) o);;
      b ← getO m_pHeaderBuffer;
      '(n, b) ← read_into 0 (u64 (TotalLength (db b))) b;
      modO (set_headerBuffer b);;
      '(rc, interrupt) ← ProcessAfterRcvHeader n (err_of n err);
      mret (rc, interrupt, err_of n err)
  | RcvingHeader =>
      b ← getO m_pHeaderBuffer;
      '(n, b) ← read_into (read_pos b) (UnusedSize (db b)) b;
      modO (set_headerBuffer b);;
      '(rc, interrupt) ← ProcessAfterRcvHeader n (err_of n err);
      mret (rc, interrupt, err_of n err)
  | StartToRcvPayload =>
      len ← getO (fun o => h_len (m_header o));
      '(mpo, mo) ← io (pool_get len);
      b ← io (Message.GetNewBuffer_mpo mpo mo len);
      modO (set_payload (Some b));;
      '(n, b) ← read_into 0 (u64 (TotalLength (db b))) b;
      modO (set_payload (Some b));;
      '(rc, interrupt) ← ProcessAfterRcvPayload handshake_ breakWhenRecvOne n;
      mret (rc, interrupt, err_of n err)
  | RcvingPayload =>
      pb ← getO m_payloadBuffer;
      b ← deref pb;
      '(n, b) ← read_into (read_pos b) (UnusedSize (db b)) b;
      modO (set_payload (Some b));;
      '(rc, interrupt) ← ProcessAfterRcvPayload handshake_ breakWhenRecvOne n;
      mret (rc, interrupt, err_of n err)
  end.

(** ** The handshake *)

Definition COMPLETE_AND_FIRE : NM unit := modO (set_completed true).

(** [new ConnectResponseMessage(pool, status, what)] *)
Definition connect_response (s : ConnectResponseMessage.Status) (what : list byte) : NM SndMessage :=
  io (SndMessage.make net_peer_info_default (ConnectResponseMessage.derive host s what)).

(** [if (UNLIKELY(!(ok = InsertMessage(crm)))) ... else if (!(ok = Send())) ...] *)
Definition insert_and_send (fuel : nat) (crm : SndMessage) : NM bool :=
  ok ← InsertMessage crm;
  if ok : bool then Send fuel else mret false.

Definition release_rm (rm : RcvMessage) : NM unit := io (RcvMessage.destroy rm).

Definition unexpected_text : list byte := String.list_byte_of_string "handshake recv unexpected state.".

(** [send_fuel] bounds the loop of [Send], [recv] is [Recv(true)]. *)
Definition handshake (send_fuel : nat) (recv : NM bool) (rm : RcvMessage) : NM unit :=
  cs ← getO m_connState;
  match cs with
  | ConnectSe =>
      let buffer := rm_buffer rm in
      res ← of_mem (db_load (ByteOrderUtils.ReadUInt16 host) 0 buffer);
      if negb (res =? ConnectResponseMessage.status_code ConnectResponseMessage.OK) then
        let buffer := db_op (MoveHeadBack 2) buffer in
        let whatLen := AvailableLength (db buffer) in
        '(whatMpo, _) ← io (pool_get (u32 (whatLen + 1)));
        io (pool_put whatMpo);;
        COMPLETE_AND_FIRE;;
        release_rm (MkRcv (rm_mpo rm) (rm_peer rm) (rm_header rm) buffer)
      else
        crm ← connect_response ConnectResponseMessage.OK [];
        ok ← insert_and_send send_fuel crm;
        (if ok : bool then
           modO (set_connState WaitLastACK);;
           r ← recv;
           if r : bool then mret tt else COMPLETE_AND_FIRE
         else COMPLETE_AND_FIRE);;
        release_rm rm
  | WaitLastACK =>
      res ← of_mem (db_load (ByteOrderUtils.ReadUInt16 host) 0 (rm_buffer rm));
      release_rm rm;;
      (if res =? ConnectResponseMessage.status_code ConnectResponseMessage.OK then
         c ← getO m_onLogicConnect;
         if c : bool then modO (set_connState Connected) else mret tt
       else mret tt);;
      COMPLETE_AND_FIRE
  | Connecting =>
      let buffer := rm_buffer rm in
      if negb (AvailableLength (db buffer) =? 2) then
        crm ← connect_response ConnectResponseMessage.ERROR [];
        InsertMessage crm;;
        Send send_fuel;;
        release_rm rm;;
        COMPLETE_AND_FIRE
      else
        port ← of_mem (db_load (ByteOrderUtils.ReadUInt16 host) 0 buffer);
        modO (fun o => set_logicPeer (MkPeer (np_addr (m_realPeer o)) port Tcp) o);;
        crm ← connect_response ConnectResponseMessage.OK [];
        ok ← insert_and_send send_fuel crm;
        (if ok : bool then
           modO (set_connState ConnectingRe);;
           r ← recv;
           if r : bool then mret tt else COMPLETE_AND_FIRE
         else COMPLETE_AND_FIRE);;
        release_rm rm
  | ConnectingRe =>
      release_rm rm;;
      c ← getO m_onLogicConnect;
      crm ← connect_response (if c : bool then ConnectResponseMessage.OK else ConnectResponseMessage.ERROR) [];
      sent ← insert_and_send send_fuel crm;
      (if c && sent then modO (set_connState Connected) else mret tt);;
      COMPLETE_AND_FIRE
  | Connected =>
      crm ← connect_response ConnectResponseMessage.ERROR unexpected_text;
      ok ← InsertMessage crm;
      (if ok : bool then Send send_fuel;; mret tt else mret tt);;
      COMPLETE_AND_FIRE;;
      release_rm rm
  end.

(** The loop of [Recv]; a nested [Recv(true)] of the handshake has the fuel that is
    left. *)
Fixpoint recv_loop (send_fuel fuel : nat) (breakWhenRecvOne : bool) (err : option Z) : NM bool :=
  match fuel with
  | O => halt Diverged
  | S fuel =>
      '(rc, interrupt, err) ← recv_round (handshake send_fuel (recv_loop send_fuel fuel true None)) breakWhenRecvOne err;
      if rc && negb interrupt then recv_loop send_fuel fuel breakWhenRecvOne err else mret rc
  end.
Definition Recv (send_fuel fuel : nat) (breakWhenRecvOne : bool) : NM bool :=
  recv_loop send_fuel fuel breakWhenRecvOne None.

(** [Initialize]: nobody else works on the connection yet, so that the wait for the
    handshake to be completed ends at once or never. *)
Definition Initialize (send_fuel fuel : nat) : NM bool :=
  modO (set_connState Connecting);;
  ct ← getO m_ct;
  sent ← match ct with
         | Client =>
             port ← getO m_iLogicPort;
             crm ← io (SndMessage.make net_peer_info_default (ConnectRequestMessage.derive host port));
             ok ← insert_and_send send_fuel crm;
             (if ok : bool then modO (set_connState ConnectSe) else mret tt);;
             mret ok
         | Server => mret true
         end;
  if negb sent then mret false
  else
    r ← Recv send_fuel fuel true;
    if negb r then mret false
    else
      completed ← getO m_bConnHandShakeCompleted;
      if negb completed then halt Diverged
      else getO (fun o => bool_decide (m_connState o = Connected)).

(** [~PosixTcpNetStackWorker()] and [~ANetStackMessageWorker()]: the queued messages
    are deleted with the queue. *)
Definition worker_destroy : NM unit :=
  modO (set_completed true);;
  pb ← getO m_payloadBuffer;
  (match pb with Some b => io (Message.PutBuffer b) | None => mret tt end);;
  sb ← getO m_pSendingBuffer;
  (match sb with Some b => io (Message.PutBuffer b) | None => mret tt end);;
  modO (fun o => set_bq (MkQ (m_iQueueMaxSize (m_bqMessages o)) []) o);;
  hb ← getO m_pHeaderBuffer;
  io (release_all (Buffer_destroy (db hb))).
End worker.
