(* ===== verification/NetRecv.v ===== *)
(** * Receiving messages

    The stream of a connection is a sequence of frames: magic number, id, length and
    payload.  [receiving o p] says that a worker has read the bytes [p] of a frame it
    has not finished; [heard] is what the user's callback was given.  Whatever arrives
    on the socket and however it is cut into reads, [Recv] splits it into frames. *)

From S2P Require Import Prelude Codec Buffer Posix Records BlockingQueue Net NetWorker.

(** ** Frames *)

Record wire := Wire { w_id : Z; w_payload : list byte }.

Definition wire_header (id len : Z) : list byte :=
  be_bytes 4 MESSAGE_MAGIC_NO ++ be_bytes 8 id ++ be_bytes 4 len.
Definition wire_bytes (m : wire) : list byte := wire_header (w_id m) (zlen (w_payload m)) ++ w_payload m.
Definition wires (ms : list wire) : list byte := concat (map wire_bytes ms).

Definition id_ok (id : Z) : Prop := 0 <= id < 18446744073709551616.
Definition wire_ok (m : wire) : Prop := id_ok (w_id m) /\ 0 < zlen (w_payload m) <= MAX_MSG_PAYLOAD_SIZE.

(** The beginning of a frame: a header that is not complete, or a header and less than
    its payload. *)
Definition partial (p : list byte) : Prop :=
  zlen p < 16 \/
  exists id len q, p = wire_header id len ++ q /\ id_ok id /\ 0 <= len <= MAX_MSG_PAYLOAD_SIZE /\ (zlen q < len \/ len = 0 /\ q = []).

(** Sixteen bytes [DecodeMsgHeader] rejects. *)
Definition bad_header (p : list byte) : Prop :=
  zlen p = 16 /\ forall id len, id_ok id -> 0 <= len <= MAX_MSG_PAYLOAD_SIZE -> p <> wire_header id len.

Lemma wire_header_length id len : zlen (wire_header id len) = 16.
Proof. unfold wire_header. zlens. lia. Qed.
#[export] Hint Rewrite wire_header_length : flykv.

Lemma wires_app a b : wires (a ++ b) = wires a ++ wires b.
Proof. unfold wires. by rewrite map_app, concat_app. Qed.

Lemma wire_header_inj i l i' l' :
  id_ok i -> id_ok i' -> 0 <= l <= MAX_MSG_PAYLOAD_SIZE -> 0 <= l' <= MAX_MSG_PAYLOAD_SIZE ->
  wire_header i l = wire_header i' l' -> i = i' /\ l = l'.
Proof.
  unfold wire_header, id_ok, MAX_MSG_PAYLOAD_SIZE. intros Hi Hi' Hl Hl' E.
  apply app_inj_1 in E as [_ E]; [|done].
  apply app_inj_1 in E as [E1%(f_equal be_val) E2%(f_equal be_val)]; [|by rewrite !be_bytes_length].
  rewrite !be_val_bytes, !Z.mod_small in E1, E2 by lia. done.
Qed.

(** Two streams with the same header at their start have the same header there. *)
Lemma header_app_inj i l i' l' x y :
  id_ok i -> id_ok i' -> 0 <= l <= MAX_MSG_PAYLOAD_SIZE -> 0 <= l' <= MAX_MSG_PAYLOAD_SIZE ->
  wire_header i l ++ x = wire_header i' l' ++ y -> i = i' /\ l = l' /\ x = y.
Proof.
  intros ???? E. apply app_inj_1 in E as [E ->].
  - apply wire_header_inj in E as [-> ->]; done.
  - apply Nat2Z.inj. change (zlen (wire_header i l) = zlen (wire_header i' l')). by rewrite !wire_header_length.
Qed.

Lemma wire_not_partial m x : wire_ok m -> ~ partial (wire_bytes m ++ x).
Proof.
  intros [Hi Hl] [Hp|(id&len&q&E&Hid&Hlen&Hq)]; unfold wire_bytes in *; rewrite <- app_assoc in *.
  - rewrite !zlen_app, wire_header_length in Hp. pose proof (zlen_nonneg x). lia.
  - apply header_app_inj in E as (<-&<-&<-); [|done || lia..].
    rewrite zlen_app in Hq. pose proof (zlen_nonneg x).
    destruct Hq as [Hq|[Hq _]]; lia.
Qed.

Lemma wire_app_inj m m' x y :
  wire_ok m -> wire_ok m' -> wire_bytes m ++ x = wire_bytes m' ++ y -> m = m' /\ x = y.
Proof.
  destruct m as [i p], m' as [i' p']. intros [Hi Hl] [Hi' Hl'] E. unfold wire_bytes in *. cbn [w_id w_payload] in *.
  rewrite <- !app_assoc in E. apply header_app_inj in E as (<-&El&E); [|done || lia..].
  apply app_inj_1 in E as [<- <-]; [done|]. unfold zlen in El. lia.
Qed.

Lemma wires_cons m ms : wires (m :: ms) = wire_bytes m ++ wires ms.
Proof. done. Qed.

(** The frames at the start of a stream of frames are its first ones. *)
Lemma wires_prefix ms ms' x :
  Forall wire_ok ms -> Forall wire_ok ms' -> wires ms ++ x = wires ms' -> exists ms2, ms' = ms ++ ms2 /\ x = wires ms2.
Proof.
  intros Hms. revert ms'. induction Hms as [|m ms Hm Hms IH]; intros ms' Hms' E; [by exists ms'|].
  rewrite wires_cons, <- app_assoc in E. destruct Hms' as [|m' ms' Hm' Hms'].
  - apply (f_equal zlen) in E. unfold wire_bytes in E. autorewrite with flykv in E. destruct Hm as [_ ?].
    pose proof (zlen_nonneg (wires ms)). pose proof (zlen_nonneg x). change (zlen (wires [])) with 0 in E. lia.
  - rewrite wires_cons in E. apply wire_app_inj in E as [<- E]; [|done..].
    apply IH in E as (ms2&->&->); [|done]. by exists ms2.
Qed.

(** What no frame starts with is not at the start of a frame. *)
Definition no_start (h : list byte) : Prop :=
  zlen h = 16 /\ forall m, wire_ok m -> h <> wire_header (w_id m) (zlen (w_payload m)).

Lemma wires_no_start ms ms' h x :
  Forall wire_ok ms -> Forall wire_ok ms' -> no_start h -> wires ms ++ h ++ x <> wires ms'.
Proof.
  intros Hms Hms' [Hh Hb] E. apply wires_prefix in E as (ms2&->&E); [|done..].
  apply Forall_app in Hms' as [_ H2]. destruct H2 as [|m ms2 Hm _].
  - apply (f_equal zlen) in E. rewrite zlen_app in E. pose proof (zlen_nonneg x). change (zlen (wires [])) with 0 in E. lia.
  - rewrite wires_cons in E. unfold wire_bytes in E. rewrite <- app_assoc in E.
    apply app_inj_1 in E as [E _]; [by eapply Hb|].
    apply Nat2Z.inj. change (zlen h = zlen (wire_header (w_id m) (zlen (w_payload m)))). by rewrite wire_header_length.
Qed.

Lemma bad_no_start h : bad_header h -> no_start h.
Proof. intros [Hz Hb]. split; [done|]. intros m [Hi Hl]. apply Hb; [done|lia]. Qed.

Lemma empty_no_start id : id_ok id -> no_start (wire_header id 0).
Proof.
  intros Hid. split; [apply wire_header_length|]. intros m [Hi Hl] E. apply wire_header_inj in E; [|done || lia..].
  unfold MAX_MSG_PAYLOAD_SIZE. lia.
Qed.

(** ** Reads *)

Fixpoint bytes_of (evs : list revent) : list byte :=
  match evs with
  | [] => []
  | RdBytes b bs :: evs => (b :: bs) ++ bytes_of evs
  | _ :: evs => bytes_of evs
  end.

(** How much is left to read: the bytes and the events. *)
Definition unread (evs : list revent) : nat := (length (bytes_of evs) + length evs)%nat.

(** A failing read was preceded by its error. *)
Definition read_ok (evs : list revent) (r : rdres) (evs' : list revent) : Prop :=
  match r with
  | RdGot [] => bytes_of evs' = bytes_of evs /\ RdEof ∈ evs /\ (unread evs' <= unread evs)%nat
  | RdGot bs => bytes_of evs = bs ++ bytes_of evs' /\ (unread evs' < unread evs)%nat
  | RdFail e =>
      bytes_of evs' = bytes_of evs /\ e <> EINTR /\
      ((e = EAGAIN /\ evs' = [] /\ (unread evs' <= unread evs)%nat) \/ (RdErr e ∈ evs /\ (unread evs' < unread evs)%nat))
  | RdBlocked => False
  end /\ (forall e, e ∈ evs' -> (forall b bs, e <> RdBytes b bs) -> e ∈ evs).

Lemma read_events_ok n evs :
  0 < n -> let '(r, evs') := read_events true n evs in
  read_ok evs r evs' /\ match r with RdGot bs => zlen bs <= n | _ => True end.
Proof.
  intros Hn. induction evs as [|[b bs|e|] evs IH]; cbn [read_events].
  - split; [|done]. split; [|done]. split; [done|]. split; [done|]. left. done.
  - destruct (Z.to_nat n) as [|k] eqn:En; [lia|]. cbn [take drop].
    assert (bytes_of (RdBytes b bs :: evs) = (b :: take k bs) ++ drop k bs ++ bytes_of evs) as Hb.
    { cbn [bytes_of]. cbn [app]. by rewrite app_assoc, take_drop. }
    split; [|rewrite zlen_cons; unfold zlen; rewrite length_take; lia].
    destruct (drop k bs) as [|c cs] eqn:Ed; (split; [split; [exact Hb|]|]).
    + unfold unread. rewrite Hb. simpl. rewrite !length_app. simpl. lia.
    + intros e He Hne. by apply list_elem_of_further.
    + unfold unread. rewrite Hb. simpl. rewrite !length_app. simpl. rewrite length_app. lia.
    + intros e [->|He]%elem_of_cons Hne; [by destruct (Hne c cs)|by apply list_elem_of_further].
  - destruct (Z.eqb_spec e EINTR) as [->|He].
    + destruct (read_events true n evs) as [r evs'] eqn:Er. destruct IH as [[IH IHe] IHn]. split; [|done].
      split; [|intros; apply list_elem_of_further; auto].
      assert (unread (RdErr EINTR :: evs) = S (unread evs)) as Hl by (unfold unread; simpl; lia).
      destruct r as [[|b bs]|e|]; simpl in *.
      * destruct IH as (?&?&?). split; [done|]. split; [by apply list_elem_of_further|lia].
      * destruct IH. split; [done|lia].
      * destruct IH as (?&?&[(?&?&?)|(?&?)]); (split; [done|]; split; [done|]).
        -- left. split; [done|]. split; [done|lia].
        -- right. split; [by apply list_elem_of_further|lia].
      * done.
    + split; [|done]. split; [|intros; by apply list_elem_of_further]. split; [done|]. split; [done|]. right.
      split; [by left|unfold unread; simpl; lia].
  - split; [|unfold zlen; simpl; lia]. split; [|done]. split; [done|]. split; [by left|lia].
Qed.

(** ** Buffers that fill up *)

(** Of the [n] bytes of the buffer the first ones, [p], have arrived. *)
Record filled (n : Z) (d : dbuf) (p : list byte) : Prop := {
  fl_start : 0 < m_pStart (db d);
  fl_end : m_pEnd (db d) = m_pStart (db d) + n - 1;
  fl_size : zlen p <= n <= zlen (db_mem d);
  fl_mem : exists rest, db_mem d = p ++ rest;
  fl_state : match p with
    | [] => m_pPos (db d) = 0 /\ m_pLast (db d) = 0 /\ m_bAvailable (db d) = false
    | _ => m_pPos (db d) = m_pStart (db d) /\ m_pLast (db d) = m_pStart (db d) + zlen p - 1 /\ m_bAvailable (db d) = true
    end
}.

(** The memory a buffer was made over. *)
Definition over (n : Z) (d : dbuf) : Prop :=
  0 < m_pStart (db d) /\ m_pEnd (db d) = m_pStart (db d) + n - 1 /\ n <= zlen (db_mem d).

Lemma filled_over n d p : filled n d p -> over n d.
Proof. intros [?? [??] ??]. done. Qed.

Section filled.
Context (n : Z) (d : dbuf) (p : list byte) (Hn : 0 < n <= MAX_MSG_PAYLOAD_SIZE) (Hf : filled n d p).

Lemma over_total : TotalLength (db d) = n.
Proof.
  destruct Hf as [Hs He _ _ _]. unfold TotalLength, MAX_MSG_PAYLOAD_SIZE in *. rewrite He.
  destruct (Z.eqb_spec (m_pStart (db d)) 0); [lia|]. destruct (Z.eqb_spec (m_pStart (db d) + n - 1) 0); [lia|].
  cbn [orb]. rewrite !i32_small; [lia|..]; rewrite ?i32_small; lia.
Qed.

Lemma filled_avail : AvailableLength (db d) = zlen p.
Proof.
  destruct Hf as [Hs He Hz _ Hst]. unfold MAX_MSG_PAYLOAD_SIZE in *. destruct p as [|b p'].
  - destruct Hst as (_&_&Ha). by rewrite AvailableLength_false.
  - destruct Hst as (Hp&Hl&Ha). rewrite zlen_cons in *. pose proof (zlen_nonneg p').
    rewrite AvailableLength_avail; [lia|done| |lia]. intros _. lia.
Qed.

Lemma filled_read_pos : read_pos d = zlen p.
Proof.
  destruct Hf as [Hs He Hz _ Hst]. unfold read_pos, GetLast, GetStart. destruct p as [|b p'].
  - destruct Hst as (_&->&_). done.
  - destruct Hst as (Hp&Hl&Ha). rewrite zlen_cons in *. pose proof (zlen_nonneg p').
    destruct (Z.eqb_spec (m_pLast (db d)) 0); cbn [negb]; lia.
Qed.

Lemma filled_unused : p <> [] -> UnusedSize (db d) = n - zlen p.
Proof.
  destruct Hf as [Hs He Hz _ Hst]. unfold UnusedSize, MAX_MSG_PAYLOAD_SIZE in *. destruct p as [|b p']; [done|]. intros _.
  destruct Hst as (Hp&Hl&Ha). rewrite zlen_cons in *. pose proof (zlen_nonneg p'). rewrite Ha. cbn [negb].
  destruct (Z.eqb_spec (m_pLast (db d)) 0); cbn [negb]; [lia|]. rewrite u64_small; lia.
Qed.

(** The bytes of a read, stored behind the earlier ones. *)
Lemma filled_more bs :
  bs <> [] -> zlen p + zlen bs <= n ->
  filled n (db_op (MoveTailBack (u32 (zlen bs)))
    (CheckAndInitBufferPos (DBuf (db d) (mem_write (zlen p) bs (db_mem d))))) (p ++ bs).
Proof.
  intros Hbs%zlen_pos Hle. destruct Hf as [Hs He Hz [rest Hm] Hst]. unfold MAX_MSG_PAYLOAD_SIZE in *.
  pose proof (zlen_nonneg p) as Hzp. rewrite u32_small by lia.
  assert (zlen bs <= zlen rest) as Hr by (rewrite Hm, zlen_app in Hz; lia).
  assert (forall b', filled n (DBuf b' (mem_write (zlen p) bs (db_mem d))) (p ++ bs) <->
    0 < m_pStart b' /\ m_pEnd b' = m_pStart b' + n - 1 /\ m_pPos b' = m_pStart b' /\
    m_pLast b' = m_pStart b' + zlen (p ++ bs) - 1 /\ m_bAvailable b' = true) as Hb.
  { intros b'. rewrite Hm, mem_write_extend by done. destruct (p ++ bs) as [|c cs] eqn:Eb.
    - apply app_nil in Eb as [_ ->]. unfold zlen in Hbs. simpl in Hbs. lia.
    - assert (zlen (c :: cs) <= n <= zlen ((c :: cs) ++ drop (length bs) rest)).
      { rewrite <- Eb, !zlen_app. rewrite Hm, zlen_app in Hz. unfold zlen in *. rewrite length_drop. lia. }
      split; [intros [??? _ ?]; tauto|]. intros (?&?&?&?&?).
      split; cbn [db db_mem]; [done|done|done|eauto|done]. }
  unfold CheckAndInitBufferPos, db_op. cbn [db db_mem].
  destruct p as [|c cs].
  - destruct Hst as (Hp&Hl&Ha). rewrite Hp. cbn [Z.eqb db db_mem]. apply Hb.
    unfold SetPos, GetStart, check_available, MoveTailBack. cbn [m_pLast m_pPos m_pStart m_pEnd GetStart]. rewrite Hl. cbn [Z.eqb negb].
    unfold check_available. cbn [m_pLast m_pPos m_pStart m_pEnd m_bAvailable]. cbn [app].
    unfold zlen in Hzp at 1. simpl in Hzp. repeat (split; [first [done|lia]|]). apply available_true. lia.
  - destruct Hst as (Hp&Hl&Ha). rewrite Hp. destruct (Z.eqb_spec (m_pStart (db d)) 0); [lia|]. cbn [db db_mem].
    apply Hb. unfold MoveTailBack. rewrite Hl. rewrite zlen_app. rewrite zlen_cons in *. pose proof (zlen_nonneg cs).
    destruct (Z.eqb_spec (m_pStart (db d) + (1 + zlen cs) - 1) 0); [lia|].
    cbn [negb m_pLast m_pPos m_pStart m_pEnd m_bAvailable]. repeat (split; [lia|]). done.
Qed.
End filled.

Lemma filled_content n d p : 0 < n <= MAX_MSG_PAYLOAD_SIZE -> p <> [] -> filled n d p -> db_content d = p.
Proof.
  intros Hn Hp Hf. unfold db_content. rewrite (filled_avail n d p Hn Hf).
  destruct Hf as [Hs He Hz [rest Hm] Hst]. destruct p as [|b p']; [done|]. destruct Hst as (->&_&_).
  unfold slice. rewrite Z.sub_diag, Hm. unfold zlen. rewrite Nat2Z.id. apply take_app_length.
Qed.

(** ** Headers *)

Lemma split_header (p : list byte) :
  zlen p = 16 -> exists a b c, p = a ++ b ++ c /\ length a = 4%nat /\ length b = 8%nat /\ length c = 4%nat.
Proof.
  unfold zlen. intros Hp. exists (take 4 p), (take 8 (drop 4 p)), (drop 12 p).
  rewrite !length_take, !length_drop. split; [|lia].
  change 12%nat with (4 + 8)%nat. rewrite <- drop_drop. by rewrite !take_drop.
Qed.

Lemma wire_header_fields (a b c : list byte) :
  length a = 4%nat -> length b = 8%nat -> length c = 4%nat -> be_val a = MESSAGE_MAGIC_NO ->
  wire_header (be_val b) (be_val c) = a ++ b ++ c.
Proof. intros Ha Hb Hc Hm. unfold wire_header. rewrite <- Hm. by rewrite !be_bytes_val. Qed.

Lemma bad_header_fields (a b c : list byte) :
  length a = 4%nat -> length b = 8%nat -> length c = 4%nat ->
  be_val a <> MESSAGE_MAGIC_NO \/ MAX_MSG_PAYLOAD_SIZE < be_val c -> bad_header (a ++ b ++ c).
Proof.
  intros Ha Hb Hc Hbad. split; [rewrite !zlen_app; unfold zlen; lia|].
  unfold id_ok, MAX_MSG_PAYLOAD_SIZE in *. intros id len Hid Hlen E. unfold wire_header in E.
  apply app_inj_1 in E as [Ea%(f_equal be_val) E]; [|by rewrite Ha].
  apply app_inj_1 in E as [_ Ec%(f_equal be_val)]; [|by rewrite be_bytes_length].
  rewrite be_val_bytes in Ea, Ec. rewrite Z.mod_small in Ea by (unfold MESSAGE_MAGIC_NO; lia).
  rewrite Z.mod_small in Ec by lia. lia.
Qed.

Lemma decode_header host d p h :
  filled 16 d p -> zlen p = 16 ->
  (exists id len, p = wire_header id len /\ id_ok id /\ 0 <= len <= MAX_MSG_PAYLOAD_SIZE /\
     RcvMessage.DecodeMsgHeader host d h = Some (true, MkHeader MESSAGE_MAGIC_NO id len)) \/
  (bad_header p /\ exists h', RcvMessage.DecodeMsgHeader host d h = Some (false, h')).
Proof.
  intros Hf Hp. pose proof (filled_avail 16 d p ltac:(done) Hf) as Ha. rewrite Hp in Ha.
  destruct (split_header p Hp) as (a&b&c&->&La&Lb&Lc).
  assert (0 <= be_val b < 18446744073709551616) as Hb.
  { pose proof (be_val_range b) as Hr. unfold zlen in Hr. by rewrite Lb in Hr. }
  pose proof (be_val_range c) as Hc.
  destruct Hf as [Hs _ _ [rest Hm] Hst]. unfold RcvMessage.DecodeMsgHeader. rewrite Ha. cbn [u32].
  change (u32 16 <? Message.HeaderSize) with false. cbn iota.
  assert (forall A (f : list byte -> option A) off, db_load f off d = f (drop (Z.to_nat off) ((a ++ b ++ c) ++ rest))) as Hload.
  { intros A f off. unfold db_load. destruct (a ++ b ++ c) eqn:E; [by destruct a|]. destruct Hst as (->&_&_).
    rewrite Z.ltb_irrefl, Z.sub_diag, Z.add_0_l, Hm. done. }
  rewrite !Hload, <- !app_assoc. change (Z.to_nat 0) with 0%nat. change (Z.to_nat 4) with 4%nat. rewrite !drop_0.
  rewrite read32_spec by done. cbn [mbind option_bind].
  rewrite !(drop_app_length' a (b ++ c ++ rest) 4) by done.
  replace (drop (Z.to_nat 12) (a ++ b ++ c ++ rest)) with (c ++ rest)
    by (rewrite app_assoc, drop_app_length'; [done|rewrite length_app; lia]).
  rewrite read64_spec, read32_spec by done. cbn [mbind option_bind].
  destruct (Z.eqb_spec (be_val a) MESSAGE_MAGIC_NO) as [Em|Em]; cbn [negb].
  - destruct (Z.leb_spec (be_val c) MAX_MSG_PAYLOAD_SIZE) as [El|El].
    + left. exists (be_val b), (be_val c). rewrite (wire_header_fields a) by done. rewrite Em. repeat (split; [done || lia|]). done.
    + right. split; [apply bad_header_fields; auto|eauto].
  - right. split; [apply bad_header_fields; auto|eauto].
Qed.

(** ** The state of a receiver *)

(** A buffer whose bytes between position and last are in its memory. *)
Definition readable (d : dbuf) : bool :=
  m_bAvailable (db d) && (0 <? m_pStart (db d)) && (m_pStart (db d) <=? m_pPos (db d)) && (m_pPos (db d) <=? m_pLast (db d)) &&
  (m_pLast (db d) <=? m_pEnd (db d)) && (m_pLast (db d) - m_pPos (db d) <? 2147483647) && (m_pLast (db d) - m_pStart (db d) <? zlen (db_mem d)).

(** A message with such a buffer, as peer, id and payload. *)
Definition note_wire (n : NotifyMessage) : option (net_peer_info * wire) :=
  match n with
  | MessageNotifyMessage rm =>
      if readable (rm_buffer rm) then Some (rm_peer rm, Wire (h_id (rm_header rm)) (db_content (rm_buffer rm))) else None
  | _ => None
  end.
Definition note_alarm (n : NotifyMessage) : option WorkerNotifyMessageCode :=
  match n with WorkerNotifyMessage code _ _ => Some code | _ => None end.

(** The messages the user was given, with their peer, and the broken connections he
    was told of. *)
Definition heard (w : netw) : list (net_peer_info * wire) := omap note_wire (nw_notes w).
Definition alarms (w : netw) : list WorkerNotifyMessageCode := omap note_alarm (nw_notes w).

Definition unread_of (w : netw) : list revent := sk_in (nw_sock w).
Definition free_ok (w : netw) : Prop := Forall (fun b => m_bOwn b = false) (s_freeBuffers w).

(** The worker of an open connection has read [p] of a frame. *)
Definition receiving (o : worker) (p : list byte) : Prop :=
  m_connState o = Connected /\ m_msgCallback o = true /\ over 16 (m_pHeaderBuffer o) /\
  match m_rcvState o with
  | StartToRcvHeader => p = []
  | RcvingHeader => p <> [] /\ zlen p < 16 /\ filled 16 (m_pHeaderBuffer o) p
  | StartToRcvPayload =>
      exists id len, p = wire_header id len /\ id_ok id /\ 0 <= len <= MAX_MSG_PAYLOAD_SIZE /\
        m_header o = MkHeader MESSAGE_MAGIC_NO id len
  | RcvingPayload =>
      exists id len q b, p = wire_header id len ++ q /\ id_ok id /\ 0 < len <= MAX_MSG_PAYLOAD_SIZE /\
        m_header o = MkHeader MESSAGE_MAGIC_NO id len /\ q <> [] /\ zlen q < len /\
        m_payloadBuffer o = Some b /\ filled len b q
  end.

Lemma receiving_partial o p : receiving o p -> partial p.
Proof.
  intros (_&_&_&H). destruct (m_rcvState o).
  - subst. left. done.
  - left. tauto.
  - destruct H as (id&len&->&?&?&_). right. exists id, len, []. rewrite app_nil_r. unfold zlen. simpl.
    repeat (split; [done|]). destruct (Z.eq_dec len 0); [by right|left; lia].
  - destruct H as (id&len&q&b&->&?&?&_&?&?&_). right. exists id, len, q. split; [done|]. split; [done|]. split; [lia|]. auto.
Qed.

(** Why a connection was given up, with what arrived and the frame it was in. *)
Definition why (code : WorkerNotifyMessageCode) (evs : list revent) (p : list byte) : Prop :=
  match code with
  | ClosedByPeer => RdEof ∈ evs \/ exists id, id_ok id /\ p = wire_header id 0
  | WorkerError => (exists e, RdErr e ∈ evs /\ e <> EAGAIN /\ e <> EINTR) \/ bad_header p
  | WorkerOK => False
  end.

(** What stays as it was. *)
Record kept (w w' : netw) : Prop := {
  kp_nonblock : sk_nonblock (nw_sock w') = sk_nonblock (nw_sock w);
  kp_out : sk_out (nw_sock w') = sk_out (nw_sock w);
  kp_id : s_lastId w' = s_lastId w;
  kp_free : free_ok w -> free_ok w'
}.

Lemma kept_refl w : kept w w.
Proof. by split. Qed.
Lemma kept_trans w1 w2 w3 : kept w1 w2 -> kept w2 w3 -> kept w1 w3.
Proof. intros [] []. split; [congruence..|auto]. Qed.

(** The result of a round or of a call that read from [evs] on, with the worker in [p]
    at the start. *)
Definition progress (evs : list revent) (p : list byte) (o : worker) (w : netw) (rc interrupt : bool) (s' : worker * netw) : Prop :=
  kept w s'.2 /\ m_logicPeer s'.1 = m_logicPeer o /\
  exists c ms p',
    bytes_of evs = c ++ bytes_of (unread_of s'.2) /\ p ++ c = wires ms ++ p' /\ Forall wire_ok ms /\
    heard s'.2 = heard w ++ map (pair (m_logicPeer o)) ms /\
    (forall e, e ∈ unread_of s'.2 -> (forall b bs, e <> RdBytes b bs) -> e ∈ evs) /\
    if rc then
      receiving s'.1 p' /\ alarms s'.2 = alarms w /\ (interrupt = false -> c <> []) /\
      ((unread (unread_of s'.2) < unread evs)%nat \/ unread_of s'.2 = [])
    else exists code, alarms s'.2 = alarms w ++ [code] /\ why code evs p'.

Lemma filled_readable n d p : 0 < n <= MAX_MSG_PAYLOAD_SIZE -> p <> [] -> filled n d p -> readable d = true.
Proof.
  intros Hn Hp [Hs He Hz [rest Hm] Hst]. unfold MAX_MSG_PAYLOAD_SIZE in *. destruct p as [|b p']; [done|]. destruct Hst as (Hpos&Hl&Ha).
  pose proof (f_equal zlen Hm) as Hzm. rewrite zlen_app in Hzm. pose proof (zlen_nonneg rest). rewrite zlen_cons in *.
  pose proof (zlen_nonneg p'). unfold readable. rewrite Ha, !andb_true_iff, !Z.ltb_lt, !Z.leb_le. lia.
Qed.

Lemma heard_note w n : heard (add_note n w) = heard w ++ match note_wire n with Some x => [x] | None => [] end.
Proof. unfold heard. simpl. rewrite omap_app. simpl. by destruct (note_wire n). Qed.
Lemma alarms_note w n : alarms (add_note n w) = alarms w ++ match note_alarm n with Some x => [x] | None => [] end.
Proof. unfold alarms. simpl. rewrite omap_app. simpl. by destruct (note_alarm n). Qed.

Lemma kept_note w n : kept w (add_note n w).
Proof. by split. Qed.

(** The fields of a worker after an assignment. *)
Ltac fields :=
  cbn [set_logicPeer set_headerBuffer set_bq set_rcvState set_header set_payload set_sending set_connState set_completed upd
       m_ct m_iLogicPort m_realPeer m_onLogicConnect m_msgCallback m_logicPeer m_pHeaderBuffer m_bqMessages m_rcvState
       m_header m_payloadBuffer m_pSendingBuffer m_connState m_bConnHandShakeCompleted].

(** Of the worker at the start only the peer matters. *)
Lemma progress_from evs p o o1 w rc interrupt s' :
  m_logicPeer o1 = m_logicPeer o -> progress evs p o1 w rc interrupt s' -> progress evs p o w rc interrupt s'.
Proof. unfold progress. by intros ->. Qed.

Section rounds.
Context `{MemAlloc} (host : byte_order).

Lemma HandleMessage_spec m o w Q :
  m_msgCallback o = true -> Q tt (o, add_note m w) -> wp (HandleMessage m) (o, w) Q.
Proof. intros Hc HQ. unfold HandleMessage. wpure. rewrite Hc. apply wp_io. wpure. done. Qed.

(** Giving the connection up. *)
Lemma broken_spec err evs p c o w interrupt :
  m_msgCallback o = true -> why WorkerError evs (p ++ c) -> bytes_of evs = c ++ bytes_of (unread_of w) ->
  (forall e, e ∈ unread_of w -> (forall b bs, e <> RdBytes b bs) -> e ∈ evs) ->
  wp (NotifyWorkerBrokenMessage err;; mret (false, interrupt)) (o, w) (fun r s' => progress evs p o w r.1 r.2 s').
Proof.
  intros Hc Hw Hb He. unfold NotifyWorkerBrokenMessage. wbind. wpure. apply HandleMessage_spec; [done|]. wpure.
  split; [apply kept_note|]. split; [done|]. exists c, [], (p ++ c).
  split; [done|]. split; [done|]. split; [constructor|]. cbn [fst snd]. rewrite heard_note, alarms_note. cbn [note_wire note_alarm map]. rewrite !app_nil_r.
  split; [done|]. split; [done|]. by exists WorkerError.
Qed.

Lemma closed_spec evs p c o w interrupt :
  m_msgCallback o = true -> why ClosedByPeer evs (p ++ c) -> bytes_of evs = c ++ bytes_of (unread_of w) ->
  (forall e, e ∈ unread_of w -> (forall b bs, e <> RdBytes b bs) -> e ∈ evs) ->
  wp (NotifyWorkerPeerClosedMessage;; mret (false, interrupt)) (o, w) (fun r s' => progress evs p o w r.1 r.2 s').
Proof.
  intros Hc Hw Hb He. unfold NotifyWorkerPeerClosedMessage. wbind. wpure. apply HandleMessage_spec; [done|]. wpure.
  split; [apply kept_note|]. split; [done|]. exists c, [], (p ++ c).
  split; [done|]. split; [done|]. split; [constructor|]. cbn [fst snd]. rewrite heard_note, alarms_note. cbn [note_wire note_alarm map]. rewrite !app_nil_r.
  split; [done|]. split; [done|]. by exists ClosedByPeer.
Qed.

(** A read with nothing to read: the frame stays as it is. *)
Lemma again_spec evs p o w :
  receiving o p -> bytes_of evs = bytes_of (unread_of w) -> ((unread (unread_of w) < unread evs)%nat \/ unread_of w = []) ->
  (forall e, e ∈ unread_of w -> (forall b bs, e <> RdBytes b bs) -> e ∈ evs) ->
  progress evs p o w true true (o, w).
Proof.
  intros Hr Hb Hu He. split; [apply kept_refl|]. split; [done|]. exists [], [], p. rewrite app_nil_r. simpl.
  rewrite app_nil_r. by repeat (split; [first [done|constructor]|]).
Qed.

(** The worker has read [bs] more of the frame. *)
Lemma more_spec evs p bs o w interrupt o' w' :
  bs <> [] -> receiving o' (p ++ bs) -> m_logicPeer o' = m_logicPeer o -> kept w w' -> nw_notes w' = nw_notes w ->
  bytes_of evs = bs ++ bytes_of (unread_of w') -> (unread (unread_of w') < unread evs)%nat ->
  (forall e, e ∈ unread_of w' -> (forall b bs, e <> RdBytes b bs) -> e ∈ evs) ->
  progress evs p o w true interrupt (o', w').
Proof.
  intros Hbs Hr Hl Hk Hn Hb Hu He. split; [done|]. split; [done|]. exists bs, [], (p ++ bs).
  split; [done|]. split; [done|]. split; [constructor|]. unfold heard, alarms. simpl. rewrite Hn, app_nil_r. auto 10.
Qed.

(** The world after a read that left [evs]. *)
Definition read_to (evs : list revent) (w : netw) : netw :=
  set_sock (MkSock (sk_nonblock (nw_sock w)) evs (sk_wr (nw_sock w)) (sk_out (nw_sock w))) w.

Lemma kept_read evs w : kept w (read_to evs w).
Proof. by split. Qed.

(** The read of what a buffer that holds [p] has room for, and what it leaves in the
    buffer's memory. *)
Definition stored (n : Z) (d : dbuf) (p : list byte) (r : rdres) (b : dbuf) : Prop :=
  match r with
  | RdGot bs => zlen p + zlen bs <= n /\ b = DBuf (db d) (mem_write (zlen p) bs (db_mem d))
  | RdFail _ => b = d
  | RdBlocked => False
  end.

Lemma read_into_spec n d p o w :
  sk_nonblock (nw_sock w) = true -> filled n d p -> zlen p < n ->
  wp (read_into (zlen p) (n - zlen p) d) (o, w) (fun rb s' =>
    exists evs', s' = (o, read_to evs' w) /\ read_ok (unread_of w) rb.1 evs' /\ stored n d p rb.1 rb.2).
Proof.
  intros Hnb Hf Hn. unfold read_into. wlift. pose proof (read_events_ok (n - zlen p) (unread_of w) ltac:(lia)) as Hr.
  unfold wp, wpc, Read, sock_read. destruct (Z.eqb_spec (n - zlen p) 0); [lia|]. rewrite Hnb.
  destruct (read_events true (n - zlen p) (sk_in (nw_sock w))) as [r evs'] eqn:Er.
  unfold unread_of in *. rewrite Er in Hr. destruct Hr as [Hok Hle].
  pose proof (zlen_nonneg p). destruct r as [bs|e|].
  - destruct Hf as [_ _ Hz _ _]. destruct (Z.leb_spec 0 (zlen p)); [|lia].
    destruct (Z.leb_spec (zlen p + zlen bs) (zlen (db_mem d))); [|lia]. simpl.
    exists evs'. unfold read_to. rewrite Hnb. split; [done|]. split; [done|]. split; [lia|done].
  - simpl. exists evs'. unfold read_to. rewrite Hnb. by split.
  - by destruct Hok.
Qed.

(** The error of a failed read: nothing to read now, or a broken connection. *)
Lemma fail_spec e evs p o w :
  receiving o p -> read_ok evs (RdFail e) (unread_of w) ->
  wp (if e =? EAGAIN then mret (true, true) else NotifyWorkerBrokenMessage (Some e);; mret (false, true)) (o, w)
     (fun r s' => progress evs p o w r.1 r.2 s').
Proof.
  intros Hr [(Hb&Hi&He) Hs]. destruct (Z.eqb_spec e EAGAIN) as [->|Ha].
  - apply wp_ret. apply again_spec; [done|done| |done]. destruct He as [(_&->&_)|[_ ?]]; auto.
  - destruct He as [(?&_)|[He _]]; [done|]. destruct Hr as (_&Hc&_&_). apply (broken_spec _ _ _ []); [done| |done|done].
    left. by exists e.
Qed.

(** ** The header *)

Lemma process_header err evs p d r o w :
  m_connState o = Connected -> m_msgCallback o = true -> filled 16 d p -> zlen p < 16 ->
  (p = [] /\ m_rcvState o = StartToRcvHeader \/ p <> [] /\ m_rcvState o = RcvingHeader) ->
  stored 16 d p r (m_pHeaderBuffer o) -> read_ok evs r (unread_of w) ->
  wp (ProcessAfterRcvHeader host r err) (o, w) (fun rc s' => progress evs p o w rc.1 rc.2 s').
Proof.
  intros Hcs Hcb Hf Hp Hst Hsto [Hr He]. destruct r as [[|b bs]|e|]; cbn [ProcessAfterRcvHeader stored read_ok] in *.
  - apply (closed_spec _ _ []); [done|left; tauto|symmetry; tauto|done].
  - destruct Hsto as [Hz Hb], Hr as [Hev Hun].
    set (bs' := b :: bs) in *. assert (bs' <> []) as Hne by done. clearbody bs'.
    pose proof (filled_more 16 d p ltac:(done) Hf bs' Hne Hz) as Hm. rewrite <- Hb in Hm.
    wpure. unfold ParseHeader. wpure. fields.
    rewrite (filled_avail 16 _ _ ltac:(done) Hm), (over_total 16 _ _ ltac:(done) Hm).
    assert (kept w w) by apply kept_refl.
    assert (zlen (p ++ bs') = zlen p + zlen bs') as Hzz by apply zlen_app.
    destruct (Z.eqb_spec (zlen (p ++ bs')) 16) as [E16|E16].
    + wpure. fields. wbind. destruct (decode_header host _ _ (m_header o) Hm E16) as [(id&len&Ep&Hid&Hlen&->)|(Hbad&h'&->)].
      * unfold of_mem. wpure. eapply more_spec; try done. split; [done|]. split; [done|]. split; [by eapply filled_over|].
        exists id, len. done.
      * unfold of_mem. wpure. eapply wp_mono; [apply (broken_spec err evs p bs'); [done|by right|done|done]|].
        intros [rc it] s'. apply progress_from; done.
    + wpure. eapply more_spec; try done. split; [done|]. split; [done|]. split; [by eapply filled_over|].
      split; [by intros [_ ?]%app_nil|]. split; [lia|done].
  - rewrite <- Hsto in Hf. apply fail_spec; [|done]. split; [done|]. split; [done|]. split; [by eapply filled_over|].
    destruct Hst as [[-> ->]|[? ->]]; done.
  - done.
Qed.

(** ** The payload *)

Lemma getNewRcvMessage_spec peer h b w Q :
  Q (MkRcv (nw_next w) peer h b) (set_pool (nw_next w :: nw_live w) (nw_next w + 1) w) ->
  wp (RcvMessage.getNewRcvMessage peer h b) w Q.
Proof. done. Qed.

(** The frame is complete: the message is handed to the user. *)
Lemma payload_done hs brk evs id q bs d o w :
  m_connState o = Connected -> m_msgCallback o = true -> over 16 (m_pHeaderBuffer o) -> id_ok id ->
  0 < zlen (q ++ bs) <= MAX_MSG_PAYLOAD_SIZE ->
  m_header o = MkHeader MESSAGE_MAGIC_NO id (zlen (q ++ bs)) ->
  m_payloadBuffer o = Some d -> filled (zlen (q ++ bs)) d (q ++ bs) -> bs <> [] ->
  bytes_of evs = bs ++ bytes_of (unread_of w) -> (unread (unread_of w) < unread evs)%nat ->
  (forall e, e ∈ unread_of w -> (forall b bs, e <> RdBytes b bs) -> e ∈ evs) ->
  wp (CheckPayload hs brk) (o, w)
     (fun rc s' => progress evs (wire_header id (zlen (q ++ bs)) ++ q) o w rc.1 rc.2 s').
Proof.
  intros Hcs Hcb Ho Hid Hlen Hh Hpb Hf Hne Hev Hun He. unfold CheckPayload. wpure. unfold deref, of_mem. rewrite Hpb. wpure.
  rewrite (filled_avail _ _ _ Hlen Hf), Hh. cbn [h_len]. unfold MAX_MSG_PAYLOAD_SIZE in *.
  rewrite u32_small, Z.eqb_refl by lia. wpure. fields. rewrite Hh. wlift. apply getNewRcvMessage_spec. wpure. fields.
  rewrite Hcs. wbind. apply HandleMessage_spec; [done|]. wpure. fields.
  split; [by split|]. split; [done|]. exists bs, [Wire id (q ++ bs)], [].
  split; [done|]. split; [unfold wires, wire_bytes; cbn [map concat w_id w_payload]; by rewrite !app_nil_r, <- app_assoc|].
  split; [constructor; [done|constructor]|]. cbn [fst snd]. rewrite heard_note, alarms_note.
  cbn [note_wire note_alarm rm_peer rm_header h_id rm_buffer map]. rewrite app_nil_r.
  rewrite (filled_readable _ _ (q ++ bs) Hlen) by first [exact Hf|by intros [_ ?]%app_nil].
  rewrite (filled_content _ _ (q ++ bs) Hlen) by first [exact Hf|by intros [_ ?]%app_nil].
  split; [done|]. split; [done|]. split; [done|]. split; [done|]. split; [done|]. by left.
Qed.

Lemma process_payload hs brk evs id len q d b r o w :
  m_connState o = Connected -> m_msgCallback o = true -> over 16 (m_pHeaderBuffer o) -> id_ok id ->
  0 < len <= MAX_MSG_PAYLOAD_SIZE -> m_header o = MkHeader MESSAGE_MAGIC_NO id len ->
  filled len d q -> zlen q < len ->
  (q = [] /\ m_rcvState o = StartToRcvPayload \/ q <> [] /\ m_rcvState o = RcvingPayload) ->
  m_payloadBuffer o = Some b -> stored len d q r b -> read_ok evs r (unread_of w) ->
  wp (ProcessAfterRcvPayload hs brk r) (o, w) (fun rc s' => progress evs (wire_header id len ++ q) o w rc.1 rc.2 s').
Proof.
  intros Hcs Hcb Ho Hid Hlen Hh Hf Hq Hst Hpb Hsto [Hr He].
  destruct r as [[|c bs]|e|]; cbn [ProcessAfterRcvPayload stored read_ok] in *.
  - apply (closed_spec _ _ []); [done|left; tauto|symmetry; tauto|done].
  - destruct Hsto as [Hz Hb], Hr as [Hev Hun].
    set (bs' := c :: bs) in *. assert (bs' <> []) as Hne by done. clearbody bs'.
    pose proof (filled_more len d q Hlen Hf bs' Hne Hz) as Hm. rewrite <- Hb in Hm.
    wpure. unfold deref, of_mem. rewrite Hpb. wpure.
    assert (zlen (q ++ bs') = zlen q + zlen bs') as Hzz by apply zlen_app.
    destruct (Z.eq_dec (zlen (q ++ bs')) len) as [<-|Hl].
    + eapply wp_mono; [eapply payload_done; fields; done|]. intros [rc it] s'. by apply progress_from.
    + unfold CheckPayload. wpure. unfold deref, of_mem. fields. wpure. fields. rewrite (filled_avail _ _ _ Hlen Hm), Hh.
      cbn [h_len]. unfold MAX_MSG_PAYLOAD_SIZE in *. pose proof (zlen_nonneg (q ++ bs')). rewrite u32_small by lia.
      destruct (Z.eqb_spec (zlen (q ++ bs')) len); [done|]. wpure.
      eapply more_spec; try done. split; [done|]. split; [done|]. split; [done|].
      exists id, len, (q ++ bs'), (db_op (MoveTailBack (u32 (zlen bs'))) (CheckAndInitBufferPos b)).
      rewrite app_assoc. fields. repeat (split; [first [done|lia|by intros [_ ?]%app_nil]|]). done.
  - subst b. apply fail_spec; [|done]. split; [done|]. split; [done|]. split; [done|].
    destruct Hst as [[-> ->]|[? ->]].
    + exists id, len. rewrite app_nil_r. repeat (split; [done || lia|]). done.
    + exists id, len, q, d. repeat (split; [done || lia|]). done.
  - done.
Qed.

(** ** A round *)

Lemma progress_world evs p o w w1 rc interrupt s' :
  kept w w1 -> nw_notes w1 = nw_notes w -> progress evs p o w1 rc interrupt s' -> progress evs p o w rc interrupt s'.
Proof.
  intros Hk Hn (Hk'&Hl&c&ms&p'&H1&H2&H3&H4&H5&H6). split; [by eapply kept_trans|]. split; [done|].
  exists c, ms, p'. unfold heard, alarms in *. rewrite Hn in *. done.
Qed.

Lemma filled_empty n b mem mpo own :
  0 < m_pStart b -> m_pEnd b = m_pStart b + n - 1 -> m_pMpObject b = mpo -> m_bOwn b = own -> 0 <= n <= zlen mem ->
  filled n (DBuf (mkBuffer 0 0 (m_pStart b) (m_pEnd b) mpo false own) mem) [].
Proof. intros. split; cbn [db db_mem m_pStart m_pEnd m_pPos m_pLast m_bAvailable]; [done|done|done|by exists mem|done]. Qed.

(** A buffer from the free list, or a new one, over the memory of a pool object. *)
Lemma GetNewBuffer_at_spec pos last start end_ mpo w :
  free_ok w ->
  wp (Message.GetNewBuffer_at pos last start end_ mpo) w (fun b w' =>
    kept w w' /\ nw_notes w' = nw_notes w /\ nw_sock w' = nw_sock w /\ nw_live w' = nw_live w /\ nw_next w' = nw_next w /\
    b = mkBuffer pos last start end_ (Some mpo) (available pos last start end_) true).
Proof.
  intros Hfree. unfold Message.GetNewBuffer_at. wbind. unfold wp at 1, wpc, Message.GetNewBuffer.
  assert (forall b w1, m_bOwn b = false -> kept w w1 -> nw_notes w1 = nw_notes w -> nw_sock w1 = nw_sock w ->
    nw_live w1 = nw_live w -> nw_next w1 = nw_next w ->
    wp (let '(buf, released) := Refresh pos last start end_ (Some mpo) true b in
        release_all released;; mret buf) w1
      (fun b w' => kept w w' /\ nw_notes w' = nw_notes w /\ nw_sock w' = nw_sock w /\ nw_live w' = nw_live w /\
        nw_next w' = nw_next w /\ b = mkBuffer pos last start end_ (Some mpo) (available pos last start end_) true)) as Hrest.
  { intros b w1 Hown Hk Hn Hs Hl Hx. unfold Refresh. rewrite Hown. cbn [release_all]. by wpure. }
  unfold free_ok in Hfree. destruct (s_freeBuffers w) as [|b bs] eqn:Eb; inversion Hfree; subst.
  - apply Hrest; [done|apply kept_refl|done..].
  - apply Hrest; [done| |done..]. split; [done|done|done|]. by intros _.
Qed.

(** The buffer for a payload. *)
Lemma new_payload_spec len mpo mo w :
  free_ok w ->
  wp (Message.GetNewBuffer_mpo mpo mo len) w (fun d w' =>
    kept w w' /\ nw_notes w' = nw_notes w /\ nw_sock w' = nw_sock w /\ db_mem d = mo_mem mo /\
    db d = mkBuffer 0 0 (mo_ptr mo) (mo_ptr mo + len - 1) (Some mpo) false true).
Proof.
  intros Hfree. unfold Message.GetNewBuffer_mpo. wbind. eapply wp_mono; [by apply GetNewBuffer_at_spec|].
  intros b w' (?&?&?&_&_&->). apply wp_ret. repeat (split; [done|]). cbn [db]. f_equal.
  apply not_true_is_false. by intros (_&_&?&_)%available_true.
Qed.

Lemma read_zero b o w Q : Q (RdGot [], DBuf (db b) (mem_write 0 [] (db_mem b))) (o, w) -> wp (read_into 0 0 b) (o, w) Q.
Proof.
  intros HQ. unfold read_into. wlift. unfold wp, wpc, Read, sock_read. cbn [Z.eqb].
  assert (set_sock (nw_sock w) w = w) as -> by (by destruct w).
  destruct (Z.leb_spec (0 + zlen (@nil byte)) (zlen (db_mem b))) as [|Hlt]; [exact HQ|].
  pose proof (zlen_nonneg (db_mem b)). change (zlen (@nil byte)) with 0 in Hlt. lia.
Qed.

Lemma TotalLength_zero b : m_pEnd b = m_pStart b - 1 -> TotalLength b = 0.
Proof.
  intros E. unfold TotalLength. rewrite E. destruct (_ || _); [done|].
  replace (m_pStart b - 1 - m_pStart b) with (-1) by lia. done.
Qed.

(** What the loop is after a round, or a call after the loop. *)
Definition round_ok (p : list byte) (o : worker) (w : netw) (r : bool * bool * option Z) (s' : worker * netw) : Prop :=
  progress (unread_of w) p o w r.1.1 r.1.2 s'.

Lemma header_round err d p o w :
  sk_nonblock (nw_sock w) = true -> m_connState o = Connected -> m_msgCallback o = true ->
  filled 16 d p -> zlen p < 16 ->
  (p = [] /\ m_rcvState o = StartToRcvHeader \/ p <> [] /\ m_rcvState o = RcvingHeader) ->
  wp ('(n, b) ← read_into (zlen p) (16 - zlen p) d;
      modO (set_headerBuffer b);;
      '(rc, interrupt) ← ProcessAfterRcvHeader host n (err_of n err);
      mret (rc, interrupt, err_of n err)) (o, w) (round_ok p o w).
Proof.
  intros Hnb Hcs Hcb Hf Hp Hst. wbind. eapply wp_mono; [by apply read_into_spec|].
  intros [r b] s' (evs'&->&Hr&Hsto). cbn [fst snd] in *. wpure.
  wbind. eapply wp_mono; [eapply (process_header _ (unread_of w)); fields; done|].
  intros [rc it] s' Hpr. apply wp_ret. cbn [fst snd] in *.
  eapply progress_from; [|eapply progress_world; [apply kept_read| |exact Hpr]]; done.
Qed.

Lemma payload_round hs brk err d q id len o w :
  sk_nonblock (nw_sock w) = true -> m_connState o = Connected -> m_msgCallback o = true ->
  over 16 (m_pHeaderBuffer o) -> id_ok id -> 0 < len <= MAX_MSG_PAYLOAD_SIZE ->
  m_header o = MkHeader MESSAGE_MAGIC_NO id len -> filled len d q -> zlen q < len ->
  (q = [] /\ m_rcvState o = StartToRcvPayload \/ q <> [] /\ m_rcvState o = RcvingPayload) ->
  wp ('(n, b) ← read_into (zlen q) (len - zlen q) d;
      modO (set_payload (Some b));;
      '(rc, interrupt) ← ProcessAfterRcvPayload hs brk n;
      mret (rc, interrupt, err_of n err)) (o, w) (round_ok (wire_header id len ++ q) o w).
Proof.
  intros Hnb Hcs Hcb Ho Hid Hlen Hh Hf Hq Hst. wbind. eapply wp_mono; [by apply read_into_spec|].
  intros [r b] s' (evs'&->&Hr&Hsto). cbn [fst snd] in *. wpure.
  wbind. eapply wp_mono; [eapply (process_payload hs brk (unread_of w)); fields; done|].
  intros [rc it] s' Hpr. apply wp_ret. cbn [fst snd] in *.
  eapply progress_from; [|eapply progress_world; [apply kept_read| |exact Hpr]]; done.
Qed.

Lemma start_header o : over 16 (m_pHeaderBuffer o) ->
  filled 16 (DBuf (BZero (db (m_pHeaderBuffer o)))
    (mem_write 0 (replicate (Z.to_nat (m_pEnd (db (m_pHeaderBuffer o)) - m_pStart (db (m_pHeaderBuffer o)) + 1)) x00)
       (db_mem (m_pHeaderBuffer o)))) [].
Proof.
  intros (Hs&He&Hz). apply filled_empty; [done|done|done|done|].
  unfold zlen. rewrite mem_write_length; unfold zlen; rewrite ?length_replicate; unfold zlen in *; lia.
Qed.

Lemma start_payload_round hs brk err id len o w :
  sk_nonblock (nw_sock w) = true -> free_ok w -> m_rcvState o = StartToRcvPayload -> receiving o (wire_header id len) ->
  id_ok id -> 0 <= len <= MAX_MSG_PAYLOAD_SIZE -> m_header o = MkHeader MESSAGE_MAGIC_NO id len ->
  wp (recv_round host hs brk err) (o, w) (round_ok (wire_header id len) o w).
Proof.
  intros Hnb Hfree Hst (Hcs&Hcb&Ho&_) Hid Hlen Hh. unfold recv_round. wpure. rewrite Hst. wpure. rewrite Hh. cbn [h_len].
  wlift. unfold wp at 1, wpc, pool_get. wlift.
  eapply wp_mono; [by apply new_payload_spec|]. intros d w1 (Hk&Hn&Hs&Hm&Hd). cbn [nw_notes nw_sock set_pool] in *. wpure.
  assert (kept w w1) as Hk1 by (destruct Hk; by split).
  assert (unread_of w1 = unread_of w) as Hu by (unfold unread_of; by rewrite Hs).
  destruct (Z.eq_dec len 0) as [->|Hz].
  - rewrite TotalLength_zero by (rewrite Hd; cbn [m_pStart m_pEnd]; lia). cbn [u64]. wbind.
    change (u64 0) with 0. apply read_zero. wpure. wbind. cbn [ProcessAfterRcvPayload].
    eapply wp_mono; [apply (closed_spec (unread_of w) (wire_header id 0) []);
      [done|right; exists id; by rewrite app_nil_r|by rewrite Hu|by rewrite Hu]|].
    intros [rc it] s' Hpr. apply wp_ret. cbn [fst snd] in *.
    eapply progress_from; [|eapply progress_world; [exact Hk1| |exact Hpr]]; done.
  - assert (filled len d []) as Hf.
    { destruct (mp_Get_ok len) as (Hp&Hsz&Hml); [unfold MAX_MSG_PAYLOAD_SIZE in *; lia|].
      destruct d as [b mem]. cbn [db db_mem] in *. subst b mem. apply (filled_empty len (mkBuffer 0 0 (mo_ptr (mp_Get len))
        (mo_ptr (mp_Get len) + len - 1) (Some (nw_next w)) false true)); cbn [m_pStart m_pEnd]; done || lia. }
    rewrite (over_total len d [] ltac:(lia) Hf). unfold MAX_MSG_PAYLOAD_SIZE in *. rewrite u64_small by lia.
    replace len with (len - zlen (@nil byte)) at 1 by (unfold zlen; simpl; lia). change 0 with (zlen (@nil byte)) at 1.
    eapply wp_mono; [apply (payload_round hs brk err d [] id len); fields; try done; unfold MAX_MSG_PAYLOAD_SIZE;
      [by rewrite Hs|lia|unfold zlen; simpl; lia|by left]|].
    intros [[rc it] e'] s' Hpr. unfold round_ok in *. cbn [fst snd] in *. rewrite app_nil_r, Hu in Hpr.
    eapply progress_from; [|eapply progress_world; [exact Hk1| |exact Hpr]]; done.
Qed.

Lemma recv_round_spec hs brk err p o w :
  sk_nonblock (nw_sock w) = true -> free_ok w -> receiving o p ->
  wp (recv_round host hs brk err) (o, w) (round_ok p o w).
Proof.
  intros Hnb Hfree Hr. destruct (m_rcvState o) eqn:Hst; pose proof Hr as (Hcs&Hcb&Ho&H1); rewrite Hst in H1.
  - subst p. unfold recv_round. wpure. rewrite Hst. wpure. fields.
    pose proof (start_header o Ho) as Hf. set (d := DBuf _ _) in *.
    rewrite (over_total 16 d [] ltac:(done) Hf). change (u64 16) with (16 - zlen (@nil byte)). change 0 with (zlen (@nil byte)) at 1.
    eapply wp_mono; [apply (header_round err d []); fields; try done; by left|].
    intros [[rc it] e'] s' Hpr. by eapply progress_from; [|exact Hpr].
  - destruct H1 as (Hp&Hz&Hf). unfold recv_round. wpure. rewrite Hst. wpure.
    rewrite (filled_read_pos 16 _ p Hf), (filled_unused 16 _ p ltac:(done) Hf Hp).
    apply header_round; try done. by right.
  - destruct H1 as (id&len&->&Hid&Hlen&Hh). by apply start_payload_round.
  - destruct H1 as (id&len&q&b&->&Hid&Hlen&Hh&Hq&Hz&Hpb&Hf). unfold recv_round. wpure. rewrite Hst. wpure.
    unfold deref, of_mem. rewrite Hpb. wpure.
    rewrite (filled_read_pos len _ q Hf), (filled_unused len _ q Hlen Hf Hq).
    apply payload_round; try done. by right.
Qed.

(** ** A call of Recv *)

Lemma why_earlier code evs evs' p :
  (forall e, e ∈ evs' -> (forall b bs, e <> RdBytes b bs) -> e ∈ evs) -> why code evs' p -> why code evs p.
Proof.
  intros He. destruct code; cbn [why]; [done|..].
  - intros [?|?]; [left; by apply He|by right].
  - intros [(e&?&?)|?]; [left; exists e; split; [by apply He|done]|by right].
Qed.

(** A call goes on after what it has done so far. *)
Lemma progress_then (k : NM bool) (X : bool -> worker * netw -> Prop) evs p o w it o1 w1 :
  progress evs p o w true it (o1, w1) ->
  (forall p1, receiving o1 p1 -> kept w w1 ->
     (length (bytes_of (unread_of w1)) + (if it then 0 else 1) <= length (bytes_of evs))%nat ->
     (unread (unread_of w1) < unread evs)%nat \/ unread_of w1 = [] ->
     wp k (o1, w1) (fun rc s' => progress (unread_of w1) p1 o1 w1 rc true s' /\ X rc s')) ->
  wp k (o1, w1) (fun rc s' => progress evs p o w rc true s' /\ X rc s').
Proof.
  intros (Hk&Hl&c&ms&p1&Hb&Hp&Hms&Hh&He&Hr&Ha&Hc&Hu) Hnext. cbn [fst snd] in *.
  eapply wp_mono; [apply (Hnext p1); [done|done| |done]|].
  { rewrite Hb, length_app. destruct it; [lia|]. specialize (Hc eq_refl). destruct c; [done|simpl; lia]. }
  intros rc s' [(Hk'&Hl'&c'&ms'&p2&Hb'&Hp'&Hms'&Hh'&He'&Hrc) HX]. split; [|done]. rewrite Hl in *.
  split; [by eapply kept_trans|]. split; [done|]. exists (c ++ c'), (ms ++ ms'), p2.
  split; [by rewrite Hb, Hb', app_assoc|].
  split; [by rewrite app_assoc, Hp, <- app_assoc, Hp', wires_app, app_assoc|].
  split; [by apply Forall_app|]. split; [by rewrite Hh', Hh, map_app, app_assoc|].
  split; [intros e H1 H2; apply He; [by apply He'|done]|].
  destruct rc.
  - destruct Hrc as (?&Ha'&_&Hu'). split; [done|]. split; [by rewrite Ha', Ha|]. split; [done|].
    destruct Hu' as [Hu'|Hu']; [left|by right]. destruct Hu as [Hu|Hu]; [lia|].
    rewrite Hu in Hu'. unfold unread in Hu'. simpl in Hu'. lia.
  - destruct Hrc as (code&Ha'&Hw). exists code. split; [by rewrite Ha', Ha|]. by eapply why_earlier.
Qed.

Lemma recv_loop_spec sf brk fuel err p o w :
  sk_nonblock (nw_sock w) = true -> free_ok w -> receiving o p -> (length (bytes_of (unread_of w)) < fuel)%nat ->
  wp (recv_loop host sf fuel brk err) (o, w) (fun rc s' => progress (unread_of w) p o w rc true s').
Proof.
  revert err p o w. induction fuel as [|fuel IH]; intros err p o w Hnb Hfree Hr Hfuel; [lia|]. cbn [recv_loop].
  wbind. eapply wp_mono; [by apply recv_round_spec|]. intros [[rc it] err'] [o1 w1] Hpr. unfold round_ok in Hpr. cbn [fst snd] in Hpr.
  destruct rc; [destruct it|]; cbn [andb negb]; [by apply wp_ret| |by apply wp_ret].
  eapply wp_mono; [eapply (progress_then _ (fun _ _ => True)); [exact Hpr|]|by intros rc s' []].
  intros p1 Hr1 Hk Hlt _. cbn iota in Hlt. eapply wp_mono; [|intros rc s' Hp; split; [exact Hp|done]].
  apply IH; [by rewrite (kp_nonblock _ _ Hk)|by apply (kp_free _ _ Hk)|done|lia].
Qed.

(** ** Many calls: the event loop calls [Recv] whenever the socket is readable *)

Fixpoint recv_many (sf fuel : nat) (k : nat) : NM bool :=
  match k with
  | O => mret true
  | S k => rc ← Recv host sf fuel false; if rc : bool then recv_many sf fuel k else mret false
  end.

Lemma recv_many_spec sf fuel k p o w :
  sk_nonblock (nw_sock w) = true -> free_ok w -> receiving o p -> (length (bytes_of (unread_of w)) < fuel)%nat ->
  (unread (unread_of w) < k)%nat \/ unread_of w = [] ->
  wp (recv_many sf fuel k) (o, w) (fun rc s' =>
    progress (unread_of w) p o w rc true s' /\ (rc = true -> unread_of s'.2 = [])).
Proof.
  revert p o w. induction k as [|k IH]; intros p o w Hnb Hfree Hr Hfuel Hk; cbn [recv_many].
  - destruct Hk as [?|Hk]; [lia|]. apply wp_ret. split; [|done]. apply again_spec; auto.
  - wbind. eapply wp_mono; [by apply recv_loop_spec|]. intros [|] [o1 w1] Hpr; [|by apply wp_ret].
    eapply progress_then; [exact Hpr|]. intros p1 Hr1 Hkp Hle Hu. cbn iota in Hle.
    apply IH; [by rewrite (kp_nonblock _ _ Hkp)|by apply (kp_free _ _ Hkp)|done|lia|].
    destruct Hu as [Hu|Hu]; [|by right]. destruct Hk as [Hk|Hk]; [left; lia|].
    rewrite Hk in Hu. unfold unread in Hu. simpl in Hu. lia.
Qed.
End rounds.
