(* ===== verification/NetSend.v ===== *)
(** * Sending messages

    [derives d payload] is what [SndMessage::Encode] relies on in a derived class: its
    two functions agree on a payload.  [sending o w rest ms] says that a worker has
    the bytes [rest] of a frame in its sending buffer and the messages [ms] in its
    queue.  Whatever the socket accepts at a time, [Send] puts the frames of the
    messages on it, in order. *)

From S2P Require Import Prelude Codec Buffer Posix Records BlockingQueue Net NetWorker NetRecv.

(** ** Stores *)

(** The memory a buffer describes stays where it is. *)
Definition same_frame (b b' : Buffer) : Prop :=
  m_pStart b' = m_pStart b /\ m_pEnd b' = m_pEnd b /\ m_pLast b' = m_pLast b /\
  m_pMpObject b' = m_pMpObject b /\ m_bOwn b' = m_bOwn b.

(** An available buffer with [k] bytes of memory from its position on. *)
Definition room (b : dbuf) (k : Z) : Prop :=
  0 < m_pStart (db b) <= m_pPos (db b) /\ m_pLast (db b) <> 0 /\
  m_pPos (db b) - m_pStart (db b) + k <= zlen (db_mem b).

Record derives (d : IDerive) (payload : list byte) : Prop := {
  dv_len : getDerivePayloadLength d = zlen payload;
  dv_encode : forall b, room b (zlen payload) ->
    exists b', encodeDerive d b = Some b' /\ same_frame (db b) (db b') /\
      db_mem b' = mem_write (m_pPos (db b) - m_pStart (db b)) payload (db_mem b)
}.

Lemma db_store_spec b k f bs :
  room b k -> zlen bs = k -> (forall m, (length bs <= length m)%nat -> f m = bs ++ drop (length bs) m) ->
  db_store k f b = Some (DBuf (db b) (mem_write (m_pPos (db b) - m_pStart (db b)) bs (db_mem b))).
Proof.
  intros (Hr&_&Hk) Hz Hfm. unfold db_store. destruct (Z.leb_spec (m_pStart (db b)) (m_pPos (db b))); [|lia].
  destruct (Z.leb_spec (m_pPos (db b) - m_pStart (db b) + k) (zlen (db_mem b))); [|lia]. cbn [andb].
  unfold db_write, mem_write. rewrite Hfm, drop_drop; [done|]. rewrite length_drop. unfold zlen in *. lia.
Qed.

Lemma mem_write_len off bs m : 0 <= off -> off + zlen bs <= zlen m -> zlen (mem_write off bs m) = zlen m.
Proof. intros. unfold zlen at 1. rewrite mem_write_length by done. done. Qed.

(** Two adjacent stores are one. *)
Lemma mem_write_adjacent off a b m :
  0 <= off -> off + zlen a + zlen b <= zlen m ->
  mem_write (off + zlen a) b (mem_write off a m) = mem_write off (a ++ b) m.
Proof.
  intros Ho Hz. set (pre := take (Z.to_nat off) m). set (rest := drop (Z.to_nat off) m).
  assert (m = pre ++ rest) as Em by (symmetry; apply take_drop).
  assert (zlen pre = off) as Ep by (subst pre; unfold zlen in *; rewrite length_take; lia).
  rewrite Em in Hz |- *. rewrite zlen_app in Hz. clearbody pre rest. subst off.
  pose proof (zlen_nonneg a). pose proof (zlen_nonneg b).
  rewrite (mem_write_extend pre a) by lia. rewrite <- zlen_app. rewrite mem_write_extend by (unfold zlen in *; rewrite length_drop; lia).
  rewrite (mem_write_extend pre (a ++ b)) by (rewrite zlen_app; lia). by rewrite drop_drop, length_app, <- !app_assoc.
Qed.

Lemma mem_write_zero bs m : zlen bs <= zlen m -> exists rest, mem_write 0 bs m = bs ++ rest.
Proof. intros _. unfold mem_write. exists (drop (Z.to_nat 0 + length bs) m). done. Qed.

(** ** The messages of the handshake are derived messages *)

Lemma connect_request_derives host port :
  derives (ConnectRequestMessage.derive host port) (be_bytes 2 (u16 port)).
Proof.
  split; [done|]. intros b Hr. cbn [ConnectRequestMessage.derive encodeDerive].
  rewrite (db_store_spec b 2 _ (be_bytes 2 (u16 port))); [|done|done|intros; by apply write16_spec].
  eexists. split; [done|]. split; [|done]. by repeat split.
Qed.

Lemma MoveHeadBack_frame n b : same_frame b (MoveHeadBack n b).
Proof. unfold MoveHeadBack. destruct (_ || _); by repeat split. Qed.

Lemma MoveHeadBack_pos n b : m_pPos b <> 0 -> m_pLast b <> 0 -> m_pPos (MoveHeadBack n b) = m_pPos b + n.
Proof.
  intros Hp Hl. unfold MoveHeadBack. destruct (Z.eqb_spec (m_pPos b) 0), (Z.eqb_spec (m_pLast b) 0); done.
Qed.

(** A store and the move of the position behind it. *)
Lemma store_move_spec b k f bs :
  room b k -> zlen bs = k -> (forall m, (length bs <= length m)%nat -> f m = bs ++ drop (length bs) m) ->
  exists b', (b1 ← db_store k f b; Some (db_op (MoveHeadBack k) b1)) = Some b' /\ same_frame (db b) (db b') /\
    m_pPos (db b') = m_pPos (db b) + k /\
    db_mem b' = mem_write (m_pPos (db b) - m_pStart (db b)) bs (db_mem b).
Proof.
  intros Hr Hz Hfm. rewrite (db_store_spec b k f bs Hr Hz Hfm). cbn [mbind option_bind]. eexists. split; [done|].
  cbn [db_op db db_mem]. split; [apply MoveHeadBack_frame|]. split; [|done].
  destruct Hr as (?&?&?). apply MoveHeadBack_pos; lia.
Qed.

Lemma room_after b b' k j :
  room b (k + j) -> 0 <= k -> same_frame (db b) (db b') -> m_pPos (db b') = m_pPos (db b) + k ->
  zlen (db_mem b') = zlen (db_mem b) -> room b' j.
Proof. intros (?&?&?) Hk (Hs&_&Hl&_) Hp Hz. unfold room. rewrite Hs, Hl, Hp, Hz. repeat split; try done; lia. Qed.

Lemma same_frame_trans a b c : same_frame a b -> same_frame b c -> same_frame a c.
Proof. intros (?&?&?&?&?) (?&?&?&?&?). unfold same_frame. repeat split; congruence. Qed.

Lemma connect_response_derives host st what :
  zlen what < 4294967294 ->
  derives (ConnectResponseMessage.derive host st what) (be_bytes 2 (ConnectResponseMessage.status_code st) ++ what).
Proof.
  intros Hw. pose proof (zlen_nonneg what). set (code := be_bytes 2 _). assert (zlen code = 2) as Hc by done. split.
  { cbn [ConnectResponseMessage.derive getDerivePayloadLength]. rewrite u32_small, zlen_app by lia. lia. }
  intros b Hr. rewrite zlen_app, Hc in Hr. cbn [ConnectResponseMessage.derive encodeDerive].
  destruct (store_move_spec b 2 (fun m => ByteOrderUtils.WriteUInt16 host m (ConnectResponseMessage.status_code st)) code)
    as (b1&E&Hf&Hp&Hm); [destruct Hr as (?&?&?); unfold room; lia|done|intros; by apply write16_spec|].
  destruct (db_store 2 _ b) as [b0|]; [|done]. cbn [mbind option_bind] in *. injection E as ->.
  assert (zlen (db_mem b1) = zlen (db_mem b)) as Hzm.
  { rewrite Hm. destruct Hr as (?&?&?). apply mem_write_len; lia. }
  assert (room b1 (zlen what)) as Hr1 by (eapply room_after; [exact Hr|lia|done..]).
  rewrite (db_store_spec b1 (zlen what) _ what Hr1) by (done || intros; unfold mem_write; by rewrite take_0).
  eexists. split; [done|]. split; [done|]. cbn [db_mem]. destruct Hf as (Hs&_). rewrite Hm, Hp, Hs.
  rewrite <- (mem_write_adjacent _ code what) by (destruct Hr as (?&?&?); rewrite ?Hc; lia). rewrite Hc. do 2 f_equal. lia.
Qed.

(** ** Encode *)

Lemma encode_header_spec host b h :
  room b 16 ->
  exists b', SndMessage.encode_header host b h = Some b' /\ same_frame (db b) (db b') /\
    m_pPos (db b') = m_pPos (db b) + 16 /\
    db_mem b' = mem_write (m_pPos (db b) - m_pStart (db b))
      (be_bytes 4 (h_magic h) ++ be_bytes 8 (h_id h) ++ be_bytes 4 (h_len h)) (db_mem b).
Proof.
  intros Hr. unfold SndMessage.encode_header. pose proof Hr as (Hs0&Hl0&Hz0).
  destruct (store_move_spec b 4 (fun m => ByteOrderUtils.WriteUInt32 host m (h_magic h)) (be_bytes 4 (h_magic h)))
    as (b1&E1&Hf1&Hp1&Hm1); [unfold room; lia|done|intros; by apply write32_spec|].
  destruct (db_store 4 _ b) as [x1|]; [|done]. cbn [mbind option_bind] in *. injection E1 as ->.
  assert (zlen (db_mem b1) = zlen (db_mem b)) as Hz1 by (rewrite Hm1; apply mem_write_len; zlens; lia).
  assert (room b1 12) as Hr1 by (eapply (room_after b b1 4 12); done || lia). pose proof Hr1 as (Hs1&Hl1&_).
  destruct (store_move_spec b1 8 (fun m => ByteOrderUtils.WriteUInt64 host m (h_id h)) (be_bytes 8 (h_id h)))
    as (b2&E2&Hf2&Hp2&Hm2); [destruct Hr1; unfold room; lia|done|intros; by apply write64_spec|].
  destruct (db_store 8 _ b1) as [x2|]; [|done]. cbn [mbind option_bind] in *. injection E2 as ->.
  assert (zlen (db_mem b2) = zlen (db_mem b1)) as Hz2.
  { rewrite Hm2. destruct Hr1 as (?&?&?). apply mem_write_len; zlens; lia. }
  assert (room b2 4) as Hr2 by (eapply (room_after b1 b2 8 4); done || lia).
  destruct (store_move_spec b2 4 (fun m => ByteOrderUtils.WriteUInt32 host m (h_len h)) (be_bytes 4 (h_len h)))
    as (b3&E3&Hf3&Hp3&Hm3); [done|done|intros; by apply write32_spec|].
  destruct (db_store 4 _ b2) as [x3|]; [|done]. cbn [mbind option_bind] in *. injection E3 as ->.
  exists b3. split; [done|]. split; [by eapply same_frame_trans; [|eapply same_frame_trans]|]. split; [lia|].
  destruct Hf1 as (Hs&_), Hf2 as (Hs'&_). rewrite Hs', Hs in *. rewrite Hm3, Hp2, Hp1, Hm2, Hm1, Hp1.
  set (off := m_pPos (db b) - m_pStart (db b)) in *.
  replace (m_pPos (db b) + 4 + 8 - m_pStart (db b)) with (off + zlen (be_bytes 4 (h_magic h) ++ be_bytes 8 (h_id h)))
    by (zlens; lia).
  replace (m_pPos (db b) + 4 - m_pStart (db b)) with (off + zlen (be_bytes 4 (h_magic h))) by (zlens; lia).
  rewrite mem_write_adjacent by (zlens; lia). rewrite mem_write_adjacent by (zlens; lia). by rewrite <- app_assoc.
Qed.

(** A buffer of the pool object [id] that holds [rest], which is still to be sent. *)
Record to_send (b : dbuf) (rest : list byte) (id : Z) : Prop := {
  ts_obj : m_pMpObject (db b) = Some id;
  ts_own : m_bOwn (db b) = true;
  ts_start : 0 < m_pStart (db b) <= m_pPos (db b);
  ts_end : m_pEnd (db b) <> 0;
  ts_last : m_pLast (db b) = m_pPos (db b) + zlen rest - 1;
  ts_avail : m_bAvailable (db b) = true;
  ts_size : 0 < zlen rest <= MAX_MSG_PAYLOAD_SIZE + 16;
  ts_bytes : slice (m_pPos (db b) - m_pStart (db b)) (zlen rest) (db_mem b) = rest
}.

(** A queued message and what it puts on the wire. *)
Record sends (sm : SndMessage) (m : wire) : Prop := {
  sn_id : snd_id sm = w_id m;
  sn_derive : derives (snd_derive sm) (w_payload m);
  sn_ok : wire_ok m
}.

Section send.
Context `{MemAlloc} (host : byte_order).

Lemma Encode_spec sm m w :
  sends sm m -> free_ok w ->
  wp (SndMessage.Encode host sm) w (fun b w' =>
    to_send b (wire_bytes m) (nw_next w) /\ nw_live w' = nw_next w :: nw_live w /\ kept w w' /\
    nw_notes w' = nw_notes w /\ nw_sock w' = nw_sock w /\ nw_next w' = nw_next w + 1).
Proof.
  intros [Hid [Hlen Henc] [Hidok Hpl]] Hfree. unfold SndMessage.Encode. rewrite Hlen, Hid. unfold MAX_MSG_PAYLOAD_SIZE in *.
  destruct (Z.leb_spec (zlen (w_payload m)) 0); [lia|]. destruct (Z.ltb_spec 67108864 (zlen (w_payload m))); [lia|].
  unfold Message.HeaderSize, MSG_HEADER_SIZE. set (total := 16 + zlen (w_payload m)) in *. rewrite (u32_small total) by lia.
  wbind. unfold wp at 1, wpc, pool_get. wbind. unfold Message.GetNewAvailableBuffer. wbind.
  destruct (mp_Get_ok total) as (Hp&Hsz&Hml); [lia|].
  eapply wp_mono; [by apply GetNewBuffer_at_spec|]. intros b0 w' (Hk&Hn&Hs&Hl&Hx&->). apply wp_ret.
  cbn [nw_notes nw_sock nw_live nw_next set_pool] in *.
  assert (available (mo_ptr (mp_Get total)) (mo_ptr (mp_Get total) + total - 1) (mo_ptr (mp_Get total))
    (mo_ptr (mp_Get total) + total - 1) = true) as -> by (apply available_true; lia).
  set (b1 := DBuf _ _).
  assert (room b1 total) as Hr1 by (unfold room, b1; cbn [db db_mem m_pStart m_pPos m_pLast]; lia).
  destruct (encode_header_spec host b1 (MkHeader MESSAGE_MAGIC_NO (w_id m) (zlen (w_payload m)))) as (b2&->&Hf2&Hp2&Hm2);
    [destruct Hr1 as (?&?&?); unfold room; lia|].
  cbn [h_magic h_id h_len] in Hm2. fold (wire_header (w_id m) (zlen (w_payload m))) in Hm2.
  unfold of_mem. wbind. apply wp_ret.
  assert (zlen (db_mem b2) = zlen (db_mem b1)) as Hz2.
  { rewrite Hm2. unfold b1. cbn [db db_mem m_pStart m_pPos]. apply mem_write_len; zlens; lia. }
  destruct (Henc b2) as (b3&->&Hf3&Hm3); [by eapply (room_after b1 b2 16)|].
  wbind. apply wp_ret. apply wp_ret.
  assert (same_frame (db b1) (db b3)) as (Hs3&He3&Hl3&Ho3&Hw3) by (by eapply same_frame_trans).
  subst b1. cbn [db db_mem m_pStart m_pPos m_pEnd m_pLast m_pMpObject m_bOwn] in *.
  destruct Hf2 as (Hs2&_). rewrite Hs2, Hp2 in *. split; [|split; [done|]; split; [destruct Hk; by split|done]].
  assert (zlen (wire_bytes m) = total) as Hwz by (unfold wire_bytes; zlens; lia).
  unfold db_op, SetPos, check_available, GetStart. cbn [db db_mem].
  split; cbn [db db_mem m_pStart m_pPos m_pEnd m_pLast m_pMpObject m_bOwn m_bAvailable]; rewrite ?Hwz; try done; try lia.
  - apply available_true. lia.
  - unfold MAX_MSG_PAYLOAD_SIZE. lia.
  - rewrite Z.sub_diag, Hm3, Hm2. cbn [m_pStart]. rewrite Z.sub_diag.
    replace (mo_ptr (mp_Get total) + 16 - mo_ptr (mp_Get total)) with (0 + zlen (wire_header (w_id m) (zlen (w_payload m))))
      by (rewrite wire_header_length; lia).
    rewrite mem_write_adjacent by (rewrite ?wire_header_length; lia).
    unfold slice, mem_write. change (Z.to_nat 0) with 0%nat. rewrite drop_0, take_0. cbn [app].
    rewrite <- Hwz. unfold zlen. rewrite Nat2Z.id. apply take_app_length.
Qed.

(** ** Send *)

(** What a [::write] of [n] bytes finds on the socket. *)
Definition write_ok (n : Z) (evs : list wevent) (r : wrres) (evs' : list wevent) : Prop :=
  ((forall e, e ∈ evs' -> e ∈ evs) /\ (length evs' <= length evs)%nat) /\
  match r with
  | WrSent 0 => WrZero ∈ evs
  | WrSent k => 0 < k <= n
  | WrFail e => e <> EINTR /\ WrErr e ∈ evs /\ (length evs' < length evs)%nat
  end.

Lemma write_events_ok n evs : 0 < n -> let '(r, evs') := write_events n evs in write_ok n evs r evs'.
Proof.
  intros Hn. induction evs as [|[k|e|] evs IH]; cbn [write_events].
  - split; [done|]. destruct n; lia.
  - split; [split; [intros; by right|simpl; lia]|]. destruct (Z.max 1 (Z.min k n)) eqn:E; lia.
  - destruct (Z.eqb_spec e EINTR) as [->|He].
    + destruct (write_events n evs) as [r evs']. destruct IH as [[Hs Hl] IH].
      split; [split; [intros; right; by apply Hs|simpl; lia]|].
      destruct r as [[|k|k]|e]; [by right|done|done|]. destruct IH as (?&?&?). split; [done|]. split; [by right|simpl; lia].
    + split; [split; [intros; by right|simpl; lia]|]. split; [done|]. split; [by left|simpl; lia].
  - split; [split; [intros; by right|simpl; lia]|]. by left.
Qed.

Definition sched (w : netw) : list wevent := sk_wr (nw_sock w).
Definition out (w : netw) : list byte := sk_out (nw_sock w).

(** The world after a write. *)
Definition wrote (bs : list byte) (evs : list wevent) (w : netw) : netw :=
  set_sock (MkSock (sk_nonblock (nw_sock w)) (sk_in (nw_sock w)) evs (out w ++ bs)) w.

Lemma Write_spec bs w Q :
  0 < zlen bs ->
  (forall r evs', write_ok (zlen bs) (sched w) r evs' ->
     Q r (wrote (match r with WrSent n => take (Z.to_nat n) bs | WrFail _ => [] end) evs' w)) ->
  wp (Write bs) w Q.
Proof.
  intros Hz HQ. unfold wp, wpc, Write, sock_write. pose proof (write_events_ok (zlen bs) (sched w) Hz) as Hok.
  unfold sched in *. destruct (write_events (zlen bs) (sk_wr (nw_sock w))) as [r evs'].
  specialize (HQ r evs' Hok). unfold wrote, out in HQ. destruct r; [done|]. by rewrite app_nil_r in HQ.
Qed.

(** The worker has [rest] in its sending buffer and [ms] in its queue. *)
Record sending (o : worker) (w : netw) (rest : list byte) (ms : list wire) : Prop := {
  sd_free : free_ok w;
  sd_max : m_iQueueMaxSize (m_bqMessages o) = 0;
  sd_queue : Forall2 sends (m_queue (m_bqMessages o)) ms;
  sd_buffer : match m_pSendingBuffer o with
    | None => rest = []
    | Some b => exists id, to_send b rest id /\ id ∈ nw_live w
    end
}.

(** The rest of the worker and of its world: what receiving uses. *)
Record apart (o : worker) (w : netw) (o' : worker) (w' : netw) : Prop := {
  ap_in : sk_in (nw_sock w') = sk_in (nw_sock w);
  ap_nonblock : sk_nonblock (nw_sock w') = sk_nonblock (nw_sock w);
  ap_id : s_lastId w' = s_lastId w;
  ap_heard : heard w' = heard w;
  ap_worker : exists bq sb, o' = set_sending sb (set_bq bq o)
}.

Lemma apart_refl o w : apart o w o w.
Proof. split; [done..|]. exists (m_bqMessages o), (m_pSendingBuffer o). by destruct o. Qed.
Lemma apart_trans o w o1 w1 o2 w2 : apart o w o1 w1 -> apart o1 w1 o2 w2 -> apart o w o2 w2.
Proof.
  intros [???? (bq&sb&->)] [???? (bq'&sb'&->)]. split; [congruence..|]. exists bq', sb'. done.
Qed.

Lemma apart_receiving o w o' w' p : apart o w o' w' -> receiving o p -> receiving o' p.
Proof. intros [_ _ _ _ (bq&sb&->)]. done. Qed.

(** The sending buffer is given back when it is empty. *)
Lemma Put_Send_Buffer_spec b id o w Q :
  m_pSendingBuffer o = Some b -> m_pMpObject (db b) = Some id -> m_bOwn (db b) = true -> id ∈ nw_live w -> free_ok w ->
  (forall w', free_ok w' -> nw_sock w' = nw_sock w -> nw_notes w' = nw_notes w -> s_lastId w' = s_lastId w ->
     nw_next w' = nw_next w -> (forall i, i <> id -> i ∈ nw_live w -> i ∈ nw_live w') ->
     Q tt (set_sending None o, w')) ->
  wp Put_Send_Buffer (o, w) Q.
Proof.
  intros Hb Hobj Hown Hlive Hfree HQ. unfold Put_Send_Buffer. wpure. rewrite Hb. unfold deref, of_mem. wpure. wlift.
  unfold Message.PutBuffer. unfold Put, Refresh. rewrite Hown, Hobj. cbn [release_all release_one]. wbind. wbind.
  unfold wp at 1, wpc, pool_put. rewrite decide_True by done. wpure. apply HQ; [|done..|].
  - unfold free_ok in *. cbn [s_freeBuffers set_free set_pool]. apply Forall_app. split; [done|]. by constructor.
  - intros i Hi Hin. cbn. by rewrite list_elem_of_difference, list_elem_of_singleton.
Qed.

Lemma to_send_avail b rest id : to_send b rest id -> AvailableLength (db b) = zlen rest.
Proof.
  intros [_ _ Hs He Hl Ha Hz _]. unfold MAX_MSG_PAYLOAD_SIZE in *. rewrite AvailableLength_avail; [lia|done| |lia].
  intros _. lia.
Qed.

(** [MoveHeadBack(n)] after a write of [n] bytes: the rest, or nothing. *)
Lemma to_send_move b rest id n :
  to_send b rest id -> 0 < n <= zlen rest ->
  m_pMpObject (MoveHeadBack n (db b)) = Some id /\ m_bOwn (MoveHeadBack n (db b)) = true /\
  if n =? zlen rest then AvailableLength (MoveHeadBack n (db b)) = 0
  else to_send (db_op (MoveHeadBack n) b) (drop (Z.to_nat n) rest) id.
Proof.
  intros [Ho Hw Hs He Hl Ha Hz Hb] Hn. pose proof (MoveHeadBack_frame n (db b)) as (Hs'&He'&Hl'&Ho'&Hw').
  split; [congruence|]. split; [congruence|]. unfold MAX_MSG_PAYLOAD_SIZE in *.
  assert (m_pPos (MoveHeadBack n (db b)) = m_pPos (db b) + n) as Hp by (apply MoveHeadBack_pos; lia).
  assert (m_bAvailable (MoveHeadBack n (db b)) =
    available (m_pPos (db b) + n) (m_pLast (db b)) (m_pStart (db b)) (m_pEnd (db b))) as Hav.
  { unfold MoveHeadBack. destruct (Z.eqb_spec (m_pPos (db b)) 0), (Z.eqb_spec (m_pLast (db b)) 0); [lia..|]. done. }
  destruct (Z.eqb_spec n (zlen rest)) as [En|En].
  - apply AvailableLength_false. rewrite Hav. apply not_true_is_false. intros Hc%available_true. lia.
  - assert (zlen (drop (Z.to_nat n) rest) = zlen rest - n) as Hd by (unfold zlen in *; rewrite length_drop; lia).
    unfold db_op. split; cbn [db db_mem]; rewrite ?Hd, ?Hp, ?Hs', ?He', ?Hl', ?Hav; try congruence; try lia.
    + apply available_true. lia.
    + unfold MAX_MSG_PAYLOAD_SIZE. lia.
    + rewrite <- Hb at 2. unfold slice. rewrite skipn_firstn_comm, drop_drop. f_equal; [lia|]. f_equal. lia.
Qed.

(** The result of sending from a worker with [rest] and [ms] to send. *)
Definition sent (rest : list byte) (ms : list wire) (o : worker) (w : netw) (rc : bool) (s' : worker * netw) : Prop :=
  apart o w s'.1 s'.2 /\ ((forall e, e ∈ sched s'.2 -> e ∈ sched w) /\ (length (sched s'.2) <= length (sched w))%nat) /\
  exists c, out s'.2 = out w ++ c /\
  if rc then
    exists rest' ms', sending s'.1 s'.2 rest' ms' /\ rest ++ wires ms = c ++ rest' ++ wires ms' /\
      (exists done, ms = done ++ ms') /\ alarms s'.2 = alarms w /\
      (rest' = [] /\ ms' = [] \/ (length (sched s'.2) < length (sched w))%nat)
  else
    (exists x, rest ++ wires ms = c ++ x) /\ exists code, alarms s'.2 = alarms w ++ [code] /\
    (WrZero ∈ sched w \/ exists e, WrErr e ∈ sched w /\ e <> EAGAIN /\ e <> EINTR).

(** A call goes on after [c] was sent and [taken] was taken from the queue. *)
Lemma sent_then (k : NM bool) (X : bool -> worker * netw -> Prop) rest ms o w o1 w1 c rest1 ms1 :
  apart o w o1 w1 -> alarms w1 = alarms w -> (forall e, e ∈ sched w1 -> e ∈ sched w) ->
  (length (sched w1) <= length (sched w))%nat -> out w1 = out w ++ c -> rest ++ wires ms = c ++ rest1 ++ wires ms1 ->
  (exists done, ms = done ++ ms1) ->
  wp k (o1, w1) (fun rc s' => sent rest1 ms1 o1 w1 rc s' /\ X rc s') ->
  wp k (o1, w1) (fun rc s' => sent rest ms o w rc s' /\ X rc s').
Proof.
  intros Ha Hal Hs Hlen Ho He (dn&Hdn) Hk. eapply wp_mono; [exact Hk|]. intros rc s' [(Ha'&[Hs' Hlen']&c'&Ho'&Hrc) HX].
  split; [|done]. split; [by eapply apart_trans|]. split; [split; [auto|lia]|]. exists (c ++ c').
  split; [by rewrite Ho', Ho, app_assoc|]. destruct rc.
  - destruct Hrc as (rest'&ms'&Hsd&E&(dn'&Hdn')&Hal'&Hend). exists rest', ms'. split; [done|].
    split; [by rewrite He, E, app_assoc|]. split; [exists (dn ++ dn'); by rewrite Hdn, Hdn', app_assoc|].
    split; [congruence|]. destruct Hend as [?|?]; [by left|right; lia].
  - destruct Hrc as ((x&E)&code&Hal'&Hwhy). split; [exists x; by rewrite He, E, app_assoc|]. exists code.
    split; [by rewrite Hal', Hal|]. destruct Hwhy as [?|(e&?&?)]; [left; auto|right; exists e; auto].
Qed.

(** Giving the connection up: the buffer goes back to the pool. *)
Lemma give_up_spec (note : NM unit) code b id rest ms o w w0 n :
  m_msgCallback o = true -> m_pSendingBuffer o = Some b -> m_pMpObject (db b) = Some id -> m_bOwn (db b) = true ->
  id ∈ nw_live w -> free_ok w ->
  apart o w0 o w -> alarms w = alarms w0 -> out w = out w0 ->
  ((forall e, e ∈ sched w -> e ∈ sched w0) /\ (length (sched w) <= length (sched w0))%nat) ->
  (forall w1 Q, Q tt (set_sending None o, add_note (WorkerNotifyMessage code (m_realPeer o) n) w1) ->
     wp note (set_sending None o, w1) Q) ->
  (WrZero ∈ sched w0 \/ exists e, WrErr e ∈ sched w0 /\ e <> EAGAIN /\ e <> EINTR) ->
  wp (Put_Send_Buffer;; note;; mret false) (o, w) (fun rc s' => sent rest ms o w0 rc s' /\ True).
Proof.
  intros Hcb Hb Hobj Hown Hlive Hfree Hap Hal Hout Hs Hnote Hwhy. wbind. eapply Put_Send_Buffer_spec; [done..|].
  intros w1 Hf1 Hs1 Hn1 Hi1 _ _. wbind. apply Hnote. apply wp_ret. split; [|done].
  destruct Hap as [Hin Hnb Hid Hh _]. split; [|split].
  - split; cbn [fst snd nw_sock add_note s_lastId]; rewrite ?Hs1; [done|done|congruence| |].
    + rewrite heard_note. cbn [note_wire]. rewrite app_nil_r. unfold heard in *. by rewrite Hn1.
    + exists (m_bqMessages o), None. by destruct o.
  - unfold sched in *. cbn [fst snd nw_sock add_note]. by rewrite Hs1.
  - exists []. unfold out in *. cbn [fst snd nw_sock add_note]. rewrite Hs1, app_nil_r. split; [done|].
    split; [by exists (rest ++ wires ms)|]. exists code. rewrite alarms_note. cbn [note_alarm]. unfold alarms in *. rewrite Hn1.
    split; [congruence|done].
Qed.

(** One write: how the worker and its world look after [n] bytes of [rest] are out. *)
Lemma after_write_spec (k : NM bool) b id rest ms n evs' o w :
  m_pSendingBuffer o = Some b -> to_send b rest id -> id ∈ nw_live w -> free_ok w ->
  m_iQueueMaxSize (m_bqMessages o) = 0 -> Forall2 sends (m_queue (m_bqMessages o)) ms ->
  0 < n <= zlen rest -> (forall e, e ∈ evs' -> e ∈ sched w) -> (length evs' <= length (sched w))%nat ->
  (forall o1 w1 rest1, m_msgCallback o1 = m_msgCallback o -> sending o1 w1 rest1 ms -> (length rest1 < length rest)%nat ->
     wp k (o1, w1) (fun rc s' => sent rest1 ms o1 w1 rc s' /\ True)) ->
  wp (let b := db_op (MoveHeadBack (u32 n)) b in
      modO (set_sending (Some b));;
      (if AvailableLength (db b) <=? 0 then Put_Send_Buffer else mret tt);;
      k) (o, wrote (take (Z.to_nat n) rest) evs' w) (fun rc s' => sent rest ms o w rc s' /\ True).
Proof.
  intros Hsb Hts Hlive Hfree Hmax Hq Hn Hs Hlen Hk.
  assert (u32 n = n) as ->.
  { destruct Hts as [_ _ _ _ _ _ Hz _]. unfold MAX_MSG_PAYLOAD_SIZE in *. apply u32_small. lia. }
  destruct (to_send_move b rest id n Hts Hn) as (Hobj&Hown&Hmv). wpure. cbn [db_op db].
  assert (forall w1 sb, nw_sock w1 = nw_sock (wrote (take (Z.to_nat n) rest) evs' w) -> nw_notes w1 = nw_notes w ->
    s_lastId w1 = s_lastId w -> apart o w (set_sending sb o) w1) as Hap.
  { intros w1 sb E1 E2 E3. split; rewrite ?E1; [done|done|done| |]; [unfold heard; by rewrite E2|].
    exists (m_bqMessages o), sb. by destruct o. }
  assert (exists dn : list wire, ms = dn ++ ms) by (by exists []).
  destruct (Z.eqb_spec n (zlen rest)) as [->|Hlt].
  - rewrite Hmv. cbn [Z.leb Z.compare]. wbind. eapply (Put_Send_Buffer_spec (db_op (MoveHeadBack (zlen rest)) b) id); try done.
    intros w1 Hf1 Hs1 Hn1 Hi1 _ _. eapply (sent_then k _ rest ms o w _ _ rest [] ms); try done.
    + by apply Hap.
    + unfold alarms. by rewrite Hn1.
    + unfold sched. rewrite Hs1. done.
    + unfold sched. rewrite Hs1. done.
    + unfold out. rewrite Hs1. cbn [nw_sock wrote set_sock sk_out out]. unfold zlen. by rewrite Nat2Z.id, firstn_all.
    + apply Hk; [done|by split|]. destruct Hts as [_ _ _ _ _ _ Hz _]. unfold zlen in Hz. simpl. lia.
  - rewrite (to_send_avail _ _ _ Hmv : AvailableLength (MoveHeadBack n (db b)) = _).
    assert (length (drop (Z.to_nat n) rest) = length rest - Z.to_nat n)%nat as Hd by apply length_drop.
    destruct (Z.leb_spec (zlen (drop (Z.to_nat n) rest)) 0); [unfold zlen in *; lia|]. wpure.
    eapply (sent_then k _ rest ms o w _ _ (take (Z.to_nat n) rest) (drop (Z.to_nat n) rest) ms); try done.
    + by apply Hap.
    + by rewrite app_assoc, take_drop.
    + apply Hk; [done| |unfold zlen in *; lia]. split; try done. by exists id.
Qed.

Lemma pop_message_spec o w Q :
  m_iQueueMaxSize (m_bqMessages o) = 0 ->
  match m_queue (m_bqMessages o) with
  | [] => Q None (o, w)
  | x :: xs => Q (Some x) (set_bq (MkQ 0 xs) o, w)
  end -> wp pop_message (o, w) Q.
Proof.
  intros Hm HQ. unfold pop_message. wpure. unfold TryPop. destruct (m_queue (m_bqMessages o)) as [|x xs] eqn:Eq; wpure.
  - replace (set_bq (m_bqMessages o) o) with o by (by destruct o). done.
  - by rewrite Hm.
Qed.

Lemma send_loop_spec fuel rest ms o w :
  m_msgCallback o = true -> sending o w rest ms -> (length ms + length (rest ++ wires ms) < fuel)%nat ->
  wp (send_loop host fuel) (o, w) (fun rc s' => sent rest ms o w rc s' /\ True).
Proof.
  revert rest ms o w. induction fuel as [|fuel IH]; intros rest ms o w Hcb Hsd Hfuel; [lia|]. cbn [send_loop]. wpure.
  pose proof Hsd as [Hfree Hmax Hq Hb]. destruct (m_pSendingBuffer o) as [b|] eqn:Esb.
  - destruct Hb as (id&Hts&Hlive). rewrite (to_send_avail _ _ _ Hts). pose proof Hts as [Hobj Hown _ _ _ _ Hz Hbs].
    unfold MAX_MSG_PAYLOAD_SIZE in *. rewrite u64_small by lia. destruct (Z.ltb_spec 0 (zlen rest)); [|lia].
    unfold deref, of_mem. wpure. wlift. rewrite Hbs. apply Write_spec; [done|]. intros r evs' [[Hs Hlen] Hr].
    assert (forall bs, apart o w o (wrote bs evs' w)) as Hap.
    { intros bs. split; [done..|]. exists (m_bqMessages o), (Some b). rewrite <- Esb. by destruct o. }
    destruct r as [[|n|n]|e]; cbn iota.
    + eapply (give_up_spec _ ClosedByPeer b id); try done; [cbn [take Z.to_nat]; unfold wrote, out; simpl; by rewrite app_nil_r| |by left].
      intros w1 Q HQ. unfold NotifyWorkerPeerClosedMessage. wpure. by apply HandleMessage_spec.
    + eapply after_write_spec; try done. intros o1 w1 rest1 Hc1 Hsd1 Hlt.
      apply IH; [by rewrite Hc1|done|]. rewrite !length_app in *. lia.
    + lia.
    + destruct Hr as (Hi&He&Hlt). destruct (Z.eqb_spec e EAGAIN) as [->|Ha].
      * apply wp_ret. split; [|done]. split; [apply Hap|]. split; [done|]. exists []. split; [done|].
        exists rest, ms. split; [split; cbn [fst]; [done|done|done|rewrite Esb; by exists id]|]. split; [done|]. split; [by exists []|].
        split; [done|]. by right.
      * eapply (give_up_spec _ WorkerError b id); try done; [unfold wrote, out; simpl; by rewrite app_nil_r| |right; by exists e].
        intros w1 Q HQ. unfold NotifyWorkerBrokenMessage. wpure. by apply HandleMessage_spec.
  - subst rest. cbn [Z.ltb Z.compare]. wbind. apply pop_message_spec; [done|].
    destruct (m_queue (m_bqMessages o)) as [|sm q] eqn:Eq.
    + apply wp_ret. split; [|done]. split; [apply apart_refl|]. split; [done|]. exists []. rewrite app_nil_r. split; [done|].
      inversion Hq; subst. exists [], []. split; [split; cbn [fst]; [done|done|by rewrite Eq|by rewrite Esb]|].
      split; [done|]. split; [by exists []|]. split; [done|]. by left.
    + inversion Hq as [|? m ? ms1 Hsm Hq1]; subst. wlift. eapply wp_mono; [by apply Encode_spec|].
      intros b w1 (Hts&Hlv&Hk&Hn&Hsk&_). wpure.
      eapply (sent_then _ _ [] (m :: ms1) o w _ _ [] (wire_bytes m) ms1).
      * split; rewrite ?Hsk; try done; [apply (kp_id _ _ Hk)|unfold heard; by rewrite Hn|by exists (MkQ 0 q), (Some b)].
      * unfold alarms. by rewrite Hn.
      * unfold sched. by rewrite Hsk.
      * unfold sched. by rewrite Hsk.
      * unfold out. by rewrite Hsk, app_nil_r.
      * done.
      * by exists [m].
      * apply IH; [done| |].
        -- split; try done; [by apply (kp_free _ _ Hk)|]. exists (nw_next w). split; [done|]. rewrite Hlv. by left.
        -- unfold wires in *. cbn [map concat length app] in *. lia.
Qed.
End send.
