(* ===== verification/NetHandshake.v ===== *)
(** * Opening a connection

    The two sides of a new connection exchange four messages with blocking reads and
    writes: the client's request with its logic port, the server's answer, the client's
    acknowledgement, and the server's last word.  [handshake] receives the next message
    from inside the handling of the one before. *)

From S2P Require Import Prelude Codec Buffer Posix Records BlockingQueue Net NetWorker NetRecv NetSend.

(** A frame that arrives in one piece. *)
Definition chunk (bs : list byte) (evs : list revent) : list revent :=
  match bs with [] => evs | b :: bs => RdBytes b bs :: evs end.
Definition arrives (m : wire) (evs : list revent) : list revent := chunk (wire_bytes m) evs.

(** What the steps of a handshake do to the world: [evs] are still to be read, [bs]
    has been written; objects of the pool that were in use still are. *)
Record talked (w : netw) (bs : list byte) (evs : list revent) (ids : Z) (w' : netw) : Prop := {
  tk_in : unread_of w' = evs;
  tk_out : out w' = out w ++ bs;
  tk_sched : sched w' = [];
  tk_free : free_ok w';
  tk_id : s_lastId w' = s_lastId w + ids;
  tk_next : nw_next w <= nw_next w';
  tk_live : forall id, id < nw_next w -> id ∈ nw_live w -> id ∈ nw_live w'
}.

Lemma talked_trans w1 w2 w3 a b evs evs' i j :
  talked w1 a evs i w2 -> talked w2 b evs' j w3 -> talked w1 (a ++ b) evs' (i + j) w3.
Proof.
  intros [] []. split; [done| |done|done|lia|lia|]; [by rewrite app_assoc; congruence|].
  intros id Hid Hl. assert (id < nw_next w2) by lia. auto.
Qed.

(** A worker between messages. *)
Record idle (o : worker) : Prop := {
  id_header : over 16 (m_pHeaderBuffer o);
  id_state : m_rcvState o = StartToRcvHeader;
  id_queue : m_bqMessages o = MkQ 0 [];
  id_sending : m_pSendingBuffer o = None
}.

Section handshake.
Context `{MemAlloc} (host : byte_order).

Lemma sock_read_chunk x y evs s :
  0 < zlen x -> sk_in s = chunk (x ++ y) evs ->
  sock_read (zlen x) s = (RdGot x, MkSock (sk_nonblock s) (chunk y evs) (sk_wr s) (sk_out s)).
Proof.
  intros Hz E. unfold sock_read. destruct (Z.eqb_spec (zlen x) 0); [lia|]. rewrite E.
  destruct x as [|b x]; [unfold zlen in Hz; simpl in Hz; lia|]. cbn [chunk app read_events].
  unfold zlen. rewrite Nat2Z.id. change (b :: x ++ y) with ((b :: x) ++ y). by rewrite take_app_length, drop_app_length.
Qed.

Lemma read_chunk_spec n d p x y evs o w Q :
  0 < n <= MAX_MSG_PAYLOAD_SIZE -> filled n d p -> zlen p + zlen x = n -> 0 < zlen x -> unread_of w = chunk (x ++ y) evs ->
  (forall b, stored n d p (RdGot x) b -> Q (RdGot x, b) (o, read_to (chunk y evs) w)) ->
  wp (read_into (zlen p) (zlen x) d) (o, w) Q.
Proof.
  intros Hn Hf Hz Hx E HQ. unfold read_into. wlift. unfold wp, wpc, Read. rewrite (sock_read_chunk x y evs) by done.
  destruct Hf as [_ _ Hsz _ _]. pose proof (zlen_nonneg p). destruct (Z.leb_spec 0 (zlen p)); [|lia].
  destruct (Z.leb_spec (zlen p + zlen x) (zlen (db_mem d))); [|lia]. cbn [andb]. unfold mret, M_ret. apply HQ. by split; [lia|].
Qed.

(** The header of a frame that is there as a whole. *)
Lemma frame_header_round hs brk err m evs o w Q :
  wire_ok m -> idle o -> unread_of w = arrives m evs ->
  (forall hb, over 16 hb ->
     Q (true, false, err)
       (set_rcvState StartToRcvPayload (set_header (MkHeader MESSAGE_MAGIC_NO (w_id m) (zlen (w_payload m))) (set_headerBuffer hb o)),
        read_to (chunk (w_payload m) evs) w)) ->
  wp (recv_round host hs brk err) (o, w) Q.
Proof.
  intros [Hid Hlen] [Ho Hst _ _] Hin HQ. unfold recv_round. wpure. rewrite Hst. wpure. fields.
  pose proof (start_header o Ho) as Hf. set (d := DBuf _ _) in *.
  rewrite (over_total 16 d [] ltac:(done) Hf). set (h := wire_header (w_id m) (zlen (w_payload m))).
  assert (zlen h = 16) as Hh by apply wire_header_length. change (u64 16) with 16. rewrite <- Hh. change 0 with (zlen (@nil byte)) at 1.
  wbind. eapply (read_chunk_spec 16 d [] h (w_payload m) evs); [done|done|done|lia|done|]. intros b [_ Hb].
  pose proof (filled_more 16 d [] ltac:(done) Hf h ltac:(by intros E; rewrite E in Hh) ltac:(by rewrite Hh)) as Hm.
  rewrite <- Hb in Hm. cbn [app] in Hm. wpure. wbind.
  assert (ProcessAfterRcvHeader host (RdGot h) (err_of (RdGot h) err) =
    (modO (fun o => set_headerBuffer (db_op (MoveTailBack (u32 (zlen h))) (CheckAndInitBufferPos (m_pHeaderBuffer o))) o);;
     ParseHeader host err)) as ->.
  { destruct h; [done|reflexivity]. }
  wpure. unfold ParseHeader. wpure. fields. rewrite (filled_avail 16 _ _ ltac:(done) Hm), (over_total 16 _ _ ltac:(done) Hm).
  replace (zlen h =? 16) with true by (by rewrite Hh). cbn iota. wpure. fields.
  destruct (decode_header host _ _ (m_header o) Hm Hh) as [(id&len&Eh&Hid'&Hlen'&->)|[Hbad _]].
  2: { exfalso. apply bad_no_start in Hbad as [_ Hbad]. by apply (Hbad m). }
  apply wire_header_inj in Eh as [<- <-]; [|done || lia..]. unfold of_mem. wpure. apply HQ. by eapply filled_over.
Qed.

(** The pool objects of a received message: its own and its buffer's. *)
Record rm_live (w : netw) (rm : RcvMessage) (first : Z) : Prop := {
  rl_rm : rm_mpo rm ∈ nw_live w;
  rl_new : rm_mpo rm < nw_next w;
  rl_own : m_bOwn (db (rm_buffer rm)) = true;
  rl_buf : exists mpo, m_pMpObject (db (rm_buffer rm)) = Some mpo /\ mpo ∈ nw_live w /\ mpo <> rm_mpo rm /\ first <= mpo < nw_next w;
  rl_first : first <= rm_mpo rm
}.

Lemma read_chunk_all n d x evs o w Q :
  0 < n <= MAX_MSG_PAYLOAD_SIZE -> filled n d [] -> zlen x = n -> unread_of w = chunk x evs ->
  (forall b, stored n d [] (RdGot x) b -> Q (RdGot x, b) (o, read_to evs w)) ->
  wp (read_into 0 n d) (o, w) Q.
Proof.
  intros Hn Hf Hz E HQ. rewrite <- Hz. change 0 with (zlen (@nil byte)).
  eapply (read_chunk_spec n d [] x [] evs); [done|done|done|lia|by rewrite app_nil_r|done].
Qed.

(** Its payload: the message is handed to the handshake. *)
Lemma frame_payload_round hs brk err m evs o w Q :
  wire_ok m -> m_rcvState o = StartToRcvPayload -> m_connState o <> Connected -> free_ok w -> sched w = [] ->
  m_header o = MkHeader MESSAGE_MAGIC_NO (w_id m) (zlen (w_payload m)) -> unread_of w = chunk (w_payload m) evs ->
  (forall rm w1, filled (zlen (w_payload m)) (rm_buffer rm) (w_payload m) -> rm_live w1 rm (nw_next w) -> talked w [] evs 0 w1 ->
     wp (hs rm) (set_rcvState StartToRcvHeader (set_payload (Some (rm_buffer rm)) o), w1)
       (fun _ s' => Q (true, brk, err) (set_payload None s'.1, s'.2))) ->
  wp (recv_round host hs brk err) (o, w) Q.
Proof.
  intros [Hid Hlen] Hst Hcs Hfree Hsch Hh Hin HQ. unfold recv_round. wpure. rewrite Hst. wpure. rewrite Hh. cbn [h_len].
  set (len := zlen (w_payload m)) in *. pose proof Hlen as HL. unfold MAX_MSG_PAYLOAD_SIZE in Hlen. wlift. unfold wp at 1, wpc, pool_get. wlift. unfold Message.GetNewBuffer_mpo. wbind.
  eapply wp_mono; [by apply GetNewBuffer_at_spec|]. intros b0 w1 (Hk&Hn&Hs&Hl&Hx&->). apply wp_ret. wpure.
  cbn [nw_notes nw_sock nw_live nw_next set_pool] in *.
  destruct (mp_Get_ok len) as (Hp&Hsz&Hml); [lia|].
  assert (available 0 0 (mo_ptr (mp_Get len)) (mo_ptr (mp_Get len) + len - 1) = false) as ->.
  { apply not_true_is_false. by intros (_&_&?&_)%available_true. }
  set (d := DBuf _ _).
  assert (filled len d []) as Hf by (apply (filled_empty len (db d)); cbn; done || lia).
  rewrite (over_total len d [] HL Hf). rewrite u64_small by lia.
  wbind. eapply (read_chunk_all len d (w_payload m) evs); [done|done|done|unfold unread_of; by rewrite Hs|].
  intros b [_ Hb]. wpure.
  assert (w_payload m <> []) as Hne by (intros E; subst len; rewrite E in Hlen; unfold zlen in Hlen; simpl in Hlen; lia).
  pose proof (filled_more len d [] HL Hf (w_payload m) Hne ltac:(fold len; unfold zlen at 1; simpl; lia)) as Hm.
  rewrite <- Hb in Hm. cbn [app] in Hm. fold len in Hm. wbind.
  assert (forall A (x y : A), match w_payload m with [] => x | _ => y end = y) as Hpm by (intros; by destruct (w_payload m)).
  unfold ProcessAfterRcvPayload. rewrite Hpm. wpure. fields. unfold deref, of_mem. wpure. fold len.
  set (b1 := db_op _ _) in *. unfold CheckPayload. wpure. fields. unfold deref, of_mem. wpure. fields.
  rewrite (filled_avail len b1 _ HL Hm), Hh. cbn [h_len]. fold len. rewrite u32_small, Z.eqb_refl by lia. wpure. fields.
  rewrite Hh. wlift. apply getNewRcvMessage_spec. wpure. fields.
  assert (forall A (x y : A), match m_connState o with Connected => x | _ => y end = y) as Hcm by (intros; by destruct (m_connState o)).
  rewrite Hcm. wbind. eapply wp_mono; [apply (HQ (MkRcv _ _ _ b1))|].
  - done.
  - cbn [read_to set_sock set_pool nw_live nw_next]. rewrite Hl, Hx. split; cbn [rm_mpo rm_buffer nw_next]; [by left|cbn; lia|..].
    + subst b1 b. cbn [db_op db]. done.
    + exists (nw_next w). split; [subst b1 b; done|]. split; [by right; left|]. cbn. lia.
    + lia.
  - split; cbn [read_to set_sock set_pool nw_live nw_next unread_of nw_sock out sched sk_in sk_out sk_wr].
    + done.
    + unfold out. cbn. by rewrite Hs, app_nil_r.
    + unfold sched in *. cbn. by rewrite Hs.
    + unfold free_ok in *. cbn. apply (kp_free _ _ Hk). done.
    + cbn. rewrite (kp_id _ _ Hk). cbn. lia.
    + lia.
    + intros id _ Hin'. rewrite Hl. by right; right.
  - intros ? s' HQ'. wpure. done.
Qed.

Lemma talked_read w evs : free_ok w -> sched w = [] -> talked w [] evs 0 (read_to evs w).
Proof. intros. split; try done; cbn; try lia. by rewrite app_nil_r. Qed.

(** [Recv(true)] on a frame that is there as a whole: the handshake gets its message. *)
Lemma recv_message sf fuel err m evs o w Q :
  wire_ok m -> idle o -> m_connState o <> Connected -> free_ok w -> sched w = [] -> unread_of w = arrives m evs ->
  (forall hb rm w1, over 16 hb -> filled (zlen (w_payload m)) (rm_buffer rm) (w_payload m) -> rm_live w1 rm (nw_next w) ->
     talked w [] evs 0 w1 ->
     wp (handshake host sf (recv_loop host sf fuel true None) rm)
       (set_payload (Some (rm_buffer rm)) (set_header (MkHeader MESSAGE_MAGIC_NO (w_id m) (zlen (w_payload m))) (set_headerBuffer hb o)), w1)
       (fun _ s' => Q true (set_payload None s'.1, s'.2))) ->
  wp (recv_loop host sf (S (S fuel)) true err) (o, w) Q.
Proof.
  intros Hm Hi Hcs Hfree Hs Hin HQ. cbn [recv_loop]. wbind. eapply frame_header_round; [done..|]. intros hb Hhb.
  cbn [andb negb]. wbind. eapply (frame_payload_round _ true err m evs); try done.
  intros rm w1 Hf Hl Ht. pose proof (HQ hb rm w1 Hhb Hf Hl) as Hrun.
  eapply wp_mono; [|intros ? s' Hq; cbn [andb negb]; apply wp_ret; exact Hq].
  replace (set_rcvState StartToRcvHeader _) with (set_payload (Some (rm_buffer rm))
    (set_header (MkHeader MESSAGE_MAGIC_NO (w_id m) (zlen (w_payload m))) (set_headerBuffer hb o))).
  2: { destruct Hi as [_ Hst _ _]. unfold set_payload, set_rcvState, set_header, set_headerBuffer, upd. fields. by rewrite Hst. }
  apply Hrun. replace w1 with w1 by done. destruct Ht. split; try done.
Qed.

Lemma rm_destroy_spec rm w first Q :
  rm_live w rm first -> free_ok w ->
  (forall w', nw_sock w' = nw_sock w -> s_lastId w' = s_lastId w -> nw_next w' = nw_next w -> free_ok w' ->
     (forall id, id < first -> id ∈ nw_live w -> id ∈ nw_live w') -> Q tt w') ->
  wp (RcvMessage.destroy rm) w Q.
Proof.
  intros [Hrm _ Hown (mpo&Hobj&Hl&Hne&Hle) Hfirst] Hfree HQ. unfold RcvMessage.destroy. wbind.
  unfold wp at 1, wpc, pool_put. rewrite decide_True by done. unfold Message.PutBuffer, Put, Refresh. rewrite Hown, Hobj.
  cbn [release_all release_one]. wbind. wbind. unfold wp at 1, wpc, pool_put. cbn [nw_live set_pool].
  rewrite decide_True by (apply list_elem_of_difference; rewrite list_elem_of_singleton; done). wpure.
  apply HQ; [done..| |].
  - unfold free_ok in *. cbn. apply Forall_app. split; [done|by constructor].
  - intros id Hid Hin. cbn. rewrite !list_elem_of_difference, !list_elem_of_singleton. split; [split; [done|lia]|lia].
Qed.

(** A message goes out at once on a socket that takes everything. *)
Lemma insert_and_send_spec fuel sm m o w Q :
  sends sm m -> idle o -> free_ok w -> sched w = [] ->
  (forall w', talked w (wire_bytes m) (unread_of w) 0 w' -> Q true (o, w')) ->
  wp (insert_and_send host (S (S (S fuel))) sm) (o, w) Q.
Proof.
  intros Hsm [_ _ Hq Hsb] Hfree Hs HQ. unfold insert_and_send, InsertMessage. wbind. wpure. rewrite Hq.
  change (TryPush sm (MkQ 0 [])) with (Return (RBool true) (MkQ 0 [sm]) NotifyOne). wpure. fields.
  unfold Send. cbn [send_loop]. wpure. fields. rewrite Hsb. cbn [Z.ltb Z.compare]. wbind.
  apply pop_message_spec; [done|]. fields. cbn [m_queue]. wlift. eapply wp_mono; [by apply Encode_spec|].
  intros b w1 (Hts&Hlv&Hk&Hn&Hsk&Hx). wpure. fields. rewrite (to_send_avail _ _ _ Hts).
  pose proof Hts as [Hobj Hown _ _ _ _ Hz Hbs]. unfold MAX_MSG_PAYLOAD_SIZE in Hz. rewrite u64_small by lia.
  destruct (Z.ltb_spec 0 (zlen (wire_bytes m))); [|lia]. unfold deref, of_mem. wpure. wlift. rewrite Hbs.
  assert (wp (Write (wire_bytes m)) w1 (fun r w' => r = WrSent (zlen (wire_bytes m)) /\ w' = wrote (wire_bytes m) [] w1)) as Hw.
  { unfold wp, wpc, Write, sock_write. unfold sched in Hs. rewrite Hsk, Hs. cbn [write_events]. split; [done|].
    unfold wrote, out. rewrite Hsk. unfold zlen. by rewrite Nat2Z.id, firstn_all. }
  eapply wp_mono; [exact Hw|]. intros r w' [-> ->]. clear Hw.
  destruct (to_send_move b _ _ (zlen (wire_bytes m)) Hts ltac:(lia)) as (Hobj'&Hown'&Hmv). rewrite Z.eqb_refl in Hmv.
  assert (forall A (x : A) f, 0 < zlen (wire_bytes m) -> match zlen (wire_bytes m) with 0 => x | _ => f end = f) as Hz0.
  { intros A x f Hp. by destruct (zlen (wire_bytes m)). }
  rewrite Hz0 by done. rewrite u32_small by lia. wpure. cbn [db_op db]. rewrite Hmv. cbn [Z.leb Z.compare]. wbind.
  eapply (Put_Send_Buffer_spec (db_op (MoveHeadBack (zlen (wire_bytes m))) b) (nw_next w)); try done.
  { cbn. rewrite Hlv. by left. }
  { apply (kp_free _ _ Hk). done. }
  intros w' Hf' Hs' Hn' Hi' Hx' Hl'. wpure. fields. cbn [Z.ltb Z.compare]. wbind. apply pop_message_spec; [done|]. fields.
  cbn [m_queue]. apply wp_ret.
  replace (set_sending None _) with o by (destruct o; cbn in *; by subst). apply HQ.
  cbn [wrote set_sock nw_notes nw_sock nw_live nw_next s_lastId] in *. unfold unread_of, out, sched in *.
  split; unfold unread_of, out, sched; try (rewrite Hs'; cbn [sk_in sk_out sk_wr]; by rewrite ?Hsk); [done|..].
  - rewrite Hi', (kp_id _ _ Hk). lia.
  - lia.
  - intros id Hid Hin. apply Hl'; [lia|]. rewrite Hlv. by right.
Qed.

(** ** New messages *)

Definition answer_to (id : Z) (s : ConnectResponseMessage.Status) : wire :=
  Wire id (be_bytes 2 (ConnectResponseMessage.status_code s)).
Definition request_to (id port : Z) : wire := Wire id (be_bytes 2 (u16 port)).

Lemma small_wire_ok id n : 0 <= id < 18446744073709551615 -> wire_ok (Wire id (be_bytes 2 n)).
Proof. intros. split; cbn [w_id w_payload]; [unfold id_ok; lia|]. rewrite zlen_be_bytes. done. Qed.

Lemma make_spec peer d (o : worker) w (Q : SndMessage -> worker * netw -> Prop) :
  0 <= s_lastId w < 18446744073709551614 ->
  Q (MkSnd (s_lastId w + 1) peer d) (o, set_lastId (s_lastId w + 1) w) -> wp (io (SndMessage.make peer d)) (o, w) Q.
Proof.
  intros Hi HQ. apply wp_io. unfold SndMessage.make. wbind. unfold wp at 1, wpc, SndMessage.GetNewId.
  rewrite u64_small by lia. destruct (Z.eqb_spec (s_lastId w + 1) 18446744073709551615); [lia|]. by apply wp_ret.
Qed.

(** The next message of the handshake, made and sent. *)
Lemma answer_spec {A} fuel s o w (k : bool -> NM A) Q :
  idle o -> free_ok w -> sched w = [] -> 0 <= s_lastId w < 18446744073709551614 ->
  (forall w', talked w (wire_bytes (answer_to (s_lastId w + 1) s)) (unread_of w) 1 w' -> wp (k true) (o, w') Q) ->
  wp (crm ← connect_response host s []; ok ← insert_and_send host (S (S (S fuel))) crm; k ok) (o, w) Q.
Proof.
  intros Hi Hf Hs Hid HQ. unfold connect_response. wbind. apply make_spec; [done|]. wbind.
  eapply (insert_and_send_spec fuel _ (answer_to (s_lastId w + 1) s)); [|done|done|done|].
  - split; [done| |apply small_wire_ok; lia]. pose proof (connect_response_derives host s []) as Hd. rewrite app_nil_r in Hd. by apply Hd.
  - intros w' [H1 H2 H3 H4 H5 H6 H7]. cbn in *. apply HQ. split; done || lia.
Qed.

(** The code of a received answer. *)
Lemma read_code n rm :
  filled 2 (rm_buffer rm) (be_bytes 2 n) -> 0 <= n < 65536 ->
  db_load (ByteOrderUtils.ReadUInt16 host) 0 (rm_buffer rm) = Some n.
Proof.
  intros [Hs _ _ [rest Hm] Hst] Hn. destruct (be_bytes 2 n) as [|b bs] eqn:E; [done|]. destruct Hst as (Hp&_).
  unfold db_load. rewrite Hp, Z.ltb_irrefl, Z.sub_diag, Hm, <- E. change (Z.to_nat (0 + 0)) with 0%nat. rewrite drop_0, read16_be.
  unfold u16. by rewrite Z.mod_small.
Qed.

Lemma rm_live_later w rm first bs evs i w' : rm_live w rm first -> talked w bs evs i w' -> rm_live w' rm first.
Proof.
  intros [Hrm Hn Hown (mpo&Hobj&Hl&Hne&Hle) Hf] [_ _ _ _ _ Hx Hlv]. split; [by apply Hlv|lia|done| |done].
  exists mpo. split; [done|]. split; [apply Hlv; [lia|done]|]. lia.
Qed.

Lemma release_spec rm w0 bs evs i (o : worker) w (Q : unit -> worker * netw -> Prop) :
  rm_live w rm (nw_next w0) -> talked w0 bs evs i w ->
  (forall w', talked w0 bs evs i w' -> Q tt (o, w')) -> wp (release_rm rm) (o, w) Q.
Proof.
  intros Hl [H1 H2 H3 H4 H5 H6 H7] HQ. unfold release_rm. apply wp_io. eapply rm_destroy_spec; [done|done|].
  intros w' Es Ei Ex Hf Hlv. apply HQ. unfold unread_of, out, sched in *.
  split; unfold unread_of, out, sched; rewrite ?Es; try done; [lia|lia|]. intros id Hid Hin. apply Hlv; auto.
Qed.

(** The state a worker ends the handshake in. *)
Record opened (o : worker) (ok : bool) (other : ConnectionState) (o' : worker) : Prop := {
  op_idle : idle o';
  op_completed : m_bConnHandShakeCompleted o' = true;
  op_state : m_connState o' = if ok then Connected else other;
  op_peer : m_logicPeer o' = m_logicPeer o
}.

Definition accepted (s : ConnectResponseMessage.Status) : bool := match s with ConnectResponseMessage.OK => true | _ => false end.

Lemma code_ok s :
  (ConnectResponseMessage.status_code s =? ConnectResponseMessage.status_code ConnectResponseMessage.OK) = accepted s.
Proof. by destruct s. Qed.
Lemma code_range s : 0 <= ConnectResponseMessage.status_code s < 65536.
Proof. by destruct s. Qed.

(** The client's last step: the server's last word. *)
Lemma last_ack_spec sf fuel id s evs o w :
  idle o -> m_connState o = WaitLastACK -> free_ok w -> sched w = [] -> 0 <= id < 18446744073709551615 ->
  unread_of w = arrives (answer_to id s) evs ->
  wp (recv_loop host sf (S (S fuel)) true None) (o, w) (fun r s' =>
    r = true /\ talked w [] evs 0 s'.2 /\ opened o (accepted s && m_onLogicConnect o) WaitLastACK s'.1).
Proof.
  intros Hi Hcs Hf Hs Hid Hin. eapply (recv_message sf fuel None (answer_to id s) evs); try done;
    [by apply small_wire_ok|by rewrite Hcs|].
  intros hb rm w1 Hhb Hfl Hl Ht. unfold handshake. wpure. fields. rewrite Hcs.
  rewrite (read_code _ rm Hfl (code_range s)). unfold of_mem. wpure. wbind. eapply release_spec; [done|done|]. intros w2 Ht2.
  rewrite code_ok. destruct Hi as [_ Hst Hq Hsb].
  destruct (accepted s), (m_onLogicConnect o) eqn:Ec; unfold COMPLETE_AND_FIRE; wpure; fields; rewrite ?Ec; wpure; fields;
    (split; [done|]); (split; [done|]); by split; [split|..].
Qed.

(** The server's last step: the client's acknowledgement. *)
Lemma connecting_re_spec fuel sf id s evs o w :
  idle o -> m_connState o = ConnectingRe -> free_ok w -> sched w = [] -> 0 <= id < 18446744073709551615 ->
  0 <= s_lastId w < 18446744073709551614 ->
  unread_of w = arrives (answer_to id s) evs ->
  wp (recv_loop host (S (S (S sf))) (S (S fuel)) true None) (o, w) (fun r s' =>
    r = true /\
    talked w (wire_bytes (answer_to (s_lastId w + 1) (if m_onLogicConnect o then ConnectResponseMessage.OK else ConnectResponseMessage.ERROR)))
      evs 1 s'.2 /\
    opened o (m_onLogicConnect o) ConnectingRe s'.1).
Proof.
  intros Hi Hcs Hf Hs Hid Hlast Hin. eapply (recv_message _ fuel None (answer_to id s) evs); try done;
    [by apply small_wire_ok|by rewrite Hcs|].
  intros hb rm w1 Hhb Hfl Hl Ht. unfold handshake. wpure. fields. rewrite Hcs. wbind. eapply release_spec; [done|done|].
  intros w2 Ht2. wpure. fields. pose proof Ht2 as [Hi2 _ Hs2 Hf2 Hid2 _ _]. destruct Hi as [Hh Hst Hq Hsb].
  eapply answer_spec; [by split|done|done|lia|]. intros w3 Ht3. rewrite Hi2 in Ht3.
  pose proof (talked_trans _ _ _ _ _ _ _ _ _ Ht2 Ht3) as Ht4. rewrite Hid2, Z.add_0_r in Ht4.
  destruct (m_onLogicConnect o) eqn:Ec; unfold COMPLETE_AND_FIRE; wpure; fields;
    (split; [done|]); (split; [done|]); by split; [split|..].
Qed.

(** ** Both sides *)

(** The first answer a client gets: it acknowledges and waits for the last one. *)
Lemma connect_se_spec sf fuel i1 i2 s evs o w :
  idle o -> m_connState o = ConnectSe -> free_ok w -> sched w = [] -> 0 <= s_lastId w < 18446744073709551614 ->
  0 <= i1 < 18446744073709551615 -> 0 <= i2 < 18446744073709551615 ->
  unread_of w = arrives (answer_to i1 ConnectResponseMessage.OK) (arrives (answer_to i2 s) evs) ->
  wp (Recv host (S (S (S sf))) (S (S (S (S fuel)))) true) (o, w) (fun r s' =>
    r = true /\ talked w (wire_bytes (answer_to (s_lastId w + 1) ConnectResponseMessage.OK)) evs 1 s'.2 /\
    opened o (accepted s && m_onLogicConnect o) WaitLastACK s'.1).
Proof.
  intros Hi Hcs Hf Hs Hlast H1 H2 Hin. unfold Recv.
  eapply (recv_message _ (S (S fuel)) None (answer_to i1 ConnectResponseMessage.OK)); try done;
    [by apply small_wire_ok|by rewrite Hcs|].
  intros hb rm w1 Hhb Hfl Hl Ht. unfold handshake. wpure. fields. rewrite Hcs.
  rewrite (read_code _ rm Hfl (code_range _)). unfold of_mem. wpure. cbn [ConnectResponseMessage.status_code Z.eqb negb].
  pose proof Ht as [Hi1 _ Hs1 Hf1 Hid1 _ _]. pose proof Hi as [_ Hst Hq Hsb].
  eapply answer_spec; [by split|done|done|lia|]. intros w2 Ht2. rewrite Hi1 in Ht2. wpure.
  pose proof (rm_live_later _ _ _ _ _ _ _ Hl Ht2) as Hl2. pose proof Ht2 as [Hi2 _ Hs2 Hf2 Hid2 _ _].
  wbind. eapply wp_mono; [eapply last_ack_spec; [by split|done|done|done|exact H2|done]|].
  intros r [o3 w3] (->&Ht3&Hop). wpure. cbn [fst snd] in *. pose proof (rm_live_later _ _ _ _ _ _ _ Hl2 Ht3) as Hl3.
  pose proof (talked_trans _ _ _ _ _ _ _ _ _ Ht (talked_trans _ _ _ _ _ _ _ _ _ Ht2 Ht3)) as Ht4.
  cbn [app] in Ht4. rewrite app_nil_r, Hid1, !Z.add_0_r, Z.add_0_l in Ht4.
  eapply release_spec; [done|done|]. intros w4 Ht5. cbn [fst snd]. split; [done|]. split; [done|].
  destruct Hop as [[? ? ? ?] ? ? ?]. by split; [split|..].
Qed.

Lemma connecting_spec sf fuel i1 i2 s port evs o w :
  idle o -> m_connState o = Connecting -> free_ok w -> sched w = [] -> 0 <= s_lastId w < 18446744073709551613 ->
  0 <= i1 < 18446744073709551615 -> 0 <= i2 < 18446744073709551615 -> 
  unread_of w = arrives (request_to i1 port) (arrives (answer_to i2 s) evs) ->
  wp (Recv host (S (S (S sf))) (S (S (S (S fuel)))) true) (o, w) (fun r s' =>
    r = true /\
    talked w (wire_bytes (answer_to (s_lastId w + 1) ConnectResponseMessage.OK) ++
      wire_bytes (answer_to (s_lastId w + 2)
        (if m_onLogicConnect o then ConnectResponseMessage.OK else ConnectResponseMessage.ERROR))) evs 2 s'.2 /\
    opened (set_logicPeer (MkPeer (np_addr (m_realPeer o)) (u16 port) Tcp) o) (m_onLogicConnect o) ConnectingRe s'.1).
Proof.
  intros Hi Hcs Hf Hs Hlast H1 H2 Hin. unfold Recv.
  eapply (recv_message _ (S (S fuel)) None (request_to i1 port)); try done; [by apply small_wire_ok|by rewrite Hcs|].
  intros hb rm w1 Hhb Hfl Hl Ht. unfold handshake. wpure. fields. rewrite Hcs.
  assert (0 <= u16 port < 65536) as Hport by (unfold u16; apply Z.mod_pos_bound; lia).
  rewrite (filled_avail 2 _ _ ltac:(done) Hfl : AvailableLength (db (rm_buffer rm)) = 2). cbn [Z.eqb Pos.eqb negb].
  rewrite (read_code _ rm Hfl Hport). unfold of_mem. wpure. fields.
  pose proof Ht as [Hi1 _ Hs1 Hf1 Hid1 _ _]. pose proof Hi as [_ Hst Hq Hsb].
  eapply answer_spec; [by split|done|done|lia|]. intros w2 Ht2. rewrite Hi1 in Ht2. wpure.
  pose proof (rm_live_later _ _ _ _ _ _ _ Hl Ht2) as Hl2. pose proof Ht2 as [Hi2 _ Hs2 Hf2 Hid2 _ _].
  wbind.
  eapply wp_mono; [eapply (connecting_re_spec fuel sf i2 s); [by split|done|done|done|exact H2|lia|done]|].
  intros r [o3 w3] (->&Ht3&Hop). wpure. cbn [fst snd] in *. pose proof (rm_live_later _ _ _ _ _ _ _ Hl2 Ht3) as Hl3.
  pose proof (talked_trans _ _ _ _ _ _ _ _ _ Ht (talked_trans _ _ _ _ _ _ _ _ _ Ht2 Ht3)) as Ht4.
  cbn [app] in Ht4. rewrite Hid2, Hid1, Z.add_0_r, Z.add_0_l, <- Z.add_assoc in Ht4. change (1 + 1) with 2 in Ht4.
  eapply release_spec; [done|done|]. intros w4 Ht5. cbn [fst snd]. split; [done|]. split; [done|].
  destruct Hop as [[? ? ? ?] ? ? ?]. by split; [split|..].
Qed.
End handshake.
