(* ===== verification/NetTheorems.v ===== *)
(** * What a connection guarantees

    Whatever the peer sends, [Recv] splits it into frames and gives the user the
    messages; whatever the socket accepts, [Send] puts the frames of the queued
    messages on it; together: the messages of one side arrive at the other, all of
    them, unchanged and in order. *)

From S2P Require Import Prelude Codec Buffer Posix Records BlockingQueue Net NetWorker NetRecv NetSend NetHandshake.
From S2P Require Import KvEntries.

Section theorems.
Context `{MemAlloc}.

(** The event loop calls [Send] whenever the socket is writable. *)
Fixpoint send_many (host : byte_order) (fuel k : nat) : NM bool :=
  match k with
  | O => mret true
  | S k => rc ← Send host fuel; if rc : bool then send_many host fuel k else mret false
  end.

(** A schedule without broken connections: partial transfers, nothing to transfer
    now, and interrupted calls. *)
Definition fair_read (e : revent) : Prop :=
  match e with RdBytes _ _ => True | RdErr e => e = EAGAIN \/ e = EINTR | RdEof => False end.
Definition fair_write (e : wevent) : Prop :=
  match e with WrSome _ => True | WrErr e => e = EAGAIN \/ e = EINTR | WrZero => False end.

Lemma send_many_spec host fuel k rest ms o w :
  m_msgCallback o = true -> sending o w rest ms -> (length ms + length (rest ++ wires ms) < fuel)%nat ->
  (forall e, e ∈ sched w -> fair_write e) -> (length (sched w) < k)%nat \/ rest = [] /\ ms = [] ->
  wp (send_many host fuel k) (o, w) (fun rc s' =>
    sent rest ms o w rc s' /\ (rc = true /\ out s'.2 = out w ++ rest ++ wires ms)).
Proof.
  revert rest ms o w. induction k as [|k IH]; intros rest ms o w Hcb Hsd Hfuel Hfair Hk; cbn [send_many].
  - destruct Hk as [?|[-> ->]]; [lia|]. apply wp_ret. split; [|by rewrite app_nil_r]. split; [apply apart_refl|]. split; [done|].
    exists []. rewrite app_nil_r. split; [done|]. exists [], []. split; [done|]. split; [done|]. split; [by exists []|]. split; [done|]. by left.
  - wbind. eapply wp_mono; [by apply send_loop_spec|]. intros [|] [o1 w1] [Hsent _].
    + pose proof Hsent as (Hap&[Hs Hlen]&c&Ho&rest1&ms1&Hsd1&E&[dn Hdn]&Hal&Hend). cbn [fst snd] in *.
      eapply (sent_then _ (fun rc s' => rc = true /\ out s'.2 = out w ++ rest ++ wires ms) rest ms o w o1 w1 c rest1 ms1);
        [done|done|done|done|done|done|by exists dn|].
      eapply wp_mono; [apply (IH rest1 ms1)|].
      * destruct Hap as [_ _ _ _ (bq&sb&->)]. done.
      * done.
      * rewrite E, Hdn, !length_app in Hfuel. rewrite length_app. lia.
      * auto.
      * destruct Hend as [?|?]; [by right|]. destruct Hk as [?|[-> ->]]; [left; lia|]. right.
        symmetry in E, Hdn. apply app_nil in E as [_ [-> _]%app_nil], Hdn as [_ ->]. done.
      * intros rc s' (?&->&E'). split; [done|]. split; [done|]. by rewrite E', Ho, E, <- app_assoc.
    + exfalso. destruct Hsent as (_&_&c&_&_&code&_&[Hz|(e&He&?&?)]).
      * by apply Hfair in Hz.
      * apply Hfair in He. destruct He; congruence.
Qed.


Lemma recv_prefix host sf fuel k ms y o w :
  sk_nonblock (nw_sock w) = true -> free_ok w -> receiving o [] -> (length (bytes_of (unread_of w)) < fuel)%nat ->
  (unread (unread_of w) < k)%nat -> (forall e, e ∈ unread_of w -> fair_read e) -> Forall wire_ok ms ->
  bytes_of (unread_of w) ++ y = wires ms ->
  exists o' w' ms1 ms2 p', recv_many host sf fuel k (o, w) = (Ok true, (o', w')) /\ receiving o' p' /\
    ms = ms1 ++ ms2 /\ p' ++ y = wires ms2 /\ heard w' = heard w ++ map (pair (m_logicPeer o)) ms1 /\ alarms w' = alarms w.
Proof.
  intros Hnb Hfree Hr Hfuel Hk Hfair Hms E.
  destruct (wp_run _ _ _ (recv_many_spec host sf fuel k [] o w Hnb Hfree Hr Hfuel ltac:(by left))) as (rc&[o' w']&Erun&Hpr&Hend).
  destruct Hpr as (_&_&c&ms1&p'&H1&H2&H3&H4&_&H5). cbn [fst snd app] in *. rewrite H1, H2, <- !app_assoc in E. destruct rc.
  - specialize (Hend eq_refl). rewrite Hend in E. cbn [bytes_of app] in E. apply wires_prefix in E as (ms2&->&E); [|done..].
    exists o', w', ms1, ms2, p'. tauto.
  - exfalso. destruct H5 as (code&_&Hwhy).
    assert (no_start p') as Hno.
    { destruct code; cbn [why] in Hwhy; [done|..].
      - destruct Hwhy as [He|(id&Hid&->)]; [by apply Hfair in He|by apply empty_no_start].
      - destruct Hwhy as [(e&He&?&?)|Hb]; [apply Hfair in He; destruct He; congruence|by apply bad_no_start]. }
    by apply (wires_no_start ms1 ms p' (bytes_of (unread_of w') ++ y)) in E.
Qed.

(** C11 net_delivery: the messages one side queues arrive at the other side. A worker with
    the messages in its queue sends until its socket has taken everything, in whatever
    pieces; any beginning of these bytes, cut in whatever way, reaches the worker of
    another host: the user there is given a beginning of the messages, each with its
    id and payload, in the order they were queued, and all of them when all bytes have
    arrived; nobody is told of a broken connection. *)
Theorem net_delivery (host1 host2 : byte_order) (fuel1 k1 sf fuel2 k2 : nat) (ms : list wire)
    (o1 : worker) (w1 : netw) (o2 : worker) (w2 : netw) (y : list byte)
    (Hcb : m_msgCallback o1 = true) (Hsend : sending o1 w1 [] ms) (Hout : out w1 = [])
    (Hfuel1 : (length ms + length (wires ms) < fuel1)%nat) (Hk1 : (length (sched w1) < k1)%nat)
    (Hfair1 : forall e, e ∈ sched w1 -> fair_write e)
    (Hnb : sk_nonblock (nw_sock w2) = true) (Hfree : free_ok w2) (Hrecv : receiving o2 [])
    (Hfuel2 : (length (bytes_of (unread_of w2)) < fuel2)%nat) (Hk2 : (unread (unread_of w2) < k2)%nat)
    (Hfair2 : forall e, e ∈ unread_of w2 -> fair_read e)
    (Hwire : forall s1, send_many host1 fuel1 k1 (o1, w1) = (Ok true, s1) -> bytes_of (unread_of w2) ++ y = out s1.2) :
  exists s1 s2 ms1 ms2,
    send_many host1 fuel1 k1 (o1, w1) = (Ok true, s1) /\ out s1.2 = wires ms /\ alarms s1.2 = alarms w1 /\
    recv_many host2 sf fuel2 k2 (o2, w2) = (Ok true, s2) /\ alarms s2.2 = alarms w2 /\
    heard s2.2 = heard w2 ++ map (pair (m_logicPeer o2)) ms1 /\ ms = ms1 ++ ms2 /\ (y = [] -> ms2 = []).
Proof.
  destruct (wp_run _ _ _ (send_many_spec host1 fuel1 k1 [] ms o1 w1 Hcb Hsend Hfuel1 Hfair1 ltac:(by left)))
    as (rc&s1&E1&Hsent&->&Ho). rewrite Hout in Ho. cbn [app] in Ho.
  assert (Forall wire_ok ms) as Hms.
  { destruct Hsend as [_ _ Hq _]. clear -Hq. induction Hq as [|?? ?? []]; by constructor. }
  specialize (Hwire s1 E1). rewrite Ho in Hwire.
  destruct (recv_prefix host2 sf fuel2 k2 ms y o2 w2 Hnb Hfree Hrecv Hfuel2 Hk2 Hfair2 Hms Hwire)
    as (o'&w'&ms1&ms2&p'&E2&Hr'&Ems&Ep&Hh&Ha).
  destruct Hsent as (_&_&c&_&rest'&ms'&_&_&_&Hal&_).
  exists s1, (o', w'), ms1, ms2. repeat (split; [done|]). intros ->. rewrite app_nil_r in Ep.
  apply receiving_partial in Hr'. subst. destruct ms2 as [|m ms2]; [done|]. exfalso.
  apply Forall_app in Hms as [_ Hm]. inversion Hm; subst. rewrite wires_cons in Hr'. by apply wire_not_partial in Hr'.
Qed.

(** ** The handshake *)

Lemma client_spec host sf fuel i1 i2 s evs o w :
  idle o -> m_ct o = Client -> free_ok w -> sched w = [] -> 0 <= s_lastId w < 18446744073709551613 ->
  0 <= i1 < 18446744073709551615 -> 0 <= i2 < 18446744073709551615 ->
  unread_of w = arrives (answer_to i1 ConnectResponseMessage.OK) (arrives (answer_to i2 s) evs) ->
  wp (Initialize host (S (S (S sf))) (S (S (S (S fuel))))) (o, w) (fun r s' =>
    r = accepted s && m_onLogicConnect o /\
    out s'.2 = out w ++ wires [request_to (s_lastId w + 1) (m_iLogicPort o); answer_to (s_lastId w + 2) ConnectResponseMessage.OK] /\
    idle s'.1 /\ (r = true -> m_connState s'.1 = Connected)).
Proof.
  intros Hi Hct Hf Hs Hlast H1 H2 Hin. unfold Initialize. wpure. fields. rewrite Hct. wpure. fields. wbind. apply make_spec; [lia|].
  wbind. pose proof Hi as [Hh Hst Hq Hsb].
  eapply (insert_and_send_spec host sf _ (request_to (s_lastId w + 1) (m_iLogicPort o))); [|by split|done|done|].
  { split; [done|apply connect_request_derives|apply small_wire_ok; lia]. }
  intros w1 Ht1. wpure. cbn [negb]. pose proof Ht1 as [Hi1 Ho1 Hs1 Hf1 Hid1 _ _]. cbn in Hid1.
  wbind. eapply wp_mono; [eapply (connect_se_spec host sf fuel i1 i2 s evs); [by split|done|done|done|lia|done|done|by rewrite Hi1]|].
  intros r [o2 w2] (->&Ht2&Hop). cbn [fst snd negb] in *. wpure. destruct Hop as [Hid Hc Hcs _]. rewrite Hc. cbn [negb].
  apply wp_getO. rewrite Hcs. pose proof Ht2 as [_ Ho2 _ _ _ _ _]. fields.
  assert (out w2 = out w ++ wires [request_to (s_lastId w + 1) (m_iLogicPort o); answer_to (s_lastId w + 2) ConnectResponseMessage.OK]) as Ho.
  { rewrite Ho2, Ho1, Hid1. unfold wires. cbn [map concat]. rewrite app_nil_r, <- app_assoc.
    replace (s_lastId w + 1 + 0 + 1) with (s_lastId w + 2) by lia. done. }
  unfold set_connState, upd in *. cbn [m_onLogicConnect] in *.
  destruct (accepted s && m_onLogicConnect o); (split; [done|]); (split; [exact Ho|]); (split; [done|done]).
Qed.

Lemma server_spec host sf fuel i1 i2 s port evs o w :
  idle o -> m_ct o = Server -> free_ok w -> sched w = [] -> 0 <= s_lastId w < 18446744073709551613 ->
  0 <= i1 < 18446744073709551615 -> 0 <= i2 < 18446744073709551615 ->
  unread_of w = arrives (request_to i1 port) (arrives (answer_to i2 s) evs) ->
  wp (Initialize host (S (S (S sf))) (S (S (S (S fuel))))) (o, w) (fun r s' =>
    r = m_onLogicConnect o /\
    out s'.2 = out w ++ wires [answer_to (s_lastId w + 1) ConnectResponseMessage.OK;
      answer_to (s_lastId w + 2) (if m_onLogicConnect o then ConnectResponseMessage.OK else ConnectResponseMessage.ERROR)] /\
    idle s'.1 /\ (r = true -> m_connState s'.1 = Connected) /\
    m_logicPeer s'.1 = MkPeer (np_addr (m_realPeer o)) (u16 port) Tcp).
Proof.
  intros Hi Hct Hf Hs Hlast H1 H2 Hin. unfold Initialize. wpure. fields. rewrite Hct. wpure. cbn [negb].
  pose proof Hi as [Hh Hst Hq Hsb]. wbind.
  eapply wp_mono; [eapply (connecting_spec host sf fuel i1 i2 s port evs); [by split|done..]|].
  intros r [o2 w2] (->&Ht2&Hop). cbn [fst snd negb] in *. wpure. destruct Hop as [Hid Hc Hcs Hpeer]. rewrite Hc. cbn [negb].
  apply wp_getO. rewrite Hcs. pose proof Ht2 as [_ Ho2 _ _ _ _ _]. fields.
  unfold set_logicPeer, set_connState, upd in *. cbn [m_onLogicConnect m_logicPeer m_realPeer] in *.
  destruct (m_onLogicConnect o); (split; [done|]); (split; [etrans; [exact Ho2|]; unfold wires; cbn [map concat]; by rewrite app_nil_r|]);
    (split; [done|]); (split; [done|]); done.
Qed.

End theorems.

(** ** Concrete connections *)

Section demo.
#[local] Existing Instance demo_pool.

Definition demo_peer : net_peer_info := MkPeer "10.0.0.7" 4000 Tcp.
Definition demo_net (nonblock : bool) (evs : list revent) (wevs : list wevent) : netw :=
  MkNet (MkSock nonblock evs wevs []) [] 0 [] 0 [].

(** A worker as the constructor makes it, and the world after that. *)
Definition demo_worker (ct : CreatorType) (accept : bool) (w : netw) : worker * netw :=
  match worker_new ct 77 demo_peer demo_peer accept true w with
  | (Ok o, w') => (o, w')
  | (Stop _, w') => (MkWorker ct 77 demo_peer accept true demo_peer (DBuf Buffer_default []) (MkQ 0 [])
                       StartToRcvHeader (MkHeader 0 0 0) None None Connecting false, w')
  end.
(** The same with an open connection and messages in its queue. *)
Definition demo_open (q : list SndMessage) (w : netw) : worker * netw :=
  let '(o, w) := demo_worker Client true w in (set_bq (MkQ 0 q) (set_connState Connected o), w).

Lemma demo_over ct accept w : over 16 (m_pHeaderBuffer (demo_worker ct accept w).1).
Proof. by vm_compute. Qed.

Definition demo_msg (id : Z) (what : list byte) : SndMessage :=
  SndMessage.make_id demo_peer id (ConnectResponseMessage.derive LITTLE_ENDIAN ConnectResponseMessage.OK what).
Definition demo_wire (id : Z) (what : list byte) : wire := Wire id (be_bytes 2 0 ++ what).

Lemma demo_sends id what : id_ok id -> zlen what <= 1000 -> sends (demo_msg id what) (demo_wire id what).
Proof.
  intros Hid Hz. pose proof (zlen_nonneg what). split; [done| |].
  - apply (connect_response_derives LITTLE_ENDIAN ConnectResponseMessage.OK what). lia.
  - split; [done|]. cbn [demo_wire w_payload]. zlens. unfold MAX_MSG_PAYLOAD_SIZE. lia.
Qed.

Definition demo_two : list wire := [demo_wire 5 [x41; x42]; demo_wire 6 []].
Definition demo_pieces : list revent :=
  chunk (take 3 (wires demo_two)) (RdErr EINTR :: chunk (take 20 (drop 3 (wires demo_two)))
    (RdErr EAGAIN :: chunk (drop 23 (wires demo_two)) [])).


Lemma net_delivery_witness :
  exists s1 s2 ms1 ms2,
    send_many LITTLE_ENDIAN 100 4 (demo_open [demo_msg 5 [x41; x42]; demo_msg 6 []] (demo_net true [] [WrSome 7; WrErr EAGAIN; WrErr EINTR])) =
      (Ok true, s1) /\ out s1.2 = wires demo_two /\ alarms s1.2 = [] /\
    recv_many BIG_ENDIAN 0 100 100 (demo_open [] (demo_net true demo_pieces [])) = (Ok true, s2) /\ alarms s2.2 = [] /\
    heard s2.2 = [] ++ map (pair demo_peer) ms1 /\ demo_two = ms1 ++ ms2 /\ ([] = @nil byte -> ms2 = []).
Proof.
  apply (net_delivery LITTLE_ENDIAN BIG_ENDIAN 100 4 0 100 100 demo_two
    (demo_open [demo_msg 5 [x41; x42]; demo_msg 6 []] (demo_net true [] [WrSome 7; WrErr EAGAIN; WrErr EINTR])).1
    (demo_open [demo_msg 5 [x41; x42]; demo_msg 6 []] (demo_net true [] [WrSome 7; WrErr EAGAIN; WrErr EINTR])).2
    (demo_open [] (demo_net true demo_pieces [])).1 (demo_open [] (demo_net true demo_pieces [])).2 []).
  - done.
  - split; [constructor|done| |done]. repeat constructor; apply demo_sends; done.
  - done.
  - vm_compute. lia.
  - vm_compute. lia.
  - intros e. vm_compute (sched _). rewrite !elem_of_cons, elem_of_nil. intros [->|[->|[->|[]]]]; cbn; auto.
  - done.
  - constructor.
  - split; [done|]. split; [done|]. split; [apply demo_over|done].
  - vm_compute. lia.
  - vm_compute. lia.
  - intros e. vm_compute (unread_of _). rewrite !elem_of_cons, elem_of_nil. intros [->|[->|[->|[->|[->|[]]]]]]; cbn; auto.
  - intros s1 E. vm_compute in E. injection E as <-. vm_compute. reflexivity.
Defined.

(** A client and a server that refuses. *)
Definition demo_client : worker * netw :=
  demo_worker Client true (demo_net false (arrives (answer_to 1 ConnectResponseMessage.OK) (arrives (answer_to 2 ConnectResponseMessage.ERROR) [])) []).
Definition demo_server : worker * netw :=
  demo_worker Server false (demo_net false (arrives (request_to 1 77) (arrives (answer_to 2 ConnectResponseMessage.OK) [])) []).


(** ** What goes wrong *)

(** The first answer of the server arrives in two pieces: [Recv] returns after the first,
    and [Initialize] waits for a handshake nobody goes on with. *)
Theorem handshake_short_read_hangs :
  let first := wire_bytes (answer_to 1 ConnectResponseMessage.OK) in
  fst (Initialize LITTLE_ENDIAN 9 9 (demo_worker Client true (demo_net false
    (chunk (take 5 first) (chunk (drop 5 first) (arrives (answer_to 2 ConnectResponseMessage.OK) []))) []))) = Stop Diverged.
Proof. vm_compute. reflexivity. Qed.

(** The payload is not there yet when the header is: the buffer taken for it is
    forgotten when [Recv] is called again, and not even the destructor gives it back. *)
Theorem payload_buffer_leaks :
  let m := wire_bytes (demo_wire 5 [x41]) in
  length (nw_live (snd (snd ((Recv LITTLE_ENDIAN 9 9 false;; Recv LITTLE_ENDIAN 9 9 false;; worker_destroy)
    (demo_open [] (demo_net true (chunk (take 16 m) [RdErr EAGAIN; RdErr EAGAIN]) [])))))) = 1%nat.
Proof. vm_compute. reflexivity. Qed.

(** [MessageNotifyMessage] does not keep the function that releases its message: the
    objects of a message stay in use after the user is done with it. *)
Theorem received_message_leaks :
  let r := (Recv LITTLE_ENDIAN 9 9 false;; worker_destroy) (demo_open [] (demo_net true (arrives (demo_wire 5 [x41]) []) [])) in
  length (heard (snd (snd r))) = 1%nat /\ length (nw_live (snd (snd r))) = 2%nat.
Proof. vm_compute. done. Qed.

(** A frame with an empty payload, which the header check accepts, is taken for the
    end of the connection. *)
Theorem empty_payload_closes :
  let r := Recv LITTLE_ENDIAN 9 9 false (demo_open [] (demo_net true (chunk (wire_header 5 0) (arrives (demo_wire 6 []) [])) [])) in
  fst r = Ok false /\ alarms (snd (snd r)) = [ClosedByPeer].
Proof. vm_compute. done. Qed.
End demo.
