(* ===== verification/Rpc.v ===== *)
(** * Remote procedure calls: messages and server (src/rpc, src/server/rpc)

    A request is a handler id and a protobuf message, a response a code, the handler id
    and a message.  [RpcServerSync] looks the handler up, parses the request, runs the
    handler and sends the response back under the id of the request; [KVRpcServerSync]
    registers the four handlers of the store.

    The server works with the state of its handlers, [K], and with the socket service,
    [N].  Its thread pool is a queue of notifications: a worker thread takes the first
    one and runs [proc_msg] ([work]).  What the handlers do to the store is one step,
    as in [MiniKV]. *)

From S2P Require Import Prelude Codec Buffer Posix Entries KvEntries KvMap Wal Checkpoint MiniKV Net.

(** ** Messages (proto/kvrpc.proto)

    [rc] is [None] when it is [OK].  The generated classes are a parameter: the bytes
    [SerializeToArray] writes, and what [ParseFromArray] makes of bytes for a message
    type.  Protocol buffers promise that a message within the limits of its fields
    comes back: an unsigned field fits its width, a string is valid text (here: ASCII),
    and the whole is below 2 GiB. *)

Inductive pb_msg :=
  | PutRequest (entry : option Entry)
  | PutResponse (rc : option pcode) (msg : list byte)
  | GetRequest (key : list byte)
  | GetResponse (rc : option pcode) (entry : option Entry) (msg : list byte)
  | DeleteRequest (key : list byte)
  | DeleteResponse (rc : option pcode) (msg : list byte)
  | ScanRequest_ (req : ScanRequest)
  | ScanResponse (rc : option pcode) (entries : list Entry) (msg : list byte).

Inductive pb_type :=
  | PutRequestT | PutResponseT | GetRequestT | GetResponseT
  | DeleteRequestT | DeleteResponseT | ScanRequestT | ScanResponseT.

Definition type_of (m : pb_msg) : pb_type :=
  match m with
  | PutRequest _ => PutRequestT
  | PutResponse _ _ => PutResponseT
  | GetRequest _ => GetRequestT
  | GetResponse _ _ _ => GetResponseT
  | DeleteRequest _ => DeleteRequestT
  | DeleteResponse _ _ => DeleteResponseT
  | ScanRequest_ _ => ScanRequestT
  | ScanResponse _ _ _ => ScanResponseT
  end.

Definition ascii_text (s : list byte) : Prop := Forall (fun b => b2z b < 128) s.

Definition pb_fits (m : pb_msg) : Prop :=
  match m with
  | PutResponse _ s | GetResponse _ _ s | DeleteResponse _ s | ScanResponse _ _ s => ascii_text s
  | ScanRequest_ r => 0 <= limit r < 4294967296
  | _ => True
  end.

Class PbMessage := {
  SerializeToArray : pb_msg -> list byte;
  ParseFromArray : pb_type -> list byte -> option pb_msg;
  pb_message_roundtrip : forall m, pb_fits m -> zlen (SerializeToArray m) < 2147483648 ->
    ParseFromArray (type_of m) (SerializeToArray m) = Some m
}.

(** [ByteSize()] *)
Definition ByteSize `{PbMessage} (m : pb_msg) : Z := zlen (SerializeToArray m).

Module ProtoBufUtils.
Section defs.
Context `{PbMessage}.
Definition Deserialize (from : dbuf) (t : pb_type) : option pb_msg := ParseFromArray t (db_content from).
Definition Serialize (from : pb_msg) (to : dbuf) : option dbuf :=
  db_store (ByteSize from) (mem_write 0 (SerializeToArray from)) to.
End defs.
End ProtoBufUtils.

(** ** RpcRequest, RpcResponse *)

Inductive RpcCode := OK | ErrorNoHandler | ErrorMsg | ErrorInternal | ErrorNoRegisteredRpc | ErrorUnknown.
Definition rpc_code (c : RpcCode) : Z :=
  match c with OK => 0 | ErrorNoHandler => 1 | ErrorMsg => 2 | ErrorInternal => 3 | ErrorNoRegisteredRpc => 4 | ErrorUnknown => 5 end.

Section messages.
Context `{PbMessage} (host : byte_order).

Definition serialize_opt (m : option pb_msg) (b : dbuf) : option dbuf :=
  match m with Some m => ProtoBufUtils.Serialize m b | None => Some b end.

Definition RpcRequest (m_iHandlerId : Z) (m_sspMsg : option pb_msg) : IDerive :=
  MkDerive (match m_sspMsg with Some m => u32 (2 + ByteSize m) | None => 2 end) (fun b =>
    b ← db_store 2 (fun m => ByteOrderUtils.WriteUInt16 host m (u16 m_iHandlerId)) b;
    serialize_opt m_sspMsg (db_op (MoveHeadBack 2) b)).

Definition RpcResponseBase (m_code : RpcCode) (m_ht : Z) : IDerive :=
  MkDerive 4 (fun b =>
    b ← db_store 2 (fun m => ByteOrderUtils.WriteUInt16 host m (rpc_code m_code)) b;
    db_store 2 (fun m => ByteOrderUtils.WriteUInt16 host m (u16 m_ht)) (db_op (MoveHeadBack 2) b)).

Definition RpcResponse (m_pMsg : option pb_msg) (m_ht : Z) : IDerive :=
  MkDerive (match m_pMsg with Some m => u32 (4 + ByteSize m) | None => 4 end) (fun b =>
    b ← db_store 2 (fun m => ByteOrderUtils.WriteUInt16 host m (rpc_code OK)) b;
    b ← db_store 2 (fun m => ByteOrderUtils.WriteUInt16 host m (u16 m_ht)) (db_op (MoveHeadBack 2) b);
    serialize_opt m_pMsg (db_op (MoveHeadBack 2) b)).
End messages.

(** ** The socket service

    [SndMessage::GetNewId] is a static member of the process the service lives in. *)
Class ISocketService (N : Type) := {
  ss_GetNewId : M N Z;
  ss_Start : M N bool;
  ss_SendMessage : SndMessage -> M N bool
}.

(** ** class RpcServerSync *)

(** [IRpcHandler]: [CreateMessage] gives an empty message of a type, or null, [Handle]
    the response, or null. *)
Record IRpcHandler (K : Type) := MkHandler {
  Handle : pb_msg -> M K (option pb_msg);
  CreateMessage : option pb_type
}.
Arguments MkHandler {K}.
Arguments Handle {K}.
Arguments CreateMessage {K}.

(** A program on the handlers' state. *)
Definition on_left {K N A} (c : M K A) : M (K * N) A := fun s =>
  match c s.1 with (r, k) => (r, (k, s.2)) end.

Module RpcServerSync.

(** The thread pool is the queue of its tasks; null when the server is stopped. *)
Record t (K : Type) := Make {
  m_bStopped : bool;
  m_iWorkThreadsCnt : Z;
  m_pWorkThreadPool : option (list NotifyMessage);
  m_hmHandlers : gmap Z (option (IRpcHandler K));
  m_bRegistered : bool
}.
Arguments Make {K}.
Arguments m_bStopped {K}.
Arguments m_iWorkThreadsCnt {K}.
Arguments m_pWorkThreadPool {K}.
Arguments m_hmHandlers {K}.
Arguments m_bRegistered {K}.

Section defs.
Context `{PbMessage} (host : byte_order) {K N : Type} `{ISocketService N}.

Definition set_running (stopped : bool) (pool : option (list NotifyMessage)) (o : t K) : t K :=
  Make stopped (m_iWorkThreadsCnt o) pool (m_hmHandlers o) (m_bRegistered o).
Definition set_handlers h (o : t K) : t K :=
  Make (m_bStopped o) (m_iWorkThreadsCnt o) (m_pWorkThreadPool o) h (m_bRegistered o).
Definition set_registered (o : t K) : t K :=
  Make (m_bStopped o) (m_iWorkThreadsCnt o) (m_pWorkThreadPool o) (m_hmHandlers o) true.

Abbreviation SM := (M (t K * (K * N))).

Definition make (workThreadsCnt LOGIC_CPUS_CNT : Z) : t K :=
  Make true (if 0 =? workThreadsCnt then u16 (LOGIC_CPUS_CNT * 2) else 0) None ∅ false.

Definition Start : SM bool :=
  stopped ← getO m_bStopped;
  registered ← getO m_bRegistered;
  if negb stopped || negb registered then mret false
  else modO (set_running false (Some []));; mret true.

(** The destructor of the pool lets its threads finish what they are at; tasks nobody
    has taken are dropped. *)
Definition Stop : SM bool :=
  stopped ← getO m_bStopped;
  if stopped : bool then mret true
  else modO (set_running true None);; mret true.

(** [~RpcServerSync()]: the handlers are deleted. *)
Definition destroy : SM unit := Stop;; modO (set_handlers ∅).

Definition RegisterRpc (id : Z) (handler : IRpcHandler K) : SM bool :=
  registered ← getO m_bRegistered;
  if registered : bool then mret false
  else modO (fun o => set_handlers (<[id := Some handler]> (m_hmHandlers o)) o);; mret true.

Definition FinishRegisterRpc : SM unit := modO set_registered.

Definition HandleMessage (sspNM : NotifyMessage) : SM unit :=
  pool ← getO m_pWorkThreadPool;
  match pool with
  | Some tasks => modO (fun o => set_running (m_bStopped o) (Some (tasks ++ [sspNM])) o)
  | None => halt Undefined
  end.

(** [m_hmHandlers[handlerId]] inserts a null pointer when there is none. *)
Definition lookup_handler (handlerId : Z) : SM (option (IRpcHandler K)) :=
  h ← getO (fun o => m_hmHandlers o !! handlerId);
  match h with
  | Some h => mret h
  | None => modO (fun o => set_handlers (<[handlerId := None]> (m_hmHandlers o)) o);; mret None
  end.

Definition on_net {A} (c : M N A) : SM A := io (io c).
Definition on_handlers {A} (c : M K A) : SM A := io (on_left c).

(** [m_pSocketService->SendMessage(new RpcResponseBase(code, handlerId))]: a message
    with a new id and without a peer. *)
Definition send_error (code : RpcCode) (handlerId : Z) : SM unit :=
  id ← on_net ss_GetNewId;
  on_net (ss_SendMessage (MkSnd id net_peer_info_default (RpcResponseBase host code handlerId)));;
  mret tt.

(** [LOGFFUN] and the exception of the last case end the process. *)
Definition proc_msg (sspNM : NotifyMessage) : SM unit :=
  match sspNM with
  | MessageNotifyMessage rm =>
      let reqBuf := rm_buffer rm in
      handlerId ← of_mem (db_load (ByteOrderUtils.ReadUInt16 host) 0 reqBuf);
      let reqBuf := db_op (MoveHeadBack 2) reqBuf in
      handler ← lookup_handler handlerId;
      match handler with
      | None => send_error ErrorNoHandler handlerId
      | Some handler =>
          match CreateMessage handler with
          | None => send_error ErrorInternal handlerId
          | Some ty =>
              match ProtoBufUtils.Deserialize reqBuf ty with
              | None => send_error ErrorMsg handlerId
              | Some request =>
                  res ← on_handlers (Handle handler request);
                  on_net ss_GetNewId;;
                  on_net (ss_SendMessage (MkSnd (h_id (rm_header rm)) (rm_peer rm) (RpcResponse host res handlerId)));;
                  mret tt
              end
          end
      end
  | WorkerNotifyMessage _ _ _ => mret tt
  | ServerNotifyMessage _ _ => halt Aborted
  end.

(** A round of [ThreadPool::proc]; a thread that finds no task waits. *)
Definition work : SM bool :=
  pool ← getO m_pWorkThreadPool;
  match pool with
  | Some (task :: tasks) =>
      modO (fun o => set_running (m_bStopped o) (Some tasks) o);;
      proc_msg task;;
      mret true
  | _ => mret false
  end.
End defs.
End RpcServerSync.

(** ** class KVRpcServerSync *)

(** [common::IKVOperator] *)
Class IKVOperator (K : Type) := {
  op_Put : pb_msg -> M K (option pb_msg);
  op_Get : pb_msg -> M K (option pb_msg);
  op_Delete : pb_msg -> M K (option pb_msg);
  op_Scan : pb_msg -> M K (option pb_msg)
}.

(** [MiniKV] is one.  [dynamic_cast] gives null for another message type.  [strerror]
    gives the text of an error number. *)
Section operator.
Context {W C : Type} `{IWal W wal_entry} `{ICheckpoint C} (strerror : Z -> list byte).

Definition errtext (m : errmsg) : list byte :=
  match m with Strerror e => strerror e | Msg s => String.list_byte_of_string s end.
Definition rc_of {A} (r : result pcode A) : option pcode := match r with Good _ => None | Bad c _ => Some c end.
Definition text_of {A} (r : result pcode A) : list byte := match r with Good _ => [] | Bad _ m => errtext m end.
Definition value_of {A} (d : A) (r : result pcode A) : A := match r with Good a => a | Bad _ _ => d end.

Definition MiniKV_IKVOperator : IKVOperator (MiniKV W C * world) := {|
  op_Put m := match m with
    | PutRequest e => r ← Put e; mret (Some (PutResponse (rc_of r) (text_of r))) | _ => halt Undefined end;
  op_Get m := match m with
    | GetRequest k => r ← Get k; mret (Some (GetResponse (rc_of r) (value_of None r) (text_of r))) | _ => halt Undefined end;
  op_Delete m := match m with
    | DeleteRequest k => r ← Delete k; mret (Some (DeleteResponse (rc_of r) (text_of r))) | _ => halt Undefined end;
  op_Scan m := match m with
    | ScanRequest_ q => r ← Scan q; mret (Some (ScanResponse (rc_of r) (value_of [] r) (text_of r))) | _ => halt Undefined end
|}.
End operator.

(** common/rpc-def.h *)
Definition PUT_RPC_ID : Z := 1.
Definition GET_RPC_ID : Z := 2.
Definition DELETE_RPC_ID : Z := 3.
Definition SCAN_RPC_ID : Z := 4.
Definition RpcPut : string := "Put".
Definition RpcGet : string := "Get".
Definition RpcDelete : string := "Delete".
Definition RpcScan : string := "Scan".

Module KVRpcServerSync.

Record t (K : Type) := Make { m_bStopped : bool; m_pRpcServer : RpcServerSync.t K }.
Arguments Make {K}.
Arguments m_bStopped {K}.
Arguments m_pRpcServer {K}.

Section defs.
Context `{PbMessage} (host : byte_order) {K N : Type} `{IKVOperator K} `{ISocketService N}.

Definition set_stopped b (o : t K) : t K := Make b (m_pRpcServer o).
Definition set_rpcServer x (o : t K) : t K := Make (m_bStopped o) x.

Abbreviation KSM := (M (t K * (K * N))).
Definition on_rpc {A} (c : M (RpcServerSync.t K * (K * N)) A) : KSM A := zoom m_pRpcServer set_rpcServer c.

Definition make (workThreadsCnt LOGIC_CPUS_CNT : Z) : t K := Make true (RpcServerSync.make workThreadsCnt LOGIC_CPUS_CNT).

Definition on_put (sspMsg : pb_msg) : M K (option pb_msg) := op_Put sspMsg.
Definition create_put_request : option pb_type := Some PutRequestT.
Definition on_get (sspMsg : pb_msg) : M K (option pb_msg) := op_Get sspMsg.
Definition create_get_request : option pb_type := Some GetRequestT.
Definition on_delete (sspMsg : pb_msg) : M K (option pb_msg) := op_Delete sspMsg.
Definition create_delete_request : option pb_type := Some DeleteRequestT.
Definition on_scan (sspMsg : pb_msg) : M K (option pb_msg) := op_Scan sspMsg.
Definition create_scan_request : option pb_type := Some ScanRequestT.

Definition register_rpc_handlers : KSM unit :=
  on_rpc (RpcServerSync.RegisterRpc PUT_RPC_ID (MkHandler on_put create_put_request));;
  on_rpc (RpcServerSync.RegisterRpc GET_RPC_ID (MkHandler on_get create_get_request));;
  on_rpc (RpcServerSync.RegisterRpc DELETE_RPC_ID (MkHandler on_delete create_delete_request));;
  on_rpc (RpcServerSync.RegisterRpc SCAN_RPC_ID (MkHandler on_scan create_scan_request));;
  on_rpc RpcServerSync.FinishRegisterRpc.

Definition Start : KSM bool :=
  stopped ← getO m_bStopped;
  if negb stopped then mret true
  else
    modO (set_stopped false);;
    register_rpc_handlers;;
    r ← on_rpc RpcServerSync.Start;
    if negb r then mret false else io (io ss_Start).

Definition Stop : KSM bool :=
  stopped ← getO m_bStopped;
  if stopped : bool then mret true
  else modO (set_stopped true);; on_rpc RpcServerSync.Stop.

(** [~KVRpcServerSync()] *)
Definition destroy : KSM unit := on_rpc RpcServerSync.destroy.

Definition on_recv_net_message (sspNM : NotifyMessage) : KSM unit :=
  stopped ← getO m_bStopped;
  if stopped : bool then mret tt else on_rpc (RpcServerSync.HandleMessage sspNM).
End defs.
End KVRpcServerSync.
