(* ===== verification/RpcServe.v ===== *)
(** * Serving requests

    What the bytes of requests and responses are, and what the server does with a
    request it receives: the handler runs once, and its answer goes back to the peer
    under the id of the request.  [ISocketServiceLaws] is what the server relies on in
    the socket service. *)

From S2P Require Import Prelude Codec Buffer Posix Files Records Entries KvEntries KvMap Wal Checkpoint MiniKV.
From S2P Require Import BlockingQueue Net NetWorker NetRecv NetSend Rpc.

(** ** Reading a received buffer *)

Lemma readable_facts d : readable d = true ->
  m_bAvailable (db d) = true /\ 0 < m_pStart (db d) <= m_pPos (db d) /\ m_pPos (db d) <= m_pLast (db d) <= m_pEnd (db d) /\
  m_pLast (db d) - m_pPos (db d) < 2147483647 /\ m_pLast (db d) - m_pStart (db d) < zlen (db_mem d) /\
  AvailableLength (db d) = m_pLast (db d) - m_pPos (db d) + 1.
Proof.
  unfold readable. rewrite !andb_true_iff, !Z.ltb_lt, !Z.leb_le. intros ((((((Ha&?)&?)&?)&?)&?)&?).
  repeat (split; [done || lia|]). unfold AvailableLength. rewrite Ha. cbn [negb].
  destruct (Z.eqb_spec (m_pLast (db d)) 0); [lia|]. destruct (Z.eqb_spec (m_pPos (db d)) 0); [lia|]. cbn [orb].
  rewrite (i32_small (m_pLast (db d) - m_pPos (db d))) by lia. apply i32_small. lia.
Qed.

Lemma readable_split d : readable d = true ->
  drop (Z.to_nat (m_pPos (db d) - m_pStart (db d))) (db_mem d) =
    db_content d ++ drop (Z.to_nat (m_pLast (db d) + 1 - m_pStart (db d))) (db_mem d).
Proof.
  intros (_&?&?&?&?&Ha)%readable_facts. unfold db_content, slice. rewrite Ha.
  set (l := drop (Z.to_nat (m_pPos (db d) - m_pStart (db d))) (db_mem d)).
  replace (drop (Z.to_nat (m_pLast (db d) + 1 - m_pStart (db d))) (db_mem d)) with
    (drop (Z.to_nat (m_pLast (db d) - m_pPos (db d) + 1)) l) by (unfold l; rewrite drop_drop; f_equal; lia).
  by rewrite take_drop.
Qed.

Lemma readable_load16 host d n rest :
  readable d = true -> db_content d = be_bytes 2 n ++ rest -> db_load (ByteOrderUtils.ReadUInt16 host) 0 d = Some (u16 n).
Proof.
  intros Hr E. pose proof (readable_facts d Hr) as (_&?&_). unfold db_load.
  destruct (Z.ltb_spec (m_pPos (db d)) (m_pStart (db d))); [lia|].
  rewrite Z.add_0_r, (readable_split d Hr), E, <- app_assoc. apply read16_be.
Qed.

(** Behind the first bytes are the others; with none left the buffer is not available
    and still says so. *)
Lemma readable_move d k a rest :
  readable d = true -> db_content d = a ++ rest -> zlen a = k ->
  db_content (db_op (MoveHeadBack k) d) = rest /\ (rest <> [] -> readable (db_op (MoveHeadBack k) d) = true) /\
  (rest = [] -> AvailableLength (MoveHeadBack k (db d)) = 0).
Proof.
  intros Hr E Ek. pose proof (readable_split d Hr) as Hsp. pose proof (readable_facts d Hr) as (Ha&Hs&Hl&Hz&Hm&Hav).
  assert (zlen (db_content d) = m_pLast (db d) - m_pPos (db d) + 1) as Hlen.
  { unfold db_content, slice, zlen in *. rewrite length_take, length_drop, Hav. lia. }
  rewrite E, zlen_app, Ek in Hlen. pose proof (zlen_nonneg a). pose proof (zlen_nonneg rest).
  assert (MoveHeadBack k (db d) = check_available (mkBuffer (m_pPos (db d) + k) (m_pLast (db d)) (m_pStart (db d)) (m_pEnd (db d))
    (m_pMpObject (db d)) (m_bAvailable (db d)) (m_bOwn (db d)))) as Em.
  { unfold MoveHeadBack. destruct (Z.eqb_spec (m_pPos (db d)) 0); [lia|]. destruct (Z.eqb_spec (m_pLast (db d)) 0); [lia|done]. }
  destruct (decide (rest = [])) as [->|Hne].
  - assert (AvailableLength (MoveHeadBack k (db d)) = 0) as Hz0.
    { rewrite Em. apply AvailableLength_false. cbn. apply not_true_is_false. rewrite available_true. unfold zlen in *. simpl in *. lia. }
    split; [|by split]. unfold db_content, db_op. cbn [db db_mem]. rewrite Hz0. unfold slice. by rewrite take_0.
  - apply zlen_pos in Hne. assert (readable (db_op (MoveHeadBack k) d) = true) as Hr'.
    { unfold readable, db_op. cbn [db db_mem]. rewrite Em. unfold check_available. cbn [m_bAvailable m_pPos m_pLast m_pStart m_pEnd].
      rewrite !andb_true_iff, !Z.ltb_lt, !Z.leb_le, available_true. lia. }
    split; [|split; [done|intros ->; unfold zlen in *; simpl in *; lia]].
    pose proof (readable_split _ Hr') as Hsp'. pose proof (readable_facts _ Hr') as (_&_&_&_&_&Hav').
    unfold db_content, slice. rewrite Hav'. unfold db_op in *. cbn [db db_mem] in *. rewrite Em in *.
    cbn [check_available m_pPos m_pLast m_pStart] in *.
    replace (Z.to_nat (m_pPos (db d) + k - m_pStart (db d))) with (Z.to_nat (m_pPos (db d) - m_pStart (db d)) + length a)%nat
      by (unfold zlen in *; lia).
    rewrite <- drop_drop, Hsp, E, <- app_assoc, drop_app_length.
    replace (Z.to_nat (m_pLast (db d) - (m_pPos (db d) + k) + 1)) with (length rest) by (unfold zlen in *; lia).
    apply take_app_length.
Qed.

(** ** The bytes of requests and responses *)

Section messages.
Context `{PbMessage}.

Definition body (m : option pb_msg) : list byte := match m with Some m => SerializeToArray m | None => [] end.
Definition request_bytes (handlerId : Z) (m : option pb_msg) : list byte := be_bytes 2 (u16 handlerId) ++ body m.
Definition response_bytes (code : RpcCode) (handlerId : Z) (m : option pb_msg) : list byte :=
  be_bytes 2 (rpc_code code) ++ be_bytes 2 (u16 handlerId) ++ body m.

(** One field of a derived message, and the fields after it. *)
Lemma derives_field k f bs rest (g : dbuf -> option dbuf) b :
  zlen bs = k -> (forall m, (length bs <= length m)%nat -> f m = bs ++ drop (length bs) m) -> 0 <= k ->
  (forall b1, room b1 (zlen rest) -> exists b2, g b1 = Some b2 /\ same_frame (db b1) (db b2) /\
     db_mem b2 = mem_write (m_pPos (db b1) - m_pStart (db b1)) rest (db_mem b1)) ->
  room b (k + zlen rest) ->
  exists b', (b1 ← db_store k f b; g (db_op (MoveHeadBack k) b1)) = Some b' /\ same_frame (db b) (db b') /\
    db_mem b' = mem_write (m_pPos (db b) - m_pStart (db b)) (bs ++ rest) (db_mem b).
Proof.
  intros Hz Hf Hk Hg Hr. pose proof (zlen_nonneg rest).
  destruct (store_move_spec b k f bs) as (b1&E&Hf1&Hp&Hm); [destruct Hr as (?&?&?); unfold room; lia|done|done|].
  destruct (db_store k f b) as [b0|]; [|done]. cbn [mbind option_bind] in *. injection E as <-.
  assert (zlen (db_mem (db_op (MoveHeadBack k) b0)) = zlen (db_mem b)) as Hzm.
  { rewrite Hm. destruct Hr as (?&?&?). apply mem_write_len; lia. }
  destruct (Hg (db_op (MoveHeadBack k) b0)) as (b2&->&Hf2&Hm2); [by eapply room_after|].
  eexists. split; [done|]. split; [by eapply same_frame_trans|]. destruct Hf1 as (Hs&_). rewrite Hm2, Hm, Hp, Hs.
  rewrite <- (mem_write_adjacent _ bs rest) by (destruct Hr as (?&?&?); rewrite ?Hz; lia). rewrite Hz. f_equal. lia.
Qed.

Lemma serialize_opt_spec m b :
  room b (zlen (body m)) -> exists b', serialize_opt m b = Some b' /\ same_frame (db b) (db b') /\
    db_mem b' = mem_write (m_pPos (db b) - m_pStart (db b)) (body m) (db_mem b).
Proof.
  intros Hr. destruct m as [m|]; cbn [serialize_opt body] in *.
  - unfold ProtoBufUtils.Serialize, ByteSize. eexists. split; [apply db_store_spec; [done|done|]|done].
    intros l _. unfold mem_write. by rewrite take_0.
  - exists b. split; [done|]. split; [by repeat split|]. unfold mem_write. simpl. by rewrite Nat.add_0_r, take_drop.
Qed.

Lemma body_small m k : k + zlen (body m) < 4294967296 -> 0 <= k ->
  match m with Some m => u32 (k + ByteSize m) | None => k end = k + zlen (body m).
Proof.
  intros Hz Hk. pose proof (zlen_nonneg (body m)). destruct m as [m|]; cbn [body] in *; [|change (zlen (@nil byte)) with 0; lia].
  unfold ByteSize. by rewrite u32_small by lia.
Qed.

Lemma request_derives host h m :
  zlen (body m) < 4294967294 -> derives (RpcRequest host h m) (request_bytes h m).
Proof.
  intros Hz. unfold request_bytes. split.
  - cbn [RpcRequest getDerivePayloadLength]. rewrite body_small by lia. zlens. done.
  - intros b Hr. rewrite zlen_app in Hr. cbn [RpcRequest encodeDerive].
    apply (derives_field 2 _ (be_bytes 2 (u16 h)) (body m) (serialize_opt m));
      [done|intros; by apply write16_spec|lia|intros; by apply serialize_opt_spec|done].
Qed.

Lemma response_derives host h m :
  zlen (body m) < 4294967292 -> derives (RpcResponse host m h) (response_bytes OK h m).
Proof.
  intros Hz. unfold response_bytes. split.
  - cbn [RpcResponse getDerivePayloadLength]. rewrite body_small by lia. zlens. lia.
  - intros b Hr. rewrite zlen_app in Hr. cbn [RpcResponse encodeDerive].
    apply (derives_field 2 _ (be_bytes 2 (rpc_code OK)) (be_bytes 2 (u16 h) ++ body m)
      (fun b => b ← db_store 2 (fun m => ByteOrderUtils.WriteUInt16 host m (u16 h)) b; serialize_opt m (db_op (MoveHeadBack 2) b)));
      [done|intros; by apply write16_spec|lia| |done].
    intros b1 Hr1. rewrite zlen_app in Hr1.
    apply (derives_field 2 _ (be_bytes 2 (u16 h)) (body m) (serialize_opt m));
      [done|intros; by apply write16_spec|lia|intros; by apply serialize_opt_spec|done].
Qed.
End messages.

(** ** What the server relies on in the socket service

    [ss_open p q n]: the service runs and has a connection with [p] on which the
    messages [q] were queued so far. *)
Class ISocketServiceLaws (N : Type) `{ISocketService N} := {
  ss_open : net_peer_info -> list SndMessage -> N -> Prop;
  ss_id_law : forall p q n, ss_open p q n -> wp ss_GetNewId n (fun _ n' => ss_open p q n');
  ss_send_law : forall q m n, np_sp (snd_peer m) = Tcp -> ss_open (snd_peer m) q n ->
    wp (ss_SendMessage m) n (fun rc n' => rc = true /\ ss_open (snd_peer m) (q ++ [m]) n');
  ss_protocol_law : forall p q m n, np_sp (snd_peer m) <> Tcp -> ss_open p q n -> (ss_SendMessage m n).1 = Prelude.Stop Aborted
}.

Lemma wp_on_left {K N A} (c : M K A) (k : K) (n : N) Q :
  wp c k (fun a k' => Q a (k', n)) -> wp (on_left c) (k, n) Q.
Proof. unfold wp, wpc, on_left. simpl. by destruct (c k) as [[a|e] k']. Qed.

(** A request with message [req] for handler [h] from [peer]. *)
Definition carries `{PbMessage} (nm : NotifyMessage) (peer : net_peer_info) (id h : Z) (req : pb_msg) : Prop :=
  note_wire nm = Some (peer, Wire id (request_bytes h (Some req))).

Section serve.
Context `{PbMessage} (host : byte_order) {K N : Type} `{ISocketServiceLaws N}.

(** A queued message is the response [res] of handler [h] to the request [id] of [peer]. *)
Definition responds (peer : net_peer_info) (id h : Z) (res : option pb_msg) (sm : SndMessage) : Prop :=
  snd_peer sm = peer /\ sends sm (Wire id (response_bytes OK h res)).

Lemma proc_msg_spec nm peer id h req (hd : IRpcHandler K) q (o : RpcServerSync.t K) k n Q :
  carries nm peer id h req -> pb_fits req -> zlen (SerializeToArray req) < 2147483648 -> 0 <= h < 65536 ->
  RpcServerSync.m_hmHandlers o !! h = Some (Some hd) -> CreateMessage hd = Some (type_of req) ->
  np_sp peer = Tcp -> id_ok id -> ss_open peer q n ->
  wp (Handle hd req) k (fun res k' =>
    4 + zlen (body res) <= MAX_MSG_PAYLOAD_SIZE /\
    forall sm n', responds peer id h res sm -> ss_open peer (q ++ [sm]) n' -> Q tt (o, (k', n'))) ->
  wp (RpcServerSync.proc_msg host nm) (o, (k, n)) Q.
Proof.
  intros Hc Hfit Hsize Hh Hl Hcm Htcp Hid Hopen HQ. unfold carries, note_wire in Hc. destruct nm as [| |rm]; [done|done|].
  destruct (readable (rm_buffer rm)) eqn:Hr; [|done]. injection Hc as <- <- Ec. unfold request_bytes in Ec.
  unfold RpcServerSync.proc_msg. rewrite (readable_load16 host _ _ _ Hr Ec). unfold u16. rewrite !(Z.mod_small h) by lia.
  cbn [of_mem]. wpure. unfold RpcServerSync.lookup_handler. wpure. rewrite Hl. wpure. rewrite Hcm.
  unfold ProtoBufUtils.Deserialize. destruct (readable_move _ 2 _ _ Hr Ec ltac:(done)) as [-> _].
  cbn [body]. rewrite pb_message_roundtrip by done. wbind. unfold RpcServerSync.on_handlers. apply wp_io, wp_on_left.
  eapply wp_mono; [exact HQ|]. intros res k' [Hz Hdone]. unfold MAX_MSG_PAYLOAD_SIZE in *. wbind. unfold RpcServerSync.on_net.
  do 2 apply wp_io. eapply wp_mono; [by apply ss_id_law|]. intros i n1 Hopen1. wbind. do 2 apply wp_io.
  eapply wp_mono; [by apply (ss_send_law q)|]. intros rc n' [-> Hopen']. cbn [snd_peer] in Hopen'. wpure. eapply Hdone; [|exact Hopen'].
  split; [done|]. split; cbn [w_id w_payload snd_id snd_derive]; [done|apply response_derives; lia|].
  split; [done|]. unfold response_bytes, MAX_MSG_PAYLOAD_SIZE. cbn [w_payload]. zlens. pose proof (zlen_nonneg (body res)). lia.
Qed.

(** An error is never answered: the response has no peer, and the service throws. *)
Lemma send_error_spec code h p q (o : RpcServerSync.t K) (k : K) n :
  ss_open p q n -> (RpcServerSync.send_error host code h (o, (k, n))).1 = Prelude.Stop Aborted.
Proof.
  intros Hopen. destruct (wp_run _ _ _ (ss_id_law p q n Hopen)) as (i&n1&E&Hopen1).
  pose proof (ss_protocol_law p q (MkSnd i net_peer_info_default (RpcResponseBase host code h)) n1 ltac:(done) Hopen1) as E1.
  destruct (ss_SendMessage (MkSnd i net_peer_info_default (RpcResponseBase host code h)) n1) as [r n2] eqn:E2. cbn in E1. subst r.
  unfold RpcServerSync.send_error, RpcServerSync.on_net, mbind, M_bind, io. cbn [fst snd]. rewrite E. cbn [fst snd]. by rewrite E2.
Qed.
End serve.
