(* ===== verification/RpcKv.v ===== *)
(** * The store behind the server

    A client's requests arrive in any interleaving with the rounds of a worker thread.
    Whatever has been answered so far are the first requests, each once and in order,
    and the answers are those of a finite map. *)

From S2P Require Import Prelude Codec Buffer Posix Files Records Entries KvEntries KvMap Wal Checkpoint MiniKV.
From S2P Require Import KvContracts KvRecovery KvTheorems BlockingQueue Net NetWorker NetRecv NetSend Rpc RpcServe.

(** ** Calls and their specification *)

Inductive call := CPut (e : Entry) | CDelete (k : list byte) | CGet (k : list byte).

Definition call_id (c : call) : Z := match c with CPut _ => PUT_RPC_ID | CDelete _ => DELETE_RPC_ID | CGet _ => GET_RPC_ID end.
Definition call_msg (c : call) : pb_msg :=
  match c with CPut e => PutRequest (Some e) | CDelete k => DeleteRequest k | CGet k => GetRequest k end.

(** What a finite map answers, and what becomes of it. *)
Definition answer (m : gmap (list byte) Entry) (c : call) : pb_msg :=
  match c with
  | CPut _ => PutResponse None []
  | CDelete _ => DeleteResponse None []
  | CGet k => GetResponse None (m !! k) []
  end.
Definition call_step (m : gmap (list byte) Entry) (c : call) : gmap (list byte) Entry :=
  match c with CPut e => <[key e := e]> m | CDelete k => delete k m | CGet _ => m end.
Fixpoint answers (m : gmap (list byte) Entry) (cs : list call) : list pb_msg :=
  match cs with [] => [] | c :: cs => answer m c :: answers (call_step m c) cs end.

Lemma answers_app m a b : answers m (a ++ b) = answers m a ++ answers (foldl call_step m a) b.
Proof. revert m. induction a as [|c a IH]; intros m; simpl; [done|]. by rewrite IH. Qed.

(** The messages are small enough for a frame. *)
Definition small `{PbMessage} (m : pb_msg) : Prop := 4 + zlen (SerializeToArray m) <= MAX_MSG_PAYLOAD_SIZE.

Section kv.
Context `{MemAlloc} `{PbEntry} `{PbMessage} (host : byte_order) (strerror : Z -> list byte).
Context {W C : Type} `{!IWal W wal_entry, !IWalLaws W wal_entry} `{!ICheckpoint C, !ICheckpointLaws C}.
Context {N : Type} `{!ISocketService N, !ISocketServiceLaws N}.

Abbreviation K := (MiniKV W C * world)%type.
#[local] Instance kv_operator : IKVOperator K := MiniKV_IKVOperator strerror.
Abbreviation server := (KVRpcServerSync.t K).

Definition call_ok (c : wcfg) (x : call) : Prop :=
  match x with
  | CPut e => request_ok c (RPut e)
  | CDelete k => request_ok c (RDelete k)
  | CGet k => k <> [] /\ zlen k < 4294967296
  end.

(** ** The handlers *)

Definition handler_of (x : call) : IRpcHandler K :=
  match x with
  | CPut _ => MkHandler op_Put (Some PutRequestT)
  | CDelete _ => MkHandler op_Delete (Some DeleteRequestT)
  | CGet _ => MkHandler op_Get (Some GetRequestT)
  end.

(** The store works, with the map [m]. *)
Definition kv_at (c : wcfg) (cc : ccfg) (snap : option (Z * list raw_entry)) (left : Z) (m : gmap (list byte) Entry) (k : K) : Prop :=
  exists l, running c cc snap l k.1 k.2 /\ ordered (m_kvs k.1) /\ contents (m_kvs k.1) = m /\ wal_room c left l (m_pWal k.1).

Lemma handle_spec c cc snap left m x (k : K) :
  separate c cc -> kv_at c cc snap left m k -> call_ok c x -> 0 < left ->
  wp (Handle (handler_of x) (call_msg x)) k (fun res k' =>
    res = Some (answer m x) /\ exists left', left - 1 <= left' /\ kv_at c cc snap left' (call_step m x) k').
Proof.
  intros Hsep (l&Hrun&Hord&Hm&Hroom) Hx Hleft. destruct k as [o w]. cbn [fst snd] in *. destruct x as [e|k|k]; cbn [handler_of call_msg Handle].
  - cbn [op_Put kv_operator MiniKV_IKVOperator]. wbind. eapply (exec_spec c cc snap l o w left (RPut e)); [done..|].
    intros o' w' l' Hrun' Hord' Hc' Hroom'. wpure. split; [done|]. exists (left - 1). split; [lia|]. exists l'. by rewrite Hm in Hc'.
  - cbn [op_Delete kv_operator MiniKV_IKVOperator]. wbind. eapply (exec_spec c cc snap l o w left (RDelete k)); [done..|].
    intros o' w' l' Hrun' Hord' Hc' Hroom'. wpure. split; [done|]. exists (left - 1). split; [lia|]. exists l'. by rewrite Hm in Hc'.
  - destruct Hx as [Hk Hlen]. cbn [op_Get kv_operator MiniKV_IKVOperator]. wbind. unfold Get. wpure.
    rewrite (run_stopped _ _ _ _ _ _ Hrun), bool_decide_eq_false_2 by done. wpure. cbn [rc_of value_of text_of answer call_step].
    rewrite (find_contents (key_of k)) by (done || by apply key_of_ok). split; [by rewrite Hm|]. exists left. split; [lia|]. by exists l.
Qed.

(** ** The server *)

(** The server is up, with [tasks] nobody has taken yet. *)
Record serving (o : server) (tasks : list NotifyMessage) : Prop := {
  sv_up : KVRpcServerSync.m_bStopped o = false;
  sv_pool : RpcServerSync.m_pWorkThreadPool (KVRpcServerSync.m_pRpcServer o) = Some tasks;
  sv_handlers : forall x, RpcServerSync.m_hmHandlers (KVRpcServerSync.m_pRpcServer o) !! call_id x = Some (Some (handler_of x))
}.

(** A message arrives, or a worker thread takes a task. *)
Inductive event := Arrives (nm : NotifyMessage) | Works.

Definition react (e : event) : M (server * (K * N)) unit :=
  match e with
  | Arrives nm => KVRpcServerSync.on_recv_net_message nm
  | Works => KVRpcServerSync.on_rpc (RpcServerSync.work host);; mret tt
  end.
Fixpoint run_server (evs : list event) : M (server * (K * N)) unit :=
  match evs with [] => mret tt | e :: evs => react e;; run_server evs end.

Definition arrivals (evs : list event) : list NotifyMessage := omap (fun e => match e with Arrives nm => Some nm | Works => None end) evs.
(** How many requests wait after these events, when [n] did before. *)
Fixpoint backlog (n : nat) (evs : list event) : nat :=
  match evs with [] => n | Arrives _ :: evs => backlog (S n) evs | Works :: evs => backlog (pred n) evs end.

Lemma server_start_spec cnt cpus k n :
  wp ss_Start n (fun r _ => r = true) ->
  wp KVRpcServerSync.Start (KVRpcServerSync.make cnt cpus, (k, n)) (fun r s => r = true /\ serving s.1 [] /\ s.2.1 = k).
Proof.
  intros Hss. unfold KVRpcServerSync.Start, KVRpcServerSync.register_rpc_handlers. wpure. cbn [negb].
  unfold KVRpcServerSync.on_rpc, RpcServerSync.RegisterRpc, RpcServerSync.FinishRegisterRpc, RpcServerSync.Start.
  repeat (first [wbind|apply wp_zoom]; wpure; cbn). apply wp_io. apply wp_io. eapply wp_mono; [exact Hss|]. intros r n' ->.
  split; [done|]. split; [|done]. split; [done|done|]. intros []; reflexivity.
Qed.

Section run.
Context (c : wcfg) (cc : ccfg) (snap : option (Z * list raw_entry)) (m : gmap (list byte) Entry) (peer : net_peer_info)
  (q : list SndMessage) (total : Z) (Hsep : separate c cc) (Hpeer : np_sp peer = Tcp).

Definition arrives_as (nm : NotifyMessage) (x : Z * call) : Prop := carries nm peer x.1 (call_id x.2) (call_msg x.2).
Definition answered (sm : SndMessage) (xa : (Z * call) * pb_msg) : Prop :=
  responds peer xa.1.1 (call_id xa.1.2) (Some xa.2) sm.
Definition request_fine (x : Z * call) : Prop := id_ok x.1 /\ call_ok c x.2 /\ small (call_msg x.2).

(** [done] have been answered, [rest] wait. *)
Definition served (done rest : list (Z * call)) (s : server * (K * N)) : Prop :=
  exists sms tasks left,
    serving s.1 tasks /\ Forall2 arrives_as tasks rest /\
    Forall2 answered sms (zip done (answers m (map snd done))) /\ ss_open peer (q ++ sms) s.2.2 /\
    kv_at c cc snap left (foldl call_step m (map snd done)) s.2.1 /\ total - zlen done <= left.

Lemma arrive_spec done rest nm x s :
  served done rest s -> arrives_as nm x -> wp (react (Arrives nm)) s (fun _ s' => served done (rest ++ [x]) s').
Proof.
  destruct s as [o [k n]]. intros (sms&tasks&left&[Hup Hpool Hh]&Hwait&Hans&Hopen&Hkv&Hroom) Hx. cbn [fst snd] in *. cbn [react].
  unfold KVRpcServerSync.on_recv_net_message. wpure. rewrite Hup. unfold KVRpcServerSync.on_rpc. apply wp_zoom.
  unfold RpcServerSync.HandleMessage. wpure. rewrite Hpool. wpure.
  exists sms, (tasks ++ [nm]), left. split; [by split|]. split; [|done]. apply Forall2_app; [done|by repeat constructor].
Qed.

Lemma answers_length m' cs : length (answers m' cs) = length cs.
Proof. revert m'. induction cs as [|x cs IH]; intros m'; simpl; [done|]. by rewrite IH. Qed.

Lemma zip_answers (done : list (Z * call)) x :
  zip (done ++ [x]) (answers m (map snd (done ++ [x]))) =
  zip done (answers m (map snd done)) ++ [(x, answer (foldl call_step m (map snd done)) x.2)].
Proof.
  rewrite map_app, answers_app. rewrite zip_with_app by by rewrite answers_length, length_map. done.
Qed.

Lemma work_spec done rest x s :
  served done (x :: rest) s -> request_fine x -> small (answer (foldl call_step m (map snd done)) x.2) -> zlen done < total ->
  wp (react Works) s (fun _ s' => served (done ++ [x]) rest s').
Proof.
  destruct s as [o [k n]], x as [id x]. intros (sms&tasks&left&[Hup Hpool Hh]&Hwait&Hans&Hopen&Hkv&Hroom) (Hid&Hok&Hsm) Hsa Hlt.
  cbn [fst snd] in *. apply Forall2_cons_inv_r in Hwait as (nm&tasks'&Hx&Hwait&->). cbn [react]. wbind.
  unfold KVRpcServerSync.on_rpc. apply wp_zoom. unfold RpcServerSync.work. wpure. rewrite Hpool. wpure. wbind. unfold small, MAX_MSG_PAYLOAD_SIZE in *.
  eapply (proc_msg_spec host nm peer id (call_id x) (call_msg x) (handler_of x)); [done|by destruct x|lia|by destruct x|apply Hh|by destruct x|done..|].
  eapply wp_mono; [apply (handle_spec c cc snap left (foldl call_step m (map snd done)) x k); [done..|lia]|]. intros res k' [-> (left'&Hl&Hkv')].
  split; [done|]. intros sm n' Hr Hopen'. wpure. exists (sms ++ [sm]), tasks', left'. cbn [fst snd].
  split; [by split|]. split; [done|]. rewrite zip_answers, map_app, foldl_app. zlens.
  split; [apply Forall2_app; [done|constructor; [exact Hr|constructor]]|]. rewrite app_assoc. split; [done|]. split; [done|]. change (zlen (@nil (Z * call))) with 0. lia.
Qed.

Lemma idle_spec done s : served done [] s -> wp (react Works) s (fun _ s' => served done [] s').
Proof.
  destruct s as [o [k n]]. intros Hs. pose proof Hs as (sms&tasks&left&[Hup Hpool Hh]&Hwait&_). cbn [fst snd] in *.
  apply Forall2_nil_inv_r in Hwait as ->. cbn [react]. wbind. unfold KVRpcServerSync.on_rpc. apply wp_zoom.
  unfold RpcServerSync.work. wpure. rewrite Hpool. wpure. by destruct o.
Qed.

Lemma run_spec evs : forall done rest xs s,
  served done rest s -> Forall2 arrives_as (arrivals evs) xs -> Forall request_fine (rest ++ xs) ->
  Forall small (answers (foldl call_step m (map snd done)) (map snd (rest ++ xs))) -> zlen (done ++ rest ++ xs) <= total ->
  wp (run_server evs) s (fun _ s' => exists done' rest', done ++ rest ++ xs = done' ++ rest' /\
    length rest' = backlog (length rest) evs /\ served done' rest' s').
Proof.
  induction evs as [|[nm|] evs IH]; intros done rest xs s Hs Harr Hfine Hsm Hz; cbn [run_server arrivals omap list_omap backlog] in *.
  - apply Forall2_nil_inv_l in Harr as ->. wpure. exists done, rest. by rewrite app_nil_r.
  - apply Forall2_cons_inv_l in Harr as (x&xs'&Hx&Harr&->). wbind. eapply wp_mono; [by apply (arrive_spec done rest nm x)|]. intros [] s1 Hs1.
    eapply wp_mono; [apply (IH done (rest ++ [x]) xs'); rewrite <- ?app_assoc; done|]. intros [] s' (done'&rest'&E&Hl&Hs').
    exists done', rest'. rewrite <- app_assoc in E. split; [done|]. split; [|done]. by rewrite Hl, length_app, Nat.add_1_r.
  - destruct rest as [|x rest].
    + wbind. eapply wp_mono; [by apply idle_spec|]. intros [] s1 Hs1. by apply (IH done [] xs).
    + inversion Hfine as [|? ? Hx Hfine']; subst. cbn [app map answers] in Hsm. inversion Hsm as [|? ? Hsx Hsm']; subst. wbind.
      assert (zlen done < total) as Hlt by (rewrite zlen_app in Hz; cbn [app] in Hz; rewrite zlen_cons in Hz; pose proof (zlen_nonneg (rest ++ xs)); lia).
      eapply wp_mono; [by apply (work_spec done rest x)|]. intros [] s1 Hs1.
      eapply wp_mono; [apply (IH (done ++ [x]) rest xs); [done|done|done| |]|].
      * by rewrite map_app, foldl_app.
      * by rewrite <- app_assoc.
      * intros [] s' (done'&rest'&E&Hl&Hs'). exists done', rest'. rewrite <- app_assoc in E. done.
Qed.
End run.
End kv.
