(* ===== verification/Timer.v ===== *)
(** * The timer (src/sys/timer.{h,cc})

    A table of events by time, a table of their ids, and a thread that runs what is due.
    Times are nanoseconds: [cctime] orders normalised pairs of seconds and nanoseconds the
    same way.  A callback is known by its address; what it does belongs to its owner, and
    the timer reports which events it has run.

    [m_mapEventsEntry] is ordered by [EventId::operator<], which is not a strict weak
    order: two ids can be less than each other.  A search in a map with such keys is
    undefined ([None]).  The working thread gives up the spin lock before it waits on the
    condition variable, and whoever notifies does not hold its mutex: the thread is
    [Working], about to wait, or [Waiting], and only the last can be notified. *)

From S2P Require Import Prelude.

Module Timer.

Record Event := MkEvent { ctx : Z; callback : Z }.
Record EventId := MkEventId { when : Z; how : Z }.

Definition less (a b : EventId) : bool := (when a <? when b) || (how a <? how b).

(** Up to when the thread waits; [None]: until it is notified. *)
Inductive thread := NoThread | Working | AboutToWait (until : option Z) | Waiting (until : option Z).

(** [m_mapSubscribedEvents] in its order, and the keys of [m_mapEventsEntry]. *)
Record t := Make {
  m_stop : bool;
  m_mapSubscribedEvents : list (Z * Event);
  m_mapEventsEntry : list EventId;
  m_pWorkThread : thread
}.
Definition new : t := Make true [] [] NoThread.

#[global] Instance EventId_eq_dec : EqDecision EventId.
Proof. solve_decision. Defined.

(** [m_cv.notify_one()] *)
Definition notify_one (th : thread) : thread := match th with Waiting _ => Working | _ => th end.

Definition id_of (p : Z * Event) : EventId := MkEventId p.1 (callback p.2).

(** The keys of the map and a key that is searched for are in order. *)
Definition in_order (k : EventId) (keys : list EventId) : bool := forallb (fun x => negb (less k x && less x k)) keys.

(** [find(when)]: the events from the first one at this time on. *)
Fixpoint find_from (w : Z) (l : list (Z * Event)) : list (Z * Event) :=
  match l with [] => [] | p :: l' => if p.1 =? w then l else find_from w l' end.
(** [insert]: behind the events of the same time. *)
Fixpoint insert_event (w : Z) (ev : Event) (l : list (Z * Event)) : list (Z * Event) :=
  match l with [] => [(w, ev)] | p :: l' => if w <? p.1 then (w, ev) :: l else p :: insert_event w ev l' end.

Definition Start (x : t) : t :=
  if negb (m_stop x) then x
  else Make false (m_mapSubscribedEvents x) (m_mapEventsEntry x) (match m_pWorkThread x with NoThread => Working | th => th end).

Definition UnsubscribeAllEvent (x : t) : t := Make (m_stop x) [] [] (m_pWorkThread x).

Definition Stop (x : t) : t :=
  let x := UnsubscribeAllEvent x in
  Make true (m_mapSubscribedEvents x) (m_mapEventsEntry x) (notify_one (m_pWorkThread x)).

(** The id has time 0 when the event is refused. *)
Definition SubscribeEventAt (w : Z) (ev : Event) (x : t) : option (EventId * t) :=
  if existsb (fun p => callback p.2 =? callback ev) (find_from w (m_mapSubscribedEvents x)) then Some (MkEventId 0 (callback ev), x)
  else
    let evId := MkEventId w (callback ev) in
    if in_order evId (m_mapEventsEntry x) then
      let evs := insert_event w ev (m_mapSubscribedEvents x) in
      let first := match m_mapSubscribedEvents x with [] => true | p :: _ => w <? p.1 end in
      let keys := if bool_decide (evId ∈ m_mapEventsEntry x) then m_mapEventsEntry x else evId :: m_mapEventsEntry x in
      Some (evId, Make (m_stop x) evs keys (if first then notify_one (m_pWorkThread x) else m_pWorkThread x))
    else None.

(** [now] is what the clock says. *)
Definition SubscribeEventAfter (now duration : Z) (ev : Event) (x : t) : option (EventId * t) :=
  SubscribeEventAt (now + duration) ev x.

Definition UnsubscribeEvent (i : EventId) (x : t) : option (bool * t) :=
  if (when i =? 0) || (how i =? 0) then Some (false, x)
  else if in_order i (m_mapEventsEntry x) then
    if bool_decide (i ∈ m_mapEventsEntry x) then
      Some (true, Make (m_stop x) (filter (fun p => id_of p <> i) (m_mapSubscribedEvents x))
        (filter (fun k => k <> i) (m_mapEventsEntry x)) (m_pWorkThread x))
    else Some (false, x)
  else None.

(** *** process *)

(** The inner loop: the events it has run, in order, and the two tables after it. *)
Fixpoint run_due (now : Z) (evs : list (Z * Event)) (keys : list EventId) : option (list (Z * Event) * list (Z * Event) * list EventId) :=
  match evs with
  | [] => Some ([], [], keys)
  | p :: evs' =>
      if now <? p.1 then Some ([], evs, keys)
      else if in_order (id_of p) keys then
        '(ran, rest, keys') ← run_due now evs' (filter (fun k => k <> id_of p) keys);
        Some (p :: ran, rest, keys')
      else None
  end.

(** The erasing at the end of the loop's body, after the callback of the first event. *)
Definition erase_first (x : t) : option t :=
  match m_mapSubscribedEvents x with
  | [] => Some x
  | p :: evs =>
      if in_order (id_of p) (m_mapEventsEntry x)
      then Some (Make (m_stop x) evs (filter (fun k => k <> id_of p) (m_mapEventsEntry x)) (m_pWorkThread x)) else None
  end.

(** A round of the thread up to the release of the spin lock. *)
Definition process_round (now : Z) (x : t) : option (list (Z * Event) * t) :=
  match m_pWorkThread x with
  | Working =>
      if m_stop x then Some ([], Make (m_stop x) (m_mapSubscribedEvents x) (m_mapEventsEntry x) NoThread)
      else
        '(ran, rest, keys) ← run_due now (m_mapSubscribedEvents x) (m_mapEventsEntry x);
        Some (ran, Make (m_stop x) rest keys (AboutToWait (fst <$> head rest)))
  | _ => Some ([], x)
  end.
(** [m_cv.wait(ml)] or [m_cv.wait_until(ml, tp)], and the end of the waiting time. *)
Definition process_wait (x : t) : t :=
  match m_pWorkThread x with
  | AboutToWait u => Make (m_stop x) (m_mapSubscribedEvents x) (m_mapEventsEntry x) (Waiting u)
  | _ => x
  end.
Definition process_awake (now : Z) (x : t) : t :=
  match m_pWorkThread x with
  | Waiting (Some u) => if u <=? now then Make (m_stop x) (m_mapSubscribedEvents x) (m_mapEventsEntry x) Working else x
  | _ => x
  end.

(** ** The tables *)

Definition sorted (l : list (Z * Event)) : Prop := StronglySorted (fun p q => p.1 <= q.1) l.

(** The two tables have the same events, once each, in the order of time; and their ids
    are ordered. *)
Record ok (x : t) : Prop := {
  ok_sorted : sorted (m_mapSubscribedEvents x);
  ok_keys : forall k, k ∈ m_mapEventsEntry x <-> exists p, p ∈ m_mapSubscribedEvents x /\ id_of p = k;
  ok_once : NoDup (map id_of (m_mapSubscribedEvents x));
  ok_times : Forall (fun p => p.1 <> 0 /\ callback p.2 <> 0) (m_mapSubscribedEvents x)
}.
Definition ordered_ids (l : list EventId) : Prop := forall a b, a ∈ l -> b ∈ l -> ~ (less a b = true /\ less b a = true).

Lemma in_order_true k l : in_order k l = true <-> forall x, x ∈ l -> ~ (less k x = true /\ less x k = true).
Proof.
  unfold in_order. rewrite forallb_forall. split.
  - intros Ha x Hx%list_elem_of_In [H1 H2]. apply Ha in Hx. by rewrite H1, H2 in Hx.
  - intros Ha x Hx%list_elem_of_In. apply Ha in Hx. destruct (less k x), (less x k); try done. exfalso. by apply Hx.
Qed.

(** One callback makes an ordered table. *)
Lemma one_callback_ordered cb l : (forall k, k ∈ l -> how k = cb) -> ordered_ids l.
Proof.
  intros Hcb a b Ha%Hcb Hb%Hcb [H1 H2]. unfold less in *. rewrite Ha, Hb, Z.ltb_irrefl, orb_false_r in *. rewrite Z.ltb_lt in *. lia.
Qed.

Lemma insert_event_elem w ev l p : p ∈ insert_event w ev l <-> p = (w, ev) \/ p ∈ l.
Proof.
  induction l as [|q l IH]; cbn [insert_event]; [by rewrite list_elem_of_singleton, elem_of_nil; tauto|].
  destruct (w <? q.1); rewrite !elem_of_cons; [tauto|]. rewrite IH. tauto.
Qed.
Lemma insert_event_sorted w ev l : sorted l -> sorted (insert_event w ev l).
Proof.
  induction 1 as [|q l Hs IH Hq]; cbn [insert_event]; [repeat constructor|]. destruct (Z.ltb_spec w q.1).
  - constructor; [by constructor|]. constructor; [simpl; lia|]. eapply (list.Forall_impl _ _ _ Hq). simpl. intros. lia.
  - constructor; [done|]. apply list.Forall_forall. intros p [->|Hp]%insert_event_elem; [simpl; lia|]. rewrite list.Forall_forall in Hq. auto.
Qed.
Lemma insert_event_map w ev l : map id_of (insert_event w ev l) ≡ₚ MkEventId w (callback ev) :: map id_of l.
Proof.
  induction l as [|q l IH]; cbn [insert_event]; [done|]. destruct (w <? q.1); [done|]. cbn [map]. rewrite IH. apply Permutation_swap.
Qed.

Lemma find_from_elem w l p : sorted l -> p ∈ l -> p.1 = w -> p ∈ find_from w l.
Proof.
  induction 1 as [|q l Hs IH Hq]; [by intros ?%elem_of_nil|]. cbn [find_from]. intros Hp Hw. destruct (Z.eqb_spec q.1 w); [done|].
  apply elem_of_cons in Hp as [->|Hp]; [done|]. auto.
Qed.

Lemma filter_elem (x k : EventId) (l : list EventId) : k ∈ filter (fun y => y <> x) l <-> k <> x /\ k ∈ l.
Proof. by rewrite list_elem_of_filter. Qed.

Lemma subscribe_ok w ev x : ok x -> w <> 0 -> callback ev <> 0 ->
  ordered_ids (MkEventId w (callback ev) :: m_mapEventsEntry x) ->
  exists i x', SubscribeEventAt w ev x = Some (i, x') /\ ok x' /\
    (i = MkEventId 0 (callback ev) /\ x' = x \/
     i = MkEventId w (callback ev) /\ i ∉ m_mapEventsEntry x /\
     m_mapSubscribedEvents x' = insert_event w ev (m_mapSubscribedEvents x) /\ m_mapEventsEntry x' = i :: m_mapEventsEntry x).
Proof.
  intros Hok Hw Hcb Hord. pose proof Hok as [Hs Hk Ho Ht]. unfold SubscribeEventAt. destruct (existsb _ _) eqn:Ex.
  { exists (MkEventId 0 (callback ev)), x. split; [done|]. split; [done|]. by left. }
  set (i := MkEventId w (callback ev)) in *.
  assert (i ∉ m_mapEventsEntry x) as Hni.
  { intros Hin. apply Hk in Hin as (p&Hp&E). injection E as E1 E2. apply (find_from_elem w) in Hp; [|done|done].
    apply not_true_iff_false in Ex. apply Ex, existsb_exists. exists p. split; [by apply list_elem_of_In|]. by apply Z.eqb_eq. }
  assert (in_order i (m_mapEventsEntry x) = true) as ->.
  { apply in_order_true. intros a Ha. apply Hord; [by left|by right]. }
  rewrite bool_decide_false by done. eexists i, _. split; [done|]. split; [|by right].
  split; cbn [m_mapSubscribedEvents m_mapEventsEntry].
  - by apply insert_event_sorted.
  - intros k. rewrite elem_of_cons, Hk. setoid_rewrite insert_event_elem. split.
    + intros [->|(p&Hp&<-)]; [exists (w, ev); auto|exists p; auto].
    + intros (p&[->|Hp]&<-); [by left|right; eauto].
  - rewrite insert_event_map. constructor; [|done]. rewrite list_elem_of_In, in_map_iff. intros (p&E&Hp). apply Hni, Hk. exists p.
    split; [by apply list_elem_of_In|done].
  - apply list.Forall_forall. intros p [->|Hp]%insert_event_elem; [done|]. rewrite list.Forall_forall in Ht. auto.
Qed.

Lemma filter_map_ids (i : EventId) l : map id_of (filter (fun p => id_of p <> i) l) = filter (fun k => k <> i) (map id_of l).
Proof.
  induction l as [|p l IH]; [done|]. cbn [map]. rewrite !filter_cons. destruct (decide (id_of p <> i)); cbn [map]; by rewrite IH.
Qed.

(** The keys of a table without its first event. *)
Lemma keys_without_first p evs (keys : list EventId) :
  (forall k, k ∈ keys <-> exists q, q ∈ p :: evs /\ id_of q = k) -> id_of p ∉ map id_of evs ->
  forall k, k ∈ filter (fun k => k <> id_of p) keys <-> exists q, q ∈ evs /\ id_of q = k.
Proof.
  intros Hk Hni k. rewrite filter_elem, Hk. split.
  - intros (Hne&q&Hq&<-). apply elem_of_cons in Hq as [->|Hq]; [done|]. eauto.
  - intros (q&Hq&<-). split; [|exists q; split; [by right|done]]. intros E. apply Hni. rewrite <- E. by apply list_elem_of_In, in_map, list_elem_of_In.
Qed.

Lemma sorted_filter (P : Z * Event -> Prop) `{!forall p, Decision (P p)} l : sorted l -> sorted (filter P l).
Proof.
  induction 1 as [|q l Hs IH Hq]; [constructor|]. rewrite filter_cons. destruct (decide (P q)); [|done]. constructor; [done|].
  apply list.Forall_forall. intros p' [_ Hp]%list_elem_of_filter. rewrite list.Forall_forall in Hq. auto.
Qed.

Lemma unsubscribe_ok i x : ok x -> ordered_ids (i :: m_mapEventsEntry x) ->
  exists b x', UnsubscribeEvent i x = Some (b, x') /\ ok x' /\ (forall p, p ∈ m_mapSubscribedEvents x' -> p ∈ m_mapSubscribedEvents x) /\
    (forall k, k ∈ m_mapEventsEntry x' -> k ∈ m_mapEventsEntry x) /\ i ∉ m_mapEventsEntry x'.
Proof.
  intros Hok Hord. pose proof Hok as [Hs Hk Ho Ht]. unfold UnsubscribeEvent. destruct ((when i =? 0) || (how i =? 0)) eqn:E0.
  { exists false, x. repeat (split; [done|]). intros Hin. apply Hk in Hin as (p&Hp&<-). rewrite list.Forall_forall in Ht.
    destruct (Ht p Hp). cbn in E0. apply orb_true_iff in E0. rewrite !Z.eqb_eq in E0. tauto. }
  assert (in_order i (m_mapEventsEntry x) = true) as ->.
  { apply in_order_true. intros a Ha. apply Hord; [by left|by right]. }
  case_bool_decide as Hin; [|by exists false, x]. eexists true, _. split; [done|]. cbn [m_mapSubscribedEvents m_mapEventsEntry].
  split; [split; cbn [m_mapSubscribedEvents m_mapEventsEntry]|split; [|split]].
  - by apply sorted_filter.
  - intros k. rewrite filter_elem, Hk. setoid_rewrite list_elem_of_filter. split; [intros (?&p&?&<-); eauto|]. intros (p&(?&?)&<-). eauto.
  - rewrite filter_map_ids. by apply list.NoDup_filter.
  - apply list.Forall_forall. intros p [_ Hp]%list_elem_of_filter. rewrite list.Forall_forall in Ht. auto.
  - by intros p [_ Hp]%list_elem_of_filter.
  - by intros k [_ Hx]%filter_elem.
  - by rewrite filter_elem; intros [? _].
Qed.

Lemma erase_first_ok x p evs : ok x -> ordered_ids (m_mapEventsEntry x) -> m_mapSubscribedEvents x = p :: evs ->
  exists x', erase_first x = Some x' /\ ok x' /\ m_mapSubscribedEvents x' = evs.
Proof.
  intros [Hs Hk Ho Ht] Hord E. unfold erase_first. rewrite E in *. cbn [map] in Ho. apply list.NoDup_cons in Ho as [Hni Ho].
  inversion Hs as [|? ? Hs' _]; subst. inversion Ht; subst.
  assert (id_of p ∈ m_mapEventsEntry x) as Hin by (apply Hk; exists p; split; [by left|done]).
  assert (in_order (id_of p) (m_mapEventsEntry x) = true) as -> by (apply in_order_true; intros a Ha; by apply Hord).
  eexists. split; [done|]. split; [|done]. split; [done| |done|done]. cbn [m_mapSubscribedEvents m_mapEventsEntry]. by apply keys_without_first.
Qed.

(** ** The thread *)

Lemma run_due_spec now evs : forall keys,
  sorted evs -> NoDup (map id_of evs) -> (forall k, k ∈ keys <-> exists p, p ∈ evs /\ id_of p = k) -> ordered_ids keys ->
  exists ran rest keys', run_due now evs keys = Some (ran, rest, keys') /\ evs = ran ++ rest /\
    Forall (fun p => p.1 <= now) ran /\ Forall (fun p => now < p.1) rest /\
    (forall k, k ∈ keys' <-> exists p, p ∈ rest /\ id_of p = k).
Proof.
  induction evs as [|p evs IH]; intros keys Hs Hnd Hk Hord; cbn [run_due].
  { exists [], [], keys. repeat (split; [done || constructor|]). done. }
  inversion Hs as [|? ? Hs' Hp]; subst. cbn [map] in Hnd. apply list.NoDup_cons in Hnd as [Hni Hnd].
  destruct (Z.ltb_spec now p.1) as [Hlt|Hle].
  { exists [], (p :: evs), keys. split; [done|]. split; [done|]. split; [constructor|]. split; [|done]. constructor; [done|].
    eapply (list.Forall_impl _ _ _ Hp). intros q Hq. cbn in Hq. lia. }
  assert (id_of p ∈ keys) as Hin by (apply Hk; exists p; split; [by left|done]).
  assert (in_order (id_of p) keys = true) as -> by (apply in_order_true; intros x Hx; by apply Hord).
  destruct (IH (filter (fun k => k <> id_of p) keys)) as (ran&rest&keys'&->&->&Hr&Hl&Hk'); [done|done| | |].
  - by apply keys_without_first.
  - intros a b [_ Ha]%filter_elem [_ Hb]%filter_elem. by apply Hord.
  - exists (p :: ran), rest, keys'. split; [done|]. split; [done|]. split; [by constructor|]. done.
Qed.

(** A round of the timer's thread runs exactly the events that are
    due, in the order of their times, and forgets them in both tables; what stays is
    later than now, and the thread goes on to wait until the first of it. *)
Theorem timer_runs_due (now : Z) (x : t) (Hok : ok x) (Hord : ordered_ids (m_mapEventsEntry x))
    (Hrun : m_pWorkThread x = Working) (Hstop : m_stop x = false) :
  exists ran x', process_round now x = Some (ran, x') /\ m_mapSubscribedEvents x = ran ++ m_mapSubscribedEvents x' /\
    Forall (fun p => p.1 <= now) ran /\ Forall (fun p => now < p.1) (m_mapSubscribedEvents x') /\ sorted ran /\ ok x' /\
    m_pWorkThread x' = AboutToWait (fst <$> head (m_mapSubscribedEvents x')).
Proof.
  destruct Hok as [Hs Hk Ho Ht]. unfold process_round. rewrite Hrun, Hstop.
  destruct (run_due_spec now (m_mapSubscribedEvents x) (m_mapEventsEntry x) Hs Ho Hk Hord) as (ran&rest&keys&->&E&Hr&Hl&Hk').
  cbn [mbind option_bind]. eexists ran, _. split; [done|]. cbn [m_mapSubscribedEvents m_pWorkThread].
  unfold sorted in Hs. rewrite E in Hs, Ho, Ht. apply StronglySorted_app in Hs as (_&Hs1&Hs2). apply Forall_app in Ht as [_ Ht].
  rewrite map_app in Ho. apply list.NoDup_app in Ho as (_&_&Ho). repeat (split; [done|]). done.
Qed.

Definition demo_timer : t := Make false [(5, MkEvent 0 1); (5, MkEvent 0 2); (9, MkEvent 0 2)] [MkEventId 5 1; MkEventId 9 2; MkEventId 5 2] Working.

Lemma timer_runs_due_witness :
  exists ran x', process_round 7 demo_timer = Some (ran, x') /\ m_mapSubscribedEvents demo_timer = ran ++ m_mapSubscribedEvents x' /\
    Forall (fun p => p.1 <= 7) ran /\ Forall (fun p => 7 < p.1) (m_mapSubscribedEvents x') /\ sorted ran /\ ok x' /\
    m_pWorkThread x' = AboutToWait (fst <$> head (m_mapSubscribedEvents x')).
Proof.
  apply (timer_runs_due 7 demo_timer).
  - split; cbn.
    + repeat (constructor; [|repeat constructor; cbn; lia]). constructor.
    + intros k. rewrite !elem_of_cons, elem_of_nil. split.
      * intros [->|[->|[->|[]]]]; [exists (5, MkEvent 0 1)|exists (9, MkEvent 0 2)|exists (5, MkEvent 0 2)]; rewrite !elem_of_cons; tauto.
      * intros (p&Hp&<-). rewrite !elem_of_cons, elem_of_nil in Hp. destruct Hp as [->|[->|[->|[]]]]; cbn; tauto.
    + repeat constructor; rewrite ?elem_of_cons, ?elem_of_nil; intuition discriminate.
    + repeat constructor; cbn; lia.
  - intros a b Ha Hb. cbn in Ha, Hb. rewrite !elem_of_cons, elem_of_nil in Ha, Hb.
    destruct Ha as [->|[->|[->|[]]]], Hb as [->|[->|[->|[]]]]; vm_compute; intuition discriminate.
  - reflexivity.
  - reflexivity.
Defined.

(** ** What goes wrong *)

(** An event at a later time with a smaller callback address: the two ids are less than
    each other, and the table is not a map any more. *)
Theorem ids_are_not_ordered :
  SubscribeEventAt 9 (MkEvent 0 1) (Make false [(5, MkEvent 0 2)] [MkEventId 5 2] (Waiting (Some 5))) = None.
Proof. reflexivity. Qed.

(** The event is subscribed after the thread has seen the empty table and before it
    waits: the notification reaches nobody, and the thread waits without end beside an
    event that is due. *)
Theorem timer_loses_wakeup :
  let x := Start new in
  let x := from_option snd x (process_round 0 x) in
  let x := from_option snd x (SubscribeEventAt 5 (MkEvent 0 1) x) in
  let x := process_wait x in
  m_pWorkThread (process_awake 100 x) = Waiting None /\ m_mapSubscribedEvents x = [(5, MkEvent 0 1)].
Proof. done. Qed.
End Timer.
