(* ===== verification/RpcClient.v ===== *)
(** * Remote procedure calls: the client (src/rpc/abstract-rpc-client,
    abstract-rpc-sync-client, src/client/rpc)

    A call sends its request, registers a context under the id of the request, subscribes
    a timer event and sleeps until the context is completed: by the response, by the
    end of the connection or by the timer.  The contexts are objects of a heap: the two
    tables and the caller share them.

    [recvMessage] is cut where it gives up its locks: [recv_register], [recv_arm] and
    [recv_resume] are its critical sections; [recv_resume] answers [None] while the
    caller has to go on waiting.  [on_timer] is what the timer thread does with the next
    event.  Threads interleave between them.

    The callback the client gives the timer is one [static] object of [recvMessage], at
    the address [S_CB]; [s_cb] is the id this object has captured. *)

From stdpp Require Import countable.
From S2P Require Import Prelude Codec Buffer Posix Entries KvEntries KvMap Wal Checkpoint MiniKV Net Rpc Timer.

#[global] Instance SocketProtocol_countable : Countable SocketProtocol.
Proof.
  refine (inj_countable' (fun p => match p with NoProtocol => 0 | Tcp => 1 | Udp => 2 end)
    (fun n => match n with 0 => NoProtocol | 1 => Tcp | _ => Udp end) _). by intros [].
Defined.
#[global] Instance net_peer_info_countable : Countable net_peer_info.
Proof.
  refine (inj_countable' (fun p => (np_addr p, np_port p, np_sp p)) (fun t => MkPeer t.1.1 t.1.2 t.2) _). by intros [].
Defined.

(** ** common/resource-pool.h

    The pool of context objects, named by their addresses. *)
Module ResourcePool.
Record t := Make { m_iMaxResCnt : Z; m_iCurResCnt : Z; m_freeRes : list Z }.

(** [Some None] is a new object; [begin()] of an empty list is dereferenced otherwise. *)
Definition Get (p : t) : option (option Z * t) :=
  if 0 =? m_iCurResCnt p then Some (None, p)
  else match m_freeRes p with
       | [] => None
       | r :: rs => Some (Some r, Make (m_iMaxResCnt p) (m_iCurResCnt p) rs)
       end.

(** Whether the object is kept, after [Release()], or deleted. *)
Definition Put (r : Z) (p : t) : bool * t :=
  if m_iCurResCnt p <? m_iMaxResCnt p then (true, Make (m_iMaxResCnt p) (m_iCurResCnt p) (m_freeRes p ++ [r]))
  else (false, p).

Definition Count (p : t) : Z := m_iCurResCnt p.
Definition Empty (p : t) : bool := 0 =? m_iCurResCnt p.
(** [~ResourcePool()]: the objects it deletes. *)
Definition destroy (p : t) : list Z := if 0 =? m_iCurResCnt p then [] else m_freeRes p.
End ResourcePool.

(** ** rpc/exceptions.h *)

Inductive rpc_exn :=
  | BadRpcException (code : Z) (rpcName : string)
  | BadRpcHandlerIdException (code handlerId : Z)
  | RpcClientInternalException
  | RpcClientSendTimeoutException
  | RpcBrokenPipeException
  | RpcMessageCorruptException (handlerId : Z)
  | RpcServerInternalException
  | RpcClientIsBusyException.

(** ** The client *)

Inductive CtxState := CtxOk | Timeout | BrokenPipe.

Record RpcCtx := MkCtx {
  cx_peer : net_peer_info;
  cx_msgId : Z;
  cx_complete : bool;
  cx_state : CtxState;
  cx_timer_ev : Timer.EventId;
  cx_nm : option NotifyMessage
}.
(** [new RpcCtx()] *)
Definition RpcCtx_default : RpcCtx := MkCtx net_peer_info_default 0 false CtxOk (Timer.MkEventId 0 0) None.

Record SentRet := MkSent { sr_peer : net_peer_info; sr_handlerId : Z; sr_msgId : Z }.
Definition SentRet_default : SentRet := MkSent net_peer_info_default 0 0.

Record client := MkClient {
  m_bStopped : bool;
  m_bRegistered : bool;
  m_hmapRpcs : gmap string Z;
  ctxs : gmap Z RpcCtx;
  next_ctx : Z;
  m_rpcCtxPool : ResourcePool.t;
  m_hmapRpcCtxs : gmap Z Z;
  m_hmapPeerRpcs : gmap net_peer_info (gset Z);
  s_cb : option Z;
  timer : Timer.t
}.

Definition set_stopped b (o : client) : client :=
  MkClient b (m_bRegistered o) (m_hmapRpcs o) (ctxs o) (next_ctx o) (m_rpcCtxPool o) (m_hmapRpcCtxs o) (m_hmapPeerRpcs o) (s_cb o) (timer o).
Definition set_registered b (o : client) : client :=
  MkClient (m_bStopped o) b (m_hmapRpcs o) (ctxs o) (next_ctx o) (m_rpcCtxPool o) (m_hmapRpcCtxs o) (m_hmapPeerRpcs o) (s_cb o) (timer o).
Definition set_rpcs x (o : client) : client :=
  MkClient (m_bStopped o) (m_bRegistered o) x (ctxs o) (next_ctx o) (m_rpcCtxPool o) (m_hmapRpcCtxs o) (m_hmapPeerRpcs o) (s_cb o) (timer o).
Definition set_ctx rc cx (o : client) : client :=
  MkClient (m_bStopped o) (m_bRegistered o) (m_hmapRpcs o) (<[rc := cx]> (ctxs o)) (next_ctx o) (m_rpcCtxPool o) (m_hmapRpcCtxs o)
    (m_hmapPeerRpcs o) (s_cb o) (timer o).
Definition set_next x (o : client) : client :=
  MkClient (m_bStopped o) (m_bRegistered o) (m_hmapRpcs o) (ctxs o) x (m_rpcCtxPool o) (m_hmapRpcCtxs o) (m_hmapPeerRpcs o) (s_cb o) (timer o).
Definition set_ctxPool x (o : client) : client :=
  MkClient (m_bStopped o) (m_bRegistered o) (m_hmapRpcs o) (ctxs o) (next_ctx o) x (m_hmapRpcCtxs o) (m_hmapPeerRpcs o) (s_cb o) (timer o).
Definition set_tables x y (o : client) : client :=
  MkClient (m_bStopped o) (m_bRegistered o) (m_hmapRpcs o) (ctxs o) (next_ctx o) (m_rpcCtxPool o) x y (s_cb o) (timer o).
Definition set_cb x (o : client) : client :=
  MkClient (m_bStopped o) (m_bRegistered o) (m_hmapRpcs o) (ctxs o) (next_ctx o) (m_rpcCtxPool o) (m_hmapRpcCtxs o) (m_hmapPeerRpcs o) x (timer o).
Definition set_timer x (o : client) : client :=
  MkClient (m_bStopped o) (m_bRegistered o) (m_hmapRpcs o) (ctxs o) (next_ctx o) (m_rpcCtxPool o) (m_hmapRpcCtxs o) (m_hmapPeerRpcs o) (s_cb o) x.

(** The constructors; [g_pTimer] has been started. *)
Definition client_new : client :=
  MkClient true false ∅ ∅ 1 (ResourcePool.Make 200 0 []) ∅ ∅ None (Timer.Start Timer.new).

Section client.
Context `{PbMessage} (host : byte_order) {N : Type} `{ISocketService N}.
Abbreviation CM := (M (client * N)).

(** *** ARpcClient *)

Definition registerRpc (rpcName : string) (id : Z) : CM bool :=
  registered ← getO m_bRegistered;
  if registered : bool then mret false
  else modO (fun o => set_rpcs (<[rpcName := id]> (m_hmapRpcs o)) o);; mret true.
Definition finishRegisterRpc : CM unit := modO (set_registered true).

(** *** KVRpcClientSync *)

Definition register_rpc_handlers : CM bool :=
  r ← registerRpc RpcPut PUT_RPC_ID;
  if negb r then mret false else
  r ← registerRpc RpcGet GET_RPC_ID;
  if negb r then mret false else
  r ← registerRpc RpcDelete DELETE_RPC_ID;
  if negb r then mret false else
  r ← registerRpc RpcScan SCAN_RPC_ID;
  if negb r then mret false else
  finishRegisterRpc;; mret true.
Definition onStart : CM bool := register_rpc_handlers.
Definition onStop : CM bool := mret true.

(** *** ARpcClient: Start, Stop, SendMessageAsync *)

Definition Start : CM bool :=
  stopped ← getO m_bStopped;
  if negb stopped then mret true
  else
    ok ← onStart;
    if negb ok then mret false
    else
      registered ← getO m_bRegistered;
      if negb registered then mret false
      else modO (set_stopped false);; mret true.

Definition Stop : CM bool :=
  stopped ← getO m_bStopped;
  if stopped : bool then mret true
  else
    ok ← onStop;
    if negb ok then mret false else modO (set_stopped true);; mret true.

Definition SendMessageAsync (rpcName : string) (msg : option pb_msg) (peer : net_peer_info) : CM (rpc_exn + SentRet) :=
  h ← getO (fun o => m_hmapRpcs o !! rpcName);
  match h with
  | None => mret (inl (BadRpcException (rpc_code ErrorNoRegisteredRpc) rpcName))
  | Some handlerId =>
      id ← io ss_GetNewId;
      ok ← io (ss_SendMessage (MkSnd id peer (RpcRequest host handlerId msg)));
      if negb ok then mret (inr SentRet_default) else mret (inr (MkSent peer handlerId id))
  end.

(** The same with an id of the caller's. *)
Definition SendMessageAsync_id (rpcName : string) (id : Z) (msg : option pb_msg) (peer : net_peer_info) : CM (rpc_exn + SentRet) :=
  h ← getO (fun o => m_hmapRpcs o !! rpcName);
  match h with
  | None => mret (inl (BadRpcException (rpc_code ErrorNoRegisteredRpc) rpcName))
  | Some handlerId =>
      ok ← io (ss_SendMessage (MkSnd id peer (RpcRequest host handlerId msg)));
      if negb ok then mret (inr SentRet_default) else mret (inr (MkSent peer handlerId id))
  end.

(** *** ARpcSyncClient *)

Definition ctx (rc : Z) : CM RpcCtx := c ← getO (fun o => ctxs o !! rc); of_mem c.
Definition upd_ctx (rc : Z) (f : RpcCtx -> RpcCtx) : CM unit := c ← ctx rc; modO (set_ctx rc (f c)).

(** [m_rpcCtxPool.Get()] and [Put(rc)]; [Release] resets the message. *)
Definition pool_Get : CM Z :=
  p ← getO m_rpcCtxPool;
  '(r, p') ← of_mem (ResourcePool.Get p);
  modO (set_ctxPool p');;
  match r with
  | Some rc => mret rc
  | None => rc ← getO next_ctx; modO (set_next (rc + 1));; modO (set_ctx rc RpcCtx_default);; mret rc
  end.
Definition release_ctx (c : RpcCtx) : RpcCtx := MkCtx (cx_peer c) (cx_msgId c) (cx_complete c) (cx_state c) (cx_timer_ev c) None.
Definition pool_Put (rc : Z) : CM unit :=
  p ← getO m_rpcCtxPool;
  let '(keep, p') := ResourcePool.Put rc p in
  modO (set_ctxPool p');;
  if keep : bool then upd_ctx rc release_ctx
  else modO (fun o => MkClient (m_bStopped o) (m_bRegistered o) (m_hmapRpcs o) (delete rc (ctxs o)) (next_ctx o) (m_rpcCtxPool o)
         (m_hmapRpcCtxs o) (m_hmapPeerRpcs o) (s_cb o) (timer o)).

(** [sendMessage] up to [recvMessage]: the context, or null when the message was not
    accepted. *)
Definition make_ctx (sr : rpc_exn + SentRet) : CM (rpc_exn + option Z) :=
  match sr with
  | inl e => mret (inl e)
  | inr sr =>
      if 0 =? sr_msgId sr then mret (inr None)
      else
        rc ← pool_Get;
        upd_ctx rc (fun c => MkCtx (sr_peer sr) (sr_msgId sr) (cx_complete c) (cx_state c) (cx_timer_ev c) (cx_nm c));;
        mret (inr (Some rc))
  end.
Definition sendMessage (rpcName : string) (msg : option pb_msg) (peer : net_peer_info) : CM (rpc_exn + option Z) :=
  sr ← SendMessageAsync rpcName msg peer; make_ctx sr.
Definition sendMessage_id (rpcName : string) (id : Z) (msg : option pb_msg) (peer : net_peer_info) : CM (rpc_exn + option Z) :=
  sr ← SendMessageAsync_id rpcName id msg peer; make_ctx sr.

Definition recv_register (rc : Z) : CM unit :=
  c ← ctx rc;
  let id := cx_msgId c in
  modO (fun o => set_tables (<[id := rc]> (m_hmapRpcCtxs o))
    (<[cx_peer c := from_option (union {[rc]}) {[rc]} (m_hmapPeerRpcs o !! cx_peer c)]> (m_hmapPeerRpcs o)) o);;
  modO (fun o => set_cb (match s_cb o with Some i => Some i | None => Some id end) o).

(** [g_pTimer->SubscribeEventAfter(m_timeout, ev)] for the time [when], and
    [UnsubscribeEvent]. *)
Definition S_CB : Z := 1.
Definition subscribe (when : Z) : CM Timer.EventId :=
  t ← getO timer;
  '(ev, t') ← of_mem (Timer.SubscribeEventAt when (Timer.MkEvent 0 S_CB) t);
  modO (set_timer t');; mret ev.
Definition unsubscribe (ev : Timer.EventId) : CM unit :=
  t ← getO timer;
  '(_, t') ← of_mem (Timer.UnsubscribeEvent ev t);
  modO (set_timer t').

Definition recv_arm (rc when : Z) : CM (rpc_exn + unit) :=
  eventId ← subscribe when;
  if 0 =? Timer.when eventId then mret (inl RpcClientInternalException)
  else
    upd_ctx rc (fun c => MkCtx (cx_peer c) (cx_msgId c) (cx_complete c) (cx_state c) eventId (cx_nm c));;
    mret (inr tt).

(** [m_hmapPeerRpcs[peer].erase(rc)], and the entry when the set is empty. *)
Definition erase_peer (peer : net_peer_info) (rc : Z) (t : gmap net_peer_info (gset Z)) : gmap net_peer_info (gset Z) :=
  let s := from_option (fun s => s ∖ {[rc]}) ∅ (t !! peer) in
  if bool_decide (s = ∅) then delete peer t else <[peer := s]> t.
Definition erase_ctx (id rc : Z) (c : RpcCtx) (o : client) : client :=
  set_tables (delete id (m_hmapRpcCtxs o)) (erase_peer (cx_peer c) rc (m_hmapPeerRpcs o)) o.

Definition complete_with (st : CtxState) (nm : option NotifyMessage) (c : RpcCtx) : RpcCtx :=
  MkCtx (cx_peer c) (cx_msgId c) true st (cx_timer_ev c) nm.

(** The loop over the contexts of a broken peer: the notification is moved into the
    first. *)
Fixpoint break_ctxs (rcs : list Z) (nm : option NotifyMessage) : CM unit :=
  match rcs with
  | [] => mret tt
  | rc :: rcs =>
      c ← ctx rc;
      modO (fun o => set_tables (delete (cx_msgId c) (m_hmapRpcCtxs o)) (m_hmapPeerRpcs o) o);;
      unsubscribe (cx_timer_ev c);;
      upd_ctx rc (complete_with BrokenPipe nm);;
      break_ctxs rcs None
  end.

Definition onRecvMessage (sspNM : NotifyMessage) : CM unit :=
  match sspNM with
  | MessageNotifyMessage rm =>
      let id := h_id (rm_header rm) in
      r ← getO (fun o => m_hmapRpcCtxs o !! id);
      match r with
      | None => mret tt
      | Some rc =>
          c ← ctx rc;
          unsubscribe (cx_timer_ev c);;
          modO (erase_ctx id rc c);;
          upd_ctx rc (fun c => complete_with (cx_state c) (Some sspNM) c)
      end
  | WorkerNotifyMessage _ peer _ =>
      r ← getO (fun o => m_hmapPeerRpcs o !! peer);
      match r with
      | None => mret tt
      | Some rcs =>
          break_ctxs (elements rcs) (Some sspNM);;
          modO (fun o => set_tables (m_hmapRpcCtxs o) (delete peer (m_hmapPeerRpcs o)) o)
      end
  | ServerNotifyMessage _ _ => halt Aborted
  end.

(** [ARpcClient::HandleMessage] *)
Definition HandleMessage (sspNM : NotifyMessage) : CM unit := onRecvMessage sspNM.

(** The callback. *)
Definition on_timeout (id : Z) : CM unit :=
  r ← getO (fun o => m_hmapRpcCtxs o !! id);
  match r with
  | None => mret tt
  | Some rc =>
      c ← ctx rc;
      modO (erase_ctx id rc c);;
      upd_ctx rc (fun c => complete_with Timeout (cx_nm c) c)
  end.

(** The timer thread runs the callback of the first event, then erases the event. *)
Definition on_timer : CM unit :=
  t ← getO timer;
  match Timer.m_mapSubscribedEvents t with
  | [] => mret tt
  | _ =>
      cb ← getO s_cb;
      id ← of_mem cb;
      on_timeout id;;
      t ← getO timer;
      t' ← of_mem (Timer.erase_first t);
      modO (set_timer t')
  end.

(** What is left of [recvMessage] when the caller is awake: [None] to sleep again. *)
Definition recv_resume (rc : Z) : CM (option (rpc_exn + RcvMessage)) :=
  c ← ctx rc;
  if negb (cx_complete c) then mret None
  else
    match cx_state c with
    | Timeout => pool_Put rc;; mret (Some (inl RpcClientSendTimeoutException))
    | BrokenPipe => pool_Put rc;; mret (Some (inl RpcBrokenPipeException))
    | CtxOk =>
        pool_Put rc;;
        match cx_nm c with
        | Some (MessageNotifyMessage rm) =>
            let buffer := rm_buffer rm in
            serverCode ← of_mem (db_load (ByteOrderUtils.ReadUInt16 host) 0 buffer);
            let buffer := db_op (MoveHeadBack 2) buffer in
            handlerId ← of_mem (db_load (ByteOrderUtils.ReadUInt16 host) 0 buffer);
            mret (Some
              (if serverCode =? rpc_code ErrorNoHandler then inl (BadRpcHandlerIdException serverCode handlerId)
               else if serverCode =? rpc_code ErrorMsg then inl (RpcMessageCorruptException handlerId)
               else if serverCode =? rpc_code ErrorInternal then inl RpcServerInternalException
               else inr (MkRcv (rm_mpo rm) (rm_peer rm) (rm_header rm) buffer)))
        | _ => halt Undefined
        end
    end.

(** *** The calls of KVRpcClientSync

    [ImplStandardSyncRpcWithNoMsgId] on both sides of the wait.  The result of
    [Deserialize] is ignored: [None] is a response that could not be parsed, whose
    content is returned as far as it was. *)
Definition rpc_begin (rpcName : string) (req : pb_msg) (peer : net_peer_info) : CM (rpc_exn + Z) :=
  r ← sendMessage rpcName (Some req) peer;
  mret (match r with inl e => inl e | inr None => inl RpcClientIsBusyException | inr (Some rc) => inr rc end).

Definition rpc_result (t : pb_type) (rm : RcvMessage) : option pb_msg :=
  ProtoBufUtils.Deserialize (db_op (MoveHeadBack 2) (rm_buffer rm)) t.
Definition rpc_end (t : pb_type) (rc : Z) : CM (option (rpc_exn + option pb_msg)) :=
  r ← recv_resume rc;
  mret (match r with
        | None => None
        | Some (inl e) => Some (inl e)
        | Some (inr rm) => Some (inr (rpc_result t rm))
        end).
End client.
