(* ===== verification/RpcCalls.v ===== *)
(** * Calls in flight

    The threads of a client, the network and the timer as a step relation; what is true
    of the contexts and the two tables in every reachable state; and that a call that is
    completed stays completed with the same outcome until its caller takes it. *)

From S2P Require Import Prelude Codec Buffer Posix Entries KvEntries KvMap Wal Checkpoint MiniKV Net NetRecv Rpc RpcServe Timer RpcClient.

(** What the client relies on in the ids: they count up; other messages of the process
    may take ids too. *)
Class ISocketIdLaws (N : Type) `{ISocketService N} := {
  ss_last : N -> Z;
  ss_new_law : forall n, 0 <= ss_last n < 18446744073709551614 ->
    wp ss_GetNewId n (fun id n' => id = ss_last n + 1 /\ ss_last n' = id);
  ss_send_last : forall m n r n', ss_SendMessage m n = (Ok r, n') -> ss_last n <= ss_last n'
}.

(** How far the caller of a context is. *)
Inductive phase := Sent | Registered | Armed | Abandoned.

Section calls.
Context `{PbMessage} (host : byte_order) {N : Type} `{!ISocketService N, !ISocketIdLaws N}.

(** The calls under way and the notifications that have arrived, beside the client. *)
Record sys := MkSys { y_calls : gmap Z phase; y_got : list NotifyMessage; y_state : client * N }.

Inductive step : sys -> sys -> Prop :=
  | st_send ps got s name msg peer rc s' :
      0 <= ss_last s.2 < 18446744073709551614 -> sendMessage host name msg peer s = (Ok (inr (Some rc)), s') ->
      step (MkSys ps got s) (MkSys (<[rc := Sent]> ps) got s')
  | st_register ps got s rc s' :
      ps !! rc = Some Sent -> recv_register rc s = (Ok tt, s') ->
      step (MkSys ps got s) (MkSys (<[rc := Registered]> ps) got s')
  | st_arm ps got s rc when s' :
      ps !! rc = Some Registered -> 0 < when -> recv_arm rc when s = (Ok (inr tt), s') ->
      step (MkSys ps got s) (MkSys (<[rc := Armed]> ps) got s')
  | st_arm_fail ps got s rc when e s' :
      ps !! rc = Some Registered -> 0 < when -> recv_arm rc when s = (Ok (inl e), s') ->
      step (MkSys ps got s) (MkSys (<[rc := Abandoned]> ps) got s')
  | st_recv ps got s nm s' :
      onRecvMessage nm s = (Ok tt, s') -> step (MkSys ps got s) (MkSys ps (got ++ [nm]) s')
  | st_timer ps got s s' :
      on_timer s = (Ok tt, s') -> step (MkSys ps got s) (MkSys ps got s')
  | st_resume ps got s rc r s' :
      ps !! rc = Some Armed -> recv_resume host rc s = (Ok (Some r), s') ->
      step (MkSys ps got s) (MkSys (delete rc ps) got s').

(** A client that was started, before its first call. *)
Definition fresh_client (o : client) : Prop :=
  exists rpcs, o = set_stopped false (set_registered true (set_rpcs rpcs client_new)).
Definition reachable (y : sys) : Prop :=
  exists o n, fresh_client o /\ 0 <= ss_last n /\ rtc step (MkSys ∅ [] (o, n)) y.

(** ** The invariant *)

(** The table has the context under its id. *)
Definition pending (o : client) (rc : Z) (p : net_peer_info) : Prop :=
  exists cx, ctxs o !! rc = Some cx /\ cx_peer cx = p /\ m_hmapRpcCtxs o !! cx_msgId cx = Some rc.

(** The outcome of a completed call. *)
Definition outcome_ok (got : list NotifyMessage) (cx : RpcCtx) : Prop :=
  cx_state cx = CtxOk -> exists rm, cx_nm cx = Some (MessageNotifyMessage rm) /\ h_id (rm_header rm) = cx_msgId cx /\ MessageNotifyMessage rm ∈ got.

Definition call_state (got : list NotifyMessage) (o : client) (rc : Z) (ph : phase) : Prop :=
  exists cx, ctxs o !! rc = Some cx /\
    match ph with
    | Sent => cx_complete cx = false /\ cx_state cx = CtxOk /\ m_hmapRpcCtxs o !! cx_msgId cx = None
    | _ => if cx_complete cx then outcome_ok got cx else cx_state cx = CtxOk /\ m_hmapRpcCtxs o !! cx_msgId cx = Some rc
    end.

(** Ids of the client's own: the default, and those it was given. *)
Definition own_id (i : Timer.EventId) : Prop := Timer.how i = S_CB \/ i = Timer.MkEventId 0 0.

(** The timer has only events of the client's callback. *)
Definition timer_ok (t : Timer.t) : Prop :=
  Timer.ok t /\ forall p, p ∈ Timer.m_mapSubscribedEvents t -> Timer.callback p.2 = S_CB.
Definition no_events (o : client) : Prop := Timer.m_mapSubscribedEvents (timer o) = [].

Record linked (ps : gmap Z phase) (got : list NotifyMessage) (o : client) (last : Z) : Prop := {
  lk_pool : ResourcePool.m_iCurResCnt (m_rpcCtxPool o) = 0 /\ 0 < ResourcePool.m_iMaxResCnt (m_rpcCtxPool o);
  lk_ctx : forall rc cx, ctxs o !! rc = Some cx -> rc < next_ctx o /\ 0 < cx_msgId cx <= last;
  lk_uniq : forall a b x y, ctxs o !! a = Some x -> ctxs o !! b = Some y -> cx_msgId x = cx_msgId y -> a = b;
  lk_ids : forall id rc, m_hmapRpcCtxs o !! id = Some rc ->
    exists cx, ctxs o !! rc = Some cx /\ cx_msgId cx = id /\ cx_complete cx = false /\ cx_state cx = CtxOk;
  lk_calls : forall rc ph, ps !! rc = Some ph -> call_state got o rc ph;
  lk_timer : timer_ok (timer o);
  lk_own : forall rc cx, ctxs o !! rc = Some cx -> own_id (cx_timer_ev cx);
  lk_cb : s_cb o = None -> no_events o /\ forall rc ph, ps !! rc = Some ph -> ph = Sent
}.

Definition peers_ok (o : client) : Prop :=
  forall p, match m_hmapPeerRpcs o !! p with
  | Some rcs => rcs <> ∅ /\ forall rc, rc ∈ rcs <-> pending o rc p
  | None => forall rc, ~ pending o rc p
  end.

(** The contexts of two states are the same, with ids and peers, but one may be
    completed. *)
Definition only_done (l : list Z) (o o' : client) : Prop := forall rc p, pending o' rc p <-> pending o rc p /\ rc ∉ l.

Lemma finish_linked ps got o last id rc cx st nm t :
  linked ps got o last -> m_hmapRpcCtxs o !! id = Some rc -> ctxs o !! rc = Some cx ->
  outcome_ok got (complete_with st nm cx) ->
  let o' := set_ctx rc (complete_with st nm cx) (set_tables (delete id (m_hmapRpcCtxs o)) t o) in
  linked ps got o' last /\ only_done [rc] o o'.
Proof.
  intros [Hp Hc Hu Hi Hk Htm Hown Hcb] Hid Hrc Hok o'. destruct (Hi _ _ Hid) as (cx'&Hrc'&Hmid&Hcmp&Hst).
  rewrite Hrc in Hrc'. injection Hrc' as <-.
  assert (forall a x, ctxs o' !! a = Some x -> exists x0, ctxs o !! a = Some x0 /\ cx_msgId x = cx_msgId x0 /\ cx_peer x = cx_peer x0 /\
    cx_timer_ev x = cx_timer_ev x0) as Hback.
  { intros a x. cbn. destruct (decide (a = rc)) as [->|Hne]; [rewrite lookup_insert|rewrite lookup_insert_ne by done].
    - rewrite decide_True by done. intros [= <-]. exists cx. by rewrite Hrc.
    - intros E. by exists x. }
  split; [split|].
  - done.
  - intros a x (x0&E&->&_)%Hback. by apply Hc.
  - intros a b x y (x0&Ea&->&_)%Hback (y0&Eb&->&_)%Hback. by apply Hu.
  - intros i a. cbn. rewrite lookup_delete_Some. intros [Hne Ha]. destruct (Hi _ _ Ha) as (x&Ex&Em&Ec&Es).
    exists x. rewrite lookup_insert_ne; [done|]. intros ->. rewrite Hrc in Ex. injection Ex as <-. congruence.
  - intros a ph Ha. destruct (Hk _ _ Ha) as (x&Ex&Hx). destruct (decide (a = rc)) as [->|Hne].
    + rewrite Hrc in Ex. injection Ex as <-. exists (complete_with st nm cx). cbn. rewrite lookup_insert, decide_True by done. split; [done|].
      destruct ph; [|exact Hok..]. destruct Hx as (_&_&Hx). rewrite Hmid, Hid in Hx. done.
    + exists x. cbn. rewrite lookup_insert_ne by done. split; [done|].
      assert (cx_msgId x <> id) as Hnid by (intros E; apply Hne; eapply Hu; [exact Ex|exact Hrc|congruence]).
      by rewrite lookup_delete_ne by done.
  - done.
  - intros a x (x0&E&_&_&->)%Hback. by eapply Hown.
  - done.
  - intros a p. unfold pending. split.
    + intros (x&Hx&<-&Ht). destruct (Hback _ _ Hx) as (x0&E&Em&Ep&Heq). cbn in Ht. rewrite lookup_delete_Some in Ht. destruct Ht as [Hne Ht].
      split; [exists x0; rewrite <- Em; by repeat split|]. rewrite list_elem_of_singleton. intros ->. rewrite Hrc in E. injection E as <-. congruence.
    + intros [(x&Hx&<-&Ht) Hne]. rewrite list_elem_of_singleton in Hne. exists x. cbn. rewrite lookup_insert_ne by done.
      split; [done|]. split; [done|]. rewrite lookup_delete_ne; [done|]. intros ->. rewrite Hid in Ht. congruence.
Qed.

Lemma only_done_app a b o o1 o2 : only_done a o o1 -> only_done b o1 o2 -> only_done (a ++ b) o o2.
Proof. intros H1 H2 rc p. rewrite (H2 rc p), (H1 rc p), elem_of_app. tauto. Qed.

(** The table of peers after [erase_peer]. *)
Lemma erase_peer_ok o o' rc p :
  peers_ok o -> pending o rc p -> only_done [rc] o o' -> m_hmapPeerRpcs o' = erase_peer p rc (m_hmapPeerRpcs o) -> peers_ok o'.
Proof.
  intros Hok Hpend Hd E q. rewrite E. pose proof (Hok p) as Hp. destruct (m_hmapPeerRpcs o !! p) as [rcs|] eqn:Ep; [|by destruct (Hp rc)].
  destruct Hp as [_ Hp]. unfold erase_peer. rewrite Ep. cbn [from_option]. destruct (decide (q = p)) as [->|Hne].
  - case_bool_decide as Hem; [rewrite lookup_delete|rewrite lookup_insert]; rewrite decide_True by done.
    + intros a Ha. apply Hd in Ha as [Ha Hn]. rewrite list_elem_of_singleton in Hn. apply Hp in Ha. set_solver.
    + split; [done|]. intros a. rewrite (Hd a p), list_elem_of_singleton, elem_of_difference, elem_of_singleton, Hp. done.
  - assert (forall a, pending o' a q <-> pending o a q) as Hq.
    { intros a. rewrite (Hd a q), list_elem_of_singleton. split; [tauto|]. intros Ha. split; [done|]. intros ->.
      destruct Ha as (x&Hx&<-&_), Hpend as (y&Hy&<-&_). congruence. }
    specialize (Hok q). case_bool_decide; [rewrite lookup_delete_ne by done|rewrite lookup_insert_ne by done];
      destruct (m_hmapPeerRpcs o !! q); setoid_rewrite Hq; done.
Qed.

(** ** The operations keep it *)

Lemma linked_timer ps got o last t :
  linked ps got o last -> timer_ok t -> (no_events o -> Timer.m_mapSubscribedEvents t = []) -> linked ps got (set_timer t o) last.
Proof. intros [??? ? ? ? ? Hcb] Hok Ht. split; try done. intros E. destruct (Hcb E). split; [by apply Ht|done]. Qed.

Lemma timer_ok_ids t : timer_ok t -> forall k, k ∈ Timer.m_mapEventsEntry t -> Timer.how k = S_CB.
Proof. intros [Hok Hcb] k Hk. apply (Timer.ok_keys _ Hok) in Hk as (p&Hp&<-). by apply Hcb. Qed.

Lemma upd_ctx_spec rc f cx (o : client) (n : N) Q :
  ctxs o !! rc = Some cx -> Q tt (set_ctx rc (f cx) o, n) -> wp (upd_ctx rc f) (o, n) Q.
Proof. intros E HQ. unfold upd_ctx, ctx. wpure. rewrite E. cbn [of_mem]. by wpure. Qed.

Lemma unsubscribe_spec i (o : client) (n : N) Q :
  timer_ok (timer o) -> own_id i ->
  (forall t, timer_ok t -> (no_events o -> Timer.m_mapSubscribedEvents t = []) -> Q tt (set_timer t o, n)) -> wp (unsubscribe i) (o, n) Q.
Proof.
  intros Htm Hi HQ. unfold unsubscribe. wpure. destruct Hi as [Hi| ->].
  - destruct (Timer.unsubscribe_ok i (timer o)) as (b&t'&->&Hok'&Hsub&_); [apply Htm| |].
    { apply (Timer.one_callback_ordered S_CB). intros k [->|Hk]%elem_of_cons; [done|]. by eapply timer_ok_ids. }
    cbn [of_mem]. wpure. apply HQ.
    + split; [done|]. intros p Hp. by apply Htm, Hsub.
    + unfold no_events. intros E. rewrite E in Hsub. destruct (Timer.m_mapSubscribedEvents t') as [|p l]; [done|].
      specialize (Hsub p ltac:(by left)). by apply elem_of_nil in Hsub.
  - cbn. wpure. by apply HQ.
Qed.

Lemma break_spec ps got last l : forall nm (o : client) (n : N) Q,
  linked ps got o last -> NoDup l -> (forall rc, rc ∈ l -> exists p, pending o rc p) ->
  (forall o', linked ps got o' last -> only_done l o o' -> m_hmapPeerRpcs o' = m_hmapPeerRpcs o ->
     (forall rc, rc ∈ l -> exists cx cx', ctxs o !! rc = Some cx /\ ctxs o' !! rc = Some cx' /\ cx_msgId cx' = cx_msgId cx /\
        cx_complete cx' = true /\ cx_state cx' = BrokenPipe) ->
     (forall rc, rc ∉ l -> ctxs o' !! rc = ctxs o !! rc) -> next_ctx o' = next_ctx o -> Q tt (o', n)) ->
  wp (break_ctxs l nm) (o, n) Q.
Proof.
  induction l as [|rc l IH]; intros nm o n Q Hl Hnd Hpend HQ; cbn [break_ctxs].
  - wpure. apply HQ; [done| |done| |done|done].
    + intros a q. split; [|tauto]. intros ?. split; [done|]. by intros ?%elem_of_nil.
    + by intros a ?%elem_of_nil.
  - apply list.NoDup_cons in Hnd as [Hnin Hnd]. destruct (Hpend rc ltac:(by left)) as (p&cx&Hcx&Hp&Hid).
    unfold ctx. wpure. rewrite Hcx. cbn [of_mem]. wpure. wbind.
    apply unsubscribe_spec; [apply (lk_timer _ _ _ _ Hl)|by eapply (lk_own _ _ _ _ Hl)|]. intros t Htm Ht. wbind. eapply upd_ctx_spec; [exact Hcx|].
    destruct (finish_linked ps got o last _ rc cx BrokenPipe nm (m_hmapPeerRpcs o) Hl Hid Hcx) as [Hl1 Hd1]; [done|].
    apply (linked_timer _ _ _ _ t) in Hl1; [|done|done].
    set (o1 := set_ctx rc _ _). assert (o1 = set_timer t (set_ctx rc (complete_with BrokenPipe nm cx)
      (set_tables (delete (cx_msgId cx) (m_hmapRpcCtxs o)) (m_hmapPeerRpcs o) o))) as Eo by done. rewrite <- Eo in Hl1. clearbody o1.
    assert (only_done [rc] o o1) as Hd by (by rewrite Eo).
    eapply (IH None o1); [done|done| |].
    + intros a Ha. destruct (Hpend a ltac:(by right)) as (q&Hq). exists q. apply Hd. split; [done|]. rewrite list_elem_of_singleton. by intros ->.
    + intros o' Hl' Hd' Hpt Hdone Hrest Hnx. apply HQ; [done|by apply (only_done_app [rc] l o o1)|by rewrite Hpt, Eo| | |by rewrite Hnx, Eo].
      * intros a [->|Ha]%elem_of_cons.
        -- exists cx, (complete_with BrokenPipe nm cx). rewrite Hrest by done. rewrite Eo. cbn. rewrite lookup_insert, decide_True by done. done.
        -- destruct (Hdone a Ha) as (x&x'&Hx&Hx'). exists x, x'. split; [|done]. rewrite Eo in Hx. cbn in Hx.
           rewrite lookup_insert_ne in Hx; [done|]. by intros ->.
      * intros a Hn. rewrite not_elem_of_cons in Hn. rewrite Hrest by tauto. rewrite Eo. cbn. rewrite lookup_insert_ne; [done|]. intros ->. tauto.
Qed.

Lemma linked_got ps got o last nm : linked ps got o last -> linked ps (got ++ [nm]) o last.
Proof.
  intros [Hp Hc Hu Hi Hk Htm Hown Hcb]. split; try done. intros rc ph Hrc. destruct (Hk rc ph Hrc) as (cx&Hcx&Hx). exists cx. split; [done|].
  assert (outcome_ok got cx -> outcome_ok (got ++ [nm]) cx) as Hmono.
  { intros Ho Hst. destruct (Ho Hst) as (rm&?&?&?). exists rm. rewrite elem_of_app. tauto. }
  destruct ph; [done|..]; destruct (cx_complete cx); auto.
Qed.

(** Completed contexts are left alone. *)
Definition keeps (o o' : client) : Prop :=
  next_ctx o <= next_ctx o' /\ forall rc cx, ctxs o !! rc = Some cx -> cx_complete cx = true -> ctxs o' !! rc = Some cx.

Definition is_done (o : client) (rc : Z) (st : CtxState) (nm : NotifyMessage) : Prop :=
  exists cx, ctxs o !! rc = Some cx /\ cx_complete cx = true /\ cx_state cx = st /\ (st = CtxOk -> cx_nm cx = Some nm).

(** Whom a notification concerns, and what it makes of them. *)
Definition concerns (o : client) (nm : NotifyMessage) (rc : Z) : Prop :=
  match nm with
  | MessageNotifyMessage rm => m_hmapRpcCtxs o !! h_id (rm_header rm) = Some rc
  | WorkerNotifyMessage _ p _ => pending o rc p
  | ServerNotifyMessage _ _ => False
  end.
Definition verdict (nm : NotifyMessage) : CtxState := match nm with MessageNotifyMessage _ => CtxOk | _ => BrokenPipe end.
Definition is_server (nm : NotifyMessage) : bool := match nm with ServerNotifyMessage _ _ => true | _ => false end.

Lemma linked_pending ps got o last id rc :
  linked ps got o last -> m_hmapRpcCtxs o !! id = Some rc -> exists cx, ctxs o !! rc = Some cx /\ cx_msgId cx = id /\
    cx_complete cx = false /\ cx_state cx = CtxOk /\ pending o rc (cx_peer cx).
Proof. intros Hl Hid. destruct (lk_ids _ _ _ _ Hl _ _ Hid) as (cx&Hcx&<-&?&?). exists cx. repeat (split; [done|]). by exists cx. Qed.

(** A context under [id] is completed, by a response or by the timer. *)
Lemma finish_spec ps got o last id rc cx st nm t :
  linked ps got o last -> peers_ok o -> m_hmapRpcCtxs o !! id = Some rc -> ctxs o !! rc = Some cx ->
  timer_ok t -> (no_events o -> Timer.m_mapSubscribedEvents t = []) -> outcome_ok got (complete_with st nm cx) ->
  let o' := set_ctx rc (complete_with st nm cx) (erase_ctx id rc cx (set_timer t o)) in
  linked ps got o' last /\ peers_ok o' /\ keeps o o' /\ ctxs o' !! rc = Some (complete_with st nm cx).
Proof.
  intros Hl Hpk Hid Hcx Htm Ht Hok o'. destruct (linked_pending _ _ _ _ _ _ Hl Hid) as (cx'&Hcx'&Hm&Hcmp&Hst&Hpend).
  rewrite Hcx in Hcx'. injection Hcx' as <-.
  destruct (finish_linked ps got o last id rc cx st nm (erase_peer (cx_peer cx) rc (m_hmapPeerRpcs o)) Hl Hid Hcx Hok) as [Hl' Hd].
  apply (linked_timer _ _ _ _ t) in Hl'; [|done|done]. split; [exact Hl'|]. split; [by eapply erase_peer_ok|]. split.
  - split; [done|]. intros a x Ha Hx. cbn. rewrite lookup_insert_ne; [done|]. intros ->. rewrite Hcx in Ha. congruence.
  - cbn. by rewrite lookup_insert, decide_True.
Qed.

Lemma onRecv_spec ps got last nm (o : client) (n : N) :
  linked ps got o last -> peers_ok o -> is_server nm = false ->
  wp (onRecvMessage nm) (o, n) (fun _ s => s.2 = n /\ linked ps (got ++ [nm]) s.1 last /\ peers_ok s.1 /\ keeps o s.1 /\
    forall rc, concerns o nm rc -> is_done s.1 rc (verdict nm) nm).
Proof.
  intros Hl Hpk Hns. apply (linked_got _ _ _ _ nm) in Hl. destruct nm as [|code p txt|rm]; [done|..]; cbn [onRecvMessage].
  - wpure. pose proof (Hpk p) as Hp. destruct (m_hmapPeerRpcs o !! p) as [rcs|] eqn:Ep.
    + destruct Hp as [_ Hp]. wbind. eapply (break_spec ps (got ++ [WorkerNotifyMessage code p txt]) last); [done|apply NoDup_elements|..].
      { intros rc Hrc%elem_of_elements. exists p. by apply Hp. }
      intros o' Hl' Hd Ept Hdone Hrest Hnx. wpure. split; [done|]. split; [by destruct Hl'|]. split; [|split; [split|]].
      * intros q. cbn. destruct (decide (q = p)) as [->|Hne]; [rewrite lookup_delete, decide_True by done|rewrite lookup_delete_ne by done].
        -- intros rc Hpend. apply Hd in Hpend as [Hpend Hn]. rewrite elem_of_elements, Hp in Hn. done.
        -- rewrite Ept. assert (forall a, pending o' a q <-> pending o a q) as Hq.
           { intros a. rewrite (Hd a q). split; [tauto|]. intros Ha. split; [done|]. rewrite elem_of_elements, Hp.
             intros Hb. destruct Ha as (x&Hx&<-&_), Hb as (y&Hy&<-&_). congruence. }
           specialize (Hpk q). destruct (m_hmapPeerRpcs o !! q); [split; [apply Hpk|]; intros a; rewrite (proj2 Hpk a); symmetry; apply Hq|].
           intros a Ha. apply (Hpk a). by apply Hq.
      * cbn. lia.
      * intros a x Ha Hx. cbn. rewrite Hrest; [done|]. rewrite elem_of_elements, Hp. intros (y&Hy&_&Hyi). rewrite Ha in Hy. injection Hy as <-.
        destruct (lk_ids _ _ _ _ Hl _ _ Hyi) as (z&Hz&_&Hzc&_). congruence.
      * intros rc Hrc. cbn [concerns] in Hrc. apply Hp, elem_of_elements, Hdone in Hrc as (x&x'&_&Hx'&_&Hc&Hs). by exists x'.
    + wpure. split; [done|]. split; [done|]. split; [done|]. split; [by split|]. intros rc Hrc. by apply Hp in Hrc.
  - wpure. destruct (m_hmapRpcCtxs o !! h_id (rm_header rm)) as [rc|] eqn:Eid.
    + destruct (linked_pending _ _ _ _ _ _ Hl Eid) as (cx&Hcx&Hm&Hcmp&Hst&Hpend). unfold ctx. wpure. rewrite Hcx. cbn [of_mem]. wpure.
      wbind. apply unsubscribe_spec; [apply (lk_timer _ _ _ _ Hl)|by eapply (lk_own _ _ _ _ Hl)|]. intros t Htm Ht. wpure. eapply upd_ctx_spec; [exact Hcx|]. cbn [fst snd].
      edestruct (finish_spec ps (got ++ [MessageNotifyMessage rm]) o last (h_id (rm_header rm)) rc cx (cx_state cx)
        (Some (MessageNotifyMessage rm)) t) as (Hl'&Hpk'&Hk'&Hc');
        [done|done|exact Eid|done|done|done| |].
      { intros _. exists rm. split; [done|]. split; [done|]. apply elem_of_app. right. by apply list_elem_of_singleton. }
      split; [done|]. split; [exact Hl'|]. split; [exact Hpk'|]. split; [exact Hk'|].
      intros a Ha. cbn [concerns] in Ha. rewrite Eid in Ha. injection Ha as <-. eexists. split; [exact Hc'|]. split; [done|]. by split.
    + wpure. split; [done|]. split; [done|]. split; [done|]. split; [by split|]. intros rc Hrc. cbn [concerns] in Hrc. congruence.
Qed.

Lemma timer_spec ps got last (o : client) (n : N) :
  linked ps got o last -> peers_ok o ->
  wp on_timer (o, n) (fun _ s => s.2 = n /\ linked ps got s.1 last /\ peers_ok s.1 /\ keeps o s.1).
Proof.
  intros Hl Hpk. unfold on_timer. wpure. destruct (Timer.m_mapSubscribedEvents (timer o)) as [|p evs] eqn:Et; [by wpure|]. wpure.
  destruct (s_cb o) as [id|] eqn:Ecb; [|destruct (lk_cb _ _ _ _ Hl Ecb) as [E _]; unfold no_events in E; congruence]. cbn [of_mem]. wpure. wbind.
  pose proof (lk_timer _ _ _ _ Hl) as Htm.
  destruct (Timer.erase_first_ok (timer o) p evs) as (t'&Et'&Hok'&Eev); [apply Htm| |done|].
  { apply (Timer.one_callback_ordered S_CB). by apply timer_ok_ids. }
  assert (timer_ok t') as Htm' by (split; [done|]; rewrite Eev; intros q Hq; apply Htm; rewrite Et; by right).
  assert (no_events o -> Timer.m_mapSubscribedEvents t' = []) as Hno by (unfold no_events; congruence).
  unfold on_timeout. wpure. destruct (m_hmapRpcCtxs o !! id) as [rc|] eqn:Eid.
  - destruct (linked_pending _ _ _ _ _ _ Hl Eid) as (cx&Hcx&Hm&Hcmp&Hst&Hpend). unfold ctx. wpure. rewrite Hcx. cbn [of_mem]. wpure.
    eapply upd_ctx_spec; [exact Hcx|]. wpure. cbn [timer set_ctx erase_ctx set_tables]. rewrite Et'. cbn [of_mem]. wpure. cbn [fst snd].
    edestruct (finish_spec ps got o last id rc cx Timeout (cx_nm cx) t') as (Hl'&Hpk'&Hk'&_); [done|done|exact Eid|done|done|done|done|].
    split; [done|]. split; [exact Hl'|]. split; [exact Hpk'|exact Hk'].
  - wpure. rewrite Et'. cbn [of_mem]. wpure. split; [done|]. split; [by apply linked_timer|]. by split.
Qed.

(** A context that is not in the tables is put into them. *)
Lemma register_spec ps got last rc (o : client) (n : N) :
  linked ps got o last -> peers_ok o -> ps !! rc = Some Sent ->
  wp (recv_register rc) (o, n) (fun _ s => s.2 = n /\ linked (<[rc := Registered]> ps) got s.1 last /\ peers_ok s.1 /\ keeps o s.1).
Proof.
  intros Hl Hpk Hrc. pose proof Hl as [Hp Hc Hu Hi Hk Htm Hown Hcb]. destruct (Hk _ _ Hrc) as (cx&Hcx&Hcmp&Hst&Hid).
  unfold recv_register, ctx. wpure. rewrite Hcx. cbn [of_mem]. wpure. cbn [fst snd].
  set (o' := set_cb _ _). split; [done|].
  assert (forall a p, pending o' a p <-> pending o a p \/ a = rc /\ p = cx_peer cx) as Hpend.
  { intros a p. unfold pending. cbn. split.
    - intros (x&Hx&<-&Ht). destruct (decide (cx_msgId x = cx_msgId cx)) as [E|Hne].
      + rewrite E, lookup_insert, decide_True in Ht by done. injection Ht as <-. right. rewrite Hcx in Hx. injection Hx as <-. done.
      + rewrite lookup_insert_ne in Ht by done. left. by exists x.
    - intros [(x&Hx&<-&Ht)|[-> ->]].
      + exists x. repeat (split; [done|]). rewrite lookup_insert_ne; [done|]. intros E. rewrite <- E, Hid in Ht. done.
      + exists cx. rewrite lookup_insert, decide_True by done. done. }
  split; [split|split; [|by split]].
  - done.
  - done.
  - done.
  - intros id a. cbn. destruct (decide (id = cx_msgId cx)) as [->|Hne].
    + rewrite lookup_insert, decide_True by done. intros [= <-]. by exists cx.
    + rewrite lookup_insert_ne by done. apply Hi.
  - intros a ph. destruct (decide (a = rc)) as [->|Hne].
    + rewrite lookup_insert, decide_True by done. intros [= <-]. exists cx. split; [done|]. rewrite Hcmp. cbn. by rewrite lookup_insert, decide_True.
    + rewrite lookup_insert_ne by done. intros Ha. destruct (Hk _ _ Ha) as (x&Hx&Hs). exists x. split; [done|]. cbn.
      assert (cx_msgId x <> cx_msgId cx) by (intros E; apply Hne; by eapply Hu). by rewrite lookup_insert_ne by done.
  - done.
  - done.
  - cbn. by destruct (s_cb o).
  - intros p. cbn. destruct (decide (p = cx_peer cx)) as [->|Hne].
    + rewrite lookup_insert, decide_True by done. pose proof (Hpk (cx_peer cx)) as Hold.
      destruct (m_hmapPeerRpcs o !! cx_peer cx) as [rcs|]; cbn [from_option].
      * split; [set_solver|]. intros a. rewrite Hpend, elem_of_union, elem_of_singleton, (proj2 Hold). naive_solver.
      * split; [set_solver|]. intros a. rewrite Hpend, elem_of_singleton. pose proof (Hold a). naive_solver.
    + rewrite lookup_insert_ne by done. pose proof (Hpk p) as Hold.
      destruct (m_hmapPeerRpcs o !! p) as [rcs|]; [split; [apply Hold|]; intros a; rewrite Hpend, (proj2 Hold); naive_solver|].
      intros a. rewrite Hpend. pose proof (Hold a). naive_solver.
Qed.

(** A change of a context that keeps what the tables depend on. *)
Definition alike (x y : RpcCtx) : Prop :=
  cx_peer y = cx_peer x /\ cx_msgId y = cx_msgId x /\ cx_complete y = cx_complete x /\ cx_state y = cx_state x /\
  (cx_complete x = false \/ cx_nm y = cx_nm x).

Lemma pending_alike o rc cx cx' a p : ctxs o !! rc = Some cx -> alike cx cx' -> pending (set_ctx rc cx' o) a p <-> pending o a p.
Proof.
  intros Hcx (Ep&Em&_). unfold pending. cbn. destruct (decide (a = rc)) as [->|Hne]; [|by rewrite lookup_insert_ne by done].
  rewrite lookup_insert, decide_True by done. split.
  - intros (x&[= <-]&<-&Ht). exists cx. by rewrite <- Ep, <- Em.
  - intros (x&Hx&<-&Ht). rewrite Hcx in Hx. injection Hx as <-. exists cx'. by rewrite Ep, Em.
Qed.

Lemma linked_alike ps ps' got o last rc cx cx' :
  linked ps got o last -> ctxs o !! rc = Some cx -> alike cx cx' -> own_id (cx_timer_ev cx') ->
  (forall a ph, ps' !! a = Some ph -> exists ph', ps !! a = Some ph' /\ (ph = ph' \/ ph <> Sent /\ ph' <> Sent)) ->
  linked ps' got (set_ctx rc cx' o) last.
Proof.
  intros [Hp Hc Hu Hi Hk Htm Hown Hcb] Hcx (Ep&Em&Ec&Es&En) Hid Hps.
  assert (forall a x, <[rc := cx']> (ctxs o) !! a = Some x -> exists y, ctxs o !! a = Some y /\ cx_msgId x = cx_msgId y) as Hback.
  { intros a x. destruct (decide (a = rc)) as [->|Hne]; [rewrite lookup_insert, decide_True by done|rewrite lookup_insert_ne by done].
    - intros [= <-]. by exists cx.
    - intros E. by exists x. }
  split.
  - done.
  - intros a x (y&E&->)%Hback. by apply Hc.
  - intros a b x y (x0&Ea&->)%Hback (y0&Eb&->)%Hback. by apply Hu.
  - intros id a Ha. destruct (Hi _ _ Ha) as (x&Hx&?). cbn. destruct (decide (a = rc)) as [->|Hne].
    + rewrite Hcx in Hx. injection Hx as <-. exists cx'. rewrite lookup_insert, decide_True by done. by rewrite Em, Ec, Es.
    + exists x. by rewrite lookup_insert_ne by done.
  - intros a ph Ha. destruct (Hps _ _ Ha) as (ph'&Ha'&Hph). destruct (Hk _ _ Ha') as (x&Hx&Hs).
    assert (exists y, <[rc := cx']> (ctxs o) !! a = Some y /\ alike x y) as (y&Hy&_&Em'&Ec'&Es'&En').
    { destruct (decide (a = rc)) as [->|Hne]; [rewrite lookup_insert, decide_True by done|rewrite lookup_insert_ne by done].
      - rewrite Hcx in Hx. injection Hx as <-. exists cx'. split; [done|]. by repeat split.
      - exists x. split; [done|]. repeat split; auto. }
    exists y. split; [done|]. cbn [m_hmapRpcCtxs set_ctx]. unfold outcome_ok in *. rewrite Em', Ec', Es'.
    destruct (cx_complete x); [destruct En' as [?|En']; [done|]; rewrite En'|]; destruct ph, ph'; naive_solver.
  - done.
  - intros a x. cbn. destruct (decide (a = rc)) as [->|Hne]; [rewrite lookup_insert, decide_True by done|rewrite lookup_insert_ne by done; apply Hown].
    by intros [= <-].
  - intros E. destruct (Hcb E) as [Ht Hs]. split; [done|]. intros a ph Ha. destruct (Hps _ _ Ha) as (ph'&Ha'&Hph). apply Hs in Ha'. naive_solver.
Qed.

Lemma peers_alike o rc cx cx' : ctxs o !! rc = Some cx -> alike cx cx' -> peers_ok o -> peers_ok (set_ctx rc cx' o).
Proof.
  intros Hcx Ha Hpk p. specialize (Hpk p). change (m_hmapPeerRpcs (set_ctx rc cx' o)) with (m_hmapPeerRpcs o).
  destruct (m_hmapPeerRpcs o !! p); setoid_rewrite (pending_alike o rc cx cx'); done.
Qed.

Lemma linked_phase ps ps' got o last :
  linked ps got o last ->
  (forall a ph, ps' !! a = Some ph -> exists ph', ps !! a = Some ph' /\ (ph = ph' \/ ph <> Sent /\ ph' <> Sent)) ->
  linked ps' got o last.
Proof.
  intros [Hp Hc Hu Hi Hk Htm Hown Hcb] Hps. split; try done.
  - intros a ph Ha. destruct (Hps _ _ Ha) as (ph'&Ha'&Hph). destruct (Hk _ _ Ha') as (x&Hx&Hs). exists x. split; [done|].
    destruct ph, ph'; naive_solver.
  - intros E. destruct (Hcb E) as [Ht Hs]. split; [done|]. intros a ph Ha. destruct (Hps _ _ Ha) as (ph'&Ha'&Hph). apply Hs in Ha'. naive_solver.
Qed.

Lemma next_phase (ps : gmap Z phase) rc p p' : ps !! rc = Some p -> p <> Sent -> p' <> Sent ->
  forall a ph, <[rc := p']> ps !! a = Some ph -> exists ph', ps !! a = Some ph' /\ (ph = ph' \/ ph <> Sent /\ ph' <> Sent).
Proof.
  intros Hrc H1 H2 a ph. destruct (decide (a = rc)) as [->|Hne]; [rewrite lookup_insert, decide_True by done|rewrite lookup_insert_ne by done].
  - intros [= <-]. eauto.
  - eauto.
Qed.

(** Contexts that are done stay done. *)
Definition stays (o o' : client) : Prop :=
  next_ctx o <= next_ctx o' /\ forall rc st nm, is_done o rc st nm -> is_done o' rc st nm.
Lemma keeps_stays o o' : keeps o o' -> stays o o'.
Proof. intros [? Hk]. split; [done|]. intros rc st nm (cx&Hcx&Hc&?). exists cx. split; [by apply Hk|done]. Qed.

Lemma alike_stays o rc cx cx' : ctxs o !! rc = Some cx -> alike cx cx' -> stays o (set_ctx rc cx' o).
Proof.
  intros Hcx (_&_&Ec&Es&En). split; [done|]. intros a st nm (x&Hx&Hc&Hs&Hn). unfold is_done. cbn.
  destruct (decide (a = rc)) as [->|Hne]; [rewrite lookup_insert, decide_True by done|rewrite lookup_insert_ne by done; by exists x].
  rewrite Hcx in Hx. injection Hx as <-. exists cx'. rewrite Ec, Es. repeat (split; [done|]). intros Hok. destruct En as [?|En]; [congruence|rewrite En; auto].
Qed.

Lemma arm_spec ps got last rc when (o : client) (n : N) :
  linked ps got o last -> peers_ok o -> ps !! rc = Some Registered -> 0 < when ->
  wp (recv_arm rc when) (o, n) (fun r s => s.2 = n /\ peers_ok s.1 /\ stays o s.1 /\
    linked (<[rc := match r with inr _ => Armed | inl _ => Abandoned end]> ps) got s.1 last).
Proof.
  intros Hl Hpk Hrc Hw. destruct (lk_calls _ _ _ _ Hl _ _ Hrc) as (cx&Hcx&_). pose proof (lk_timer _ _ _ _ Hl) as Htm.
  destruct (Timer.subscribe_ok when (Timer.MkEvent 0 S_CB) (timer o)) as (i&t'&E&Hok'&Hcase); [apply Htm|lia|done| |].
  { apply (Timer.one_callback_ordered S_CB). intros k [->|Hk]%elem_of_cons; [done|]. by eapply timer_ok_ids. }
  unfold recv_arm, subscribe. wpure. rewrite E. cbn [of_mem]. wpure. destruct Hcase as [[-> ->]|(->&Hni&Eev&_)]; cbn [Timer.when].
  - rewrite Z.eqb_refl. wpure. cbn [fst snd]. replace (set_timer (timer o) o) with o by by destruct o.
    split; [done|]. split; [done|]. split; [by split|]. by eapply linked_phase; [|eapply next_phase].
  - destruct (Z.eqb_spec 0 when); [lia|]. wbind. eapply upd_ctx_spec; [exact Hcx|]. wpure. cbn [fst snd]. set (cx' := MkCtx _ _ _ _ _ _).
    assert (alike cx cx') as Ha by (repeat split; by right). split; [done|].
    split; [exact (peers_alike (set_timer t' o) rc cx cx' Hcx Ha Hpk)|].
    split; [exact (alike_stays (set_timer t' o) rc cx cx' Hcx Ha)|].
    eapply linked_alike; [|exact Hcx|done|by left|by eapply next_phase]. destruct Hl as [??? ? ? ? ? Hcb]. split; try done.
    + split; [done|]. cbn [timer set_timer]. rewrite Eev. intros p [->|Hp]%Timer.insert_event_elem; [done|]. by apply Htm.
    + intros E0. destruct (Hcb E0) as [_ Hs]. apply Hs in Hrc. done.
Qed.

(** *** The end of a call *)

(** What [recvMessage] makes of a response. *)
Definition decode (rm : RcvMessage) : option (rpc_exn + RcvMessage) :=
  serverCode ← db_load (ByteOrderUtils.ReadUInt16 host) 0 (rm_buffer rm);
  let buffer := db_op (MoveHeadBack 2) (rm_buffer rm) in
  handlerId ← db_load (ByteOrderUtils.ReadUInt16 host) 0 buffer;
  Some (if serverCode =? rpc_code ErrorNoHandler then inl (BadRpcHandlerIdException serverCode handlerId)
        else if serverCode =? rpc_code ErrorMsg then inl (RpcMessageCorruptException handlerId)
        else if serverCode =? rpc_code ErrorInternal then inl RpcServerInternalException
        else inr (MkRcv (rm_mpo rm) (rm_peer rm) (rm_header rm) buffer)).

Definition end_of (cx : RpcCtx) : outcome (option (rpc_exn + RcvMessage)) :=
  match cx_state cx with
  | Timeout => Ok (Some (inl RpcClientSendTimeoutException))
  | BrokenPipe => Ok (Some (inl RpcBrokenPipeException))
  | CtxOk =>
      match cx_nm cx with
      | Some (MessageNotifyMessage rm) => match decode rm with Some r => Ok (Some r) | None => Prelude.Stop Undefined end
      | _ => Prelude.Stop Undefined
      end
  end.

Lemma resume_eq ps got last rc cx (o : client) (n : N) :
  linked ps got o last -> ctxs o !! rc = Some cx ->
  exists o', recv_resume host rc (o, n) =
      (if cx_complete cx then end_of cx else Ok None, (if cx_complete cx then o' else o, n)) /\
    exists p, o' = set_ctx rc (release_ctx cx) (set_ctxPool p o) /\ ResourcePool.m_iCurResCnt p = 0 /\ 0 < ResourcePool.m_iMaxResCnt p.
Proof.
  intros Hl Hcx. destruct (lk_pool _ _ _ _ Hl) as [Hcur Hmax].
  set (p := ResourcePool.Make (ResourcePool.m_iMaxResCnt (m_rpcCtxPool o)) (ResourcePool.m_iCurResCnt (m_rpcCtxPool o))
    (ResourcePool.m_freeRes (m_rpcCtxPool o) ++ [rc])).
  assert (pool_Put rc (o, n) = (Ok tt, (set_ctx rc (release_ctx cx) (set_ctxPool p o), n))) as Eput.
  { unfold pool_Put, mbind, M_bind, getO. cbn [fst snd]. unfold ResourcePool.Put. rewrite Hcur. destruct (Z.ltb_spec 0 (ResourcePool.m_iMaxResCnt (m_rpcCtxPool o))); [|lia].
    unfold modO, upd_ctx, ctx, mbind, M_bind, getO. cbn [fst snd ctxs set_ctxPool]. rewrite Hcx. cbn. unfold p. rewrite Hcur. done. }
  exists (set_ctx rc (release_ctx cx) (set_ctxPool p o)). split; [|by exists p]. unfold recv_resume, ctx.
  rewrite (bind_ok _ _ _ cx (o, n)); [|unfold mbind, M_bind, getO; cbn; rewrite Hcx; done].
  destruct (cx_complete cx) eqn:Ec; cbn [negb]; [|done]. unfold end_of. destruct (cx_state cx); rewrite (bind_ok _ _ _ _ _ Eput); try done.
  destruct (cx_nm cx) as [[| |rm]|]; try done. unfold decode.
  destruct (db_load (ByteOrderUtils.ReadUInt16 host) 0 (rm_buffer rm)) as [code|]; cbn; [|done].
  destruct (db_load (ByteOrderUtils.ReadUInt16 host) 0 _) as [hid|]; cbn; done.
Qed.

(** *** The beginning of a call *)

(** The state after [sendMessage] has made the context [rc]. *)
Definition started (o : client) (p : net_peer_info) (id : Z) : client :=
  set_ctx (next_ctx o) (MkCtx p id false CtxOk (Timer.MkEventId 0 0) None)
    (set_ctx (next_ctx o) RpcCtx_default (set_next (next_ctx o + 1) (set_ctxPool (m_rpcCtxPool o) o))).

Lemma send_run ps got name msg peer (o : client) (n : N) rc o' n' :
  linked ps got o (ss_last n) -> 0 <= ss_last n < 18446744073709551614 ->
  sendMessage host name msg peer (o, n) = (Ok (inr (Some rc)), (o', n')) ->
  rc = next_ctx o /\ exists id, o' = started o peer id /\ ss_last n < id <= ss_last n'.
Proof.
  intros Hl Hlast. destruct (lk_pool _ _ _ _ Hl) as [Hcur _]. unfold sendMessage. intros E. apply bind_inv in E as (sr&[o1 n1]&E1&E2).
  unfold SendMessageAsync in E1. apply bind_inv in E1 as (h&s1&Eh&E1). injection Eh as <- <-. destruct (m_hmapRpcs o !! name) as [hid|].
  2:{ injection E1 as <- <- <-. done. }
  apply bind_inv in E1 as (id&s1&Eid&E1). destruct (wp_run _ _ _ (ss_new_law n Hlast)) as (i&n2&En&->&Hi).
  rewrite (io_ok _ _ _ _ _ En) in Eid. injection Eid as <- <-. apply bind_inv in E1 as (ok&[o3 n3]&Es&E1).
  unfold io in Es. cbn [fst snd] in Es. destruct (ss_SendMessage _ n2) as [r n4] eqn:Esm. injection Es as -> <- <-.
  apply ss_send_last in Esm. destruct ok; cbn [negb] in E1; injection E1 as <- <- <-; [|done].
  unfold make_ctx in E2. cbn [sr_msgId] in E2. destruct (Z.eqb_spec 0 (ss_last n + 1)); [lia|].
  unfold pool_Get, upd_ctx, ctx, mbind, M_bind, getO, modO, of_mem, ResourcePool.Get, mret, M_ret in E2. cbn [fst snd] in E2.
  rewrite Hcur in E2. cbn in E2. rewrite lookup_insert, decide_True in E2 by done. cbn in E2. injection E2 as <- <- <-.
  split; [done|]. exists (ss_last n + 1). split; [done|]. lia.
Qed.

Lemma started_linked ps got o last last' p id :
  linked ps got o last -> peers_ok o -> 0 <= last < id -> id <= last' ->
  linked (<[next_ctx o := Sent]> ps) got (started o p id) last' /\ peers_ok (started o p id) /\ stays o (started o p id).
Proof.
  intros Hl Hpk Hid Hlast. pose proof Hl as [Hp Hc Hu Hi Hk Htm Hown Hcb].
  assert (forall a x, ctxs (started o p id) !! a = Some x <-> a = next_ctx o /\ x = MkCtx p id false CtxOk (Timer.MkEventId 0 0) None \/ a <> next_ctx o /\ ctxs o !! a = Some x) as Hctx.
  { intros a x. cbn. destruct (decide (a = next_ctx o)) as [->|Hne].
    - rewrite lookup_insert, decide_True by done. naive_solver.
    - rewrite !lookup_insert_ne by done. naive_solver. }
  assert (forall a x, ctxs o !! a = Some x -> a <> next_ctx o /\ cx_msgId x <> id) as Hold.
  { intros a x Ha. destruct (Hc _ _ Ha). lia. }
  assert (m_hmapRpcCtxs o !! id = None) as Hno.
  { destruct (m_hmapRpcCtxs o !! id) as [rc|] eqn:E; [|done]. destruct (Hi _ _ E) as (x&Hx&<-&_). destruct (Hc _ _ Hx). lia. }
  split; [split|split].
  - done.
  - intros a x [[-> ->]|[_ Ha]]%Hctx; cbn; [lia|]. destruct (Hc _ _ Ha). lia.
  - intros a b x y [[-> ->]|[_ Ha]]%Hctx [[-> ->]|[_ Hb]]%Hctx; [done|..].
    + intros E. destruct (Hold _ _ Hb). by cbn in E.
    + intros E. destruct (Hold _ _ Ha). by cbn in E.
    + by apply Hu.
  - intros i a Ha. destruct (Hi _ _ Ha) as (x&Hx&?). exists x. split; [|done]. apply Hctx. right. split; [by apply (Hold _ x)|done].
  - intros a ph. destruct (decide (a = next_ctx o)) as [->|Hne].
    + rewrite lookup_insert, decide_True by done. intros [= <-]. eexists. split; [apply Hctx; by left|]. cbn. by rewrite Hno.
    + rewrite lookup_insert_ne by done. intros Ha. destruct (Hk _ _ Ha) as (x&Hx&Hs). exists x. split; [apply Hctx; by right|]. by destruct ph.
  - done.
  - intros a x [[-> ->]|[_ Ha]]%Hctx; [by right|by eapply Hown].
  - intros E. destruct (Hcb E) as [Ht Hs]. split; [done|]. intros a ph. destruct (decide (a = next_ctx o)) as [->|Hne].
    + rewrite lookup_insert, decide_True by done. by intros [= <-].
    + rewrite lookup_insert_ne by done. apply Hs.
  - assert (forall a q, pending (started o p id) a q <-> pending o a q) as Hpend.
    { intros a q. unfold pending. split.
      - intros (x&[[-> ->]|[_ Hx]]%Hctx&<-&Ht); [cbn in Ht; by rewrite Hno in Ht|by exists x].
      - intros (x&Hx&<-&Ht). exists x. split; [|done]. apply Hctx. right. split; [by apply (Hold _ x)|done]. }
    intros q. specialize (Hpk q). change (m_hmapPeerRpcs (started o p id)) with (m_hmapPeerRpcs o).
    destruct (m_hmapPeerRpcs o !! q); setoid_rewrite Hpend; done.
  - split; [cbn; lia|]. intros a st nm (x&Hx&?). exists x. split; [|done]. apply Hctx. right. split; [by apply (Hold _ x)|done].
Qed.

(** ** Every reachable state *)

Definition inv (y : sys) : Prop :=
  linked (y_calls y) (y_got y) (y_state y).1 (ss_last (y_state y).2) /\ peers_ok (y_state y).1 /\ 0 <= ss_last (y_state y).2.

(** A call that is done, until its caller has seen it. *)
Definition settled (rc : Z) (st : CtxState) (nm : NotifyMessage) (y : sys) : Prop :=
  rc < next_ctx (y_state y).1 /\ forall ph, y_calls y !! rc = Some ph -> ph <> Sent /\ is_done (y_state y).1 rc st nm.

Lemma wp_at {S A} (c : M S A) s a s' Q : wp c s Q -> c s = (Ok a, s') -> Q a s'.
Proof. unfold wp, wpc. intros Hw E; by rewrite E in Hw. Qed.

Lemma onRecv_not_server nm (s s' : client * N) : onRecvMessage nm s = (Ok tt, s') -> is_server nm = false.
Proof. by destruct nm. Qed.

Lemma resume_linked ps got last rc cx p (o : client) :
  linked ps got o last -> peers_ok o -> ctxs o !! rc = Some cx -> cx_complete cx = true ->
  ResourcePool.m_iCurResCnt p = 0 /\ 0 < ResourcePool.m_iMaxResCnt p ->
  let o' := set_ctx rc (release_ctx cx) (set_ctxPool p o) in
  linked (delete rc ps) got o' last /\ peers_ok o' /\
  forall a st nm, a <> rc -> is_done o a st nm -> is_done o' a st nm.
Proof.
  intros Hl Hpk Hcx Hcmp Hp o'. pose proof Hl as [_ Hc Hu Hi Hk Htm Hown Hcb].
  assert (m_hmapRpcCtxs o !! cx_msgId cx = None) as Hno.
  { destruct (m_hmapRpcCtxs o !! cx_msgId cx) as [a|] eqn:E; [|done]. destruct (Hi _ _ E) as (x&Hx&Em&Ec&_).
    assert (a = rc) as -> by by eapply Hu. congruence. }
  assert (forall a x, ctxs o' !! a = Some x -> exists y, ctxs o !! a = Some y /\ cx_msgId x = cx_msgId y /\ cx_peer x = cx_peer y /\
    cx_timer_ev x = cx_timer_ev y) as Hback.
  { intros a x. cbn. destruct (decide (a = rc)) as [->|Hne]; [rewrite lookup_insert, decide_True by done|rewrite lookup_insert_ne by done].
    - intros [= <-]. by exists cx.
    - intros E. by exists x. }
  assert (forall a q, pending o' a q <-> pending o a q) as Hpend.
  { intros a q. unfold pending. split.
    - intros (x&(y&Hy&Em&Ep&_)%Hback&<-&Ht). exists y. rewrite <- Em, <- Ep. done.
    - intros (x&Hx&<-&Ht). exists x. split; [|done]. cbn. rewrite lookup_insert_ne; [done|]. intros ->. rewrite Hcx in Hx. injection Hx as <-. congruence. }
  split; [split|split].
  - done.
  - intros a x (y&E&->&_)%Hback. by apply Hc.
  - intros a b x y (x0&Ea&->&_)%Hback (y0&Eb&->&_)%Hback. by apply Hu.
  - intros i a Ha. destruct (Hi _ _ Ha) as (x&Hx&Hrest). exists x. split; [|done]. cbn. rewrite lookup_insert_ne; [done|].
    intros ->. rewrite Hcx in Hx. injection Hx as <-. destruct Hrest as (_&?&_). congruence.
  - intros a ph. rewrite lookup_delete_Some. intros [Hne Ha]. destruct (Hk _ _ Ha) as (x&Hx&Hs). exists x. cbn.
    by rewrite lookup_insert_ne by done.
  - done.
  - intros a x (y&E&_&_&->)%Hback. by eapply Hown.
  - intros E. destruct (Hcb E) as [Ht Hs]. split; [done|]. intros a ph. rewrite lookup_delete_Some. intros [_ Ha]. by eapply Hs.
  - intros q. specialize (Hpk q). change (m_hmapPeerRpcs o') with (m_hmapPeerRpcs o).
    destruct (m_hmapPeerRpcs o !! q); setoid_rewrite Hpend; done.
  - intros a st nm Hne (x&Hx&?). exists x. cbn. by rewrite lookup_insert_ne by done.
Qed.

Lemma stays_settled ps ps' got got' o o' n n' rc st nm :
  stays o o' -> (forall ph, ps' !! rc = Some ph -> exists ph', ps !! rc = Some ph' /\ (ph' <> Sent -> ph <> Sent)) ->
  settled rc st nm (MkSys ps got (o, n)) -> settled rc st nm (MkSys ps' got' (o', n')).
Proof.
  intros [Hn Hs] Hps [Hlt Hd]. cbn [y_state y_calls fst] in *. split; [cbn; lia|]. intros ph Hph. cbn in Hph.
  destruct (Hps _ Hph) as (ph'&Hph'&Himp). destruct (Hd _ Hph') as [? ?]. split; [auto|]. by apply Hs.
Qed.

Lemma step_spec y y' : inv y -> step y y' -> inv y' /\ forall rc st nm, settled rc st nm y -> settled rc st nm y'.
Proof.
  intros (Hl&Hpk&H0) Hst. destruct Hst as [ps got [o n] name msg peer rc [o' n'] Hlast E|ps got [o n] rc [o' n'] Hrc E|ps got [o n] rc when [o' n'] Hrc Hw E
    |ps got [o n] rc when e [o' n'] Hrc Hw E|ps got [o n] nm [o' n'] E|ps got [o n] [o' n'] E|ps got [o n] rc r [o' n'] Hrc E]; cbn [y_calls y_got y_state fst snd] in *.
  - destruct (send_run _ _ _ _ _ _ _ _ _ _ Hl Hlast E) as (->&id&->&Hid).
    destruct (started_linked ps got o (ss_last n) (ss_last n') peer id Hl Hpk) as (Hl'&Hpk'&Hs'); [lia|lia|].
    split; [split; [done|]; split; [done|cbn; lia]|]. intros a st nm Hset. eapply stays_settled; [done| |exact Hset].
    intros ph. destruct Hset as [Hlt _]. cbn in Hlt. rewrite lookup_insert_ne by lia. eauto.
  - eapply wp_at in E; [|by eapply register_spec]. destruct E as (En&Hl'&Hpk'&Hk'). cbn [fst snd] in *. subst n'. split; [done|].
    intros a st nm Hset. eapply stays_settled; [by apply keeps_stays| |exact Hset]. intros ph.
    destruct (decide (a = rc)) as [->|Hne]; [rewrite lookup_insert, decide_True by done; intros [= <-]; eauto|rewrite lookup_insert_ne by done; eauto].
  - eapply wp_at in E; [|by eapply arm_spec]. destruct E as (En&Hpk'&Hs'&Hl'). cbn [fst snd] in *. subst n'. split; [done|].
    intros a st nm Hset. eapply stays_settled; [done| |exact Hset]. intros ph.
    destruct (decide (a = rc)) as [->|Hne]; [rewrite lookup_insert, decide_True by done; intros [= <-]; eauto|rewrite lookup_insert_ne by done; eauto].
  - eapply wp_at in E; [|by eapply arm_spec]. destruct E as (En&Hpk'&Hs'&Hl'). cbn [fst snd] in *. subst n'. split; [done|].
    intros a st nm Hset. eapply stays_settled; [done| |exact Hset]. intros ph.
    destruct (decide (a = rc)) as [->|Hne]; [rewrite lookup_insert, decide_True by done; intros [= <-]; eauto|rewrite lookup_insert_ne by done; eauto].
  - eapply wp_at in E as HE; [|by eapply onRecv_spec; [..|by eapply onRecv_not_server]]. destruct HE as (En&Hl'&Hpk'&Hk'&_). cbn [fst snd] in *. subst n'.
    split; [done|]. intros a st nm' Hset. eapply stays_settled; [by apply keeps_stays| |exact Hset]. eauto.
  - eapply wp_at in E; [|by eapply timer_spec]. destruct E as (En&Hl'&Hpk'&Hk'). cbn [fst snd] in *. subst n'.
    split; [done|]. intros a st nm' Hset. eapply stays_settled; [by apply keeps_stays| |exact Hset]. eauto.
  - destruct (lk_calls _ _ _ _ Hl _ _ Hrc) as (cx&Hcx&_). destruct (resume_eq ps got (ss_last n) rc cx o n Hl Hcx) as (o1&E1&p&->&Hp).
    rewrite E in E1. destruct (cx_complete cx) eqn:Ec; [|done]. injection E1 as _ -> ->.
    destruct (resume_linked ps got (ss_last n) rc cx p o Hl Hpk Hcx Ec Hp) as (Hl'&Hpk'&Hd). split; [done|].
    intros a st nm [Hlt Hset]. split; [done|]. cbn. intros ph. rewrite lookup_delete_Some. intros [Hne Ha]. destruct (Hset _ Ha). split; [done|]. by apply Hd.
Qed.

Lemma inv_init o n : fresh_client o -> 0 <= ss_last n -> inv (MkSys ∅ [] (o, n)).
Proof.
  intros (rpcs&->) Hn. split; [|split; [|done]]; cbn.
  - split; cbn; try done. split; [split; cbn|by intros p ?%elem_of_nil]; [constructor| |constructor|constructor].
    intros k. split; [by intros ?%elem_of_nil|]. by intros (p&?%elem_of_nil&_).
  - intros p. change (forall rc, ~ pending (set_stopped false (set_registered true (set_rpcs rpcs client_new))) rc p). by intros rc (cx&Hcx&_).
Qed.

Lemma steps_inv y y' : inv y -> rtc step y y' -> inv y' /\ forall rc st nm, settled rc st nm y -> settled rc st nm y'.
Proof.
  intros Hi Hr. induction Hr as [y|y y1 y' Hs Hr IH]; [done|]. destruct (step_spec _ _ Hi Hs) as [Hi1 Hk]. destruct (IH Hi1) as [Hi' Hk'].
  split; [done|]. auto.
Qed.

Lemma reachable_inv y : reachable y -> inv y.
Proof. intros (o&n&Hf&Hn&Hr). by eapply steps_inv; [apply inv_init|]. Qed.
End calls.
