(* ===== verification/RpcTheorems.v ===== *)
(** * What the RPC layer guarantees

    The server answers every request once, in order and as the store's map does
    ([rpc_kv]); the client's tables agree in every reachable state ([rpc_tables]); a
    caller gets the response to its own request ([rpc_reply]) or learns that the
    connection is gone ([rpc_completes]); and the two together make a call ([rpc_call]). *)

From S2P Require Import Prelude Codec Buffer Posix Files Records Entries KvEntries KvMap Wal Checkpoint MiniKV.
From S2P Require Import KvContracts KvRecovery KvTheorems BlockingQueue Net NetWorker NetRecv NetSend NetTheorems.
From S2P Require Import Rpc RpcServe RpcKv Timer RpcClient RpcCalls.

(** ** The server *)

Section server.
Context `{MemAlloc} `{PbEntry} `{PbMessage} (host : byte_order) (strerror : Z -> list byte).
Context {W C : Type} `{!IWal W wal_entry, !IWalLaws W wal_entry} `{!ICheckpoint C, !ICheckpointLaws C}.
Context {N : Type} `{!ISocketService N, !ISocketServiceLaws N}.


(** A request for a handler nobody has registered, or one that cannot be parsed, is
    answered by an exception in the worker thread: the process ends. *)
Theorem rpc_error_ends_server {K : Type} (nm : NotifyMessage) (peer p : net_peer_info) (id h : Z) (b : list byte) (q : list SndMessage)
    (o : RpcServerSync.t K) (k : K) (n : N)
    (Hnm : note_wire nm = Some (peer, Wire id (be_bytes 2 h ++ b))) (Hopen : ss_open p q n)
    (Hbad : RpcServerSync.m_hmHandlers o !! u16 h = None \/
            exists hd t, RpcServerSync.m_hmHandlers o !! u16 h = Some (Some hd) /\ CreateMessage hd = Some t /\ ParseFromArray t b = None) :
  (RpcServerSync.proc_msg host nm (o, (k, n))).1 = Prelude.Stop Aborted.
Proof.
  destruct nm as [| |rm]; [done..|]. cbn [note_wire] in Hnm. destruct (readable (rm_buffer rm)) eqn:Hr; [|done]. injection Hnm as _ _ Ec.
  unfold RpcServerSync.proc_msg. rewrite (readable_load16 host _ h b Hr Ec). unfold ProtoBufUtils.Deserialize.
  destruct (readable_move _ 2 (be_bytes 2 h) b Hr Ec ltac:(done)) as [-> _].
  unfold RpcServerSync.lookup_handler, mbind, M_bind, getO, of_mem, modO, mret, M_ret. cbn [fst snd].
  destruct Hbad as [->|(hd&t&->&Ht&Hp)]; [|rewrite Ht, Hp]; by eapply send_error_spec.
Qed.
End server.

(** ** The client *)

Section client.
Context `{PbMessage} (host : byte_order) {N : Type} `{!ISocketService N, !ISocketIdLaws N}.


(** C17 rpc_reply: a caller that gets a response gets the one to its own request: in every
    reachable state, when a call returns a message, a message with the id of this call
    was received and the caller has its content behind the code. *)
Theorem rpc_reply (y : sys) (rc : Z) (cx : RpcCtx) (rm' : RcvMessage) (s' : client * N)
    (Hy : reachable host y) (Hrc : y_calls y !! rc = Some Armed) (Hcx : ctxs (y_state y).1 !! rc = Some cx)
    (Hr : recv_resume host rc (y_state y) = (Ok (Some (inr rm')), s')) :
  exists rm, MessageNotifyMessage rm ∈ y_got y /\ h_id (rm_header rm) = cx_msgId cx /\
    rm' = MkRcv (rm_mpo rm) (rm_peer rm) (rm_header rm) (db_op (MoveHeadBack 2) (rm_buffer rm)).
Proof.
  destruct (reachable_inv host y Hy) as (Hl&Hpk&_). destruct y as [ps got [o n]]. cbn [y_calls y_got y_state fst snd] in *.
  destruct (resume_eq host ps got (ss_last n) rc cx o n Hl Hcx) as (o'&E&_). rewrite Hr in E.
  destruct (lk_calls _ _ _ _ Hl _ _ Hrc) as (cx'&Hcx'&Hs). rewrite Hcx in Hcx'. injection Hcx' as <-.
  destruct (cx_complete cx); [|done]. injection E as E _. unfold end_of in E. destruct (cx_state cx) eqn:Est; [|done..].
  destruct (Hs Est) as (rm&Hnm&Hid&Hin). rewrite Hnm in E. exists rm. split; [done|]. split; [done|]. unfold decode in E.
  destruct (db_load _ 0 (rm_buffer rm)) as [code|]; [|done]. cbn [mbind option_bind] in E. destruct (db_load _ 0 _) as [hid|]; [|done]. cbn in E.
  destruct (code =? 1); [done|]. destruct (code =? 2); [done|]. destruct (code =? 3); [done|]. by injection E as ->.
Qed.

(** A notification settles the calls it concerns. *)
Lemma settle y nm rc : inv y -> is_server nm = false -> concerns (y_state y).1 nm rc ->
  (forall ph, y_calls y !! rc = Some ph -> ph <> Sent) ->
  exists s1, onRecvMessage nm (y_state y) = (Ok tt, s1) /\ inv (MkSys (y_calls y) (y_got y ++ [nm]) s1) /\
    settled rc (verdict nm) nm (MkSys (y_calls y) (y_got y ++ [nm]) s1).
Proof.
  intros (Hl&Hpk&H0) Hns Hc Hph. destruct y as [ps got [o n]]. cbn [y_calls y_got y_state fst snd] in *.
  destruct (wp_run _ _ _ (onRecv_spec ps got _ nm o n Hl Hpk Hns)) as ([]&[o1 n1]&E&En&Hl1&Hpk1&_&Hd). cbn [fst snd] in *. subst n1.
  exists (o1, n). split; [done|]. split; [done|]. specialize (Hd rc Hc). split; [|auto]. cbn.
  destruct Hd as (x&Hx&_). by apply (lk_ctx _ _ _ _ Hl1) in Hx as [? _].
Qed.

(** C18 rpc_completes: no call that waits is forgotten: when a connection ends, every
    waiting call to this peer is completed, whatever the other threads do afterwards it
    stays completed, and as soon as its caller looks it gets RpcBrokenPipeException. *)
Theorem rpc_completes (y y2 : sys) (code : WorkerNotifyMessageCode) (p : net_peer_info) (txt : note_text) (rc : Z) (s1 : client * N)
    (Hy : reachable host y) (Hp : pending (y_state y).1 rc p)
    (Hrecv : onRecvMessage (WorkerNotifyMessage code p txt) (y_state y) = (Ok tt, s1))
    (Hsteps : rtc (step host) (MkSys (y_calls y) (y_got y ++ [WorkerNotifyMessage code p txt]) s1) y2)
    (Hrc : y_calls y2 !! rc = Some Armed) :
  (recv_resume host rc (y_state y2)).1 = Ok (Some (inl RpcBrokenPipeException)).
Proof.
  pose proof (reachable_inv host y Hy) as Hi. set (nm := WorkerNotifyMessage code p txt) in *.
  destruct (settle y nm rc Hi eq_refl Hp) as (s1'&E&Hi1&Hset).
  { intros ph Hph ->. destruct Hi as (Hl&_). destruct (lk_calls _ _ _ _ Hl _ _ Hph) as (x&Hx&_&_&Hn), Hp as (z&Hz&_&Hzi). congruence. }
  rewrite Hrecv in E. injection E as <-. destruct (steps_inv host _ _ Hi1 Hsteps) as [(Hl2&_) Hk].
  destruct (Hk _ _ _ Hset) as [_ Hd]. destruct (Hd _ Hrc) as [_ (x&Hx&Hxc&Hxs&_)]. destruct y2 as [ps2 got2 [o2 n2]]. cbn in *.
  destruct (resume_eq host ps2 got2 _ rc x o2 n2 Hl2 Hx) as (o'&->&_). rewrite Hxc. cbn. unfold end_of. by rewrite Hxs.
Qed.
End client.

(** ** A call from end to end *)

Section call.
Context `{PbMessage} (host1 host2 : byte_order) {K N1 N2 : Type} `{!ISocketService N1, !ISocketIdLaws N1} `{!ISocketService N2, !ISocketServiceLaws N2}.

(** A response, decoded by the caller. *)
Lemma response_decode rm peer id h res :
  note_wire (MessageNotifyMessage rm) = Some (peer, Wire id (response_bytes OK h (Some res))) -> pb_fits res ->
  zlen (SerializeToArray res) < 2147483648 ->
  exists rm', decode host1 rm = Some (inr rm') /\ rpc_result (type_of res) rm' = Some res.
Proof.
  cbn [note_wire]. destruct (readable (rm_buffer rm)) eqn:Hr; [|done]. intros E Hfit Hz. assert (db_content (rm_buffer rm) = response_bytes OK h (Some res)) as Ec by congruence.
  unfold response_bytes in Ec. destruct (readable_move _ 2 _ _ Hr Ec ltac:(done)) as (Ec2&Hr2&_). specialize (Hr2 ltac:(done)).
  unfold decode. rewrite (readable_load16 host1 _ _ _ Hr Ec). cbn [mbind option_bind]. rewrite (readable_load16 host1 _ _ _ Hr2 Ec2). cbn [mbind option_bind].
  change (u16 (rpc_code OK)) with 0. cbn [Z.eqb rpc_code]. eexists. split; [done|]. unfold rpc_result, ProtoBufUtils.Deserialize. cbn [rm_buffer].
  destruct (readable_move _ 2 _ _ Hr2 Ec2 ltac:(done)) as [-> _]. by apply pb_message_roundtrip.
Qed.

(** C15 rpc_call: a call does what its handler does. The request a client sends for a
    waiting call is the frame the server receives; the server runs the handler once, on
    the request, and queues one response for the client; when the frame of this response
    arrives at the client, whatever its other threads do afterwards, the caller gets
    exactly what the handler has returned. *)
Theorem rpc_call (y : sys) (rc : Z) (cx : RpcCtx) (h : Z) (req res : pb_msg) (nm : NotifyMessage) (to from : net_peer_info)
    (hd : IRpcHandler K) (q : list SndMessage) (o : RpcServerSync.t K) (k k' : K) (n : N2)
    (Hy : reachable host1 y) (Hcx : ctxs (y_state y).1 !! rc = Some cx) (Hwait : m_hmapRpcCtxs (y_state y).1 !! cx_msgId cx = Some rc)
    (Hid : id_ok (cx_msgId cx)) (Hh : 0 <= h < 65536) (Hfit : pb_fits req /\ pb_fits res) (Hsmall : small req /\ small res)
    (Hnm : note_wire nm = Some (from, Wire (cx_msgId cx) (request_bytes h (Some req)))) (Htcp : np_sp from = Tcp)
    (Hhd : RpcServerSync.m_hmHandlers o !! h = Some (Some hd)) (Hcm : CreateMessage hd = Some (type_of req)) (Hopen : ss_open from q n)
    (Hrun : Handle hd req k = (Ok (Some res), k')) :
  let request := MkSnd (cx_msgId cx) to (RpcRequest host1 h (Some req)) in
  sends request (Wire (cx_msgId cx) (request_bytes h (Some req))) /\
  exists response n', RpcServerSync.proc_msg host2 nm (o, (k, n)) = (Ok tt, (o, (k', n'))) /\ ss_open from (q ++ [response]) n' /\
    exists w, sends response w /\
      forall rm peer, note_wire (MessageNotifyMessage rm) = Some (peer, w) ->
        exists s1, onRecvMessage (MessageNotifyMessage rm) (y_state y) = (Ok tt, s1) /\
          forall y2, rtc (step host1) (MkSys (y_calls y) (y_got y ++ [MessageNotifyMessage rm]) s1) y2 -> y_calls y2 !! rc = Some Armed ->
            (rpc_end host1 (type_of res) rc (y_state y2)).1 = Ok (Some (inr (Some res))).
Proof.
  destruct Hfit as [Hf1 Hf2], Hsmall as [Hs1 Hs2]. unfold small, MAX_MSG_PAYLOAD_SIZE in *. cbv zeta. split.
  { split; [done|apply request_derives; cbn [body]; lia|]. split; [done|]. unfold request_bytes, MAX_MSG_PAYLOAD_SIZE. cbn [w_payload body]. zlens.
    pose proof (zlen_nonneg (SerializeToArray req)). lia. }
  assert (wp (RpcServerSync.proc_msg host2 nm) (o, (k, n)) (fun _ s => exists sm, s.1 = o /\ s.2.1 = k' /\
    responds from (cx_msgId cx) h (Some res) sm /\ ss_open from (q ++ [sm]) s.2.2)) as Hwp.
  { eapply (proc_msg_spec host2 nm from (cx_msgId cx) h req hd q); [done|done|lia|done..|]. eapply wp_eq; [exact Hrun|].
    split; [unfold MAX_MSG_PAYLOAD_SIZE; cbn [body]; lia|]. intros sm n' Hresp Hop. by exists sm. }
  apply wp_run in Hwp as ([]&[o1 [k1 n1]]&E&sm&Eo&Ek&[_ Hsends]&Hop). cbn [fst snd] in *. subst o1 k1.
  exists sm, n1. split; [done|]. split; [done|]. eexists. split; [exact Hsends|]. intros rm peer Hw.
  pose proof (reachable_inv host1 y Hy) as Hi.
  assert (h_id (rm_header rm) = cx_msgId cx) as Erm by (cbn [note_wire] in Hw; destruct (readable _); congruence).
  destruct (settle y (MessageNotifyMessage rm) rc Hi eq_refl) as (s1&E1&Hi1&Hset).
  { cbn. by rewrite Erm. }
  { intros ph Hph ->. destruct Hi as (Hl&_). destruct (lk_calls _ _ _ _ Hl _ _ Hph) as (x&Hx&_&_&Hn). congruence. }
  exists s1. split; [done|]. intros y2 Hsteps Hrc. destruct (steps_inv host1 _ _ Hi1 Hsteps) as [(Hl2&_) Hk].
  destruct (Hk _ _ _ Hset) as [_ Hd]. destruct (Hd _ Hrc) as [_ (x&Hx&Hxc&Hxs&Hxn)]. destruct y2 as [ps2 got2 [o2 n2]]. cbn [y_state fst] in *.
  destruct (resume_eq host1 ps2 got2 _ rc x o2 n2 Hl2 Hx) as (o'&Er&_). destruct (response_decode rm peer (cx_msgId cx) h res Hw Hf2) as (rm'&Edec&Eres); [lia|].
  unfold rpc_end, mbind, M_bind. rewrite Er, Hxc. unfold end_of. rewrite Hxs, Hxn, Edec by done. cbn. by rewrite Eres.
Qed.
End call.

(** ** Concrete runs *)

(** A codec for the messages: tag, flags, texts and a number, counted. *)
Section codec.
Definition flat : Type := Z * Z * list (list byte) * Z.
Definition entries_flat (es : list Entry) : list (list byte) := concat (map (fun e => [key e; value e]) es).
Fixpoint entries_of (l : list (list byte)) : list Entry :=
  match l with k :: v :: l => MkEntry k v :: entries_of l | _ => [] end.
Definition rc_flat (rc : option pcode) : Z := match rc with None => 0 | Some ArgsErr => 1 | Some InternalErr => 2 end.
Definition rc_back (z : Z) : option pcode := match z with 0 => None | 1 => Some ArgsErr | _ => Some InternalErr end.

Definition flatten (m : pb_msg) : flat :=
  match m with
  | PutRequest e => (0, 0, entries_flat (option_list e), 0)
  | PutResponse rc s => (1, rc_flat rc, [s], 0)
  | GetRequest k => (2, 0, [k], 0)
  | GetResponse rc e s => (3, rc_flat rc, s :: entries_flat (option_list e), 0)
  | DeleteRequest k => (4, 0, [k], 0)
  | DeleteResponse rc s => (5, rc_flat rc, [s], 0)
  | ScanRequest_ r => (6, (if containStartKey r then 2 else 0) + (match order r with Asc => 0 | Desc => 1 end), [startKey r], limit r)
  | ScanResponse rc es s => (7, rc_flat rc, s :: entries_flat es, 0)
  end.
Definition unflatten (t : pb_type) (f : flat) : option pb_msg :=
  match t, f with
  | PutRequestT, (0, _, l, _) => Some (PutRequest (head (entries_of l)))
  | PutResponseT, (1, rc, [s], _) => Some (PutResponse (rc_back rc) s)
  | GetRequestT, (2, _, [k], _) => Some (GetRequest k)
  | GetResponseT, (3, rc, s :: l, _) => Some (GetResponse (rc_back rc) (head (entries_of l)) s)
  | DeleteRequestT, (4, _, [k], _) => Some (DeleteRequest k)
  | DeleteResponseT, (5, rc, [s], _) => Some (DeleteResponse (rc_back rc) s)
  | ScanRequestT, (6, fl, [k], n) => Some (ScanRequest_ (MkScan k (2 <=? fl) (if Z.even fl then Asc else Desc) n))
  | ScanResponseT, (7, rc, s :: l, _) => Some (ScanResponse (rc_back rc) (entries_of l) s)
  | _, _ => None
  end.

Lemma entries_flat_of es : entries_of (entries_flat es) = es.
Proof. induction es as [|[k v] es IH]; [done|]. unfold entries_flat in *. simpl. by rewrite IH. Qed.
Lemma rc_flat_back rc : rc_back (rc_flat rc) = rc.
Proof. by destruct rc as [[]|]. Qed.

Lemma unflatten_flatten m : unflatten (type_of m) (flatten m) = Some m.
Proof.
  destruct m as [e|rc s|k|rc e s|k|rc s|[k b []  n]|rc es s]; cbn [type_of flatten unflatten]; rewrite ?entries_flat_of, ?rc_flat_back; try done.
  - by destruct e.
  - by destruct e.
  - cbn. by destruct b.
  - cbn. by destruct b.
Qed.

(** The digits of a positive number, and back. *)
Fixpoint bits (p : positive) : list byte := match p with xH => [] | xO p => x00 :: bits p | xI p => x01 :: bits p end.
Fixpoint of_bits (l : list byte) : option positive :=
  match l with [] => Some xH | x00 :: l => xO <$> of_bits l | x01 :: l => xI <$> of_bits l | _ => None end.
Lemma of_bits_bits p : of_bits (bits p) = Some p.
Proof. induction p as [p IH|p IH|]; simpl; [by rewrite IH..|done]. Qed.

Definition demo_pbm : PbMessage.
Proof.
  refine {| SerializeToArray m := bits (encode (flatten m));
            ParseFromArray t l := p ← of_bits l; f ← countable.decode p; unflatten t f |}.
  intros m _ _. rewrite of_bits_bits. cbn [mbind option_bind]. rewrite decode_encode. apply unflatten_flatten.
Defined.
End codec.

(** A socket service with one connection, where no other peer can be reached. *)
Section service.
Definition one_SendMessage (m : SndMessage) : M (worker * netw) bool :=
  if bool_decide (np_sp (snd_peer m) = Tcp) then
    p ← getO m_logicPeer;
    if bool_decide (p = snd_peer m) then '(rc, _) ← SendMessage m; mret rc else mret false
  else halt Aborted.
Definition one_service : ISocketService (worker * netw) := {|
  ss_GetNewId := io SndMessage.GetNewId; ss_Start := mret true; ss_SendMessage := one_SendMessage
|}.

Lemma push_run m (o : worker) (w : netw) :
  m_iQueueMaxSize (m_bqMessages o) = 0 -> exists b,
  SendMessage m (o, w) = (Ok (true, b), (set_bq (MkQ 0 (m_queue (m_bqMessages o) ++ [m])) o, w)).
Proof.
  intros Hq. unfold SendMessage, InsertMessage, mbind, M_bind, getO, mret, M_ret. cbn [fst snd]. unfold TryPush, is_full.
  rewrite Hq. cbn. by eexists.
Qed.

Definition one_laws : @ISocketServiceLaws (worker * netw) one_service.
Proof.
  refine (@Build_ISocketServiceLaws _ one_service
    (fun p q s => m_logicPeer s.1 = p /\ m_queue (m_bqMessages s.1) = q /\ m_iQueueMaxSize (m_bqMessages s.1) = 0) _ _ _).
  - intros p q [o w] Hs. exact Hs.
  - intros q m [o w] Htcp (Hp&Hq&Hm). cbn [fst snd] in *. cbn [ss_SendMessage one_service]. unfold one_SendMessage.
    rewrite bool_decide_true by done. wpure. rewrite bool_decide_true by done. wbind. destruct (push_run m o w Hm) as (b&E).
    eapply wp_eq; [exact E|]. wpure. split; [done|]. cbn. by rewrite Hq.
  - intros p q m [o w] Hn _. cbn [ss_SendMessage one_service]. unfold one_SendMessage. by rewrite bool_decide_false.
Defined.

Definition one_ids : @ISocketIdLaws (worker * netw) one_service.
Proof.
  refine (@Build_ISocketIdLaws _ one_service (fun s => s_lastId s.2) _ _).
  - intros [o w] Hl. cbn [snd ss_GetNewId one_service] in *. apply wp_io. unfold SndMessage.GetNewId, wp, wpc. rewrite u64_small by lia.
    destruct (Z.eqb_spec (s_lastId w + 1) 18446744073709551615); [lia|]. done.
  - intros m [o w] r [o' w'] E. cbn [ss_SendMessage one_service] in E. unfold one_SendMessage in E. case_bool_decide; [|done].
    apply bind_inv in E as (p&s1&Ep&E). injection Ep as <- <-. case_bool_decide; [|by injection E as <- <- <-].
    unfold SendMessage, InsertMessage, mbind, M_bind, getO, modO, mret, M_ret in E. cbn [fst snd] in E.
    destruct (TryPush m (m_bqMessages o)) as [[] ? ?|]; cbn in E; try done. by injection E as <- <- <-.
Defined.
End service.

Section demo.
#[local] Existing Instance demo_pool.
#[local] Existing Instance demo_pb.
#[local] Existing Instance demo_pbm.
#[local] Existing Instance one_service.
#[local] Existing Instance one_laws.
#[local] Existing Instance one_ids.
#[local] Existing Instance demo_iwal.
#[local] Existing Instance demo_icp.
#[local] Existing Instance demo_wal_laws.
#[local] Existing Instance demo_cp_laws.

Abbreviation DK := (MiniKV LogCleanWal EntryOrderCheckpoint.t * world)%type.
Definition no_text (_ : Z) : list byte := [].
#[local] Instance demo_op : IKVOperator DK := MiniKV_IKVOperator no_text.

(** A received message, and the peer both sides know each other by. *)
Definition note_of (id : Z) (payload : list byte) : NotifyMessage :=
  MessageNotifyMessage (MkRcv 0 demo_peer (MkHeader MESSAGE_MAGIC_NO id (zlen payload))
    (DBuf (Buffer_make 100 (100 + zlen payload - 1) 100 (100 + zlen payload - 1) None false) payload)).
Definition request_note (id : Z) (x : call) : NotifyMessage := note_of id (request_bytes (call_id x) (Some (call_msg x))).

Definition demo_conn : worker * netw := demo_open [] (demo_net true [] []).
Definition demo_server_state : KVRpcServerSync.t DK * (DK * (worker * netw)) :=
  (KVRpcServerSync.Start (KVRpcServerSync.make 4 8, (kv_started, demo_conn))).2.

Lemma demo_serving : serving no_text demo_server_state.1 [].
Proof.
  assert (wp KVRpcServerSync.Start (KVRpcServerSync.make 4 8, (kv_started, demo_conn)) (fun _ s => serving no_text s.1 [])) as Hwp.
  { eapply wp_mono; [apply server_start_spec; by apply wp_ret|]. by intros r s (_&?&_). }
  apply wp_run in Hwp as (r&s&E&Hs). unfold demo_server_state. by rewrite E.
Qed.

Definition demo_calls : list (Z * call) := [(5, CPut (demo_entry x61 x31)); (6, CGet [x61])].
Definition demo_evs : list event := [Arrives (request_note 5 (CPut (demo_entry x61 x31))); Works; Works; Arrives (request_note 6 (CGet [x61]))].


(** *** A client with one call *)

Lemma run_state {S A} (c : M S A) s a : (c s).1 = Ok a -> c s = (Ok a, (c s).2).
Proof. intros E. rewrite (surjective_pairing (c s)), E. done. Qed.

Definition demo_client0 : client * (worker * netw) := (Start (client_new, demo_conn)).2.
Definition demo_sent := (sendMessage LITTLE_ENDIAN RpcGet (Some (GetRequest [x61])) demo_peer demo_client0).2.
Definition demo_registered := (recv_register 1 demo_sent).2.
Definition demo_armed := (recv_arm 1 1000 demo_registered).2.
Definition demo_sys : sys := MkSys {[1 := Armed]} [] demo_armed.

Lemma demo_reachable : reachable LITTLE_ENDIAN demo_sys.
Proof.
  exists demo_client0.1, demo_client0.2. split; [exists (m_hmapRpcs demo_client0.1); vm_compute; reflexivity|]. split; [vm_compute; discriminate|].
  eapply rtc_l; [eapply (st_send _ ∅ [] demo_client0 RpcGet (Some (GetRequest [x61])) demo_peer 1 demo_sent)|].
  { vm_compute. split; [discriminate|reflexivity]. }
  { unfold demo_sent. apply run_state. vm_compute. reflexivity. }
  eapply rtc_l; [eapply (st_register _ _ [] demo_sent 1 demo_registered); [reflexivity|unfold demo_registered; apply run_state; vm_compute; reflexivity]|].
  eapply rtc_l; [eapply (st_arm _ _ [] demo_registered 1 1000 demo_armed); [reflexivity|reflexivity|unfold demo_armed; apply run_state; vm_compute; reflexivity]|].
  apply rtc_refl.
Qed.


(** The response to the call arrives. *)
Definition demo_answer : pb_msg := GetResponse None None [].
Definition demo_reply : NotifyMessage := note_of 1 (response_bytes OK GET_RPC_ID (Some demo_answer)).
Definition demo_ctx : RpcCtx := default RpcCtx_default (ctxs demo_armed.1 !! 1).
Definition demo_got : sys := MkSys {[1 := Armed]} [demo_reply] (onRecvMessage demo_reply demo_armed).2.
Definition demo_got_ctx : RpcCtx := default RpcCtx_default (ctxs (y_state demo_got).1 !! 1).
Definition demo_taken : RcvMessage :=
  match demo_reply with
  | MessageNotifyMessage rm => MkRcv (rm_mpo rm) (rm_peer rm) (rm_header rm) (db_op (MoveHeadBack 2) (rm_buffer rm))
  | _ => MkRcv 0 demo_peer (MkHeader 0 0 0) (DBuf Buffer_default [])
  end.

Lemma demo_got_reachable : reachable LITTLE_ENDIAN demo_got.
Proof.
  destruct demo_reachable as (o&n&Hf&Hn&Hr). exists o, n. split; [done|]. split; [done|]. eapply rtc_r; [exact Hr|].
  apply (st_recv _ {[1 := Armed]} [] demo_armed demo_reply). apply run_state. vm_compute. reflexivity.
Qed.

Lemma rpc_reply_witness :
  exists rm, MessageNotifyMessage rm ∈ y_got demo_got /\ h_id (rm_header rm) = cx_msgId demo_got_ctx /\
    demo_taken = MkRcv (rm_mpo rm) (rm_peer rm) (rm_header rm) (db_op (MoveHeadBack 2) (rm_buffer rm)).
Proof.
  apply (rpc_reply LITTLE_ENDIAN demo_got 1 demo_got_ctx demo_taken (recv_resume LITTLE_ENDIAN 1 (y_state demo_got)).2).
  - exact demo_got_reachable.
  - reflexivity.
  - vm_compute. reflexivity.
  - apply run_state. vm_compute. reflexivity.
Defined.

Definition demo_broken := (onRecvMessage (WorkerNotifyMessage ClosedByPeer demo_peer (ClosedBy demo_peer)) demo_armed).2.

Lemma rpc_completes_witness :
  (recv_resume LITTLE_ENDIAN 1 demo_broken).1 = Ok (Some (inl RpcBrokenPipeException)).
Proof.
  apply (rpc_completes LITTLE_ENDIAN demo_sys
    (MkSys {[1 := Armed]} ([] ++ [WorkerNotifyMessage ClosedByPeer demo_peer (ClosedBy demo_peer)]) demo_broken)
    ClosedByPeer demo_peer (ClosedBy demo_peer) 1 demo_broken).
  - exact demo_reachable.
  - exists demo_ctx. vm_compute. repeat split.
  - unfold demo_broken. apply run_state. vm_compute. reflexivity.
  - apply rtc_refl.
  - reflexivity.
Defined.

Lemma rpc_call_witness :
  let request := MkSnd (cx_msgId demo_ctx) demo_peer (RpcRequest LITTLE_ENDIAN GET_RPC_ID (Some (GetRequest [x61]))) in
  sends request (Wire (cx_msgId demo_ctx) (request_bytes GET_RPC_ID (Some (GetRequest [x61])))) /\
  exists response n',
    RpcServerSync.proc_msg BIG_ENDIAN (request_note 1 (CGet [x61])) (KVRpcServerSync.m_pRpcServer demo_server_state.1, (kv_started, demo_conn)) =
      (Ok tt, (KVRpcServerSync.m_pRpcServer demo_server_state.1, (kv_started, n'))) /\ ss_open demo_peer ([] ++ [response]) n' /\
    exists w, sends response w /\
      forall rm peer, note_wire (MessageNotifyMessage rm) = Some (peer, w) ->
        exists s1, onRecvMessage (MessageNotifyMessage rm) (y_state demo_sys) = (Ok tt, s1) /\
          forall y2, rtc (step LITTLE_ENDIAN) (MkSys (y_calls demo_sys) (y_got demo_sys ++ [MessageNotifyMessage rm]) s1) y2 ->
            y_calls y2 !! 1 = Some Armed ->
            (rpc_end LITTLE_ENDIAN (type_of demo_answer) 1 (y_state y2)).1 = Ok (Some (inr (Some demo_answer))).
Proof.
  apply (rpc_call LITTLE_ENDIAN BIG_ENDIAN demo_sys 1 demo_ctx GET_RPC_ID (GetRequest [x61]) demo_answer (request_note 1 (CGet [x61])) demo_peer demo_peer
    (MkHandler op_Get (Some GetRequestT)) [] (KVRpcServerSync.m_pRpcServer demo_server_state.1) kv_started kv_started demo_conn).
  - exact demo_reachable.
  - vm_compute. reflexivity.
  - vm_compute. reflexivity.
  - vm_compute. split; [discriminate|reflexivity].
  - vm_compute. split; [discriminate|reflexivity].
  - split; [exact I|constructor].
  - split; vm_compute; discriminate.
  - vm_compute. reflexivity.
  - reflexivity.
  - reflexivity.
  - reflexivity.
  - vm_compute. repeat split.
  - vm_compute. reflexivity.
Defined.

(** *** What goes wrong *)

Definition demo_begin (rc when : Z) : M (client * (worker * netw)) (rpc_exn + unit) :=
  _ ← sendMessage LITTLE_ENDIAN RpcGet (Some (GetRequest [x61])) demo_peer;
  recv_register rc;;
  recv_arm rc when.

(** A response that arrives between [SendMessageAsync] and the registration of the
    context is dropped, and the caller waits for it. *)
Theorem early_response_is_lost :
  (_ ← sendMessage LITTLE_ENDIAN RpcGet (Some (GetRequest [x61])) demo_peer; onRecvMessage demo_reply;;
   recv_register 1;; _ ← recv_arm 1 1000; recv_resume LITTLE_ENDIAN 1) demo_client0 =
  (Ok None, (demo_begin 1 1000 demo_client0).2).
Proof. vm_compute. reflexivity. Qed.

(** The timer's callback is a static object that has captured the id of the first call:
    the event of a later call comes and goes, and its caller sleeps on. *)
Theorem second_call_never_times_out :
  ((_ ← demo_begin 1 1000; onRecvMessage demo_reply;; _ ← recv_resume LITTLE_ENDIAN 1;
    _ ← demo_begin 2 2000; on_timer;; r ← recv_resume LITTLE_ENDIAN 2; t ← getO (fun o => Timer.m_mapSubscribedEvents (timer o)); mret (r, t)) demo_client0).1 = Ok (None, []).
Proof. vm_compute. reflexivity. Qed.

(** Two calls with the same deadline: the second is refused after it was sent and
    registered, and its context stays in the tables. *)
Theorem same_deadline_is_refused :
  ((_ ← demo_begin 1 1000; r ← demo_begin 2 1000; t ← getO (fun o => m_hmapRpcCtxs o !! 2); mret (r, t)) demo_client0).1 =
    Ok (inl RpcClientInternalException, Some 2).
Proof. vm_compute. reflexivity. Qed.

(** A client that was stopped cannot be started again. *)
Theorem client_starts_once : ((a ← Start; b ← Stop; c ← Start; mret (a, b, c)) (client_new, demo_conn)).1 = Ok (true, true, false).
Proof. vm_compute. reflexivity. Qed.
End demo.

(** The counter of a [ResourcePool] never changes: what is put back is never handed out
    again and not deleted with the pool. *)
Theorem resource_pool_keeps_everything max r rs : 0 < max ->
  let p := (ResourcePool.Put r (ResourcePool.Make max 0 rs)).2 in
  ResourcePool.Get p = Some (None, p) /\ ResourcePool.m_freeRes p = rs ++ [r] /\ ResourcePool.destroy p = [].
Proof. intros Hm. unfold ResourcePool.Put. cbn. destruct (Z.ltb_spec 0 max); [done|lia]. Qed.

(** A number of worker threads that is given is not used. *)
Theorem thread_count_is_ignored {K : Type} (cnt cpus : Z) :
  0 <> cnt -> RpcServerSync.m_iWorkThreadsCnt (RpcServerSync.make (K := K) cnt cpus) = 0.
Proof. intros Hn. unfold RpcServerSync.make. destruct (Z.eqb_spec 0 cnt); done. Qed.
