(* ===== verification/Hash.v ===== *)
(** * Hash functions (src/utils/hash-algorithms.cc, the hash of a peer in src/net/common-def.h)

    The three functions of MurmurHash3.  [key] is the memory from the pointer on; a block
    [getblock(p, i)] is a load in the host's byte order, and a load outside the memory, like
    a loop that runs away because [len] is negative, is [None].  A [switch] whose cases fall
    through is a list of conditional steps: [case n] runs exactly when the tail has at least
    [n] bytes. *)

From stdpp Require Import pretty.
From S2P Require Import Prelude Codec Net.
#[local] Open Scope Z_scope.

(** ** Operations on words *)

Definition rotl32 (x r : Z) : Z := Z.lor (u32 (Z.shiftl x r)) (Z.shiftr x (32 - r)).
Definition rotl64 (x r : Z) : Z := Z.lor (u64 (Z.shiftl x r)) (Z.shiftr x (64 - r)).

Definition fmix32 (h : Z) : Z :=
  let h := Z.lxor h (Z.shiftr h 16) in
  let h := u32 (h * 0x85ebca6b) in
  let h := Z.lxor h (Z.shiftr h 13) in
  let h := u32 (h * 0xc2b2ae35) in
  let h := Z.lxor h (Z.shiftr h 16) in
  h.

Definition fmix64 (k : Z) : Z :=
  let k := Z.lxor k (Z.shiftr k 33) in
  let k := u64 (k * 0xff51afd7ed558ccd) in
  let k := Z.lxor k (Z.shiftr k 33) in
  let k := u64 (k * 0xc4ceb9fe1a85ec53) in
  let k := Z.lxor k (Z.shiftr k 33) in
  k.

Section murmur.
Context (host : byte_order).

(** The value of [k] bytes of memory as an unsigned integer of the host. *)
Definition host_val (bs : list byte) : Z :=
  match host with BIG_ENDIAN => be_val bs | LITTLE_ENDIAN => be_val (rev bs) end.

(** [getblock(p, i)] for [p] at [base] and blocks of [k] bytes *)
Definition getblock (k : Z) (key : list byte) (base i : Z) : option Z :=
  let off := base + i * k in
  if (0 <=? off) && (off + k <=? zlen key) then Some (host_val (slice off k key)) else None.

(** [case j + 1: k ^= (T)tail[j] << sh;] *)
Definition tail_xor (wrap : Z -> Z) (tail : list byte) (rem j sh k : Z) : option Z :=
  if j <? rem then b ← tail !! Z.to_nat j; Some (Z.lxor k (wrap (Z.shiftl (b2z b) sh))) else Some k.

(** ** MurmurHash3_x86_32 *)

Definition x86_32_c1 : Z := 0xcc9e2d51.
Definition x86_32_c2 : Z := 0x1b873593.

(** [k1 *= c1; k1 = ROTL32(k1,15); k1 *= c2;] *)
Definition x86_32_k1 (k1 : Z) : Z := u32 (rotl32 (u32 (k1 * x86_32_c1)) 15 * x86_32_c2).

Definition x86_32_step (h1 k1 : Z) : Z :=
  let h1 := Z.lxor h1 (x86_32_k1 k1) in
  let h1 := rotl32 h1 13 in
  u32 (h1 * 5 + 0xe6546b64).

Fixpoint x86_32_body (fuel : nat) (key : list byte) (base i h1 : Z) : option Z :=
  if i =? 0 then Some h1
  else match fuel with
       | O => None
       | S fuel =>
           k1 ← getblock 4 key base i;
           x86_32_body fuel key base (i + 1) (x86_32_step h1 k1)
       end.

Definition x86_32_tail (tail : list byte) (rem h1 : Z) : option Z :=
  k1 ← tail_xor u32 tail rem 2 16 0;
  k1 ← tail_xor u32 tail rem 1 8 k1;
  k1 ← tail_xor u32 tail rem 0 0 k1;
  Some (if 1 <=? rem then Z.lxor h1 (x86_32_k1 k1) else h1).

Definition MurmurHash3_x86_32 (key : list byte) (len seed : Z) : option Z :=
  let nblocks := Z.quot len 4 in
  let h1 := seed in
  h1 ← x86_32_body (Z.to_nat nblocks) key (nblocks * 4) (- nblocks) h1;
  let tail := drop (Z.to_nat (nblocks * 4)) key in
  h1 ← x86_32_tail tail (Z.land len 3) h1;
  let h1 := Z.lxor h1 (u32 len) in
  Some (fmix32 h1).

(** ** MurmurHash3_x86_128 *)

Definition x86_128_c1 : Z := 0x239b961b.
Definition x86_128_c2 : Z := 0xab0e9789.
Definition x86_128_c3 : Z := 0x38b34ae5.
Definition x86_128_c4 : Z := 0xa1e38b93.

Definition x86_128_k1 (k1 : Z) : Z := u32 (rotl32 (u32 (k1 * x86_128_c1)) 15 * x86_128_c2).
Definition x86_128_k2 (k2 : Z) : Z := u32 (rotl32 (u32 (k2 * x86_128_c2)) 16 * x86_128_c3).
Definition x86_128_k3 (k3 : Z) : Z := u32 (rotl32 (u32 (k3 * x86_128_c3)) 17 * x86_128_c4).
Definition x86_128_k4 (k4 : Z) : Z := u32 (rotl32 (u32 (k4 * x86_128_c4)) 18 * x86_128_c1).

Definition word4 : Type := Z * Z * Z * Z.

Definition x86_128_step (h k : word4) : word4 :=
  let '(h1, h2, h3, h4) := h in
  let '(k1, k2, k3, k4) := k in
  let h1 := Z.lxor h1 (x86_128_k1 k1) in
  let h1 := u32 (u32 (rotl32 h1 19 + h2) * 5 + 0x561ccd1b) in
  let h2 := Z.lxor h2 (x86_128_k2 k2) in
  let h2 := u32 (u32 (rotl32 h2 17 + h3) * 5 + 0x0bcaa747) in
  let h3 := Z.lxor h3 (x86_128_k3 k3) in
  let h3 := u32 (u32 (rotl32 h3 15 + h4) * 5 + 0x96cd1c35) in
  let h4 := Z.lxor h4 (x86_128_k4 k4) in
  let h4 := u32 (u32 (rotl32 h4 13 + h1) * 5 + 0x32ac3b17) in
  (h1, h2, h3, h4).

Fixpoint x86_128_body (fuel : nat) (key : list byte) (base i : Z) (h : word4) : option word4 :=
  if i =? 0 then Some h
  else match fuel with
       | O => None
       | S fuel =>
           k1 ← getblock 4 key base (i * 4 + 0);
           k2 ← getblock 4 key base (i * 4 + 1);
           k3 ← getblock 4 key base (i * 4 + 2);
           k4 ← getblock 4 key base (i * 4 + 3);
           x86_128_body fuel key base (i + 1) (x86_128_step h (k1, k2, k3, k4))
       end.

Definition x86_128_tail (tail : list byte) (rem : Z) (h : word4) : option word4 :=
  let '(h1, h2, h3, h4) := h in
  k4 ← tail_xor u32 tail rem 14 16 0;
  k4 ← tail_xor u32 tail rem 13 8 k4;
  k4 ← tail_xor u32 tail rem 12 0 k4;
  let h4 := if 13 <=? rem then Z.lxor h4 (x86_128_k4 k4) else h4 in
  k3 ← tail_xor u32 tail rem 11 24 0;
  k3 ← tail_xor u32 tail rem 10 16 k3;
  k3 ← tail_xor u32 tail rem 9 8 k3;
  k3 ← tail_xor u32 tail rem 8 0 k3;
  let h3 := if 9 <=? rem then Z.lxor h3 (x86_128_k3 k3) else h3 in
  k2 ← tail_xor u32 tail rem 7 24 0;
  k2 ← tail_xor u32 tail rem 6 16 k2;
  k2 ← tail_xor u32 tail rem 5 8 k2;
  k2 ← tail_xor u32 tail rem 4 0 k2;
  let h2 := if 5 <=? rem then Z.lxor h2 (x86_128_k2 k2) else h2 in
  k1 ← tail_xor u32 tail rem 3 24 0;
  k1 ← tail_xor u32 tail rem 2 16 k1;
  k1 ← tail_xor u32 tail rem 1 8 k1;
  k1 ← tail_xor u32 tail rem 0 0 k1;
  let h1 := if 1 <=? rem then Z.lxor h1 (x86_128_k1 k1) else h1 in
  Some (h1, h2, h3, h4).

Definition x86_128_mix (h : word4) : word4 :=
  let '(h1, h2, h3, h4) := h in
  let h1 := u32 (h1 + h2) in let h1 := u32 (h1 + h3) in let h1 := u32 (h1 + h4) in
  let h2 := u32 (h2 + h1) in let h3 := u32 (h3 + h1) in let h4 := u32 (h4 + h1) in
  (h1, h2, h3, h4).

Definition x86_128_final (len : Z) (h : word4) : word4 :=
  let '(h1, h2, h3, h4) := h in
  let '(h1, h2, h3, h4) :=
    x86_128_mix (Z.lxor h1 (u32 len), Z.lxor h2 (u32 len), Z.lxor h3 (u32 len), Z.lxor h4 (u32 len)) in
  x86_128_mix (fmix32 h1, fmix32 h2, fmix32 h3, fmix32 h4).

Definition MurmurHash3_x86_128 (key : list byte) (len seed : Z) : option word4 :=
  let nblocks := Z.quot len 16 in
  h ← x86_128_body (Z.to_nat nblocks) key (nblocks * 16) (- nblocks) (seed, seed, seed, seed);
  let tail := drop (Z.to_nat (nblocks * 16)) key in
  h ← x86_128_tail tail (Z.land len 15) h;
  Some (x86_128_final len h).

(** ** MurmurHash3_x64_128 *)

Definition x64_128_c1 : Z := 0x87c37b91114253d5.
Definition x64_128_c2 : Z := 0x4cf5ad432745937f.

Definition x64_128_k1 (k1 : Z) : Z := u64 (rotl64 (u64 (k1 * x64_128_c1)) 31 * x64_128_c2).
Definition x64_128_k2 (k2 : Z) : Z := u64 (rotl64 (u64 (k2 * x64_128_c2)) 33 * x64_128_c1).

Definition x64_128_step (h k : Z * Z) : Z * Z :=
  let '(h1, h2) := h in
  let '(k1, k2) := k in
  let h1 := Z.lxor h1 (x64_128_k1 k1) in
  let h1 := u64 (u64 (rotl64 h1 27 + h2) * 5 + 0x52dce729) in
  let h2 := Z.lxor h2 (x64_128_k2 k2) in
  let h2 := u64 (u64 (rotl64 h2 31 + h1) * 5 + 0x38495ab5) in
  (h1, h2).

(** [for(i = 0; i < nblocks; i++)] *)
Fixpoint x64_128_body (fuel : nat) (key : list byte) (nblocks i : Z) (h : Z * Z) : option (Z * Z) :=
  if i <? nblocks then
    match fuel with
    | O => None
    | S fuel =>
        k1 ← getblock 8 key 0 (i * 2 + 0);
        k2 ← getblock 8 key 0 (i * 2 + 1);
        x64_128_body fuel key nblocks (i + 1) (x64_128_step h (k1, k2))
    end
  else Some h.

Definition x64_128_tail (tail : list byte) (rem : Z) (h : Z * Z) : option (Z * Z) :=
  let '(h1, h2) := h in
  k2 ← tail_xor u64 tail rem 14 48 0;
  k2 ← tail_xor u64 tail rem 13 40 k2;
  k2 ← tail_xor u64 tail rem 12 32 k2;
  k2 ← tail_xor u64 tail rem 11 24 k2;
  k2 ← tail_xor u64 tail rem 10 16 k2;
  k2 ← tail_xor u64 tail rem 9 8 k2;
  k2 ← tail_xor u64 tail rem 8 0 k2;
  let h2 := if 9 <=? rem then Z.lxor h2 (x64_128_k2 k2) else h2 in
  k1 ← tail_xor u64 tail rem 7 56 0;
  k1 ← tail_xor u64 tail rem 6 48 k1;
  k1 ← tail_xor u64 tail rem 5 40 k1;
  k1 ← tail_xor u64 tail rem 4 32 k1;
  k1 ← tail_xor u64 tail rem 3 24 k1;
  k1 ← tail_xor u64 tail rem 2 16 k1;
  k1 ← tail_xor u64 tail rem 1 8 k1;
  k1 ← tail_xor u64 tail rem 0 0 k1;
  let h1 := if 1 <=? rem then Z.lxor h1 (x64_128_k1 k1) else h1 in
  Some (h1, h2).

Definition x64_128_mix (h : Z * Z) : Z * Z :=
  let '(h1, h2) := h in
  let h1 := u64 (h1 + h2) in
  let h2 := u64 (h2 + h1) in
  (h1, h2).

Definition x64_128_final (len : Z) (h : Z * Z) : Z * Z :=
  let '(h1, h2) := h in
  let '(h1, h2) := x64_128_mix (Z.lxor h1 (u64 len), Z.lxor h2 (u64 len)) in
  x64_128_mix (fmix64 h1, fmix64 h2).

Definition MurmurHash3_x64_128 (key : list byte) (len seed : Z) : option (Z * Z) :=
  let nblocks := Z.quot len 16 in
  h ← x64_128_body (Z.to_nat nblocks) key nblocks 0 (seed, seed);
  let tail := drop (Z.to_nat (nblocks * 16)) key in
  h ← x64_128_tail tail (Z.land len 15) h;
  Some (x64_128_final len h).

(** ** std::hash of a peer *)

Definition protocol_code (sp : SocketProtocol) : Z := match sp with NoProtocol => 0 | Tcp => 1 | Udp => 2 end.

(** [ss << npit.nat.addr << ":" << npit.nat.port << "-" << (int)(npit.sp)] *)
Definition peer_key (npit : net_peer_info) : string :=
  np_addr npit +:+ ":" +:+ pretty (np_port npit) +:+ "-" +:+ pretty (protocol_code (np_sp npit)).

Definition hash_peer (npit : net_peer_info) : option Z :=
  let key := String.list_byte_of_string (peer_key npit) in
  MurmurHash3_x86_32 key (i32 (zlen key)) 22.
End murmur.

(** The published test vectors. *)
Example x86_32_empty : MurmurHash3_x86_32 LITTLE_ENDIAN [] 0 1 = Some 0x514e28b7.
Proof. reflexivity. Qed.
Example x86_32_hello :
  MurmurHash3_x86_32 LITTLE_ENDIAN (String.list_byte_of_string "hello") 5 0 = Some 0x248bfa47.
Proof. vm_compute. reflexivity. Qed.
Example x86_32_fox :
  MurmurHash3_x86_32 LITTLE_ENDIAN (String.list_byte_of_string "The quick brown fox jumps over the lazy dog") 43 0 =
  Some 0x2e4ff723.
Proof. vm_compute. reflexivity. Qed.
Example x64_128_hello :
  MurmurHash3_x64_128 LITTLE_ENDIAN (String.list_byte_of_string "hello") 5 0 =
  Some (0xcbd8a7b341bd9b02, 0x5b1e906a48ae1d19).
Proof. vm_compute. reflexivity. Qed.
Example x86_128_fox :
  MurmurHash3_x86_128 LITTLE_ENDIAN (String.list_byte_of_string "The quick brown fox jumps over the lazy dog") 43 0 =
  Some (0x2f1583c3, 0xecee2c67, 0x5d7bf66c, 0xe5e91d2c).
Proof. vm_compute. reflexivity. Qed.
