(* ===== verification/HashTheorems.v ===== *)
(** * What the hash functions guarantee

    On a key of [len] bytes the three functions read exactly these bytes, end, and return
    words of their width; each is the fold of its step over the blocks of the key, with the
    tail and the length mixed in at the end.  Every part of them is a permutation of the
    words it works on, for fixed other arguments.  So the seeds give different hashes, and so
    do keys that differ in one block only: no information of a single block is lost. *)

From S2P Require Import Prelude Codec Net Hash.

(** ** Permutations of the words below a modulus *)

Definition inr (m x : Z) : Prop := 0 <= x < m.

Record perm (m : Z) (f : Z -> Z) : Prop := {
  pm_range : forall x, inr m x -> inr m (f x);
  pm_inj : forall x y, inr m x -> inr m y -> f x = f y -> x = y
}.

Lemma perm_comp m f g : perm m f -> perm m g -> perm m (fun x => f (g x)).
Proof. intros [Rf If] [Rg Ig]. split; [by eauto|]. intros x y Hx Hy E. apply Ig; [done..|]. apply If; auto. Qed.

Lemma perm_affine m a b ai : (a * ai) mod m = 1 -> perm m (fun x => (x * a + b) mod m).
Proof.
  intros Ha. split; intros x; unfold inr; [intros; apply Z.mod_pos_bound; lia|].
  intros y Hx Hy E.
  assert ((x - y) mod m = 0) as Ed.
  { replace (x - y) with ((x - y) * 1) by lia. rewrite <- Ha, Zmult_mod_idemp_r.
    replace ((x - y) * (a * ai)) with (((x * a + b) - (y * a + b)) * ai) by lia.
    by rewrite <- Zmult_mod_idemp_l, Zminus_mod, E, Z.sub_diag, Zmod_0_l. }
  apply Z.mod_divide in Ed as [q Eq]; [|lia]. assert (q = 0) by nia. lia.
Qed.

Lemma perm_mul m a ai : (a * ai) mod m = 1 -> perm m (fun x => (x * a) mod m).
Proof.
  intros Ha. destruct (perm_affine m a 0 ai Ha) as [R I]. split; intros x.
  - intros Hx. specialize (R x Hx). by rewrite Z.add_0_r in R.
  - intros y Hx Hy E. apply I; [done..|]. by rewrite !Z.add_0_r.
Qed.

Lemma perm_add m b : 1 < m -> perm m (fun x => (x + b) mod m).
Proof.
  intros Hm. destruct (perm_affine m 1 b 1) as [R I]; [by rewrite Z.mod_small by lia|]. split; intros x.
  - intros Hx. specialize (R x Hx). by rewrite Z.mul_1_r in R.
  - intros y Hx Hy E. apply I; [done..|]. by rewrite !Z.mul_1_r.
Qed.

Lemma lxor_inj_r a b c : Z.lxor a c = Z.lxor b c -> a = b.
Proof.
  intros E. rewrite <- (Z.lxor_0_r a), <- (Z.lxor_0_r b), <- (Z.lxor_nilpotent c), <- !Z.lxor_assoc. by rewrite E.
Qed.

Section bits.
Context (w : Z) (Hw : 0 < w).

Lemma inr_bits x : inr (2 ^ w) x <-> (0 <= x /\ forall i, w <= i -> Z.testbit x i = false).
Proof.
  split.
  - intros [H0 H1]. split; [done|]. intros i Hi. rewrite <- (Z.mod_small x (2 ^ w)) by done. by apply Z.mod_pow2_bits_high; lia.
  - intros [H0 Hb]. split; [done|]. destruct (decide (x = 0)) as [->|Hx]; [lia|].
    apply Z.log2_lt_pow2; [lia|]. apply Z.nle_gt. intros Hle. specialize (Hb _ Hle).
    by rewrite Z.bit_log2 in Hb by lia.
Qed.

Lemma lxor_range x y : inr (2 ^ w) x -> inr (2 ^ w) y -> inr (2 ^ w) (Z.lxor x y).
Proof.
  rewrite !inr_bits. intros [Hx Bx] [Hy By]. split; [by apply Z.lxor_nonneg|].
  intros i Hi. by rewrite Z.lxor_spec, Bx, By.
Qed.

Lemma shiftr_range x r : 0 <= r -> inr (2 ^ w) x -> inr (2 ^ w) (Z.shiftr x r).
Proof.
  rewrite !inr_bits. intros Hr [Hx Bx]. split; [by apply Z.shiftr_nonneg|].
  intros i Hi. rewrite Z.shiftr_spec by lia. apply Bx. lia.
Qed.

Lemma perm_xor c : inr (2 ^ w) c -> perm (2 ^ w) (fun x => Z.lxor x c).
Proof. intros Hc. split; [by intros; apply lxor_range|]. intros x y _ _. apply lxor_inj_r. Qed.

(** [x ^ (x >> r)] determines [x]: the difference of two such words is its own shift. *)
Lemma perm_xorshift r : 0 < r -> perm (2 ^ w) (fun x => Z.lxor x (Z.shiftr x r)).
Proof.
  intros Hr. split; [intros x Hx; apply lxor_range; [done|apply shiftr_range; [lia|done]]|].
  intros x y Hx Hy E. set (d := Z.lxor x y).
  assert (d = Z.shiftr d r) as Ed.
  { unfold d. rewrite Z.shiftr_lxor. apply (lxor_inj_r _ _ (Z.lxor (Z.shiftr x r) (Z.shiftr y r))).
    rewrite Z.lxor_nilpotent. rewrite <- (Z.lxor_nilpotent (Z.lxor x (Z.shiftr x r))). rewrite E at 2.
    rewrite !Z.lxor_assoc. f_equal. rewrite <- !Z.lxor_assoc. f_equal. apply Z.lxor_comm. }
  assert (0 <= d) by (apply Z.lxor_nonneg; destruct Hx, Hy; lia).
  rewrite Z.shiftr_div_pow2 in Ed by lia.
  assert (2 <= 2 ^ r) by (change 2 with (2 ^ 1) at 1; apply Z.pow_le_mono_r; lia).
  assert (d = 0) as E0.
  { destruct (Z.eq_dec d 0); [done|]. assert (d / 2 ^ r < d) by (apply Z.div_lt; lia). lia. }
  by apply Z.lxor_eq in E0.
Qed.

Lemma rotl_split x r : 0 <= r <= w -> inr (2 ^ w) x ->
  Z.lor (Z.shiftl x r mod 2 ^ w) (Z.shiftr x (w - r)) = x mod 2 ^ (w - r) * 2 ^ r + x / 2 ^ (w - r).
Proof.
  intros Hr [H0 H1]. assert (0 <= x / 2 ^ (w - r) < 2 ^ r) as Hq.
  { split; [apply Z.div_pos; lia|]. apply Z.div_lt_upper_bound; [lia|]. rewrite <- Z.pow_add_r by lia.
    by replace (w - r + r) with w by lia. }
  rewrite Z.shiftr_div_pow2, Z.shiftl_mul_pow2 by lia.
  replace (2 ^ w) with (2 ^ (w - r) * 2 ^ r) by (rewrite <- Z.pow_add_r by lia; f_equal; lia).
  rewrite Zmult_mod_distr_r, <- Z.shiftl_mul_pow2 by lia.
  set (a := x mod 2 ^ (w - r)) in *. set (b := x / 2 ^ (w - r)) in *.
  rewrite <- Z.add_lor_land. assert (Z.land (Z.shiftl a r) b = 0) as ->; [|lia].
  apply Z.bits_inj'. intros i Hi. rewrite Z.land_spec, Z.shiftl_spec, Z.bits_0 by done.
  destruct (Z.lt_ge_cases i r); [by rewrite Z.testbit_neg_r by lia|].
  replace (Z.testbit b i) with false; [apply andb_false_r|].
  symmetry. rewrite <- (Z.mod_small b (2 ^ r)) by done. by apply Z.mod_pow2_bits_high; lia.
Qed.

Lemma perm_rot r : 0 <= r <= w -> perm (2 ^ w) (fun x => Z.lor (Z.shiftl x r mod 2 ^ w) (Z.shiftr x (w - r))).
Proof.
  intros Hr. assert (2 ^ w = 2 ^ (w - r) * 2 ^ r) as Ew by (rewrite <- Z.pow_add_r by lia; f_equal; lia).
  assert (0 < 2 ^ (w - r)) by (apply Z.pow_pos_nonneg; lia). assert (0 < 2 ^ r) by (apply Z.pow_pos_nonneg; lia).
  assert (forall x, inr (2 ^ w) x -> 0 <= x / 2 ^ (w - r) < 2 ^ r) as Hq.
  { intros x [? ?]. split; [apply Z.div_pos; lia|]. apply Z.div_lt_upper_bound; lia. }
  split; intros x.
  - intros Hx. rewrite rotl_split by done. specialize (Hq x Hx). pose proof (Z.mod_pos_bound x (2 ^ (w - r)) ltac:(lia)).
    rewrite Ew. split; nia.
  - intros y Hx Hy. rewrite !rotl_split, !(Z.mul_comm (_ mod _)) by done. intros E.
    pose proof (Hq x Hx). pose proof (Hq y Hy).
    apply (Z.div_mod_unique (2 ^ r)) in E as [E1 E2]; [|lia|lia].
    rewrite (Z.div_mod x (2 ^ (w - r))), (Z.div_mod y (2 ^ (w - r))) by lia. by rewrite E1, E2.
Qed.
End bits.

(** ** The words of the two widths *)

Notation m32 := 4294967296 (only parsing).
Notation m64 := 18446744073709551616 (only parsing).

Lemma perm32_mul a ai : (a * ai) mod m32 = 1 -> perm m32 (fun x => u32 (x * a)).
Proof. apply perm_mul. Qed.
Lemma perm64_mul a ai : (a * ai) mod m64 = 1 -> perm m64 (fun x => u64 (x * a)).
Proof. apply perm_mul. Qed.
Lemma perm32_rot r : 0 <= r <= 32 -> perm m32 (fun x => rotl32 x r).
Proof. apply (perm_rot 32 ltac:(lia)). Qed.
Lemma perm64_rot r : 0 <= r <= 64 -> perm m64 (fun x => rotl64 x r).
Proof. apply (perm_rot 64 ltac:(lia)). Qed.

Lemma fmix32_perm : perm m32 fmix32.
Proof.
  unfold fmix32.
  apply (perm_comp m32 (fun h => Z.lxor h (Z.shiftr h 16))); [by apply (perm_xorshift 32)|].
  apply (perm_comp m32 (fun h => u32 (h * 0xc2b2ae35))); [by apply (perm32_mul _ 2127672349)|].
  apply (perm_comp m32 (fun h => Z.lxor h (Z.shiftr h 13))); [by apply (perm_xorshift 32)|].
  apply (perm_comp m32 (fun h => u32 (h * 0x85ebca6b))); [by apply (perm32_mul _ 2781581891)|].
  by apply (perm_xorshift 32).
Qed.

Lemma fmix64_perm : perm m64 fmix64.
Proof.
  unfold fmix64.
  apply (perm_comp m64 (fun h => Z.lxor h (Z.shiftr h 33))); [by apply (perm_xorshift 64)|].
  apply (perm_comp m64 (fun h => u64 (h * 0xc4ceb9fe1a85ec53))); [by apply (perm64_mul _ 11291846944257947611)|].
  apply (perm_comp m64 (fun h => Z.lxor h (Z.shiftr h 33))); [by apply (perm_xorshift 64)|].
  apply (perm_comp m64 (fun h => u64 (h * 0xff51afd7ed558ccd))); [by apply (perm64_mul _ 5725274745694666757)|].
  by apply (perm_xorshift 64).
Qed.

(** A block's word before it is mixed in, the scrambling every function starts with. *)
Lemma scramble32 a b r ai bi : (a * ai) mod m32 = 1 -> (b * bi) mod m32 = 1 -> 0 <= r <= 32 ->
  perm m32 (fun k => u32 (rotl32 (u32 (k * a)) r * b)).
Proof.
  intros Ha Hb Hr. apply (perm_comp m32 (fun k => u32 (k * b))); [by eapply perm32_mul|].
  apply (perm_comp m32 (fun k => rotl32 k r)); [by apply perm32_rot|by eapply perm32_mul].
Qed.
Lemma scramble64 a b r ai bi : (a * ai) mod m64 = 1 -> (b * bi) mod m64 = 1 -> 0 <= r <= 64 ->
  perm m64 (fun k => u64 (rotl64 (u64 (k * a)) r * b)).
Proof.
  intros Ha Hb Hr. apply (perm_comp m64 (fun k => u64 (k * b))); [by eapply perm64_mul|].
  apply (perm_comp m64 (fun k => rotl64 k r)); [by apply perm64_rot|by eapply perm64_mul].
Qed.

Lemma x86_32_k1_perm : perm m32 x86_32_k1.
Proof. by apply (scramble32 _ _ _ 3739302833 1458385051). Qed.
Lemma x86_128_k1_perm : perm m32 x86_128_k1.
Proof. by apply (scramble32 _ _ _ 2311672851 3742568121). Qed.
Lemma x86_128_k2_perm : perm m32 x86_128_k2.
Proof. by apply (scramble32 _ _ _ 3742568121 1954046701). Qed.
Lemma x86_128_k3_perm : perm m32 x86_128_k3.
Proof. by apply (scramble32 _ _ _ 1954046701 1490438811). Qed.
Lemma x86_128_k4_perm : perm m32 x86_128_k4.
Proof. by apply (scramble32 _ _ _ 1490438811 2311672851). Qed.
Lemma x64_128_k1_perm : perm m64 x64_128_k1.
Proof. by apply (scramble64 _ _ _ 12214898983567248765 12114143059468233855). Qed.
Lemma x64_128_k2_perm : perm m64 x64_128_k2.
Proof. by apply (scramble64 _ _ _ 12114143059468233855 12214898983567248765). Qed.

(** Mixing a word in: [h ^= k; h = ROTL(h, r); h += g; h = h * 5 + c;] is a permutation of
    [h], and of [k]. *)
Lemma absorb32 r g c : 0 <= r <= 32 -> perm m32 (fun x => u32 (u32 (rotl32 x r + g) * 5 + c)).
Proof.
  intros Hr. apply (perm_comp m32 (fun x => u32 (x * 5 + c))); [by apply (perm_affine m32 5 c 3435973837)|].
  apply (perm_comp m32 (fun x => u32 (x + g))); [by apply (perm_add m32)|by apply perm32_rot].
Qed.
Lemma absorb64 r g c : 0 <= r <= 64 -> perm m64 (fun x => u64 (u64 (rotl64 x r + g) * 5 + c)).
Proof.
  intros Hr. apply (perm_comp m64 (fun x => u64 (x * 5 + c))); [by apply (perm_affine m64 5 c 14757395258967641293)|].
  apply (perm_comp m64 (fun x => u64 (x + g))); [by apply (perm_add m64)|by apply perm64_rot].
Qed.

(** A permutation behind an exclusive or: for equal results, equal words on one side give
    equal words on the other. *)
Section behind_xor.
Context (w : Z) (Hw : 0 < w) (f : Z -> Z) (Hf : perm (2 ^ w) f).

Lemma behind_xor_range h k : inr (2 ^ w) h -> inr (2 ^ w) k -> inr (2 ^ w) (f (Z.lxor h k)).
Proof using Hw Hf. intros. apply Hf. by apply lxor_range. Qed.

Lemma behind_xor_l h h' k : inr (2 ^ w) h -> inr (2 ^ w) h' -> inr (2 ^ w) k ->
  f (Z.lxor h k) = f (Z.lxor h' k) -> h = h'.
Proof using Hw Hf.
  intros Hh Hh' Hk E. apply (lxor_inj_r _ _ k). revert E. apply Hf; by apply lxor_range.
Qed.

Lemma behind_xor_r h k k' : inr (2 ^ w) h -> inr (2 ^ w) k -> inr (2 ^ w) k' ->
  f (Z.lxor h k) = f (Z.lxor h k') -> k = k'.
Proof using Hw Hf. rewrite !(Z.lxor_comm h). intros Hh Hk Hk'. by apply behind_xor_l. Qed.
End behind_xor.

(** ** Hashes that fold over blocks *)

(** The first [n] blocks of [k] bytes. *)
Fixpoint blocks (k n : nat) (l : list byte) : list (list byte) :=
  match n with O => [] | S n => take k l :: blocks k n (drop k l) end.

(** What the three functions have in common: a state, the word a block is read as, and how
    the seed, the blocks, the tail and the length enter the state. *)
Record Mixer := MkMixer {
  mx_state : Type;
  mx_word : Type;
  mx_block : nat;
  mx_init : Z -> mx_state;
  mx_load : list byte -> mx_word;
  mx_step : mx_state -> mx_word -> mx_state;
  mx_tail : list byte -> mx_state -> mx_state;
  mx_final : Z -> mx_state -> mx_state;
}.

(** The reference: the hash of a byte string. *)
Definition mx_hash (X : Mixer) (bs : list byte) (seed : Z) : mx_state X :=
  let n := (length bs / mx_block X)%nat in
  mx_final X (zlen bs)
    (mx_tail X (drop (mx_block X * n) bs)
       (foldl (mx_step X) (mx_init X seed) (map (mx_load X) (blocks (mx_block X) n bs)))).

Record MixerLaws (X : Mixer) (ok : mx_state X -> Prop) : Prop := {
  ml_block : (0 < mx_block X)%nat;
  ml_init : forall s, inr m32 s -> ok (mx_init X s);
  ml_init_inj : forall s s', mx_init X s = mx_init X s' -> s = s';
  ml_step : forall h b, ok h -> length b = mx_block X -> ok (mx_step X h (mx_load X b));
  ml_step_state : forall h h' b, ok h -> ok h' -> length b = mx_block X ->
    mx_step X h (mx_load X b) = mx_step X h' (mx_load X b) -> h = h';
  ml_step_word : forall h b b', ok h -> length b = mx_block X -> length b' = mx_block X ->
    mx_step X h (mx_load X b) = mx_step X h (mx_load X b') -> b = b';
  ml_tail : forall h t, ok h -> (length t < mx_block X)%nat -> ok (mx_tail X t h);
  ml_tail_state : forall h h' t, ok h -> ok h' -> (length t < mx_block X)%nat ->
    mx_tail X t h = mx_tail X t h' -> h = h';
  ml_tail_bytes : forall h t t', ok h -> (length t < mx_block X)%nat -> length t' = length t ->
    mx_tail X t h = mx_tail X t' h -> t = t';
  ml_final : forall n h h', ok h -> ok h' -> mx_final X n h = mx_final X n h' -> h = h'
}.

Lemma blocks_app k n l l' : (k * n <= length l)%nat -> blocks k n (l ++ l') = blocks k n l.
Proof.
  revert l. induction n as [|n IH]; intros l Hl; [done|]. simpl.
  rewrite take_app_le, drop_app_le by nia. f_equal. apply IH. rewrite length_drop. nia.
Qed.

Lemma blocks_add k n n' l : blocks k (n + n') l = blocks k n l ++ blocks k n' (drop (k * n) l).
Proof.
  revert l. induction n as [|n IH]; intros l; simpl; [by rewrite Nat.mul_0_r|].
  rewrite IH, drop_drop. by replace (k + k * n)%nat with (k * S n)%nat by lia.
Qed.

Lemma blocks_length k n l b : (k * n <= length l)%nat -> b ∈ blocks k n l -> length b = k.
Proof.
  revert l. induction n as [|n IH]; intros l Hl; [by intros ?%elem_of_nil|].
  simpl. intros [->|Hb]%elem_of_cons; [rewrite length_take; nia|]. apply (IH (drop k l)); [rewrite length_drop; nia|done].
Qed.

Section mixer.
Context (X : Mixer) (ok : mx_state X -> Prop) (HX : MixerLaws X ok).
Notation B := (mx_block X).
Notation run h l := (foldl (mx_step X) h (map (mx_load X) l)).

Lemma run_ok l h : ok h -> (forall b, b ∈ l -> length b = B) -> ok (run h l).
Proof using HX.
  revert h. induction l as [|b l IH]; intros h Hh Hl; [done|]. simpl. apply IH; [|by set_solver].
  apply HX; [done|]. apply Hl. by left.
Qed.

Lemma run_inj l h h' : ok h -> ok h' -> (forall b, b ∈ l -> length b = B) -> run h l = run h' l -> h = h'.
Proof using HX.
  revert h h'. induction l as [|b l IH]; intros h h' Hh Hh' Hl; [done|]. simpl. intros E.
  assert (length b = B) by (apply Hl; by left).
  apply IH in E; [by apply (ml_step_state _ _ HX) in E|by apply HX|by apply HX|by set_solver].
Qed.

(** The number of blocks and the tail of a string that starts with whole blocks. *)
Lemma whole_blocks (p s : list byte) q : length p = (B * q)%nat -> (length (p ++ s) / B = q + length s / B)%nat.
Proof using HX.
  pose proof (ml_block _ _ HX). intros Hp. rewrite length_app, Hp, Nat.mul_comm, Nat.div_add_l by lia. done.
Qed.

Lemma tail_short (bs : list byte) : (length (drop (B * (length bs / B)) bs) < B)%nat.
Proof using HX.
  pose proof (ml_block _ _ HX). rewrite length_drop. pose proof (Nat.div_mod_eq (length bs) B).
  pose proof (Nat.mod_upper_bound (length bs) B ltac:(lia)). lia.
Qed.

Lemma blocks_fit bs b : b ∈ blocks B (length bs / B) bs -> length b = B.
Proof using HX.
  apply blocks_length. pose proof (ml_block _ _ HX). apply Nat.mul_div_le. lia.
Qed.

(** Different seeds give different hashes of the same key. *)
Lemma mx_seed bs s s' : inr m32 s -> inr m32 s' -> mx_hash X bs s = mx_hash X bs s' -> s = s'.
Proof using HX.
  intros Hs Hs' E. unfold mx_hash in E. pose proof (tail_short bs) as Ht. pose proof (blocks_fit bs) as Hb.
  apply (ml_final _ _ HX) in E; [|apply HX; [|done]; apply run_ok; [by apply HX|done]..].
  apply (ml_tail_state _ _ HX) in E; [|by apply run_ok; [apply HX|]..|done].
  apply run_inj in E; [|by apply HX..|done]. by apply (ml_init_inj _ _ HX).
Qed.

(** Keys of the same length that differ in one block, or in the tail, have different hashes. *)
Lemma mx_block_inj p b b' s seed : inr m32 seed -> (B | length p)%nat -> length b = B -> length b' = B ->
  mx_hash X (p ++ b ++ s) seed = mx_hash X (p ++ b' ++ s) seed -> b = b'.
Proof using HX.
  intros Hs [q Hq] Hb Hb' E. pose proof (ml_block _ _ HX) as HB. rewrite Nat.mul_comm in Hq.
  set (bs := p ++ b ++ s) in *. set (bs' := p ++ b' ++ s) in *.
  pose proof (tail_short bs) as Ht. pose proof (blocks_fit bs) as Hf. pose proof (blocks_fit bs') as Hf'.
  assert (length bs' = length bs) as El by (unfold bs, bs'; rewrite !length_app; lia).
  unfold mx_hash in E. unfold zlen in E. rewrite El in *.
  assert (length bs / B = q + S (length s / B))%nat as En.
  { unfold bs. rewrite (whole_blocks _ _ q) by done. f_equal. rewrite (whole_blocks b s 1) by lia. done. }
  rewrite En in *.
  assert (forall c, length c = B -> drop (B * (q + S (length s / B))) (p ++ c ++ s) = drop (B * (length s / B)) s) as Ed.
  { intros c Hc. rewrite app_assoc. replace (B * (q + S (length s / B)))%nat with (length (p ++ c) + B * (length s / B))%nat
      by (rewrite length_app, Hq, Hc; lia). by rewrite drop_app_add. }
  assert (forall c, length c = B -> blocks B (q + S (length s / B)) (p ++ c ++ s) =
    blocks B q p ++ c :: blocks B (length s / B) s) as Eb.
  { intros c Hc. rewrite blocks_add, blocks_app, <- Hq, drop_app_length by lia. simpl.
    by rewrite take_app_length', drop_app_length' by done. }
  unfold bs, bs' in *. rewrite !Eb in * by done. rewrite !Ed in * by done.
  rewrite !map_app, !foldl_app in E. simpl in E.
  assert (forall c, c ∈ blocks B q p -> length c = B) as Hp by (intros c Hc; apply Hf; set_solver).
  assert (forall c, c ∈ blocks B (length s / B) s -> length c = B) as Hss by (intros c Hc; apply Hf; set_solver).
  set (h := run (mx_init X seed) (blocks B q p)) in *.
  assert (ok h) as Hh by (apply run_ok; [by apply HX|done]).
  apply (ml_final _ _ HX) in E; [|by apply HX; [apply run_ok; [apply HX|]|]..].
  apply (ml_tail_state _ _ HX) in E; [|by apply run_ok; [apply HX|]..|done].
  apply run_inj in E; [|by apply HX..|done]. by apply (ml_step_word _ _ HX) in E.
Qed.

Lemma mx_tail_inj p t t' seed : inr m32 seed -> (B | length p)%nat -> (length t < B)%nat -> length t' = length t ->
  mx_hash X (p ++ t) seed = mx_hash X (p ++ t') seed -> t = t'.
Proof using HX.
  intros Hs [q Hq] Ht Ht' E. pose proof (ml_block _ _ HX) as HB. rewrite Nat.mul_comm in Hq.
  assert (forall u, length u = length t -> mx_hash X (p ++ u) seed =
    mx_final X (zlen (p ++ t)) (mx_tail X u (run (mx_init X seed) (blocks B q p)))) as Eh.
  { intros u Hu. unfold mx_hash. rewrite (whole_blocks _ _ q) by done.
    rewrite (Nat.div_small (length u)), Nat.add_0_r by lia. rewrite blocks_app, <- Hq, drop_app_length by lia.
    unfold zlen. by rewrite !length_app, Hu. }
  rewrite !Eh in E by done. clear Eh.
  assert (ok (run (mx_init X seed) (blocks B q p))) as Hh.
  { apply run_ok; [by apply HX|]. intros b Hb. eapply blocks_length; [|done]. lia. }
  apply (ml_final _ _ HX) in E; [|apply HX; [done|lia]..]. by apply (ml_tail_bytes _ _ HX) in E.
Qed.
End mixer.

(** ** The three functions as such hashes *)

Definition le_val (bs : list byte) : Z := be_val (rev bs).

Lemma le_val_cons b bs : le_val (b :: bs) = b2z b + 256 * le_val bs.
Proof. unfold le_val. simpl. rewrite be_val_snoc. lia. Qed.

Lemma be_val_inj l l' : length l = length l' -> be_val l = be_val l' -> l = l'.
Proof. intros Hl E. by rewrite <- (be_bytes_val (length l) l), <- (be_bytes_val (length l) l'), E. Qed.

Lemma le_val_range bs k : zlen bs <= k -> inr (256 ^ k) (le_val bs).
Proof.
  intros Hk. pose proof (be_val_range (rev bs)) as H. unfold zlen in *. rewrite length_rev in H.
  split; [by apply H|]. eapply Z.lt_le_trans; [by apply H|]. by apply Z.pow_le_mono_r.
Qed.

Lemma le_val_inj l l' : length l = length l' -> le_val l = le_val l' -> l = l'.
Proof. intros Hl E. apply be_val_inj in E; [|by rewrite !length_rev]. by apply rev_inj. Qed.

Section instances.
Context (host : byte_order).

Lemma host_val_range bs k : zlen bs <= k -> inr (256 ^ k) (host_val host bs).
Proof.
  destruct host; [|apply le_val_range]. intros Hk. pose proof (be_val_range bs) as H.
  split; [by apply H|]. eapply Z.lt_le_trans; [by apply H|]. apply Z.pow_le_mono_r; [lia|done].
Qed.

Lemma host_val_inj l l' : length l = length l' -> host_val host l = host_val host l' -> l = l'.
Proof. destruct host; [apply be_val_inj|apply le_val_inj]. Qed.

Definition x86_32 : Mixer :=
  MkMixer Z Z 4 (fun s => s) (host_val host) x86_32_step
    (fun t h => Z.lxor h (x86_32_k1 (le_val t)))
    (fun n h => fmix32 (Z.lxor h (u32 n))).

Lemma absorb32' r c : 0 <= r <= 32 -> perm m32 (fun x => u32 (rotl32 x r * 5 + c)).
Proof.
  intros Hr. apply (perm_comp m32 (fun x => u32 (x * 5 + c))); [by apply (perm_affine m32 5 c 3435973837)|by apply perm32_rot].
Qed.

Lemma word_range k b : length b = k -> inr (256 ^ Z.of_nat k) (host_val host b).
Proof. intros <-. by apply host_val_range. Qed.
Lemma tail_range k t : (length t <= k)%nat -> inr (256 ^ Z.of_nat k) (le_val t).
Proof. intros. apply le_val_range. unfold zlen. lia. Qed.

Lemma x86_32_laws : MixerLaws x86_32 (inr m32).
Proof.
  pose proof (absorb32' 13 0xe6546b64 ltac:(lia)) as HA.
  assert (forall b, length b = 4%nat -> inr m32 (x86_32_k1 (host_val host b))) as Hk.
  { intros b Hb. apply x86_32_k1_perm. by apply (word_range 4). }
  assert (forall t, (length t < 4)%nat -> inr m32 (x86_32_k1 (le_val t))) as Ht.
  { intros t Hl. apply x86_32_k1_perm. apply (tail_range 4). lia. }
  split; cbn [mx_state mx_word mx_block mx_init mx_load mx_step mx_tail mx_final x86_32]; try done; try lia.
  - intros h b Hh Hb. apply (behind_xor_range 32 eq_refl _ HA); auto.
  - intros h h' b Hh Hh' Hb E. apply (behind_xor_l 32 eq_refl _ HA) in E; auto.
  - intros h b b' Hh Hb Hb' E. apply (behind_xor_r 32 eq_refl _ HA) in E; auto.
    apply x86_32_k1_perm in E; [|by apply (word_range 4)..]. apply host_val_inj in E; congruence.
  - intros h t Hh Hl. apply (lxor_range 32); [done..|by apply Ht].
  - intros h h' t _ _ _. apply lxor_inj_r.
  - intros h t t' Hh Hl Hl' E. rewrite !(Z.lxor_comm h) in E. apply lxor_inj_r, x86_32_k1_perm in E;
      [by apply le_val_inj in E|apply (tail_range 4); lia..].
  - intros n h h' Hh Hh' E. apply (behind_xor_l 32 eq_refl _ fmix32_perm) in E; [done..|]. apply u32_range.
Qed.

(** The [k] bytes at [o]. *)
Definition sub (o k : nat) (l : list byte) : list byte := take k (drop o l).

Lemma sub_length o k l l' : length l = length l' -> length (sub o k l) = length (sub o k l').
Proof. unfold sub. rewrite !length_take, !length_drop. lia. Qed.
Lemma sub_le o k l : (length (sub o k l) <= k)%nat.
Proof. unfold sub. rewrite length_take. lia. Qed.
Lemma sub_full o k l : (o + k <= length l)%nat -> length (sub o k l) = k.
Proof. unfold sub. rewrite length_take, length_drop. lia. Qed.

Lemma quarters l : (length l <= 16)%nat -> l = sub 0 4 l ++ sub 4 4 l ++ sub 8 4 l ++ sub 12 4 l.
Proof.
  intros H. unfold sub. rewrite drop_0, <- (take_drop 4 l) at 1. f_equal.
  rewrite <- (take_drop 4 (drop 4 l)) at 1. f_equal. rewrite drop_drop. change (4 + 4)%nat with 8%nat.
  rewrite <- (take_drop 4 (drop 8 l)) at 1. f_equal. rewrite drop_drop. change (8 + 4)%nat with 12%nat.
  rewrite take_ge; [done|]. rewrite length_drop. lia.
Qed.
Lemma halves l : (length l <= 16)%nat -> l = sub 0 8 l ++ sub 8 8 l.
Proof.
  intros H. unfold sub. rewrite drop_0, <- (take_drop 8 l) at 1. f_equal.
  rewrite take_ge; [done|]. rewrite length_drop. lia.
Qed.

Definition ok4 (h : word4) : Prop := let '(h1, h2, h3, h4) := h in inr m32 h1 /\ inr m32 h2 /\ inr m32 h3 /\ inr m32 h4.

Definition x86_128 : Mixer :=
  MkMixer word4 word4 16 (fun s => (s, s, s, s))
    (fun b => (host_val host (sub 0 4 b), host_val host (sub 4 4 b), host_val host (sub 8 4 b), host_val host (sub 12 4 b)))
    x86_128_step
    (fun t '(h1, h2, h3, h4) =>
       (Z.lxor h1 (x86_128_k1 (le_val (sub 0 4 t))), Z.lxor h2 (x86_128_k2 (le_val (sub 4 4 t))),
        Z.lxor h3 (x86_128_k3 (le_val (sub 8 4 t))), Z.lxor h4 (x86_128_k4 (le_val (sub 12 4 t)))))
    x86_128_final.

Definition ok2 (h : Z * Z) : Prop := inr m64 h.1 /\ inr m64 h.2.

Definition x64_128 : Mixer :=
  MkMixer (Z * Z) (Z * Z) 16 (fun s => (s, s))
    (fun b => (host_val host (sub 0 8 b), host_val host (sub 8 8 b)))
    x64_128_step
    (fun t '(h1, h2) => (Z.lxor h1 (x64_128_k1 (le_val (sub 0 8 t))), Z.lxor h2 (x64_128_k2 (le_val (sub 8 8 t)))))
    x64_128_final.

Lemma x64_128_mix_ok h : ok2 h -> ok2 (x64_128_mix h).
Proof. destruct h as [h1 h2]. intros _. split; apply u64_range. Qed.
Lemma x64_128_mix_inj h h' : ok2 h -> ok2 h' -> x64_128_mix h = x64_128_mix h' -> h = h'.
Proof.
  destruct h as [h1 h2], h' as [g1 g2]. intros [H1 H2] [G1 G2]. unfold x64_128_mix. simpl in *. intros [= E1 E2].
  rewrite E1 in E2. apply (perm_add m64) in E2; [subst|done..]. apply (perm_add m64) in E1; [by subst|done..].
Qed.

Lemma x86_128_mix_ok h : ok4 h -> ok4 (x86_128_mix h).
Proof. destruct h as [[[h1 h2] h3] h4]. intros _. repeat split; apply u32_range. Qed.
Lemma x86_128_mix_inj h h' : ok4 h -> ok4 h' -> x86_128_mix h = x86_128_mix h' -> h = h'.
Proof.
  destruct h as [[[h1 h2] h3] h4], h' as [[[g1 g2] g3] g4]. intros (H1 & H2 & H3 & H4) (G1 & G2 & G3 & G4).
  unfold x86_128_mix. intros [= E1 E2 E3 E4]. rewrite E1 in E2, E3, E4.
  apply (perm_add m32) in E2; [subst|done..]. apply (perm_add m32) in E3; [subst|done..].
  apply (perm_add m32) in E4; [subst|done..].
  apply (perm_add m32) in E1; [|done|apply u32_range..]. apply (perm_add m32) in E1; [|done|apply u32_range..].
  apply (perm_add m32) in E1; [by subst|done..].
Qed.

Lemma x64_128_final_inj n h h' : ok2 h -> ok2 h' -> x64_128_final n h = x64_128_final n h' -> h = h'.
Proof.
  destruct h as [h1 h2], h' as [g1 g2]. intros [H1 H2] [G1 G2]. unfold x64_128_final. cbn [fst snd] in *.
  assert (forall a b, inr m64 a -> inr m64 b -> ok2 (Z.lxor a (u64 n), Z.lxor b (u64 n))) as Hx.
  { intros a b Ha Hb. split; apply (lxor_range 64); try done; apply u64_range. }
  destruct (x64_128_mix (_, _)) as [a1 a2] eqn:Ea. destruct (x64_128_mix (Z.lxor g1 _, _)) as [b1 b2] eqn:Eb. intros E.
  assert (ok2 (a1, a2)) as [A1 A2] by (rewrite <- Ea; by apply x64_128_mix_ok, Hx).
  assert (ok2 (b1, b2)) as [B1 B2] by (rewrite <- Eb; by apply x64_128_mix_ok, Hx). cbn [fst snd] in *.
  apply x64_128_mix_inj in E; [|by split; apply fmix64_perm..]. injection E as E1 E2.
  apply fmix64_perm in E1; [|done..]. apply fmix64_perm in E2; [|done..]. rewrite E1, E2, <- Eb in Ea.
  apply x64_128_mix_inj in Ea; [|by apply Hx..]. injection Ea as E3 E4.
  by rewrite (lxor_inj_r _ _ _ E3), (lxor_inj_r _ _ _ E4).
Qed.

Lemma x86_128_final_inj n h h' : ok4 h -> ok4 h' -> x86_128_final n h = x86_128_final n h' -> h = h'.
Proof.
  destruct h as [[[h1 h2] h3] h4], h' as [[[g1 g2] g3] g4]. intros (H1 & H2 & H3 & H4) (G1 & G2 & G3 & G4).
  unfold x86_128_final.
  assert (forall a, inr m32 a -> inr m32 (Z.lxor a (u32 n))) as Hx.
  { intros a Ha. apply (lxor_range 32); try done. apply u32_range. }
  destruct (x86_128_mix (_, _, _, _)) as [[[a1 a2] a3] a4] eqn:Ea.
  destruct (x86_128_mix (Z.lxor g1 _, _, _, _)) as [[[b1 b2] b3] b4] eqn:Eb. intros E.
  assert (ok4 (a1, a2, a3, a4)) as (A1 & A2 & A3 & A4) by (rewrite <- Ea; by apply x86_128_mix_ok; repeat split; apply Hx).
  assert (ok4 (b1, b2, b3, b4)) as (B1 & B2 & B3 & B4) by (rewrite <- Eb; by apply x86_128_mix_ok; repeat split; apply Hx).
  apply x86_128_mix_inj in E; [|by repeat split; apply fmix32_perm..]. injection E as E1 E2 E3 E4.
  apply fmix32_perm in E1; [|done..]. apply fmix32_perm in E2; [|done..].
  apply fmix32_perm in E3; [|done..]. apply fmix32_perm in E4; [|done..].
  rewrite E1, E2, E3, E4, <- Eb in Ea. apply x86_128_mix_inj in Ea; [|by repeat split; apply Hx..].
  injection Ea as F1 F2 F3 F4.
  by rewrite (lxor_inj_r _ _ _ F1), (lxor_inj_r _ _ _ F2), (lxor_inj_r _ _ _ F3), (lxor_inj_r _ _ _ F4).
Qed.

(** The [k] bytes at [o] of a block, or of a tail, can be recovered from where they went. *)
Lemma word_inj (w : Z) (k : nat) f K o b b' h :
  0 < w -> 2 ^ w = 256 ^ Z.of_nat k -> perm (2 ^ w) f -> perm (2 ^ w) K -> inr (2 ^ w) h ->
  length b = length b' -> (o + k <= length b)%nat ->
  f (Z.lxor h (K (host_val host (sub o k b)))) = f (Z.lxor h (K (host_val host (sub o k b')))) ->
  sub o k b = sub o k b'.
Proof.
  intros Hw Ew Hf HK Hh Hl Ho E.
  assert (forall c, length c = length b -> inr (2 ^ w) (host_val host (sub o k c))) as Hr.
  { intros c Hc. rewrite Ew. apply word_range, sub_full. lia. }
  apply (behind_xor_r w Hw f Hf) in E; [|done|apply HK; by apply Hr..].
  apply HK in E; [|by apply Hr..]. apply host_val_inj in E; [done|by apply sub_length].
Qed.

Lemma tail_word_inj (w : Z) (k : nat) K o t t' h :
  2 ^ w = 256 ^ Z.of_nat k -> perm (2 ^ w) K -> length t = length t' ->
  Z.lxor h (K (le_val (sub o k t))) = Z.lxor h (K (le_val (sub o k t'))) -> sub o k t = sub o k t'.
Proof.
  intros Ew HK Hl E. rewrite !(Z.lxor_comm h) in E.
  apply lxor_inj_r, HK in E; [|rewrite Ew; apply tail_range, sub_le..]. apply le_val_inj in E; [done|by apply sub_length].
Qed.

Lemma x64_128_laws : MixerLaws x64_128 ok2.
Proof.
  pose proof (fun g => absorb64 27 g 0x52dce729 ltac:(lia)) as A1. pose proof (fun g => absorb64 31 g 0x38495ab5 ltac:(lia)) as A2.
  assert (forall o b, length b = 16%nat -> (o + 8 <= 16)%nat -> inr m64 (host_val host (sub o 8 b))) as Hw.
  { intros o b Hb Ho. apply (word_range 8). apply sub_full. lia. }
  assert (forall o t, inr m64 (le_val (sub o 8 t))) as Hv by (intros o t; apply (tail_range 8), sub_le).
  pose proof x64_128_k1_perm as P1. pose proof x64_128_k2_perm as P2.
  split; cbn [mx_state mx_word mx_block mx_init mx_load mx_step mx_tail mx_final x64_128]; try lia.
  - intros s Hs. split; unfold inr in *; simpl; lia.
  - by intros s s' [= ->].
  - intros [h1 h2] b [H1 H2] Hb. split; apply u64_range.
  - intros [h1 h2] [g1 g2] b [H1 H2] [G1 G2] Hb. unfold x64_128_step. intros [= E1 E2]. rewrite E1 in E2.
    cbn [fst snd] in *. apply (behind_xor_l 64 eq_refl _ (A2 _)) in E2; [subst|done..|by apply P2, Hw; [|lia]].
    apply (behind_xor_l 64 eq_refl _ (A1 _)) in E1; [by subst|done..|by apply P1, Hw; [|lia]].
  - intros [h1 h2] b b' [H1 H2] Hb Hb'. unfold x64_128_step. intros [= E1 E2]. rewrite E1 in E2. cbn [fst snd] in *.
    apply (word_inj 64 8 _ _ _ _ _ _ eq_refl eq_refl (A1 _) P1 H1) in E1; [|lia..].
    apply (word_inj 64 8 _ _ _ _ _ _ eq_refl eq_refl (A2 _) P2 H2) in E2; [|lia..].
    rewrite (halves b), (halves b') by lia. by rewrite E1, E2.
  - intros [h1 h2] t [H1 H2] Ht. split; apply (lxor_range 64); try done; [apply P1|apply P2]; apply Hv.
  - intros [h1 h2] [g1 g2] t _ _ _ [= E1 E2]. by rewrite (lxor_inj_r _ _ _ E1), (lxor_inj_r _ _ _ E2).
  - intros [h1 h2] t t' _ Hl Hl' [= E1 E2].
    apply (tail_word_inj 64 8 _ _ _ _ _ eq_refl P1) in E1; [|done].
    apply (tail_word_inj 64 8 _ _ _ _ _ eq_refl P2) in E2; [|done].
    rewrite (halves t), (halves t') by lia. by rewrite E1, E2.
  - apply x64_128_final_inj.
Qed.

Lemma x86_128_laws : MixerLaws x86_128 ok4.
Proof.
  pose proof (fun g => absorb32 19 g 0x561ccd1b ltac:(lia)) as A1. pose proof (fun g => absorb32 17 g 0x0bcaa747 ltac:(lia)) as A2.
  pose proof (fun g => absorb32 15 g 0x96cd1c35 ltac:(lia)) as A3. pose proof (fun g => absorb32 13 g 0x32ac3b17 ltac:(lia)) as A4.
  assert (forall o b, length b = 16%nat -> (o + 4 <= 16)%nat -> inr m32 (host_val host (sub o 4 b))) as Hw.
  { intros o b Hb Ho. apply (word_range 4). apply sub_full. lia. }
  assert (forall o t, inr m32 (le_val (sub o 4 t))) as Hv by (intros o t; apply (tail_range 4), sub_le).
  pose proof x86_128_k1_perm as P1. pose proof x86_128_k2_perm as P2.
  pose proof x86_128_k3_perm as P3. pose proof x86_128_k4_perm as P4.
  split; cbn [mx_state mx_word mx_block mx_init mx_load mx_step mx_tail mx_final x86_128]; try lia.
  - by intros s Hs.
  - by intros s s' [= ->].
  - intros [[[h1 h2] h3] h4] b _ Hb. repeat split; apply u32_range.
  - intros [[[h1 h2] h3] h4] [[[g1 g2] g3] g4] b (H1 & H2 & H3 & H4) (G1 & G2 & G3 & G4) Hb. unfold x86_128_step.
    intros [= E1 E2 E3 E4]. rewrite E1 in E4.
    apply (behind_xor_l 32 eq_refl _ (A4 _)) in E4; [subst|done..|by apply P4, Hw; [|lia]].
    apply (behind_xor_l 32 eq_refl _ (A3 _)) in E3; [subst|done..|by apply P3, Hw; [|lia]].
    apply (behind_xor_l 32 eq_refl _ (A2 _)) in E2; [subst|done..|by apply P2, Hw; [|lia]].
    apply (behind_xor_l 32 eq_refl _ (A1 _)) in E1; [by subst|done..|by apply P1, Hw; [|lia]].
  - intros [[[h1 h2] h3] h4] b b' (H1 & H2 & H3 & H4) Hb Hb'. unfold x86_128_step. intros [= E1 E2 E3 E4]. rewrite E1 in E4.
    apply (word_inj 32 4 _ _ _ _ _ _ eq_refl eq_refl (A1 h2) P1 H1) in E1; [|lia..].
    apply (word_inj 32 4 _ _ _ _ _ _ eq_refl eq_refl (A2 h3) P2 H2) in E2; [|lia..].
    apply (word_inj 32 4 _ _ _ _ _ _ eq_refl eq_refl (A3 h4) P3 H3) in E3; [|lia..].
    apply (word_inj 32 4 _ _ _ _ _ _ eq_refl eq_refl (A4 _) P4 H4) in E4; [|lia..].
    rewrite (quarters b), (quarters b') by lia. by rewrite E1, E2, E3, E4.
  - intros [[[h1 h2] h3] h4] t (H1 & H2 & H3 & H4) Ht.
    refine (conj _ (conj _ (conj _ _))); (apply (lxor_range 32); [done|done|]); [apply P1|apply P2|apply P3|apply P4]; apply Hv.
  - intros [[[h1 h2] h3] h4] [[[g1 g2] g3] g4] t _ _ _ [= E1 E2 E3 E4].
    by rewrite (lxor_inj_r _ _ _ E1), (lxor_inj_r _ _ _ E2), (lxor_inj_r _ _ _ E3), (lxor_inj_r _ _ _ E4).
  - intros [[[h1 h2] h3] h4] t t' _ Hl Hl' [= E1 E2 E3 E4].
    apply (tail_word_inj 32 4 _ _ _ _ _ eq_refl P1) in E1; [|done].
    apply (tail_word_inj 32 4 _ _ _ _ _ eq_refl P2) in E2; [|done].
    apply (tail_word_inj 32 4 _ _ _ _ _ eq_refl P3) in E3; [|done].
    apply (tail_word_inj 32 4 _ _ _ _ _ eq_refl P4) in E4; [|done].
    rewrite (quarters t), (quarters t') by lia. by rewrite E1, E2, E3, E4.
  - apply x86_128_final_inj.
Qed.

(** ** The loops *)

Lemma getblock_spec k key base i o :
  0 <= k -> base + i * k = Z.of_nat o -> Z.of_nat o + k <= zlen key ->
  getblock host k key base i = Some (host_val host (sub o (Z.to_nat k) key)).
Proof.
  intros Hk E Hl. unfold getblock. rewrite E.
  by rewrite (proj2 (Z.leb_le 0 _)), (proj2 (Z.leb_le _ (zlen key))) by lia; unfold slice; rewrite Nat2Z.id.
Qed.

Lemma sub_sub o o' k k' l : (o' + k' <= k)%nat -> sub o' k' (take k (drop o l)) = sub (o + o') k' l.
Proof. intros H. unfold sub. rewrite skipn_firstn_comm, take_take, drop_drop. f_equal. lia. Qed.

Lemma x86_32_body_spec n key o h : (o + 4 * n <= length key)%nat ->
  x86_32_body host n key (Z.of_nat (o + 4 * n)) (- Z.of_nat n) h =
  Some (foldl x86_32_step h (map (host_val host) (blocks 4 n (drop o key)))).
Proof.
  revert o h. induction n as [|n IH]; intros o h Hl; [done|]. cbn [x86_32_body].
  rewrite (proj2 (Z.eqb_neq _ _)), (getblock_spec 4 _ _ _ o) by (unfold zlen; lia).
  cbn [mbind option_bind]. replace (- Z.of_nat (S n) + 1) with (- Z.of_nat n) by lia.
  replace (o + 4 * S n)%nat with (o + 4 + 4 * n)%nat by lia. rewrite IH by lia. cbn [blocks map foldl]. by rewrite drop_drop.
Qed.

Lemma x86_128_body_spec n key o h : (o + 16 * n <= length key)%nat ->
  x86_128_body host n key (Z.of_nat (o + 16 * n)) (- Z.of_nat n) h =
  Some (foldl x86_128_step h (map (mx_load x86_128) (blocks 16 n (drop o key)))).
Proof.
  revert o h. induction n as [|n IH]; intros o h Hl; [done|]. cbn [x86_128_body].
  rewrite (proj2 (Z.eqb_neq _ _)), (getblock_spec 4 _ _ (_ * 4 + 0) (o + 0)), (getblock_spec 4 _ _ (_ * 4 + 1) (o + 4)),
    (getblock_spec 4 _ _ (_ * 4 + 2) (o + 8)), (getblock_spec 4 _ _ (_ * 4 + 3) (o + 12)) by (unfold zlen; lia).
  cbn [mbind option_bind]. replace (- Z.of_nat (S n) + 1) with (- Z.of_nat n) by lia.
  replace (o + 16 * S n)%nat with (o + 16 + 16 * n)%nat by lia. rewrite IH by lia. cbn [blocks map foldl].
  rewrite drop_drop. cbn [mx_load x86_128]. by rewrite !sub_sub by lia.
Qed.

Lemma x64_128_body_spec n key i m h : i + Z.of_nat n = m -> 0 <= i -> 16 * m <= zlen key ->
  x64_128_body host n key m i h =
  Some (foldl x64_128_step h (map (mx_load x64_128) (blocks 16 n (drop (Z.to_nat (16 * i)) key)))).
Proof.
  revert i h. induction n as [|n IH]; intros i h Hm Hi Hl; cbn [x64_128_body].
  { by rewrite (proj2 (Z.ltb_ge _ _)) by lia. }
  set (o := Z.to_nat (16 * i)).
  rewrite (proj2 (Z.ltb_lt _ _)), (getblock_spec 8 _ _ (_ * 2 + 0) (o + 0)), (getblock_spec 8 _ _ (_ * 2 + 1) (o + 8)) by lia.
  cbn [mbind option_bind]. rewrite IH by lia. cbn [blocks map foldl]. rewrite drop_drop. cbn [mx_load x64_128].
  rewrite !sub_sub by lia. by replace (Z.to_nat (16 * (i + 1))) with (o + 16)%nat by lia.
Qed.

(** ** The tails *)

(** The bytes from [j] to [e] of the tail's [rem] bytes, as a little-endian number. *)
Definition seg (tail : list byte) (rem j e : nat) : Z := le_val (sub j (e - j) (take rem tail)).

Lemma seg_end tail rem e : seg tail rem e e = 0.
Proof. unfold seg, sub. by rewrite Nat.sub_diag. Qed.

Lemma seg_out tail rem j e : (rem <= j)%nat -> seg tail rem j e = 0.
Proof. intros H. unfold seg, sub. rewrite drop_ge, take_nil; [done|]. rewrite length_take. lia. Qed.

Lemma seg_in tail rem j e b : (j < e)%nat -> (j < rem)%nat -> tail !! j = Some b ->
  seg tail rem j e = b2z b + 256 * seg tail rem (S j) e.
Proof.
  intros He Hr Hb. unfold seg, sub. rewrite (drop_S (take rem tail) b j) by (by rewrite lookup_take_lt).
  replace (e - j)%nat with (S (e - S j)) by lia. cbn [take]. apply le_val_cons.
Qed.

(** A step of the [switch] puts the next byte below the ones it has. *)
Lemma tail_xor_spec w (rem o e j : nat) wrap tail (k sh zrem zj : Z) :
  (forall x, wrap x = x mod 2 ^ w) -> zrem = Z.of_nat rem -> zj = Z.of_nat j ->
  (o <= j < e)%nat -> (rem <= length tail)%nat -> 8 * Z.of_nat (e - o) <= w -> sh = 8 * Z.of_nat (j - o) ->
  k = 2 ^ (sh + 8) * seg tail rem (S j) e ->
  tail_xor wrap tail zrem zj sh k = Some (2 ^ sh * seg tail rem j e).
Proof.
  intros Hwrap -> -> Hj Hl Hw Hsh ->. unfold tail_xor. destruct (Z.ltb_spec (Z.of_nat j) (Z.of_nat rem)) as [Hr|Hr].
  2: { rewrite !seg_out by lia. f_equal. lia. }
  destruct (lookup_lt_is_Some_2 tail j ltac:(lia)) as [b Hb]. rewrite Nat2Z.id, Hb. cbn [mbind option_bind].
  rewrite (seg_in tail rem j e b) by (lia || done). f_equal. pose proof (b2z_range b).
  assert (0 < 2 ^ sh) by (apply Z.pow_pos_nonneg; lia).
  rewrite Hwrap, Z.mod_small.
  2: { rewrite Z.shiftl_mul_pow2 by lia. split; [nia|].
       apply Z.lt_le_trans with (2 ^ (8 + sh)); [rewrite Z.pow_add_r by lia; nia|]. apply Z.pow_le_mono_r; lia. }
  set (v := seg tail rem (S j) e). rewrite Z.pow_add_r, <- Z.mul_assoc by lia.
  rewrite (Z.mul_comm (2 ^ sh) (2 ^ 8 * v)), <- Z.shiftl_mul_pow2, <- Z.shiftl_lxor, Z.shiftl_mul_pow2 by lia.
  rewrite Z.mul_comm. f_equal. change (2 ^ 8) with 256. rewrite (Z.mul_comm 256).
  rewrite <- Z.add_nocarry_lxor; [lia|].
  apply Z.bits_inj'. intros i Hi. rewrite Z.land_spec, Z.bits_0. change 256 with (2 ^ 8).
  destruct (Z.lt_ge_cases i 8); [by rewrite Z.mul_pow2_bits_low by lia|].
  replace (Z.testbit (b2z b) i) with false; [apply andb_false_r|]. symmetry.
  rewrite <- (Z.mod_small (b2z b) (2 ^ 8)) by done. by apply Z.mod_pow2_bits_high; lia.
Qed.

(** Nothing is mixed in for a part of the tail that is not there. *)
Lemma absent_word (b : bool) K h v : (b = false -> v = 0) -> K 0 = 0 -> (if b then Z.lxor h (K v) else h) = Z.lxor h (K v).
Proof. destruct b; [done|]. intros E HK. by rewrite E, HK, Z.lxor_0_r. Qed.

Ltac tail_step w rem o e j :=
  let zj := eval vm_compute in (Z.of_nat j) in
  rewrite (tail_xor_spec w rem o e j _ _ _ _ _ zj) by
    (first [done | lia | (rewrite seg_end || rewrite seg_out by lia); lia | reflexivity]);
  cbn [mbind option_bind].

Lemma x86_32_tail_spec tail rem h : (rem <= length tail)%nat -> (rem < 4)%nat ->
  x86_32_tail tail (Z.of_nat rem) h = Some (mx_tail x86_32 (take rem tail) h).
Proof.
  intros Hl Hr. unfold x86_32_tail. tail_step 32 rem 0%nat 4%nat 2%nat. tail_step 32 rem 0%nat 4%nat 1%nat.
  tail_step 32 rem 0%nat 4%nat 0%nat. f_equal. rewrite absent_word; [|intros E; rewrite seg_out by lia; lia|done].
  cbn [mx_tail x86_32]. rewrite Z.mul_1_l. unfold seg, sub. rewrite drop_0, (take_ge (take rem tail)); [done|].
  rewrite length_take. lia.
Qed.

Lemma x86_128_tail_spec tail rem h : (rem <= length tail)%nat -> (rem < 16)%nat ->
  x86_128_tail tail (Z.of_nat rem) h = Some (mx_tail x86_128 (take rem tail) h).
Proof.
  intros Hl Hr. destruct h as [[[h1 h2] h3] h4]. unfold x86_128_tail.
  tail_step 32 rem 12%nat 16%nat 14%nat. tail_step 32 rem 12%nat 16%nat 13%nat. tail_step 32 rem 12%nat 16%nat 12%nat.
  tail_step 32 rem 8%nat 12%nat 11%nat. tail_step 32 rem 8%nat 12%nat 10%nat. tail_step 32 rem 8%nat 12%nat 9%nat.
  tail_step 32 rem 8%nat 12%nat 8%nat.
  tail_step 32 rem 4%nat 8%nat 7%nat. tail_step 32 rem 4%nat 8%nat 6%nat. tail_step 32 rem 4%nat 8%nat 5%nat.
  tail_step 32 rem 4%nat 8%nat 4%nat.
  tail_step 32 rem 0%nat 4%nat 3%nat. tail_step 32 rem 0%nat 4%nat 2%nat. tail_step 32 rem 0%nat 4%nat 1%nat.
  tail_step 32 rem 0%nat 4%nat 0%nat.
  rewrite !absent_word; try done; try (intros E; rewrite seg_out by lia; lia).
  cbn [mx_tail x86_128]. by rewrite !Z.mul_1_l.
Qed.

Lemma x64_128_tail_spec tail rem h : (rem <= length tail)%nat -> (rem < 16)%nat ->
  x64_128_tail tail (Z.of_nat rem) h = Some (mx_tail x64_128 (take rem tail) h).
Proof.
  intros Hl Hr. destruct h as [h1 h2]. unfold x64_128_tail.
  tail_step 64 rem 8%nat 16%nat 14%nat. tail_step 64 rem 8%nat 16%nat 13%nat. tail_step 64 rem 8%nat 16%nat 12%nat.
  tail_step 64 rem 8%nat 16%nat 11%nat. tail_step 64 rem 8%nat 16%nat 10%nat. tail_step 64 rem 8%nat 16%nat 9%nat.
  tail_step 64 rem 8%nat 16%nat 8%nat.
  tail_step 64 rem 0%nat 8%nat 7%nat. tail_step 64 rem 0%nat 8%nat 6%nat. tail_step 64 rem 0%nat 8%nat 5%nat.
  tail_step 64 rem 0%nat 8%nat 4%nat. tail_step 64 rem 0%nat 8%nat 3%nat. tail_step 64 rem 0%nat 8%nat 2%nat.
  tail_step 64 rem 0%nat 8%nat 1%nat. tail_step 64 rem 0%nat 8%nat 0%nat.
  rewrite !absent_word; try done; try (intros E; rewrite seg_out by lia; lia).
  cbn [mx_tail x64_128]. by rewrite !Z.mul_1_l.
Qed.
End instances.

(** ** The functions on a key *)

Section on_key.
Context (key : list byte) (len : Z) (Hlen : 0 <= len <= zlen key).

(** With blocks of [B] bytes: how many there are, where the tail is and how long. *)
Lemma key_split (B : nat) (m : Z) : (0 < B)%nat -> m = Z.of_nat B ->
  let bs := take (Z.to_nat len) key in
  let n := (length bs / B)%nat in
  Z.quot len m = Z.of_nat n /\ (B * n <= length key)%nat /\ blocks B n key = blocks B n bs /\
  drop (B * n) bs = take (Z.to_nat (len mod m)) (drop (B * n) key) /\
  (Z.to_nat (len mod m) <= length (drop (B * n) key))%nat /\ zlen bs = len.
Proof using Hlen.
  intros HB -> bs n. unfold zlen in *.
  assert (length bs = Z.to_nat len) as El by (unfold bs; rewrite length_take; lia).
  pose proof (Nat.div_mod_eq (Z.to_nat len) B) as Hd. pose proof (Nat.mod_upper_bound (Z.to_nat len) B ltac:(lia)) as Hm.
  unfold n. rewrite El.
  assert (len mod Z.of_nat B = Z.of_nat (Z.to_nat len mod B)) as Em by (rewrite Nat2Z.inj_mod, Z2Nat.id by lia; done).
  rewrite Em, Nat2Z.id. split; [|split; [|split; [|split; [|split]]]].
  - rewrite Z.quot_div_nonneg by lia. rewrite Nat2Z.inj_div, Z2Nat.id by lia. done.
  - lia.
  - rewrite <- (take_drop (Z.to_nat len) key) at 1. apply blocks_app. fold bs. lia.
  - unfold bs. rewrite skipn_firstn_comm. f_equal. lia.
  - rewrite length_drop. lia.
  - lia.
Qed.
End on_key.

Lemma murmur_is_fold (host : byte_order) (key : list byte) (len seed : Z) (Hlen : 0 <= len <= zlen key) :
  MurmurHash3_x86_32 host key len seed = Some (mx_hash (x86_32 host) (take (Z.to_nat len) key) seed) /\
  MurmurHash3_x86_128 host key len seed = Some (mx_hash (x86_128 host) (take (Z.to_nat len) key) seed) /\
  MurmurHash3_x64_128 host key len seed = Some (mx_hash (x64_128 host) (take (Z.to_nat len) key) seed).
Proof.
  assert (Z.land len 3 = Z.of_nat (Z.to_nat (len mod 4)) /\ Z.land len 15 = Z.of_nat (Z.to_nat (len mod 16))) as [E3 E15].
  { pose proof (Z.mod_pos_bound len 4). pose proof (Z.mod_pos_bound len 16).
    change 3 with (Z.ones 2). change 15 with (Z.ones 4). rewrite !Z.land_ones by lia. change (2 ^ 2) with 4. change (2 ^ 4) with 16. lia. }
  pose proof (Z.mod_pos_bound len 4). pose proof (Z.mod_pos_bound len 16).
  destruct (key_split key len Hlen 4 4) as (E1 & E2 & E4 & E5 & E6 & E7); [lia|done|].
  destruct (key_split key len Hlen 16 16) as (F1 & F2 & F4 & F5 & F6 & F7); [lia|done|].
  unfold MurmurHash3_x86_32, MurmurHash3_x86_128, MurmurHash3_x64_128, mx_hash.
  cbn [mx_block mx_init mx_step mx_load mx_final x86_32 x86_128 x64_128].
  rewrite E1, F1, E3, E15, E7, E5, F5, <- E4, <- F4, !Nat2Z.id.
  set (n := (_ / 4)%nat) in *. set (n' := (_ / 16)%nat) in *.
  replace (Z.of_nat n * 4) with (Z.of_nat (0 + 4 * n)) by lia. replace (Z.of_nat n' * 16) with (Z.of_nat (0 + 16 * n')) by lia.
  rewrite x86_32_body_spec, x86_128_body_spec by lia.
  rewrite (x64_128_body_spec host n' key 0 (Z.of_nat n')) by (unfold zlen; lia). rewrite !drop_0. cbn [mbind option_bind].
  rewrite !Nat2Z.id, !Nat.add_0_l. change (Z.to_nat (16 * 0)) with 0%nat. rewrite ?drop_0.
  rewrite (x86_32_tail_spec host), (x86_128_tail_spec host), (x64_128_tail_spec host) by lia. done.
Qed.

(** C24 hash_reference: on a key of [len] bytes each of the three functions ends, reads only
    these bytes, and computes its reference definition: the step folded over the blocks of
    the key, the remaining bytes as little-endian words (in place of the fall-through of the
    [switch]), then the length. *)
Theorem hash_reference (host : byte_order) (key : list byte) (len seed : Z) (Hlen : 0 <= len <= zlen key) :
  MurmurHash3_x86_32 host key len seed = Some (mx_hash (x86_32 host) (take (Z.to_nat len) key) seed) /\
  MurmurHash3_x86_128 host key len seed = Some (mx_hash (x86_128 host) (take (Z.to_nat len) key) seed) /\
  MurmurHash3_x64_128 host key len seed = Some (mx_hash (x64_128 host) (take (Z.to_nat len) key) seed).
Proof. by apply murmur_is_fold. Qed.

Lemma hash_reference_witness :
  MurmurHash3_x86_32 LITTLE_ENDIAN [x61; x62; x63; x64; x65; x00] 5 7 =
    Some (mx_hash (x86_32 LITTLE_ENDIAN) [x61; x62; x63; x64; x65] 7).
Proof. apply (hash_reference LITTLE_ENDIAN [x61; x62; x63; x64; x65; x00] 5 7). unfold zlen. simpl. lia. Defined.

(** What a hash must not lose: different seeds, a different block, a different tail. *)
Definition separates {A} (B : nat) (f : list byte -> Z -> Z -> option A) : Prop :=
  (forall key s s', inr m32 s -> inr m32 s' -> s <> s' -> f key (zlen key) s <> f key (zlen key) s') /\
  (forall p b b' s seed, inr m32 seed -> (B | length p)%nat -> length b = B -> length b' = B -> b <> b' ->
     f (p ++ b ++ s) (zlen (p ++ b ++ s)) seed <> f (p ++ b' ++ s) (zlen (p ++ b' ++ s)) seed) /\
  (forall p t t' seed, inr m32 seed -> (B | length p)%nat -> (length t < B)%nat -> length t' = length t -> t <> t' ->
     f (p ++ t) (zlen (p ++ t)) seed <> f (p ++ t') (zlen (p ++ t')) seed).

Lemma mixer_separates (X : Mixer) ok (f : list byte -> Z -> Z -> option (mx_state X)) :
  MixerLaws X ok -> (forall key seed, f key (zlen key) seed = Some (mx_hash X key seed)) -> separates (mx_block X) f.
Proof.
  intros HX Hf. split; [|split].
  - intros key s s' Hs Hs' Hn. rewrite !Hf. intros [= E]. apply Hn. by apply (mx_seed X ok HX) in E.
  - intros p b b' s seed Hs Hp Hb Hb' Hn. rewrite !Hf. intros [= E]. apply Hn. by apply (mx_block_inj X ok HX) in E.
  - intros p t t' seed Hs Hp Ht Ht' Hn. rewrite !Hf. intros [= E]. apply Hn. by apply (mx_tail_inj X ok HX) in E.
Qed.

(** The three hash functions lose nothing that a single block can hold.
    Whatever the host's byte order: two seeds give one key two hashes; two keys of the same
    length that differ only inside one block (4 bytes for the 32-bit function, 16 for the
    others), or only in the bytes behind the last block, have different hashes. *)
Theorem hash_separates (host : byte_order) :
  separates 4 (MurmurHash3_x86_32 host) /\ separates 16 (MurmurHash3_x86_128 host) /\
  separates 16 (MurmurHash3_x64_128 host).
Proof.
  assert (forall key seed, _) as H by (intros key seed; exact (murmur_is_fold host key (zlen key) seed ltac:(pose proof (zlen_nonneg key); lia))).
  assert (forall key : list byte, take (Z.to_nat (zlen key)) key = key) as Ht.
  { intros key. unfold zlen. rewrite Nat2Z.id. by apply take_ge. }
  split; [|split].
  - apply (mixer_separates (x86_32 host) _ _ (x86_32_laws host)). intros key seed. rewrite <- (Ht key) at 3. by apply H.
  - apply (mixer_separates (x86_128 host) _ _ (x86_128_laws host)). intros key seed. rewrite <- (Ht key) at 3. by apply H.
  - apply (mixer_separates (x64_128 host) _ _ (x64_128_laws host)). intros key seed. rewrite <- (Ht key) at 3. by apply H.
Qed.
