(* ===== verification/ConnMgr.v ===== *)
(** * The manager of connections (src/net/net-protocol-stacks: inet-stack-worker-manager.h,
    msg-worker-managers/unique-worker-manager)

    [UniqueWorkerManager] keeps one connection for each logic peer, the earliest.  It has
    three tables: the handler of a logic peer, the logic peer of a real one, and the real
    peer of a handler, which is known by its address.  Every operation runs under the spin
    lock and is one step.

    What it promises is [registry]: a table of logic peers with their handler and its real
    peer.  Every operation is one of the registry as long as no two registered connections
    have the same real peer. *)

From S2P Require Import Prelude Net.

#[global] Instance SocketProtocol_countable : Countable SocketProtocol :=
  inj_countable' (fun p => match p with NoProtocol => 0%nat | Tcp => 1%nat | Udp => 2%nat end)
    (fun n => match n with 0%nat => NoProtocol | 1%nat => Tcp | _ => Udp end) ltac:(by intros []).
#[global] Instance net_peer_info_countable : Countable net_peer_info :=
  inj_countable' (fun p => (np_addr p, np_port p, np_sp p)) (fun x => MkPeer x.1.1 x.1.2 x.2) ltac:(by intros []).

(** The address of an [AFileEventHandler]. *)
Notation haddr := Z (only parsing).

Module UniqueWorkerManager.

Record t := Make {
  m_hmap_workers : gmap net_peer_info haddr;
  m_hmap_rp_lp : gmap net_peer_info net_peer_info;
  m_hmap_handler_rp : gmap haddr net_peer_info
}.
Definition new : t := Make ∅ ∅ ∅.

Definition lookup_worker (logicNpt : net_peer_info) (m : t) : option haddr := m_hmap_workers m !! logicNpt.

Definition GetWorkerEventHandler : net_peer_info -> t -> option haddr := lookup_worker.

(** [lnpt] and [rnpt] are the peers of the handler's descriptor. *)
Definition PutWorkerEventHandler (h : haddr) (lnpt rnpt : net_peer_info) (m : t) : bool * t :=
  match lookup_worker lnpt m with
  | Some _ => (false, m)
  | None =>
      (true, Make (<[lnpt := h]> (m_hmap_workers m)) (<[rnpt := lnpt]> (m_hmap_rp_lp m))
               (<[h := rnpt]> (m_hmap_handler_rp m)))
  end.

(** [RemoveWorkerEventHandler(logicNpt, realNpt)]: the peer is gone. *)
Definition RemoveWorkerEventHandler_real (logicNpt realNpt : net_peer_info) (m : t) : option haddr * t :=
  match m_hmap_rp_lp m !! realNpt with
  | None => (None, m)
  | Some _ =>
      let m := Make (m_hmap_workers m) (delete realNpt (m_hmap_rp_lp m)) (m_hmap_handler_rp m) in
      match lookup_worker logicNpt m with
      | Some h => (Some h, Make (delete logicNpt (m_hmap_workers m)) (m_hmap_rp_lp m) (m_hmap_handler_rp m))
      | None => (None, m)
      end
  end.

(** [RemoveWorkerEventHandler(logicNpt)]: this side disconnects.  [operator[]] makes a
    default entry for a handler that has none; it is erased at once. *)
Definition RemoveWorkerEventHandler (logicNpt : net_peer_info) (m : t) : option haddr * t :=
  match lookup_worker logicNpt m with
  | Some h =>
      let realNpt := default net_peer_info_default (m_hmap_handler_rp m !! h) in
      (Some h, Make (delete logicNpt (m_hmap_workers m)) (delete realNpt (m_hmap_rp_lp m)) (delete h (m_hmap_handler_rp m)))
  | None => (None, m)
  end.

(** [~UniqueWorkerManager()]: the handlers it deletes. *)
Definition destroy (m : t) : list haddr := (map_to_list (m_hmap_workers m)).*2.

End UniqueWorkerManager.

(** ** The abstract registry *)

(** The handler of a logic peer, and its real peer. *)
Notation registry := (gmap net_peer_info (haddr * net_peer_info)).

(** No two connections of the registry are the same handler or have the same real peer. *)
Definition distinct (A : registry) : Prop :=
  forall l l' h h' r r', A !! l = Some (h, r) -> A !! l' = Some (h', r') -> h = h' \/ r = r' -> l = l'.

Module Registry.
(** The earliest connection is kept. *)
Definition put (h : haddr) (l r : net_peer_info) (A : registry) : bool * registry :=
  match A !! l with Some _ => (false, A) | None => (true, <[l := (h, r)]> A) end.
Definition remove (l : net_peer_info) (A : registry) : option haddr * registry := (fst <$> A !! l, delete l A).
(** The connection with these two peers, if it is there. *)
Definition remove_real (l r : net_peer_info) (A : registry) : option haddr * registry :=
  match A !! l with
  | Some (h, r') => if decide (r' = r) then (Some h, delete l A) else (None, A)
  | None => (None, A)
  end.
End Registry.

Import UniqueWorkerManager.

(** The tables hold the registry; the table of handlers may have more, since
    [RemoveWorkerEventHandler_real] leaves its entry behind. *)
Record represents (m : t) (A : registry) : Prop := {
  rp_workers : m_hmap_workers m = fst <$> A;
  rp_real : forall r l, m_hmap_rp_lp m !! r = Some l <-> exists h, A !! l = Some (h, r);
  rp_handler : forall l h r, A !! l = Some (h, r) -> m_hmap_handler_rp m !! h = Some r
}.

Lemma new_represents : represents new ∅.
Proof.
  split; [by rewrite fmap_empty| |by intros l h r ?].
  intros r l. split; [intros H|intros [h H]]; simpl in H; by rewrite lookup_empty in H.
Qed.

Section refinement.
Context (m : t) (A : registry) (Hd : distinct A) (Hm : represents m A).

Lemma lookup_refines l : lookup_worker l m = fst <$> A !! l.
Proof using Hm. unfold lookup_worker. by rewrite (rp_workers _ _ Hm), lookup_fmap. Qed.

(** A connection that can be added: a new handler with a real peer of its own. *)
Definition addable (h : haddr) (r : net_peer_info) : Prop := forall l h' r', A !! l = Some (h', r') -> h' <> h /\ r' <> r.

Lemma put_refines h l r : addable h r ->
  (PutWorkerEventHandler h l r m).1 = (Registry.put h l r A).1 /\
  represents (PutWorkerEventHandler h l r m).2 (Registry.put h l r A).2 /\ distinct (Registry.put h l r A).2.
Proof using Hm Hd.
  intros Ha. unfold PutWorkerEventHandler, Registry.put. rewrite lookup_refines.
  destruct (A !! l) as [[h' r']|] eqn:El; simpl; [done|]. split; [done|]. destruct Hm as [Hw Hr Hh].
  split; [split; simpl|].
  - by rewrite fmap_insert, Hw.
  - intros r1 l1. destruct (decide (r = r1)) as [<-|Hn].
    + rewrite lookup_insert_eq. split; [intros [= <-]; exists h; by rewrite lookup_insert_eq|].
      intros [h1 H1]. destruct (decide (l = l1)) as [->|Hl]; [done|]. rewrite lookup_insert_ne in H1 by done.
      by destruct (Ha _ _ _ H1).
    + rewrite lookup_insert_ne, Hr by done. split; intros [h1 H1]; exists h1.
      * rewrite lookup_insert_ne; [done|]. intros ->. by rewrite El in H1.
      * destruct (decide (l = l1)) as [->|Hl]; [rewrite lookup_insert_eq in H1; congruence|by rewrite lookup_insert_ne in H1].
  - intros l1 h1 r1 H1. destruct (decide (l = l1)) as [->|Hl].
    + rewrite lookup_insert_eq in H1. injection H1 as -> ->. by rewrite lookup_insert_eq.
    + rewrite lookup_insert_ne in H1 by done. destruct (Ha _ _ _ H1). rewrite lookup_insert_ne by done. by eapply Hh.
  - intros l1 l2 h1 h2 r1 r2 H1 H2 He.
    destruct (decide (l = l1)) as [<-|H3], (decide (l = l2)) as [<-|H4]; [done| | |].
    + rewrite lookup_insert_eq in H1. rewrite lookup_insert_ne in H2 by done. injection H1 as <- <-.
      destruct (Ha _ _ _ H2). naive_solver.
    + rewrite lookup_insert_eq in H2. rewrite lookup_insert_ne in H1 by done. injection H2 as <- <-.
      destruct (Ha _ _ _ H1). naive_solver.
    + rewrite lookup_insert_ne in H1, H2 by done. by eapply Hd.
Qed.

Lemma distinct_delete l : distinct (delete l A).
Proof using Hd. intros l1 l2 h1 h2 r1 r2 [_ H1]%lookup_delete_Some [_ H2]%lookup_delete_Some. by eapply Hd. Qed.

(** Taking out a connection of the registry, with its entry for the real peer. *)
Lemma delete_represents l h r hrp : A !! l = Some (h, r) ->
  (forall h' r', h' <> h -> m_hmap_handler_rp m !! h' = Some r' -> hrp !! h' = Some r') ->
  represents (Make (delete l (m_hmap_workers m)) (delete r (m_hmap_rp_lp m)) hrp) (delete l A).
Proof using Hm Hd.
  intros El Hrp. destruct Hm as [Hw Hr Hh]. split; simpl.
  - by rewrite fmap_delete, Hw.
  - intros r1 l1. rewrite lookup_delete_Some, Hr. split.
    + intros [Hn [h1 H1]]. exists h1. apply lookup_delete_Some. split; [|done]. intros ->. congruence.
    + intros [h1 [Hn H1]%lookup_delete_Some]. split; [|by exists h1]. intros ->. apply Hn. eapply Hd; [done..|]. by right.
  - intros l1 h1 r1 [Hn H1]%lookup_delete_Some. apply Hrp; [|by eapply Hh]. intros ->. apply Hn. eapply Hd; [done..|]. by left.
Qed.

Lemma remove_refines l :
  (RemoveWorkerEventHandler l m).1 = (Registry.remove l A).1 /\
  represents (RemoveWorkerEventHandler l m).2 (Registry.remove l A).2.
Proof using Hm Hd.
  unfold RemoveWorkerEventHandler, Registry.remove. rewrite lookup_refines.
  destruct (A !! l) as [[h r]|] eqn:El; simpl; [|by rewrite delete_id].
  split; [done|]. rewrite (rp_handler _ _ Hm _ _ _ El). simpl. apply (delete_represents l h r); [done|].
  intros h' r' Hn H. by rewrite lookup_delete_ne.
Qed.

(** The real peer is not that of another connection. *)
Lemma remove_real_refines l r : (forall l' h, A !! l' = Some (h, r) -> l' = l) ->
  (RemoveWorkerEventHandler_real l r m).1 = (Registry.remove_real l r A).1 /\
  represents (RemoveWorkerEventHandler_real l r m).2 (Registry.remove_real l r A).2.
Proof using Hm Hd.
  intros Hu. unfold RemoveWorkerEventHandler_real, Registry.remove_real.
  destruct (m_hmap_rp_lp m !! r) as [l1|] eqn:Er.
  - apply (rp_real _ _ Hm) in Er as [h Eh]. pose proof (Hu _ _ Eh) as ->. rewrite Eh.
    rewrite decide_True by done. pose proof (lookup_refines l) as Ew. rewrite Eh in Ew. unfold lookup_worker in *. simpl in *.
    rewrite Ew. split; [done|]. by apply (delete_represents l h r).
  - destruct (A !! l) as [[h r']|] eqn:El; [|done]. destruct (decide (r' = r)) as [->|Hn]; [|done].
    exfalso. assert (m_hmap_rp_lp m !! r = Some l) as E; [|congruence]. apply (rp_real _ _ Hm). by exists h.
Qed.
End refinement.

(** ** Any sequence of operations *)

Inductive mgr_op :=
  | OpGet (l : net_peer_info)
  | OpPut (h : haddr) (l r : net_peer_info)
  | OpRemove (l : net_peer_info)
  | OpGone (l r : net_peer_info).

Inductive mgr_answer := AHandler (h : option haddr) | APut (ok : bool).

Definition mgr_run (o : mgr_op) (m : t) : mgr_answer * t :=
  match o with
  | OpGet l => (AHandler (GetWorkerEventHandler l m), m)
  | OpPut h l r => let '(b, m) := PutWorkerEventHandler h l r m in (APut b, m)
  | OpRemove l => let '(x, m) := RemoveWorkerEventHandler l m in (AHandler x, m)
  | OpGone l r => let '(x, m) := RemoveWorkerEventHandler_real l r m in (AHandler x, m)
  end.

Definition reg_run (o : mgr_op) (A : registry) : mgr_answer * registry :=
  match o with
  | OpGet l => (AHandler (fst <$> A !! l), A)
  | OpPut h l r => let '(b, A) := Registry.put h l r A in (APut b, A)
  | OpRemove l => let '(x, A) := Registry.remove l A in (AHandler x, A)
  | OpGone l r => let '(x, A) := Registry.remove_real l r A in (AHandler x, A)
  end.

Fixpoint run_all {S} (f : mgr_op -> S -> mgr_answer * S) (os : list mgr_op) (s : S) : list mgr_answer * S :=
  match os with
  | [] => ([], s)
  | o :: os => let '(a, s) := f o s in let '(l, s) := run_all f os s in (a :: l, s)
  end.

(** The operations keep real peers and handlers apart. *)
Definition legal (A : registry) (o : mgr_op) : Prop :=
  match o with
  | OpPut h l r => addable A h r
  | OpGone l r => forall l' h, A !! l' = Some (h, r) -> l' = l
  | _ => True
  end.
Fixpoint all_legal (A : registry) (os : list mgr_op) : Prop :=
  match os with [] => True | o :: os => legal A o /\ all_legal (reg_run o A).2 os end.

Lemma op_refines o m A : distinct A -> represents m A -> legal A o ->
  (mgr_run o m).1 = (reg_run o A).1 /\ represents (mgr_run o m).2 (reg_run o A).2 /\ distinct (reg_run o A).2.
Proof.
  intros Hd Hm Hl. destruct o as [l|h l r|l|l r]; simpl in *.
  - unfold GetWorkerEventHandler. by rewrite (lookup_refines _ _ Hm).
  - destruct (put_refines m A Hd Hm h l r Hl) as (E & Hr & Hd').
    destruct (PutWorkerEventHandler h l r m), (Registry.put h l r A). simpl in *. by subst.
  - destruct (remove_refines m A Hd Hm l) as [E Hr]. pose proof (distinct_delete A Hd l).
    destruct (RemoveWorkerEventHandler l m). simpl in *. by subst.
  - destruct (remove_real_refines m A Hd Hm l r Hl) as [E Hr].
    assert (distinct (Registry.remove_real l r A).2) as Hd'.
    { unfold Registry.remove_real. destruct (A !! l) as [[h r']|]; [|done]. destruct (decide _); [by apply distinct_delete|done]. }
    destruct (RemoveWorkerEventHandler_real l r m), (Registry.remove_real l r A). simpl in *. by subst.
Qed.

Lemma run_refines os m A : distinct A -> represents m A -> all_legal A os ->
  (run_all mgr_run os m).1 = (run_all reg_run os A).1 /\
  represents (run_all mgr_run os m).2 (run_all reg_run os A).2 /\ distinct (run_all reg_run os A).2.
Proof.
  revert m A. induction os as [|o os IH]; intros m A Hd Hm Hl; [done|]. destruct Hl as [Ho Hl]. simpl.
  destruct (op_refines o m A Hd Hm Ho) as (E & Hm' & Hd').
  destruct (mgr_run o m) as [a m'], (reg_run o A) as [a' A']. simpl in *. subst.
  destruct (IH m' A' Hd' Hm' Hl) as (E & Hm'' & Hd'').
  destruct (run_all mgr_run os m'), (run_all reg_run os A'). simpl in *. by subst.
Qed.

(** C23 unique_manager: the three tables of a connection manager behave as one table from
    logic peers to connections that keeps the earliest connection of a peer.  Over any
    sequence of operations that starts with an empty manager, never adds a handler or a real
    peer that is registered already, and removes a lost connection under its own peers, every
    answer is that of the table, and no handler is registered for two peers. *)
Theorem unique_manager (os : list mgr_op) (Hl : all_legal ∅ os) :
  (run_all mgr_run os new).1 = (run_all reg_run os ∅).1 /\
  forall l, lookup_worker l (run_all mgr_run os new).2 = fst <$> (run_all reg_run os ∅).2 !! l /\
  forall l', lookup_worker l (run_all mgr_run os new).2 <> None ->
    lookup_worker l (run_all mgr_run os new).2 = lookup_worker l' (run_all mgr_run os new).2 -> l = l'.
Proof.
  destruct (run_refines os new ∅) as (E & Hm & Hd); [by intros ??????|apply new_represents|done|].
  split; [done|]. intros l. rewrite (lookup_refines _ _ Hm). split; [done|].
  intros l' Hn. rewrite !(lookup_refines _ _ Hm).
  destruct (_ !! l) as [[h r]|] eqn:E1; [|done]. destruct (_ !! l') as [[h' r']|] eqn:E2; simpl; [|done].
  intros [= ->]. eapply Hd; [done..|]. by left.
Qed.

(** A peer connects twice: the second connection is refused until the first is gone. *)
Definition demo_peer : net_peer_info := MkPeer "10.0.0.1" 2210 Tcp.
Definition demo_real (p : Z) : net_peer_info := MkPeer "10.0.0.1" p Tcp.
Definition demo_ops : list mgr_op :=
  [OpPut 1 demo_peer (demo_real 40000); OpPut 2 demo_peer (demo_real 40001); OpGone demo_peer (demo_real 40000);
   OpPut 2 demo_peer (demo_real 40001); OpGet demo_peer].

Lemma demo_legal : all_legal ∅ demo_ops.
Proof.
  assert (forall h r, addable ∅ h r) as He by (intros h r l h' r' H; by rewrite lookup_empty in H).
  unfold demo_ops, all_legal, legal, reg_run, Registry.put, Registry.remove_real. cbn [fst snd].
  rewrite !lookup_empty. cbn [fst snd]. rewrite !lookup_insert_eq. cbn [fst snd]. cbn.
  split_and!; try done.
  - intros l h' r' [[<- [= <- <-]]|[_ H]]%lookup_insert_Some; [done|by rewrite lookup_empty in H].
  - intros l h [[<- _]|[_ H]]%lookup_insert_Some; [done|by rewrite lookup_empty in H].
Qed.

Lemma unique_manager_witness :
  (run_all mgr_run demo_ops new).1 = [APut true; APut false; AHandler (Some 1); APut true; AHandler (Some 2)].
Proof. rewrite (proj1 (unique_manager demo_ops demo_legal)). vm_compute. reflexivity. Defined.
