(* ===== verification/EventLoop.v ===== *)
(** * The event loop of a worker thread (src/net/net-protocol-stacks/nonblocking/socket:
    event-drivers/event-worker, event-drivers/epoll, network-api/posix/local/simple-read-event-handler,
    network-api/posix/event-manager: worker_loop)

    An [EventWorker] waits for the events of its descriptors with epoll and takes, in each
    round, what other threads have left for it in three lists: handlers to delete, read and
    write events, and handlers to register.  Whoever leaves something there writes a byte to
    the worker's pipe afterwards, which is one of the descriptors.  All descriptors are
    edge-triggered: the kernel reports the pipe once for the bytes written since the last
    report, if they are still there. *)

From S2P Require Import Prelude Posix Net ConnMgr.

Definition EVENT_NONE : Z := 0.
Definition EVENT_READ : Z := 1.
Definition EVENT_WRITE : Z := 2.

Record NetEvent := MkNetEvent { ne_eh : haddr; ne_mask : Z }.

(** ** The kernel's epoll instance: descriptors with their user pointer and events *)

Definition EPOLLIN : Z := 1.
Definition EPOLLOUT : Z := 4.
Definition EPOLLERR : Z := 8.
Definition EPOLLHUP : Z := 16.
Definition EPOLLET : Z := 2147483648.

Record epoll_event := MkEE { ee_ptr : haddr; ee_events : Z }.
Notation epoll := (gmap Z epoll_event) (only parsing).

Inductive epoll_op := EPOLL_CTL_ADD | EPOLL_CTL_MOD | EPOLL_CTL_DEL.

(** [false]: the call returns -1 ([EEXIST], [ENOENT]). *)
Definition epoll_ctl (op : epoll_op) (fd : Z) (ee : epoll_event) (ep : epoll) : bool * epoll :=
  match op, ep !! fd with
  | EPOLL_CTL_ADD, None => (true, <[fd := ee]> ep)
  | EPOLL_CTL_MOD, Some _ => (true, <[fd := ee]> ep)
  | EPOLL_CTL_DEL, Some _ => (true, delete fd ep)
  | _, _ => (false, ep)
  end.

Definition has (mask bit : Z) : bool := negb (Z.land mask bit =? 0).

Module EpollEventDriver.

Definition add_events (mask : Z) : Z :=
  let ev := Z.lor (Z.lor EPOLLHUP EPOLLERR) EPOLLET in
  let ev := if has mask EVENT_READ then Z.lor ev EPOLLIN else ev in
  if has mask EVENT_WRITE then Z.lor ev EPOLLOUT else ev.

(** [fd] is the descriptor of the handler [h]. *)
Definition AddEvent (h fd cur_mask mask : Z) (ep : epoll) : Z * epoll :=
  let op := if cur_mask =? EVENT_NONE then EPOLL_CTL_ADD else EPOLL_CTL_MOD in
  let mask := Z.lor mask cur_mask in
  let '(ok, ep) := epoll_ctl op fd (MkEE h (add_events mask)) ep in
  (if ok then 0 else -1, ep).

Definition del_events (mask : Z) : Z :=
  let ev := 0 in
  let ev := if has mask EVENT_READ then Z.lor ev EPOLLIN else ev in
  if has mask EVENT_WRITE then Z.lor ev EPOLLOUT else ev.

Definition DeleteEvent (h fd cur_mask del_mask : Z) (ep : epoll) : Z * epoll :=
  let mask := Z.land cur_mask (Z.lnot del_mask) in
  let op := if negb (mask =? EVENT_NONE) then EPOLL_CTL_MOD else EPOLL_CTL_DEL in
  let '(ok, ep) := epoll_ctl op fd (MkEE h (del_events mask)) ep in
  (if ok then 0 else -1, ep).

Definition DeleteHandler (h fd : Z) (ep : epoll) : Z * epoll :=
  let '(ok, ep) := epoll_ctl EPOLL_CTL_DEL fd (MkEE h 0) ep in
  (if ok then 0 else -1, ep).

(** The mask of an event the kernel reports: an error or a hang-up is something to read. *)
Definition wait_mask (revents : Z) : Z :=
  let mask := 0 in
  let mask := if has revents EPOLLIN then Z.lor mask EVENT_READ else mask in
  let mask := if has revents EPOLLOUT then Z.lor mask EVENT_WRITE else mask in
  if has revents EPOLLERR || has revents EPOLLHUP then Z.lor mask EVENT_READ else mask.

(** What the coming calls of [epoll_wait] return. *)
Inductive epoll_result := EpEvents (evs : list epoll_event) | EpError (e : Z).

(** The number of events and the events; [None]: the call does not return. *)
Fixpoint EventWait (calls : list epoll_result) : option (Z * list NetEvent) :=
  match calls with
  | [] => None
  | EpEvents evs :: _ => Some (zlen evs, map (fun e => MkNetEvent (ee_ptr e) (wait_mask (ee_events e))) evs)
  | EpError e :: calls => if e =? EINTR then EventWait calls else Some (-1, [])
  end.
End EpollEventDriver.

(** What [AddEvent] asks for comes back as the same mask; whatever else is reported, an
    event without error or hang-up has exactly the read and write bits. *)
Lemma add_wait_mask mask : 0 <= mask <= 3 ->
  EpollEventDriver.wait_mask (Z.land (EpollEventDriver.add_events mask) (Z.lor EPOLLIN EPOLLOUT)) = mask.
Proof. intros H. assert (mask = 0 \/ mask = 1 \/ mask = 2 \/ mask = 3) as [->|[->|[->| ->]]] by lia; done. Qed.

(** ** class EventWorker *)

Record EpollAddEvent := MkAdd { ea_h : haddr; ea_cur_mask : Z; ea_mask : Z }.

(** [ew_pipe] is the number of bytes in the notification pipe, [ew_edge] whether some were
    written since the kernel last looked at it for a report. *)
Record EventWorker := MkEW {
  ew_epoll : gmap Z epoll_event;
  ew_pipe : Z;
  ew_edge : bool;
  m_lRwOpExtEvents : list NetEvent;
  m_lAddEpExtEvents : list EpollAddEvent;
  m_lDelEpExtEvents : gset haddr;
  m_notifyRecvFd : Z;
  m_pLocalReadEventHandler : haddr
}.

Definition set_epoll x (w : EventWorker) : EventWorker :=
  MkEW x (ew_pipe w) (ew_edge w) (m_lRwOpExtEvents w) (m_lAddEpExtEvents w) (m_lDelEpExtEvents w) (m_notifyRecvFd w)
    (m_pLocalReadEventHandler w).
Definition set_pipe x e (w : EventWorker) : EventWorker :=
  MkEW (ew_epoll w) x e (m_lRwOpExtEvents w) (m_lAddEpExtEvents w) (m_lDelEpExtEvents w) (m_notifyRecvFd w)
    (m_pLocalReadEventHandler w).
Definition set_rw x (w : EventWorker) : EventWorker :=
  MkEW (ew_epoll w) (ew_pipe w) (ew_edge w) x (m_lAddEpExtEvents w) (m_lDelEpExtEvents w) (m_notifyRecvFd w)
    (m_pLocalReadEventHandler w).
Definition set_add x (w : EventWorker) : EventWorker :=
  MkEW (ew_epoll w) (ew_pipe w) (ew_edge w) (m_lRwOpExtEvents w) x (m_lDelEpExtEvents w) (m_notifyRecvFd w)
    (m_pLocalReadEventHandler w).
Definition set_del x (w : EventWorker) : EventWorker :=
  MkEW (ew_epoll w) (ew_pipe w) (ew_edge w) (m_lRwOpExtEvents w) (m_lAddEpExtEvents w) x (m_notifyRecvFd w)
    (m_pLocalReadEventHandler w).

(** The constructor, for a pipe with the reading end [fd] and the handler [local] of it. *)
Definition EventWorker_new (fd local : Z) : EventWorker :=
  let w := MkEW ∅ 0 false [] [] ∅ fd local in
  set_epoll (EpollEventDriver.AddEvent local fd EVENT_NONE EVENT_READ (ew_epoll w)).2 w.

Definition AddExternalRWOpEvent (ne : NetEvent) (w : EventWorker) : EventWorker := set_rw (m_lRwOpExtEvents w ++ [ne]) w.
Definition GetExternalRWOpEvents (w : EventWorker) : list NetEvent * EventWorker := (m_lRwOpExtEvents w, set_rw [] w).
Definition AddExternalEpAddEvent (h cur_mask mask : Z) (w : EventWorker) : EventWorker :=
  set_add (m_lAddEpExtEvents w ++ [MkAdd h cur_mask mask]) w.
Definition GetExternalEpAddEvents (w : EventWorker) : list EpollAddEvent * EventWorker :=
  (m_lAddEpExtEvents w, set_add [] w).
Definition AddExternalEpDelEvent (h : haddr) (w : EventWorker) : EventWorker := set_del ({[h]} ∪ m_lDelEpExtEvents w) w.
Definition GetExternalEpDelEvents (w : EventWorker) : gset haddr * EventWorker := (m_lDelEpExtEvents w, set_del ∅ w).

(** The pipe holds 64 KiB and its writing end does not block: [None] is the exception
    [Wakeup] throws when it is full. *)
Definition PIPE_CAPACITY : Z := 65536.
Definition Wakeup (w : EventWorker) : option EventWorker :=
  if ew_pipe w <? PIPE_CAPACITY then Some (set_pipe (ew_pipe w + 1) true w) else None.

(** ** class PosixLocalReadEventHandler *)

(** [HandleReadEvent]: reads of at most 1024 bytes until the pipe is empty ([EAGAIN]).
    [fuel] bounds the reads; [None] is a loop that has not ended. *)
Fixpoint drain_pipe (fuel : nat) (bytes : Z) : option Z :=
  if bytes =? 0 then Some 0
  else match fuel with O => None | S fuel => drain_pipe fuel (bytes - Z.min bytes 1024) end.
Definition local_HandleReadEvent (w : EventWorker) : option (bool * EventWorker) :=
  n ← drain_pipe (Z.to_nat (ew_pipe w)) (ew_pipe w);
  Some (true, set_pipe n (ew_edge w) w).

Lemma drain_pipe_empties fuel bytes : 0 <= bytes <= Z.of_nat fuel -> drain_pipe fuel bytes = Some 0.
Proof.
  revert bytes. induction fuel as [|fuel IH]; intros bytes Hb; simpl; destruct (Z.eqb_spec bytes 0); [done|lia|done|].
  apply IH. lia.
Qed.

Lemma local_read w : 0 <= ew_pipe w -> local_HandleReadEvent w = Some (true, set_pipe 0 (ew_edge w) w).
Proof. intros H. unfold local_HandleReadEvent. by rewrite drain_pipe_empties by lia. Qed.

(** ** worker_loop, interleaved with the threads that leave work *)

(** Where the worker's thread is: before the test of [m_bStopped], in [epoll_wait], with the
    events it got, with events or external events still to process (without those of the
    handlers that are to be deleted), before the deletions, before the registrations. *)
Inductive loop_pc :=
  | Top
  | Sleeping
  | Got (evs : list NetEvent)
  | Processing (pend : gset haddr) (evs : list NetEvent)
  | External (pend : gset haddr) (evs : list NetEvent)
  | Registering (adds : list EpollAddEvent)
  | Ended.

(** [lp_waking] counts the threads that have left something and are about to call [Wakeup].
    The last four fields are a history: what was left in the two lists, and what the thread
    has taken up of it. *)
Record loop := MkLoop {
  lp_w : EventWorker;
  lp_pc : loop_pc;
  lp_waking : nat;
  lp_stopped : bool;
  lp_left : list NetEvent;
  lp_seen : list NetEvent;
  lp_left_add : list EpollAddEvent;
  lp_seen_add : list EpollAddEvent
}.

Definition loop_init (fd local : Z) : loop := MkLoop (EventWorker_new fd local) Top 0 false [] [] [] [].

Definition at_pc w pc (s : loop) : loop :=
  MkLoop w pc (lp_waking s) (lp_stopped s) (lp_left s) (lp_seen s) (lp_left_add s) (lp_seen_add s).
Definition seen_rw e w pc (s : loop) : loop :=
  MkLoop w pc (lp_waking s) (lp_stopped s) (lp_left s) (lp_seen s ++ [e]) (lp_left_add s) (lp_seen_add s).
Definition seen_add a w pc (s : loop) : loop :=
  MkLoop w pc (lp_waking s) (lp_stopped s) (lp_left s) (lp_seen s) (lp_left_add s) (lp_seen_add s ++ [a]).

(** [process_event] for the pipe's handler; what other handlers do is in the steps below. *)
Definition process_local (e : NetEvent) (w : EventWorker) : option EventWorker :=
  if decide (ne_eh e = m_pLocalReadEventHandler w) then
    if has (ne_mask e) EVENT_READ then '(_, w) ← local_HandleReadEvent w; Some w else Some w
  else Some w.

(** The next piece of code of the thread; [None] where it waits or is not defined. *)
Definition loop_run (s : loop) : option loop :=
  let w := lp_w s in
  match lp_pc s with
  | Top => Some (at_pc w (if lp_stopped s then Ended else Sleeping) s)
  | Sleeping | Ended => None
  | Got evs =>
      if lp_stopped s then Some (at_pc w Ended s)
      else let '(pend, w) := GetExternalEpDelEvents w in Some (at_pc w (Processing pend evs) s)
  | Processing pend [] => let '(ext, w) := GetExternalRWOpEvents w in Some (at_pc w (External pend ext) s)
  | Processing pend (e :: evs) =>
      if decide (ne_eh e ∈ pend) then Some (at_pc w (Processing pend evs) s)
      else w ← process_local e w; Some (at_pc w (Processing pend evs) s)
  | External pend (e :: evs) => Some (seen_rw e w (External pend evs) s)
  | External pend [] => let '(adds, w) := GetExternalEpAddEvents w in Some (at_pc w (Registering adds) s)
  | Registering (a :: adds) => Some (seen_add a w (Registering adds) s)
  | Registering [] => Some (at_pc w Top s)
  end.

Inductive loop_step (s : loop) : loop -> Prop :=
  (** a thread, the worker's own among them, leaves something *)
  | ls_rw e : loop_step s (MkLoop (AddExternalRWOpEvent e (lp_w s)) (lp_pc s) (S (lp_waking s)) (lp_stopped s)
      (lp_left s ++ [e]) (lp_seen s) (lp_left_add s) (lp_seen_add s))
  | ls_add h cur mask : loop_step s (MkLoop (AddExternalEpAddEvent h cur mask (lp_w s)) (lp_pc s) (S (lp_waking s)) (lp_stopped s)
      (lp_left s) (lp_seen s) (lp_left_add s ++ [MkAdd h cur mask]) (lp_seen_add s))
  | ls_del h : h <> m_pLocalReadEventHandler (lp_w s) ->
      loop_step s (MkLoop (AddExternalEpDelEvent h (lp_w s)) (lp_pc s) (S (lp_waking s)) (lp_stopped s)
        (lp_left s) (lp_seen s) (lp_left_add s) (lp_seen_add s))
  | ls_stop : loop_step s (MkLoop (lp_w s) (lp_pc s) (S (lp_waking s)) true (lp_left s) (lp_seen s) (lp_left_add s) (lp_seen_add s))
  (** it writes to the pipe, or throws because the pipe is full *)
  | ls_wake w n : lp_waking s = S n -> w = default (lp_w s) (Wakeup (lp_w s)) ->
      loop_step s (MkLoop w (lp_pc s) n (lp_stopped s) (lp_left s) (lp_seen s) (lp_left_add s) (lp_seen_add s))
  (** the kernel reports events; the pipe only for bytes that are new and still there *)
  | ls_return evs edge : lp_pc s = Sleeping ->
      (edge = ew_edge (lp_w s) /\ Forall (fun e => ne_eh e <> m_pLocalReadEventHandler (lp_w s)) evs \/
       edge = false /\ ew_edge (lp_w s) = true /\ 0 < ew_pipe (lp_w s) /\
         MkNetEvent (m_pLocalReadEventHandler (lp_w s)) EVENT_READ ∈ evs) ->
      loop_step s (at_pc (set_pipe (ew_pipe (lp_w s)) edge (lp_w s)) (Got evs) s)
  | ls_run s' : loop_run s = Some s' -> loop_step s s'.

Inductive loop_reachable (fd local : Z) : loop -> Prop :=
  | lr_init : loop_reachable fd local (loop_init fd local)
  | lr_step s s' : loop_reachable fd local s -> loop_step s s' -> loop_reachable fd local s'.

(** ** The invariant *)

(** What the thread has taken out of the two lists and not yet come to. *)
Definition rw_in_hand (pc : loop_pc) : list NetEvent := match pc with External _ evs => evs | _ => [] end.
Definition add_in_hand (pc : loop_pc) : list EpollAddEvent := match pc with Registering adds => adds | _ => [] end.

(** Both lists, or the list of registrations, are still to be looked at in this round; or
    the thread has ended. *)
Definition both_ahead (pc : loop_pc) : Prop := match pc with Got _ | Processing _ _ | Ended => True | _ => False end.
Definition add_ahead (pc : loop_pc) : Prop :=
  match pc with Got _ | Processing _ _ | External _ _ | Ended => True | _ => False end.

(** The pipe's event is among those still to be processed, or the thread has ended. *)
Definition pipe_in_hand (local : haddr) (pc : loop_pc) : Prop :=
  match pc with
  | Got evs | Processing _ evs => MkNetEvent local EVENT_READ ∈ evs
  | Ended => True
  | _ => False
  end.

Definition alarm (s : loop) : Prop := (0 < lp_waking s)%nat \/ ew_edge (lp_w s) = true /\ 0 < ew_pipe (lp_w s).

Record loop_inv (local : haddr) (s : loop) : Prop := {
  li_local : m_pLocalReadEventHandler (lp_w s) = local;
  li_pipe : 0 <= ew_pipe (lp_w s);
  li_del : local ∉ m_lDelEpExtEvents (lp_w s);
  li_pend : match lp_pc s with Processing pend _ => local ∉ pend | _ => True end;
  li_edge : 0 < ew_pipe (lp_w s) -> ew_edge (lp_w s) = true \/ pipe_in_hand local (lp_pc s);
  li_rw : m_lRwOpExtEvents (lp_w s) <> [] -> alarm s \/ both_ahead (lp_pc s);
  li_add : m_lAddEpExtEvents (lp_w s) <> [] -> alarm s \/ add_ahead (lp_pc s);
  li_stop : lp_stopped s = true -> alarm s \/ lp_pc s <> Sleeping;
  li_left : lp_left s = lp_seen s ++ rw_in_hand (lp_pc s) ++ m_lRwOpExtEvents (lp_w s);
  li_left_add : lp_left_add s = lp_seen_add s ++ add_in_hand (lp_pc s) ++ m_lAddEpExtEvents (lp_w s)
}.

Lemma loop_inv_init fd local : loop_inv local (loop_init fd local).
Proof. split; try done; simpl; lia. Qed.

(** The thread itself. *)
Lemma loop_inv_run local s s' : loop_inv local s -> loop_run s = Some s' -> loop_inv local s'.
Proof.
  intros [Hl Hp Hd Hpd He Hr Ha Hs Hlf Hla] E. unfold loop_run in E. unfold alarm in *.
  destruct (lp_pc s) as [| |evs|pend [|e evs]|pend [|e evs]|[|a adds]|] eqn:Epc; simpl in *; try done.
  - injection E as <-. split; unfold alarm; simpl; try done; destruct (lp_stopped s) eqn:Es; simpl; auto; tauto.
  - destruct (lp_stopped s) eqn:Es; injection E as <-; split; unfold alarm; simpl; auto; set_solver.
  - injection E as <-. split; unfold alarm; simpl; auto.
    + intros H. destruct (He H) as [?|[]%not_elem_of_nil]. by left.
    + by rewrite app_nil_r.
  - destruct (decide (ne_eh e ∈ pend)) as [Hin|Hn]; simpl in E.
    { injection E as <-. split; unfold alarm; simpl; auto. intros H. destruct (He H) as [?|[<-|?]%elem_of_cons]; [by left|done|by right]. }
    assert (forall w', m_pLocalReadEventHandler w' = local -> 0 <= ew_pipe w' -> m_lDelEpExtEvents w' = m_lDelEpExtEvents (lp_w s) ->
      (0 < ew_pipe w' -> ew_edge w' = true \/ MkNetEvent local EVENT_READ ∈ evs) ->
      m_lRwOpExtEvents w' = m_lRwOpExtEvents (lp_w s) -> m_lAddEpExtEvents w' = m_lAddEpExtEvents (lp_w s) ->
      loop_inv local (at_pc w' (Processing pend evs) s)) as Hall.
    { intros w' H1 H2 H3 H4 H5 H6. split; unfold alarm; simpl; rewrite ?H3, ?H5, ?H6; auto. }
    unfold process_local in E. destruct (decide (ne_eh e = m_pLocalReadEventHandler (lp_w s))) as [El|Hnl].
    + destruct (has (ne_mask e) EVENT_READ) eqn:Em; simpl in E.
      * rewrite local_read in E by done. simpl in E. injection E as <-. apply Hall; simpl; try done; lia.
      * injection E as <-. apply Hall; auto. intros H. destruct (He H) as [?|[<-|?]%elem_of_cons]; [by left|done|by right].
    + simpl in E. injection E as <-. apply Hall; auto. intros H. destruct (He H) as [?|[<-|?]%elem_of_cons]; [by left|by destruct Hnl|by right].
  - injection E as <-. split; unfold alarm; simpl; auto; try tauto; try by rewrite app_nil_r.
  - injection E as <-. split; unfold alarm; simpl; auto. by rewrite <- app_assoc.
  - injection E as <-. split; unfold alarm; simpl; auto. 
  - injection E as <-. split; unfold alarm; simpl; auto. by rewrite <- app_assoc.
Qed.

Lemma loop_inv_step local s s' : loop_inv local s -> loop_step s s' -> loop_inv local s'.
Proof.
  intros HI Hst. destruct Hst as [e|h cur mask|h Hh| |w n Ew ->|evs edge Epc Hev|s' E].
  7: by eapply loop_inv_run.
  1-4: destruct HI as [Hl Hp Hd Hpd He Hr Ha Hs Hlf Hla]; split; unfold alarm; simpl; auto with lia;
    try (intros; left; left; lia); try (by rewrite ?Hlf, ?Hla, <- !app_assoc); set_solver.
  - destruct HI as [Hl Hp Hd Hpd He Hr Ha Hs Hlf Hla].
    assert (forall x, m_pLocalReadEventHandler (default (lp_w s) (Wakeup (lp_w s))) = x <-> m_pLocalReadEventHandler (lp_w s) = x) as E1
      by (intros x; unfold Wakeup; by destruct (_ <? _)).
    assert (m_lDelEpExtEvents (default (lp_w s) (Wakeup (lp_w s))) = m_lDelEpExtEvents (lp_w s)) as E2 by (unfold Wakeup; by destruct (_ <? _)).
    assert (m_lRwOpExtEvents (default (lp_w s) (Wakeup (lp_w s))) = m_lRwOpExtEvents (lp_w s)) as E3 by (unfold Wakeup; by destruct (_ <? _)).
    assert (m_lAddEpExtEvents (default (lp_w s) (Wakeup (lp_w s))) = m_lAddEpExtEvents (lp_w s)) as E4 by (unfold Wakeup; by destruct (_ <? _)).
    assert (0 <= ew_pipe (default (lp_w s) (Wakeup (lp_w s)))) as E5 by (unfold Wakeup; destruct (_ <? _); simpl; lia).
    assert (forall P, (0 < ew_pipe (lp_w s) -> ew_edge (lp_w s) = true \/ P) ->
      ew_edge (default (lp_w s) (Wakeup (lp_w s))) = true /\ 0 < ew_pipe (default (lp_w s) (Wakeup (lp_w s))) \/ P) as E6.
    { intros P HP. unfold Wakeup. destruct (Z.ltb_spec (ew_pipe (lp_w s)) PIPE_CAPACITY) as [Hc|Hc]; simpl; [left; lia|].
      unfold PIPE_CAPACITY in Hc. destruct HP as [HP|HP]; [lia|left; split; [done|lia]|by right]. }
    specialize (E6 _ He). split; unfold alarm; simpl; rewrite ?E1, ?E2, ?E3, ?E4; auto.
    + intros _. destruct E6 as [[? ?]|?]; [by left|by right].
    + intros H. destruct E6 as [?|E6]; [left; by right|]. right. by destruct (lp_pc s).
    + intros H. destruct E6 as [?|E6]; [left; by right|]. right. by destruct (lp_pc s).
    + intros H. destruct E6 as [?|E6]; [left; by right|]. right. by destruct (lp_pc s).
  - destruct HI as [Hl Hp Hd Hpd He Hr Ha Hs Hlf Hla]. rewrite Epc in *. simpl in *.
    split; unfold alarm; simpl; auto. intros H. destruct Hev as [[-> _]|(-> & _ & _ & Hin)]; [|right; congruence].
    left. by destruct (He H).
Qed.

Lemma loop_inv_reachable fd local s : loop_reachable fd local s -> loop_inv local s.
Proof. induction 1; [apply loop_inv_init|by eapply loop_inv_step]. Qed.

(** C22 loop_wakes: no event and no registration that is left for a worker thread is lost,
    and no call to stop it, however the threads interleave.  Each read or write event, and
    each handler to register, is taken up once, in the order in which they were left; and
    whenever the thread sleeps in epoll_wait while something of it is there, or it was told
    to stop, a thread is about to write to its pipe or the pipe is readable with an edge the
    kernel has not reported, so that epoll_wait returns. *)
Theorem loop_wakes (fd local : Z) (s : loop) (Hr : loop_reachable fd local s) :
  lp_left s = lp_seen s ++ rw_in_hand (lp_pc s) ++ m_lRwOpExtEvents (lp_w s) /\
  lp_left_add s = lp_seen_add s ++ add_in_hand (lp_pc s) ++ m_lAddEpExtEvents (lp_w s) /\
  (lp_pc s = Sleeping -> lp_left s <> lp_seen s \/ lp_left_add s <> lp_seen_add s \/ lp_stopped s = true ->
   (0 < lp_waking s)%nat \/ ew_edge (lp_w s) = true /\ 0 < ew_pipe (lp_w s)).
Proof.
  destruct (loop_inv_reachable _ _ _ Hr) as [_ _ _ _ _ Hrw Ha Hs Hlf Hla]. split; [done|]. split; [done|].
  intros Epc Hw. rewrite Epc in *. simpl in *. destruct Hw as [Hw|[Hw|Hw]].
  - destruct Hrw as [?|[]]; [|done]. intros E. by rewrite E, app_nil_r in Hlf.
  - destruct Ha as [?|[]]; [|done]. intros E. by rewrite E, app_nil_r in Hla.
  - by destruct (Hs Hw).
Qed.

Definition demo_left : loop :=
  MkLoop (AddExternalRWOpEvent (MkNetEvent 5 EVENT_WRITE) (EventWorker_new 3 1)) Sleeping 1 false
    [MkNetEvent 5 EVENT_WRITE] [] [] [].

Lemma run_reachable fd local s s' : loop_reachable fd local s -> loop_run s = Some s' -> loop_reachable fd local s'.
Proof. intros H E. by eapply lr_step; [done|apply ls_run]. Qed.

Lemma demo_left_reachable : loop_reachable 3 1 demo_left.
Proof.
  pose proof (lr_init 3 1) as H. eapply run_reachable in H; [|reflexivity].
  exact (lr_step _ _ _ _ H (ls_rw _ (MkNetEvent 5 EVENT_WRITE))).
Qed.

Lemma loop_wakes_witness : (0 < lp_waking demo_left)%nat \/ ew_edge (lp_w demo_left) = true /\ 0 < ew_pipe (lp_w demo_left).
Proof. apply (loop_wakes 3 1 demo_left demo_left_reachable); [reflexivity|by left]. Defined.

(** ** A deletion that waits

    The list of deletions is taken before the events are processed, and reading the pipe is
    one of the events.  A deletion that is left in between is not seen in this round, and its
    byte is read in it: the thread goes to sleep with the handler in the list and nothing in
    the pipe.  It is deleted when something else wakes the thread. *)
Theorem deletion_waits : exists s, loop_reachable 3 1 s /\ lp_pc s = Sleeping /\ lp_waking s = 0%nat /\
  ew_pipe (lp_w s) = 0 /\ m_lDelEpExtEvents (lp_w s) = {[7]}.
Proof.
  pose proof (lr_init 3 1) as H. eapply run_reachable in H; [|reflexivity].
  eapply lr_step in H; [|apply (ls_rw _ (MkNetEvent 5 EVENT_WRITE))].
  eapply lr_step in H; [|eapply (ls_wake _ _ 0); reflexivity].
  eapply lr_step in H; [|apply (ls_return _ [MkNetEvent 1 EVENT_READ] false); [reflexivity|right; split_and!; [done..|set_solver]]].
  eapply run_reachable in H; [|reflexivity].
  eapply lr_step in H; [|by apply (ls_del _ 7)].
  eapply lr_step in H; [|eapply (ls_wake _ _ 0); reflexivity].
  do 6 (eapply run_reachable in H; [|vm_compute; reflexivity]).
  eexists. split; [exact H|]. by vm_compute.
Qed.
