(* ===== verification/SocketService.v ===== *)
(** * The socket service (src/net/net-protocol-stacks/nonblocking: nb-socket-service,
    socket/network-api/abstract-file-event-handler.h, .../posix/event-manager,
    .../posix/tcp/connection-event-handler, server-event-handler, stack/connection-socket: Connect;
    src/common/reference-counter)

    The service keeps the connections to its peers.  A connection is a handler object, made by
    [connect] or by the listening socket, registered with the manager during its handshake and
    then given to one of the worker threads.  Handlers are counted references; the last
    [Release] leaves the handler to its worker for deletion.  The state has the live objects by
    their address: an access to an address that is not there is undefined.

    What a call meets in its environment is an argument of it: the descriptors and addresses
    that are new, what the system calls return, how far a handshake comes.  What reading and
    writing on the sockets of the connections gives is the schedule [sv_io]; [NetWorker] has
    the code behind it. *)

From S2P Require Import Prelude Posix Net ConnMgr EventLoop.
Import UniqueWorkerManager.

(** ** Handlers *)

Inductive hkind := LocalRead | Listener | Connection.

(** An [AFileEventHandler] with its [FileDescriptor] and, for a connection, the messages in
    the queue of its [ANetStackMessageWorker].  [h_own] is [m_pOwnEvWorker], a worker by its
    number. *)
Record handler := MkFEH {
  h_kind : hkind;
  h_fd : Z;
  h_ref : Z;
  h_own : option nat;
  h_logic : net_peer_info;
  h_real : net_peer_info;
  h_msgs : list SndMessage
}.
Definition set_ref x (h : handler) : handler :=
  MkFEH (h_kind h) (h_fd h) x (h_own h) (h_logic h) (h_real h) (h_msgs h).
Definition SetOwnWorker x (h : handler) : handler :=
  MkFEH (h_kind h) (h_fd h) (h_ref h) x (h_logic h) (h_real h) (h_msgs h).
Definition SetLogicPeerInfo x (h : handler) : handler :=
  MkFEH (h_kind h) (h_fd h) (h_ref h) (h_own h) x (h_real h) (h_msgs h).
Definition set_msgs x (h : handler) : handler :=
  MkFEH (h_kind h) (h_fd h) (h_ref h) (h_own h) (h_logic h) (h_real h) x.

(** What a call of [Recv] or [Send] on a connection does: its result, and how many of the
    queued messages a [Send] takes. *)
Record io_out := MkIo { io_rc : bool; io_taken : nat }.

(** What [accept] gives: a connection with its descriptor, the address of the handler that
    will be made for it and its peer, or an error. *)
Inductive accept_out := Accepted (fd addr : Z) (peer : net_peer_info) | AcceptError (e : Z).

(** [NBSocketService] with its [PosixEventManager]: the first [m_iConnWorkersCnt] workers are
    those of the connections, the one behind them, if any, that of the listening socket.
    [sv_tasks] are the tasks of the listening handler's thread pool, [sv_notes] what the
    user's callback was told of the listening socket. *)
Record svc := MkSvc {
  sv_handlers : gmap haddr handler;
  sv_workers : list EventWorker;
  m_iConnWorkersCnt : Z;
  m_iCurWorkerIdx : Z;
  m_sspMgr : t;
  m_bStopped : bool;
  m_connectTimeout : Z;
  sv_tasks : list haddr;
  sv_io : list io_out;
  sv_accepts : list accept_out;
  sv_notes : list NotifyMessage;
  sv_lastId : Z
}.
Definition upd_svc (s : svc) hs ws idx mgr st to ts io ac ns li : svc :=
  MkSvc hs ws (m_iConnWorkersCnt s) idx mgr st to ts io ac ns li.
Definition set_handlers x (s : svc) : svc := upd_svc s x (sv_workers s) (m_iCurWorkerIdx s) (m_sspMgr s) (m_bStopped s)
  (m_connectTimeout s) (sv_tasks s) (sv_io s) (sv_accepts s) (sv_notes s) (sv_lastId s).
Definition set_workers x (s : svc) : svc := upd_svc s (sv_handlers s) x (m_iCurWorkerIdx s) (m_sspMgr s) (m_bStopped s)
  (m_connectTimeout s) (sv_tasks s) (sv_io s) (sv_accepts s) (sv_notes s) (sv_lastId s).
Definition set_idx x (s : svc) : svc := upd_svc s (sv_handlers s) (sv_workers s) x (m_sspMgr s) (m_bStopped s)
  (m_connectTimeout s) (sv_tasks s) (sv_io s) (sv_accepts s) (sv_notes s) (sv_lastId s).
Definition set_mgr x (s : svc) : svc := upd_svc s (sv_handlers s) (sv_workers s) (m_iCurWorkerIdx s) x (m_bStopped s)
  (m_connectTimeout s) (sv_tasks s) (sv_io s) (sv_accepts s) (sv_notes s) (sv_lastId s).
Definition set_stopped x (s : svc) : svc := upd_svc s (sv_handlers s) (sv_workers s) (m_iCurWorkerIdx s) (m_sspMgr s) x
  (m_connectTimeout s) (sv_tasks s) (sv_io s) (sv_accepts s) (sv_notes s) (sv_lastId s).
Definition set_timeout x (s : svc) : svc := upd_svc s (sv_handlers s) (sv_workers s) (m_iCurWorkerIdx s) (m_sspMgr s) (m_bStopped s)
  x (sv_tasks s) (sv_io s) (sv_accepts s) (sv_notes s) (sv_lastId s).
Definition set_tasks x (s : svc) : svc := upd_svc s (sv_handlers s) (sv_workers s) (m_iCurWorkerIdx s) (m_sspMgr s) (m_bStopped s)
  (m_connectTimeout s) x (sv_io s) (sv_accepts s) (sv_notes s) (sv_lastId s).
Definition set_io x (s : svc) : svc := upd_svc s (sv_handlers s) (sv_workers s) (m_iCurWorkerIdx s) (m_sspMgr s) (m_bStopped s)
  (m_connectTimeout s) (sv_tasks s) x (sv_accepts s) (sv_notes s) (sv_lastId s).
Definition set_accepts x (s : svc) : svc := upd_svc s (sv_handlers s) (sv_workers s) (m_iCurWorkerIdx s) (m_sspMgr s) (m_bStopped s)
  (m_connectTimeout s) (sv_tasks s) (sv_io s) x (sv_notes s) (sv_lastId s).
Definition set_notes x (s : svc) : svc := upd_svc s (sv_handlers s) (sv_workers s) (m_iCurWorkerIdx s) (m_sspMgr s) (m_bStopped s)
  (m_connectTimeout s) (sv_tasks s) (sv_io s) (sv_accepts s) x (sv_lastId s).
Definition set_svcId x (s : svc) : svc := upd_svc s (sv_handlers s) (sv_workers s) (m_iCurWorkerIdx s) (m_sspMgr s) (m_bStopped s)
  (m_connectTimeout s) (sv_tasks s) (sv_io s) (sv_accepts s) (sv_notes s) x.

Definition VM (A : Type) : Type := M svc A.

(** [*h], and a change of a member of it *)
Definition handler_at (h : haddr) : VM handler := hs ← getS sv_handlers; of_mem (hs !! h).
Definition on_handler (h : haddr) (f : handler -> handler) : VM unit :=
  hd ← handler_at h;
  modS (fun s => set_handlers (<[h := f hd]> (sv_handlers s)) s).
(** [new] at an address, and [delete] *)
Definition new_handler (h : haddr) (hd : handler) : VM unit := modS (fun s => set_handlers (<[h := hd]> (sv_handlers s)) s).
Definition delete_handler (h : haddr) : VM unit :=
  handler_at h;;
  modS (fun s => set_handlers (delete h (sv_handlers s)) s).

Definition on_worker {A} (i : nat) (f : EventWorker -> A * EventWorker) : VM A :=
  ws ← getS sv_workers;
  w ← of_mem (ws !! i);
  let '(a, w) := f w in
  modS (fun s => set_workers (<[i := w]> (sv_workers s)) s);;
  mret a.
Definition wake (i : nat) : VM unit :=
  ws ← getS sv_workers;
  w ← of_mem (ws !! i);
  match Wakeup w with
  | Some w => modS (fun s => set_workers (<[i := w]> (sv_workers s)) s)
  | None => halt Aborted
  end.

(** ** class ReferenceCounter *)

Module ReferenceCounter.
Definition AddRef (h : haddr) : VM unit := on_handler h (fun hd => set_ref (i32 (h_ref hd + 1)) hd).
Definition Release (h : haddr) : VM unit := on_handler h (fun hd => set_ref (i32 (h_ref hd - 1)) hd).
(** [atomic_fetch] is [__sync_fetch_and_and(&m_iRef, 1)]: it returns the counter, and leaves
    only its last bit. *)
Definition GetRef (h : haddr) : VM Z :=
  hd ← handler_at h;
  on_handler h (fun hd => set_ref (Z.land (h_ref hd) 1) hd);;
  mret (h_ref hd).
End ReferenceCounter.

(** [AFileEventHandler::Release] *)
Definition Release (h : haddr) : VM unit :=
  ReferenceCounter.Release h;;
  r ← ReferenceCounter.GetRef h;
  if 0 =? r then
    hd ← handler_at h;
    match h_own hd with
    | Some ew => on_worker ew (fun w => (tt, AddExternalEpDelEvent h w));; wake ew
    | None => mret tt
    end
  else mret tt.

(** ** class ANetStackMessageWorker, for the handler it belongs to *)

(** [GetStackMsgWorker]: only connections have one. *)
Definition GetStackMsgWorker (h : haddr) : VM unit :=
  hd ← handler_at h;
  match h_kind hd with Connection => mret tt | LocalRead | Listener => halt Aborted end.

(** The queue has no maximum, so that [TryPush] succeeds. *)
Definition worker_SendMessage (h : haddr) (m : SndMessage) : VM bool :=
  hd ← handler_at h;
  let previousSize := zlen (h_msgs hd) in
  on_handler h (fun hd => set_msgs (h_msgs hd ++ [m]) hd);;
  (if 0 =? previousSize then
     hd ← handler_at h;
     ew ← of_mem (h_own hd);
     on_worker ew (fun w => (tt, AddExternalRWOpEvent (MkNetEvent h EVENT_WRITE) w));;
     wake ew
   else mret tt);;
  mret true.

Definition worker_ClearMessage (h : haddr) : VM unit := on_handler h (set_msgs []).

(** ** PosixEventManager::AddEvent *)

(** [++idx; idx %= cnt;] in [int32_t] and [uint32_t]; a count of 0 divides by zero. *)
Definition next_worker (cnt idx : Z) : option Z :=
  if cnt =? 0 then None else Some (i32 (u32 (i32 (idx + 1)) mod cnt)).

Definition AddEvent (h cur_mask mask : Z) : VM unit :=
  s ← getS (fun s => (m_iConnWorkersCnt s, m_iCurWorkerIdx s));
  idx ← of_mem (next_worker s.1 s.2);
  modS (set_idx idx);;
  let ew := Z.to_nat idx in
  on_handler h (SetOwnWorker (Some ew));;
  on_worker ew (fun w => (tt, AddExternalEpAddEvent h cur_mask mask w));;
  wake ew.

(** ** Callbacks of the service *)

Definition on_stack_connect (h : haddr) : VM unit :=
  stopped ← getS m_bStopped;
  if stopped : bool then mret tt else AddEvent h EVENT_NONE (Z.lor EVENT_READ EVENT_WRITE).

(** [m_sspMgr->PutWorkerEventHandler(handler)] *)
Definition on_logic_connect (h : haddr) : VM bool :=
  stopped ← getS m_bStopped;
  if stopped : bool then mret false
  else
    hd ← handler_at h;
    m ← getS m_sspMgr;
    let '(res, m) := PutWorkerEventHandler h (h_logic hd) (h_real hd) m in
    modS (set_mgr m);;
    mret res.

Definition on_finish (h : haddr) : VM unit :=
  stopped ← getS m_bStopped;
  if stopped : bool then mret tt
  else
    hd ← handler_at h;
    m ← getS m_sspMgr;
    let '(res, m) := RemoveWorkerEventHandler_real (h_logic hd) (h_real hd) m in
    modS (set_mgr m);;
    match res with
    | None => mret tt
    | Some _ => GetStackMsgWorker h;; worker_ClearMessage h;; Release h
    end.

(** ** PosixTcpConnectionSocket::Connect *)

Definition EINPROGRESS : Z := 115.
Definition ECONNABORTED : Z := 103.

Inductive select_out := SelectReady | SelectTimeout | SelectError (e : Z).

(** What its calls return: [SetNonBlocking(true)], [connect] ([None]: success), [select] with
    the time it leaves in [*timeout], [getsockopt] ([None]: failure), [SetNonBlocking(false)]. *)
Record connect_calls := MkCalls {
  cc_nonblock : bool;
  cc_connect : option Z;
  cc_select : select_out;
  cc_left : Z;
  cc_valopt : option Z;
  cc_block : bool
}.

(** The result and [*timeout] after the call, which select has changed. *)
Definition Connect (c : connect_calls) (timeout : option Z) : bool * option Z :=
  match timeout with
  | None => (match cc_connect c with None => true | Some _ => false end, None)
  | Some tmo =>
      if negb (cc_nonblock c) then (false, Some tmo)
      else
        match cc_connect c with
        | None => (cc_block c, Some tmo)
        | Some e =>
            if e =? EINPROGRESS then
              match cc_select c with
              | SelectReady =>
                  match cc_valopt c with
                  | None => (false, Some (cc_left c))
                  | Some v => if v =? 0 then (cc_block c, Some (cc_left c)) else (false, Some (cc_left c))
                  end
              | SelectTimeout | SelectError _ => (false, Some (cc_left c))
              end
            else (false, Some tmo)
        end
  end.

(** ** Opening connections *)

(** How far the handshake of a new connection comes: it fails before the manager is asked, or
    the manager is asked for the logic port that was received; [hs_sent]: on the server's side
    the last message can be sent. *)
Inductive handshake := HsFails | HsAsks (port : Z) (hs_sent : bool).

(** [Initialize] of the client's and of the server's side. *)
Definition Initialize_client (h : haddr) (hs : handshake) : VM bool :=
  match hs with HsFails => mret false | HsAsks _ _ => on_logic_connect h end.
Definition Initialize_server (h : haddr) (hs : handshake) : VM bool :=
  match hs with
  | HsFails => mret false
  | HsAsks port sent =>
      on_handler h (fun hd => SetLogicPeerInfo (MkPeer (np_addr (h_real hd)) port Tcp) hd);;
      c ← on_logic_connect h;
      mret (c && sent)
  end.

(** [socket] ([None]: failure), [Connect], the address of the new handler, the handshake, and
    [SetNonBlocking(true)] behind it. *)
Record connect_env := MkEnv {
  ce_socket : option Z;
  ce_calls : connect_calls;
  ce_addr : haddr;
  ce_hs : handshake;
  ce_nonblock : bool
}.

Definition connect (npt : net_peer_info) (e : connect_env) : VM bool :=
  m ← getS m_sspMgr;
  match GetWorkerEventHandler npt m with
  | Some _ => mret true
  | None =>
      match np_sp npt with
      | Tcp =>
          match ce_socket e with
          | None => mret false
          | Some fd =>
              tmo ← getS m_connectTimeout;
              let '(ok, rest) := Connect (ce_calls e) (Some tmo) in
              modS (set_timeout (default tmo rest));;
              if negb ok then mret false
              else
                let h := ce_addr e in
                new_handler h (MkFEH Connection fd 1 None net_peer_info_default npt []);;
                on_handler h (SetLogicPeerInfo npt);;
                ok ← Initialize_client h (ce_hs e);
                if negb (ok && ce_nonblock e) then delete_handler h;; mret false
                else AddEvent h EVENT_NONE (Z.lor EVENT_READ EVENT_WRITE);; mret true
          end
      | _ => halt Aborted
      end
  end.

(** [GetWorkerEventHandlerWithRef] *)
Definition GetWorkerEventHandlerWithRef (npt : net_peer_info) : VM (option haddr) :=
  m ← getS m_sspMgr;
  match lookup_worker npt m with
  | Some h => ReferenceCounter.AddRef h;; mret (Some h)
  | None => mret None
  end.

Definition SendMessage (m : SndMessage) (e : connect_env) : VM bool :=
  stopped ← getS m_bStopped;
  if stopped : bool then mret false
  else
    let peer := snd_peer m in
    if negb (bool_decide (np_sp peer = Tcp)) then halt Aborted
    else
      handler ← GetWorkerEventHandlerWithRef peer;
      handler ← match handler with
                | Some h => mret (Some h)
                | None =>
                    ok ← connect peer e;
                    if ok : bool then GetWorkerEventHandlerWithRef peer else mret None
                end;
      match handler with
      | Some h =>
          GetStackMsgWorker h;;
          rc ← worker_SendMessage h m;
          Release h;;
          mret rc
      | None => mret false
      end.

Definition Disconnect (peer : net_peer_info) : VM bool :=
  if negb (bool_decide (np_sp peer = Tcp)) then mret false
  else
    stopped ← getS m_bStopped;
    if stopped : bool then mret false
    else
      m ← getS m_sspMgr;
      let '(handler, m) := RemoveWorkerEventHandler peer m in
      modS (set_mgr m);;
      match handler with
      | None => mret true
      | Some h =>
          GetStackMsgWorker h;;
          worker_ClearMessage h;;
          Release h;;
          mret true
      end.

(** A task of the listening handler's pool: the server's side of a new connection. *)
Definition accept_task (h : haddr) (hs : handshake) (nonblock : bool) : VM unit :=
  ok ← Initialize_server h hs;
  if ok && nonblock then on_stack_connect h else delete_handler h.

(** ** Events *)

Definition next_io : VM io_out := fun s =>
  match sv_io s with
  | [] => (Ok (MkIo true 0), s)
  | x :: io => (Ok x, set_io io s)
  end.

(** [PosixTcpServerEventHandler::HandleReadEvent]: the loop over [accept]. *)
Fixpoint accept_loop (accepts : list accept_out) : VM bool :=
  match accepts with
  | [] => modS (set_accepts []);; mret true
  | Accepted fd addr peer :: accepts =>
      new_handler addr (MkFEH Connection fd 1 None net_peer_info_default peer []);;
      modS (fun s => set_tasks (sv_tasks s ++ [addr]) s);;
      accept_loop accepts
  | AcceptError e :: accepts =>
      if e =? EAGAIN then modS (set_accepts accepts);; mret true
      else if (e =? EINTR) || (e =? ECONNABORTED) then accept_loop accepts
      else
        modS (set_accepts accepts);;
        modS (fun s => set_notes (sv_notes s ++ [ServerNotifyMessage ServerError "broken server fd, accept err!"]) s);;
        mret false
  end.

(** The read handler of a worker's pipe works on this worker. *)
Definition HandleReadEvent (i : nat) (h : haddr) : VM bool :=
  hd ← handler_at h;
  match h_kind hd with
  | LocalRead =>
      ws ← getS sv_workers;
      w ← of_mem (ws !! i);
      match local_HandleReadEvent w with
      | Some (rc, w) => modS (fun s => set_workers (<[i := w]> (sv_workers s)) s);; mret rc
      | None => halt Diverged
      end
  | Listener => accepts ← getS sv_accepts; accept_loop accepts
  | Connection => o ← next_io; mret (io_rc o)
  end.

Definition HandleWriteEvent (h : haddr) : VM bool :=
  hd ← handler_at h;
  match h_kind hd with
  | LocalRead | Listener => halt Aborted
  | Connection =>
      o ← next_io;
      on_handler h (fun hd => set_msgs (drop (io_taken o) (h_msgs hd)) hd);;
      mret (io_rc o)
  end.

Definition process_event (i : nat) (netEvent : NetEvent) : VM unit :=
  let evMask := ne_mask netEvent in
  rc ← (if has evMask EVENT_READ then HandleReadEvent i (ne_eh netEvent) else mret true);
  rc ← (if rc && has evMask EVENT_WRITE then HandleWriteEvent (ne_eh netEvent) else mret rc);
  if negb rc then on_finish (ne_eh netEvent) else mret tt.

Fixpoint each {A} (f : A -> VM unit) (l : list A) : VM unit :=
  match l with [] => mret tt | a :: l => f a;; each f l end.

(** [ew->DeleteHandler(h)] and [ew->AddEvent(h, cur_mask, mask)]: the driver takes the
    descriptor from the handler. *)
Definition worker_DeleteHandler (i : nat) (h : haddr) : VM unit :=
  hd ← handler_at h;
  on_worker i (fun w => (tt, set_epoll (EpollEventDriver.DeleteHandler h (h_fd hd) (ew_epoll w)).2 w)).
Definition worker_AddEvent (i : nat) (a : EpollAddEvent) : VM unit :=
  hd ← handler_at (ea_h a);
  on_worker i (fun w =>
    (tt, set_epoll (EpollEventDriver.AddEvent (ea_h a) (h_fd hd) (ea_cur_mask a) (ea_mask a) (ew_epoll w)).2 w)).

Definition unless_pending (i : nat) (pend : gset haddr) (e : NetEvent) : VM unit :=
  if decide (ne_eh e ∈ pend) then mret tt else process_event i e.

(** A round of [worker_loop], after [epoll_wait] has returned [events]. *)
Definition worker_round (i : nat) (events : list NetEvent) : VM unit :=
  stopped ← getS m_bStopped;
  if stopped : bool then mret tt
  else
    pend ← on_worker i GetExternalEpDelEvents;
    each (worker_DeleteHandler i) (elements pend);;
    each (unless_pending i pend) events;;
    ext ← on_worker i GetExternalRWOpEvents;
    each (unless_pending i pend) ext;;
    each delete_handler (elements pend);;
    adds ← on_worker i GetExternalEpAddEvents;
    each (worker_AddEvent i) adds.

(** ** Starting and stopping *)

Definition service_new (timeout : Z) : svc := MkSvc ∅ [] 0 (-1) new true timeout [] [] [] [] 0.

(** New workers with the descriptors of their pipes and the addresses of the pipes' handlers. *)
Fixpoint start_workers (pipes : list (Z * haddr)) : VM unit :=
  match pipes with
  | [] => mret tt
  | (fd, local) :: pipes =>
      new_handler local (MkFEH LocalRead fd 1 None net_peer_info_default net_peer_info_default []);;
      modS (fun s => set_workers (sv_workers s ++ [EventWorker_new fd local]) s);;
      start_workers pipes
  end.

(** [Start]: the workers of the connections with [pipes], and for a service that listens the
    pipe of its worker, the descriptor of the socket and the address of its handler. *)
Definition Start (pipes : list (Z * haddr)) (listen : option ((Z * haddr) * Z * haddr)) : VM bool :=
  stopped ← getS m_bStopped;
  if negb stopped then mret true
  else
    modS (set_stopped false);;
    modS (fun s => MkSvc (sv_handlers s) [] (zlen pipes) (-1) (m_sspMgr s) false (m_connectTimeout s) [] (sv_io s) (sv_accepts s)
                     (sv_notes s) (sv_lastId s));;
    start_workers pipes;;
    match listen with
    | None => mret true
    | Some (pipe, fd, h) =>
        start_workers [pipe];;
        let i := length pipes in
        new_handler h (MkFEH Listener fd 1 (Some i) net_peer_info_default net_peer_info_default []);;
        on_worker i (fun w => (tt, AddExternalEpAddEvent h EVENT_NONE EVENT_READ w));;
        wake i;;
        mret true
    end.

(** [Stop], once the worker threads have ended: the listening handler, the workers with the
    handlers of their pipes, and the manager with the registered connections are deleted. *)
Definition Stop (listener : option haddr) : VM bool :=
  stopped ← getS m_bStopped;
  if stopped : bool then mret true
  else
    modS (set_stopped true);;
    match listener with Some h => delete_handler h | None => mret tt end;;
    ws ← getS sv_workers;
    each delete_handler (map m_pLocalReadEventHandler ws);;
    modS (set_workers []);;
    m ← getS m_sspMgr;
    each delete_handler (UniqueWorkerManager.destroy m);;
    modS (set_mgr new);;
    mret true.
