(* ===== verification/ServiceInv.v ===== *)
(** * The state of the socket service between calls

    Where a connection is in its life: waiting for its handshake, registered and given to a
    worker, or condemned: no longer registered, without references, in its worker's list of
    deletions.  [wf] says that every connection object is in exactly one of these places and
    that whatever the workers hold points to live objects of their own. *)

From S2P Require Import Prelude Posix Net ConnMgr EventLoop SocketService.
Import UniqueWorkerManager.

Definition adds_of (w : EventWorker) : list haddr := map ea_h (m_lAddEpExtEvents w).
Definition registered (A : registry) (h : haddr) : Prop := exists l r, A !! l = Some (h, r).

Section wf.
Context (H : gmap haddr handler) (W : list EventWorker) (T : list haddr) (A : registry) (P : gset haddr) (B : option nat).

(** The life of the connection [hd] at [h].  In the middle of a round [B] is the worker whose
    round it is, [P] the handlers that are being deleted by it; a connection that is condemned
    in the round may still be on its list of registrations. *)
Inductive place (h : haddr) (hd : handler) : Prop :=
  | pl_waiting : h ∈ T -> h ∉ P -> h_own hd = None -> h_ref hd = 1 -> ~ registered A h -> place h hd
  | pl_registered i w :
      h ∉ T -> h ∉ P -> A !! h_logic hd = Some (h, h_real hd) -> h_ref hd = 1 -> h_own hd = Some i -> W !! i = Some w ->
      h ∉ m_lDelEpExtEvents w ->
      (ee_ptr <$> ew_epoll w !! h_fd hd = Some h /\ h ∉ adds_of w \/ h ∈ adds_of w /\ ew_epoll w !! h_fd hd = None) -> place h hd
  | pl_condemned i w :
      h ∉ T -> h ∉ P -> ~ registered A h -> h_ref hd = 0 -> h_own hd = Some i -> W !! i = Some w ->
      h ∈ m_lDelEpExtEvents w -> (h ∉ adds_of w \/ B = Some i) -> place h hd
  | pl_deleting i w :
      h ∉ T -> h ∈ P -> ~ registered A h -> h_own hd = Some i -> W !! i = Some w ->
      h ∉ m_lDelEpExtEvents w -> h ∉ adds_of w -> place h hd.

(** A live connection that belongs to worker [i]. *)
Definition conn_of (i : nat) (h : haddr) : Prop :=
  exists hd, H !! h = Some hd /\ h_kind hd = Connection /\ h_own hd = Some i.

(** What worker [i] may poll: its connections, a listening socket, its pipe.  Only
    connections are polled for writing. *)
Definition pollable (i : nat) (w : EventWorker) (fd : Z) (ee : epoll_event) : Prop :=
  exists hd, H !! ee_ptr ee = Some hd /\ h_fd hd = fd /\
  match h_kind hd with
  | Connection => h_own hd = Some i
  | Listener => has (ee_events ee) EPOLLOUT = false
  | LocalRead => has (ee_events ee) EPOLLOUT = false
  end.

(** A handler that may be registered with epoll: a connection, or the listening socket. *)
Definition addable_at (i : nat) (w : EventWorker) (a : EpollAddEvent) : Prop :=
  ea_cur_mask a = EVENT_NONE /\
  exists hd, H !! ea_h a = Some hd /\ ew_epoll w !! h_fd hd = None /\
  match h_kind hd with
  | Connection => h_own hd = Some i
  | Listener => ea_mask a = EVENT_READ
  | LocalRead => False
  end.

Record wf_worker (i : nat) (w : EventWorker) : Prop := {
  ww_pipe : 0 <= ew_pipe w;
  ww_local : exists hd, H !! m_pLocalReadEventHandler w = Some hd /\ h_kind hd = LocalRead;
  ww_del : forall h, h ∈ m_lDelEpExtEvents w -> conn_of i h;
  ww_rw : forall e, e ∈ m_lRwOpExtEvents w -> conn_of i (ne_eh e);
  ww_add : forall a, a ∈ m_lAddEpExtEvents w -> addable_at i w a;
  ww_add_nodup : NoDup (adds_of w);
  ww_poll : forall fd ee, ew_epoll w !! fd = Some ee -> pollable i w fd ee
}.

Record wf : Prop := {
  wf_place : forall h hd, H !! h = Some hd -> h_kind hd = Connection -> place h hd;
  wf_reg : forall l h r, A !! l = Some (h, r) -> exists hd, H !! h = Some hd /\ h_kind hd = Connection /\ h_logic hd = l /\ h_real hd = r;
  wf_tasks : forall h, h ∈ T -> exists hd, H !! h = Some hd /\ h_kind hd = Connection;
  wf_nodup : NoDup T;
  wf_pend : forall h, h ∈ P -> exists hd, H !! h = Some hd /\ h_kind hd = Connection;
  wf_fds : forall h h' hd hd', H !! h = Some hd -> H !! h' = Some hd' -> h_fd hd = h_fd hd' -> h = h';
  wf_reals : forall h h' hd hd', H !! h = Some hd -> H !! h' = Some hd' ->
    (h ∈ T \/ registered A h) -> (h' ∈ T \/ registered A h') -> h_real hd = h_real hd' -> h = h';
  wf_works : forall i w, W !! i = Some w -> wf_worker i w
}.
End wf.
Arguments wf_works {H W T A P B}.
Arguments wf_place {H W T A P B}.
Arguments wf_reg {H W T A P B}.
Arguments wf_tasks {H W T A P B}.
Arguments wf_nodup {H W T A P B}.
Arguments wf_pend {H W T A P B}.
Arguments wf_fds {H W T A P B}.
Arguments wf_reals {H W T A P B}.

(** ** Changes that keep it *)

Definition grows (H H' : gmap haddr handler) : Prop :=
  forall h hd, H !! h = Some hd -> exists hd', H' !! h = Some hd' /\ h_kind hd' = h_kind hd /\ h_fd hd' = h_fd hd /\
    (forall i, h_own hd = Some i -> h_own hd' = Some i).

Lemma grows_refl H : grows H H.
Proof. intros h hd E. by exists hd. Qed.
Lemma grows_trans H1 H2 H3 : grows H1 H2 -> grows H2 H3 -> grows H1 H3.
Proof.
  intros G1 G2 h hd E. destruct (G1 _ _ E) as (hd1 & E1 & K1 & F1 & O1). destruct (G2 _ _ E1) as (hd2 & E2 & K2 & F2 & O2).
  exists hd2. split; [done|]. split; [congruence|]. split; [congruence|auto].
Qed.
#[export] Instance grows_preorder : PreOrder grows.
Proof. split; [intros H; apply grows_refl|intros H1 H2 H3; apply grows_trans]. Qed.

Lemma grows_insert H h hd hd' : H !! h = Some hd -> h_kind hd' = h_kind hd -> h_fd hd' = h_fd hd ->
  (forall i, h_own hd = Some i -> h_own hd' = Some i) -> grows H (<[h := hd']> H).
Proof.
  intros E K F O x hx Ex. destruct (decide (h = x)) as [<-|Hn].
  - exists hd'. rewrite lookup_insert_eq. by simplify_eq.
  - exists hx. by rewrite lookup_insert_ne.
Qed.
Lemma grows_new H h hd : H !! h = None -> grows H (<[h := hd]> H).
Proof. intros E x hx Ex. exists hx. rewrite lookup_insert_ne; [done|]. intros ->. congruence. Qed.

Lemma conn_of_grows H H' i h : grows H H' -> conn_of H i h -> conn_of H' i h.
Proof. intros G (hd & E & K & O). destruct (G _ _ E) as (hd' & E' & K' & F' & O'). exists hd'. split; [done|]. split; [congruence|auto]. Qed.

Lemma pollable_grows H H' i w fd ee : grows H H' -> pollable H i w fd ee -> pollable H' i w fd ee.
Proof.
  intros G (hd & E & F & K). destruct (G _ _ E) as (hd' & E' & K' & F' & O'). exists hd'. split; [done|]. split; [congruence|].
  rewrite K'. destruct (h_kind hd); auto.
Qed.

Lemma addable_grows H H' i w a : grows H H' -> addable_at H i w a -> addable_at H' i w a.
Proof.
  intros G (C & hd & E & F & K). destruct (G _ _ E) as (hd' & E' & K' & F' & O'). split; [done|].
  exists hd'. rewrite F', K'. split; [done|]. split; [done|]. destruct (h_kind hd); auto.
Qed.

Lemma wf_worker_grows H H' i w : grows H H' -> wf_worker H i w -> wf_worker H' i w.
Proof.
  intros G [Hp (hd & Hl & Kl) Hd Hr Ha Hn Hq]. split; [done| |..].
  - destruct (G _ _ Hl) as (hd' & E' & K' & _). exists hd'. split; [done|congruence].
  - intros h Hh. eapply conn_of_grows; eauto.
  - intros e He. eapply conn_of_grows; eauto.
  - intros a Hin. eapply addable_grows; eauto.
  - done.
  - intros fd ee E. eapply pollable_grows; eauto.
Qed.

(** The lists of a worker that [place] looks at. *)
Definition same_lists (w w' : EventWorker) : Prop :=
  ew_epoll w' = ew_epoll w /\ m_lAddEpExtEvents w' = m_lAddEpExtEvents w /\ m_lDelEpExtEvents w' = m_lDelEpExtEvents w.

Lemma place_worker W T A P B h hd i w w' : W !! i = Some w -> same_lists w w' ->
  place W T A P B h hd -> place (<[i := w']> W) T A P B h hd.
Proof.
  intros Ei (Ee & Ea & Ed) HP.
  assert (forall j v, W !! j = Some v -> exists v', <[i := w']> W !! j = Some v' /\ same_lists v v') as Hl.
  { intros j v Ej. destruct (decide (i = j)) as [<-|Hn].
    - exists w'. rewrite list_lookup_insert_eq by (by eapply lookup_lt_Some). by simplify_eq.
    - exists v. by rewrite list_lookup_insert_ne. }
  destruct HP as [|j v ? ? ? ? ? Ej Hd Hc|j v ? ? ? ? ? Ej Hd Hc|j v ? ? ? ? Ej Hd Hc]; [by apply pl_waiting|..];
    destruct (Hl _ _ Ej) as (v' & Ev & (Q1 & Q2 & Q3)); unfold adds_of in *.
  - eapply pl_registered; eauto; unfold adds_of; rewrite ?Q1, ?Q2, ?Q3; done.
  - eapply pl_condemned; eauto; unfold adds_of; rewrite ?Q1, ?Q2, ?Q3; done.
  - eapply pl_deleting; eauto; unfold adds_of; rewrite ?Q1, ?Q2, ?Q3; done.
Qed.

Lemma wf_worker_change H W T A P B i w w' : W !! i = Some w -> wf H W T A P B -> same_lists w w' -> wf_worker H i w' ->
  wf H (<[i := w']> W) T A P B.
Proof.
  intros Ei [Hp Hr Ht Hn Hpd Hf Hrl Hw] Hs Hi. split; try done.
  - intros h hd E K. eapply place_worker; eauto.
  - intros j v Ej. destruct (decide (i = j)) as [<-|Hne].
    + rewrite list_lookup_insert_eq in Ej by (by eapply lookup_lt_Some). by simplify_eq.
    + rewrite list_lookup_insert_ne in Ej by done. auto.
Qed.

Lemma wf_pipe H W T A P B i w n e : W !! i = Some w -> 0 <= n -> wf H W T A P B -> wf H (<[i := set_pipe n e w]> W) T A P B.
Proof.
  intros Ei Hn Hwf. apply (wf_worker_change _ _ _ _ _ _ i w); [done..|]. destruct (wf_works Hwf i w Ei) as [? ? ? ? ? ? ?]. by split.
Qed.

Lemma wf_rw H W T A P B i w l : W !! i = Some w -> (forall e, e ∈ l -> conn_of H i (ne_eh e)) -> wf H W T A P B ->
  wf H (<[i := set_rw l w]> W) T A P B.
Proof.
  intros Ei Hl Hwf. apply (wf_worker_change _ _ _ _ _ _ i w); [done..|]. destruct (wf_works Hwf i w Ei) as [? ? ? ? ? ? ?]. by split.
Qed.

(** A change of the messages of a connection. *)
Lemma wf_msgs H W T A P B h hd x : H !! h = Some hd -> wf H W T A P B -> wf (<[h := set_msgs x hd]> H) W T A P B.
Proof.
  intros E [Hp Hr Ht Hn Hpd Hf Hrl Hw].
  assert (grows H (<[h := set_msgs x hd]> H)) as G by (by eapply grows_insert).
  assert (forall y hy, <[h := set_msgs x hd]> H !! y = Some hy -> exists hy0, H !! y = Some hy0 /\ h_kind hy = h_kind hy0 /\ h_fd hy = h_fd hy0 /\
    h_ref hy = h_ref hy0 /\ h_own hy = h_own hy0 /\ h_logic hy = h_logic hy0 /\ h_real hy = h_real hy0) as Hb.
  { intros y hy. destruct (decide (h = y)) as [<-|Hne].
    - rewrite lookup_insert_eq. intros [= <-]. by exists hd.
    - rewrite lookup_insert_ne by done. intros Ey. by exists hy. }
  split; try done.
  - intros y hy (hy0 & E0 & K0 & F0 & R0 & O0 & L0 & Re0)%Hb K. assert (h_kind hy0 = Connection) as Kc by congruence.
    destruct (Hp _ _ E0 Kc).
    + apply pl_waiting; congruence || done.
    + eapply pl_registered; rewrite ?R0, ?O0, ?L0, ?Re0, ?F0; done.
    + eapply pl_condemned; rewrite ?R0, ?O0, ?L0, ?Re0, ?F0; done.
    + eapply pl_deleting; rewrite ?R0, ?O0, ?L0, ?Re0, ?F0; done.
  - intros l y r (hy & Ey & K & L & R)%Hr. destruct (decide (h = y)) as [<-|Hne].
    + exists (set_msgs x hd). rewrite lookup_insert_eq. by simplify_eq.
    + exists hy. by rewrite lookup_insert_ne.
  - intros y (hy & Ey & K)%Ht. destruct (G _ _ Ey) as (hy' & ? & K' & _). exists hy'. split; [done|congruence].
  - intros y (hy & Ey & K)%Hpd. destruct (G _ _ Ey) as (hy' & ? & K' & _). exists hy'. split; [done|congruence].
  - intros y y' hy hy' (? & ? & ? & ? & ?)%Hb (? & ? & ? & ? & ?)%Hb ?. eapply Hf; [done..|]. congruence.
  - intros y y' hy hy' (? & ? & ? & ? & ? & ? & ? & ?)%Hb (? & ? & ? & ? & ? & ? & ? & ?)%Hb ? ? ?. eapply Hrl; [done..|]. congruence.
  - intros i w Ei. eapply wf_worker_grows; eauto.
Qed.

Lemma insert_cases {W : list EventWorker} {i w j v} : W !! i = Some w -> forall w', <[i := w']> W !! j = Some v ->
  (j = i /\ v = w') \/ (j <> i /\ W !! j = Some v).
Proof.
  intros Ei w' Ej. destruct (decide (i = j)) as [<-|Hn].
  - rewrite list_lookup_insert_eq in Ej by (by eapply lookup_lt_Some). left. by simplify_eq.
  - rewrite list_lookup_insert_ne in Ej by done. by right.
Qed.
Lemma insert_same {W : list EventWorker} {i w} w' : W !! i = Some w -> <[i := w']> W !! i = Some w'.
Proof. intros E. apply list_lookup_insert_eq. by eapply lookup_lt_Some. Qed.

(** The place of a handler that the change of worker [i] and of the registry does not touch. *)
Lemma place_other (W : list EventWorker) T T' A A' P P' B B' i w w' h hd :
  W !! i = Some w -> (forall j, B = Some j -> B' = Some j) -> (h ∈ T' <-> h ∈ T) -> (h ∈ P' <-> h ∈ P) ->
  (A !! h_logic hd = Some (h, h_real hd) -> A' !! h_logic hd = Some (h, h_real hd)) ->
  (registered A' h -> registered A h) ->
  (h ∈ m_lDelEpExtEvents w' <-> h ∈ m_lDelEpExtEvents w) -> (h ∈ adds_of w' <-> h ∈ adds_of w) ->
  (ee_ptr <$> ew_epoll w !! h_fd hd = Some h -> ee_ptr <$> ew_epoll w' !! h_fd hd = Some h) ->
  (ew_epoll w !! h_fd hd = None -> ew_epoll w' !! h_fd hd = None) ->
  place W T A P B h hd -> place (<[i := w']> W) T' A' P' B' h hd.
Proof.
  intros Ei HB HT HP HA HR Hd Ha He He' HPl.
  destruct HPl as [|j v ? ? ? ? ? Ej Hdv Hc|j v ? ? ? ? ? Ej Hdv Hc|j v ? ? ? ? Ej Hdv Hc]; [apply pl_waiting; tauto|..].
  all: destruct (decide (i = j)) as [<-|Hn]; [simplify_eq; pose proof (insert_same w' Ei) as Ej'|
    assert (<[i := w']> W !! j = Some v) as Ej' by (by rewrite list_lookup_insert_ne)].
  - eapply pl_registered; eauto; tauto.
  - eapply pl_registered; eauto; tauto.
  - eapply pl_condemned; eauto; [tauto..|]. destruct Hc as [?|?%HB]; tauto.
  - eapply pl_condemned; eauto; [tauto..|]. destruct Hc as [?|?%HB]; tauto.
  - eapply pl_deleting; eauto; tauto.
  - eapply pl_deleting; eauto; tauto.
Qed.

(** A registered connection its worker polls is removed from the registry and condemned. *)
Lemma wf_condemn H W T A P B h hd i w l :
  wf H W T A P B -> H !! h = Some hd -> A !! l = Some (h, h_real hd) -> h_logic hd = l -> h_own hd = Some i -> W !! i = Some w ->
  h_kind hd = Connection -> (h ∉ adds_of w \/ B = Some i) -> distinct A ->
  wf (<[h := set_ref 0 hd]> H) (<[i := AddExternalEpDelEvent h w]> W) T (delete l A) P B.
Proof.
  intros [Hp Hr Ht Hn Hpd Hf Hrl Hw] E EA El Eo Ei Ek Hna Hd.
  assert (grows H (<[h := set_ref 0 hd]> H)) as G by (by eapply grows_insert).
  assert (h ∉ T /\ h ∉ P) as [HnT HnP].
  { destruct (Hp _ _ E Ek) as [? ? ? ? Hreg| | ? ? ? ? Hreg|? ? ? ? Hreg]; [by destruct Hreg; exists l, (h_real hd)|done|
      by destruct Hreg; exists l, (h_real hd)..]. }
  assert (forall x, registered (delete l A) x -> registered A x /\ x <> h) as Hreg.
  { intros x (l' & r' & [Hne EA']%lookup_delete_Some). split; [by exists l', r'|]. intros ->. apply Hne. eapply Hd; [done..|by left]. }
  split; try done.
  - intros x hx Ex Kx. destruct (decide (h = x)) as [<-|Hne].
    + rewrite lookup_insert_eq in Ex. injection Ex as <-. eapply pl_condemned; [done|done| |done|done|by eapply insert_same|set_solver|done].
      intros Hx. by destruct (Hreg _ Hx).
    + rewrite lookup_insert_ne in Ex by done. eapply place_other; [done|done|done|done| | | | | | |by apply Hp]; simpl; auto.
      * intros Ex'. apply lookup_delete_Some. split; [|done]. intros El'. rewrite <- El', EA in Ex'. by simplify_eq.
      * intros Hx. by apply Hreg.
      * set_solver.
  - intros l' x r [Hne EA']%lookup_delete_Some. destruct (Hr _ _ _ EA') as (hx & Ex & Kx & Lx & Rx). exists hx.
    rewrite lookup_insert_ne; [done|]. intros ->. simplify_eq.
  - intros x (hx & Ex & Kx)%Ht. destruct (G _ _ Ex) as (hx' & ? & K' & _). exists hx'. split; [done|congruence].
  - intros x (hx & Ex & Kx)%Hpd. destruct (G _ _ Ex) as (hx' & ? & K' & _). exists hx'. split; [done|congruence].
  - intros x x' hx hx' Ex Ex' F. destruct (decide (h = x)) as [<-|Hne], (decide (h = x')) as [<-|Hne']; try done;
      rewrite ?lookup_insert_eq in *; rewrite ?lookup_insert_ne in * by done; simplify_eq; eapply Hf; eauto.
  - intros x x' hx hx' Ex Ex' Rx Rx' F.
    assert (x <> h) by (intros ->; destruct Rx as [?|Rx]; [done|by destruct (Hreg _ Rx)]).
    assert (x' <> h) by (intros ->; destruct Rx' as [?|Rx']; [done|by destruct (Hreg _ Rx')]).
    rewrite lookup_insert_ne in Ex, Ex' by done. eapply Hrl; [done..| | |done].
    + destruct Rx as [?|Rx]; [by left|right; by apply Hreg].
    + destruct Rx' as [?|Rx']; [by left|right; by apply Hreg].
  - intros j v Ej. destruct (insert_cases Ei _ Ej) as [[-> ->]|[Hne Ej']].
    + destruct (wf_worker_grows _ _ _ _ G (Hw _ _ Ei)) as [W1 W2 W3 W4 W5 W6 W7]. split; try done. simpl.
      intros x [->%elem_of_singleton|Hx]%elem_of_union; [|by apply W3]. exists (set_ref 0 hd). by rewrite lookup_insert_eq.
    + eapply wf_worker_grows; eauto.
Qed.

(** A new object: no live one has its address, its descriptor, or the real peer it comes from. *)
Record fresh_conn (H : gmap haddr handler) (T : list haddr) (A : registry) (h fd : Z) (r : net_peer_info) : Prop := {
  fc_addr : H !! h = None;
  fc_fd : forall x hx, H !! x = Some hx -> h_fd hx <> fd;
  fc_real : forall x hx, H !! x = Some hx -> (x ∈ T \/ registered A x) -> h_real hx <> r
}.

(** The same for the connection at [h], which may be waiting for its handshake. *)
Record enters (H : gmap haddr handler) (T : list haddr) (A : registry) (h : haddr) (hd : handler) : Prop := {
  en_kind : h_kind hd = Connection;
  en_here : forall hd0, H !! h = Some hd0 -> h ∈ T /\ h_kind hd0 = Connection /\ h_fd hd0 = h_fd hd /\ h_own hd0 = None;
  en_fd : forall x hx, H !! x = Some hx -> h_fd hx = h_fd hd -> x = h;
  en_real : forall x hx, H !! x = Some hx -> (x ∈ T \/ registered A x) -> h_real hx = h_real hd -> x = h;
  en_reg : ~ registered A h
}.

Lemma enters_grows H T A h hd : enters H T A h hd -> grows H (<[h := hd]> H).
Proof.
  intros [K Hh _ _ _] x hx Ex. destruct (decide (h = x)) as [<-|Hne].
  - exists hd. rewrite lookup_insert_eq. destruct (Hh _ Ex) as (_ & K0 & F0 & O0). split; [done|]. split; [congruence|]. split; [done|].
    intros i. by rewrite O0.
  - exists hx. by rewrite lookup_insert_ne.
Qed.

(** Its descriptor is polled by nobody. *)
Lemma enters_unpolled H W T A P B h hd i w : wf H W T A P B -> enters H T A h hd -> W !! i = Some w -> ew_epoll w !! h_fd hd = None.
Proof.
  intros Hwf [K Hh Hf _ _] Ei. destruct (ew_epoll w !! h_fd hd) as [ee|] eqn:Ee; [|done]. exfalso.
  destruct (ww_poll _ _ _ (wf_works Hwf i w Ei) _ _ Ee) as (hx & Ex & Fx & Kx).
  pose proof (Hf _ _ Ex Fx) as Eq. rewrite Eq in Ex. destruct (Hh _ Ex) as (_ & K0 & _ & O0). rewrite K0 in Kx. congruence.
Qed.

(** It is on no list of a worker. *)
Lemma enters_unlisted H W T A P B h hd i w : wf H W T A P B -> enters H T A h hd -> W !! i = Some w -> h ∉ m_lDelEpExtEvents w /\ h ∉ adds_of w.
Proof.
  intros Hwf [_ Hh _ _ _] Ei. pose proof (wf_works Hwf _ _ Ei) as Hw. split.
  - intros (hx & Ex & _ & Ox)%(ww_del _ _ _ Hw). destruct (Hh _ Ex) as (_ & _ & _ & O0). congruence.
  - intros (a & Ea & Ha)%list_elem_of_fmap. destruct (ww_add _ _ _ Hw _ Ha) as (_ & hx & Ex & _ & Kx).
    rewrite <- Ea in Ex. destruct (Hh _ Ex) as (_ & K0 & _ & O0). rewrite K0 in Kx. congruence.
Qed.

(** The connection is registered and given to worker [i]. *)
Lemma wf_register H W T T' A P B h hd i w l mask :
  wf H W T A P B -> enters H T A h hd -> h_own hd = Some i -> h_ref hd = 1 -> h_logic hd = l -> W !! i = Some w ->
  A !! l = None -> (forall x, x ∈ T' <-> x ∈ T /\ x <> h) -> NoDup T' -> h ∉ P ->
  wf (<[h := hd]> H) (<[i := AddExternalEpAddEvent h EVENT_NONE mask w]> W) T' (<[l := (h, h_real hd)]> A) P B.
Proof.
  intros Hwf Hen Eo Er El Ei EA HT' HN' HnP. pose proof (enters_grows _ _ _ _ _ Hen) as G.
  pose proof (enters_unpolled _ _ _ _ _ _ _ _ _ _ Hwf Hen Ei) as Hnp.
  destruct (enters_unlisted _ _ _ _ _ _ _ _ _ _ Hwf Hen Ei) as [Hnd Hna].
  destruct Hwf as [Hp Hr Ht Hn Hpd Hf Hrl Hw], Hen as [Ek Hh Hfd Hre Hnr].
  assert (forall x, registered (<[l := (h, h_real hd)]> A) x <-> x = h \/ registered A x) as Hreg.
  { intros x. split.
    - intros (l' & r' & [[_ [= <- <-]]|[_ ?]]%lookup_insert_Some); [by left|right; by exists l', r'].
    - intros [->|(l' & r' & Ex)]; [exists l, (h_real hd); by rewrite lookup_insert_eq|].
      exists l', r'. rewrite lookup_insert_ne; [done|]. intros ->. congruence. }
  assert (adds_of (AddExternalEpAddEvent h EVENT_NONE mask w) = adds_of w ++ [h]) as Eadds by (unfold adds_of; simpl; by rewrite map_app).
  split; try done.
  - intros x hx Ex Kx. destruct (decide (h = x)) as [<-|Hne].
    + rewrite lookup_insert_eq in Ex. injection Ex as <-.
      eapply pl_registered; [rewrite HT'; tauto|done|by rewrite El, lookup_insert_eq|done|done|by eapply insert_same|done|].
      right. rewrite Eadds. split; [set_solver|done].
    + rewrite lookup_insert_ne in Ex by done. eapply place_other; [done|done| |done| | | | | | |by apply Hp]; simpl; auto.
      * rewrite HT'. naive_solver.
      * intros Ex'. rewrite lookup_insert_ne; [done|]. intros El'. rewrite <- El', EA in Ex'. done.
      * rewrite Hreg. naive_solver.
      * rewrite Eadds. set_solver.
  - intros l' x r [[<- [= <- <-]]|[Hne Ex]]%lookup_insert_Some.
    + exists hd. by rewrite lookup_insert_eq.
    + destruct (Hr _ _ _ Ex) as (hx & ? & ? & ? & ?). exists hx. rewrite lookup_insert_ne; [done|]. intros ->. apply Hnr. by exists l', r.
  - intros x [Hx _]%HT'. destruct (Ht _ Hx) as (hx & Ex & Kx). destruct (G _ _ Ex) as (hx' & ? & K' & _). exists hx'. split; [done|congruence].
  - intros x (hx & Ex & Kx)%Hpd. destruct (G _ _ Ex) as (hx' & ? & K' & _). exists hx'. split; [done|congruence].
  - intros x x' hx hx' Ex Ex' F. destruct (decide (h = x)) as [<-|Hne], (decide (h = x')) as [<-|Hne']; try done;
      rewrite ?lookup_insert_eq in *; rewrite ?lookup_insert_ne in * by done; simplify_eq; eauto. symmetry. eauto.
  - intros x x' hx hx' Ex Ex' Rx Rx' F. rewrite Hreg, HT' in Rx, Rx'.
    destruct (decide (h = x)) as [<-|Hne], (decide (h = x')) as [<-|Hne']; try done;
      rewrite ?lookup_insert_eq in *; rewrite ?lookup_insert_ne in * by done; simplify_eq.
    + symmetry. eapply Hre; [done| |done]. naive_solver.
    + eapply Hre; [done| |done]. naive_solver.
    + eapply Hrl; [done..| | |done]; naive_solver.
  - intros j v Ej. destruct (insert_cases Ei _ Ej) as [[-> ->]|[Hne Ej']]; [|eapply wf_worker_grows; eauto].
    destruct (wf_worker_grows _ _ _ _ G (Hw _ _ Ei)) as [W1 W2 W3 W4 W5 W6 W7]. split; try done.
    + simpl. intros a [Ha| ->%list_elem_of_singleton]%elem_of_app; [by apply W5|]. split; [done|]. simpl.
      exists hd. by rewrite lookup_insert_eq, Ek.
    + rewrite Eadds. apply list.NoDup_app. split; [done|]. split; [set_solver|apply NoDup_singleton].
Qed.

(** A new connection waits for its handshake. *)
Lemma wf_new_task H W T A P B h fd r m : wf H W T A P B -> fresh_conn H T A h fd r -> h ∉ P ->
  wf (<[h := MkFEH Connection fd 1 None m r []]> H) W (T ++ [h]) A P B.
Proof.
  intros [Hp Hr Ht Hn Hpd Hf Hrl Hw] [Hfa Hff Hfr] HnP. set (hd := MkFEH Connection fd 1 None m r []).
  pose proof (grows_new H h hd Hfa) as G.
  assert (forall x, x ∈ T \/ registered A x -> x <> h) as Hx.
  { intros x [Hx| (l & r' & Hx)]; [destruct (Ht _ Hx) as (? & ? & _)|destruct (Hr _ _ _ Hx) as (? & ? & _)]; congruence. }
  split.
  - intros x hx Ex Kx. destruct (decide (h = x)) as [<-|Hne].
    + rewrite lookup_insert_eq in Ex. injection Ex as <-. apply pl_waiting; [set_solver|done|done|done|]. intros Hg. by apply (Hx h); [right|].
    + rewrite lookup_insert_ne in Ex by done. destruct (Hp _ _ Ex Kx).
      * apply pl_waiting; try done. set_solver.
      * eapply pl_registered; eauto. set_solver.
      * eapply pl_condemned; eauto. set_solver.
      * eapply pl_deleting; eauto. set_solver.
  - intros l x r' EA. destruct (Hr _ _ _ EA) as (hx & ? & ? & ? & ?). exists hx. rewrite lookup_insert_ne; [done|].
    intros <-. apply (Hx h); [right; by exists l, r'|done].
  - intros x [(hx & Ex & K)%Ht| ->%list_elem_of_singleton]%elem_of_app.
    + destruct (G _ _ Ex) as (hx' & ? & K' & _). exists hx'. split; [done|congruence].
    + exists hd. by rewrite lookup_insert_eq.
  - apply list.NoDup_app. split; [done|]. split; [|apply NoDup_singleton]. intros x HxT ->%list_elem_of_singleton. by apply (Hx h); [left|].
  - intros x (hx & Ex & K)%Hpd. destruct (G _ _ Ex) as (hx' & ? & K' & _). exists hx'. split; [done|congruence].
  - intros x x' hx hx' Ex Ex' F. destruct (decide (h = x)) as [<-|Hne], (decide (h = x')) as [<-|Hne']; try done;
      rewrite ?lookup_insert_eq in *; rewrite ?lookup_insert_ne in * by done; simplify_eq; [by destruct (Hff _ _ Ex')|by destruct (Hff _ _ Ex)|eauto].
  - intros x x' hx hx' Ex Ex' Rx Rx' F. rewrite !elem_of_app in Rx, Rx'. rewrite !list_elem_of_singleton in Rx, Rx'.
    destruct (decide (h = x)) as [<-|Hne], (decide (h = x')) as [<-|Hne']; try done;
      rewrite ?lookup_insert_eq in *; rewrite ?lookup_insert_ne in * by done; simplify_eq.
    + destruct (Hfr _ _ Ex'); [naive_solver|done].
    + destruct (Hfr _ _ Ex); [naive_solver|done].
    + eapply Hrl; [done..| | |done]; naive_solver.
  - intros i w Ei. eapply wf_worker_grows; eauto.
Qed.

(** ** Objects that go *)

(** A worker that holds nothing of the connection at [h] does not mind its deletion. *)
Lemma wf_worker_delete H i w h hd : wf_worker H i w -> H !! h = Some hd -> h_kind hd = Connection ->
  h ∉ m_lDelEpExtEvents w -> (forall e, e ∈ m_lRwOpExtEvents w -> ne_eh e <> h) -> h ∉ adds_of w ->
  (forall fd ee, ew_epoll w !! fd = Some ee -> ee_ptr ee <> h) -> wf_worker (delete h H) i w.
Proof.
  intros [Hp (hl & El & Kl) Hd Hr Ha Hn Hq] Eh Kh Hnd Hnr Hna Hnp. split; try done.
  - exists hl. rewrite lookup_delete_ne; [done|]. intros ->. congruence.
  - intros x Hx. destruct (Hd _ Hx) as (hx & Ex & K & O). exists hx. rewrite lookup_delete_ne; [done|]. by intros ->.
  - intros e He. destruct (Hr _ He) as (hx & Ex & K & O). exists hx. rewrite lookup_delete_ne; [done|]. intros Eq. by apply (Hnr e).
  - intros a Hin. destruct (Ha _ Hin) as (C & hx & Ex & F & K). split; [done|]. exists hx. rewrite lookup_delete_ne; [done|].
    intros ->. apply Hna. apply list_elem_of_fmap. by exists a.
  - intros fd ee E. destruct (Hq _ _ E) as (hx & Ex & F & K). exists hx. rewrite lookup_delete_ne; [done|].
    intros Eq. by apply (Hnp fd ee).
Qed.

(** Nor does a worker it does not belong to. *)
Lemma other_worker_delete H i w h hd : wf_worker H i w -> H !! h = Some hd -> h_kind hd = Connection -> h_own hd <> Some i ->
  wf_worker (delete h H) i w.
Proof.
  intros Hw Eh Kh Ho. apply (wf_worker_delete _ _ _ _ hd); try done.
  - intros (hx & Ex & _ & O)%(ww_del _ _ _ Hw). congruence.
  - intros e (hx & Ex & _ & O)%(ww_rw _ _ _ Hw) Eq. congruence.
  - intros (a & -> & Ha)%list_elem_of_fmap. destruct (ww_add _ _ _ Hw _ Ha) as (_ & hx & Ex & _ & K). simplify_eq. rewrite Kh in K. done.
  - intros fd ee E Eq. destruct (ww_poll _ _ _ Hw _ _ E) as (hx & Ex & _ & K). rewrite Eq in Ex. simplify_eq. by rewrite Kh in K.
Qed.

Lemma wf_delete H W T T' A P P' B h hd : wf H W T A P B -> H !! h = Some hd -> h_kind hd = Connection -> ~ registered A h ->
  (forall x, x ∈ T' <-> x ∈ T /\ x <> h) -> NoDup T' -> (forall x, x ∈ P' <-> x ∈ P /\ x <> h) ->
  (forall i w, W !! i = Some w -> wf_worker (delete h H) i w) -> wf (delete h H) W T' A P' B.
Proof.
  intros [Hp Hr Ht Hn Hpd Hf Hrl Hw] Eh Kh Hnr HT HN HP Hww. split; try done.
  - intros x hx [Hne Ex]%lookup_delete_Some Kx. destruct (Hp _ _ Ex Kx).
    + apply pl_waiting; [apply HT; done|rewrite HP; tauto|done..].
    + eapply pl_registered; [rewrite HT; tauto|rewrite HP; tauto|done..].
    + eapply pl_condemned; [rewrite HT; tauto|rewrite HP; tauto|done..].
    + eapply pl_deleting; [rewrite HT; tauto|rewrite HP; done|done..].
  - intros l x r EA. destruct (Hr _ _ _ EA) as (hx & Ex & ?). exists hx. rewrite lookup_delete_ne; [done|].
    intros ->. apply Hnr. by exists l, r.
  - intros x [Hx Hne]%HT. destruct (Ht _ Hx) as (hx & Ex & Kx). exists hx. by rewrite lookup_delete_ne.
  - intros x [Hx Hne]%HP. destruct (Hpd _ Hx) as (hx & Ex & Kx). exists hx. by rewrite lookup_delete_ne.
  - intros x x' hx hx' [_ Ex]%lookup_delete_Some [_ Ex']%lookup_delete_Some. by eapply Hf.
  - intros x x' hx hx' [_ Ex]%lookup_delete_Some [_ Ex']%lookup_delete_Some Rx Rx'. rewrite HT in Rx, Rx'. eapply Hrl; naive_solver.
Qed.

(** A waiting connection whose handshake has failed is deleted. *)
Lemma wf_drop_task H W T T' A P B h hd : wf H W T A P B -> H !! h = Some hd -> h ∈ T ->
  (forall x, x ∈ T' <-> x ∈ T /\ x <> h) -> NoDup T' -> wf (delete h H) W T' A P B.
Proof.
  intros Hwf Eh HT HT' HN'. destruct (wf_tasks Hwf _ HT) as (hd' & E' & Kh). simplify_eq.
  destruct (wf_place Hwf _ _ Eh Kh) as [_ HnP Ho _ Hnr|? ? HnT|? ? HnT|? ? HnT]; [|done..].
  apply (wf_delete H W T T' A P P B h hd); try done; [set_solver|].
  intros i w Ei. apply (other_worker_delete _ _ _ _ hd); [by eapply wf_works|done|done|]. by rewrite Ho.
Qed.

(** ** The parts of a round *)

(** The round takes the list of deletions. *)
Lemma wf_take_deletions H W T A i w : wf H W T A ∅ None -> W !! i = Some w ->
  wf H (<[i := set_del ∅ w]> W) T A (m_lDelEpExtEvents w) (Some i).
Proof.
  intros [Hp Hr Ht Hn Hpd Hf Hrl Hw] Ei. pose proof (Hw _ _ Ei) as Hwi. split; try done.
  - intros h hd Eh Kh. destruct (decide (h ∈ m_lDelEpExtEvents w)) as [Hin|Hni].
    + destruct (ww_del _ _ _ Hwi _ Hin) as (hd' & E' & _ & O'). simplify_eq.
      destruct (Hp _ _ Eh Kh) as [? ? Ho|j v ? ? ? ? Ho Ej Hnd|j v HnT ? Hnr ? Ho Ej Hd Ha|j v ? Hx]; [congruence|by simplify_eq| |set_solver].
      simplify_eq. eapply pl_deleting; [done|done|done|done|by eapply insert_same|set_solver|naive_solver].
    + eapply (place_other _ _ _ _ _ _ _ None); [done|done|done| | | | | | | |by apply Hp]; simpl; try tauto; set_solver.
  - intros h Hh. destruct (ww_del _ _ _ Hwi _ Hh) as (hd & E & K & _). by exists hd.
  - intros j v Ej. destruct (insert_cases Ei _ Ej) as [[-> ->]|[Hne Ej']]; [|by apply Hw]. destruct Hwi. by split.
Qed.

(** [DeleteHandler] of a handler that is being deleted. *)
Lemma wf_unpoll H W T A P B h hd i w : wf H W T A P B -> h ∈ P -> H !! h = Some hd -> W !! i = Some w ->
  wf H (<[i := set_epoll (delete (h_fd hd) (ew_epoll w)) w]> W) T A P B.
Proof.
  intros Hwf HP Eh Ei. pose proof Hwf as [Hp Hr Ht Hn Hpd Hf Hrl Hw]. pose proof (Hw _ _ Ei) as Hwi. split; try done.
  - intros x hx Ex Kx. destruct (decide (x = h)) as [->|Hne].
    + simplify_eq. destruct (Hp _ _ Eh Kx) as [|? ? ? ?|? ? ? ?|j v ? ? ? Ho Ej Hd Ha]; [done..|].
      destruct (decide (i = j)) as [<-|Hij]; [simplify_eq; eapply pl_deleting; [done|done|done|done|by eapply insert_same|done|done]|].
      eapply pl_deleting; [done|done|done|done|by rewrite list_lookup_insert_ne|done|done].
    + assert (h_fd hx <> h_fd hd) as Hfd by (intros F; apply Hne; by eapply Hf).
      eapply place_other; [done..| | |by apply Hp]; simpl; rewrite lookup_delete_ne by done; done.
  - intros j v Ej. destruct (insert_cases Ei _ Ej) as [[-> ->]|[Hne Ej']]; [|by apply Hw].
    destruct Hwi as [W1 W2 W3 W4 W5 W6 W7]. split; try done.
    + intros a Ha. destruct (W5 _ Ha) as (C & hx & Ex & F & K). split; [done|]. exists hx. split; [done|]. split; [|done]. simpl.
      by apply lookup_delete_None; right.
    + simpl. intros fd ee [_ E]%lookup_delete_Some. by apply W7.
Qed.

(** A handler that is being deleted goes: its worker does not poll it and has no event of it. *)
Lemma wf_free H W T A P B h hd i w : wf H W T A P B -> h ∈ P -> H !! h = Some hd -> h_own hd = Some i -> W !! i = Some w ->
  (forall e, e ∈ m_lRwOpExtEvents w -> ne_eh e <> h) -> ew_epoll w !! h_fd hd = None ->
  wf (delete h H) W T A (P ∖ {[h]}) B.
Proof.
  intros Hwf HP Eh Ho Ei Hrw Hnp. destruct (wf_pend Hwf _ HP) as (hd' & E' & Kh). simplify_eq.
  destruct (wf_place Hwf _ _ Eh Kh) as [|? ? ? ?|? ? ? ?|j v HnT _ Hnr Ho' Ej Hd Ha]; [done..|]. simplify_eq.
  apply (wf_delete H W T T A P _ B h hd); try done; [intros x; split; [|tauto]; intros Hx; split; [done|]; by intros ->|by eapply wf_nodup|set_solver|].
  intros j v Ej'. destruct (decide (i = j)) as [<-|Hne].
  - simplify_eq. apply (wf_worker_delete _ _ _ _ hd); try done; [by eapply wf_works|].
    intros fd ee Ee Eq. destruct (ww_poll _ _ _ (wf_works Hwf _ _ Ei) _ _ Ee) as (hx & Ex & F & _). rewrite Eq in Ex. simplify_eq.
  - apply (other_worker_delete _ _ _ _ hd); [by eapply wf_works|done|done|congruence].
Qed.

(** The first of the handlers to register is registered with epoll. *)
Lemma wf_add_one H W T A P B i w a rest hd : wf H W T A P B -> W !! i = Some w -> m_lAddEpExtEvents w = a :: rest ->
  H !! ea_h a = Some hd ->
  let ep := (EpollEventDriver.AddEvent (ea_h a) (h_fd hd) (ea_cur_mask a) (ea_mask a) (ew_epoll w)).2 in
  wf H (<[i := set_add rest (set_epoll ep w)]> W) T A P B.
Proof.
  intros Hwf Ei Ea Eh ep. pose proof Hwf as [Hp Hr Ht Hn Hpd Hf Hrl Hw]. pose proof (Hw _ _ Ei) as Hwi.
  assert (addable_at H i w a) as (C & hd' & E' & Hnp & K) by (apply (ww_add _ _ _ Hwi); rewrite Ea; by left). simplify_eq.
  set (ee := MkEE (ea_h a) (EpollEventDriver.add_events (Z.lor (ea_mask a) (ea_cur_mask a)))).
  assert (ep = <[h_fd hd := ee]> (ew_epoll w)) as Eep.
  { unfold ep, ee, EpollEventDriver.AddEvent, epoll_ctl. by rewrite C, Hnp. }
  pose proof (ww_add_nodup _ _ _ Hwi) as Hnd. unfold adds_of in Hnd. rewrite Ea in Hnd. simpl in Hnd.
  apply list.NoDup_cons in Hnd as [Hni Hnd].
  assert (forall x, x ∈ adds_of (set_add rest (set_epoll ep w)) <-> x ∈ adds_of w /\ x <> ea_h a) as Hadds.
  { intros x. unfold adds_of. simpl. rewrite Ea. simpl. rewrite elem_of_cons. set_solver. }
  split; try done.
  - intros x hx Ex Kx. destruct (decide (x = ea_h a)) as [->|Hne].
    + simplify_eq. assert (ea_h a ∈ adds_of w) as Hin by (unfold adds_of; rewrite Ea; by left).
      rewrite Kx in K. destruct (Hp _ _ Eh Kx) as [? ? Ho|j v HnT HnP HA Hre Ho Ej Hd Hc|j v HnT HnP Hnr Hre Ho Ej Hd Hc|j v ? ? ? Ho Ej ? Hna];
        [congruence| | |by simplify_eq].
      * simplify_eq. eapply pl_registered; [done|done|done|done|done|by eapply insert_same|done|].
        left. simpl. rewrite Eep, lookup_insert_eq. split; [done|]. rewrite Hadds. tauto.
      * simplify_eq. eapply pl_condemned; [done|done|done|done|done|by eapply insert_same|done|]. left. rewrite Hadds. tauto.
    + assert (h_fd hx <> h_fd hd) as Hfd by (intros F; apply Hne; by eapply Hf).
      eapply place_other; [done|by intros ? ?|done..| | | |by apply Hp]; simpl; rewrite ?Hadds, ?Eep, ?lookup_insert_ne by done; tauto.
  - intros j v Ej. destruct (insert_cases Ei _ Ej) as [[-> ->]|[Hne Ej']]; [|by apply Hw].
    destruct Hwi as [W1 W2 W3 W4 W5 W6 W7]. split; try done.
    + simpl. intros b Hb. destruct (W5 b) as (Cb & hb & Eb & Fb & Kb); [rewrite Ea; by right|]. split; [done|].
      exists hb. split; [done|]. split; [|done]. simpl. rewrite Eep, lookup_insert_ne; [done|]. intros F.
      assert (ea_h a = ea_h b) as Eq by (by eapply Hf). apply Hni. rewrite Eq. apply list_elem_of_fmap. by exists b.
    + simpl. rewrite Eep. intros fd ee' [[<- <-]|[_ E]]%lookup_insert_Some; [|by apply W7].
      exists hd. split; [done|]. split; [done|]. destruct (h_kind hd); [done| |done]. simpl. rewrite C, K. reflexivity.
Qed.

(** At the end of the round nothing is left to register. *)
Lemma wf_end_round H W T A i w : wf H W T A ∅ (Some i) -> W !! i = Some w -> m_lAddEpExtEvents w = [] -> wf H W T A ∅ None.
Proof.
  intros [Hp Hr Ht Hn Hpd Hf Hrl Hw] Ei Ea. split; try done. intros h hd Eh Kh.
  destruct (Hp _ _ Eh Kh) as [|j v ? ? ? ? ? Ej Hd Hc|j v ? ? ? ? ? Ej Hd Hc|j v ? ? ? ? Ej Hd Hc].
  - by apply pl_waiting.
  - by eapply pl_registered.
  - eapply pl_condemned; [done..|]. left. destruct Hc as [?|[= ->]]; [done|]. simplify_eq. unfold adds_of. rewrite Ea. apply not_elem_of_nil.
  - by eapply pl_deleting.
Qed.
