(* ===== verification/ServiceOps.v ===== *)
(** * What the calls of the socket service do to its state

    Every operation of [SocketService] from a well-formed state, with the invariant [svc_inv]
    of the whole service.  An operation can only stop at a full notification pipe, where
    [Wakeup] throws. *)

From S2P Require Import Prelude Posix Net ConnMgr EventLoop SocketService ServiceInv.
Import UniqueWorkerManager.

Definition pipe_full (s : svc) : Prop := exists i w, sv_workers s !! i = Some w /\ PIPE_CAPACITY <= ew_pipe w.
(** The only way to stop. *)
Definition throws (e : stop) (s : svc) : Prop := e = Aborted /\ pipe_full s.

Record svc_inv (s : svc) (A : registry) (P : gset haddr) (B : option nat) : Prop := {
  si_mgr : represents (m_sspMgr s) A;
  si_distinct : distinct A;
  si_wf : wf (sv_handlers s) (sv_workers s) (sv_tasks s) A P B;
  si_cnt : 0 < m_iConnWorkersCnt s < 2147483648;
  si_workers : m_iConnWorkersCnt s <= zlen (sv_workers s);
  si_idx : -1 <= m_iCurWorkerIdx s < m_iConnWorkersCnt s;
  si_running : m_bStopped s = false
}.
Arguments si_mgr {s A P B}.
Arguments si_distinct {s A P B}.
Arguments si_wf {s A P B}.
Arguments si_cnt {s A P B}.
Arguments si_workers {s A P B}.
Arguments si_idx {s A P B}.
Arguments si_running {s A P B}.

(** ** Single statements *)

Section statements.
Context {A : Type} (s : svc) (Q : A -> svc -> Prop) (R : stop -> svc -> Prop).

Lemma wpc_handler_at h hd (k : handler -> VM A) : sv_handlers s !! h = Some hd -> wpc (k hd) s Q R ->
  wpc (handler_at h ≫= k) s Q R.
Proof. intros E Hk. apply wpc_bind. unfold wpc, handler_at, mbind, M_bind, getS, of_mem. by rewrite E. Qed.

Lemma wpc_on_handler h hd f (k : unit -> VM A) : sv_handlers s !! h = Some hd ->
  wpc (k tt) (set_handlers (<[h := f hd]> (sv_handlers s)) s) Q R -> wpc (on_handler h f ≫= k) s Q R.
Proof.
  intros E Hk. apply wpc_bind. unfold wpc, on_handler, handler_at, mbind, M_bind, getS, of_mem. by rewrite E.
Qed.

Lemma wpc_on_worker {B} i w (f : EventWorker -> B * EventWorker) (k : B -> VM A) : sv_workers s !! i = Some w ->
  wpc (k (f w).1) (set_workers (<[i := (f w).2]> (sv_workers s)) s) Q R -> wpc (on_worker i f ≫= k) s Q R.
Proof.
  intros E Hk. apply wpc_bind. unfold wpc, on_worker, mbind, M_bind, getS, of_mem. rewrite E. simpl. by destruct (f w).
Qed.
End statements.

(** [R] allows for the exception [Wakeup] throws at the full pipe of [w]. *)
Definition may_throw (R : stop -> svc -> Prop) (w : EventWorker) : Prop :=
  PIPE_CAPACITY <= ew_pipe w ->
  forall s i w', sv_workers s !! i = Some w' -> ew_pipe w' = ew_pipe w -> R Aborted s.

Lemma throws_may_throw w : may_throw throws w.
Proof. intros Hc s i w' E Ep. split; [done|]. exists i, w'. by rewrite Ep. Qed.
Lemma room_may_throw R w : ew_pipe w < PIPE_CAPACITY -> may_throw R w.
Proof. intros Hc Hc'. lia. Qed.
#[export] Hint Resolve throws_may_throw : flykv.

Lemma wpc_wake i w s Q R : sv_workers s !! i = Some w -> may_throw R w ->
  (ew_pipe w < PIPE_CAPACITY -> Q tt (set_workers (<[i := set_pipe (ew_pipe w + 1) true w]> (sv_workers s)) s)) ->
  wpc (wake i) s Q R.
Proof.
  intros E HR Hk. unfold wpc, wake, mbind, M_bind, getS, of_mem. rewrite E. simpl. unfold Wakeup.
  destruct (Z.ltb_spec (ew_pipe w) PIPE_CAPACITY) as [Hc|Hc]; simpl; [by apply Hk|]. by eapply HR.
Qed.

Lemma wpc_get {S A B} (f : S -> B) (k : B -> M S A) s Q R : wpc (k (f s)) s Q R -> wpc (getS f ≫= k) s Q R.
Proof. done. Qed.
Lemma wpc_mod {S A} (f : S -> S) (k : unit -> M S A) s Q R : wpc (k tt) (f s) Q R -> wpc (modS f ≫= k) s Q R.
Proof. done. Qed.
Lemma wpc_mod_last {S} (f : S -> S) s Q R : Q tt (f s) -> wpc (modS f) s Q R.
Proof. done. Qed.

Lemma wpc_GetStackMsgWorker {A} s h hd (k : unit -> VM A) Q R : sv_handlers s !! h = Some hd -> h_kind hd = Connection ->
  wpc (k tt) s Q R -> wpc (GetStackMsgWorker h ≫= k) s Q R.
Proof. intros E K Hk. apply wpc_bind. eapply wpc_handler_at; [done|]. rewrite K. by apply wpc_ret. Qed.

(** [AFileEventHandler::Release] of one of two references, and of the last one. *)
Lemma Release_one s h hd Q R : sv_handlers s !! h = Some hd -> h_ref hd = 2 ->
  Q tt (set_handlers (<[h := set_ref 1 hd]> (sv_handlers s)) s) -> wpc (Release h) s Q R.
Proof.
  intros E Er Hq. unfold Release, ReferenceCounter.Release. eapply wpc_on_handler; [done|]. rewrite Er.
  unfold ReferenceCounter.GetRef. apply wpc_bind. eapply wpc_handler_at; [simpl; by rewrite lookup_insert_eq|].
  eapply wpc_on_handler; [simpl; by rewrite lookup_insert_eq|]. apply wpc_ret. simpl. rewrite insert_insert_eq. by apply wpc_ret.
Qed.

Lemma Release_last s h hd i w Q R : sv_handlers s !! h = Some hd -> h_ref hd = 1 -> h_own hd = Some i -> sv_workers s !! i = Some w ->
  may_throw R w ->
  (ew_pipe w < PIPE_CAPACITY ->
   Q tt (set_workers (<[i := set_pipe (ew_pipe w + 1) true (AddExternalEpDelEvent h w)]> (sv_workers s))
          (set_handlers (<[h := set_ref 0 hd]> (sv_handlers s)) s))) -> wpc (Release h) s Q R.
Proof.
  intros E Er Eo Ei HR Hq. unfold Release, ReferenceCounter.Release. eapply wpc_on_handler; [done|]. rewrite Er.
  unfold ReferenceCounter.GetRef. apply wpc_bind. eapply wpc_handler_at; [simpl; by rewrite lookup_insert_eq|].
  eapply wpc_on_handler; [simpl; by rewrite lookup_insert_eq|]. apply wpc_ret. simpl. rewrite insert_insert_eq.
  eapply wpc_handler_at; [simpl; by rewrite lookup_insert_eq|]. simpl. rewrite Eo.
  eapply wpc_on_worker; [done|]. eapply wpc_wake; [by eapply insert_same|done|]. simpl. rewrite list_insert_insert_eq. done.
Qed.

(** ** Sending on a registered connection *)

Lemma send_spec s h hd i w m Q R : sv_handlers s !! h = Some hd -> h_own hd = Some i -> sv_workers s !! i = Some w ->
  (h_msgs hd = [] -> may_throw R w) ->
  (zlen (h_msgs hd) <> 0 -> Q true (set_handlers (<[h := set_msgs (h_msgs hd ++ [m]) hd]> (sv_handlers s)) s)) ->
  (h_msgs hd = [] -> ew_pipe w < PIPE_CAPACITY ->
   Q true (set_workers (<[i := set_pipe (ew_pipe w + 1) true (AddExternalRWOpEvent (MkNetEvent h EVENT_WRITE) w)]> (sv_workers s))
            (set_handlers (<[h := set_msgs [m] hd]> (sv_handlers s)) s))) ->
  wpc (worker_SendMessage h m) s Q R.
Proof.
  intros E Eo Ei HR Hn He. unfold worker_SendMessage. eapply wpc_handler_at; [done|]. eapply wpc_on_handler; [done|].
  destruct (Z.eqb_spec 0 (zlen (h_msgs hd))) as [Ez|Ez].
  - symmetry in Ez. apply zlen_0 in Ez. rewrite Ez in *. apply wpc_bind. eapply wpc_handler_at; [simpl; by rewrite lookup_insert_eq|]. simpl. rewrite Eo.
    apply wpc_bind, wpc_ret. eapply wpc_on_worker; [done|]. eapply wpc_wake; [by eapply insert_same|by apply HR|]. simpl.
    rewrite list_insert_insert_eq. intros Hc. apply wpc_ret. by apply He.
  - apply wpc_bind, wpc_ret, wpc_ret. apply Hn. lia.
Qed.

(** ** A registered connection *)

Lemma registered_facts s A P B l h r : svc_inv s A P B -> A !! l = Some (h, r) ->
  exists hd i w, sv_handlers s !! h = Some hd /\ h_kind hd = Connection /\ h_logic hd = l /\ h_real hd = r /\ h_ref hd = 1 /\
    h_own hd = Some i /\ sv_workers s !! i = Some w /\ h ∉ P.
Proof.
  intros HI EA. destruct (wf_reg (si_wf HI) _ _ _ EA) as (hd & E & K & L & Rr).
  destruct (wf_place (si_wf HI) _ _ E K) as [? ? ? ? []|i w ? ? ? ? ? ? ? ?|? ? ? ? []|? ? ? ? []];
    [by exists l, r| |by exists l, r..]. by exists hd, i, w.
Qed.

(** The parts of the state that [svc_inv] is about. *)
Lemma svc_inv_change s s' A A' P P' B B' : svc_inv s A P B -> represents (m_sspMgr s') A' -> distinct A' ->
  wf (sv_handlers s') (sv_workers s') (sv_tasks s') A' P' B' -> length (sv_workers s') = length (sv_workers s) ->
  m_iConnWorkersCnt s' = m_iConnWorkersCnt s -> m_iCurWorkerIdx s' = m_iCurWorkerIdx s -> m_bStopped s' = m_bStopped s ->
  svc_inv s' A' P' B'.
Proof.
  intros [H1 H2 H3 H4 H5 H6 H7] Hr Hd Hw Hl Hc Hi Hs. split; unfold zlen in *; rewrite ?Hc, ?Hi, ?Hs, ?Hl; done.
Qed.

Lemma set_ref_back hd x : h_ref hd = 1 -> set_ref 1 (set_msgs x (set_ref 2 hd)) = set_msgs x hd.
Proof. destruct hd. simpl. by intros ->. Qed.

(** [GetWorkerEventHandlerWithRef] of a registered peer. *)
Lemma with_ref_spec s A P B peer h r hd Q R :
  svc_inv s A P B -> A !! peer = Some (h, r) -> sv_handlers s !! h = Some hd ->
  Q (Some h) (set_handlers (<[h := set_ref 2 hd]> (sv_handlers s)) s) -> wpc (GetWorkerEventHandlerWithRef peer) s Q R.
Proof.
  intros HI EA E Hk. destruct (registered_facts _ _ _ _ _ _ _ HI EA) as (hd' & _ & _ & E' & _ & _ & _ & Er & _). simplify_eq.
  unfold GetWorkerEventHandlerWithRef. apply wpc_get. rewrite (lookup_refines _ _ (si_mgr HI)), EA. simpl.
  unfold ReferenceCounter.AddRef. eapply wpc_on_handler; [done|]. rewrite Er. by apply wpc_ret.
Qed.

(** The rest of [SendMessage]: the message is queued and the reference given back. *)
Lemma send_tail s A P B m h r hd i w Q R :
  svc_inv s A P B -> A !! snd_peer m = Some (h, r) -> sv_handlers s !! h = Some hd -> h_own hd = Some i ->
  sv_workers s !! i = Some w -> (h_msgs hd = [] -> may_throw R w) ->
  (forall s', svc_inv s' A P B -> sv_handlers s' = <[h := set_msgs (h_msgs hd ++ [m]) hd]> (sv_handlers s) ->
     sv_lastId s' = sv_lastId s -> (h_msgs hd <> [] -> sv_workers s' = sv_workers s) ->
     (h_msgs hd = [] -> exists w', sv_workers s' !! i = Some w' /\ MkNetEvent h EVENT_WRITE ∈ m_lRwOpExtEvents w' /\ 0 < ew_pipe w') -> Q true s') ->
  wpc (GetStackMsgWorker h;; rc ← worker_SendMessage h m; Release h;; mret rc) (set_handlers (<[h := set_ref 2 hd]> (sv_handlers s)) s) Q R.
Proof.
  intros HI EA E Eo Ei HR Hq. destruct (registered_facts _ _ _ _ _ _ _ HI EA) as (hd' & i' & w' & E' & Kc & _ & _ & Er & _). simplify_eq.
  assert (forall x, wf (<[h := set_msgs x hd]> (sv_handlers s)) (sv_workers s) (sv_tasks s) A P B) as Hwf.
  { intros x. eapply wf_msgs; [done|]. apply HI. }
  eapply wpc_GetStackMsgWorker; [simpl; by rewrite lookup_insert_eq|done|].
  apply wpc_bind. eapply send_spec; [simpl; by rewrite lookup_insert_eq|done|done|done| |]; simpl; rewrite insert_insert_eq.
  - intros Hn. apply wpc_bind. eapply Release_one; [simpl; by rewrite lookup_insert_eq|done|]. simpl. rewrite insert_insert_eq.
    rewrite set_ref_back by done. apply wpc_ret, Hq; simpl; try done; [|by intros Ex; rewrite Ex in Hn].
    eapply svc_inv_change; [done|apply HI|apply HI|..]; try done. simpl. apply Hwf.
  - intros Ex Hc. apply wpc_bind. eapply Release_one; [simpl; by rewrite lookup_insert_eq|done|]. simpl. rewrite insert_insert_eq.
    pose proof (ww_pipe _ _ _ (wf_works (si_wf HI) _ _ Ei)) as Hp.
    rewrite set_ref_back by done. apply wpc_ret, Hq; simpl; try done.
    + eapply svc_inv_change; [done|apply HI|apply HI|..]; try done; simpl; [|by rewrite length_insert].
      rewrite <- (list_insert_insert_eq _ i _ (AddExternalRWOpEvent (MkNetEvent h EVENT_WRITE) w)).
      apply (wf_pipe _ _ _ _ _ _ i (AddExternalRWOpEvent (MkNetEvent h EVENT_WRITE) w)); [by eapply insert_same|lia|].
      apply wf_rw; [done| |apply Hwf]. intros ev [Hev| ->%list_elem_of_singleton]%elem_of_app.
      * eapply conn_of_grows; [|by apply (ww_rw _ _ _ (wf_works (si_wf HI) _ _ Ei))]. by eapply grows_insert.
      * exists (set_msgs [m] hd). simpl. by rewrite lookup_insert_eq.
    + by rewrite Ex.
    + intros _. rewrite (insert_same _ Ei). eexists. split; [done|]. simpl. split; [set_solver|lia].
Qed.

Lemma SendMessage_registered s A P B m e h r hd i w Q R :
  svc_inv s A P B -> np_sp (snd_peer m) = Tcp -> A !! snd_peer m = Some (h, r) -> sv_handlers s !! h = Some hd -> h_own hd = Some i ->
  sv_workers s !! i = Some w -> (h_msgs hd = [] -> may_throw R w) ->
  (forall s', svc_inv s' A P B -> sv_handlers s' = <[h := set_msgs (h_msgs hd ++ [m]) hd]> (sv_handlers s) ->
     sv_lastId s' = sv_lastId s -> (h_msgs hd <> [] -> sv_workers s' = sv_workers s) ->
     (h_msgs hd = [] -> exists w', sv_workers s' !! i = Some w' /\ MkNetEvent h EVENT_WRITE ∈ m_lRwOpExtEvents w' /\ 0 < ew_pipe w') -> Q true s') ->
  wpc (SendMessage m e) s Q R.
Proof.
  intros HI Hsp EA E Eo Ei HR Hq. unfold SendMessage. apply wpc_get. rewrite (si_running HI), bool_decide_eq_true_2 by done. simpl.
  apply wpc_bind. eapply with_ref_spec; [done..|]. apply wpc_bind, wpc_ret. by eapply send_tail.
Qed.

(** ** Giving a connection up *)

(** [ClearMessage] and the last [Release], after the connection was taken out of the manager. *)
Lemma condemn_spec {X} s A P B m l h r hd i w (k : VM X) Q R :
  svc_inv s A P B -> A !! l = Some (h, r) -> sv_handlers s !! h = Some hd -> h_own hd = Some i -> sv_workers s !! i = Some w ->
  (h ∉ adds_of w \/ B = Some i) -> represents m (delete l A) -> may_throw R w ->
  (forall s', svc_inv s' (delete l A) P B ->
     sv_handlers s' = <[h := set_ref 0 (set_msgs [] hd)]> (sv_handlers s) ->
     sv_workers s' = <[i := set_pipe (ew_pipe w + 1) true (AddExternalEpDelEvent h w)]> (sv_workers s) ->
     sv_tasks s' = sv_tasks s -> sv_accepts s' = sv_accepts s -> wpc k s' Q R) ->
  wpc (GetStackMsgWorker h;; worker_ClearMessage h;; Release h;; k) (set_mgr m s) Q R.
Proof.
  intros HI EA E Eo Ei Hadd Hm HR Hk. destruct (registered_facts _ _ _ _ _ _ _ HI EA) as (hd' & i' & w' & E' & Kc & L & Rr & Er & _).
  simplify_eq. eapply wpc_GetStackMsgWorker; [done|done|]. unfold worker_ClearMessage. eapply wpc_on_handler; [done|]. apply wpc_bind.
  eapply Release_last; [simpl; by rewrite lookup_insert_eq|done|done|done|done|]. simpl. intros Hc. rewrite insert_insert_eq.
  apply Hk; try done. simpl. pose proof (si_wf HI) as Hwf.
  pose proof (ww_pipe _ _ _ (wf_works Hwf _ _ Ei)) as Hp.
  eapply svc_inv_change; [done|done|by apply distinct_delete, HI|..]; try done; simpl; [|by rewrite length_insert].
  rewrite <- (list_insert_insert_eq _ i _ (AddExternalEpDelEvent h w)).
  apply (wf_pipe _ _ _ _ _ _ i (AddExternalEpDelEvent h w)); [by eapply insert_same|lia|].
  rewrite <- (insert_insert_eq _ h _ (set_msgs [] hd)).
  apply (wf_condemn _ _ _ _ _ _ h (set_msgs [] hd) i w); try done.
  - by eapply wf_msgs.
  - by rewrite lookup_insert_eq.
  - by apply HI.
Qed.

Lemma Disconnect_spec s A peer Q R : svc_inv s A ∅ None ->
  (forall h r, A !! peer = Some (h, r) -> forall hd i w, sv_handlers s !! h = Some hd -> h_own hd = Some i ->
     sv_workers s !! i = Some w -> h ∉ adds_of w /\ may_throw R w) ->
  (np_sp peer <> Tcp -> Q false s) ->
  (forall s', np_sp peer = Tcp -> svc_inv s' (delete peer A) ∅ None -> Q true s') ->
  wpc (Disconnect peer) s Q R.
Proof.
  intros HI Hadd Hq Hq'. unfold Disconnect. destruct (decide (np_sp peer = Tcp)) as [Hsp|Hsp].
  2: { rewrite bool_decide_eq_false_2 by done. apply wpc_ret. by apply Hq. }
  rewrite bool_decide_eq_true_2 by done. simpl. apply wpc_get. rewrite (si_running HI). apply wpc_get.
  destruct (remove_refines _ _ (si_distinct HI) (si_mgr HI) peer) as [E1 E2]. unfold Registry.remove in E1, E2. simpl in E1, E2.
  destruct (RemoveWorkerEventHandler peer (m_sspMgr s)) as [o m]. simpl in E1, E2. subst o.
  apply wpc_mod. destruct (A !! peer) as [[h r]|] eqn:EA; simpl.
  - destruct (registered_facts _ _ _ _ _ _ _ HI EA) as (hd & i & w & E & Kc & L & Rr & Er & Eo & Ei & _).
    destruct (Hadd _ _ eq_refl _ _ _ E Eo Ei) as [Hna HR].
    eapply condemn_spec; [done|done|done|done|done|by left|done|done|]. intros s' HI' _ _ _ _. apply wpc_ret. by apply Hq'.
  - apply wpc_ret. apply Hq'; [done|]. rewrite delete_id in * by done.
    eapply svc_inv_change; [done|done|apply HI|..]; try done. simpl. apply HI.
Qed.

(** The real peers of connections that were condemned in the round are not registered. *)
Definition apart (s : svc) (A : registry) (i : nat) : Prop :=
  forall w h hd, sv_workers s !! i = Some w -> h ∈ m_lDelEpExtEvents w -> sv_handlers s !! h = Some hd ->
  forall l' h', A !! l' <> Some (h', h_real hd).

(** What the processing of an event keeps: objects stay, and so do the lists of events and
    of registrations and what is polled. *)
Record kept (s s' : svc) : Prop := {
  kp_grows : grows (sv_handlers s) (sv_handlers s');
  kp_workers : forall j w, sv_workers s !! j = Some w -> exists w', sv_workers s' !! j = Some w' /\ ew_epoll w' = ew_epoll w /\
    m_lRwOpExtEvents w' = m_lRwOpExtEvents w /\ m_lAddEpExtEvents w' = m_lAddEpExtEvents w
}.
Lemma kept_same s s' : sv_handlers s' = sv_handlers s -> sv_workers s' = sv_workers s -> kept s s'.
Proof. intros EH EW. split; [rewrite EH; apply grows_refl|]. intros j w E. exists w. by rewrite EW. Qed.
Lemma kept_id s : kept s s.
Proof. by apply kept_same. Qed.
Lemma kept_then s1 s2 s3 : kept s1 s2 -> kept s2 s3 -> kept s1 s3.
Proof.
  intros [G1 W1] [G2 W2]. split; [by eapply grows_trans|]. intros j w E. destruct (W1 _ _ E) as (w1 & E1 & ? & ? & ?).
  destruct (W2 _ _ E1) as (w2 & E2 & ? & ? & ?). exists w2. split; [done|]. split_and!; congruence.
Qed.

(** No object is new. *)
Definition from (H H' : gmap haddr handler) : Prop :=
  forall x hx', H' !! x = Some hx' -> exists hx, H !! x = Some hx /\ h_fd hx' = h_fd hx /\ h_real hx' = h_real hx.
Lemma from_refl H : from H H.
Proof. intros x hx E. by exists hx. Qed.
Lemma from_insert H h hd hd' : H !! h = Some hd -> h_fd hd' = h_fd hd -> h_real hd' = h_real hd -> from H (<[h := hd']> H).
Proof.
  intros E Ef Er x hx [[<- <-]|[_ Ex]]%lookup_insert_Some; [by exists hd|by exists hx].
Qed.
Lemma fresh_from H H' T A A' h fd r : from H H' -> A' ⊆ A -> fresh_conn H T A h fd r -> fresh_conn H' T A' h fd r.
Proof.
  intros HF HA [Ha Hf Hr]. split.
  - destruct (H' !! h) as [hx|] eqn:E; [|done]. destruct (HF _ _ E) as (? & ? & _). congruence.
  - intros x hx (hx0 & E & -> & _)%HF. by eapply Hf.
  - intros x hx (hx0 & E & _ & ->)%HF Hx. eapply Hr; [done|]. destruct Hx as [?|(l & r' & Hl)]; [by left|].
    right. exists l, r'. by eapply lookup_weaken.
Qed.

(** A connection of the worker that is not being deleted is registered or condemned. *)
Lemma own_place s A P B i h hd w : svc_inv s A P B -> sv_handlers s !! h = Some hd -> h_kind hd = Connection -> h_own hd = Some i ->
  sv_workers s !! i = Some w -> h ∉ P ->
  A !! h_logic hd = Some (h, h_real hd) /\ h ∉ m_lDelEpExtEvents w \/ h ∈ m_lDelEpExtEvents w /\ ~ registered A h.
Proof.
  intros HI E K Eo Ei HP. destruct (wf_place (si_wf HI) _ _ E K) as [? ? Eo'|j v ? ? EA ? Eo' Ej|j v ? ? ? ? Eo' Ej|? ? ? ?]; [congruence| | |done]; rewrite Eo in Eo'; simplify_eq; [by left|by right].
Qed.

Lemma on_finish_spec s A P i h Q R w : svc_inv s A P (Some i) -> apart s A i -> conn_of (sv_handlers s) i h -> h ∉ P ->
  sv_workers s !! i = Some w -> may_throw R w ->
  (forall s' A', svc_inv s' A' P (Some i) -> apart s' A' i -> kept s s' -> A' ⊆ A -> sv_accepts s' = sv_accepts s -> sv_tasks s' = sv_tasks s ->
     from (sv_handlers s) (sv_handlers s') -> Q tt s') ->
  wpc (on_finish h) s Q R.
Proof.
  intros HI Hap (hd & E & K & Eo) HP Ei HR Hq. unfold on_finish. apply wpc_get. rewrite (si_running HI).
  eapply wpc_handler_at; [done|]. apply wpc_get.
  assert (forall l' h', A !! l' = Some (h', h_real hd) -> l' = h_logic hd) as Hu.
  { intros l' h' El. destruct (own_place _ _ _ _ _ _ _ _ HI E K Eo Ei HP) as [[EA _]|[Hin _]]; [|by destruct (Hap _ _ _ Ei Hin E l' h')].
    eapply (si_distinct HI); [done|done|by right]. }
  destruct (remove_real_refines _ _ (si_distinct HI) (si_mgr HI) _ _ Hu) as [E1 E2]. unfold Registry.remove_real in E1, E2.
  destruct (RemoveWorkerEventHandler_real (h_logic hd) (h_real hd) (m_sspMgr s)) as [o m].
  apply wpc_mod. destruct (own_place _ _ _ _ _ _ _ _ HI E K Eo Ei HP) as [[EA Hnd]|[Hin Hnr]].
  - rewrite EA, decide_True in E1, E2 by done. simpl in E1, E2. subst o. simpl.
    assert (forall Q', wpc (GetStackMsgWorker h;; worker_ClearMessage h;; Release h;; mret tt) (set_mgr m s) Q' R ->
      wpc (GetStackMsgWorker h;; worker_ClearMessage h;; Release h) (set_mgr m s) Q' R) as Hret.
    { intros Q'. unfold wpc, mbind, M_bind. destruct (GetStackMsgWorker h _) as [[?|?] ?]; [|done].
      destruct (worker_ClearMessage h _) as [[?|?] ?]; [|done].
      destruct (Release h _) as [[[]|?] ?]; done. }
    apply Hret. eapply condemn_spec; [done|done|done|done|done|by right|done|done|].
    intros s' HI' EH EW ET EAc. apply wpc_ret. apply (Hq s' _ HI').
    + intros w' x hx Ew' Hx Ex. rewrite EW in Ew'. rewrite (insert_same _ Ei) in Ew'. injection Ew' as <-. simpl in Hx.
      intros l' h' [Hne El']%lookup_delete_Some. rewrite EH in Ex. destruct (decide (h = x)) as [<-|Hnx].
      * rewrite lookup_insert_eq in Ex. injection Ex as <-. simpl in El'. apply Hne. symmetry. by eapply Hu.
      * rewrite lookup_insert_ne in Ex by done. apply elem_of_union in Hx as [Hx%elem_of_singleton|Hx]; [done|]. by eapply Hap.
    + split; [rewrite EH; by eapply grows_insert|]. intros j v Ej. rewrite EW. destruct (decide (i = j)) as [<-|Hne].
      * simplify_eq. rewrite (insert_same _ Ei). by eexists.
      * rewrite list_lookup_insert_ne by done. by exists v.
    + apply delete_subseteq.
    + done.
    + done.
    + rewrite EH. by eapply from_insert.
  - assert ((o = None /\ represents m A)) as [-> Hm].
    { destruct (A !! h_logic hd) as [[h' r']|] eqn:EA; [|by simpl in E1, E2]. destruct (decide (r' = h_real hd)) as [->|Hne]; [|by simpl in E1, E2].
      exfalso. by destruct (Hap _ _ _ Ei Hin E (h_logic hd) h'). }
    apply wpc_ret. apply (Hq _ A); try done.
    + eapply svc_inv_change; [done|done|apply HI|..]; try done. simpl. apply HI.
    + by apply kept_same.
    + apply from_refl.
Qed.

(** ** The parts of a round *)

Definition accepted (l : list accept_out) : list (Z * haddr * net_peer_info) :=
  omap (fun o => match o with Accepted fd a p => Some (fd, a, p) | AcceptError _ => None end) l.

(** The connections [accept] will give are new, and different; its errors are those after
    which the socket still works. *)
Record accepts_ok (l : list accept_out) (H : gmap haddr handler) (T : list haddr) (A : registry) : Prop := {
  ao_fresh : forall fd a p, (fd, a, p) ∈ accepted l -> fresh_conn H T A a fd p;
  ao_fds : NoDup (accepted l).*1.*1;
  ao_addrs : NoDup (accepted l).*1.*2;
  ao_peers : NoDup (accepted l).*2;
  ao_errors : forall e, AcceptError e ∈ l -> e = EAGAIN \/ e = EINTR \/ e = ECONNABORTED
}.

Lemma accepts_tail x l H T A : accepts_ok (x :: l) H T A -> accepts_ok l H T A.
Proof.
  intros [Hf H1 H2 H3 He]. destruct x as [fd a p|e]; simpl in *.
  - apply list.NoDup_cons in H1 as [_ H1], H2 as [_ H2], H3 as [_ H3]. split; try done.
    + intros fd' a' p' Hin. apply Hf. by right.
    + intros e Hin. apply He. by right.
  - split; try done. intros e' Hin. apply He. by right.
Qed.

Lemma accepts_from l H H' T A A' : from H H' -> A' ⊆ A -> accepts_ok l H T A -> accepts_ok l H' T A'.
Proof. intros HF HA [Hf H1 H2 H3 He]. split; try done. intros fd a p Hin. eapply fresh_from; eauto. Qed.

(** One of them becomes a handler that waits for its handshake. *)
Lemma accepts_new fd a p l H T A m : accepts_ok (Accepted fd a p :: l) H T A ->
  accepts_ok l (<[a := MkFEH Connection fd 1 None m p []]> H) (T ++ [a]) A.
Proof.
  intros Hok. destruct (accepts_tail _ _ _ _ _ Hok) as [Ht T1 T2 T3 Te]. split; try done.
  destruct Hok as [Hf H1 H2 H3 He]. simpl in *.
  apply list.NoDup_cons in H1 as [N1 _], H2 as [N2 _], H3 as [N3 _].
  intros fd' a' p' Hin. destruct (Ht _ _ _ Hin) as [Fa Ff Fr].
  assert (fd' <> fd /\ a' <> a /\ p' <> p) as (Hfd & Ha & Hp).
  { split_and!; intros ->; [apply N1|apply N2|apply N3]; rewrite ?list_elem_of_fmap; repeat setoid_rewrite list_elem_of_fmap; naive_solver. }
  split.
  - by rewrite lookup_insert_ne.
  - intros x hx [[<- <-]|[_ E]]%lookup_insert_Some; [simpl; congruence|by eapply Ff].
  - intros x hx [[<- <-]|[Hne E]]%lookup_insert_Some Hx; [simpl; congruence|]. eapply Fr; [done|].
    destruct Hx as [[?| ->%list_elem_of_singleton]%elem_of_app|?]; [by left|done|by right].
Qed.

Record in_round (s : svc) (A : registry) (P : gset haddr) (i : nat) : Prop := {
  ir_inv : svc_inv s A P (Some i);
  ir_apart : apart s A i;
  ir_accepts : accepts_ok (sv_accepts s) (sv_handlers s) (sv_tasks s) A;
  ir_worker : is_Some (sv_workers s !! i)
}.

Lemma accept_loop_spec l s A P i Q R : svc_inv s A P (Some i) -> apart s A i -> accepts_ok l (sv_handlers s) (sv_tasks s) A ->
  is_Some (sv_workers s !! i) ->
  (forall s', in_round s' A P i -> kept s s' -> Q true s') -> wpc (accept_loop l) s Q R.
Proof.
  revert s. induction l as [|x l IH]; intros s HI Hap Hok Hw Hq.
  { apply wpc_mod, wpc_ret, Hq; [|by apply kept_same]. split; [|done|done|done]. eapply svc_inv_change; [done|apply HI..|done|done|done|done]. }
  destruct x as [fd a p|e]; simpl.
  - destruct (ao_fresh _ _ _ _ Hok fd a p) as [Fa Ff Fr]; [by left|]. apply wpc_mod, wpc_mod.
    assert (a ∉ P) as HnP by (intros (? & ? & _)%(wf_pend (si_wf HI)); congruence).
    apply IH; simpl; [| |by eapply accepts_new|done|].
    + eapply svc_inv_change; [done|apply HI|apply HI|..]; try done. simpl. by apply wf_new_task; [apply HI|split|].
    + intros w h hd Ew Hh E l' h'. simpl in Ew, E. eapply (Hap w h); [done|done|]. rewrite lookup_insert_ne in E; [done|].
      intros <-. destruct (ww_del _ _ _ (wf_works (si_wf HI) _ _ Ew) _ Hh) as (? & ? & _). congruence.
    + intros s' HI' Hk. apply Hq; [done|]. eapply kept_then; [|done]. split; [by apply grows_new|]. intros j w Ej. by exists w.
  - assert (accepts_ok l (sv_handlers s) (sv_tasks s) A) as Hok' by (by eapply accepts_tail).
    destruct (ao_errors _ _ _ _ Hok e) as [->|He]; [by left| |].
    + simpl. apply wpc_mod, wpc_ret, Hq; [|by apply kept_same]. split; [|done|done|done]. eapply svc_inv_change; [done|apply HI..|done|done|done|done].
    + assert ((e =? EAGAIN) = false /\ (e =? EINTR) || (e =? ECONNABORTED) = true) as [-> ->] by (by destruct He; subst e).
      by apply IH.
Qed.

(** An event the worker may process: of one of its connections, or something to read for the
    listening socket or its pipe. *)
Definition reported (H : gmap haddr handler) (i : nat) (e : NetEvent) : Prop :=
  exists hd, H !! ne_eh e = Some hd /\
  match h_kind hd with Connection => h_own hd = Some i | _ => has (ne_mask e) EVENT_WRITE = false end.
Lemma reported_grows H H' i e : grows H H' -> reported H i e -> reported H' i e.
Proof.
  intros G (hd & E & K). destruct (G _ _ E) as (hd' & E' & K' & _ & O'). exists hd'. split; [done|]. rewrite K'.
  destruct (h_kind hd); auto.
Qed.

(** A change of the state that none of the predicates looks at, and one of a worker's pipe or
    of a connection's messages. *)
Lemma in_round_same s s' A P i : in_round s A P i -> sv_handlers s' = sv_handlers s -> sv_workers s' = sv_workers s ->
  sv_tasks s' = sv_tasks s -> sv_accepts s' = sv_accepts s -> m_sspMgr s' = m_sspMgr s ->
  m_iConnWorkersCnt s' = m_iConnWorkersCnt s -> m_iCurWorkerIdx s' = m_iCurWorkerIdx s -> m_bStopped s' = m_bStopped s -> in_round s' A P i.
Proof.
  intros [HI Hap Hac Hw] E1 E2 E3 E4 E5 E6 E7 E8. split.
  - eapply svc_inv_change; [done|rewrite E5; apply HI|apply HI|rewrite E1, E2, E3; apply HI|by rewrite E2|done..].
  - intros w h hd. rewrite E1, E2. apply Hap.
  - by rewrite E1, E3, E4.
  - by rewrite E2.
Qed.

Lemma in_round_pipe s A P i w n e : in_round s A P i -> sv_workers s !! i = Some w -> 0 <= n ->
  in_round (set_workers (<[i := set_pipe n e w]> (sv_workers s)) s) A P i /\ kept s (set_workers (<[i := set_pipe n e w]> (sv_workers s)) s).
Proof.
  intros [HI Hap Hac Hw] Ei Hn. split; [split; try done|].
  - eapply svc_inv_change; [done|apply HI|apply HI|..]; try done; simpl; [|by rewrite length_insert]. apply wf_pipe; [done|done|apply HI].
  - intros w' h hd. simpl. rewrite (insert_same _ Ei). intros [= <-]. by apply (Hap w).
  - simpl. rewrite (insert_same _ Ei). by eexists.
  - split; [apply grows_refl|]. simpl. intros j v Ej. destruct (decide (i = j)) as [<-|Hne].
    + simplify_eq. rewrite (insert_same _ Ei). by eexists.
    + rewrite list_lookup_insert_ne by done. by exists v.
Qed.

Lemma in_round_msgs s A P i h hd x : in_round s A P i -> sv_handlers s !! h = Some hd ->
  in_round (set_handlers (<[h := set_msgs x hd]> (sv_handlers s)) s) A P i /\ kept s (set_handlers (<[h := set_msgs x hd]> (sv_handlers s)) s).
Proof.
  intros [HI Hap Hac Hw] E. split; [split; try done|].
  - eapply svc_inv_change; [done|apply HI|apply HI|..]; try done. simpl. apply wf_msgs; [done|apply HI].
  - intros w y hy Ew Hy. simpl. intros [[<- <-]|[_ Ey]]%lookup_insert_Some; [by apply (Hap w h hd)|by apply (Hap w y hy)].
  - simpl. eapply accepts_from; [by eapply from_insert|done|done].
  - split; [by eapply grows_insert|]. intros j v Ej. by exists v.
Qed.

Section events.
Context (A : registry) (P : gset haddr) (i : nat).

Lemma next_io_spec {X} s (k : io_out -> VM X) Q R : in_round s A P i ->
  (forall o s', in_round s' A P i -> sv_handlers s' = sv_handlers s -> sv_workers s' = sv_workers s -> wpc (k o) s' Q R) ->
  wpc (next_io ≫= k) s Q R.
Proof.
  intros HI Hk. apply wpc_bind. unfold wpc, next_io. destruct (sv_io s) as [|o io]; apply Hk; try done.
  by eapply in_round_same.
Qed.

Lemma HandleReadEvent_spec s h (w : bool) Q R : in_round s A P i -> reported (sv_handlers s) i (MkNetEvent h (if w then EVENT_WRITE else 0)) ->
  (forall rc s', in_round s' A P i -> kept s s' -> (rc = false -> conn_of (sv_handlers s) i h) -> Q rc s') ->
  wpc (HandleReadEvent i h) s Q R.
Proof.
  intros HI (hd & E & K) Hq. simpl in E. unfold HandleReadEvent. eapply wpc_handler_at; [done|].
  destruct (ir_worker _ _ _ _ HI) as [v Ev]. pose proof (wf_works (si_wf (ir_inv _ _ _ _ HI)) _ _ Ev) as Hwi.
  destruct (h_kind hd) eqn:Ek.
  - apply wpc_get. rewrite Ev. apply wpc_bind, wpc_ret. rewrite local_read by apply Hwi. apply wpc_mod, wpc_ret.
    destruct (in_round_pipe _ _ _ _ _ 0 (ew_edge v) HI Ev ltac:(lia)) as [HI' Hk]. by apply Hq.
  - apply wpc_get. eapply accept_loop_spec; [apply HI..|by eexists|]. intros s' HI' Hk. by apply Hq.
  - eapply next_io_spec; [done|]. intros o s' HI' EH EW. apply wpc_ret, Hq; [done|by apply kept_same|]. intros _. by exists hd.
Qed.

Lemma HandleWriteEvent_spec s h Q R : in_round s A P i -> conn_of (sv_handlers s) i h ->
  (forall rc s', in_round s' A P i -> kept s s' -> Q rc s') -> wpc (HandleWriteEvent h) s Q R.
Proof.
  intros HI (hd & E & K & O) Hq. unfold HandleWriteEvent. eapply wpc_handler_at; [done|]. rewrite K.
  eapply next_io_spec; [done|]. intros o s' HI' EH EW. rewrite <- EH in E. eapply wpc_on_handler; [done|]. apply wpc_ret.
  destruct (in_round_msgs _ _ _ _ _ _ (drop (io_taken o) (h_msgs hd)) HI' E) as [HI'' Hk]. apply Hq; [done|].
  eapply kept_then; [by apply kept_same|done].
Qed.
End events.

Lemma process_event_spec s A P i e Q : in_round s A P i -> reported (sv_handlers s) i e -> ne_eh e ∉ P ->
  (forall s' A', in_round s' A' P i -> kept s s' -> Q tt s') -> wpc (process_event i e) s Q throws.
Proof.
  intros HI Hrep HnP Hq. unfold process_event.
  assert (forall rc s', in_round s' A P i -> kept s s' -> (rc = false -> conn_of (sv_handlers s) i (ne_eh e)) ->
    wpc (if negb rc then on_finish (ne_eh e) else mret tt) s' Q throws) as Hfin.
  { intros rc s' HI' Hk Hc. destruct rc; simpl; [apply wpc_ret; by eapply Hq|]. destruct (ir_worker _ _ _ _ HI') as [w Ew].
    eapply on_finish_spec; [apply HI'|apply HI'| |done|done|auto with flykv|].
    - eapply conn_of_grows; [apply Hk|by apply Hc].
    - intros s'' A'' HI'' Hap'' Hk'' HA Eac Et Hfr. apply (Hq _ A''); [|by eapply kept_then]. split; [done|done| |].
      + rewrite Eac, Et. eapply accepts_from; [done|done|apply HI'].
      + destruct (kp_workers _ _ Hk'' _ _ Ew) as (w' & ? & _). by eexists. }
  assert (forall rc s', in_round s' A P i -> kept s s' -> (rc = false -> conn_of (sv_handlers s) i (ne_eh e)) ->
    wpc (rc ← (if rc && has (ne_mask e) EVENT_WRITE then HandleWriteEvent (ne_eh e) else mret rc);
         if negb rc then on_finish (ne_eh e) else mret tt) s' Q throws) as Hwr.
  { intros rc s' HI' Hk Hc. apply wpc_bind. destruct (rc && has (ne_mask e) EVENT_WRITE) eqn:Ew; [|apply wpc_ret; by apply Hfin].
    apply andb_true_iff in Ew as [-> Ew].
    assert (conn_of (sv_handlers s) i (ne_eh e)) as Hconn by (destruct Hrep as (hd & E & K); exists hd; destruct (h_kind hd) eqn:Ek; [congruence..|done]).
    eapply HandleWriteEvent_spec; [done|by eapply conn_of_grows; [apply Hk|]|]. intros rc' s'' HI'' Hk''. apply Hfin; [done|by eapply kept_then|done]. }
  apply wpc_bind. destruct (has (ne_mask e) EVENT_READ); [|apply wpc_ret, Hwr; [done|apply kept_id|done]].
  eapply (HandleReadEvent_spec _ _ _ _ _ (has (ne_mask e) EVENT_WRITE)); [done| |done].
  destruct Hrep as (hd & E & K). exists hd. split; [done|]. simpl. by destruct (h_kind hd), (has (ne_mask e) EVENT_WRITE).
Qed.
