(* ===== verification/ServiceRound.v ===== *)
(** * A round of a worker thread of the socket service

    [worker_round] from a well-formed state: the handlers on the list of deletions are taken
    off epoll, the events are processed without them, and they are deleted; then the new
    handlers are registered with epoll. *)

From S2P Require Import Prelude Posix Net ConnMgr EventLoop SocketService ServiceInv ServiceOps.
Import UniqueWorkerManager.

Lemma wpc_each {X} (f : X -> VM unit) (I : svc -> Prop) (R : stop -> svc -> Prop) (l : list X) :
  (forall x s, x ∈ l -> I s -> wpc (f x) s (fun _ s' => I s') R) ->
  forall s Q, I s -> (forall s', I s' -> Q tt s') -> wpc (each f l) s Q R.
Proof.
  induction l as [|x l IH]; intros Hf s Q HI Hq; simpl; [apply wpc_ret; by apply Hq|].
  apply wpc_bind. eapply wpc_mono; [apply Hf; [by left|exact HI]| |done]. intros [] s' HI'. simpl.
  apply IH; [|done|done]. intros y s'' Hy. apply Hf. by right.
Qed.

(** ** Taking handlers off epoll *)

Lemma worker_DeleteHandler_run s i w h hd Q R : sv_handlers s !! h = Some hd -> sv_workers s !! i = Some w ->
  Q tt (set_workers (<[i := set_epoll (delete (h_fd hd) (ew_epoll w)) w]> (sv_workers s)) s) -> wpc (worker_DeleteHandler i h) s Q R.
Proof.
  intros E Ei Hq. unfold worker_DeleteHandler. eapply wpc_handler_at; [done|].
  assert ((EpollEventDriver.DeleteHandler h (h_fd hd) (ew_epoll w)).2 = delete (h_fd hd) (ew_epoll w)) as Ed.
  { unfold EpollEventDriver.DeleteHandler, epoll_ctl. destruct (ew_epoll w !! h_fd hd) eqn:Ee; simpl; [done|]. by rewrite delete_id. }
  rewrite <- Ed in Hq. unfold wpc, on_worker, mbind, M_bind, getS, of_mem. by rewrite Ei.
Qed.

Lemma unpoll_spec l s A P B i w Q R : svc_inv s A P B -> sv_workers s !! i = Some w -> (forall h, h ∈ l -> h ∈ P) ->
  (forall ep, let s' := set_workers (<[i := set_epoll ep w]> (sv_workers s)) s in
     svc_inv s' A P B -> ep ⊆ ew_epoll w -> (forall h hd, h ∈ l -> sv_handlers s !! h = Some hd -> ep !! h_fd hd = None) -> Q tt s') ->
  wpc (each (worker_DeleteHandler i) l) s Q R.
Proof.
  revert s w. induction l as [|h l IH]; intros s w HI Ei HP Hq; simpl.
  { apply wpc_ret. specialize (Hq (ew_epoll w)). simpl in Hq. replace (set_epoll (ew_epoll w) w) with w in Hq by (by destruct w).
    rewrite list_insert_id in Hq by done. replace (set_workers (sv_workers s) s) with s in Hq by (by destruct s).
    apply Hq; [done|done|]. by intros h hd ?%not_elem_of_nil. }
  destruct (wf_pend (si_wf HI) h) as (hd & E & K); [apply HP; by left|].
  apply wpc_bind. eapply worker_DeleteHandler_run; [done|done|]. set (w1 := set_epoll (delete (h_fd hd) (ew_epoll w)) w).
  apply (IH _ w1); simpl.
  - eapply svc_inv_change; [done|apply HI|apply HI|..]; try done; simpl; [|by rewrite length_insert].
    eapply wf_unpoll; [apply HI| |done|done]. apply HP. by left.
  - by eapply insert_same.
  - intros x Hx. apply HP. by right.
  - intros ep. rewrite list_insert_insert_eq. change (set_epoll ep w1) with (set_epoll ep w). intros HI' Hep Hgone. apply (Hq ep HI').
    + etrans; [exact Hep|]. apply delete_subseteq.
    + intros x hx [->|Hx]%elem_of_cons Ex; [|by apply (Hgone x)]. simplify_eq.
      destruct (ep !! h_fd hd) as [ee|] eqn:Ee; [|done]. pose proof (lookup_weaken _ _ _ _ Ee Hep) as Ee'. simpl in Ee'.
      by rewrite lookup_delete_eq in Ee'.
Qed.

(** ** Deleting them *)

Lemma delete_handler_run s h hd Q R : sv_handlers s !! h = Some hd -> Q tt (set_handlers (delete h (sv_handlers s)) s) ->
  wpc (delete_handler h) s Q R.
Proof. intros E Hq. unfold delete_handler. by eapply wpc_handler_at. Qed.

Lemma free_spec l s A P B i w Q R : svc_inv s A P B -> NoDup l -> (forall h, h ∈ P <-> h ∈ l) -> sv_workers s !! i = Some w ->
  m_lRwOpExtEvents w = [] ->
  (forall h, h ∈ l -> exists hd, sv_handlers s !! h = Some hd /\ h_own hd = Some i /\ ew_epoll w !! h_fd hd = None) ->
  (forall H', let s' := set_handlers H' s in svc_inv s' A ∅ B -> (forall h, H' !! h = if decide (h ∈ l) then None else sv_handlers s !! h) -> Q tt s') ->
  wpc (each delete_handler l) s Q R.
Proof.
  revert s P. induction l as [|h l IH]; intros s P HI Hnd HP Ei Erw Hl Hq; simpl.
  { apply wpc_ret. specialize (Hq (sv_handlers s)). simpl in Hq. replace (set_handlers (sv_handlers s) s) with s in Hq by (by destruct s).
    apply Hq; [|by intros h]. assert (P = ∅) as <- by (apply set_eq; intros x; rewrite HP; set_solver). done. }
  apply list.NoDup_cons in Hnd as [Hn Hnd]. destruct (Hl h) as (hd & E & O & Ep); [by left|].
  apply wpc_bind. eapply delete_handler_run; [done|]. apply (IH _ (P ∖ {[h]})); simpl; try done.
  - eapply svc_inv_change; [done|apply HI|apply HI|..]; try done. simpl.
    eapply (wf_free _ _ _ _ _ _ h hd i w); [apply HI|apply HP; by left|done|done|done| |done]. rewrite Erw. by intros e ?%not_elem_of_nil.
  - intros x. rewrite elem_of_difference, HP, elem_of_cons, elem_of_singleton. naive_solver.
  - intros x Hx. destruct (Hl x) as (hx & Ex & Ox & Epx); [by right|]. exists hx. rewrite lookup_delete_ne; [done|]. by intros ->.
  - intros H' HI' EH'. apply (Hq H' HI'). intros x. rewrite EH'. destruct (decide (x = h)) as [->|Hne].
    + rewrite (decide_True (P := h ∈ h :: l)) by (by left). rewrite lookup_delete_eq. by destruct (decide (h ∈ l)).
    + rewrite lookup_delete_ne by done. destruct (decide (x ∈ l)) as [Hx|Hx].
      * by rewrite decide_True by (by right).
      * rewrite decide_False; [done|]. rewrite elem_of_cons. tauto.
Qed.

(** ** Registering handlers with epoll *)

Lemma worker_AddEvent_run s i w a hd Q R : sv_handlers s !! ea_h a = Some hd -> sv_workers s !! i = Some w ->
  Q tt (set_workers (<[i := set_epoll (EpollEventDriver.AddEvent (ea_h a) (h_fd hd) (ea_cur_mask a) (ea_mask a) (ew_epoll w)).2 w]> (sv_workers s)) s) ->
  wpc (worker_AddEvent i a) s Q R.
Proof.
  intros E Ei Hq. unfold worker_AddEvent. eapply wpc_handler_at; [done|].
  unfold wpc, on_worker, mbind, M_bind, getS, of_mem. by rewrite Ei.
Qed.

(** The state with the list of registrations as if the remaining ones were still on it. *)
Definition with_adds (adds : list EpollAddEvent) (i : nat) (w : EventWorker) (s : svc) : svc :=
  set_workers (<[i := set_add adds w]> (sv_workers s)) s.

Lemma adds_spec adds s A i w Q R : sv_workers s !! i = Some w -> m_lAddEpExtEvents w = [] -> svc_inv (with_adds adds i w s) A ∅ (Some i) ->
  (forall W', svc_inv (set_workers W' s) A ∅ None -> Q tt (set_workers W' s)) ->
  wpc (each (worker_AddEvent i) adds) s Q R.
Proof.
  revert s w. induction adds as [|a adds IH]; intros s w Ei Ea HI Hq; simpl.
  - apply wpc_ret. specialize (Hq (sv_workers s)). replace (set_workers (sv_workers s) s) with s in Hq by (by destruct s). apply Hq.
    unfold with_adds in HI. replace (set_add [] w) with w in HI by (destruct w; simpl in *; by subst).
    rewrite list_insert_id in HI by done. replace (set_workers (sv_workers s) s) with s in HI by (by destruct s).
    eapply svc_inv_change; [exact HI|apply HI|apply HI| |done..]. eapply wf_end_round; [apply HI|done|done].
  - assert (sv_workers (with_adds (a :: adds) i w s) !! i = Some (set_add (a :: adds) w)) as Ei' by (by eapply insert_same).
    destruct (ww_add _ _ _ (wf_works (si_wf HI) _ _ Ei') a) as (_ & hd & E & _); [by left|]. simpl in E.
    apply wpc_bind. eapply worker_AddEvent_run; [done|done|].
    set (ep := (EpollEventDriver.AddEvent (ea_h a) (h_fd hd) (ea_cur_mask a) (ea_mask a) (ew_epoll w)).2).
    apply (IH _ (set_epoll ep w)); simpl; [by eapply insert_same|done| |].
    + eapply svc_inv_change; [exact HI|apply HI|apply HI| |simpl; by rewrite !length_insert|done..]. simpl. rewrite list_insert_insert_eq.
      pose proof (wf_add_one _ _ _ _ _ _ _ _ _ _ _ (si_wf HI) Ei' eq_refl E) as Hwf. simpl in Hwf.
      by rewrite list_insert_insert_eq in Hwf.
    + intros W' HI'. by apply (Hq W').
Qed.

(** ** The round *)

Lemma each_events s0 A P i (l : list NetEvent) Q : in_round s0 A P i -> (forall e, e ∈ l -> reported (sv_handlers s0) i e) ->
  (forall s A', in_round s A' P i -> kept s0 s -> Q tt s) -> wpc (each (unless_pending i P) l) s0 Q throws.
Proof.
  intros HI Hl Hq. eapply (wpc_each _ (fun s => exists A', in_round s A' P i /\ kept s0 s)).
  - intros e s He (A' & HI' & Hk). unfold unless_pending. destruct (decide (ne_eh e ∈ P)) as [Hin|Hn]; [apply wpc_ret; by exists A'|].
    eapply process_event_spec; [done| |done|].
    + eapply reported_grows; [apply Hk|by apply Hl].
    + intros s' A'' HI'' Hk'. exists A''. split; [done|by eapply kept_then].
  - exists A. split; [done|apply kept_id].
  - intros s (A' & HI' & Hk). by apply (Hq s A').
Qed.

(** The end of the round, with the handlers of [P] off epoll and no external event left. *)
Lemma round_end s A P i w Q R : svc_inv s A P (Some i) -> accepts_ok (sv_accepts s) (sv_handlers s) (sv_tasks s) A ->
  sv_workers s !! i = Some w -> m_lRwOpExtEvents w = [] ->
  (forall h, h ∈ P -> exists hd, sv_handlers s !! h = Some hd /\ h_own hd = Some i /\ ew_epoll w !! h_fd hd = None) ->
  (forall s', svc_inv s' A ∅ None -> accepts_ok (sv_accepts s') (sv_handlers s') (sv_tasks s') A ->
     (forall h, sv_handlers s' !! h = if decide (h ∈ P) then None else sv_handlers s !! h) -> Q tt s') ->
  wpc (each delete_handler (elements P);; adds ← on_worker i GetExternalEpAddEvents; each (worker_AddEvent i) adds) s Q R.
Proof.
  intros HI Hac Ei Erw HP Hq. apply wpc_bind. eapply (free_spec _ _ _ P); [done|apply NoDup_elements|by intros h; rewrite elem_of_elements|done|done| |].
  { intros h Hh%elem_of_elements. by apply HP. }
  simpl. intros H' HI' EH. eapply wpc_on_worker; [done|]. simpl. eapply adds_spec; simpl; [by eapply insert_same|done| |].
  - unfold with_adds. simpl. rewrite list_insert_insert_eq. replace (set_add _ (set_add [] w)) with w by (by destruct w).
    eapply svc_inv_change; [exact HI'|apply HI'|apply HI'|simpl; rewrite list_insert_id by done; apply HI'|simpl; by rewrite length_insert|done..].
  - intros W' HI''. apply Hq; [done| |].
    + simpl. eapply accepts_from; [|done|exact Hac]. intros x hx Ex. rewrite EH in Ex. destruct (decide _); [done|]. by exists hx.
    + intros h. simpl. rewrite EH. destruct (decide (h ∈ elements P)) as [Hh%elem_of_elements|Hh]; [by rewrite decide_True|].
      rewrite decide_False; [done|]. by rewrite <- elem_of_elements.
Qed.

Lemma worker_round_spec s A i w events Q : svc_inv s A ∅ None -> sv_workers s !! i = Some w ->
  (forall e, e ∈ events -> reported (sv_handlers s) i e) -> accepts_ok (sv_accepts s) (sv_handlers s) (sv_tasks s) A ->
  (forall s' A', svc_inv s' A' ∅ None -> accepts_ok (sv_accepts s') (sv_handlers s') (sv_tasks s') A' ->
     (forall h, h ∈ m_lDelEpExtEvents w -> sv_handlers s' !! h = None) ->
     (forall h, h ∉ m_lDelEpExtEvents w -> is_Some (sv_handlers s !! h) -> is_Some (sv_handlers s' !! h)) -> Q tt s') ->
  wpc (worker_round i events) s Q throws.
Proof.
  intros HI Ei Hev Hac Hq. unfold worker_round. apply wpc_get. rewrite (si_running HI).
  eapply wpc_on_worker; [done|]. simpl. set (P := m_lDelEpExtEvents w). set (w1 := set_del ∅ w).
  apply wpc_bind. eapply (unpoll_spec _ _ A P (Some i) i w1).
  { eapply svc_inv_change; [exact HI|apply HI|apply HI|simpl; eapply wf_take_deletions; [apply HI|done]|simpl; by rewrite length_insert|done..]. }
  { simpl. by eapply insert_same. }
  { intros h. apply elem_of_elements. }
  simpl. intros ep. rewrite list_insert_insert_eq. set (s2 := set_workers _ _). intros HI2 _ Hgone.
  assert (sv_workers s2 !! i = Some (set_epoll ep w1)) as Ei2 by (simpl; by eapply insert_same).
  assert (in_round s2 A P i) as HR2.
  { split; [done| |done|by eexists]. intros v h hd. rewrite Ei2. intros [= <-]. simpl. set_solver. }
  apply wpc_bind. eapply each_events; [done|done|]. intros s3 A3 HR3 Hk3.
  destruct (kp_workers _ _ Hk3 _ _ Ei2) as (w3 & Ei3 & Ep3 & Er3 & Ea3). eapply wpc_on_worker; [done|]. simpl.
  set (s4 := set_workers _ s3). assert (sv_workers s4 !! i = Some (set_rw [] w3)) as Ei4 by (simpl; by eapply insert_same).
  assert (in_round s4 A3 P i) as HR4.
  { destruct HR3 as [HI3 Hap3 Hac3 Hw3]. split; [| |done|by eexists].
    - eapply svc_inv_change; [exact HI3|apply HI3|apply HI3|simpl; apply wf_rw; [done|by intros e ?%not_elem_of_nil|apply HI3]|simpl; by rewrite length_insert|done..].
    - intros v h hd. rewrite Ei4. intros [= <-]. by apply (Hap3 w3). }
  apply wpc_bind. eapply each_events; [done| |].
  { intros e He. destruct (ww_rw _ _ _ (wf_works (si_wf (ir_inv _ _ _ _ HR3)) _ _ Ei3) _ He) as (hd & E & K & O). exists hd. by rewrite K. }
  intros s5 A5 HR5 Hk5. destruct (kp_workers _ _ Hk5 _ _ Ei4) as (w5 & Ei5 & Ep5 & Er5 & Ea5).
  assert (grows (sv_handlers s) (sv_handlers s5)) as HG by (eapply grows_trans; [apply Hk3|apply Hk5]).
  eapply round_end; [apply HR5|apply HR5|done|by rewrite Er5| |].
  - intros h Hh. destruct (ww_del _ _ _ (wf_works (si_wf HI) _ _ Ei) _ Hh) as (hd & E & K & O).
    destruct (HG _ _ E) as (hd5 & E5 & _ & F5 & O5). exists hd5. split; [done|]. split; [auto|].
    rewrite Ep5. simpl. rewrite Ep3, F5. simpl. apply (Hgone h); [by apply elem_of_elements|done].
  - intros s' HI' Hac' EH. apply (Hq s' A5); [done|done| |].
    + intros h Hh. rewrite EH. by rewrite decide_True.
    + intros h Hh [hd E]. rewrite EH, decide_False by done. destruct (HG _ _ E) as (? & ? & _). by eexists.
Qed.
