(* ===== verification/ServiceOpen.v ===== *)
(** * Opening connections of the socket service

    A new connection from its creation to its registration with a worker: [connect], the task
    of the listening handler's pool, and [SendMessage], which connects first where it must. *)

From S2P Require Import Prelude Posix Net ConnMgr EventLoop SocketService ServiceInv ServiceOps ServiceRound.
Import UniqueWorkerManager.

(** ** The choice of the worker *)

(** The workers of the connections are taken in turn. *)
Lemma next_worker_mod cnt idx : 0 < cnt < 2147483648 -> -1 <= idx < cnt -> next_worker cnt idx = Some ((idx + 1) mod cnt).
Proof.
  intros Hc Hi. unfold next_worker. destruct (Z.eqb_spec cnt 0); [lia|]. f_equal.
  rewrite (i32_small (idx + 1)), u32_small by lia. apply i32_small. pose proof (Z.mod_pos_bound (idx + 1) cnt). lia.
Qed.

Lemma chosen_worker s A P B : svc_inv s A P B ->
  exists idx w, next_worker (m_iConnWorkersCnt s) (m_iCurWorkerIdx s) = Some idx /\ 0 <= idx < m_iConnWorkersCnt s /\
    sv_workers s !! Z.to_nat idx = Some w.
Proof.
  intros HI. destruct (si_cnt HI) as [H1 H2]. rewrite (next_worker_mod _ _ (si_cnt HI) (si_idx HI)).
  pose proof (Z.mod_pos_bound (m_iCurWorkerIdx s + 1) (m_iConnWorkersCnt s) H1) as Hm.
  destruct (lookup_lt_is_Some_2 (sv_workers s) (Z.to_nat ((m_iCurWorkerIdx s + 1) mod m_iConnWorkersCnt s))) as [w Ew].
  { pose proof (si_workers HI). unfold zlen in *. lia. }
  by eexists _, w.
Qed.

(** ** Registering *)

(** The registry can take a connection that enters. *)
Lemma enters_addable H W T A P B h hd : wf H W T A P B -> enters H T A h hd -> addable A h (h_real hd).
Proof.
  intros Hwf Hen l h' r' EA. split; intros ->.
  - apply (en_reg _ _ _ _ _ Hen). by exists l, r'.
  - destruct (wf_reg Hwf _ _ _ EA) as (hx & Ex & _ & _ & Rx). apply (en_reg _ _ _ _ _ Hen).
    rewrite <- (en_real _ _ _ _ _ Hen _ _ Ex); [by exists l, (h_real hd)|right; by exists l, (h_real hd)|done].
Qed.

Lemma on_logic_connect_spec {X} s A h hd (k : bool -> VM X) Q R : represents (m_sspMgr s) A -> distinct A -> m_bStopped s = false ->
  sv_handlers s !! h = Some hd -> addable A h (h_real hd) ->
  (A !! h_logic hd = None -> forall m, represents m (<[h_logic hd := (h, h_real hd)]> A) -> distinct (<[h_logic hd := (h, h_real hd)]> A) ->
     wpc (k true) (set_mgr m s) Q R) ->
  (A !! h_logic hd <> None -> forall m, represents m A -> wpc (k false) (set_mgr m s) Q R) ->
  wpc (on_logic_connect h ≫= k) s Q R.
Proof.
  intros Hm Hd Hs E Ha Ht Hf. unfold on_logic_connect. apply wpc_bind, wpc_get. rewrite Hs. eapply wpc_handler_at; [done|].
  apply wpc_get. destruct (put_refines _ _ Hd Hm h (h_logic hd) (h_real hd) Ha) as (E1 & E2 & E3). unfold Registry.put in *.
  destruct (PutWorkerEventHandler h (h_logic hd) (h_real hd) (m_sspMgr s)) as [b m]. simpl in E1, E2.
  apply wpc_mod, wpc_ret. destruct (A !! h_logic hd) as [[h' r']|] eqn:EA; simpl in *; subst b; [by apply Hf|by apply Ht].
Qed.

(** [AddEvent], for a connection the manager has just accepted. *)
Lemma AddEvent_spec s s1 A h hd mask Q R :
  svc_inv s A ∅ None -> enters (sv_handlers s) (sv_tasks s) A h hd -> h_ref hd = 1 -> A !! h_logic hd = None ->
  represents (m_sspMgr s1) (<[h_logic hd := (h, h_real hd)]> A) -> distinct (<[h_logic hd := (h, h_real hd)]> A) ->
  sv_handlers s1 = <[h := hd]> (sv_handlers s) -> sv_workers s1 = sv_workers s ->
  (forall x, x ∈ sv_tasks s1 <-> x ∈ sv_tasks s /\ x <> h) -> NoDup (sv_tasks s1) ->
  m_iConnWorkersCnt s1 = m_iConnWorkersCnt s -> m_iCurWorkerIdx s1 = m_iCurWorkerIdx s -> m_bStopped s1 = m_bStopped s ->
  (forall w, may_throw R w) ->
  (forall s' i, svc_inv s' (<[h_logic hd := (h, h_real hd)]> A) ∅ None ->
     sv_handlers s' = <[h := SetOwnWorker (Some i) hd]> (sv_handlers s) -> Q tt s') ->
  wpc (AddEvent h EVENT_NONE mask) s1 Q R.
Proof.
  intros HI Hen Er EA Hm Hd EH EW HT HN E1 E2 E3 HR Hq. unfold AddEvent. apply wpc_get. simpl. rewrite E1, E2.
  destruct (chosen_worker _ _ _ _ HI) as (idx & w & En & Hidx & Ei). rewrite En. apply wpc_bind, wpc_ret, wpc_mod.
  eapply wpc_on_handler; [simpl; rewrite EH; by rewrite lookup_insert_eq|]. eapply wpc_on_worker; [simpl; by rewrite EW|].
  eapply wpc_wake; [simpl; eapply insert_same; by rewrite EW|apply HR|]. simpl. intros Hc. rewrite EW, EH, insert_insert_eq, list_insert_insert_eq.
  apply (Hq _ (Z.to_nat idx)); [|done]. pose proof (si_wf HI) as Hwf.
  assert (enters (sv_handlers s) (sv_tasks s) A h (SetOwnWorker (Some (Z.to_nat idx)) hd)) as Hen'.
  { destruct Hen as [K1 K2 K3 K4 K5]. by split. }
  split; simpl; try done; [|rewrite E1; apply HI|rewrite E1; unfold zlen; rewrite length_insert; apply HI|rewrite E1; lia|rewrite E3; apply HI].
  rewrite <- (list_insert_insert_eq _ (Z.to_nat idx) _ (AddExternalEpAddEvent h EVENT_NONE mask w)).
  apply (wf_pipe _ _ _ _ _ _ _ (AddExternalEpAddEvent h EVENT_NONE mask w)); [by eapply insert_same| |].
  { pose proof (ww_pipe _ _ _ (wf_works Hwf _ _ Ei)). lia. }
  by eapply (wf_register _ _ _ _ _ _ _ _ _ _ _ _ _ Hwf Hen').
Qed.

(** ** Connecting *)

(** The object made for a connection, its descriptor and its peer are new, and once the
    handshake has been accepted its socket can be made non-blocking. *)
Record connects_ok (s : svc) (A : registry) (npt : net_peer_info) (e : connect_env) : Prop := {
  co_fresh : forall fd, ce_socket e = Some fd -> fresh_conn (sv_handlers s) (sv_tasks s) A (ce_addr e) fd npt;
  co_nonblock : ce_hs e <> HsFails -> ce_nonblock e = true
}.

(** [s'] differs from [s] at most in the time that is left for the next connect. *)
Definition same_but_timeout (s s' : svc) : Prop := s' = set_timeout (m_connectTimeout s') s.

Lemma fresh_enters H W T A P B h fd r l : wf H W T A P B -> fresh_conn H T A h fd r -> enters H T A h (MkFEH Connection fd 1 None l r []).
Proof.
  intros Hwf [Fa Ff Fr]. split; simpl.
  - done.
  - intros hd0. by rewrite Fa.
  - intros x hx Ex F. by destruct (Ff _ _ Ex).
  - intros x hx Ex Hx F. by destruct (Fr _ _ Ex Hx).
  - intros (l' & r' & EA). destruct (wf_reg Hwf _ _ _ EA) as (? & ? & _). congruence.
Qed.

#[local] Arguments Connect : simpl never.
Lemma connect_spec s A npt e Q R : svc_inv s A ∅ None -> np_sp npt = Tcp -> A !! npt = None -> connects_ok s A npt e -> (forall w, may_throw R w) ->
  (forall s', svc_inv s' A ∅ None -> same_but_timeout s s' -> Q false s') ->
  (forall s' fd i, svc_inv s' (<[npt := (ce_addr e, npt)]> A) ∅ None ->
     sv_handlers s' = <[ce_addr e := MkFEH Connection fd 1 (Some i) npt npt []]> (sv_handlers s) -> Q true s') ->
  wpc (connect npt e) s Q R.
Proof.
  intros HI Hsp EA [Hfr Hnb] HR Hf Ht. unfold connect, GetWorkerEventHandler. apply wpc_get. rewrite (lookup_refines _ _ (si_mgr HI)), EA. simpl.
  rewrite Hsp. destruct (ce_socket e) as [fd|]; [|apply wpc_ret, Hf; [done|by destruct s]]. specialize (Hfr fd eq_refl).
  apply wpc_get. destruct (Connect (ce_calls e) (Some (m_connectTimeout s))) as [ok rest]. simpl.
  eapply wpc_mod.
  assert (forall tmo, svc_inv (set_timeout tmo s) A ∅ None) as HI'.
  { intros tmo. eapply svc_inv_change; [exact HI|apply HI..|done|done|done|done]. }
  destruct ok; simpl; [|apply wpc_ret, Hf; [apply HI'|done]]. set (tmo := default _ rest).
  pose proof (fresh_enters _ _ _ _ _ _ _ _ _ npt (si_wf HI) Hfr) as Hen.
  apply wpc_mod. eapply wpc_on_handler; [simpl; by rewrite lookup_insert_eq|]. simpl. rewrite insert_insert_eq. unfold SetLogicPeerInfo. simpl.
  unfold Initialize_client. destruct (ce_hs e) as [|port sent] eqn:Ehs.
  - apply wpc_bind, wpc_ret. simpl. apply wpc_bind. eapply delete_handler_run; [simpl; by rewrite lookup_insert_eq|]. apply wpc_ret.
    simpl. rewrite delete_insert_id by apply Hfr. replace (set_handlers _ _) with (set_timeout tmo s) by (by destruct s). by apply Hf.
  - eapply on_logic_connect_spec; simpl; [apply HI|apply HI|apply HI|by rewrite lookup_insert_eq| | |by intros []].
    { by eapply enters_addable; [apply HI|exact Hen]. }
    simpl. intros _ m Hm Hd. rewrite Hnb by done. simpl. apply wpc_bind.
    eapply (AddEvent_spec s _ A (ce_addr e)); [exact HI|exact Hen|done|done|exact Hm|exact Hd|done|done| | |done|done|done|exact HR|].
    + simpl. intros x. split; [|tauto]. intros Hx. split; [done|]. intros ->. destruct (wf_tasks (si_wf HI) _ Hx) as (? & ? & _).
      pose proof (fc_addr _ _ _ _ _ _ Hfr). congruence.
    + apply (wf_nodup (si_wf HI)).
    + intros s' i HI2 EH. apply wpc_ret. by eapply Ht.
Qed.

(** [SendMessage]: to a peer that is not registered it connects first, and fails if it cannot. *)
Lemma SendMessage_spec s A m e Q : svc_inv s A ∅ None -> np_sp (snd_peer m) = Tcp ->
  (A !! snd_peer m = None -> connects_ok s A (snd_peer m) e) ->
  (forall s', svc_inv s' A ∅ None -> A !! snd_peer m = None -> same_but_timeout s s' -> Q false s') ->
  (forall s' A' h r hd, svc_inv s' A' ∅ None -> A ⊆ A' -> A' !! snd_peer m = Some (h, r) -> sv_handlers s' !! h = Some hd ->
     (exists q, h_msgs hd = q ++ [m]) -> Q true s') ->
  wpc (SendMessage m e) s Q throws.
Proof.
  intros HI Hsp Hco Hf Ht. destruct (A !! snd_peer m) as [[h r]|] eqn:EA.
  - destruct (registered_facts _ _ _ _ _ _ _ HI EA) as (hd & i & w & E & _ & _ & _ & _ & Eo & Ei & _).
    eapply SendMessage_registered; [done..|auto with flykv|]. intros s' HI' EH _ _ _.
    eapply (Ht s' A h r); [done|done|done|rewrite EH; by rewrite lookup_insert_eq|]. simpl. by eexists.
  - unfold SendMessage. apply wpc_get. rewrite (si_running HI), bool_decide_eq_true_2 by done. simpl.
    unfold GetWorkerEventHandlerWithRef at 1. apply wpc_bind, wpc_get. rewrite (lookup_refines _ _ (si_mgr HI)), EA. apply wpc_ret.
    apply wpc_bind, wpc_bind. eapply connect_spec; [done|done|done|by apply Hco|auto with flykv| |].
    + intros s' HI' Hs'. apply wpc_ret, wpc_ret. by apply Hf.
    + intros s' fd i HI' EH. set (hd := MkFEH _ _ _ _ _ _ _) in EH.
      assert (<[snd_peer m := (ce_addr e, snd_peer m)]> A !! snd_peer m = Some (ce_addr e, snd_peer m)) as EA' by (by rewrite lookup_insert_eq).
      assert (sv_handlers s' !! ce_addr e = Some hd) as E by (rewrite EH; by rewrite lookup_insert_eq).
      destruct (registered_facts _ _ _ _ _ _ _ HI' EA') as (hd' & i' & w & E' & _ & _ & _ & _ & Eo & Ei & _). rewrite E in E'. injection E' as <-.
      eapply with_ref_spec; [exact HI'|exact EA'|exact E|]. eapply send_tail; [exact HI'|exact EA'|exact E|done|done|auto with flykv|].
      intros s2 HI2 EH2 _ _ _. eapply (Ht s2 _ (ce_addr e)); [exact HI2|by apply insert_subseteq|exact EA'|rewrite EH2; by rewrite lookup_insert_eq|].
      simpl. by exists [].
Qed.

(** ** The task of the listening handler's pool *)

(** The task takes its handler out of the list of those that wait. *)
Definition run_task (h : haddr) (hs : handshake) (nonblock : bool) : VM unit :=
  modS (fun s => set_tasks (filter (fun x => x <> h) (sv_tasks s)) s);;
  accept_task h hs nonblock.

(** Once the manager has accepted the connection, the last message can be sent and the socket
    be made non-blocking. *)
Definition task_ok (s : svc) (h : haddr) (hs : handshake) (nonblock : bool) : Prop :=
  h ∈ sv_tasks s /\ match hs with HsFails => True | HsAsks _ sent => sent = true /\ nonblock = true end.

Lemma waiting_enters s A h hd hd' : svc_inv s A ∅ None -> sv_handlers s !! h = Some hd -> h ∈ sv_tasks s ->
  h_kind hd' = Connection -> h_fd hd' = h_fd hd -> h_real hd' = h_real hd -> enters (sv_handlers s) (sv_tasks s) A h hd'.
Proof.
  intros HI E HT K F Re. pose proof (si_wf HI) as Hwf. destruct (wf_tasks Hwf _ HT) as (hd0 & E0 & K0). simplify_eq.
  destruct (wf_place Hwf _ _ E K0) as [_ _ Ho _ Hnr|? ? HnT|? ? HnT|? ? HnT]; [|done..]. split; [done| | | |done].
  - intros hd0 ?. simplify_eq. by rewrite F.
  - intros x hx Ex Fx. eapply (wf_fds Hwf); [done|done|congruence].
  - intros x hx Ex Hx Rx. eapply (wf_reals Hwf); [done|done|done|by left|congruence].
Qed.

Lemma run_task_spec s A h hs nonblock Q : svc_inv s A ∅ None -> task_ok s h hs nonblock ->
  (forall s' A', svc_inv s' A' ∅ None -> A ⊆ A' -> Q tt s') -> wpc (run_task h hs nonblock) s Q throws.
Proof.
  intros HI [HT Hok] Hq. pose proof (si_wf HI) as Hwf. destruct (wf_tasks Hwf _ HT) as (hd & E & K).
  unfold run_task, accept_task. apply wpc_mod.
  set (T' := filter (fun x => x <> h) (sv_tasks s)).
  assert (forall x, x ∈ T' <-> x ∈ sv_tasks s /\ x <> h) as HT' by (intros x; unfold T'; rewrite list_elem_of_filter; tauto).
  assert (NoDup T') as HN' by (apply list.NoDup_filter, Hwf).
  assert (forall m, represents m A -> forall hd1, svc_inv (set_handlers (delete h (<[h := hd1]> (sv_handlers s))) (set_mgr m (set_tasks T' s))) A ∅ None) as Hdrop.
  { intros m Hm hd1. eapply svc_inv_change; [exact HI|exact Hm|apply HI| |done..]. simpl. rewrite delete_insert_eq. by eapply wf_drop_task. }
  destruct hs as [|port sent]; simpl.
  - apply wpc_bind, wpc_ret. simpl. eapply delete_handler_run; [done|]. eapply (Hq _ A); [|done].
    specialize (Hdrop (m_sspMgr s) (si_mgr HI) hd). rewrite insert_id in Hdrop by done. by destruct s.
  - destruct Hok as [-> ->]. apply wpc_bind. eapply wpc_on_handler; [done|]. simpl.
    set (hd1 := SetLogicPeerInfo _ hd).
    assert (enters (sv_handlers s) (sv_tasks s) A h hd1) as Hen by (by eapply waiting_enters).
    assert (h_ref hd = 1) as Er by (destruct (wf_place Hwf _ _ E K) as [|? ? HnT|? ? HnT|? ? HnT]; done).
    eapply on_logic_connect_spec; simpl; [apply HI|apply HI|apply HI|by rewrite lookup_insert_eq|by eapply enters_addable| |].
    + intros EA m Hm Hd. apply wpc_ret. simpl. unfold on_stack_connect. apply wpc_get. simpl. rewrite (si_running HI).
      eapply (AddEvent_spec s _ A h hd1); [exact HI|exact Hen|done|exact EA|exact Hm|exact Hd|done|done|exact HT'|exact HN'|done|done|done|auto with flykv|].
      intros s' i HI' _. eapply Hq; [exact HI'|]. by apply insert_subseteq.
    + intros _ m Hm. apply wpc_ret. simpl. eapply delete_handler_run; [simpl; by rewrite lookup_insert_eq|]. eapply (Hq _ A); [|done].
      specialize (Hdrop m Hm hd1). by destruct s.
Qed.
