(* ===== verification/ServiceTheorems.v ===== *)
(** * The socket service over its life

    The service from [Start] on, through any sequence of calls of its users, of the tasks of
    the listening handler's pool and of rounds of its workers. *)

From S2P Require Import Prelude Posix Net ConnMgr EventLoop SocketService ServiceInv ServiceOps ServiceRound ServiceOpen.
Import UniqueWorkerManager.

(** ** Start *)

Lemma new_epoll fd a : ew_epoll (EventWorker_new fd a) = {[fd := MkEE a (EpollEventDriver.add_events EVENT_READ)]}.
Proof. unfold EventWorker_new, EpollEventDriver.AddEvent, epoll_ctl. simpl. by rewrite lookup_empty. Qed.

(** A new worker with the handler of its pipe. *)
Lemma wf_new_worker H W T A P B fd a : wf H W T A P B -> H !! a = None -> (forall x hx, H !! x = Some hx -> h_fd hx <> fd) ->
  wf (<[a := MkFEH LocalRead fd 1 None net_peer_info_default net_peer_info_default []]> H) (W ++ [EventWorker_new fd a]) T A P B.
Proof.
  intros Hwf Ea Hfd. pose proof Hwf as [Hp Hr Ht Hn Hpd Hf Hrl Hw]. set (hl := MkFEH LocalRead _ _ _ _ _ _).
  pose proof (grows_new H a hl Ea) as G.
  assert (forall i w, W !! i = Some w -> (W ++ [EventWorker_new fd a]) !! i = Some w) as HW by (intros i w; apply lookup_app_l_Some).
  assert (forall h, (h ∈ T \/ registered A h) -> h <> a) as Hold.
  { intros h [Hh|(l & r & Hh)] ->; [destruct (Ht _ Hh) as (? & ? & _)|destruct (Hr _ _ _ Hh) as (? & ? & _)]; congruence. }
  split; try done.
  - intros h hd [[<- <-]|[_ E]]%lookup_insert_Some K; [done|]. destruct (Hp _ _ E K); [by apply pl_waiting|..].
    + eapply pl_registered; eauto.
    + eapply pl_condemned; eauto.
    + eapply pl_deleting; eauto.
  - intros l h r EA. destruct (Hr _ _ _ EA) as (hd & E & ?). exists hd. rewrite lookup_insert_ne; [done|]. congruence.
  - intros h Hh. destruct (Ht _ Hh) as (hd & E & K). exists hd. rewrite lookup_insert_ne; [done|]. congruence.
  - intros h Hh. destruct (Hpd _ Hh) as (hd & E & K). exists hd. rewrite lookup_insert_ne; [done|]. congruence.
  - intros h h' hd hd' [[<- <-]|[_ E]]%lookup_insert_Some [[<- <-]|[_ E']]%lookup_insert_Some F; [done| | |by eapply Hf].
    + by destruct (Hfd _ _ E').
    + by destruct (Hfd _ _ E).
  - intros h h' hd hd' E E' Hh Hh'. rewrite lookup_insert_ne in E, E' by (symmetry; by apply Hold). by eapply Hrl.
  - intros i w [Ei|[_ [_ <-]%list_lookup_singleton_Some]]%lookup_app_Some; [by eapply wf_worker_grows; [|apply Hw]|].
    assert (<[a := hl]> H !! a = Some hl) as El by (by rewrite lookup_insert_eq).
    split; [done|by exists hl|set_solver|set_solver|set_solver|apply NoDup_nil_2|].
    rewrite new_epoll. intros fd' ee [<- <-]%lookup_singleton_Some. by exists hl.
Qed.

(** The handler of the listening socket is to be registered with worker [i]. *)
Lemma wf_listen H W A P B fd a i w : wf H W [] A P B -> H !! a = None -> (forall x hx, H !! x = Some hx -> h_fd hx <> fd) -> W !! i = Some w ->
  wf (<[a := MkFEH Listener fd 1 (Some i) net_peer_info_default net_peer_info_default []]> H)
    (<[i := AddExternalEpAddEvent a EVENT_NONE EVENT_READ w]> W) [] A P B.
Proof.
  intros Hwf Ea Hfd Ei. pose proof Hwf as [Hp Hr Ht Hn Hpd Hf Hrl Hw]. set (hl := MkFEH Listener _ _ _ _ _ _).
  pose proof (grows_new H a hl Ea) as G. pose proof (Hw _ _ Ei) as Hwi.
  assert (forall h, registered A h -> h <> a) as Hold.
  { intros h (l & r & Hh) ->. destruct (Hr _ _ _ Hh) as (? & ? & _). congruence. }
  assert (ew_epoll w !! fd = None) as Hnp.
  { destruct (ew_epoll w !! fd) as [ee|] eqn:Ee; [|done]. destruct (ww_poll _ _ _ Hwi _ _ Ee) as (hx & Ex & Fx & _). by destruct (Hfd _ _ Ex). }
  assert (a ∉ adds_of w) as Hna.
  { intros (b & -> & Hb)%list_elem_of_fmap. destruct (ww_add _ _ _ Hwi _ Hb) as (_ & hx & Ex & _). congruence. }
  assert (adds_of (AddExternalEpAddEvent a EVENT_NONE EVENT_READ w) = adds_of w ++ [a]) as Eadds by (unfold adds_of; simpl; by rewrite map_app).
  split; try done.
  - intros h hd [[<- <-]|[Hne E]]%lookup_insert_Some K; [done|].
    eapply place_other; [done|done|done|done|done|done| | | | |by apply Hp]; simpl; try done. rewrite Eadds. set_solver.
  - intros l h r EA. destruct (Hr _ _ _ EA) as (hd & E & ?). exists hd. rewrite lookup_insert_ne; [done|]. congruence.
  - by intros h ?%not_elem_of_nil.
  - intros h Hh. destruct (Hpd _ Hh) as (hd & E & K). exists hd. rewrite lookup_insert_ne; [done|]. congruence.
  - intros h h' hd hd' [[<- <-]|[_ E]]%lookup_insert_Some [[<- <-]|[_ E']]%lookup_insert_Some F; [done| | |by eapply Hf].
    + by destruct (Hfd _ _ E').
    + by destruct (Hfd _ _ E).
  - intros h h' hd hd' E E' [?%not_elem_of_nil|Hh] [?%not_elem_of_nil|Hh']; try done.
    rewrite lookup_insert_ne in E, E' by (symmetry; by apply Hold). eapply Hrl; [done|done|by right..].
  - intros j v Ej. destruct (insert_cases Ei _ Ej) as [[-> ->]|[Hne Ej']]; [|by eapply wf_worker_grows; [|apply Hw]].
    destruct (wf_worker_grows _ _ _ _ G Hwi) as [W1 W2 W3 W4 W5 W6 W7]. split; try done.
    + simpl. intros b [Hb| ->%list_elem_of_singleton]%elem_of_app; [by apply W5|]. split; [done|]. exists hl. simpl. by rewrite lookup_insert_eq.
    + rewrite Eadds. apply list.NoDup_app. split; [done|]. split; [set_solver|apply NoDup_singleton].
Qed.

(** Descriptors and addresses that are different, and those of no live object. *)
Definition fresh_at (H : gmap haddr handler) (p : Z * haddr) : Prop := H !! p.2 = None /\ forall x hx, H !! x = Some hx -> h_fd hx <> p.1.

Lemma start_workers_spec pipes s Q R : wf (sv_handlers s) (sv_workers s) [] ∅ ∅ None -> NoDup pipes.*1 -> NoDup pipes.*2 ->
  (forall p, p ∈ pipes -> fresh_at (sv_handlers s) p) ->
  (forall H', let W' := sv_workers s ++ map (fun p => EventWorker_new p.1 p.2) pipes in
     wf H' W' [] ∅ ∅ None -> (forall p, p.1 ∉ pipes.*1 -> p.2 ∉ pipes.*2 -> fresh_at (sv_handlers s) p -> fresh_at H' p) ->
     Q tt (set_workers W' (set_handlers H' s))) ->
  wpc (start_workers pipes) s Q R.
Proof.
  revert s. induction pipes as [|[fd a] pipes IH]; intros s Hwf N1 N2 Hfr Hq; simpl.
  { apply wpc_ret. specialize (Hq (sv_handlers s)). simpl in Hq. rewrite app_nil_r in Hq.
    replace (set_workers _ _) with s in Hq by (by destruct s). by apply Hq. }
  simpl in N1, N2. apply list.NoDup_cons in N1 as [Nfd N1], N2 as [Na N2]. destruct (Hfr (fd, a)) as [Ea Hfd]; [by left|].
  apply wpc_mod, wpc_mod. apply IH; simpl; [by apply wf_new_worker|done|done| |].
  - intros [fd' a'] Hin. destruct (Hfr (fd', a')) as [Ea' Hfd']; [by right|]. simpl in *.
    assert (fd' <> fd) by (intros ->; apply Nfd, list_elem_of_fmap; by exists (fd, a')).
    assert (a' <> a) by (intros ->; apply Na, list_elem_of_fmap; by exists (fd', a)).
    split; simpl; [by rewrite lookup_insert_ne|]. intros x hx [[<- <-]|[_ Ex]]%lookup_insert_Some; [simpl; congruence|by eapply Hfd'].
  - intros H' Hwf' Hold. specialize (Hq H'). simpl in Hq. rewrite <- app_assoc in Hwf'. simpl in Hwf'.
    replace (set_workers _ _) with (set_workers (sv_workers s ++ EventWorker_new fd a :: map (λ p : Z * Z, EventWorker_new p.1 p.2) pipes) (set_handlers H' s))
      by (rewrite <- app_assoc; by destruct s).
    apply Hq; [done|]. intros [fd' a'] [H1 H3]%not_elem_of_cons [H2 H4]%not_elem_of_cons [F1 F2]. simpl in *. apply Hold; [done|done|].
    split; simpl; [by rewrite lookup_insert_ne|]. intros x hx [[<- <-]|[_ Ex]]%lookup_insert_Some; [simpl; congruence|by eapply F2].
Qed.

(** The descriptors and addresses [Start] gets are different ones, and there are workers. *)
Definition start_pairs (pipes : list (Z * haddr)) (listen : option ((Z * haddr) * Z * haddr)) : list (Z * haddr) :=
  pipes ++ match listen with Some (pipe, fd, h) => [pipe; (fd, h)] | None => [] end.
Record start_ok (pipes : list (Z * haddr)) (listen : option ((Z * haddr) * Z * haddr)) : Prop := {
  so_fds : NoDup (start_pairs pipes listen).*1;
  so_addrs : NoDup (start_pairs pipes listen).*2;
  so_cnt : 0 < zlen pipes < 2147483648
}.

Lemma wf_empty : wf ∅ [] [] ∅ ∅ None.
Proof.
  split; try apply NoDup_nil_2; try (intros ? ?; by rewrite lookup_empty); try (intros ? ? ?; by rewrite lookup_empty);
    try (intros ? ? ? ?; by rewrite lookup_empty); set_solver.
Qed.

#[local] Arguments start_workers : simpl never.
Lemma svc_start_spec timeout pipes listen : start_ok pipes listen ->
  wpc (Start pipes listen) (service_new timeout) (fun b s => b = true /\ svc_inv s ∅ ∅ None) (fun _ _ => False).
Proof.
  intros [N1 N2 Hcnt]. unfold Start. apply wpc_get. simpl. apply wpc_mod, wpc_mod. apply wpc_bind.
  unfold start_pairs in *. rewrite !fmap_app in *. apply list.NoDup_app in N1 as (N1 & D1 & N1'), N2 as (N2 & D2 & N2').
  eapply start_workers_spec; [apply wf_empty|done|done|done|]. simpl. intros H1 Hwf1 Hold1.
  assert (forall p : Z * haddr, fresh_at ∅ p) as Hfr0 by done.
  assert (forall H W s, wf H W [] ∅ ∅ None -> zlen pipes <= zlen W -> sv_handlers s = H -> sv_workers s = W -> sv_tasks s = [] ->
    m_iConnWorkersCnt s = zlen pipes -> m_iCurWorkerIdx s = -1 -> m_sspMgr s = new -> m_bStopped s = false -> svc_inv s ∅ ∅ None) as Hinv.
  { intros H W s Hwf HW EH EW E1 E2 E3 E4 E5. split; rewrite ?EH, ?EW, ?E1, ?E2, ?E3, ?E4; try done; try lia; apply new_represents. }
  destruct listen as [[[[pfd pa] fd] h]|].
  2: { apply wpc_ret. split; [done|]. eapply Hinv; [exact Hwf1| |done..]. unfold zlen. by rewrite length_map. }
  simpl in N1', N2'. apply list.NoDup_cons in N1' as [N1' _], N2' as [N2' _].
  assert (forall x, x ∈ ([pfd; fd] : list Z) -> x ∉ pipes.*1) as M1 by (intros x Hx Hx'; by apply (D1 x)).
  assert (forall x, x ∈ ([pa; h] : list haddr) -> x ∉ pipes.*2) as M2 by (intros x Hx Hx'; by apply (D2 x)).
  apply wpc_bind. eapply start_workers_spec; [done|apply NoDup_singleton|apply NoDup_singleton| |].
  { intros p ->%list_elem_of_singleton. apply Hold1; [apply M1; by left|apply M2; by left|done]. }
  simpl. set (W2 := _ ++ _). intros H2 Hwf2 Hold2.
  assert (length (map (λ p : Z * Z, EventWorker_new p.1 p.2) pipes) = length pipes) as EL by apply length_map.
  assert (W2 !! length pipes = Some (EventWorker_new pfd pa)) as Ei by (unfold W2; rewrite lookup_app_r by lia; by rewrite EL, Nat.sub_diag).
  destruct (Hold2 (fd, h)) as [Fa Ffd]; simpl; [set_solver|set_solver| |].
  { apply Hold1; simpl; [apply M1; set_solver|apply M2; set_solver|done]. }
  apply wpc_mod. eapply wpc_on_worker; [exact Ei|]. apply wpc_bind.
  eapply wpc_wake; [simpl; by eapply insert_same|by apply room_may_throw|]. intros _. apply wpc_ret. split; [done|]. simpl. rewrite list_insert_insert_eq.
  eapply Hinv; [| |done..]; simpl.
  - rewrite <- (list_insert_insert_eq _ (length pipes) _ (AddExternalEpAddEvent h EVENT_NONE EVENT_READ (EventWorker_new pfd pa))).
    apply (wf_pipe _ _ _ _ _ _ _ (AddExternalEpAddEvent h EVENT_NONE EVENT_READ (EventWorker_new pfd pa))); [by eapply insert_same|simpl; lia|].
    by apply wf_listen.
  - unfold zlen. rewrite length_insert. unfold W2. rewrite length_app, length_map. lia.
Qed.

(** ** Calls *)

Inductive svc_call :=
  | CallNewId
  | CallSend (m : SndMessage) (e : connect_env)
  | CallDisconnect (peer : net_peer_info)
  | CallTask (h : haddr) (hs : handshake) (nonblock : bool)
  | CallRound (i : nat) (events : list NetEvent) (accepts : list accept_out) (io : list io_out).

(** [SndMessage::GetNewId], with its static counter *)
Definition svc_GetNewId : VM Z := fun s =>
  let i := u64 (sv_lastId s + 1) in
  let i := if i =? 18446744073709551615 then 1 else i in
  (Ok i, set_svcId i s).

Definition run_call (c : svc_call) : VM unit :=
  match c with
  | CallNewId => svc_GetNewId;; mret tt
  | CallSend m e => SendMessage m e;; mret tt
  | CallDisconnect peer => Disconnect peer;; mret tt
  | CallTask h hs nonblock => run_task h hs nonblock
  | CallRound i events accepts io => modS (set_accepts accepts);; modS (set_io io);; worker_round i events
  end.

(** ** What the calls rely on *)

(** A new object has an address and a descriptor of its own, and comes from a real peer that
    no connection has which waits for its handshake or is registered. *)
Record fresh (s : svc) (h fd : Z) (r : net_peer_info) : Prop := {
  fr_addr : sv_handlers s !! h = None;
  fr_fd : forall x hx, sv_handlers s !! x = Some hx -> h_fd hx <> fd;
  fr_real : forall x hx, sv_handlers s !! x = Some hx ->
    (x ∈ sv_tasks s \/ exists l, lookup_worker l (m_sspMgr s) = Some x) -> h_real hx <> r
}.

(** The kernel reports what a worker polls, a writable descriptor only where it was asked to. *)
Definition polled_event (w : EventWorker) (e : NetEvent) : Prop :=
  exists fd ee, ew_epoll w !! fd = Some ee /\ ee_ptr ee = ne_eh e /\
    (has (ne_mask e) EVENT_WRITE = true -> has (ee_events ee) EPOLLOUT = true).

Definition benign (s : svc) (c : svc_call) : Prop :=
  match c with
  | CallNewId => True
  | CallSend m e =>
      np_sp (snd_peer m) = Tcp /\
      (lookup_worker (snd_peer m) (m_sspMgr s) = None ->
       (forall fd, ce_socket e = Some fd -> fresh s (ce_addr e) fd (snd_peer m)) /\ (ce_hs e <> HsFails -> ce_nonblock e = true))
  | CallDisconnect peer =>
      (** its worker has registered the connection with epoll *)
      forall h hd i w, lookup_worker peer (m_sspMgr s) = Some h -> sv_handlers s !! h = Some hd -> h_own hd = Some i ->
        sv_workers s !! i = Some w -> h ∉ adds_of w
  | CallTask h hs nonblock => task_ok s h hs nonblock
  | CallRound i events accepts io =>
      (exists w, sv_workers s !! i = Some w /\ forall e, e ∈ events -> polled_event w e) /\
      (forall fd a p, (fd, a, p) ∈ accepted accepts -> fresh s a fd p) /\
      NoDup (accepted accepts).*1.*1 /\ NoDup (accepted accepts).*1.*2 /\ NoDup (accepted accepts).*2 /\
      (forall e, AcceptError e ∈ accepts -> e = EAGAIN \/ e = EINTR \/ e = ECONNABORTED)
  end.

Inductive service_reachable : svc -> Prop :=
  | sr_start timeout pipes listen b s : start_ok pipes listen -> Start pipes listen (service_new timeout) = (Ok b, s) -> service_reachable s
  | sr_call s c a s' : service_reachable s -> benign s c -> run_call c s = (Ok a, s') -> service_reachable s'.

(** ** They keep the invariant *)

Lemma fresh_conn_of s A P B h fd r : svc_inv s A P B -> fresh s h fd r -> fresh_conn (sv_handlers s) (sv_tasks s) A h fd r.
Proof.
  intros HI [H1 H2 H3]. split; [done|done|]. intros x hx Ex Hx. eapply H3; [done|]. destruct Hx as [?|(l & r' & EA)]; [by left|].
  right. exists l. by rewrite (lookup_refines _ _ (si_mgr HI)), EA.
Qed.

Lemma polled_reported s A P B i w e : svc_inv s A P B -> sv_workers s !! i = Some w -> polled_event w e -> reported (sv_handlers s) i e.
Proof.
  intros HI Ei (fd & ee & Ee & Ep & Hm). destruct (ww_poll _ _ _ (wf_works (si_wf HI) _ _ Ei) _ _ Ee) as (hd & E & _ & K).
  rewrite Ep in E. exists hd. split; [done|]. destruct (h_kind hd); [..|done]; destruct (has (ne_mask e) EVENT_WRITE); try done;
    by rewrite Hm in K.
Qed.

Lemma CallRound_spec s A i events accepts io w Q : svc_inv s A ∅ None -> benign s (CallRound i events accepts io) -> sv_workers s !! i = Some w ->
  (forall s' A', svc_inv s' A' ∅ None -> (forall h, h ∈ m_lDelEpExtEvents w -> sv_handlers s' !! h = None) ->
     (forall h, h ∉ m_lDelEpExtEvents w -> is_Some (sv_handlers s !! h) -> is_Some (sv_handlers s' !! h)) -> Q tt s') ->
  wpc (run_call (CallRound i events accepts io)) s Q throws.
Proof.
  intros HI ((w' & Ei' & Hev) & Hac & N1 & N2 & N3 & Her) Ei Hq. rewrite Ei in Ei'. injection Ei' as <-. apply wpc_mod, wpc_mod.
  apply (worker_round_spec _ A i w); [|done| | |].
  - eapply svc_inv_change; [exact HI|apply HI..|done|done|done|done].
  - intros e He. simpl. by eapply polled_reported; [|by apply Ei|apply Hev].
  - simpl. split; try done. intros fd a p Hin. by eapply fresh_conn_of, Hac.
  - simpl. intros s' A' HI' _. by apply (Hq s' A').
Qed.

Lemma run_call_spec s A c : svc_inv s A ∅ None -> benign s c -> wpc (run_call c) s (fun _ s' => exists A', svc_inv s' A' ∅ None) throws.
Proof.
  intros HI Hb. destruct c as [|m e|peer|h hs nonblock|i events accepts io].
  - apply wpc_bind. unfold wpc, svc_GetNewId. exists A. eapply svc_inv_change; [exact HI|apply HI..|done|done|done|done].
  - destruct Hb as [Hsp Hco]. apply wpc_bind. eapply SendMessage_spec; [done|done| | |].
    + intros EA. destruct Hco as [H1 H2]; [by rewrite (lookup_refines _ _ (si_mgr HI)), EA|]. split; [|done].
      intros fd Efd. by eapply fresh_conn_of, H1.
    + intros s' HI' _ _. apply wpc_ret. by exists A.
    + intros s' A' h r hd HI' _ _ _ _. apply wpc_ret. by exists A'.
  - apply wpc_bind. eapply Disconnect_spec; [done| | |].
    + intros h r EA hd i w E Eo Ei. split; [|auto with flykv]. eapply Hb; [|done..]. by rewrite (lookup_refines _ _ (si_mgr HI)), EA.
    + intros _. apply wpc_ret. by exists A.
    + intros s' _ HI'. apply wpc_ret. by eexists.
  - eapply run_task_spec; [done|done|]. intros s' A' HI' _. by exists A'.
  - pose proof Hb as [(w & Ei & _) _]. eapply CallRound_spec; [done..|]. intros s' A' HI' _ _. by exists A'.
Qed.

Lemma service_inv_of s : service_reachable s -> exists A, svc_inv s A ∅ None.
Proof.
  induction 1 as [timeout pipes listen b s Hok E|s c a s' _ [A HI] Hb E].
  - pose proof (svc_start_spec timeout pipes listen Hok) as Hs. unfold wpc in Hs. rewrite E in Hs. exists ∅. by apply Hs.
  - pose proof (run_call_spec s A c HI Hb) as Hs. unfold wpc in Hs. by rewrite E in Hs.
Qed.


(** A service with a worker and a listening socket that has sent a message, to be used below. *)
Definition far_peer : net_peer_info := MkPeer "10.0.0.7" 4000 Tcp.
Definition far_calls : connect_calls := MkCalls true None SelectReady 0 (Some 0) true.
Definition far_env : connect_env := MkEnv (Some 6) far_calls 20 (HsAsks 7000 true) true.
Definition far_msg : SndMessage := MkSnd 1 far_peer (MkDerive 0 Some).
Definition demo_started : svc := (Start [(3, 1)] (Some ((4, 2), 5, 10)) (service_new 5)).2.
Definition demo_sent : svc := (run_call (CallSend far_msg far_env) demo_started).2.
Definition demo_round : svc_call := CallRound 0 [] [] [].
Definition demo_polled : svc := (run_call demo_round demo_sent).2.
Definition demo_closed : svc := (run_call (CallDisconnect far_peer) demo_polled).2.

Lemma demo_start_ok : start_ok [(3, 1)] (Some ((4, 2), 5, 10)).
Proof. split; [apply (bool_decide_unpack _); by vm_compute..|done]. Qed.

(** A fresh address, descriptor and peer, decided. *)
Lemma fresh_decide s h fd r : sv_handlers s !! h = None ->
  bool_decide (map_Forall (fun _ hx => h_fd hx <> fd /\ h_real hx <> r) (sv_handlers s)) = true -> fresh s h fd r.
Proof.
  intros H1 H2%bool_decide_eq_true_1. split; [done| |].
  - intros x hx Ex. by apply (H2 x hx).
  - intros x hx Ex _. by apply (H2 x hx).
Qed.

Lemma reachable_run s c : service_reachable s -> benign s c -> (run_call c s).1 = Ok tt -> service_reachable (run_call c s).2.
Proof. intros Hs Hb E. eapply (sr_call s c tt); [done|done|]. destruct (run_call c s). simpl in *. by subst. Qed.

Lemma demo_started_reachable : service_reachable demo_started.
Proof. apply (sr_start 5 [(3, 1)] (Some ((4, 2), 5, 10)) true); [exact demo_start_ok|]. by vm_compute. Qed.
Lemma demo_send_benign : benign demo_started (CallSend far_msg far_env).
Proof. split; [done|]. intros _. split; [|done]. intros fd [= <-]. by apply fresh_decide; vm_compute. Qed.
Lemma demo_sent_reachable : service_reachable demo_sent.
Proof. apply reachable_run; [exact demo_started_reachable|exact demo_send_benign|by vm_compute]. Qed.
Lemma idle_benign s i : is_Some (sv_workers s !! i) -> benign s (CallRound i [] [] []).
Proof.
  intros [w Ei]. simpl. split_and!; try apply NoDup_nil_2.
  - exists w. split; [done|]. by intros e ?%not_elem_of_nil.
  - by intros fd a p ?%not_elem_of_nil.
  - by intros e ?%not_elem_of_nil.
Qed.


(** A round of a worker that returns has deleted every connection that was in
    the worker's list of deletions when it began, and no other object of the service. *)
Theorem round_deletes (s s' : svc) (i : nat) (w : EventWorker) (events : list NetEvent) (accepts : list accept_out) (io : list io_out)
    (Hs : service_reachable s) (Hc : benign s (CallRound i events accepts io)) (Hw : sv_workers s !! i = Some w)
    (Hr : run_call (CallRound i events accepts io) s = (Ok tt, s')) (h : haddr) (Hh : is_Some (sv_handlers s !! h)) :
  sv_handlers s' !! h = None <-> h ∈ m_lDelEpExtEvents w.
Proof.
  destruct (service_inv_of s Hs) as [A HI].
  pose proof (CallRound_spec s A i events accepts io w (fun _ s' => (forall h, h ∈ m_lDelEpExtEvents w -> sv_handlers s' !! h = None) /\
     (forall h, h ∉ m_lDelEpExtEvents w -> is_Some (sv_handlers s !! h) -> is_Some (sv_handlers s' !! h))) HI Hc Hw ltac:(by intros)) as H.
  unfold wpc in H. rewrite Hr in H. destruct H as [H1 H2]. split; [|apply H1]. intros E. destruct (decide (h ∈ m_lDelEpExtEvents w)) as [|Hn]; [done|].
  destruct (H2 h Hn Hh) as [hd E']. congruence.
Qed.

Lemma demo_polled_reachable : service_reachable demo_polled.
Proof. apply reachable_run; [exact demo_sent_reachable|apply idle_benign, (bool_decide_unpack _); by vm_compute|by vm_compute]. Qed.
Lemma demo_closed_reachable : service_reachable demo_closed.
Proof.
  apply reachable_run; [exact demo_polled_reachable| |by vm_compute]. simpl. intros h hd i w Eh E Eo Ei.
  vm_compute in Eh. injection Eh as <-. vm_compute in E. injection E as <-. injection Eo as <-. vm_compute in Ei. injection Ei as <-.
  apply (bool_decide_unpack _). by vm_compute.
Qed.

Lemma round_deletes_witness : sv_handlers (run_call demo_round demo_closed).2 !! 20 = None.
Proof.
  destruct (sv_workers demo_closed !! 0%nat) as [w|] eqn:Ew; [|by vm_compute in Ew].
  apply (round_deletes demo_closed _ 0 w [] [] [] demo_closed_reachable).
  - apply idle_benign. by rewrite Ew.
  - exact Ew.
  - by vm_compute.
  - apply (bool_decide_unpack _). by vm_compute.
  - vm_compute in Ew. injection Ew as <-. apply (bool_decide_unpack _). by vm_compute.
Defined.
