(* ===== verification/ServiceEdges.v ===== *)
(** * Where the socket service breaks

    Runs from reachable states that meet what [service_safe] excludes, or interleave more
    finely than its calls. *)

From S2P Require Import Prelude Posix Net ConnMgr EventLoop SocketService ServiceInv ServiceOps ServiceRound ServiceOpen ServiceTheorems.
Import UniqueWorkerManager.

Notation "c1 ▷ c2" := (c1;; c2) (at level 90, right associativity, only parsing).

(** A peer is disconnected before its worker has registered the connection with epoll: the
    next round deletes the handler and then takes it from the list of registrations. *)
Theorem early_disconnect_is_use_after_free :
  service_reachable demo_sent /\ (run_call (CallDisconnect far_peer) demo_sent).1 = Ok tt /\
  ((run_call (CallDisconnect far_peer) ▷ run_call demo_round) demo_sent).1 = Prelude.Stop Undefined.
Proof. split; [exact demo_sent_reachable|]. split; by vm_compute. Qed.

(** The server's side of a handshake registers the connection before it sends its last
    message.  Where that cannot be sent the handler is deleted, and the manager still has it:
    the next message for the peer goes to the deleted handler. *)
Definition demo_accepted : svc := (run_call (CallRound 1 [MkNetEvent 10 EVENT_READ] [Accepted 7 30 (MkPeer "10.0.0.8" 5000 Tcp)] []) (run_call (CallRound 1 [] [] []) demo_started).2).2.
Definition near_peer : net_peer_info := MkPeer "10.0.0.8" 9000 Tcp.
Theorem failed_handshake_is_use_after_free :
  sv_tasks demo_accepted = [30] /\
  (run_task 30 (HsAsks 9000 false) true demo_accepted).1 = Ok tt /\
  ((run_task 30 (HsAsks 9000 false) true ▷ SendMessage (MkSnd 1 near_peer (MkDerive 0 Some)) far_env) demo_accepted).1 = Prelude.Stop Undefined.
Proof. split_and!; by vm_compute. Qed.

(** Three threads send at the same time: each takes a reference, and the first two give
    theirs back.  [GetRef] of the first one leaves only the last bit of the counter, 3; the
    second one finds it 0 and leaves the connection for deletion, though it is registered and
    the third thread uses it. *)
Definition three_senders : VM unit :=
  GetWorkerEventHandlerWithRef far_peer ▷ GetWorkerEventHandlerWithRef far_peer ▷ GetWorkerEventHandlerWithRef far_peer ▷
  Release 20 ▷ Release 20.
Theorem three_senders_lose_the_connection :
  service_reachable demo_polled /\ (three_senders demo_polled).1 = Ok tt /\
  lookup_worker far_peer (m_sspMgr (three_senders demo_polled).2) = Some 20 /\
  ((three_senders ▷ run_call demo_round ▷ worker_SendMessage 20 far_msg) demo_polled).1 = Prelude.Stop Undefined.
Proof. split; [exact demo_polled_reachable|]. split_and!; by vm_compute. Qed.

(** A connection is given up by its worker after the user has disconnected the peer and
    connected to it again: [on_finish] takes the new connection out of the manager, since both
    have the same peers, and nothing will delete its handler. *)
Definition reconnect : VM unit :=
  Disconnect far_peer ▷ SendMessage far_msg (MkEnv (Some 8) far_calls 21 (HsAsks 7000 true) true) ▷ mret tt.
Theorem finish_removes_the_new_connection :
  lookup_worker far_peer (m_sspMgr (reconnect demo_polled).2) = Some 21 /\
  let s := ((reconnect ▷ on_finish 20) demo_polled).2 in
  lookup_worker far_peer (m_sspMgr s) = None /\ is_Some (sv_handlers s !! 21) /\ 21 ∉ sv_tasks s /\
  Forall (fun w => 21 ∉ m_lDelEpExtEvents w) (sv_workers s).
Proof. split; [by vm_compute|]. simpl. split_and!; apply (bool_decide_unpack _); by vm_compute. Qed.

(** [select] leaves in the timeout what is left of it, and [Connect] gets the service's own:
    after connects that took five seconds in all the next one has no time. *)
Theorem connects_use_up_the_timeout :
  m_connectTimeout demo_started = 5 /\
  m_connectTimeout (run_call (CallSend far_msg (MkEnv (Some 6) (MkCalls true (Some EINPROGRESS) SelectReady 0 (Some 0) true) 20 (HsAsks 7000 true) true)) demo_started).2 = 0.
Proof. split; by vm_compute. Qed.

(** [Stop] deletes the registered connections; those in the lists of deletions stay. *)
Theorem stop_leaks_deleted_connections :
  service_reachable demo_closed /\ (Stop (Some 10) demo_closed).1 = Ok true /\ map_to_list (h_kind <$> sv_handlers (Stop (Some 10) demo_closed).2) = [(20, Connection)].
Proof. split; [exact demo_closed_reachable|]. split; by vm_compute. Qed.
