(* ===== verification/ServiceRpc.v ===== *)
(** * The socket service under the RPC layer

    [RpcServe] and [RpcKv] prove the server against what it needs of a socket service,
    [ISocketServiceLaws].  The service of [SocketService] is one: with a connection to the peer
    it queues every message at the end of the connection's queue.  So the server runs on it. *)

From S2P Require Import Prelude Codec Buffer Posix Files Records Entries KvEntries KvMap Wal Checkpoint MiniKV KvContracts KvRecovery KvTheorems.
From S2P Require Import BlockingQueue Net NetWorker NetRecv NetSend NetTheorems Rpc RpcServe RpcKv RpcTheorems.
From S2P Require Import ConnMgr EventLoop SocketService ServiceInv ServiceOps ServiceRound ServiceOpen ServiceTheorems.
Import UniqueWorkerManager.

(** The service runs and has a connection with [p] with the messages [q] in its queue; where
    the queue is empty the next message wakes the worker, and there is room in its pipe. *)
Definition connected (p : net_peer_info) (q : list SndMessage) (s : svc) : Prop :=
  service_reachable s /\
  exists h hd i w, lookup_worker p (m_sspMgr s) = Some h /\ sv_handlers s !! h = Some hd /\ h_msgs hd = q /\ h_own hd = Some i /\
    sv_workers s !! i = Some w /\ (q = [] -> ew_pipe w < PIPE_CAPACITY).

Lemma connected_registered p q s : connected p q s -> exists A h r hd i w, svc_inv s A ∅ None /\ A !! p = Some (h, r) /\
  sv_handlers s !! h = Some hd /\ h_msgs hd = q /\ h_own hd = Some i /\ sv_workers s !! i = Some w /\ (q = [] -> ew_pipe w < PIPE_CAPACITY).
Proof.
  intros (Hs & h & hd & i & w & El & E & Em & Eo & Ei & Hp). destruct (service_inv_of s Hs) as [A HI].
  rewrite (lookup_refines _ _ (si_mgr HI)) in El. destruct (A !! p) as [[h' r]|] eqn:EA; [|done]. injection El as ->.
  by exists A, h, r, hd, i, w.
Qed.

Lemma connected_id p q s : connected p q s -> wp svc_GetNewId s (fun _ s' => connected p q s').
Proof.
  intros (Hs & Hc). unfold wp, wpc, svc_GetNewId. split; [|exact Hc]. by eapply (sr_call s CallNewId tt).
Qed.

Lemma connected_send q m e s : np_sp (snd_peer m) = Tcp -> connected (snd_peer m) q s ->
  wp (SendMessage m e) s (fun rc s' => rc = true /\ connected (snd_peer m) (q ++ [m]) s').
Proof.
  intros Hsp Hc. destruct (connected_registered _ _ _ Hc) as (A & h & r & hd & i & w & HI & EA & E & Em & Eo & Ei & Hp).
  assert (benign s (CallSend m e)) as Hb.
  { split; [done|]. rewrite (lookup_refines _ _ (si_mgr HI)), EA. done. }
  assert (forall a s', SendMessage m e s = (Ok a, s') -> service_reachable s') as Hre.
  { intros a s' Er. eapply (sr_call s (CallSend m e) tt s'); [apply Hc|done|]. unfold run_call, mbind, M_bind. by rewrite Er. }
  assert (wpc (SendMessage m e) s (fun rc s' => rc = true /\ svc_inv s' A ∅ None /\
    sv_handlers s' !! h = Some (set_msgs (q ++ [m]) hd)) (fun _ _ => False)) as Hw.
  { eapply SendMessage_registered; [exact HI|done|exact EA|exact E|exact Eo|exact Ei| |].
    - rewrite Em. intros Eq. by apply room_may_throw, Hp.
    - intros s' HI' EH _ _ _. split; [done|]. split; [done|]. by rewrite EH, lookup_insert_eq, Em. }
  unfold wp, wpc in *. destruct (SendMessage m e s) as [[rc|x] s'] eqn:Er; [|done]. destruct Hw as (-> & HI' & E').
  split; [done|]. split; [by eapply Hre|].
  destruct (registered_facts _ _ _ _ _ _ _ HI' EA) as (hd' & i' & w' & E2 & _ & _ & _ & _ & Eo' & Ei' & _). rewrite E' in E2. injection E2 as <-.
  exists h, (set_msgs (q ++ [m]) hd), i', w'. rewrite (lookup_refines _ _ (si_mgr HI')), EA. split_and!; try done. by destruct q.
Qed.

Lemma connected_protocol p q m e s : np_sp (snd_peer m) <> Tcp -> connected p q s -> (SendMessage m e s).1 = Prelude.Stop Aborted.
Proof.
  intros Hsp Hc. destruct (connected_registered _ _ _ Hc) as (A & _ & _ & _ & _ & _ & HI & _).
  unfold SendMessage, mbind, M_bind, getS. rewrite (si_running HI), bool_decide_eq_false_2 by done. done.
Qed.

(** The environments of the connects that sending may need, and what [Start] gets. *)
Section service.
Context (env : SndMessage -> connect_env) (pipes : list (Z * haddr)) (listen : option ((Z * haddr) * Z * haddr)).

Definition svc_service : ISocketService svc := {|
  ss_GetNewId := svc_GetNewId; ss_Start := Start pipes listen; ss_SendMessage := fun m => SendMessage m (env m)
|}.
Definition svc_laws : @ISocketServiceLaws svc svc_service :=
  @Build_ISocketServiceLaws svc svc_service connected connected_id (fun q m n => connected_send q m (env m) n)
    (fun p q m n => connected_protocol p q m (env m) n).
End service.

(** With a connection to a peer in a reachable state of the socket service,
    a message for the peer is accepted and queued on the connection behind the messages that
    are there, SendMessage does not fail or throw, and the connection stays; where the queue
    was empty the connection's worker has a write event for it and a byte in its pipe.  A
    message for a peer that is not a TCP peer ends the process by an exception.  This is the
    interface the RPC layer is proved against. *)
Theorem service_promise (p : net_peer_info) (q : list SndMessage) (m : SndMessage) (e : connect_env) (s : svc) (Hc : connected p q s) :
  (np_sp p = Tcp -> snd_peer m = p -> exists s', SendMessage m e s = (Ok true, s') /\ connected p (q ++ [m]) s' /\
     (q = [] -> exists h hd i w, lookup_worker p (m_sspMgr s') = Some h /\ sv_handlers s' !! h = Some hd /\ h_own hd = Some i /\
        sv_workers s' !! i = Some w /\ MkNetEvent h EVENT_WRITE ∈ m_lRwOpExtEvents w /\ 0 < ew_pipe w)) /\
  (np_sp (snd_peer m) <> Tcp -> (SendMessage m e s).1 = Prelude.Stop Aborted).
Proof.
  split; [|intros Hsp; by eapply connected_protocol]. intros Hsp <-.
  pose proof (connected_send q m e s Hsp Hc) as Hw.
  destruct (connected_registered _ _ _ Hc) as (A & h & r & hd & i & w & HI & EA & E & Em & Eo & Ei & Hp).
  assert (wpc (SendMessage m e) s (fun rc s' => q = [] -> exists h hd i w, lookup_worker (snd_peer m) (m_sspMgr s') = Some h /\
    sv_handlers s' !! h = Some hd /\ h_own hd = Some i /\ sv_workers s' !! i = Some w /\ MkNetEvent h EVENT_WRITE ∈ m_lRwOpExtEvents w /\
    0 < ew_pipe w) (fun _ _ => False)) as Hev.
  { eapply SendMessage_registered; [exact HI|done|exact EA|exact E|exact Eo|exact Ei| |].
    - rewrite Em. intros Eq. by apply room_may_throw, Hp.
    - intros s' HI' EH _ _ Hw'. intros Eq. destruct Hw' as (w' & Ew' & Hin & Hpos); [by rewrite Em|].
      exists h, (set_msgs (q ++ [m]) hd), i, w'. rewrite (lookup_refines _ _ (si_mgr HI')), EA, EH, lookup_insert_eq, Em. done. }
  unfold wp, wpc in Hw, Hev. destruct (SendMessage m e s) as [[rc|x] s'] eqn:Er; [|done]. destruct Hw as [-> Hc']. by exists s'.
Qed.

Lemma demo_connected : connected far_peer [far_msg] demo_sent.
Proof.
  split; [exact demo_sent_reachable|]. destruct (sv_handlers demo_sent !! 20) as [hd|] eqn:E; [|by vm_compute in E].
  destruct (sv_workers demo_sent !! 0%nat) as [w|] eqn:Ew; [|by vm_compute in Ew].
  exists 20, hd, 0%nat, w. vm_compute in E. injection E as <-. vm_compute in Ew. injection Ew as <-. split_and!; by vm_compute.
Qed.

Lemma service_promise_witness : exists s', SendMessage far_msg far_env demo_sent = (Ok true, s') /\ connected far_peer [far_msg; far_msg] s'.
Proof.
  destruct (service_promise far_peer [far_msg] far_msg far_env demo_sent demo_connected) as [H _].
  destruct H as (s' & E & Hs' & _); [reflexivity|reflexivity|]. exists s'. split; [exact E|exact Hs'].
Defined.

(** ** The store behind the service *)

Section stack.
Context `{MemAlloc} `{PbEntry} `{PbMessage} (host : byte_order) (strerror : Z -> list byte).
Context {W C : Type} `{!IWal W wal_entry, !IWalLaws W wal_entry} `{!ICheckpoint C, !ICheckpointLaws C}.
Context (env : SndMessage -> connect_env) (pipes : list (Z * haddr)) (listen : option ((Z * haddr) * Z * haddr)).
#[local] Instance stack_service : ISocketService svc := svc_service env pipes listen.
#[local] Instance stack_laws : ISocketServiceLaws svc := svc_laws env pipes listen.

End stack.

Section demo.
#[local] Existing Instance demo_pool.
#[local] Existing Instance demo_pb.
#[local] Existing Instance demo_pbm.
#[local] Existing Instance demo_iwal.
#[local] Existing Instance demo_icp.
#[local] Existing Instance demo_wal_laws.
#[local] Existing Instance demo_cp_laws.
#[local] Existing Instance demo_op.

#[local] Instance demo_service : ISocketService svc := svc_service (fun _ => far_env) [] None.

End demo.
