(* ===== verification/ThreadPool.v ===== *)
(** * The thread pool (src/sys/thread-pool.h)

    Threads take tasks from a blocking queue and run them; [WaitAll] waits until the queue is
    empty and no thread runs a task; the destructor lets the threads end by an empty task for
    each of them.  The threads interleave between their accesses to shared memory. *)

From S2P Require Import Prelude BlockingQueue.

(** A task by the number of its action; the empty task has none. *)
Notation task := (option Z) (only parsing).

(** Where a thread of [proc] is: in [Pop], with a task, before and after the call of its
    action, before [notify_one], ended. *)
Inductive proc_pc := PPop | PGot (t : task) | PRun (a : Z) | PDec | PNotify | PEnd.

#[global] Instance proc_pc_eq_dec : EqDecision proc_pc.
Proof. solve_decision. Defined.

(** Where a thread in [WaitAll] is: before the test of the queue, before the test of the
    counter, about to wait, in the wait, returned.  The mutex it holds is not taken by the
    threads of the pool. *)
Inductive wait_pc := WTest | WTest2 | WGo | WSleep | WDone.

#[global] Instance wait_pc_eq_dec : EqDecision wait_pc.
Proof. solve_decision. Defined.

(** [tp_left] is the number of empty tasks the destructor has still to add.  The last fields
    are a history: the tasks that were added, those a thread has taken, and those that were
    run to their end. *)
Record ThreadPool := MkPool {
  m_bqTasks : @BlockingQueue task;
  m_bStopping : bool;
  m_iActiveWorkersCnt : Z;
  m_vThreadps : list proc_pc;
  tp_waiters : list wait_pc;
  tp_left : option nat;
  tp_added : list Z;
  tp_taken : list Z;
  tp_done : list Z
}.

(** [ThreadPool(threads_cnt)] on a machine with [nprocs] processors *)
Definition ThreadPool_make (threads_cnt nprocs : Z) : ThreadPool :=
  let threads_cnt := if 0 <? threads_cnt then threads_cnt else u32 (u32 nprocs * 2) in
  MkPool (MkQ 0 []) false 0 (replicate (Z.to_nat threads_cnt) PPop) [] None [] [] [].

Definition set_thread i pc (p : ThreadPool) : ThreadPool :=
  MkPool (m_bqTasks p) (m_bStopping p) (m_iActiveWorkersCnt p) (<[i := pc]> (m_vThreadps p)) (tp_waiters p) (tp_left p) (tp_added p)
    (tp_taken p) (tp_done p).
Definition set_waiters ws (p : ThreadPool) : ThreadPool :=
  MkPool (m_bqTasks p) (m_bStopping p) (m_iActiveWorkersCnt p) (m_vThreadps p) ws (tp_left p) (tp_added p) (tp_taken p) (tp_done p).
Definition set_active n (p : ThreadPool) : ThreadPool :=
  MkPool (m_bqTasks p) (m_bStopping p) n (m_vThreadps p) (tp_waiters p) (tp_left p) (tp_added p) (tp_taken p) (tp_done p).

Definition action_of (t : task) : list Z := match t with Some a => [a] | None => [] end.

(** [AddTask]; the queue has no bound, so that [Push] returns. *)
Definition AddTask (t : task) (p : ThreadPool) : option ThreadPool :=
  match Push t (m_bqTasks p) with
  | Return _ q _ =>
      Some (MkPool q (m_bStopping p) (m_iActiveWorkersCnt p) (m_vThreadps p) (tp_waiters p) (tp_left p) (tp_added p ++ action_of t)
              (tp_taken p) (tp_done p))
  | Wait => None
  end.

(** The next piece of [proc] of thread [i], without the notification; [None] where it waits. *)
Definition proc (i : nat) (p : ThreadPool) : option ThreadPool :=
  match m_vThreadps p !! i with
  | Some PPop =>
      match Pop (m_bqTasks p) with
      | Return (RItem (Some t)) q _ =>
          Some (set_thread i (PGot t)
            (MkPool q (m_bStopping p) (m_iActiveWorkersCnt p) (m_vThreadps p) (tp_waiters p) (tp_left p) (tp_added p)
               (tp_taken p ++ action_of t) (tp_done p)))
      | _ => None
      end
  | Some (PGot t) =>
      if m_bStopping p then Some (set_thread i PEnd p)
      else
        match t with
        | Some a => Some (set_thread i (PRun a) (set_active (m_iActiveWorkersCnt p + 1) p))
        | None => Some (set_thread i PNotify p)
        end
  | Some (PRun a) =>
      Some (set_thread i PDec
        (MkPool (m_bqTasks p) (m_bStopping p) (m_iActiveWorkersCnt p) (m_vThreadps p) (tp_waiters p) (tp_left p) (tp_added p) (tp_taken p)
           (tp_done p ++ [a])))
  | Some PDec => Some (set_thread i PNotify (set_active (m_iActiveWorkersCnt p - 1) p))
  | _ => None
  end.

(** [m_cvActiveWorkerCnt.notify_one()]: one of those that wait, if any. *)
Inductive notified : list wait_pc -> list wait_pc -> Prop :=
  | nf_one ws ws' : notified (ws ++ WSleep :: ws') (ws ++ WTest :: ws')
  | nf_none ws : WSleep ∉ ws -> notified ws ws.

Inductive thread_step (i : nat) (p : ThreadPool) : ThreadPool -> Prop :=
  | th_proc p' : proc i p = Some p' -> thread_step i p p'
  | th_notify ws : m_vThreadps p !! i = Some PNotify -> notified (tp_waiters p) ws -> thread_step i p (set_thread i PPop (set_waiters ws p)).

(** A round of [WaitAll]. *)
Definition WaitAll (pc : wait_pc) (p : ThreadPool) : option wait_pc :=
  match pc with
  | WTest => Some (match Empty (m_bqTasks p) with Return (RBool true) _ _ => WTest2 | _ => WGo end)
  | WTest2 => Some (if m_iActiveWorkersCnt p =? 0 then WDone else WGo)
  | WGo => Some WSleep
  | WSleep | WDone => None
  end.

(** Whether [WaitAllUntilTimeAt] waits at all. *)
Definition WaitAllUntilTimeAt_waits (p : ThreadPool) : bool :=
  match Empty (m_bqTasks p) with Return (RBool e) _ _ => negb e && negb (m_iActiveWorkersCnt p =? 0) | _ => false end.

(** The destructor sets the flag, and then adds the empty tasks. *)
Definition destroy (p : ThreadPool) : ThreadPool :=
  MkPool (m_bqTasks p) true (m_iActiveWorkersCnt p) (m_vThreadps p) (tp_waiters p) (Some (length (m_vThreadps p))) (tp_added p) (tp_taken p)
    (tp_done p).
Definition destroy_add (p : ThreadPool) : option ThreadPool :=
  match tp_left p with
  | Some (S n) =>
      p ← AddTask None p;
      Some (MkPool (m_bqTasks p) (m_bStopping p) (m_iActiveWorkersCnt p) (m_vThreadps p) (tp_waiters p) (Some n) (tp_added p) (tp_taken p)
              (tp_done p))
  | _ => None
  end.

Inductive pool_step (p : ThreadPool) : ThreadPool -> Prop :=
  | ps_add a p' : tp_left p = None -> AddTask (Some a) p = Some p' -> pool_step p p'
  | ps_thread i p' : thread_step i p p' -> pool_step p p'
  | ps_enter : pool_step p (set_waiters (tp_waiters p ++ [WTest]) p)
  | ps_wait ws pc pc' ws' : tp_waiters p = ws ++ pc :: ws' -> WaitAll pc p = Some pc' -> pool_step p (set_waiters (ws ++ pc' :: ws') p)
  | ps_spurious ws ws' : tp_waiters p = ws ++ WSleep :: ws' -> pool_step p (set_waiters (ws ++ WTest :: ws') p)
  | ps_destroy : tp_left p = None -> pool_step p (destroy p)
  | ps_destroy_add p' : destroy_add p = Some p' -> pool_step p p'.

Inductive pool_reachable (cnt nprocs : Z) : ThreadPool -> Prop :=
  | pr_make : pool_reachable cnt nprocs (ThreadPool_make cnt nprocs)
  | pr_step p p' : pool_reachable cnt nprocs p -> pool_step p p' -> pool_reachable cnt nprocs p'.

(** ** The invariant *)

(** The task a thread has in hand. *)
Definition holds (pc : proc_pc) : list Z := match pc with PGot t => action_of t | PRun a => [a] | _ => [] end.
Definition running (pc : proc_pc) : nat := match pc with PRun _ | PDec => 1 | _ => 0 end.
(** Threads that will take one more task. *)
Definition hungry (pc : proc_pc) : nat := match pc with PGot _ | PEnd => 0 | _ => 1 end.

Record pool_inv (p : ThreadPool) : Prop := {
  pi_bound : m_iQueueMaxSize (m_bqTasks p) = 0;
  pi_fifo : tp_added p = tp_taken p ++ concat (map action_of (m_queue (m_bqTasks p)));
  pi_kept : exists dropped, tp_taken p ≡ₚ tp_done p ++ concat (map holds (m_vThreadps p)) ++ dropped /\ (m_bStopping p = false -> dropped = []);
  pi_active : m_iActiveWorkersCnt p = Z.of_nat (sum_list_with running (m_vThreadps p));
  pi_left : match tp_left p with
            | None => m_bStopping p = false
            | Some n => m_bStopping p = true /\ (sum_list_with hungry (m_vThreadps p) <= n + length (m_queue (m_bqTasks p)))%nat
            end
}.

Section threads.
Context {l : list proc_pc} {i : nat} {x : proc_pc} (E : l !! i = Some x) (y : proc_pc).

Lemma split_at : l = take i l ++ x :: drop (S i) l /\ <[i := y]> l = take i l ++ y :: drop (S i) l.
Proof using E. split; [by rewrite take_drop_middle|]. apply insert_take_drop. by eapply lookup_lt_Some. Qed.

Lemma sum_change (f : proc_pc -> nat) : (sum_list_with f (<[i := y]> l) + f x = sum_list_with f l + f y)%nat.
Proof using E. destruct split_at as [E1 E2]. rewrite E2. rewrite E1 at 3. rewrite !sum_list_with_app. simpl. lia. Qed.

End threads.

Lemma sum_replicate_0 (f : proc_pc -> nat) pc n : f pc = 0%nat -> sum_list_with f (replicate n pc) = 0%nat.
Proof. intros E. induction n as [|n IH]; [done|]. simpl. by rewrite E, IH. Qed.
Lemma sum_bounded (f : proc_pc -> nat) l : (forall pc, f pc <= 1)%nat -> (sum_list_with f l <= length l)%nat.
Proof. intros Hf. induction l as [|pc l IH]; simpl; [done|]. specialize (Hf pc). lia. Qed.

Lemma pool_inv_make cnt nprocs : pool_inv (ThreadPool_make cnt nprocs).
Proof.
  unfold ThreadPool_make. set (n := Z.to_nat _). split; simpl; try done.
  - exists []. split; [|done]. rewrite app_nil_r. induction n as [|n IH]; [done|]. simpl. exact IH.
  - by rewrite sum_replicate_0.
Qed.

Lemma AddTask_run t p p' : AddTask t p = Some p' -> m_iQueueMaxSize (m_bqTasks p) = 0 ->
  p' = MkPool (MkQ 0 (m_queue (m_bqTasks p) ++ [t])) (m_bStopping p) (m_iActiveWorkersCnt p) (m_vThreadps p) (tp_waiters p) (tp_left p)
         (tp_added p ++ action_of t) (tp_taken p) (tp_done p).
Proof. intros E Hb. unfold AddTask, Push, is_full in E. rewrite Hb in E. simpl in E. by injection E as <-. Qed.

(** A thread moves from [x] to [y]; what changes beside it. *)
Lemma pool_inv_thread p i x y q' active' taken' done' dropped' :
  pool_inv p -> m_vThreadps p !! i = Some x -> m_iQueueMaxSize q' = 0 ->
  taken' ++ concat (map action_of (m_queue q')) = tp_taken p ++ concat (map action_of (m_queue (m_bqTasks p))) ->
  (forall rest, tp_taken p ≡ₚ tp_done p ++ rest ++ holds x -> taken' ≡ₚ done' ++ rest ++ holds y ++ dropped') ->
  (m_bStopping p = false -> dropped' = []) ->
  active' + Z.of_nat (running x) = m_iActiveWorkersCnt p + Z.of_nat (running y) ->
  (m_bStopping p = true -> length (m_queue (m_bqTasks p)) + hungry y <= length (m_queue q') + hungry x)%nat ->
  pool_inv (MkPool q' (m_bStopping p) active' (<[i := y]> (m_vThreadps p)) (tp_waiters p) (tp_left p) (tp_added p) taken' done').
Proof.
  intros [Hb Hf (dropped & Hk & Hd) Ha Hl] E Hb' Hf' Hk' Hd' Ha' Hh. split; simpl; [done|congruence| | |].
  - exists (dropped' ++ dropped). split; [|intros Hs; by rewrite (Hd' Hs), (Hd Hs)].
    assert (exists rest, concat (map holds (m_vThreadps p)) ++ dropped ≡ₚ rest ++ holds x /\
      concat (map holds (<[i := y]> (m_vThreadps p))) ++ dropped ≡ₚ rest ++ holds y) as (rest & R1 & R2).
    { destruct (split_at E y) as [E1 E2]. exists (concat (map holds (take i (m_vThreadps p))) ++ concat (map holds (drop (S i) (m_vThreadps p))) ++ dropped).
      rewrite E2. rewrite E1 at 1. rewrite !map_app, !concat_app. simpl.
      split; rewrite <- !app_assoc; apply Permutation_app_head; rewrite Permutation_app_comm, <- !app_assoc; done. }
    rewrite (Hk' rest); [|by rewrite Hk, R1]. rewrite (Permutation_app_comm dropped' dropped), !app_assoc.
    apply Permutation_app_tail. rewrite <- !app_assoc. apply Permutation_app_head. by rewrite R2.
  - pose proof (sum_change E y running). lia.
  - destruct (tp_left p) as [n|]; [|done]. destruct Hl as [Hs Hn]. split; [done|]. pose proof (sum_change E y hungry). specialize (Hh Hs). lia.
Qed.

(** What [pool_inv_thread] asks for. *)
Ltac pool_side := try done; simpl; first [done | lia | congruence | let Hr := fresh in intros ? Hr; rewrite ?app_nil_r in *; by rewrite ?Hr, <- ?app_assoc].

Lemma pool_inv_proc p i p' : pool_inv p -> proc i p = Some p' -> pool_inv p'.
Proof.
  intros HI E. unfold proc in E. destruct (m_vThreadps p !! i) as [x|] eqn:Ei; [|done]. pose proof (pi_bound _ HI) as Hb.
  destruct x as [|t|a| | |]; try done.
  - unfold Pop in E. destruct (m_queue (m_bqTasks p)) as [|t ts] eqn:Eq; [done|]. injection E as <-.
    apply (pool_inv_thread p i PPop (PGot t) _ _ _ _ []); rewrite ?Eq; try pool_side. simpl. by rewrite <- app_assoc.
  - destruct (m_bStopping p) eqn:Es.
    + injection E as <-. unfold set_thread. apply (pool_inv_thread p i (PGot t) PEnd _ _ _ _ (action_of t)); pool_side.
    + destruct t as [a|]; injection E as <-.
      * apply (pool_inv_thread p i (PGot (Some a)) (PRun a) _ _ _ _ []); pool_side.
      * apply (pool_inv_thread p i (PGot None) PNotify _ _ _ _ []); pool_side.
  - injection E as <-. apply (pool_inv_thread p i (PRun a) PDec _ _ _ _ []); try pool_side.
    simpl. intros rest Hr. rewrite Hr, app_nil_r, <- app_assoc. apply Permutation_app_head, Permutation_app_comm.
  - injection E as <-. apply (pool_inv_thread p i PDec PNotify _ _ _ _ []); pool_side.
Qed.

Lemma pool_inv_waiters p ws : pool_inv p -> pool_inv (set_waiters ws p).
Proof. by intros []. Qed.

Lemma pool_inv_thread_step p i p' : pool_inv p -> thread_step i p p' -> pool_inv p'.
Proof.
  intros HI [p1 E|ws Ei _]; [by eapply pool_inv_proc|]. apply (pool_inv_waiters _ ws) in HI.
  apply (pool_inv_thread (set_waiters ws p) i PNotify PPop _ _ _ _ []); try pool_side. apply HI.
Qed.

Lemma pool_inv_add p t p' n : pool_inv p -> AddTask t p = Some p' -> (t <> None -> tp_left p = None) ->
  match tp_left p, n with None, None => True | Some k, Some k' => (k <= S k')%nat | _, _ => False end ->
  pool_inv (MkPool (m_bqTasks p') (m_bStopping p') (m_iActiveWorkersCnt p') (m_vThreadps p') (tp_waiters p') n (tp_added p') (tp_taken p') (tp_done p')).
Proof.
  intros [Hb Hf Hk Ha Hl] E _ Hn. apply AddTask_run in E as ->; [|done]. split; simpl; try done.
  - rewrite Hf, map_app, concat_app. simpl. by rewrite app_nil_r, <- app_assoc.
  - destruct (tp_left p) as [k|], n as [k'|]; try done. destruct Hl as [Hs Hh]. split; [done|]. rewrite length_app. simpl. lia.
Qed.

Lemma pool_inv_step p p' : pool_inv p -> pool_step p p' -> pool_inv p'.
Proof.
  intros HI Hst. destruct Hst as [a p' El E|i p' Hth| |ws pc pc' ws' _ _|ws ws' _|El|p' E].
  - pose proof (pool_inv_add _ _ _ None HI E) as H. rewrite El in H. specialize (H ltac:(done) I).
    apply AddTask_run in E as ->; [|apply HI]. rewrite El in *. exact H.
  - by eapply pool_inv_thread_step.
  - by apply pool_inv_waiters.
  - by apply pool_inv_waiters.
  - by apply pool_inv_waiters.
  - destruct HI as [Hb Hf (dropped & Hk & Hd) Ha Hl]. split; simpl; try done.
    + by exists dropped.
    + split; [done|]. assert (sum_list_with hungry (m_vThreadps p) <= length (m_vThreadps p))%nat; [|lia]. apply sum_bounded. intros []; simpl; lia.
  - unfold destroy_add in E. destruct (tp_left p) as [[|n]|] eqn:El; try done. destruct (AddTask None p) as [p1|] eqn:E1; [|done]. injection E as <-.
    eapply (pool_inv_add p None p1 (Some n)); [done|done|done|]. by rewrite El.
Qed.

Lemma pool_inv_reachable cnt nprocs p : pool_reachable cnt nprocs p -> pool_inv p.
Proof. induction 1; [apply pool_inv_make|by eapply pool_inv_step]. Qed.

(** C40 pool_runs_once: however the threads interleave, the tasks are taken in the order in which
    they were added, none twice: those taken so far are the first ones, and the others are in
    the queue.  Of those that were taken each was run to its end, or is in the hands of a
    thread; only when the pool is being destroyed are some dropped.  The counter of active
    workers is the number of threads that run a task. *)
Theorem pool_runs_once (cnt nprocs : Z) (p : ThreadPool) (Hp : pool_reachable cnt nprocs p) :
  tp_added p = tp_taken p ++ concat (map action_of (m_queue (m_bqTasks p))) /\
  (exists dropped, tp_taken p ≡ₚ tp_done p ++ concat (map holds (m_vThreadps p)) ++ dropped /\ (m_bStopping p = false -> dropped = [])) /\
  m_iActiveWorkersCnt p = Z.of_nat (sum_list_with running (m_vThreadps p)).
Proof. destruct (pool_inv_reachable _ _ _ Hp) as [_ Hf Hk Ha _]. by split_and!. Qed.

(** ** The end of the threads *)

Definition weight (pc : proc_pc) : nat := match pc with PEnd => 0 | PGot _ => 1 | PPop => 2 | PNotify => 3 | PDec => 4 | PRun _ => 5 end.

Inductive thread_steps : nat -> ThreadPool -> ThreadPool -> Prop :=
  | ts_none p : thread_steps 0 p p
  | ts_more n i p p1 p2 : thread_step i p p1 -> thread_steps n p1 p2 -> thread_steps (S n) p p2.

Lemma proc_ends p i p' : m_bStopping p = true -> proc i p = Some p' ->
  m_bStopping p' = true /\ tp_left p' = tp_left p /\ (sum_list_with weight (m_vThreadps p') < sum_list_with weight (m_vThreadps p))%nat.
Proof.
  intros Hs E. unfold proc in E. destruct (m_vThreadps p !! i) as [x|] eqn:Ei; [|done].
  assert (forall y, (weight y < weight x)%nat -> (sum_list_with weight (<[i := y]> (m_vThreadps p)) < sum_list_with weight (m_vThreadps p))%nat) as Hw.
  { intros y Hy. pose proof (sum_change Ei y weight). lia. }
  destruct x as [|t|a| | |]; try done.
  - destruct (Pop (m_bqTasks p)) as [[| [t|] | |] q ?|]; try done. injection E as <-. simpl. split_and!; [done|done|]. apply Hw. simpl. lia.
  - rewrite Hs in E. injection E as <-. simpl. split_and!; [done|done|]. apply Hw. simpl. lia.
  - injection E as <-. simpl. split_and!; [done|done|]. apply Hw. simpl. lia.
  - injection E as <-. simpl. split_and!; [done|done|]. apply Hw. simpl. lia.
Qed.

Lemma thread_ends p i p' : m_bStopping p = true -> thread_step i p p' ->
  m_bStopping p' = true /\ tp_left p' = tp_left p /\ (sum_list_with weight (m_vThreadps p') < sum_list_with weight (m_vThreadps p))%nat.
Proof.
  intros Hs [p1 E|ws Ei _]; [by eapply proc_ends|]. simpl. split_and!; [done|done|]. pose proof (sum_change Ei PPop weight). simpl in *. lia.
Qed.

(** Somebody can move as long as a thread has not ended. *)
Lemma somebody_moves p i pc : pool_inv p -> tp_left p = Some 0%nat -> m_vThreadps p !! i = Some pc -> pc <> PEnd ->
  exists p', thread_step i p p'.
Proof.
  intros HI El Ei Hne. pose proof (pi_left _ HI) as Hl. rewrite El in Hl. destruct Hl as [Hs Hh]. simpl in Hh.
  destruct pc as [|t|a| | |]; try done.
  - destruct (m_queue (m_bqTasks p)) as [|t ts] eqn:Eq.
    + exfalso. destruct (split_at Ei PPop) as [E1 _]. rewrite E1, sum_list_with_app in Hh. simpl in Hh. lia.
    + eexists. apply th_proc. unfold proc, Pop. by rewrite Ei, Eq.
  - eexists. apply th_proc. unfold proc. by rewrite Ei, Hs.
  - eexists. apply th_proc. unfold proc. by rewrite Ei.
  - eexists. apply th_proc. unfold proc. by rewrite Ei.
  - assert (exists ws, notified (tp_waiters p) ws) as [ws Hws].
    { destruct (decide (WSleep ∈ tp_waiters p)) as [Hin|Hn]; [|eexists; by apply nf_none].
      apply list_elem_of_split in Hin as (l1 & l2 & ->). eexists. apply nf_one. }
    eexists. by eapply th_notify.
Qed.

(** C39 pool_joins: the destructor of the pool returns.  Once it has set the flag and added its
    empty tasks, every sequence of steps of the threads is finite, at most five for each
    thread; and as long as a thread has not ended it can make a step, so that the sequence
    ends when all of them have ended and can be joined.  (The actions of tasks that run are
    taken to return.) *)
Theorem pool_joins (cnt nprocs : Z) (p : ThreadPool) (Hp : pool_reachable cnt nprocs p) (Hd : tp_left p = Some 0%nat)
    (n : nat) (p' : ThreadPool) (Hr : thread_steps n p p') :
  (n <= 5 * length (m_vThreadps p))%nat /\
  (forall i pc, m_vThreadps p' !! i = Some pc -> pc = PEnd \/ exists p2, thread_step i p' p2).
Proof.
  pose proof (pool_inv_reachable _ _ _ Hp) as HI. pose proof (pi_left _ HI) as Hl. rewrite Hd in Hl. destruct Hl as [Hs _].
  assert (n + sum_list_with weight (m_vThreadps p') <= sum_list_with weight (m_vThreadps p) /\ pool_inv p' /\ tp_left p' = Some 0)%nat as (Hn & HI' & Hd').
  { clear Hp. induction Hr as [p|n i p p1 p2 Hst _ IH]; [by split_and!|]. destruct (thread_ends _ _ _ Hs Hst) as (Hs1 & El1 & Hw).
    destruct IH as (H1 & H2 & H3); [congruence|by eapply pool_inv_thread_step|done|]. split_and!; [lia|done|done]. }
  split.
  - assert (sum_list_with weight (m_vThreadps p) <= 5 * length (m_vThreadps p))%nat; [|lia].
    clear. induction (m_vThreadps p) as [|pc l IH]; simpl; [lia|]. destruct pc; simpl; lia.
  - intros i pc Ei. destruct (decide (pc = PEnd)) as [|Hne]; [by left|]. right. by eapply somebody_moves.
Qed.

(** ** Runs *)

(** Steps by name; a notification wakes the first of those that wait. *)
Inductive move := MAdd (a : Z) | MThread (i : nat) | MEnter | MWait | MDestroy | MDestroyAdd.

Fixpoint wake_first (ws : list wait_pc) : list wait_pc :=
  match ws with [] => [] | WSleep :: ws => WTest :: ws | w :: ws => w :: wake_first ws end.

Definition exec (m : move) (p : ThreadPool) : option ThreadPool :=
  match m with
  | MAdd a => if decide (tp_left p = None) then AddTask (Some a) p else None
  | MThread i =>
      if decide (m_vThreadps p !! i = Some PNotify) then Some (set_thread i PPop (set_waiters (wake_first (tp_waiters p)) p)) else proc i p
  | MEnter => Some (set_waiters (tp_waiters p ++ [WTest]) p)
  | MWait => match tp_waiters p with pc :: ws => pc' ← WaitAll pc p; Some (set_waiters (pc' :: ws) p) | [] => None end
  | MDestroy => if decide (tp_left p = None) then Some (destroy p) else None
  | MDestroyAdd => destroy_add p
  end.
Fixpoint execs (ms : list move) (p : ThreadPool) : option ThreadPool := match ms with [] => Some p | m :: ms => p ← exec m p; execs ms p end.

Lemma notified_cons w ws ws' : w <> WSleep -> notified ws ws' -> notified (w :: ws) (w :: ws').
Proof. intros Hw [l l'|l Hn]; [apply (nf_one (w :: l))|apply nf_none; set_solver]. Qed.
Lemma wake_first_notified ws : notified ws (wake_first ws).
Proof. induction ws as [|w ws IH]; [apply nf_none; set_solver|]. destruct w; try (by apply notified_cons). apply (nf_one []). Qed.

Lemma exec_step m p p' : exec m p = Some p' -> pool_step p p'.
Proof.
  destruct m; simpl; intros E.
  - case_decide; [|done]. by eapply ps_add.
  - apply (ps_thread _ i). case_decide as Hn; [injection E as <-; apply th_notify; [done|apply wake_first_notified]|by apply th_proc].
  - injection E as <-. apply ps_enter.
  - destruct (tp_waiters p) as [|pc ws] eqn:Ew; [done|]. destruct (WaitAll pc p) as [pc'|] eqn:E'; [|done]. injection E as <-.
    by apply (ps_wait p [] pc pc' ws).
  - case_decide; [|done]. injection E as <-. by apply ps_destroy.
  - by apply ps_destroy_add.
Qed.

Lemma execs_reachable cnt nprocs ms p p' : pool_reachable cnt nprocs p -> execs ms p = Some p' -> pool_reachable cnt nprocs p'.
Proof.
  revert p. induction ms as [|m ms IH]; intros p Hp E; [by injection E as <-|]. simpl in E. destruct (exec m p) as [p1|] eqn:E1; [|done].
  apply (IH p1); [|done]. eapply pr_step; [done|by eapply exec_step].
Qed.

Definition demo_moves : list move := [MAdd 7; MAdd 8; MThread 0; MThread 0; MThread 1; MThread 0].
Definition demo_busy : ThreadPool := default (ThreadPool_make 2 4) (execs demo_moves (ThreadPool_make 2 4)).
Definition demo_ending : ThreadPool := default demo_busy (execs [MDestroy; MDestroyAdd; MDestroyAdd] demo_busy).

Lemma demo_busy_reachable : pool_reachable 2 4 demo_busy.
Proof. apply (execs_reachable 2 4 demo_moves (ThreadPool_make 2 4)); [apply pr_make|by vm_compute]. Qed.
Lemma demo_ending_reachable : pool_reachable 2 4 demo_ending.
Proof. apply (execs_reachable 2 4 [MDestroy; MDestroyAdd; MDestroyAdd] demo_busy); [apply demo_busy_reachable|by vm_compute]. Qed.

Lemma pool_runs_once_witness : tp_added demo_busy = tp_taken demo_busy /\ tp_taken demo_busy = [7; 8] /\ m_iActiveWorkersCnt demo_busy = 1.
Proof.
  destruct (pool_runs_once 2 4 demo_busy demo_busy_reachable) as (H1 & _ & H3). rewrite H1, H3. split_and!; by vm_compute.
Defined.

Lemma pool_joins_witness : (0 <= 5 * length (m_vThreadps demo_ending))%nat.
Proof. apply (pool_joins 2 4 demo_ending demo_ending_reachable eq_refl 0 demo_ending). apply ts_none. Defined.

(** ** What WaitAll does not do *)

(** A thread that has taken a task counts as active only when it calls the action:
    [WaitAll] returns in between, and the task is run afterwards. *)
Theorem wait_all_returns_early : exists p, pool_reachable 1 1 p /\ tp_waiters p = [WDone] /\ tp_done p = [] /\ tp_added p = [7].
Proof.
  eexists. split; [apply (execs_reachable 1 1 [MAdd 7; MThread 0; MEnter; MWait; MWait] (ThreadPool_make 1 1)); [apply pr_make|]; by vm_compute|].
  by vm_compute.
Qed.

(** The threads notify without the mutex: a notification between the test and the wait is
    lost.  All tasks are done, the threads wait for new ones, and [WaitAll] sleeps. *)
Theorem wait_all_loses_wakeup : exists p, pool_reachable 1 1 p /\ tp_waiters p = [WSleep] /\ tp_done p = tp_added p /\
  m_vThreadps p = [PPop] /\ m_queue (m_bqTasks p) = [].
Proof.
  eexists. split; [apply (execs_reachable 1 1 [MAdd 7; MThread 0; MThread 0; MEnter; MWait; MWait; MThread 0; MThread 0; MThread 0; MWait]
    (ThreadPool_make 1 1)); [apply pr_make|]; by vm_compute|]. by vm_compute.
Qed.

(** [WaitAllUntilTimeAt] waits only while there are both waiting and running tasks. *)
Theorem wait_until_does_not_wait : exists p, pool_reachable 1 1 p /\ m_vThreadps p = [PRun 7] /\ WaitAllUntilTimeAt_waits p = false.
Proof.
  eexists. split; [apply (execs_reachable 1 1 [MAdd 7; MThread 0; MThread 0] (ThreadPool_make 1 1)); [apply pr_make|]; by vm_compute|]. by vm_compute.
Qed.

(** Tasks that are queued when the pool is destroyed are never run. *)
Theorem destructor_drops_tasks : exists p, pool_reachable 1 1 p /\ m_vThreadps p = [PEnd] /\ tp_added p = [7; 8] /\ tp_done p = [].
Proof.
  eexists. split; [apply (execs_reachable 1 1 [MAdd 7; MAdd 8; MDestroy; MDestroyAdd; MThread 0; MThread 0] (ThreadPool_make 1 1)); [apply pr_make|]; by vm_compute|].
  by vm_compute.
Qed.
