(* ===== verification/Locks.v ===== *)
(** * Spin locks and read-write locks (src/sys/spin-lock, src/sys/rw-mutex.h)

    [SpinLock], [ReadLock] and [WriteLock] are guards: objects of one thread on a lock that
    many threads share.  The spin lock is a word that is taken by compare-and-swap; the
    read-write lock is the pthread library's, here by its number of readers and its writer. *)

From S2P Require Import Prelude.

Module SpinLock.

Definition UNLOCKED : Z := 0.
Definition LOCKED : Z := 1.

(** [atomic_cas], [atomic_zero] *)
Definition atomic_cas (lock old new : Z) : bool * Z := if lock =? old then (true, new) else (false, lock).
Definition atomic_zero (lock : Z) : Z := Z.land lock 0.

(** Where the guard's thread is: outside of [Lock]; at the top of its loop; pausing for the
    [i]-th of [n] times; before the next attempt; before [hard_yield_cpu]; or it has thrown. *)
Inductive lock_pc := Idle | Top | Pause (n i : Z) | Retry (n : Z) | Yield | Thrown.

Record guard := MkGuard { m_iSpin : Z; m_bOwnLock : bool; g_pc : lock_pc }.
Definition at_pc pc (g : guard) : guard := MkGuard (m_iSpin g) (m_bOwnLock g) pc.
Definition owning b (g : guard) : guard := MkGuard (m_iSpin g) b Idle.

(** The constructors: with the default or a given number of spins, locking or not. *)
Definition make (spin : option Z) (defer : bool) : guard :=
  MkGuard (match spin with Some spin => i32 (Z.shiftl 1 spin) | None => Z.shiftl 1 11 end) false (if defer then Idle else Top).

Definition Lock (g : guard) : guard := if m_bOwnLock g then at_pc Thrown g else at_pc Top g.

(** The inner [for] from [n] on. *)
Definition spin_from (n : Z) (g : guard) : guard := if n <? m_iSpin g then at_pc (Pause n 0) g else at_pc Yield g.

(** The next piece of [Lock]; [None] outside of it. *)
Definition lock_run (s : Z * guard) : option (Z * guard) :=
  let '(lock, g) := s in
  match g_pc g with
  | Idle | Thrown => None
  | Top =>
      let '(ok, lock) := atomic_cas lock UNLOCKED LOCKED in
      Some (lock, if ok : bool then owning true g else spin_from 1 g)
  | Pause n i => Some (lock, if i <? n then at_pc (Pause n (i + 1)) g else at_pc (Retry n) g)
  | Retry n =>
      let '(ok, lock) := atomic_cas lock UNLOCKED LOCKED in
      Some (lock, if ok : bool then owning true g else spin_from (i32 (Z.shiftl n 1)) g)
  | Yield => Some (lock, at_pc Top g)
  end.

(** The result, or an exception. *)
Definition TryLock (s : Z * guard) : option bool * (Z * guard) :=
  let '(lock, g) := s in
  if m_bOwnLock g then (None, (lock, at_pc Thrown g))
  else let '(ok, lock) := atomic_cas lock UNLOCKED LOCKED in (Some ok, (lock, owning ok g)).

Definition Unlock (s : Z * guard) : Z * guard :=
  let '(lock, g) := s in
  if negb (m_bOwnLock g) then (lock, at_pc Thrown g) else (atomic_zero lock, owning false g).

(** [~SpinLock]: the lock afterwards *)
Definition destroy (s : Z * guard) : Z := if m_bOwnLock s.2 then (Unlock s).1 else s.1.

(** ** Any number of guards on one lock *)

Definition idle (g : guard) : Prop := g_pc g = Idle.

Inductive lock_step : Z * list guard -> Z * list guard -> Prop :=
  | lk_make lock gs spin defer : lock_step (lock, gs) (lock, gs ++ [make spin defer])
  | lk_lock lock gs i g : gs !! i = Some g -> idle g -> lock_step (lock, gs) (lock, <[i := Lock g]> gs)
  | lk_run lock gs i g lock' g' : gs !! i = Some g -> lock_run (lock, g) = Some (lock', g') -> lock_step (lock, gs) (lock', <[i := g']> gs)
  | lk_try lock gs i g : gs !! i = Some g -> idle g -> lock_step (lock, gs) ((TryLock (lock, g)).2.1, <[i := (TryLock (lock, g)).2.2]> gs)
  | lk_unlock lock gs i g : gs !! i = Some g -> idle g -> lock_step (lock, gs) ((Unlock (lock, g)).1, <[i := (Unlock (lock, g)).2]> gs)
  | lk_destroy lock gs i g : gs !! i = Some g -> idle g \/ g_pc g = Thrown -> lock_step (lock, gs) (destroy (lock, g), delete i gs).

Inductive lock_reachable : Z * list guard -> Prop :=
  | lkr_init : lock_reachable (UNLOCKED, [])
  | lkr_step s s' : lock_reachable s -> lock_step s s' -> lock_reachable s'.

(** The lock is the number of guards that own it; a guard in [Lock] does not own it. *)
Definition owns (g : guard) : nat := if m_bOwnLock g then 1 else 0.
Definition lock_inv (s : Z * list guard) : Prop :=
  s.1 = Z.of_nat (sum_list_with owns s.2) /\ (sum_list_with owns s.2 <= 1)%nat /\
  Forall (fun g => m_bOwnLock g = true -> g_pc g = Idle \/ g_pc g = Thrown) s.2.

Lemma owns_change (gs : list guard) i g g' : gs !! i = Some g -> (sum_list_with owns (<[i := g']> gs) + owns g = sum_list_with owns gs + owns g')%nat.
Proof.
  intros E. rewrite insert_take_drop by (by eapply lookup_lt_Some). rewrite <- (take_drop_middle _ _ _ E) at 3.
  rewrite !sum_list_with_app. simpl. lia.
Qed.

Lemma lock_inv_change lock gs i g lock' g' : lock_inv (lock, gs) -> gs !! i = Some g ->
  (lock <= 1 -> lock' + Z.of_nat (owns g) = lock + Z.of_nat (owns g') /\ (lock' <= 1)) ->
  (m_bOwnLock g' = true -> g_pc g' = Idle \/ g_pc g' = Thrown) -> lock_inv (lock', <[i := g']> gs).
Proof.
  intros (H1 & H2 & H3) E Hl Hp. simpl in *. pose proof (owns_change gs i g g' E). destruct Hl as [Hl Hl']; [lia|].
  split; [simpl; lia|]. split; [simpl; lia|]. simpl. by apply Forall_insert.
Qed.

(** An attempt: the lock is taken, or stays as it is. *)
Lemma cas_cases lock : 0 <= lock <= 1 ->
  (lock = 0 /\ atomic_cas lock UNLOCKED LOCKED = (true, 1)) \/ (lock = 1 /\ atomic_cas lock UNLOCKED LOCKED = (false, 1)).
Proof. intros H. assert (lock = 0 \/ lock = 1) as [->| ->] by lia; [by left|by right]. Qed.

Lemma lock_inv_step s s' : lock_inv s -> lock_step s s' -> lock_inv s'.
Proof.
  intros HI Hst. destruct Hst as [lock gs spin defer|lock gs i g E Hi|lock gs i g lock' g' E Er|lock gs i g E Hi|lock gs i g E Hi|lock gs i g E Hi].
  - destruct HI as (H1 & H2 & H3). simpl in *. split; [|split]; simpl; rewrite ?sum_list_with_app; simpl; [lia|lia|].
    apply Forall_app. split; [done|]. apply Forall_singleton. by intros [=].
  - eapply lock_inv_change; [done|done| |].
    + unfold Lock. destruct (m_bOwnLock g) eqn:Eo; unfold owns; simpl; rewrite ?Eo; lia.
    + unfold Lock. destruct (m_bOwnLock g) eqn:Eo; simpl; [by right|congruence].
  - assert (m_bOwnLock g = false) as Eo.
    { destruct (m_bOwnLock g) eqn:Eo; [|done]. destruct HI as (_ & _ & H3). rewrite Forall_lookup in H3. unfold lock_run in Er.
      destruct (H3 _ _ E Eo) as [Ep|Ep]; by rewrite Ep in Er. }
    assert (0 <= lock <= 1) as Hb by (destruct HI as (H1 & H2 & _); simpl in *; lia).
    assert (forall pc, lock_inv (lock, <[i := at_pc pc g]> gs)) as Hsame.
    { intros pc. eapply lock_inv_change; [done|done|unfold owns; simpl; lia|]. simpl. congruence. }
    assert (forall n, lock_inv (lock, <[i := spin_from n g]> gs)) as Hspin by (intros n; unfold spin_from; destruct (_ <? _); apply Hsame).
    assert (lock = 0 -> lock_inv (1, <[i := owning true g]> gs)) as Htake.
    { intros ->. eapply lock_inv_change; [done|done|unfold owns; simpl; rewrite Eo; lia|]. simpl. by left. }
    unfold lock_run in Er. destruct (g_pc g) eqn:Epc; try done.
    + destruct (cas_cases lock Hb) as [[El Ec]|[El Ec]]; rewrite Ec in Er; injection Er as <- <-; [by apply Htake|]. rewrite El in Hspin. apply Hspin.
    + injection Er as <- <-. destruct (i0 <? n); apply Hsame.
    + destruct (cas_cases lock Hb) as [[El Ec]|[El Ec]]; rewrite Ec in Er; injection Er as <- <-; [by apply Htake|]. rewrite El in Hspin. apply Hspin.
    + injection Er as <- <-. apply Hsame.
  - eapply lock_inv_change; [done|done| |]; unfold TryLock; destruct (m_bOwnLock g) eqn:Eo; unfold owns; simpl; rewrite ?Eo; try (simpl; lia).
    + intros _. assert (0 <= lock <= 1) as Hb by (destruct HI as (H1 & H2 & _); simpl in *; lia).
      destruct (cas_cases lock Hb) as [[-> ->]|[-> ->]]; simpl; lia.
    + by right.
    + destruct (atomic_cas lock UNLOCKED LOCKED). by left.
  - unfold Unlock. destruct (m_bOwnLock g) eqn:Eo; simpl.
    + unfold atomic_zero. rewrite Z.land_0_r. eapply lock_inv_change; [done|done| |simpl; congruence].
      destruct HI as (H1 & H2 & _). simpl in *. pose proof (owns_change gs i g (owning false g) E) as Hc. unfold owns in Hc at 2 4. unfold owns.
      rewrite Eo in *. simpl in *. lia.
    + eapply lock_inv_change; [done|done|unfold owns; simpl; lia|]. simpl. congruence.
  - destruct HI as (H1 & H2 & H3). simpl in *.
    assert (sum_list_with owns gs = owns g + sum_list_with owns (delete i gs))%nat as Hs.
    { rewrite delete_take_drop. rewrite <- (take_drop_middle _ _ _ E) at 1. rewrite !sum_list_with_app. simpl. lia. }
    unfold destroy. simpl. split; [|split]; simpl.
    + unfold owns in Hs at 2. destruct (m_bOwnLock g) eqn:Eo; simpl in *; unfold atomic_zero; rewrite ?Z.land_0_r; lia.
    + lia.
    + by apply Forall_delete.
Qed.

Lemma lock_inv_reachable s : lock_reachable s -> lock_inv s.
Proof. induction 1; [split; [done|]; split; [simpl; lia|by apply Forall_nil_2]|by eapply lock_inv_step]. Qed.

Lemma owner_exists l : (0 < sum_list_with owns l)%nat -> exists i g, l !! i = Some g /\ m_bOwnLock g = true.
Proof.
  induction l as [|x l IH]; simpl; [lia|]. intros Hl. destruct (m_bOwnLock x) eqn:Eo; [by exists 0%nat, x|].
  destruct IH as (i & g & E & Eg); [unfold owns in Hl at 1; rewrite Eo in Hl; lia|]. by exists (S i), g.
Qed.

(** Of any number of guards on a spin lock, however their threads interleave
    between the atomic instructions, at most one owns it; the word is 1 exactly when one does;
    and a guard owns the lock only outside of the loop of Lock. *)
Theorem spin_exclusive (lock : Z) (gs : list guard) (Hs : lock_reachable (lock, gs)) :
  (forall i j g g', gs !! i = Some g -> gs !! j = Some g' -> m_bOwnLock g = true -> m_bOwnLock g' = true -> i = j) /\
  (lock = LOCKED <-> exists i g, gs !! i = Some g /\ m_bOwnLock g = true) /\ (lock = LOCKED \/ lock = UNLOCKED) /\
  (forall i g, gs !! i = Some g -> m_bOwnLock g = true -> lock_run (lock, g) = None).
Proof.
  destruct (lock_inv_reachable _ Hs) as (H1 & H2 & H3). simpl in *.
  assert (forall i g, gs !! i = Some g -> m_bOwnLock g = true -> sum_list_with owns (delete i gs) = 0%nat /\ sum_list_with owns gs = 1%nat) as Hone.
  { intros i g E Eo. assert (owns g = 1%nat) as Ho by (unfold owns; by rewrite Eo).
    assert (sum_list_with owns gs = owns g + sum_list_with owns (delete i gs))%nat; [|lia].
    rewrite delete_take_drop. rewrite <- (take_drop_middle _ _ _ E) at 1. rewrite !sum_list_with_app. simpl. lia. }
  assert (forall l, sum_list_with owns l = 0%nat -> forall i g, l !! i = Some g -> m_bOwnLock g = false) as Hnone.
  { induction l as [|x l IH]; intros Hl i g E; [done|]. simpl in Hl. destruct i as [|i]; [injection E as ->|apply (IH ltac:(lia) i g E)].
    unfold owns in Hl. by destruct (m_bOwnLock g). }
  split_and!.
  - intros i j g g' E E' Eo Eo'. destruct (decide (i = j)) as [|Hne]; [done|]. exfalso. destruct (Hone i g E Eo) as [H0 _].
    assert (exists k, delete i gs !! k = Some g') as [k Ek].
    { destruct (decide (j < i)%nat); [exists j; by rewrite list_lookup_delete_lt|]. exists (pred j). rewrite list_lookup_delete_ge by lia.
      by replace (S (pred j)) with j by lia. }
    by rewrite (Hnone _ H0 _ _ Ek) in Eo'.
  - unfold LOCKED. split.
    + intros ->. apply owner_exists. lia.
    + intros (i & g & E & Eo). destruct (Hone i g E Eo). lia.
  - unfold LOCKED, UNLOCKED. lia.
  - intros i g E Eo. rewrite Forall_lookup in H3. unfold lock_run. by destruct (H3 _ _ E Eo) as [-> | ->].
Qed.

(** ** Lock on a free lock *)

Fixpoint lock_runs (n : nat) (s : Z * guard) : option (Z * guard) :=
  match n with O => Some s | S n => s ← lock_run s; lock_runs n s end.

(** Pieces of [Lock] until it has the lock, when nobody else takes it. *)
Definition patience (pc : lock_pc) : nat :=
  match pc with Top | Retry _ => 1 | Pause n i => Z.to_nat (n - i) + 2 | Yield => 2 | Idle | Thrown => 0 end.

Lemma lock_patience (g : guard) : g_pc g <> Idle -> g_pc g <> Thrown ->
  lock_runs (patience (g_pc g)) (UNLOCKED, g) = Some (LOCKED, owning true g).
Proof.
  intros H1 H2. destruct (g_pc g) eqn:E; try done; simpl; rewrite ?E; simpl; try done.
  assert (forall k i g, Z.to_nat (n - i) = k -> g_pc g = Pause n i ->
    lock_runs (k + 2) (UNLOCKED, g) = Some (LOCKED, owning true g)) as H.
  { clear. induction k as [|k IH]; intros i g Ek E; simpl; rewrite E; simpl.
    - destruct (Z.ltb_spec i n); [lia|]. done.
    - destruct (Z.ltb_spec i n); [|lia]. rewrite (IH (i + 1) (at_pc (Pause n (i + 1)) g)); [done|lia|done]. }
  by apply (H _ i g).
Qed.

(** Two guards: the first has the lock, the second spins on it. *)
Definition demo_locked : Z * list guard := (1, [owning true (make None false); at_pc (Pause 1 0) (make (Some 3) false)]).
Lemma demo_locked_reachable : lock_reachable demo_locked.
Proof.
  pose proof lkr_init as H. eapply lkr_step in H; [|apply (lk_make _ _ None false)]. eapply lkr_step in H; [|apply (lk_make _ _ (Some 3) false)].
  eapply lkr_step in H; [|by eapply (lk_run _ _ 0)]. eapply lkr_step in H; [|by eapply (lk_run _ _ 1)]. exact H.
Qed.

Lemma spin_exclusive_witness : exists i g, demo_locked.2 !! i = Some g /\ m_bOwnLock g = true.
Proof. apply (spin_exclusive 1 demo_locked.2 demo_locked_reachable). reflexivity. Defined.

End SpinLock.

Module RwMutex.

(** [pthread_rwlock_t] *)
Record rwlock := MkRw { rw_readers : nat; rw_writer : bool }.

(** [None]: the call waits. *)
Definition RLock (m : rwlock) : option rwlock := if rw_writer m then None else Some (MkRw (S (rw_readers m)) false).
Definition TryRLock (m : rwlock) : bool * rwlock := match RLock m with Some m => (true, m) | None => (false, m) end.
Definition WLock (m : rwlock) : option rwlock :=
  if rw_writer m || negb (Nat.eqb (rw_readers m) 0) then None else Some (MkRw 0 true).
Definition TryWLock (m : rwlock) : bool * rwlock := match WLock m with Some m => (true, m) | None => (false, m) end.
Definition UnLock (m : rwlock) : rwlock := if rw_writer m then MkRw 0 false else MkRw (pred (rw_readers m)) false.

(** [ReadLock] and [WriteLock].  [h_has] is whether the guard has really locked: [Lock] does
    not note it in [m_bOwnLock]. *)
Inductive mode := Reading | Writing.
Record holder := MkHolder { h_mode : mode; m_bOwnLock : bool; h_has : bool }.

Definition acquire (md : mode) (m : rwlock) : option rwlock := match md with Reading => RLock m | Writing => WLock m end.

(** The constructor that locks, and the deferring one *)
Definition make (md : mode) (m : rwlock) : option (rwlock * holder) := m ← acquire md m; Some (m, MkHolder md true true).
Definition make_deferred (md : mode) : holder := MkHolder md false false.

(** [inr tt]: an exception *)
Definition TryLock (m : rwlock) (h : holder) : (bool * rwlock * holder) + unit :=
  if m_bOwnLock h then inr tt
  else
    let '(ok, m) := match h_mode h with Reading => TryRLock m | Writing => TryWLock m end in
    inl (ok, m, MkHolder (h_mode h) ok (ok || h_has h)).
Definition Lock (m : rwlock) (h : holder) : option (rwlock * holder) + unit :=
  if m_bOwnLock h then inr tt
  else inl (m ← acquire (h_mode h) m; Some (m, MkHolder (h_mode h) (m_bOwnLock h) true)).
Definition Unlock (m : rwlock) (h : holder) : (rwlock * holder) + unit :=
  if negb (m_bOwnLock h) then inr tt else inl (UnLock m, MkHolder (h_mode h) false false).
Definition destroy (m : rwlock) (h : holder) : rwlock :=
  if m_bOwnLock h then match Unlock m h with inl (m, _) => m | inr _ => m end else m.

(** ** Guards that lock in their constructor or by TryLock *)

Inductive rw_step : rwlock * list holder -> rwlock * list holder -> Prop :=
  | rs_make m hs md m' h : make md m = Some (m', h) -> rw_step (m, hs) (m', hs ++ [h])
  | rs_deferred m hs md : rw_step (m, hs) (m, hs ++ [make_deferred md])
  | rs_try m hs i h ok m' h' : hs !! i = Some h -> TryLock m h = inl (ok, m', h') -> rw_step (m, hs) (m', <[i := h']> hs)
  | rs_unlock m hs i h m' h' : hs !! i = Some h -> Unlock m h = inl (m', h') -> rw_step (m, hs) (m', <[i := h']> hs)
  | rs_destroy m hs i h : hs !! i = Some h -> rw_step (m, hs) (destroy m h, delete i hs).

Inductive rw_reachable : rwlock * list holder -> Prop :=
  | rr_init : rw_reachable (MkRw 0 false, [])
  | rr_step s s' : rw_reachable s -> rw_step s s' -> rw_reachable s'.

Definition reads (h : holder) : nat := match h_mode h with Reading => if m_bOwnLock h then 1 else 0 | Writing => 0 end.
Definition writes (h : holder) : nat := match h_mode h with Writing => if m_bOwnLock h then 1 else 0 | Reading => 0 end.

Definition rw_inv (s : rwlock * list holder) : Prop :=
  rw_readers s.1 = sum_list_with reads s.2 /\ (if rw_writer s.1 then 1%nat else 0%nat) = sum_list_with writes s.2 /\
  (rw_writer s.1 = true -> rw_readers s.1 = 0%nat) /\ Forall (fun h => m_bOwnLock h = h_has h) s.2.

Lemma sum_at (f : holder -> nat) hs i h : hs !! i = Some h -> sum_list_with f hs = (f h + sum_list_with f (delete i hs))%nat.
Proof. intros E. rewrite delete_take_drop. rewrite <- (take_drop_middle _ _ _ E) at 1. rewrite !sum_list_with_app. simpl. lia. Qed.
Lemma sum_insert (f : holder -> nat) hs i h h' : hs !! i = Some h -> sum_list_with f (<[i := h']> hs) = (f h' + sum_list_with f (delete i hs))%nat.
Proof.
  intros E. rewrite delete_take_drop, insert_take_drop by (by eapply lookup_lt_Some). rewrite !sum_list_with_app. simpl. lia.
Qed.

(** The lock without the guard [h], and with [h'] in its place. *)
Definition without (h : holder) (m : rwlock) (r w : nat) : Prop :=
  rw_readers m = (reads h + r)%nat /\ (if rw_writer m then 1%nat else 0%nat) = (writes h + w)%nat /\ (rw_writer m = true -> rw_readers m = 0%nat).

Lemma acquire_without md m m' r w : acquire md m = Some m' -> without (make_deferred md) m r w -> without (MkHolder md true true) m' r w.
Proof.
  unfold acquire, without, reads, writes, RLock, WLock. destruct md, (rw_writer m) eqn:Ew; simpl; intros E; try done.
  - injection E as <-. simpl. intuition lia.
  - destruct (rw_readers m) eqn:Er; simpl in E; [|done]. injection E as <-. simpl. intuition lia.
Qed.

Lemma release_without md m r w b : without (MkHolder md true b) m r w -> without (make_deferred md) (UnLock m) r w.
Proof.
  unfold UnLock, without, reads, writes. destruct md, (rw_writer m) eqn:Ew; simpl; intuition lia.
Qed.

Lemma rw_without m hs i h : rw_inv (m, hs) -> hs !! i = Some h ->
  without h m (sum_list_with reads (delete i hs)) (sum_list_with writes (delete i hs)) /\ m_bOwnLock h = h_has h.
Proof.
  intros (H1 & H2 & H3 & H4) E. simpl in *. rewrite (sum_at reads _ _ _ E) in H1. rewrite (sum_at writes _ _ _ E) in H2.
  split; [by split_and!|]. by eapply Forall_lookup_1 in H4.
Qed.

Lemma rw_change m hs i h m' h' : rw_inv (m, hs) -> hs !! i = Some h ->
  (forall r w, without h m r w -> without h' m' r w) -> m_bOwnLock h' = h_has h' -> rw_inv (m', <[i := h']> hs).
Proof.
  intros HI E Hw Hf. destruct (rw_without _ _ _ _ HI E) as [H _]. apply Hw in H as (R1 & R2 & R3).
  split; [|split; [|split]]; simpl; rewrite ?(sum_insert reads _ _ _ _ E), ?(sum_insert writes _ _ _ _ E); try done. apply Forall_insert; [apply HI|done].
Qed.

Lemma rw_inv_step s s' : rw_inv s -> rw_step s s' -> rw_inv s'.
Proof.
  intros HI Hst. destruct Hst as [m hs md m' h E|m hs md|m hs i h ok m' h' E Et|m hs i h m' h' E Eu|m hs i h E].
  - unfold make in E. destruct (acquire md m) as [m1|] eqn:Ea; [|done]. injection E as <- <-. destruct HI as (H1 & H2 & H3 & H4). simpl in *.
    destruct (acquire_without md m m1 (sum_list_with reads hs) (sum_list_with writes hs) Ea) as (R1 & R2 & R3).
    { unfold without, reads, writes. destruct md; simpl; auto. }
    split; [|split; [|split]]; simpl; rewrite ?sum_list_with_app; simpl; [lia|lia|done|]. apply Forall_app. split; [done|by apply Forall_singleton].
  - destruct HI as (H1 & H2 & H3 & H4). split; [|split; [|split]]; simpl in *; rewrite ?sum_list_with_app; simpl;
      [unfold reads at 2; destruct md; simpl; lia|unfold writes at 2; destruct md; simpl; lia|done|]. apply Forall_app. split; [done|by apply Forall_singleton].
  - destruct (rw_without _ _ _ _ HI E) as [_ Hf]. destruct h as [md own has]. unfold TryLock in Et. simpl in *. subst has. destruct own; [done|].
    assert (let '(ok, m') := match md with Reading => TryRLock m | Writing => TryWLock m end in
      ok = true /\ acquire md m = Some m' \/ ok = false /\ m' = m) as Hok.
    { unfold TryRLock, TryWLock, acquire. destruct md; [destruct (RLock m)|destruct (WLock m)]; auto. }
    destruct (match md with Reading => TryRLock m | Writing => TryWLock m end) as [ok1 m1]. injection Et as <- <- <-.
    eapply rw_change; [done|done| |by destruct ok1]. intros r w Hr. destruct Hok as [[-> Ea]|[-> ->]]; [|done]. by eapply acquire_without.
  - destruct h as [md own has]. unfold Unlock in Eu. simpl in *. destruct own; [|done]. injection Eu as <- <-.
    eapply rw_change; [done|done| |done]. intros r w Hr. by eapply release_without.
  - destruct (rw_without _ _ _ _ HI E) as [Hw Hf]. destruct HI as (_ & _ & _ & H4). destruct h as [md own has]. unfold destroy, Unlock. simpl in *.
    assert (without (make_deferred md) (if own then UnLock m else m) (sum_list_with reads (delete i hs)) (sum_list_with writes (delete i hs))) as (R1 & R2 & R3).
    { destruct own; [by eapply release_without|exact Hw]. }
    assert (reads (make_deferred md) = 0%nat /\ writes (make_deferred md) = 0%nat) as [Z1 Z2] by (by destruct md).
    rewrite Z1 in R1. rewrite Z2 in R2. destruct own; (split; [|split; [|split]]); try done; by apply Forall_delete.
Qed.

Lemma rw_inv_reachable s : rw_reachable s -> rw_inv s.
Proof. induction 1; [split; [done|]; split; [done|]; split; [done|by apply Forall_nil_2]|by eapply rw_inv_step]. Qed.

(** Guards that lock when they are made, or by [TryLock], exclude each other: a writer is
    alone, and what the lock counts are the guards that own it, so that the destructors of
    the guards leave it free. *)
Theorem rw_exclusive (m : rwlock) (hs : list holder) (Hs : rw_reachable (m, hs)) :
  (rw_writer m = true -> sum_list_with writes hs = 1%nat /\ sum_list_with reads hs = 0%nat) /\
  (rw_writer m = false -> sum_list_with writes hs = 0%nat) /\ (hs = [] -> m = MkRw 0 false).
Proof.
  destruct (rw_inv_reachable _ Hs) as (H1 & H2 & H3 & _). simpl in *. split_and!.
  - intros Ew. rewrite Ew in H2. specialize (H3 Ew). lia.
  - intros Ew. by rewrite Ew in H2.
  - intros ->. simpl in *. destruct m as [r [|]]; simpl in *; [lia|by subst].
Qed.

(** [Lock] of a deferred guard takes the lock without noting it: [Unlock] throws, the
    destructor does nothing, and the lock stays taken for ever. *)
Theorem deferred_lock_is_never_released :
  exists m h, Lock (MkRw 0 false) (make_deferred Writing) = inl (Some (m, h)) /\ Unlock m h = inr tt /\
    rw_writer (destroy m h) = true /\ WLock (destroy m h) = None /\ RLock (destroy m h) = None.
Proof. eexists _, _. by split_and!. Qed.

End RwMutex.
