(* ===== verification/CJson.v ===== *)
(** * The JSON parser (src/3rd/cjson/cJSON.c)

    The parser of the configuration files, function by function.  A [parse_buffer] is the text
    with a position and a nesting depth; beside it runs the library's own state: the blocks the
    allocator has handed out and the place of the last error.  A read outside of the text, a
    write outside of an allocated string and a free of what is not allocated are undefined
    behaviour.  The allocator may refuse any request.

    The siblings of an item, linked by [next] and [prev] in the code, are a list here. *)

From S2P Require Import Prelude.
From Stdlib Require Import SpecFloat.

(** ** Items *)

Definition cJSON_Invalid : Z := 0.
Definition cJSON_False : Z := Z.shiftl 1 0.
Definition cJSON_True : Z := Z.shiftl 1 1.
Definition cJSON_NULL : Z := Z.shiftl 1 2.
Definition cJSON_Number : Z := Z.shiftl 1 3.
Definition cJSON_String : Z := Z.shiftl 1 4.
Definition cJSON_Array : Z := Z.shiftl 1 5.
Definition cJSON_Object : Z := Z.shiftl 1 6.
Definition cJSON_IsReference : Z := 256.
Definition cJSON_StringIsConst : Z := 512.
Definition CJSON_NESTING_LIMIT : Z := 1000.

(** A heap string: its block and its bytes, without the terminator. *)
Definition cstr : Type := Z * list byte.

(** An item: its block, type, [valuestring], [valueint], [valuedouble], [string] and children. *)
Inductive item :=
  MkItem (addr type : Z) (valuestring : option cstr) (valueint : Z) (valuedouble : spec_float) (name : option cstr) (child : list item).

Definition i_type (it : item) : Z := let 'MkItem _ t _ _ _ _ _ := it in t.
Definition i_valuestring (it : item) : option cstr := let 'MkItem _ _ v _ _ _ _ := it in v.
Definition i_valueint (it : item) : Z := let 'MkItem _ _ _ i _ _ _ := it in i.
Definition i_name (it : item) : option cstr := let 'MkItem _ _ _ _ _ s _ := it in s.
Definition i_child (it : item) : list item := let 'MkItem _ _ _ _ _ _ c := it in c.

Definition set_type t (it : item) : item := let 'MkItem a _ v i d s c := it in MkItem a t v i d s c.
Definition set_valuestring v (it : item) : item := let 'MkItem a t _ i d s c := it in MkItem a t v i d s c.
Definition set_valueint i (it : item) : item := let 'MkItem a t v _ d s c := it in MkItem a t v i d s c.
Definition set_valuedouble d (it : item) : item := let 'MkItem a t v i _ s c := it in MkItem a t v i d s c.
Definition set_name s (it : item) : item := let 'MkItem a t v i d _ c := it in MkItem a t v i d s c.
Definition set_child c (it : item) : item := let 'MkItem a t v i d s _ := it in MkItem a t v i d s c.

(** ** The state of the library *)

(** The live blocks, the next block, the answers of the allocator (yes when they are used up)
    and the position of the last error ([None]: no text). *)
Record lib := MkLib { l_live : list Z; l_next : Z; l_grants : list bool; global_error : option Z }.

Definition grant_block (l : lib) : lib := MkLib (l_next l :: l_live l) (l_next l + 1) (tail (l_grants l)) (global_error l).
Definition refuse_block (l : lib) : lib := MkLib (l_live l) (l_next l) (tail (l_grants l)) (global_error l).
Definition set_live b (l : lib) : lib := MkLib b (l_next l) (l_grants l) (global_error l).
Definition set_error e (l : lib) : lib := MkLib (l_live l) (l_next l) (l_grants l) e.

(** [hooks.allocate] *)
Definition allocate : M lib (option Z) := fun l =>
  if default true (head (l_grants l)) then (Ok (Some (l_next l)), grant_block l) else (Ok None, refuse_block l).

Fixpoint remove_block (p : Z) (live : list Z) : option (list Z) :=
  match live with
  | [] => None
  | q :: live => if p =? q then Some live else r ← remove_block p live; Some (q :: r)
  end.

(** [hooks.deallocate]: freeing what is not allocated is undefined. *)
Definition deallocate (p : Z) : M lib unit :=
  live ← getS l_live;
  live ← of_mem (remove_block p live);
  modS (set_live live).

Definition cJSON_New_Item : M lib (option item) :=
  p ← allocate;
  mret (match p with Some p => Some (MkItem p cJSON_Invalid None 0 (S754_zero false) None []) | None => None end).

(** [cJSON_Delete] of one item, then of a chain. *)
Fixpoint delete_item (it : item) : M lib unit :=
  let 'MkItem a t v _ _ s c := it in
  (if Z.land t cJSON_IsReference =? 0 then
     (fix chain (c : list item) : M lib unit := match c with [] => mret tt | x :: c => delete_item x;; chain c end) c
   else mret tt);;
  (match v with Some (p, _) => if Z.land t cJSON_IsReference =? 0 then deallocate p else mret tt | None => mret tt end);;
  (match s with Some (p, _) => if Z.land t cJSON_StringIsConst =? 0 then deallocate p else mret tt | None => mret tt end);;
  deallocate a.

Fixpoint cJSON_Delete (chain : list item) : M lib unit :=
  match chain with [] => mret tt | x :: chain => delete_item x;; cJSON_Delete chain end.

(** ** The buffer *)

Record parse_buffer := MkBuffer { content : list byte; pb_length : Z; offset : Z; depth : Z }.

Definition set_offset o (b : parse_buffer) : parse_buffer := MkBuffer (content b) (pb_length b) o (depth b).
Definition add_depth d (b : parse_buffer) : parse_buffer := MkBuffer (content b) (pb_length b) (offset b) (depth b + d).

Definition P (A : Type) : Type := M (parse_buffer * lib) A.

Definition advance (n : Z) : P unit := modO (fun b => set_offset (offset b + n) b).

Definition mem_at (m : list byte) (p : Z) : option byte := if 0 <=? p then m !! Z.to_nat p else None.

(** The byte at a position of the text. *)
Definition rd (p : Z) : P byte := m ← getO content; of_mem (mem_at m p).

Definition can_read (size : Z) : P bool := getO (fun b => offset b + size <=? pb_length b).
Definition can_access_at_index (i : Z) : P bool := getO (fun b => offset b + i <? pb_length b).

(** [buffer_at_offset(buffer)[i]] *)
Definition at_index (i : Z) : P byte := o ← getO offset; rd (o + i).

(** [can_access_at_index(buffer, 0) && buffer_at_offset(buffer)[0] == c] *)
Definition next_is (c : byte) : P bool :=
  a ← can_access_at_index 0;
  if a : bool then b ← at_index 0; mret (Byte.eqb b c) else mret false.

(** [strncmp(p, lit, strlen(lit)) == 0] *)
Fixpoint starts_with (p : Z) (lit : list byte) : P bool :=
  match lit with
  | [] => mret true
  | c :: lit => b ← rd p; if Byte.eqb b c then starts_with (p + 1) lit else mret false
  end.

Definition literal (n : Z) (lit : list byte) : P bool :=
  r ← can_read n;
  if r : bool then o ← getO offset; starts_with o lit else mret false.

Fixpoint skip_loop (fuel : nat) : P unit :=
  match fuel with
  | O => halt Diverged
  | S fuel =>
      a ← can_access_at_index 0;
      if a : bool then b ← at_index 0; if b2z b <=? 32 then advance 1;; skip_loop fuel else mret tt
      else mret tt
  end.

Definition buffer_skip_whitespace : P unit :=
  n ← getO (fun b => S (Z.to_nat (pb_length b)));
  skip_loop n;;
  e ← getO (fun b => offset b =? pb_length b);
  if e : bool then advance (-1) else mret tt.

(** [skip_utf8_bom]; it is called at the start of the text, [false] is the null pointer. *)
Definition skip_utf8_bom : P bool :=
  o ← getO offset;
  if negb (o =? 0) then mret false
  else
    a ← can_access_at_index 4;
    (if a : bool then
       bom ← starts_with o [xef; xbb; xbf];
       if bom : bool then advance 3 else mret tt
     else mret tt);;
    mret true.

(** ** Strings *)

Definition hex_digit (b : Z) : option Z :=
  if (48 <=? b) && (b <=? 57) then Some (b - 48)
  else if (65 <=? b) && (b <=? 70) then Some (10 + b - 65)
  else if (97 <=? b) && (b <=? 102) then Some (10 + b - 97)
  else None.

(** The loop of [parse_hex4] with [n] digits to go. *)
Fixpoint hex_loop (n : nat) (input h : Z) : P Z :=
  match n with
  | O => mret h
  | S n =>
      b ← rd input;
      match hex_digit (b2z b) with
      | None => mret 0
      | Some d => let h := u32 (h + d) in hex_loop n (input + 1) (if (0 <? n)%nat then u32 (Z.shiftl h 4) else h)
      end
  end.

Definition parse_hex4 (input : Z) : P Z := hex_loop 4 input 0.

(** The bytes of a code point from the last on, [n] of them before the first. *)
Fixpoint utf8_tail (n : nat) (codepoint : Z) (out : list byte) : Z * list byte :=
  match n with
  | O => (codepoint, out)
  | S n => utf8_tail n (Z.shiftr codepoint 6) (z2b (Z.land (Z.lor codepoint 128) 191) :: out)
  end.

Definition utf8_encode (codepoint : Z) : option (list byte) :=
  '(len, mark) ←
    (if codepoint <? 128 then Some (1%nat, 0)
     else if codepoint <? 2048 then Some (2%nat, 192)
     else if codepoint <? 65536 then Some (3%nat, 224)
     else if codepoint <=? 1114111 then Some (4%nat, 240)
     else None);
  let '(codepoint, out) := utf8_tail (len - 1) codepoint [] in
  Some (z2b (if (1 <? len)%nat then Z.land (Z.lor codepoint mark) 255 else Z.land codepoint 127) :: out).

(** [utf16_literal_to_utf8]: the length of the sequence, 0 on failure, and the bytes to write. *)
Definition utf16_literal_to_utf8 (input_pointer input_end : Z) : P (Z * list byte) :=
  let fail := mret (0, []) in
  if input_end - input_pointer <? 6 then fail
  else
    first_code ← parse_hex4 (input_pointer + 2);
    if (56320 <=? first_code) && (first_code <=? 57343) then fail
    else
      let finish sequence_length codepoint :=
        mret (match utf8_encode codepoint with Some out => (sequence_length, out) | None => (0, []) end) in
      if (55296 <=? first_code) && (first_code <=? 56319) then
        let second_sequence := input_pointer + 6 in
        if input_end - second_sequence <? 6 then fail
        else
          b ← rd second_sequence;
          b' ← (if Byte.eqb b x5c then rd (second_sequence + 1) else mret b);
          if negb (Byte.eqb b x5c) || negb (Byte.eqb b' "u"%byte) then fail
          else
            second_code ← parse_hex4 (second_sequence + 2);
            if (second_code <? 56320) || (57343 <? second_code) then fail
            else finish 12 (65536 + Z.lor (Z.shiftl (Z.land first_code 1023) 10) (Z.land second_code 1023))
      else finish 6 first_code.

(** The first pass over a string from [input_end] on: where it ends and how many bytes are only
    there to escape others; [None] when it does not end. *)
Fixpoint scan_string (fuel : nat) (input_end skipped_bytes : Z) : P (option (Z * Z)) :=
  match fuel with
  | O => halt Diverged
  | S fuel =>
      len ← getO pb_length;
      if len <=? input_end then mret None
      else
        b ← rd input_end;
        if Byte.eqb b x22 then mret (Some (input_end, skipped_bytes))
        else if Byte.eqb b x5c then
          if len <=? input_end + 1 then mret None
          else scan_string fuel (input_end + 2) (skipped_bytes + 1)
        else scan_string fuel (input_end + 1) skipped_bytes
  end.

(** A write of [bs] behind the [out] bytes of a block of [size] bytes. *)
Definition put_out (size : Z) (out bs : list byte) : P (list byte) :=
  if zlen out + zlen bs <=? size then mret (out ++ bs) else halt Undefined.

Definition simple_escape (c : byte) : option byte :=
  if Byte.eqb c "b" then Some x08
  else if Byte.eqb c "f" then Some x0c
  else if Byte.eqb c "n" then Some x0a
  else if Byte.eqb c "r" then Some x0d
  else if Byte.eqb c "t" then Some x09
  else if Byte.eqb c x22 || Byte.eqb c x5c || Byte.eqb c "/" then Some c
  else None.

(** The second pass: [inl] is the written output; [inr] the position of a failure. *)
Fixpoint unescape (fuel : nat) (size input_pointer input_end : Z) (out : list byte) : P (list byte + Z) :=
  match fuel with
  | O => halt Diverged
  | S fuel =>
      if input_pointer <? input_end then
        b ← rd input_pointer;
        if negb (Byte.eqb b x5c) then
          out ← put_out size out [b];
          unescape fuel size (input_pointer + 1) input_end out
        else if input_end - input_pointer <? 1 then mret (inr input_pointer)
        else
          c ← rd (input_pointer + 1);
          match simple_escape c with
          | Some e => out ← put_out size out [e]; unescape fuel size (input_pointer + 2) input_end out
          | None =>
              if Byte.eqb c "u" then
                '(sequence_length, bs) ← utf16_literal_to_utf8 input_pointer input_end;
                if sequence_length =? 0 then mret (inr input_pointer)
                else
                  out ← put_out size out bs;
                  unescape fuel size (input_pointer + sequence_length) input_end out
              else mret (inr input_pointer)
          end
      else mret (inl out)
  end.

Definition parse_string (it : item) : P (bool * item) :=
  start ← getO offset;
  n ← getO (fun b => S (Z.to_nat (pb_length b)));
  let input_pointer := start + 1 in
  let fail p := modO (set_offset p);; mret (false, it) in
  b ← at_index 0;
  if negb (Byte.eqb b x22) then fail input_pointer
  else
    scan ← scan_string n input_pointer 0;
    match scan with
    | None => fail input_pointer
    | Some (input_end, skipped_bytes) =>
        let allocation_length := input_end - start - skipped_bytes in
        output ← io allocate;
        match output with
        | None => fail input_pointer
        | Some output =>
            let size := allocation_length + 1 in
            r ← unescape n size input_pointer input_end [];
            match r with
            | inr p => io (deallocate output);; fail p
            | inl out =>
                (* the terminator *)
                put_out size out [x00];;
                modO (set_offset (input_end + 1));;
                mret (true, set_valuestring (Some (output, out)) (set_type cJSON_String it))
            end
        end
    end.

(** ** Numbers *)

Definition INT_MAX : Z := 2147483647.
Definition INT_MIN : Z := -2147483648.

Definition is_digit (b : byte) : bool := (48 <=? b2z b) && (b2z b <=? 57).

(** The digits at the front: their value behind the digits [acc], their number, the rest. *)
Fixpoint digits (s : list byte) (acc : Z) : Z * nat * list byte :=
  match s with
  | b :: s' =>
      if is_digit b then let '(v, n, r) := digits s' (10 * acc + (b2z b - 48)) in (v, S n, r) else (acc, O, s)
  | [] => (acc, O, [])
  end.

Definition is_sign (b : byte) : bool := Byte.eqb b "+" || Byte.eqb b "-".

(** A sign, if there is one: whether it is a minus, its length, the rest. *)
Definition sign (s : list byte) : bool * nat * list byte :=
  match s with
  | b :: s' => if is_sign b then (Byte.eqb b "-", 1%nat, s') else (false, O, s)
  | [] => (false, O, [])
  end.

(** The double nearest to [m * 10^e], ties to even; beyond these exponents every [m] of a
    number of at most 63 characters overflows or vanishes. *)
Definition decimal (neg : bool) (m e : Z) : spec_float :=
  match m with
  | Zpos p =>
      if 400 <? e then S754_infinity neg
      else if e <? -500 then S754_zero neg
      else if 0 <=? e then binary_normalize 53 1024 (if neg then - (m * 10 ^ e) else m * 10 ^ e) 0 neg
      else SFdiv 53 1024 (S754_finite neg p 0) (S754_finite false (Z.to_pos (10 ^ (- e))) 0)
  | _ => S754_zero neg
  end.

(** The exponent at the front and its length; none without a digit. *)
Definition exponent (s : list byte) : Z * nat :=
  match s with
  | b :: s =>
      if Byte.eqb b "e" || Byte.eqb b "E" then
        let '(neg, n1, s) := sign s in
        let '(e, n2, _) := digits s 0 in
        if (n2 =? 0)%nat then (0, O) else (if neg then - e else e, S (n1 + n2))
      else (0, O)
  | [] => (0, O)
  end.

(** [strtod] on text of digits, signs, points and exponent letters: the number and how many
    characters it took, none when there is no number. *)
Definition strtod (s : list byte) : spec_float * nat :=
  let '(neg, n0, s) := sign s in
  let '(m, n1, s) := digits s 0 in
  let '(m, n2, point, s) :=
    match s with
    | b :: s' => if Byte.eqb b "." then let '(m, n2, s) := digits s' m in (m, n2, 1%nat, s) else (m, O, O, s)
    | [] => (m, O, O, s)
    end in
  if (n1 + n2 =? 0)%nat then (S754_zero false, O)
  else
    let '(e, n3) := exponent s in
    (decimal neg m (e - Z.of_nat n2), n0 + n1 + point + n2 + n3)%nat.

(** [m * 2^e] against the integer [k], both non-negative. *)
Definition mag_le (k m e : Z) : bool := if 0 <=? e then k <=? m * 2 ^ e else k * 2 ^ (- e) <=? m.
Definition mag_trunc (m e : Z) : Z := if 0 <=? e then m * 2 ^ e else m / 2 ^ (- e).

(** [number >= INT_MAX], [number <= (double)INT_MIN]; both integers are exact doubles. *)
Definition ge_INT_MAX (number : spec_float) : bool :=
  match number with S754_infinity s => negb s | S754_finite false m e => mag_le INT_MAX (Zpos m) e | _ => false end.
Definition le_INT_MIN (number : spec_float) : bool :=
  match number with S754_infinity s => s | S754_finite true m e => mag_le (- INT_MIN) (Zpos m) e | _ => false end.

(** [(int)number]: undefined when the truncated value does not fit. *)
Definition to_int (number : spec_float) : option Z :=
  match number with
  | S754_zero _ => Some 0
  | S754_finite s m e =>
      let t := if s then - mag_trunc (Zpos m) e else mag_trunc (Zpos m) e in
      if (INT_MIN <=? t) && (t <=? INT_MAX) then Some t else None
  | _ => None
  end.

Definition number_char (b : byte) : bool :=
  is_digit b || is_sign b || Byte.eqb b "e" || Byte.eqb b "E" || Byte.eqb b ".".

(** The copy into [number_c_string], which has [room] more characters; the decimal point of
    the C locale is the point. *)
Fixpoint copy_number (room : nat) (i : Z) : P (list byte) :=
  match room with
  | O => mret []
  | S room =>
      a ← can_access_at_index i;
      if a : bool then
        b ← at_index i;
        if number_char b then bs ← copy_number room (i + 1); mret (b :: bs) else mret []
      else mret []
  end.

Definition parse_number (it : item) : P (bool * item) :=
  number_c_string ← copy_number 63 0;
  let '(number, after_end) := strtod number_c_string in
  if (after_end =? 0)%nat then mret (false, it)
  else
    let it := set_valuedouble number it in
    i ← (if ge_INT_MAX number then mret INT_MAX
         else if le_INT_MIN number then mret INT_MIN
         else of_mem (to_int number));
    let it := set_type cJSON_Number (set_valueint i it) in
    advance (Z.of_nat after_end);;
    mret (true, it).

(** ** Values *)

Section containers.
(** [parse_value], one level further down. *)
Context (parse_value : item -> P (bool * item)).

(** The elements behind [head]; each is attached to the chain before it is parsed. *)
Fixpoint array_loop (fuel : nat) (head : list item) : P (bool * list item) :=
  match fuel with
  | O => halt Diverged
  | S fuel =>
      new_item ← io cJSON_New_Item;
      match new_item with
      | None => mret (false, head)
      | Some current_item =>
          advance 1;;
          buffer_skip_whitespace;;
          '(ok, current_item) ← parse_value current_item;
          let head := head ++ [current_item] in
          if ok : bool then
            buffer_skip_whitespace;;
            comma ← next_is ",";
            if comma : bool then array_loop fuel head else mret (true, head)
          else mret (false, head)
      end
  end.

(** The members behind [head]: a name, a colon, a value. *)
Fixpoint object_loop (fuel : nat) (head : list item) : P (bool * list item) :=
  match fuel with
  | O => halt Diverged
  | S fuel =>
      new_item ← io cJSON_New_Item;
      match new_item with
      | None => mret (false, head)
      | Some current_item =>
          advance 1;;
          buffer_skip_whitespace;;
          '(ok, current_item) ← parse_string current_item;
          if ok : bool then
            buffer_skip_whitespace;;
            let current_item := set_valuestring None (set_name (i_valuestring current_item) current_item) in
            colon ← next_is ":";
            if colon : bool then
              advance 1;;
              buffer_skip_whitespace;;
              '(ok, current_item) ← parse_value current_item;
              let head := head ++ [current_item] in
              if ok : bool then
                buffer_skip_whitespace;;
                comma ← next_is ",";
                if comma : bool then object_loop fuel head else mret (true, head)
              else mret (false, head)
            else mret (false, head ++ [current_item])
          else mret (false, head ++ [current_item])
      end
  end.

(** [parse_array] and [parse_object] differ in the test of the opening bracket, the closing
    one, the loop and the type. *)
Definition parse_chain (opened : P bool) (closing : byte) (loop : nat -> list item -> P (bool * list item)) (type : Z) (it : item) : P (bool * item) :=
  d ← getO depth;
  if CJSON_NESTING_LIMIT <=? d then mret (false, it)
  else
    let fail head := io (cJSON_Delete head);; mret (false, it) in
    let success head := modO (add_depth (-1));; advance 1;; mret (true, set_child head (set_type type it)) in
    modO (add_depth 1);;
    o ← opened;
    if negb o then fail []
    else
      advance 1;;
      buffer_skip_whitespace;;
      empty ← next_is closing;
      if empty : bool then success []
      else
        a ← can_access_at_index 0;
        if negb a then advance (-1);; fail []
        else
          advance (-1);;
          n ← getO (fun b => S (Z.to_nat (pb_length b)));
          '(ok, head) ← loop n [];
          if ok : bool then
            closed ← next_is closing;
            if closed : bool then success head else fail head
          else fail head.

Definition parse_array : item -> P (bool * item) :=
  parse_chain (b ← at_index 0; mret (Byte.eqb b "[")) "]" array_loop cJSON_Array.

Definition parse_object : item -> P (bool * item) :=
  parse_chain (next_is "{") "}" object_loop cJSON_Object.
End containers.

Fixpoint parse_value (levels : nat) (it : item) : P (bool * item) :=
  match levels with
  | O => halt Diverged
  | S levels =>
      null ← literal 4 ["n"; "u"; "l"; "l"]%byte;
      if null : bool then advance 4;; mret (true, set_type cJSON_NULL it)
      else
      false_ ← literal 5 ["f"; "a"; "l"; "s"; "e"]%byte;
      if false_ : bool then advance 5;; mret (true, set_type cJSON_False it)
      else
      true_ ← literal 4 ["t"; "r"; "u"; "e"]%byte;
      if true_ : bool then advance 4;; mret (true, set_valueint 1 (set_type cJSON_True it))
      else
      quote ← next_is x22;
      if quote : bool then parse_string it
      else
      a ← can_access_at_index 0;
      number ← (if a : bool then b ← at_index 0; mret (Byte.eqb b "-" || is_digit b) else mret false);
      if number : bool then parse_number it
      else
      array ← next_is "[";
      if array : bool then parse_array (parse_value levels) it
      else
      object ← next_is "{";
      if object : bool then parse_object (parse_value levels) it
      else mret (false, it)
  end.

(** ** The interface *)

Fixpoint strlen (m : list byte) : option Z :=
  match m with
  | [] => None
  | b :: m => if Byte.eqb b x00 then Some 0 else n ← strlen m; Some (n + 1)
  end.

(** Every level of values but the first is inside an array or object. *)
Definition levels : nat := S (Z.to_nat CJSON_NESTING_LIMIT).

(** The body up to [fail]: the item, whether it is good, at the buffer's last position. *)
Definition parse_document (require_null_terminated : bool) (it : item) : P (bool * item) :=
  bom ← skip_utf8_bom;
  '(ok, it) ← (if bom : bool then buffer_skip_whitespace;; parse_value levels it else mret (false, it));
  if negb ok then mret (false, it)
  else if require_null_terminated then
    buffer_skip_whitespace;;
    a ← can_access_at_index 0;
    if a : bool then b ← at_index 0; mret (Byte.eqb b x00, it) else mret (false, it)
  else mret (true, it).

(** [cJSON_ParseWithOpts] on the memory [value] points to ([None]: a null pointer): the item,
    if any, and what is stored in [return_parse_end]. *)
Definition cJSON_ParseWithOpts (value : option (list byte)) (require_null_terminated : bool) : M lib (option item * option Z) :=
  modS (set_error None);;
  match value with
  | None => mret (None, None)
  | Some m =>
      len ← of_mem (strlen m);
      let buffer := MkBuffer m (len + 1) 0 0 in
      let fail b :=
        let position := if offset b <? pb_length b then offset b else if 0 <? pb_length b then pb_length b - 1 else 0 in
        modS (set_error (Some position));; mret (None, Some position) in
      new_item ← cJSON_New_Item;
      match new_item with
      | None => fail buffer
      | Some it =>
          '(ok, it, b) ← (fun l => match parse_document require_null_terminated it (buffer, l) with
                                   | (Ok (ok, it), (b, l)) => (Ok (ok, it, b), l)
                                   | (Stop e, (_, l)) => (Stop e, l)
                                   end);
          if ok : bool then mret (Some it, Some (offset b)) else cJSON_Delete [it];; fail b
      end
  end.

Definition cJSON_Parse (value : option (list byte)) : M lib (option item) :=
  '(it, _) ← cJSON_ParseWithOpts value false; mret it.

(** A library in which every allocation succeeds. *)
Definition fresh_lib : lib := MkLib [] 0 [] None.
