(* ===== verification/CJsonTheorems.v ===== *)
(** * The JSON parser: memory, termination and shape

    On every text and under every refusal of the allocator the parser returns, reads and writes
    only memory it may, frees everything when it fails, and builds a tree of the documented
    shape when it succeeds. *)

From S2P Require Import Prelude CJson.
From Stdlib Require Import SpecFloat.

(** ** The text *)

Lemma eqb_byte b c : Byte.eqb b c = true <-> b = c.
Proof. split; [apply Byte.byte_dec_bl|intros ->; by apply Byte.byte_dec_lb]. Qed.

Lemma eqb_byte_false b c : Byte.eqb b c = false <-> b <> c.
Proof. rewrite <- not_true_iff_false. by rewrite eqb_byte. Qed.

Ltac bytes_eq b c := let E := fresh "Eb" in
  destruct (Byte.eqb b c) eqn:E; [apply eqb_byte in E|apply eqb_byte_false in E].

Lemma strlen_spec m n : strlen m = Some n ->
  0 <= n /\ mem_at m n = Some x00 /\ forall p, 0 <= p < n -> exists b, mem_at m p = Some b /\ b <> x00.
Proof.
  revert n. induction m as [|b m IH]; intros n; simpl; [done|]. bytes_eq b x00.
  - intros [= <-]. subst b. split; [lia|]. split; [done|]. lia.
  - destruct (strlen m) as [k|]; [|done]. intros [= <-]. destruct (IH k eq_refl) as (H0 & H1 & H2).
    assert (forall p, 1 <= p -> mem_at (b :: m) p = mem_at m (p - 1)) as Hm.
    { intros p Hp. unfold mem_at. rewrite !Zle_imp_le_bool by lia. by replace (Z.to_nat p) with (S (Z.to_nat (p - 1))) by lia. }
    split; [lia|]. split; [rewrite Hm by lia; by replace (k + 1 - 1) with k by lia|].
    intros p Hp. destruct (decide (p = 0)) as [->|]; [by exists b|]. rewrite Hm by lia. apply H2. lia.
Qed.

(** ** Numbers *)

Lemma digits_length s acc : let '(_, n, r) := digits s acc in (n + length r = length s)%nat.
Proof.
  revert acc. induction s as [|b s IH]; intros acc; simpl; [done|]. destruct (is_digit b); [|done].
  specialize (IH (10 * acc + (b2z b - 48))). destruct (digits _ _) as [[v n] r]. simpl. lia.
Qed.

Lemma sign_length s : let '(_, n, r) := sign s in (n + length r = length s)%nat.
Proof. destruct s as [|b s]; simpl; [done|]. by destruct (is_sign b). Qed.

Lemma exponent_length s : ((exponent s).2 <= length s)%nat.
Proof.
  destruct s as [|b s]; simpl; [lia|]. destruct (_ || _); [|simpl; lia]. pose proof (sign_length s) as H1. destruct (sign s) as [[neg n1] s1].
  pose proof (digits_length s1 0) as H2. destruct (digits s1 0) as [[v n2] s2]. destruct (n2 =? 0)%nat; simpl; lia.
Qed.

(** [strtod] stays in its text. *)
Lemma strtod_length s : ((strtod s).2 <= length s)%nat.
Proof.
  unfold strtod. pose proof (sign_length s) as H0. destruct (sign s) as [[neg n0] s0].
  pose proof (digits_length s0 0) as H1. destruct (digits s0 0) as [[m1 n1] s1].
  assert (forall m2 n2 point s2, match s1 with
    | b :: s' => if Byte.eqb b "." then let '(m, n2, s) := digits s' m1 in (m, n2, 1%nat, s) else (m1, O, O, s1)
    | [] => (m1, O, O, s1) end = (m2, n2, point, s2) -> (point + n2 + length s2 = length s1)%nat) as H2.
  { intros m2 n2 point s2. destruct s1 as [|b s1]; [by intros [= <- <- <- <-]|]. destruct (Byte.eqb b "."); [|by intros [= <- <- <- <-]].
    pose proof (digits_length s1 m1) as H. destruct (digits s1 m1) as [[m3 n3] s3]. intros [= <- <- <- <-]. simpl. lia. }
  destruct (match s1 with [] => _ | _ => _ end) as [[[m2 n2] point] s2]. specialize (H2 _ _ _ _ eq_refl).
  destruct (n1 + n2 =? 0)%nat; simpl; [lia|]. pose proof (exponent_length s2) as H3. destruct (exponent s2) as [e n3]. simpl in *. lia.
Qed.

(** Rounding a magnitude gives a magnitude. *)
Lemma shr_1_nonneg r : 0 <= shr_m r -> 0 <= shr_m (shr_1 r).
Proof. destruct r as [[|[p|p|]|p] ? ?]; simpl; lia. Qed.

Lemma iter_shr_nonneg p r : 0 <= shr_m r -> 0 <= shr_m (iter_pos shr_1 p r).
Proof. revert r. induction p as [p IH|p IH|]; intros r Hr; simpl; [apply IH, IH, shr_1_nonneg, Hr|apply IH, IH, Hr|by apply shr_1_nonneg]. Qed.

Lemma shr_fexp_nonneg prec emax mx ex lx : 0 <= mx -> 0 <= shr_m (shr_fexp prec emax mx ex lx).1.
Proof.
  intros H. unfold shr_fexp, shr. assert (0 <= shr_m (shr_record_of_loc mx lx)) by (destruct lx as [|[]]; done).
  case_match; simpl; [done|by apply iter_shr_nonneg|done].
Qed.

Lemma round_not_nan prec emax sx mx ex lx : 0 <= mx -> binary_round_aux prec emax sx mx ex lx <> S754_nan.
Proof.
  intros H. unfold binary_round_aux. pose proof (shr_fexp_nonneg prec emax mx ex lx H) as H1. destruct (shr_fexp prec emax mx ex lx) as [r e]. simpl in H1.
  assert (0 <= round_nearest_even (shr_m r) (loc_of_shr_record r)) as H2.
  { unfold round_nearest_even. repeat case_match; lia. }
  pose proof (shr_fexp_nonneg prec emax _ e loc_Exact H2) as H3. destruct (shr_fexp _ _ (round_nearest_even _ _) _ _) as [r2 e2]. simpl in H3.
  destruct (shr_m r2); [done|by case_match|lia].
Qed.

Lemma decimal_not_nan neg m e : decimal neg m e <> S754_nan.
Proof.
  unfold decimal. destruct m as [|p|p]; [done| |done]. destruct (400 <? e); [done|]. destruct (e <? -500); [done|]. destruct (0 <=? e).
  - unfold binary_normalize. assert (forall s q, binary_round 53 1024 s q 0 <> S754_nan) as H.
    { intros s q. unfold binary_round. destruct (shl_align _ _ _). apply round_not_nan. lia. }
    by case_match.
  - unfold SFdiv. destruct (SFdiv_core_binary _ _ _ _ _ _) as [[mz ez] lz] eqn:E. apply round_not_nan.
    unfold SFdiv_core_binary in E. match type of E with (let '(_, _) := Z.div_eucl ?a ?b in _) = _ => pose proof (Z_div_mod a b ltac:(lia)) as H; destruct (Z.div_eucl a b) as [q r]; set (mm := a) in H end.
    injection E as -> _ _. assert (0 <= mm); [|nia]. unfold mm. case_match; [lia| |lia]. apply Z.shiftl_nonneg. lia.
Qed.

Lemma strtod_not_nan s : (strtod s).1 <> S754_nan.
Proof.
  unfold strtod. repeat (case_match; simplify_eq/=; try done). all: apply decimal_not_nan.
Qed.

(** The conversion to [int] is only reached with a number that fits. *)
Lemma to_int_fits number : number <> S754_nan -> ge_INT_MAX number = false -> le_INT_MIN number = false ->
  exists i, to_int number = Some i /\ INT_MIN <= i <= INT_MAX.
Proof.
  intros Hn Hmax Hmin. destruct number as [s|s| |s mm e]; simpl in *; [by exists 0| |done|].
  { destruct s; discriminate. }
  assert (forall k, 0 <= k -> mag_le k (Zpos mm) e = false -> 0 <= mag_trunc (Zpos mm) e < k) as Hfit.
  { intros k Hk. unfold mag_le, mag_trunc. destruct (Z.leb_spec 0 e).
    - intros Hlt%Z.leb_gt. assert (0 < 2 ^ e) by (apply Z.pow_pos_nonneg; lia). nia.
    - intros Hlt%Z.leb_gt. assert (0 < 2 ^ (- e)) by (apply Z.pow_pos_nonneg; lia). split; [apply Z.div_pos; lia|]. apply Z.div_lt_upper_bound; lia. }
  unfold INT_MAX, INT_MIN in *. destruct s.
  - pose proof (Hfit 2147483648 ltac:(lia) Hmin). exists (- mag_trunc (Zpos mm) e). rewrite !Zle_imp_le_bool by lia. simpl. split; [done|lia].
  - pose proof (Hfit 2147483647 ltac:(lia) Hmax). exists (mag_trunc (Zpos mm) e). rewrite !Zle_imp_le_bool by lia. simpl. split; [done|lia].
Qed.

(** ** Memory *)

Definition opt_block (s : option cstr) : list Z := match s with Some (p, _) => [p] | None => [] end.

(** The blocks of an item and of all below it. *)
Fixpoint blocks (it : item) : list Z :=
  let 'MkItem a _ v _ _ s c := it in concat (map blocks c) ++ opt_block v ++ opt_block s ++ [a].

Lemma allocate_spec l (Q : option Z -> lib -> Prop) :
  (forall a l', l_live l' = a :: l_live l -> Q (Some a) l') -> (forall l', l_live l' = l_live l -> Q None l') -> wp allocate l Q.
Proof. intros Hy Hn. unfold wp, wpc, allocate. destruct (default true _); [by apply Hy|by apply Hn]. Qed.

Lemma remove_block_spec p live R : live ≡ₚ p :: R -> exists live', remove_block p live = Some live' /\ live' ≡ₚ R.
Proof.
  revert R. induction live as [|q live IH]; intros R HP; [by apply Permutation_nil_cons in HP|]. simpl. destruct (Z.eqb_spec p q) as [->|Hne].
  - exists live. split; [done|]. by apply Permutation_cons_inv in HP.
  - assert (p ∈ live) as (l1 & l2 & ->)%list_elem_of_split.
    { assert (p ∈ q :: live) as Hin by (rewrite HP; apply list_elem_of_here). by apply elem_of_cons in Hin as [->|]. }
    rewrite <- Permutation_middle in HP. rewrite perm_swap in HP. apply Permutation_cons_inv in HP.
    destruct (IH (l1 ++ l2)) as (live' & -> & HP'); [by rewrite <- Permutation_middle|]. exists (q :: live'). split; [done|]. by rewrite HP'.
Qed.

Lemma deallocate_spec p l R (Q : unit -> lib -> Prop) : l_live l ≡ₚ p :: R -> (forall l', l_live l' ≡ₚ R -> Q tt l') -> wp (deallocate p) l Q.
Proof.
  intros HP HQ. unfold deallocate. wpure. destruct (remove_block_spec _ _ _ HP) as (live' & E & HP'). rewrite E. simpl. wpure. by apply HQ.
Qed.

Definition unflagged (t : Z) : Prop := Z.land t cJSON_IsReference = 0 /\ Z.land t cJSON_StringIsConst = 0.

(** Items that own their strings and children, nested at most [n] deep. *)
Fixpoint tidy (n : nat) (it : item) : Prop :=
  unflagged (i_type it) /\ match n with O => i_child it = [] | S n => Forall (tidy n) (i_child it) end.

Lemma delete_opt (v : option cstr) l R (Q : unit -> lib -> Prop) : l_live l ≡ₚ opt_block v ++ R -> (forall l', l_live l' ≡ₚ R -> Q tt l') ->
  wp (match v with Some (p, _) => deallocate p | None => mret tt end) l Q.
Proof. intros HP HQ. destruct v as [[p bs]|]; [exact (deallocate_spec p l R Q HP HQ)|by apply wp_ret, HQ]. Qed.

Lemma delete_chain (F : item -> Prop) c l R (Q : unit -> lib -> Prop) :
  (forall it l R (Q : unit -> lib -> Prop), F it -> l_live l ≡ₚ blocks it ++ R -> (forall l', l_live l' ≡ₚ R -> Q tt l') -> wp (delete_item it) l Q) ->
  Forall F c -> l_live l ≡ₚ concat (map blocks c) ++ R -> (forall l', l_live l' ≡ₚ R -> Q tt l') -> wp (cJSON_Delete c) l Q.
Proof.
  intros Hit Hc. revert l. induction Hc as [|x c Hx Hc IH]; intros l HP HQ; [by apply wp_ret, HQ|]. cbn [cJSON_Delete]. wbind.
  eapply Hit; [done| |]; [rewrite HP; simpl; by rewrite <- app_assoc|]. intros l' HP'. by apply IH.
Qed.

(** [cJSON_Delete] frees exactly the blocks of what it is given. *)
Lemma delete_item_spec n it l R (Q : unit -> lib -> Prop) : tidy n it -> l_live l ≡ₚ blocks it ++ R -> (forall l', l_live l' ≡ₚ R -> Q tt l') -> wp (delete_item it) l Q.
Proof.
  revert it l R Q. induction n as [|n IH]; intros [a t v i d s c] l R Q [[H1 H2] Hc] HP HQ; simpl in H1, H2, Hc; cbn [delete_item blocks] in *; rewrite H1, H2;
    (assert (forall l (Q : unit -> lib -> Prop), l_live l ≡ₚ concat (map blocks c) ++ (opt_block v ++ opt_block s ++ [a]) ++ R ->
      (forall l', l_live l' ≡ₚ (opt_block v ++ opt_block s ++ [a]) ++ R -> Q tt l') -> wp (cJSON_Delete c) l Q) as Hdel;
      [intros l0 Q0 HP0 HQ0|]).
  1: subst c; by apply wp_ret, HQ0.
  2: by eapply (delete_chain (tidy n)).
  all: rewrite Z.eqb_refl; wbind; apply (Hdel l); [rewrite HP, <- !app_assoc; done|]; intros l1 HP1; wbind;
    (eapply delete_opt; [by rewrite HP1, <- !app_assoc|]); intros l2 HP2; wbind;
    (eapply delete_opt; [by rewrite HP2|]); intros l3 HP3; by eapply deallocate_spec.
Qed.

Lemma cJSON_Delete_spec n c l R (Q : unit -> lib -> Prop) : Forall (tidy n) c -> l_live l ≡ₚ concat (map blocks c) ++ R ->
  (forall l', l_live l' ≡ₚ R -> Q tt l') -> wp (cJSON_Delete c) l Q.
Proof. apply delete_chain. intros. by eapply delete_item_spec. Qed.

(** ** The shape of a tree *)

Definition saturated (number : spec_float) (i : Z) : Prop :=
  if ge_INT_MAX number then i = INT_MAX else if le_INT_MIN number then i = INT_MIN else to_int number = Some i.

(** A value with at most [n] levels of arrays and objects. *)
Inductive shape : nat -> item -> Prop :=
  | sh_null n a s : shape n (MkItem a cJSON_NULL None 0 (S754_zero false) s [])
  | sh_false n a s : shape n (MkItem a cJSON_False None 0 (S754_zero false) s [])
  | sh_true n a s : shape n (MkItem a cJSON_True None 1 (S754_zero false) s [])
  | sh_number n a i number s : saturated number i -> INT_MIN <= i <= INT_MAX -> shape n (MkItem a cJSON_Number None i number s [])
  | sh_string n a p bs s : shape n (MkItem a cJSON_String (Some (p, bs)) 0 (S754_zero false) s [])
  | sh_array n a s c : Forall (fun x => shape n x /\ i_name x = None) c -> shape (S n) (MkItem a cJSON_Array None 0 (S754_zero false) s c)
  | sh_object n a s c : Forall (fun x => shape n x /\ is_Some (i_name x)) c -> shape (S n) (MkItem a cJSON_Object None 0 (S754_zero false) s c).

(** An item before its value: new, or with the name of a member. *)
Definition blank (it : item) : Prop := exists a t s, it = MkItem a t None 0 (S754_zero false) s [] /\ (t = cJSON_Invalid \/ t = cJSON_String).

Lemma shape_tidy n it : shape n it -> tidy n it.
Proof.
  revert it. induction n as [|n IH]; intros it H; inversion H as [| | | | |? ? ? ? Hc|? ? ? ? Hc]; subst; simpl; (split; [done|]); try done; (eapply Forall_impl; [|exact Hc]); intros x [Hx _]; by apply IH.
Qed.

Lemma blank_tidy n it : blank it -> tidy n it.
Proof. intros (a & t & s & -> & [-> | ->]); destruct n; simpl; (split; [done|]); done. Qed.

Section text.
(** A text of [len] bytes, the terminator included, at the start of the memory [m]. *)
Context (m : list byte) (len : Z) (Htext : strlen m = Some (len - 1)).

Definition st (o d : Z) (l : lib) : parse_buffer * lib := (MkBuffer m len o d, l).

Lemma len_pos : 1 <= len.
Proof. pose proof (proj1 (strlen_spec _ _ Htext)). lia. Qed.

Lemma text_at p : 0 <= p < len -> exists b, mem_at m p = Some b /\ (b = x00 <-> p = len - 1).
Proof.
  intros Hp. destruct (strlen_spec _ _ Htext) as (_ & H1 & H2). destruct (decide (p = len - 1)) as [->|]; [by exists x00|].
  destruct (H2 p) as (b & Hb & Hne); [lia|]. exists b. split; [done|]. split; [done|lia].
Qed.

Lemma rd_spec p o d l Q : 0 <= p < len ->
  (forall b, mem_at m p = Some b -> (b = x00 <-> p = len - 1) -> Q b (st o d l)) -> wp (rd p) (st o d l) Q.
Proof. intros Hp HQ. destruct (text_at p Hp) as (b & Hb & H0). unfold rd, st. wpure. simpl. rewrite Hb. by apply HQ. Qed.

Lemma advance_spec n o d l Q : Q tt (st (o + n) d l) -> wp (advance n) (st o d l) Q.
Proof. done. Qed.

Lemma can_access_spec i o d l Q : Q (o + i <? len) (st o d l) -> wp (can_access_at_index i) (st o d l) Q.
Proof. done. Qed.

Lemma at_index_spec i o d l Q : 0 <= o + i < len ->
  (forall b, mem_at m (o + i) = Some b -> (b = x00 <-> o + i = len - 1) -> Q b (st o d l)) -> wp (at_index i) (st o d l) Q.
Proof. intros Hp HQ. unfold at_index. unfold st. wpure. simpl. by apply rd_spec. Qed.

Lemma next_is_spec c o d l (Q : bool -> _ -> Prop) : 0 <= o < len -> c <> x00 ->
  (mem_at m o = Some c -> o < len - 1 -> Q true (st o d l)) -> (mem_at m o <> Some c -> Q false (st o d l)) -> wp (next_is c) (st o d l) Q.
Proof.
  intros Ho Hc Ht Hf. unfold next_is. wbind. apply can_access_spec. rewrite (proj2 (Z.ltb_lt _ _)) by lia.
  wbind. apply at_index_spec; [lia|]. rewrite Z.add_0_r. intros b Hb H0. apply wp_ret. bytes_eq b c.
  - subst. apply Ht; [done|]. enough (o <> len - 1) by lia. by intros ->%H0.
  - apply Hf. congruence.
Qed.

Lemma starts_with_spec lit p o d l (Q : bool -> _ -> Prop) : Forall (fun c => c <> x00) lit -> 0 <= p -> p < len ->
  (p + zlen lit < len -> Q true (st o d l)) -> Q false (st o d l) -> wp (starts_with p lit) (st o d l) Q.
Proof.
  intros Hl. revert p. induction Hl as [|c lit Hc Hl IH]; intros p H0 Hp Ht Hf; simpl.
  - apply wp_ret, Ht. unfold zlen. simpl. lia.
  - wbind. apply rd_spec; [lia|]. intros b Hb Hz. bytes_eq b c; [|done]. subst c.
    assert (p <> len - 1) by (by intros ->%Hz). apply IH; [lia|lia| |done]. intros. apply Ht. rewrite zlen_cons. lia.
Qed.

Lemma literal_spec n lit o d l (Q : bool -> _ -> Prop) : Forall (fun c => c <> x00) lit -> n = zlen lit -> 0 <= o < len ->
  (o + n < len -> Q true (st o d l)) -> Q false (st o d l) -> wp (literal n lit) (st o d l) Q.
Proof.
  intros Hl -> Ho Ht Hf. unfold literal, can_read, st. wpure. simpl. destruct (_ <=? _); [|done]. wpure. apply starts_with_spec. all: simpl in *; try lia; try done.
Qed.

Lemma skip_spec o d l (Q : unit -> _ -> Prop) : 0 <= o < len -> (forall o', o <= o' < len -> Q tt (st o' d l)) -> wp buffer_skip_whitespace (st o d l) Q.
Proof.
  intros Ho HQ. unfold buffer_skip_whitespace, st. wpure. cbn [fst snd pb_length offset]. wbind.
  enough (forall fuel o1 (Q' : unit -> _ -> Prop), o <= o1 <= len -> (Z.to_nat (len - o1) < fuel)%nat ->
    (forall o', o1 <= o' <= len -> Q' tt (st o' d l)) -> wp (skip_loop fuel) (st o1 d l) Q') as H.
  { apply H; [lia|lia|]. intros o' Ho'. unfold st. wpure. cbn [fst snd pb_length offset]. destruct (Z.eqb_spec o' len).
    - apply advance_spec. apply HQ. lia.
    - apply wp_ret, HQ. lia. }
  clear HQ Q. induction fuel as [|fuel IH]; intros o1 Q Ho1 Hf HQ; [lia|]. simpl. wbind. apply can_access_spec.
  destruct (Z.ltb_spec (o1 + 0) len); [|apply wp_ret, HQ; lia].
  wbind. apply at_index_spec; [lia|]. intros b _ _. destruct (_ <=? _); [|apply wp_ret, HQ; lia].
  wbind. apply advance_spec. apply IH; [lia|lia|]. intros o' Ho'. apply HQ. lia.
Qed.

Lemma bom_spec l (Q : bool -> _ -> Prop) : (forall o', 0 <= o' < len -> Q true (st o' 0 l)) -> wp skip_utf8_bom (st 0 0 l) Q.
Proof.
  intros HQ. pose proof len_pos. unfold skip_utf8_bom, st. wpure. cbn [fst snd offset negb Z.eqb]. wbind. apply can_access_spec.
  destruct (Z.ltb_spec (0 + 4) len); wbind; [|apply wp_ret; wpure; apply HQ; lia].
  wbind. apply starts_with_spec; [by repeat constructor|lia|lia|intros _|apply wp_ret; wpure; apply HQ; lia].
  apply advance_spec. wpure. apply HQ. lia.
Qed.

(** ** Strings *)

Lemma hex_digit_range b d : hex_digit b = Some d -> 0 <= d < 16.
Proof. unfold hex_digit. repeat case_match; intros [= <-]; lia. Qed.

Lemma hex_loop_spec n input h o d l (Q : Z -> _ -> Prop) : (n <= 4)%nat -> 0 <= input -> input + Z.of_nat n <= len ->
  0 <= h <= match n with 4%nat => 0 | 3%nat => 240 | 2%nat => 4080 | 1%nat => 65520 | _ => 65535 end ->
  (forall r, 0 <= r < 65536 -> Q r (st o d l)) -> wp (hex_loop n input h) (st o d l) Q.
Proof.
  revert input h. induction n as [|n IH]; intros input h Hn Hi Hl Hh HQ; simpl; [apply wp_ret, HQ; lia|].
  wbind. apply rd_spec; [lia|]. intros b _ _. destruct (hex_digit (b2z b)) as [dg|] eqn:E; [|apply wp_ret, HQ; lia].
  apply hex_digit_range in E.
  assert (n = 0 \/ n = 1 \/ n = 2 \/ n = 3)%nat as [-> | [-> | [-> | ->]]] by lia.
  all: cbn [Nat.ltb Nat.leb] in *; rewrite (u32_small (h + dg)) by lia.
  all: rewrite ?Z.shiftl_mul_pow2 by lia; change (2 ^ 4) with 16; rewrite ?(u32_small (_ * _)) by lia; apply IH; lia || done.
Qed.

Lemma parse_hex4_spec input o d l (Q : Z -> _ -> Prop) : 0 <= input -> input + 4 <= len ->
  (forall r, 0 <= r < 65536 -> Q r (st o d l)) -> wp (parse_hex4 input) (st o d l) Q.
Proof. intros. apply hex_loop_spec; [lia|lia|lia|simpl; lia|done]. Qed.

Lemma utf8_tail_length n cp out : length (utf8_tail n cp out).2 = (n + length out)%nat.
Proof. revert cp out. induction n as [|n IH]; intros; simpl; [done|]. rewrite IH. simpl. lia. Qed.

Lemma utf8_encode_length cp bs : utf8_encode cp = Some bs -> 1 <= zlen bs <= 4 /\ (cp < 65536 -> zlen bs <= 3).
Proof.
  unfold utf8_encode. intros H. repeat case_match; simplify_eq/=; repeat case_match; simplify_eq/=; rewrite zlen_cons;
    match goal with E : utf8_tail ?n ?c ?o = (_, ?t) |- _ => pose proof (utf8_tail_length n c o) as Ht; simpl in Ht, E; rewrite ?E in Ht; simpl in Ht | _ => idtac end;
    try (injection H as <- <-); unfold zlen; simpl; try lia.
Qed.

(** A sequence takes 6 bytes and gives at most 3, or takes 12 and gives at most 4. *)
Lemma utf16_spec p e o d l (Q : Z * list byte -> _ -> Prop) : 0 <= p -> e < len ->
  (forall bs, Q (0, bs) (st o d l)) ->
  (forall n bs, (n = 6 /\ zlen bs <= 3) \/ (n = 12 /\ zlen bs <= 4) -> p + n <= e -> Q (n, bs) (st o d l)) ->
  wp (utf16_literal_to_utf8 p e) (st o d l) Q.
Proof.
  intros Hp He Hf HQ. unfold utf16_literal_to_utf8. destruct (Z.ltb_spec (e - p) 6); [by apply wp_ret|].
  wbind. apply parse_hex4_spec; [lia|lia|]. intros c1 Hc1. case_match; [by apply wp_ret|]. case_match.
  - destruct (Z.ltb_spec (e - (p + 6)) 6); [by apply wp_ret|]. wbind. apply rd_spec; [lia|]. intros b _ _. wbind.
    assert (forall Q' : byte -> _ -> Prop, (forall b', Q' b' (st o d l)) -> wp (if Byte.eqb b x5c then rd (p + 6 + 1) else mret b) (st o d l) Q') as Hb.
    { intros Q' HQ'. destruct (Byte.eqb b x5c); [apply rd_spec; [lia|intros; apply HQ']|by apply wp_ret]. }
    apply Hb. intros b'. destruct (_ || _); [by apply wp_ret|]. wbind. apply parse_hex4_spec; [lia|lia|]. intros c2 Hc2. destruct (_ || _); [by apply wp_ret|].
    apply wp_ret. destruct (utf8_encode _) eqn:E; [|by apply Hf]. apply HQ; [|lia]. right. split; [done|]. apply utf8_encode_length in E. lia.
  - apply wp_ret. destruct (utf8_encode _) eqn:E; [|by apply Hf]. apply HQ; [|lia]. left. split; [done|]. apply utf8_encode_length in E. lia.
Qed.

(** What the first pass has seen from [p] on: the end [e] and [k] escaping bytes. *)
Inductive scanned (e : Z) : Z -> Z -> Prop :=
  | sc_end : scanned e e 0
  | sc_plain p k : mem_at m p <> Some x5c -> scanned e (p + 1) k -> scanned e p k
  | sc_escape p k : mem_at m p = Some x5c -> scanned e (p + 2) k -> scanned e p (k + 1).

Lemma scanned_le e p k : scanned e p k -> p <= e /\ 0 <= k /\ 2 * k <= e - p.
Proof. induction 1; lia. Qed.

(** The second pass may be at a place the first pass stopped at, or one byte into an escape:
    a malformed \\u sequence can end there.  [r] bytes of output are then left for the rest. *)
Definition left_at (e q r : Z) : Prop := exists k, r = e - q - k /\ (scanned e q k \/ scanned e (q + 1) k).

Lemma left_at_bounds e q r : left_at e q r -> 0 <= r /\ q <= e.
Proof. intros (k & -> & [H|H]); apply scanned_le in H; lia. Qed.

(** A byte that is not a backslash is paid for by its own room, and so is every second byte. *)
Lemma left_plain e q r : left_at e q r -> q < e -> mem_at m q <> Some x5c -> left_at e (q + 1) (r - 1).
Proof.
  intros (k & -> & [H|H]) Hq Hb; exists k; (split; [lia|left; try done]). by inversion H; subst; [lia| |].
Qed.

Lemma left_one e q r : left_at e q r -> q < e -> exists r', left_at e (q + 1) r' /\ r' <= r.
Proof.
  intros (k & -> & [H|H]) Hq; [|exists (e - (q + 1) - k); split; [exists k; split; [lia|by left]|lia]].
  inversion H as [|p k' Hb Hs|p k' Hb Hs]; subst; [lia| |].
  - exists (e - (q + 1) - k). split; [exists k; split; [lia|by left]|lia].
  - exists (e - (q + 1) - k'). split; [exists k'; split; [lia|right]|lia]. by replace (q + 1 + 1) with (q + 2) by lia.
Qed.

Lemma left_two e q r : left_at e q r -> q + 2 <= e -> exists r', left_at e (q + 2) r' /\ r' <= r - 1.
Proof.
  intros HL Hq. assert (left_at e (q + 1) (r - 1) \/ left_at e (q + 2) (r - 1)) as [H|H]; [|by apply left_one in H as (r' & H & ?); [|lia]; exists r'; split; [replace (q + 2) with (q + 1 + 1) by lia|lia]|by exists (r - 1)].
  destruct HL as (k & -> & [H|H]); [|left; exists k; split; [lia|by left]].
  inversion H as [|p k' Hb Hs|p k' Hb Hs]; subst; [lia| |].
  - left. exists k. split; [lia|by left].
  - right. exists k'. split; [lia|by left].
Qed.

Lemma left_many n e q r : left_at e q r -> q + 2 * Z.of_nat n <= e -> exists r', left_at e (q + 2 * Z.of_nat n) r' /\ r' <= r - Z.of_nat n.
Proof.
  revert q r. induction n as [|n IH]; intros q r HL Hq; [exists r; split; [by replace (q + 2 * Z.of_nat 0) with q by lia|lia]|].
  destruct (left_two e q r HL) as (r1 & H1 & ?); [lia|]. destruct (IH (q + 2) r1 H1) as (r2 & H2 & ?); [lia|].
  exists r2. split; [by replace (q + 2 * Z.of_nat (S n)) with (q + 2 + 2 * Z.of_nat n) by lia|lia].
Qed.

Lemma scan_spec fuel p k o d l (Q : option (Z * Z) -> _ -> Prop) : 0 <= p -> (Z.to_nat (len - p) < fuel)%nat -> Q None (st o d l) ->
  (forall e k', scanned e p k' -> e < len - 1 -> Q (Some (e, k + k')) (st o d l)) -> wp (scan_string fuel p k) (st o d l) Q.
Proof.
  revert p k Q. induction fuel as [|fuel IH]; intros p k Q Hp Hf HN HQ; [lia|]. cbn [scan_string]. unfold st at 1. wpure. cbn [fst snd pb_length].
  destruct (Z.leb_spec len p); [done|]. wbind. apply rd_spec; [lia|]. intros b Hb Hz. bytes_eq b x22.
  { apply wp_ret. replace k with (k + 0) by lia. apply HQ; [constructor|]. enough (p <> len - 1) by lia. intros ->%Hz. by subst. }
  bytes_eq b x5c.
  - destruct (Z.leb_spec len (p + 1)); [done|]. apply IH; [lia|lia|done|]. intros e k' Hs He.
    replace (k + 1 + k') with (k + (k' + 1)) by lia. apply HQ; [|done]. apply sc_escape; [by subst|done].
  - apply IH; [lia|lia|done|]. intros e k' Hs He. apply HQ; [|done]. apply sc_plain; [congruence|done].
Qed.

Lemma put_out_spec size out bs o d l (Q : list byte -> _ -> Prop) : zlen out + zlen bs <= size -> Q (out ++ bs) (st o d l) -> wp (put_out size out bs) (st o d l) Q.
Proof. intros Hs HQ. unfold put_out. rewrite (proj2 (Z.leb_le _ _)) by lia. by apply wp_ret. Qed.

(** The second pass never writes more than the first has counted. *)
Lemma unescape_spec fuel size q e out r o d l (Q : list byte + Z -> _ -> Prop) :
  0 <= q -> e < len - 1 -> (Z.to_nat (e - q) < fuel)%nat -> 0 <= r -> (left_at e q r \/ e <= q) -> zlen out + r < size ->
  (forall p, 0 <= p < len -> Q (inr p) (st o d l)) -> (forall out, zlen out < size -> Q (inl out) (st o d l)) ->
  wp (unescape fuel size q e out) (st o d l) Q.
Proof.
  revert q out r. induction fuel as [|fuel IH]; intros q out r H0 He Hf Hr HL Hs Hno Hyes; [lia|]. cbn [unescape].
  destruct (Z.ltb_spec q e) as [Hq|Hq]; [|apply wp_ret, Hyes; lia]. destruct HL as [HL|]; [|lia].
  wbind. apply rd_spec; [lia|]. intros b Hb _. bytes_eq b x5c; cbn [negb].
  2: { pose proof (left_plain e q r HL Hq ltac:(congruence)) as HL'. pose proof (left_at_bounds _ _ _ HL'). wbind. apply put_out_spec; [rewrite zlen_single; lia|].
       eapply (IH _ _ (r - 1)); [lia|lia|lia|lia|by left|zlens; lia|done|done]. }
  destruct (Z.ltb_spec (e - q) 1); [lia|]. wbind. apply rd_spec; [lia|]. intros c _ _.
  assert (exists r', (left_at e (q + 2) r' \/ e <= q + 2) /\ 0 <= r' <= r - 1) as (r' & HL' & Hr').
  { destruct (decide (q + 2 <= e)).
    - destruct (left_two e q r HL) as (r' & HL' & ?); [lia|]. pose proof (left_at_bounds _ _ _ HL'). exists r'. split; [by left|lia].
    - exists 0. split; [right; lia|]. destruct HL as (k & -> & [H'|H']); [|apply scanned_le in H'; lia].
      exfalso. inversion H' as [|p k' Hb' Hs'|p k' Hb' Hs']; subst; [lia|done|apply scanned_le in Hs'; lia]. }
  destruct (simple_escape c) as [ec|].
  { wbind. apply put_out_spec; [rewrite zlen_single; lia|]. eapply (IH _ _ r'); [lia|lia|lia|lia|done|zlens; lia|done|done]. }
  destruct (Byte.eqb c "u"); [|apply wp_ret, Hno; lia]. wbind. apply utf16_spec; [lia|lia| |].
  { intros bs. cbn. apply Hno. lia. }
  intros n bs Hn Hne. rewrite (proj2 (Z.eqb_neq _ _)) by lia.
  assert (exists k, n = 2 * Z.of_nat k /\ zlen bs <= Z.of_nat k) as (k & -> & Hk).
  { destruct Hn as [[-> ?]|[-> ?]]; [exists 3%nat|exists 6%nat]; lia. }
  destruct (left_many k e q r HL) as (r2 & HL2 & Hr2); [lia|]. pose proof (left_at_bounds _ _ _ HL2). pose proof (zlen_nonneg bs).
  wbind. apply put_out_spec; [lia|]. eapply (IH _ _ r2); [lia|lia|lia|lia|by left|zlens; lia|done|done].
Qed.

Lemma parse_string_spec it o d l R (Q : bool * item -> _ -> Prop) : 0 <= o < len -> l_live l ≡ₚ R ->
  (forall o' l', 0 <= o' <= len -> l_live l' ≡ₚ R -> Q (false, it) (st o' d l')) ->
  (forall o' l' p bs, o < o' < len -> l_live l' ≡ₚ p :: R -> Q (true, set_valuestring (Some (p, bs)) (set_type cJSON_String it)) (st o' d l')) ->
  wp (parse_string it) (st o d l) Q.
Proof.
  intros Ho HR Hno Hyes. unfold parse_string, st. wpure. cbn [fst snd offset pb_length]. wbind. apply at_index_spec; [lia|]. rewrite Z.add_0_r. intros b Hb Hz.
  assert (forall p l', 0 <= p <= len -> l_live l' ≡ₚ R -> wp (modO (set_offset p);; mret (false, it)) (st o d l') Q) as Hfail.
  { intros p l' Hp Hl'. unfold st. wpure. by apply Hno. }
  bytes_eq b x22; cbn [negb]; [|apply Hfail; [lia|done]].
  assert (o + 1 < len) by (enough (o <> len - 1) by lia; intros ->%Hz; by subst).
  wbind. apply scan_spec; [lia|lia|apply Hfail; [lia|done]|]. intros e k Hs He. cbn iota beta. pose proof (scanned_le _ _ _ Hs) as Hb'.
  unfold st. wlift. apply allocate_spec; [|intros l' Hl'; apply Hfail; [lia|by rewrite Hl']].
  intros a l' Hl'. cbn zeta. wbind. assert (l_live l' ≡ₚ a :: R) as HR' by by rewrite Hl', HR.
  apply (unescape_spec _ _ _ e [] (e - (o + 1) - k)); [lia|lia|lia|lia| |change (zlen (@nil byte)) with 0; lia| |].
  - left. exists k. split; [done|by left].
  - intros p Hp. unfold st. wlift. eapply deallocate_spec; [done|]. intros l2 Hl2. apply Hfail; [lia|done].
  - intros out Hout. wbind. apply put_out_spec; [rewrite zlen_single; lia|]. unfold st. wpure. apply Hyes; [lia|done].
Qed.

Lemma copy_number_spec room i o d l (Q : list byte -> _ -> Prop) : 0 <= o + i < len ->
  (forall bs, o + i + zlen bs < len -> Q bs (st o d l)) -> wp (copy_number room i) (st o d l) Q.
Proof.
  revert i Q. induction room as [|room IH]; intros i Q Hi HQ; cbn [copy_number]; [apply wp_ret, HQ; change (zlen (@nil byte)) with 0; lia|].
  wbind. apply can_access_spec. rewrite (proj2 (Z.ltb_lt _ _)) by lia. wbind. apply at_index_spec; [lia|]. intros b _ Hz.
  destruct (number_char b) eqn:E; [|apply wp_ret, HQ; change (zlen (@nil byte)) with 0; lia].
  assert (o + i <> len - 1) by (by intros ->%Hz). wbind. apply IH; [lia|]. intros bs Hbs. apply wp_ret, HQ. rewrite zlen_cons. lia.
Qed.

Lemma parse_number_spec it o d l (Q : bool * item -> _ -> Prop) : 0 <= o < len -> Q (false, it) (st o d l) ->
  (forall o' i number, o < o' < len -> saturated number i -> INT_MIN <= i <= INT_MAX ->
    Q (true, set_type cJSON_Number (set_valueint i (set_valuedouble number it))) (st o' d l)) ->
  wp (parse_number it) (st o d l) Q.
Proof.
  intros Ho Hno Hyes. unfold parse_number. wbind. apply copy_number_spec; [lia|]. intros bs Hbs.
  pose proof (strtod_length bs) as Hlen. pose proof (strtod_not_nan bs) as Hnan. destruct (strtod bs) as [number after]. simpl in Hlen, Hnan.
  destruct (Nat.eqb_spec after 0); [by apply wp_ret|]. wbind.
  assert (forall i, saturated number i -> INT_MIN <= i <= INT_MAX ->
    wp (advance (Z.of_nat after);; mret (true, set_type cJSON_Number (set_valueint i (set_valuedouble number it)))) (st o d l) Q) as Hok.
  { intros i Hs Hi. wbind. apply advance_spec. apply wp_ret, Hyes; [unfold zlen in Hbs; lia|done|done]. }
  unfold saturated in Hok. destruct (ge_INT_MAX number) eqn:E1; [apply wp_ret, Hok; [done|unfold INT_MIN, INT_MAX; lia]|].
  destruct (le_INT_MIN number) eqn:E2; [apply wp_ret, Hok; [done|unfold INT_MIN, INT_MAX; lia]|].
  destruct (to_int_fits number Hnan E1 E2) as (i & Ei & Hi). rewrite Ei. apply wp_ret. by apply Hok.
Qed.

(** ** Values *)

(** After [parse_value] on [it]: all blocks are the item's or [R]; the value has at most [n]
    levels; a failure leaves the item alone. *)
Definition parsed (R : list Z) (n : nat) (o d : Z) (it : item) (r : bool * item) (s : parse_buffer * lib) : Prop :=
  exists o' d' l', s = st o' d' l' /\ l_live l' ≡ₚ blocks r.2 ++ R /\
    if r.1 then o < o' < len /\ d' = d /\ shape n r.2 /\ i_name r.2 = i_name it else 0 <= o' <= len /\ r.2 = it.

(** After a loop over elements that started at [o]; [F]: what an element's name is like. *)
Definition looped (R : list Z) (n : nat) (F : option cstr -> Prop) (o d : Z) (r : bool * list item) (s : parse_buffer * lib) : Prop :=
  exists o' d' l', s = st o' d' l' /\ l_live l' ≡ₚ concat (map blocks r.2) ++ R /\ Forall (tidy n) r.2 /\
    if r.1 then o < o' < len /\ d' = d /\ Forall (fun x => shape n x /\ F (i_name x)) r.2 else 0 <= o' <= len.

Lemma new_item_spec l (Q : option item -> lib -> Prop) :
  (forall a l', l_live l' = a :: l_live l -> Q (Some (MkItem a cJSON_Invalid None 0 (S754_zero false) None [])) l') ->
  (forall l', l_live l' = l_live l -> Q None l') -> wp cJSON_New_Item l Q.
Proof. intros Hy Hn. unfold cJSON_New_Item. wbind. apply allocate_spec; [intros a l' Hl|intros l' Hl]; apply wp_ret; auto. Qed.

Section level.
Context (pv : item -> P (bool * item)) (n : nat) (d : Z) (R : list Z).
Hypothesis Hpv : forall it o l R, blank it -> 0 <= o < len -> l_live l ≡ₚ blocks it ++ R -> wp (pv it) (st o d l) (parsed R n o d it).

Lemma append_blocks head x : concat (map blocks (head ++ [x])) = concat (map blocks head) ++ blocks x.
Proof. rewrite map_app, concat_app. simpl. by rewrite app_nil_r. Qed.

(** The end of a round, behind an element that [pv] was asked for. *)
Lemma element_spec (F : option cstr -> Prop) (again : list item -> P (bool * list item)) x head o0 o l :
  0 <= o0 < o -> o < len -> blank x -> F (i_name x) -> Forall (fun x => shape n x /\ F (i_name x)) head ->
  l_live l ≡ₚ blocks x ++ concat (map blocks head) ++ R ->
  (forall head o' l', o < o' < len - 1 -> Forall (fun x => shape n x /\ F (i_name x)) head -> l_live l' ≡ₚ concat (map blocks head) ++ R ->
    wp (again head) (st o' d l') (looped R n F o0 d)) ->
  wp ('(ok, x) ← pv x;
      let head := head ++ [x] in
      if ok : bool then
        buffer_skip_whitespace;;
        comma ← next_is ",";
        if comma : bool then again head else mret (true, head)
      else mret (false, head)) (st o d l) (looped R n F o0 d).
Proof.
  intros Ho0 Ho Hx HF Hhead Hl Hagain. wbind. eapply wp_mono; [by eapply Hpv; [|lia|]|]. intros [ok x'] s' (o' & d' & l' & -> & Hl' & Hr). cbn [fst snd] in *.
  assert (l_live l' ≡ₚ concat (map blocks (head ++ [x'])) ++ R) as Hl2.
  { rewrite Hl', append_blocks, <- app_assoc. by rewrite (Permutation_app_comm (blocks x')), <- app_assoc, (Permutation_app_comm R). }
  destruct ok.
  - destruct Hr as (Ho' & -> & Hsh & Hn). assert (Forall (fun x => shape n x /\ F (i_name x)) (head ++ [x'])) as Hh.
    { apply Forall_app. split; [done|]. apply Forall_singleton. split; [done|by rewrite Hn]. }
    wbind. apply skip_spec; [lia|]. intros o2 Ho2. wbind. apply next_is_spec; [lia|done| |].
    + intros _ Hlt. apply Hagain; [lia|done|done].
    + intros _. apply wp_ret. exists o2, d, l'. cbn [fst snd]. split_and!; try done; try lia. eapply Forall_impl; [|exact Hh]. intros y [Hy _]. by apply shape_tidy.
  - destruct Hr as (Ho' & ->). apply wp_ret. exists o', d', l'. cbn [fst snd]. split_and!; try done; try lia.
    apply Forall_app. split; [|by apply Forall_singleton, blank_tidy]. eapply Forall_impl; [|exact Hhead]. intros y [Hy _]. by apply shape_tidy.
Qed.

Lemma array_loop_spec fuel head o0 o l : 0 <= o0 <= o -> o < len - 1 -> (Z.to_nat (len - o) < fuel)%nat ->
  Forall (fun x => shape n x /\ i_name x = None) head -> l_live l ≡ₚ concat (map blocks head) ++ R ->
  wp (array_loop pv fuel head) (st o d l) (looped R n (fun s => s = None) o0 d).
Proof.
  revert head o0 o l. induction fuel as [|fuel IH]; intros head o0 o l Ho0 Ho Hf Hh Hl; [lia|]. cbn [array_loop]. unfold st. wlift.
  apply new_item_spec; intros; cbn iota beta.
  - wbind. apply advance_spec. wbind. apply skip_spec; [lia|]. intros o1 Ho1.
    eapply (element_spec (fun s => s = None) (array_loop pv fuel)); [lia|lia|by eexists _, _, _; split; [done|left]|done|done| |].
    + rewrite H. simpl. by rewrite Hl.
    + intros. apply IH; [lia|lia|lia|done|done].
  - apply wp_ret. exists o, d, l'. cbn [fst snd]. split_and!; try done; try lia; [by rewrite H|]. eapply Forall_impl; [|exact Hh]. intros y [Hy _]. by apply shape_tidy.
Qed.

Lemma object_loop_spec fuel head o0 o l : 0 <= o0 <= o -> o < len - 1 -> (Z.to_nat (len - o) < fuel)%nat ->
  Forall (fun x => shape n x /\ is_Some (i_name x)) head -> l_live l ≡ₚ concat (map blocks head) ++ R ->
  wp (object_loop pv fuel head) (st o d l) (looped R n is_Some o0 d).
Proof.
  revert head o0 o l. induction fuel as [|fuel IH]; intros head o0 o l Ho0 Ho Hf Hh Hl; [lia|]. cbn [object_loop]. unfold st. wlift.
  assert (Forall (tidy n) head) as Ht by (eapply Forall_impl; [|exact Hh]; intros y [Hy _]; by apply shape_tidy).
  assert (forall x o' d' l', blank x -> 0 <= o' <= len -> l_live l' ≡ₚ blocks x ++ concat (map blocks head) ++ R ->
    looped R n is_Some o0 d (false, head ++ [x]) (st o' d' l')) as Hstop.
  { intros x o' d' l' Hx Ho' Hl'. exists o', d', l'. cbn [fst snd]. split_and!; try done; try lia.
    - by rewrite Hl', append_blocks, <- app_assoc, (Permutation_app_comm (blocks x)), <- app_assoc, (Permutation_app_comm R).
    - apply Forall_app. split; [done|]. by apply Forall_singleton, blank_tidy. }
  apply new_item_spec; intros; cbn iota beta; [|apply wp_ret; exists o, d, l'; cbn [fst snd]; split_and!; try done; try lia; by rewrite H].
  wbind. apply advance_spec. wbind. apply skip_spec; [lia|]. intros o1 Ho1. wbind.
  eapply (parse_string_spec _ _ _ _ (a :: concat (map blocks head) ++ R)); [lia|by rewrite H, Hl| |].
  { intros o2 l2 Ho2 Hl2. apply wp_ret, Hstop; [by eexists _, _, _; split; [done|left]|done|by rewrite Hl2]. }
  intros o2 l2 p bs Ho2 Hl2. cbn iota beta. wbind. apply skip_spec; [lia|]. intros o3 Ho3. cbn [set_valuestring set_name set_type i_valuestring]. wbind.
  apply next_is_spec; [lia|done| |intros _; apply wp_ret, Hstop; [by eexists _, _, _; split; [done|right]|lia|by rewrite Hl2]].
  intros _ Hlt. wbind. apply advance_spec. wbind. apply skip_spec; [lia|]. intros o4 Ho4.
  eapply (element_spec is_Some (object_loop pv fuel)); [lia|lia|by eexists _, _, _; split; [done|right]|done|done|by rewrite Hl2|].
  intros. apply IH; [lia|lia|lia|done|done].
Qed.

(** At the limit nothing more is opened. *)
Lemma parse_chain_limit k opened closing loop type it o l : 0 <= o < len -> CJSON_NESTING_LIMIT <= d -> l_live l ≡ₚ blocks it ++ R ->
  wp (parse_chain opened closing loop type it) (st o d l) (parsed R k o d it).
Proof.
  intros Ho Hd Hl. unfold parse_chain, st. wpure. cbn [fst snd depth]. rewrite (proj2 (Z.leb_le _ _)) by done.
  apply wp_ret. exists o, d, l. cbn [fst snd]. split_and!; done || lia.
Qed.

(** The frame of an array or object around its loop. *)
Lemma parse_chain_spec opened closing loop type (F : option cstr -> Prop) it o l : closing <> x00 -> blank it -> 0 <= o < len - 1 -> d < CJSON_NESTING_LIMIT ->
  l_live l ≡ₚ blocks it ++ R -> (forall d' l', wp opened (st o d' l') (fun _ s => s = st o d' l')) ->
  (forall o' l', o <= o' < len - 1 -> l_live l' ≡ₚ blocks it ++ R ->
    wp (loop (S (Z.to_nat len)) []) (st o' (d + 1) l') (looped (blocks it ++ R) n F o (d + 1))) ->
  (forall a s c, Forall (fun x => shape n x /\ F (i_name x)) c -> shape (S n) (MkItem a type None 0 (S754_zero false) s c)) ->
  wp (parse_chain opened closing loop type it) (st o d l) (parsed R (S n) o d it).
Proof.
  intros Hc Hb Ho Hd Hl Hopen Hloop Hshape. unfold parse_chain, st. wpure. cbn [fst snd depth]. rewrite (proj2 (Z.leb_gt _ _)) by done. wpure.
  assert (forall head o' d' l', Forall (tidy n) head -> 0 <= o' <= len -> l_live l' ≡ₚ concat (map blocks head) ++ blocks it ++ R ->
    wp (io (cJSON_Delete head);; mret (false, it)) (st o' d' l') (parsed R (S n) o d it)) as Hfail.
  { intros head o' d' l' Ht Ho' Hl'. unfold st. wlift. eapply cJSON_Delete_spec; [done|done|]. intros l2 Hl2. apply wp_ret. by exists o', d', l2. }
  assert (forall head o' l', Forall (fun x => shape n x /\ F (i_name x)) head -> o <= o' < len - 1 -> l_live l' ≡ₚ concat (map blocks head) ++ blocks it ++ R ->
    wp (modO (add_depth (-1));; advance 1;; mret (true, set_child head (set_type type it))) (st o' (d + 1) l') (parsed R (S n) o d it)) as Hok.
  { intros head o' l' Hh Ho' Hl'. unfold st, advance. wpure. exists (o' + 1), d, l'. cbn. destruct Hb as (a & t & s & -> & _). cbn in *.
    split_and!; [unfold add_depth, set_offset; cbn; by replace (d + 1 + -1) with d by lia| |lia|lia|done|by apply Hshape|done]. rewrite Hl'. by rewrite <- !app_assoc. }
  wbind. eapply wp_mono; [apply (Hopen (d + 1) l)|]. intros [] s ->; cbn [negb]; [|by apply (Hfail []); [|lia|]].
  wbind. apply advance_spec. wbind. apply skip_spec; [lia|]. intros o1 Ho1. wbind. apply next_is_spec; [lia|done|intros _ Hlt1; by apply Hok; [|lia|]|intros _].
  wbind. apply can_access_spec. destruct (_ <? _); cbn [negb].
  2: { wbind. apply advance_spec. by apply (Hfail []); [|lia|]. }
  wbind. apply advance_spec. unfold st. wpure. cbn [fst snd pb_length]. wbind. eapply wp_mono; [apply (Hloop (o1 + -1)); [lia|done]|].
  intros [ok head] s (o2 & d2 & l2 & -> & Hl2 & Ht & Hr). cbn [fst snd] in *. destruct ok; [|by apply Hfail; [|lia|]].
  destruct Hr as (Ho2 & -> & Hh). wbind. apply next_is_spec; [lia|done| |].
  - intros _ Hlt2. by apply Hok; [|lia|].
  - intros _. by apply Hfail; [|lia|].
Qed.
End level.

(** The scalars, given what arrays and objects do here. *)
Lemma parse_value_scalars k n it o d l R : blank it -> 0 <= o < len -> l_live l ≡ₚ blocks it ++ R ->
  (o < len - 1 -> wp (parse_array (parse_value k) it) (st o d l) (parsed R n o d it)) ->
  (o < len - 1 -> wp (parse_object (parse_value k) it) (st o d l) (parsed R n o d it)) ->
  wp (parse_value (S k) it) (st o d l) (parsed R n o d it).
Proof.
  intros (a & t & s & -> & Ht) Ho Hl Harr Hobj. cbn [parse_value].
  assert (forall it' o', blocks it' = blocks (MkItem a t None 0 (S754_zero false) s []) -> shape n it' -> i_name it' = s -> o < o' < len ->
    parsed R n o d (MkItem a t None 0 (S754_zero false) s []) (true, it') (st o' d l)) as Hok.
  { intros it' o' Hbl Hsh Hn Ho'. exists o', d, l. cbn [fst snd]. rewrite Hbl. split_and!; done || lia. }
  wbind. apply literal_spec; [by repeat constructor|done|lia|intros ?; wbind; apply advance_spec; apply wp_ret, Hok; [done|constructor|done|lia]|].
  wbind. apply literal_spec; [by repeat constructor|done|lia|intros ?; wbind; apply advance_spec; apply wp_ret, Hok; [done|constructor|done|lia]|].
  wbind. apply literal_spec; [by repeat constructor|done|lia|intros ?; wbind; apply advance_spec; apply wp_ret, Hok; [done|constructor|done|lia]|].
  wbind. apply next_is_spec; [lia|done| |].
  { intros _ _. eapply parse_string_spec; [lia|done| |].
    - intros o' l' Ho' Hl'. exists o', d, l'. cbn [fst snd]. split_and!; done || lia.
    - intros o' l' p bs Ho' Hl'. exists o', d, l'. cbn [fst snd]. split_and!; try done; try lia. constructor. }
  intros _. wbind. apply can_access_spec. rewrite (proj2 (Z.ltb_lt _ _)) by lia. wbind. wbind. apply at_index_spec; [lia|]. intros b _ _. apply wp_ret.
  destruct (_ || _).
  { apply parse_number_spec; [lia| |].
    - exists o, d, l. cbn [fst snd]. split_and!; done || lia.
    - intros o' i number Ho' Hs Hi. apply Hok; [done|by constructor|done|done]. }
  wbind. apply next_is_spec; [lia|done|intros _ Hlt; by apply Harr|intros _].
  wbind. apply next_is_spec; [lia|done|intros _ Hlt; by apply Hobj|intros _].
  apply wp_ret. exists o, d, l. cbn [fst snd]. split_and!; done || lia.
Qed.

(** Enough levels are left for what may still be opened. *)
Lemma parse_value_spec n it o d l R : Z.of_nat n = CJSON_NESTING_LIMIT - d -> blank it -> 0 <= o < len -> l_live l ≡ₚ blocks it ++ R ->
  wp (parse_value (S n) it) (st o d l) (parsed R n o d it).
Proof.
  revert it o d l R. induction n as [|n IH]; intros it o d l R Hn Hb Ho Hl.
  { apply parse_value_scalars; [done|done|done| |]; intros _; unfold parse_array, parse_object; (apply parse_chain_limit; [lia|lia|exact Hl]). }
  apply parse_value_scalars; [done|done|done| |]; intros Hlt.
  - eapply (parse_chain_spec _ _ _ _ _ _ _ (fun s => s = None)); [done|done|lia|lia|done| | |by constructor].
    + intros d' l'. wbind. apply at_index_spec; [lia|]. done.
    + intros o' l' Ho' Hl'. apply array_loop_spec; [|lia|lia|lia|by constructor|done]. intros. by apply IH; [lia| | |].
  - eapply (parse_chain_spec _ _ _ _ _ _ _ is_Some); [done|done|lia|lia|done| | |by constructor].
    + intros d' l'. by apply next_is_spec; [lia| | |].
    + intros o' l' Ho' Hl'. apply object_loop_spec; [|lia|lia|lia|by constructor|done]. intros. by apply IH; [lia| | |].
Qed.

Lemma parse_document_spec b it l R : blank it -> l_live l ≡ₚ blocks it ++ R ->
  wp (parse_document b it) (st 0 0 l) (fun r s => exists o' d' l', s = st o' d' l' /\ l_live l' ≡ₚ blocks r.2 ++ R /\ 0 <= o' <= len /\
    tidy (Z.to_nat CJSON_NESTING_LIMIT) r.2 /\
    (r.1 = true -> o' < len /\ shape (Z.to_nat CJSON_NESTING_LIMIT) r.2 /\ i_name r.2 = i_name it /\ (b = true -> o' = len - 1))).
Proof.
  intros Hb Hl. unfold parse_document. wbind. apply bom_spec. intros o Ho. wbind. wbind. apply skip_spec; [lia|]. intros o1 Ho1.
  eapply wp_mono; [apply (parse_value_spec (Z.to_nat CJSON_NESTING_LIMIT) it o1 0 l R); [done|done|lia|done]|]. intros [ok it'] s (o2 & d2 & l2 & -> & Hl2 & Hr). cbn [fst snd] in *.
  destruct ok; cbn [negb].
  2: { destruct Hr as [Ho2 ->]. apply wp_ret. exists o2, d2, l2. cbn [fst snd]. split_and!; try done; try lia. by apply blank_tidy. }
  destruct Hr as (Ho2 & -> & Hsh & Hn). pose proof (shape_tidy _ _ Hsh) as Ht. destruct b.
  - wbind. apply skip_spec; [lia|]. intros o3 Ho3. wbind. apply can_access_spec. rewrite (proj2 (Z.ltb_lt _ _)) by lia. wbind. apply at_index_spec; [lia|].
    intros c _ Hz. apply wp_ret. exists o3, 0, l2. cbn [fst snd]. split_and!; try done; try lia. intros ->%eqb_byte. split_and!; try done; [lia|]. intros _. rewrite Z.add_0_r in Hz. by apply Hz.
  - apply wp_ret. exists o2, 0, l2. cbn [fst snd]. split_and!; try done; try lia. intros _. split_and!; done || lia.
Qed.
End text.

(** ** The interface *)

Lemma parse_total (m : list byte) (n : Z) (b : bool) (l : lib) : strlen m = Some n ->
  exists r e l', cJSON_ParseWithOpts (Some m) b l = (Ok (r, Some e), l') /\ 0 <= e <= n /\
    match r with
    | None => l_live l' ≡ₚ l_live l /\ global_error l' = Some e
    | Some it => l_live l' ≡ₚ blocks it ++ l_live l /\ shape (Z.to_nat CJSON_NESTING_LIMIT) it /\ i_name it = None /\ (b = true -> e = n)
    end.
Proof.
  intros Htext.
  assert (strlen m = Some (n + 1 - 1)) as Ht by (by replace (n + 1 - 1) with n by lia). pose proof (strlen_spec _ _ Htext) as (Hn & _).
  assert (wp (cJSON_ParseWithOpts (Some m) b) l (fun r l' => exists e, r.2 = Some e /\ 0 <= e <= n /\
    match r.1 with
    | None => l_live l' ≡ₚ l_live l /\ global_error l' = Some e
    | Some it => l_live l' ≡ₚ blocks it ++ l_live l /\ shape (Z.to_nat CJSON_NESTING_LIMIT) it /\ i_name it = None /\ (b = true -> e = n)
    end)) as H.
  2: { apply wp_run in H as ([r e] & l' & E & e' & He & H). simpl in *. subst e. by exists r, e', l'. }
  unfold cJSON_ParseWithOpts. wpure. rewrite Htext. wbind. apply wp_ret. cbn zeta. wbind. apply new_item_spec; [|intros l1 Hl1; wpure; exists 0; cbn [fst snd offset pb_length]].
  2: { rewrite (proj2 (Z.ltb_lt 0 (n + 1))) by lia. split_and!; try done; try lia. simpl. by rewrite Hl1. }
  intros a l1 Hl1. wbind. pose proof (parse_document_spec m (n + 1) Ht b (MkItem a cJSON_Invalid None 0 (S754_zero false) None []) l1 (l_live l)) as Hdoc.
  destruct (wp_run _ _ _ (Hdoc ltac:(eexists _, _, _; split; [done|by left]) ltac:(by rewrite Hl1))) as ([ok it] & s & E & o & d & l2 & -> & Hl2 & Ho & Htidy & Hok).
  unfold st in E. eapply wp_eq; [by rewrite E|]. cbn [fst snd] in *. destruct ok.
  - destruct (Hok eq_refl) as (Ho' & Hsh & Hname & Hend). apply wp_ret. exists o. cbn [fst snd offset]. split_and!; try done; try lia. intros Hb. specialize (Hend Hb). lia.
  - wbind. eapply (cJSON_Delete_spec _ [it] _ (l_live l)); [by apply Forall_singleton|by rewrite Hl2; simpl; rewrite app_nil_r|]. intros l3 Hl3. wpure. cbn [offset pb_length].
    eexists. cbn [fst snd global_error set_error l_live]. split_and!; [done| | |done|done]; repeat case_match; lia.
Qed.

(** C33 json_parse_safe: on every zero-terminated text, whatever the allocator refuses,
    cJSON_ParseWithOpts returns: no loop runs on, nothing is read outside of the text or written
    outside of a string's block, nothing is freed twice.  Without a result all blocks are freed
    and the error is at a place of the text; with one, exactly the blocks of the tree are new,
    and the tree has the documented shape: at most 1000 levels, names on the members of objects
    and nowhere else, numbers as the saturated integer beside the double. *)
Theorem json_parse_safe (m : list byte) (n : Z) (b : bool) (l : lib) (Htext : strlen m = Some n) :
  exists r e l', cJSON_ParseWithOpts (Some m) b l = (Ok (r, Some e), l') /\ 0 <= e <= n /\
    match r with
    | None => l_live l' ≡ₚ l_live l /\ global_error l' = Some e
    | Some it => l_live l' ≡ₚ blocks it ++ l_live l /\ shape (Z.to_nat CJSON_NESTING_LIMIT) it /\ i_name it = None /\ (b = true -> e = n)
    end.
Proof. by apply parse_total. Qed.

(** On a list of a number and an empty object, with one block allocated before. *)
Lemma json_parse_safe_witness :
  exists r e l', cJSON_ParseWithOpts (Some (["["; "1"; ","; "{"; "}"; "]"]%byte ++ [x00])) true (MkLib [7] 8 [] None) = (Ok (r, Some e), l') /\ 0 <= e <= 6 /\
    match r with
    | None => l_live l' ≡ₚ [7] /\ global_error l' = Some e
    | Some it => l_live l' ≡ₚ blocks it ++ [7] /\ shape (Z.to_nat CJSON_NESTING_LIMIT) it /\ i_name it = None /\ (true = true -> e = 6)
    end.
Proof. apply (json_parse_safe _ 6 true (MkLib [7] 8 [] None)). reflexivity. Defined.
