(* ===== verification/CJsonGrammar.v ===== *)
(** * The JSON parser understands JSON

    The grammar of RFC 8259 as a relation between values and texts, and the proof that the
    parser turns every text of the grammar into the items of its value. *)

From S2P Require Import Prelude CJson CJsonTheorems.
From Stdlib Require Import SpecFloat.

(** ** Values and texts *)

Inductive json :=
  | JNull | JFalse | JTrue
  | JNumber (x : spec_float)
  | JString (s : list byte)
  | JArray (l : list json)
  | JObject (l : list (list byte * json)).

Definition ws (w : list byte) : Prop := Forall (fun b => b ∈ [x20; x09; x0a; x0d]) w.

(** UTF-8 by division. *)
Definition utf8 (cp : Z) : list byte :=
  let low k := z2b (128 + (cp / k) mod 64) in
  if cp <? 128 then [z2b cp]
  else if cp <? 2048 then [z2b (192 + cp / 64); low 1]
  else if cp <? 65536 then [z2b (224 + cp / 4096); low 64; low 1]
  else [z2b (240 + cp / 262144); low 4096; low 64; low 1].

Definition hex_table : list (byte * Z) :=
  zip ["0"; "1"; "2"; "3"; "4"; "5"; "6"; "7"; "8"; "9"; "a"; "b"; "c"; "d"; "e"; "f"; "A"; "B"; "C"; "D"; "E"; "F"]%byte
      [0; 1; 2; 3; 4; 5; 6; 7; 8; 9; 10; 11; 12; 13; 14; 15; 10; 11; 12; 13; 14; 15].

Definition escape_table : list (byte * byte) :=
  [(x22, x22); (x5c, x5c); ("/"%byte, "/"%byte); ("b"%byte, x08); ("f"%byte, x0c); ("n"%byte, x0a); ("r"%byte, x0d); ("t"%byte, x09)].

(** Four hexadecimal digits. *)
Inductive hex4 : list byte -> Z -> Prop :=
  | hex4_intro b1 b2 b3 b4 d1 d2 d3 d4 : (b1, d1) ∈ hex_table -> (b2, d2) ∈ hex_table -> (b3, d3) ∈ hex_table -> (b4, d4) ∈ hex_table ->
      hex4 [b1; b2; b3; b4] (((d1 * 16 + d2) * 16 + d3) * 16 + d4).

(** The inside of a string and its bytes. *)
Inductive chars : list byte -> list byte -> Prop :=
  | ch_nil : chars [] []
  | ch_plain b s v : 32 <= b2z b -> b <> x22 -> b <> x5c -> chars s v -> chars (b :: s) (b :: v)
  | ch_escape c e s v : (c, e) ∈ escape_table -> chars s v -> chars (x5c :: c :: s) (e :: v)
  | ch_unicode h cp s v : hex4 h cp -> ~ (55296 <= cp <= 57343) -> chars s v -> chars (x5c :: "u"%byte :: h ++ s) (utf8 cp ++ v)
  | ch_pair h1 c1 h2 c2 s v : hex4 h1 c1 -> hex4 h2 c2 -> 55296 <= c1 <= 56319 -> 56320 <= c2 <= 57343 -> chars s v ->
      chars (x5c :: "u"%byte :: h1 ++ x5c :: "u"%byte :: h2 ++ s) (utf8 (65536 + (c1 - 55296) * 1024 + (c2 - 56320)) ++ v).

Definition all_digits (ds : list byte) : Prop := ds <> [] /\ Forall (fun b => is_digit b = true) ds.

Definition num (ds : list byte) (acc : Z) : Z := foldl (fun a b => 10 * a + (b2z b - 48)) acc ds.

(** A fraction and its digits, an exponent and its value. *)
Inductive fraction : list byte -> list byte -> Prop :=
  | fr_none : fraction [] []
  | fr_some ds : all_digits ds -> fraction ("."%byte :: ds) ds.

Inductive expo : list byte -> Z -> Prop :=
  | ex_none : expo [] 0
  | ex_some c ds : c ∈ ["e"; "E"]%byte -> all_digits ds -> expo (c :: ds) (num ds 0)
  | ex_plus c ds : c ∈ ["e"; "E"]%byte -> all_digits ds -> expo (c :: "+"%byte :: ds) (num ds 0)
  | ex_minus c ds : c ∈ ["e"; "E"]%byte -> all_digits ds -> expo (c :: "-"%byte :: ds) (- num ds 0).

(** A number and the double nearest to it: the parser's buffer has room for 63 characters. *)
Inductive number_text : list byte -> spec_float -> Prop :=
  | nt_intro neg ds fr fds ex e : all_digits ds -> (forall r, ds = "0"%byte :: r -> r = []) -> fraction fr fds -> expo ex e ->
      let t := (if neg : bool then ["-"%byte] else []) ++ ds ++ fr ++ ex in
      (length t <= 63)%nat -> number_text t (decimal neg (num (ds ++ fds) 0) (e - zlen fds)).

Inductive text_of : json -> list byte -> Prop :=
  | tx_null : text_of JNull ["n"; "u"; "l"; "l"]%byte
  | tx_false : text_of JFalse ["f"; "a"; "l"; "s"; "e"]%byte
  | tx_true : text_of JTrue ["t"; "r"; "u"; "e"]%byte
  | tx_number x t : number_text t x -> text_of (JNumber x) t
  | tx_string s v : chars s v -> text_of (JString v) (x22 :: s ++ [x22])
  | tx_array_empty w : ws w -> text_of (JArray []) ("["%byte :: w ++ ["]"%byte])
  | tx_array w l t : ws w -> elements l t -> text_of (JArray l) ("["%byte :: w ++ t ++ ["]"%byte])
  | tx_object_empty w : ws w -> text_of (JObject []) ("{"%byte :: w ++ ["}"%byte])
  | tx_object w l t : ws w -> members l t -> text_of (JObject l) ("{"%byte :: w ++ t ++ ["}"%byte])
with elements : list json -> list byte -> Prop :=
  | el_last v t w : text_of v t -> ws w -> elements [v] (t ++ w)
  | el_more v t w w' l ts : text_of v t -> ws w -> ws w' -> elements l ts -> elements (v :: l) (t ++ w ++ ","%byte :: w' ++ ts)
with members : list (list byte * json) -> list byte -> Prop :=
  | mb_last s k w1 w2 v t w : chars s k -> ws w1 -> ws w2 -> text_of v t -> ws w ->
      members [(k, v)] (x22 :: s ++ x22 :: w1 ++ ":"%byte :: w2 ++ t ++ w)
  | mb_more s k w1 w2 v t w w' l ts : chars s k -> ws w1 -> ws w2 -> text_of v t -> ws w -> ws w' -> members l ts ->
      members ((k, v) :: l) (x22 :: s ++ x22 :: w1 ++ ":"%byte :: w2 ++ t ++ w ++ ","%byte :: w' ++ ts).

Scheme text_of_ind' := Minimality for text_of Sort Prop
  with elements_ind' := Minimality for elements Sort Prop
  with members_ind' := Minimality for members Sort Prop.
Combined Scheme text_mutind from text_of_ind', elements_ind', members_ind'.

(** Levels of arrays and objects. *)
Fixpoint nesting (v : json) : nat :=
  match v with
  | JArray l => S (max_list (map nesting l))
  | JObject l => S (max_list (map (fun p => nesting p.2) l))
  | _ => 0
  end.

(** The value of an item. *)
Definition str_bytes (s : option cstr) : list byte := match s with Some (_, bs) => bs | None => [] end.

Fixpoint value_of (it : item) : json :=
  let 'MkItem _ t v _ x _ c := it in
  if t =? cJSON_False then JFalse
  else if t =? cJSON_True then JTrue
  else if t =? cJSON_Number then JNumber x
  else if t =? cJSON_String then JString (str_bytes v)
  else if t =? cJSON_Array then JArray (map value_of c)
  else if t =? cJSON_Object then JObject (map (fun x => (str_bytes (i_name x), value_of x)) c)
  else JNull.

(** ** Characters *)

(** A fact of the numbers below [n], by trying them. *)
Lemma below n (f g : Z -> Z) : forallb (fun x => f x =? g x) (map Z.of_nat (seq 0 n)) = true -> forall x, 0 <= x < Z.of_nat n -> f x = g x.
Proof.
  intros H x Hx. rewrite forallb_forall in H. apply Z.eqb_eq, (H x), in_map_iff. exists (Z.to_nat x). split; [lia|]. apply in_seq. lia.
Qed.

Lemma utf8_low x : 0 <= x -> Z.land (Z.lor x 128) 191 = 128 + x mod 64.
Proof.
  intros Hx. change 191 with (Z.land 255 191) at 1. rewrite Z.land_assoc, Z.land_lor_distr_l. change (Z.land 128 255) with 128.
  change 255 with (Z.ones 8). rewrite Z.land_ones by lia. replace (x mod 64) with ((x mod 2 ^ 8) mod 64).
  - apply (below 256 (fun y => Z.land (Z.lor y 128) 191) (fun y => 128 + y mod 64)); [by vm_compute|]. apply Z.mod_pos_bound. lia.
  - change (2 ^ 8) with 256. symmetry. apply Znumtheory.Zmod_div_mod; [lia|lia|]. by exists 4.
Qed.

Lemma utf8_encode_spec cp : 0 <= cp <= 1114111 -> utf8_encode cp = Some (utf8 cp).
Proof.
  intros Hcp. unfold utf8_encode, utf8. rewrite !Z.div_1_r.
  destruct (Z.ltb_spec cp 128); [|destruct (Z.ltb_spec cp 2048); [|destruct (Z.ltb_spec cp 65536)]]; simpl.
  - by rewrite (below 128 (fun y => Z.land y 127) (fun y => y)) by first [by vm_compute|lia].
  - rewrite !Z.shiftr_div_pow2 by lia. rewrite utf8_low by lia. change (2 ^ 6) with 64.
    by rewrite (below 32 (fun y => Z.land (Z.lor y 192) 255) (fun y => 192 + y)) by first [split; [apply Z.div_pos|apply Z.div_lt_upper_bound]; lia|by vm_compute].
  - rewrite !Z.shiftr_div_pow2 by lia. change (2 ^ 6) with 64. rewrite !utf8_low by (lia || (apply Z.div_pos; lia)). rewrite !Z.div_div by lia. change (64 * 64) with 4096.
    by rewrite (below 16 (fun y => Z.land (Z.lor y 224) 255) (fun y => 224 + y)) by first [split; [apply Z.div_pos|apply Z.div_lt_upper_bound]; lia|by vm_compute].
  - destruct (Z.leb_spec cp 1114111); [|lia]. simpl. rewrite !Z.shiftr_div_pow2 by lia. change (2 ^ 6) with 64.
    rewrite !utf8_low by (lia || (apply Z.div_pos; [|lia]; try apply Z.div_pos; lia)). rewrite !Z.div_div by lia. change (64 * 64) with 4096. change (64 * 4096) with 262144. change (4096 * 64) with 262144.
    rewrite (below 8 (fun y => Z.land (Z.lor y 240) 255) (fun y => 240 + y)) by first [split; [apply Z.div_pos|apply Z.div_lt_upper_bound]; lia|by vm_compute]. reflexivity.
Qed.

Lemma surrogates c1 c2 : 55296 <= c1 <= 56319 -> 56320 <= c2 <= 57343 ->
  65536 + Z.lor (Z.shiftl (Z.land c1 1023) 10) (Z.land c2 1023) = 65536 + (c1 - 55296) * 1024 + (c2 - 56320).
Proof.
  intros H1 H2. change 1023 with (Z.ones 10). rewrite !Z.land_ones, Z.shiftl_mul_pow2 by lia. change (2 ^ 10) with 1024.
  replace (c1 mod 1024) with (c1 - 55296) by (apply (Zmod_unique _ _ 54); lia). replace (c2 mod 1024) with (c2 - 56320) by (apply (Zmod_unique _ _ 55); lia).
  rewrite <- Z.add_assoc, <- (Z.add_lor_land ((c1 - 55296) * 1024)). assert (Z.land ((c1 - 55296) * 1024) (c2 - 56320) = 0) as ->; [|lia].
  apply Z.bits_inj'. intros i Hi. rewrite Z.land_spec, Z.bits_0. change 1024 with (2 ^ 10). destruct (Z.lt_ge_cases i 10).
  - by rewrite Z.mul_pow2_bits_low by lia.
  - rewrite <- (Z.mod_small (c2 - 56320) (2 ^ 10)) by lia. by rewrite Z.mod_pow2_bits_high, andb_false_r by lia.
Qed.

Lemma hex_table_spec b d : (b, d) ∈ hex_table -> hex_digit (b2z b) = Some d /\ 0 <= d < 16 /\ b <> x22 /\ b <> x5c /\ b <> x00.
Proof.
  intros Hin. assert (Forall (fun p => hex_digit (b2z p.1) = Some p.2 /\ 0 <= p.2 < 16 /\ p.1 <> x22 /\ p.1 <> x5c /\ p.1 <> x00) hex_table) as H.
  { unfold hex_table; simpl. repeat (apply Forall_cons_2; [cbn [fst snd]; split_and!; first [lia|done]|]). apply Forall_nil_2. }
  rewrite Forall_forall in H. apply list_elem_of_In in Hin. exact (H (b, d) Hin).
Qed.

Lemma escape_table_spec c e : (c, e) ∈ escape_table -> simple_escape c = Some e /\ c <> x00.
Proof.
  intros Hin. assert (Forall (fun p => simple_escape p.1 = Some p.2 /\ p.1 <> x00) escape_table) as H by (by repeat constructor).
  rewrite Forall_forall in H. apply list_elem_of_In in Hin. exact (H (c, e) Hin).
Qed.

Lemma ws_byte b : b ∈ [x20; x09; x0a; x0d] -> b2z b <= 32 /\ b <> x00.
Proof. rewrite !elem_of_cons, elem_of_nil. by intros [-> |[-> |[-> |[-> |[]]]]]. Qed.

(** ** Numbers *)

Definition no_digit_first (r : list byte) : Prop := match r with b :: _ => is_digit b = false | [] => True end.

Lemma digits_exact ds acc r : Forall (fun b => is_digit b = true) ds -> no_digit_first r -> digits (ds ++ r) acc = (num ds acc, length ds, r).
Proof.
  intros Hd Hr. revert acc. induction Hd as [|b ds Hb Hd IH]; intros acc; simpl.
  - destruct r as [|b r]; simpl; [done|]. simpl in Hr. by rewrite Hr.
  - rewrite Hb, IH. done.
Qed.

Lemma digit_byte b : is_digit b = true -> is_sign b = false /\ Byte.eqb b "." = false /\ Byte.eqb b "e" = false /\ Byte.eqb b "E" = false /\ number_char b = true.
Proof. by destruct b. Qed.

Lemma sign_exact ds r : all_digits ds -> sign (ds ++ r) = (false, O, ds ++ r).
Proof. intros [Hne Hd]. destruct Hd as [|b ds Hb Hd]; [done|]. simpl. by destruct (digit_byte b Hb) as [-> _]. Qed.

Lemma expo_exact ex e : expo ex e -> exponent ex = (e, length ex) /\ no_digit_first ex /\ match ex with b :: _ => Byte.eqb b "." = false | [] => True end.
Proof.
  assert (forall c, c ∈ ["e"; "E"]%byte -> (Byte.eqb c "e" || Byte.eqb c "E" = true) /\ is_digit c = false /\ Byte.eqb c "." = false) as Hc.
  { intros c. rewrite !elem_of_cons, elem_of_nil. by intros [-> |[-> |[]]]. }
  assert (forall ds, all_digits ds -> exists n, length ds = S n) as Hn.
  { intros [|b ds] [Hne _]; [done|]. by exists (length ds). }
  assert (forall ds, all_digits ds -> digits ds 0 = (num ds 0, length ds, [])) as Hd.
  { intros ds [_ Hd]. rewrite <- (app_nil_r ds) at 1. by apply digits_exact. }
  intros [|c ds Hin Ha|c ds Hin Ha|c ds Hin Ha]; [done| | |]; destruct (Hc c Hin) as (H1 & H2 & H3); simpl; rewrite H1, H3;
    [pose proof (sign_exact ds [] Ha) as Hs; rewrite app_nil_r in Hs; rewrite Hs| |]; rewrite (Hd ds Ha); destruct (Hn ds Ha) as [n En]; by rewrite En.
Qed.

Lemma number_chars t x : number_text t x -> Forall (fun b => number_char b = true) t /\ (exists b t', t = b :: t' /\ (Byte.eqb b "-" || is_digit b = true)) /\ (length t <= 63)%nat.
Proof.
  assert (forall ds, Forall (fun b => is_digit b = true) ds -> Forall (fun b => number_char b = true) ds) as Hd.
  { intros ds. apply Forall_impl. intros b Hb. by apply digit_byte in Hb as (_ & _ & _ & _ & ->). }
  intros [neg ds fr fds ex e [Hne Ha] H0 Hf He t' Hlen]. split; [|split; [|done]].
  - apply Forall_app. split; [destruct neg; by repeat constructor|]. apply Forall_app. split; [by apply Hd|]. apply Forall_app. split.
    + destruct Hf as [|ds' [_ Hd']]; [done|]. constructor; [done|by apply Hd].
    + destruct He as [|c ds' Hc [_ Hd']|c ds' Hc [_ Hd']|c ds' Hc [_ Hd']]; [done| | |];
        (assert (number_char c = true) by (revert Hc; rewrite !elem_of_cons, elem_of_nil; by intros [-> |[-> |[]]])); repeat (constructor; [done|]); by apply Hd.
  - destruct neg; [by eexists _, _|]. destruct Ha as [|b ds Hb Ha]; [done|]. exists b, (ds ++ fr ++ ex). split; [done|]. by rewrite Hb, orb_true_r.
Qed.

Lemma strtod_exact t x : number_text t x -> strtod t = (x, length t).
Proof.
  intros [neg ds fr fds ex e Ha H0 Hf He t' Hlen]. destruct (expo_exact ex e He) as (Hex & Hnd & Hdot). unfold strtod.
  assert (sign t' = (neg, if neg then 1 else 0, ds ++ fr ++ ex)%nat) as ->.
  { unfold t'. destruct neg; simpl; [done|]. by apply sign_exact. }
  assert (no_digit_first (fr ++ ex)) as Hr by (by destruct Hf).
  rewrite digits_exact by (apply Ha || done). destruct Ha as [Hne Ha].
  assert (match fr ++ ex with
    | b :: s' => if Byte.eqb b "." then let '(m, n2, s) := digits s' (num ds 0) in (m, n2, 1%nat, s) else (num ds 0, O, O, fr ++ ex)
    | [] => (num ds 0, O, O, fr ++ ex) end = (num (ds ++ fds) 0, length fds, (if decide (fr = []) then 0 else 1)%nat, ex)) as ->.
  { destruct Hf as [|fds [_ Hfd]]; simpl.
    - rewrite app_nil_r. destruct ex as [|b ex]; [done|]. by rewrite Hdot.
    - rewrite digits_exact by done. unfold num. by rewrite foldl_app. }
  assert (length ds <> 0)%nat by (by destruct ds). rewrite (proj2 (Nat.eqb_neq _ _)) by lia. rewrite Hex. f_equal.
  unfold t'. rewrite !length_app. assert (length fr = (if decide (fr = []) then 0 else 1) + length fds)%nat as -> by (by destruct Hf). destruct neg; simpl; lia.
Qed.

(** ** Runs

    [runs]: if the program returns, it returns in [Q].  That it does return is shown elsewhere. *)

Definition runs {S A} (c : M S A) (s : S) (Q : A -> S -> Prop) : Prop := wpc c s Q (fun _ _ => True).

Section runs.
Context {S : Type}.

Lemma runs_bind {A B} (c : M S A) (k : A -> M S B) s Q : runs c s (fun a s' => runs (k a) s' Q) -> runs (c ≫= k) s Q.
Proof. apply wpc_bind. Qed.
Lemma runs_ret {A} (a : A) (s : S) Q : Q a s -> runs (mret a) s Q.
Proof. done. Qed.
Lemma runs_mono {A} (c : M S A) s (Q Q' : A -> S -> Prop) : runs c s Q -> (forall a s', Q a s' -> Q' a s') -> runs c s Q'.
Proof. intros. eapply wpc_mono; eauto. Qed.
Lemma runs_halt {A} e (s : S) (Q : A -> S -> Prop) : runs (halt e) s Q.
Proof. done. Qed.
Lemma runs_result {A} (c : M S A) s Q a s' : runs c s Q -> c s = (Ok a, s') -> Q a s'.
Proof. unfold runs, wpc. intros H E. by rewrite E in H. Qed.
End runs.

Ltac rbind := apply runs_bind.

Section exact.
Context (m : list byte) (len : Z) (Htext : strlen m = Some (len - 1)).
Notation st := (st m len).

(** From position [o] on the text is [s]. *)
Definition sees (o : Z) (s : list byte) : Prop := 0 <= o < len /\ drop (Z.to_nat o) m = s.

Lemma sees_at o c s : sees o (c :: s) -> mem_at m o = Some c.
Proof.
  intros [Ho E]. unfold mem_at. rewrite Zle_imp_le_bool by lia. rewrite <- (Nat.add_0_r (Z.to_nat o)), <- lookup_drop, E. done.
Qed.

Lemma sees_next o c s : sees o (c :: s) -> c <> x00 -> sees (o + 1) s.
Proof.
  intros Hs Hc. pose proof (sees_at _ _ _ Hs) as Hat. destruct Hs as [Ho E]. destruct (text_at m len Htext o Ho) as (b & Hb & Hz).
  split; [|replace (Z.to_nat (o + 1)) with (Z.to_nat o + 1)%nat by lia; by rewrite <- drop_drop, E].
  assert (o <> len - 1); [|lia]. intros ->%Hz. congruence.
Qed.

Definition printable (t : list byte) : Prop := Forall (fun b => b <> x00) t.

Lemma sees_app o t s : sees o (t ++ s) -> printable t -> sees (o + zlen t) s.
Proof.
  intros Hs Ht. revert o Hs. induction Ht as [|c t Hc Ht IH]; intros o Hs; [change (zlen (@nil byte)) with 0; by rewrite Z.add_0_r|].
  rewrite zlen_cons, Z.add_assoc. apply IH. by eapply sees_next.
Qed.

Lemma rd_exact o c s o' d l (Q : byte -> _ -> Prop) : sees o (c :: s) -> Q c (st o' d l) -> runs (rd o) (st o' d l) Q.
Proof. intros Hs HQ. rbind. change (runs (of_mem (mem_at m o)) (st o' d l) Q). by rewrite (sees_at _ _ _ Hs). Qed.

Lemma advance_exact n o d l (Q : unit -> _ -> Prop) : Q tt (st (o + n) d l) -> runs (advance n) (st o d l) Q.
Proof. done. Qed.

Lemma can_access_exact i o d l (Q : bool -> _ -> Prop) : o + i < len -> Q true (st o d l) -> runs (can_access_at_index i) (st o d l) Q.
Proof. intros Ho HQ. unfold runs, wpc. simpl. by rewrite (proj2 (Z.ltb_lt _ _)). Qed.

Lemma at_index_exact i o c s d l (Q : byte -> _ -> Prop) : sees (o + i) (c :: s) -> Q c (st o d l) -> runs (at_index i) (st o d l) Q.
Proof. intros Hs HQ. unfold at_index. rbind. by eapply rd_exact. Qed.

Lemma next_is_exact c o b s d l (Q : bool -> _ -> Prop) : sees o (b :: s) -> Q (Byte.eqb b c) (st o d l) -> runs (next_is c) (st o d l) Q.
Proof.
  intros Hs HQ. pose proof Hs as [Ho _]. unfold next_is. rbind. apply can_access_exact; [lia|]. rbind.
  eapply (at_index_exact 0); [by rewrite Z.add_0_r|done].
Qed.

Lemma getO_exact {A} (f : parse_buffer -> A) o d l (Q : A -> _ -> Prop) : Q (f (MkBuffer m len o d)) (st o d l) -> runs (getO f) (st o d l) Q.
Proof. done. Qed.

Lemma modO_exact (f : parse_buffer -> parse_buffer) o d l (Q : unit -> _ -> Prop) : Q tt (f (MkBuffer m len o d), l) -> runs (modO f) (st o d l) Q.
Proof. done. Qed.

(** White space in front of anything else is skipped. *)
Lemma skip_exact w o c s d l (Q : unit -> _ -> Prop) : ws w -> sees o (w ++ c :: s) -> 32 < b2z c -> Q tt (st (o + zlen w) d l) ->
  runs buffer_skip_whitespace (st o d l) Q.
Proof.
  intros Hw Hs Hc HQ. unfold buffer_skip_whitespace. rbind. apply getO_exact. cbn [pb_length]. rbind. generalize (S (Z.to_nat len)). intros fuel.
  assert (c <> x00) as Hc0 by (by intros ->). assert (sees (o + zlen w) (c :: s)) as [Hend _].
  { apply sees_app; [done|]. eapply Forall_impl; [|exact Hw]. intros b Hb. by apply ws_byte in Hb as [_ ?]. }
  revert o fuel Hs HQ Hend. induction Hw as [|b w Hb Hw IH]; intros o [|fuel] Hs HQ Hend; try apply runs_halt; cbn [skip_loop]; pose proof Hs as [Ho _].
  - rbind. apply can_access_exact; [lia|]. rbind. eapply (at_index_exact 0); [by rewrite Z.add_0_r|]. rewrite (proj2 (Z.leb_gt _ _)) by done. apply runs_ret.
    change (zlen (@nil byte)) with 0 in *. rewrite Z.add_0_r in *. rbind. apply getO_exact. cbn [offset pb_length]. by rewrite (proj2 (Z.eqb_neq _ _)) by lia.
  - destruct (ws_byte b Hb) as [Hb32 Hb0]. rbind. apply can_access_exact; [lia|]. rbind. eapply (at_index_exact 0); [by rewrite Z.add_0_r|].
    rewrite (proj2 (Z.leb_le _ _)) by done. rbind. apply advance_exact. rewrite zlen_cons, Z.add_assoc in *. apply IH; [by eapply sees_next|done|done].
Qed.

Lemma starts_with_exact lit p s o d l (Q : bool -> _ -> Prop) : printable lit -> sees p (lit ++ s) -> Q true (st o d l) -> runs (starts_with p lit) (st o d l) Q.
Proof.
  intros Hl. revert p. induction Hl as [|c lit Hc Hl IH]; intros p Hs HQ; cbn [starts_with]; [done|]. rbind. eapply rd_exact; [done|].
  rewrite (proj2 (eqb_byte c c)) by done. apply IH; [by eapply sees_next|done].
Qed.

Lemma literal_exact n lit s o d l (Q : bool -> _ -> Prop) : printable lit -> n = zlen lit -> sees o (lit ++ s) -> Q true (st o d l) -> runs (literal n lit) (st o d l) Q.
Proof.
  intros Hp -> Hs HQ. pose proof (sees_app _ _ _ Hs Hp) as [Hb _]. unfold literal, can_read. rbind. apply getO_exact. cbn [offset pb_length]. rewrite (proj2 (Z.leb_le _ _)) by lia.
  rbind. apply getO_exact. by eapply starts_with_exact.
Qed.

Lemma literal_other n c lit b s o d l (Q : bool -> _ -> Prop) : sees o (b :: s) -> Byte.eqb b c = false -> Q false (st o d l) -> runs (literal n (c :: lit)) (st o d l) Q.
Proof.
  intros Hs Hb HQ. unfold literal, can_read. rbind. apply getO_exact. destruct (_ <=? _); [|done]. rbind. apply getO_exact. cbn [starts_with offset].
  rbind. eapply rd_exact; [done|]. by rewrite Hb.
Qed.

(** ** Strings *)

Definition plain (t : list byte) : Prop := Forall (fun b => b <> x22 /\ b <> x5c /\ b <> x00) t.

Lemma hex4_facts h cp : hex4 h cp -> zlen h = 4 /\ plain h /\ 0 <= cp < 65536.
Proof.
  intros [b1 b2 b3 b4 d1 d2 d3 d4 H1 H2 H3 H4]. apply hex_table_spec in H1 as (_ & ? & ?), H2 as (_ & ? & ?), H3 as (_ & ? & ?), H4 as (_ & ? & ?).
  split; [done|]. split; [|lia]. by repeat (apply Forall_cons_2; [done|]).
Qed.

Lemma plain_printable t : plain t -> printable t.
Proof. apply Forall_impl. by intros b (_ & _ & ?). Qed.

Lemma chars_printable s v : chars s v -> printable s.
Proof.
  induction 1 as [|b s v Hb H1 H2 H IH|c e s v He H IH|h cp s v Hh Hc H IH|h1 c1 h2 c2 s v Hh1 Hh2 Hc1 Hc2 H IH]; [by apply Forall_nil_2| | | |].
  - constructor; [|done]. by intros ->.
  - apply escape_table_spec in He as [_ He]. by repeat constructor.
  - constructor; [done|]. constructor; [done|]. apply Forall_app. split; [|done]. by apply plain_printable, (hex4_facts h cp).
  - constructor; [done|]. constructor; [done|]. apply Forall_app. split; [by apply plain_printable, (hex4_facts h1 c1)|]. constructor; [done|]. constructor; [done|].
    apply Forall_app. split; [|done]. by apply plain_printable, (hex4_facts h2 c2).
Qed.

Lemma parse_hex4_exact p h cp s o d l (Q : Z -> _ -> Prop) : hex4 h cp -> sees p (h ++ s) -> Q cp (st o d l) -> runs (parse_hex4 p) (st o d l) Q.
Proof.
  intros [b1 b2 b3 b4 d1 d2 d3 d4 H1 H2 H3 H4] Hs HQ. apply hex_table_spec in H1 as (E1 & ? & _ & _ & N1), H2 as (E2 & ? & _ & _ & N2), H3 as (E3 & ? & _ & _ & N3), H4 as (E4 & ? & _ & _ & N4).
  cbn [app] in Hs. pose proof (sees_next _ _ _ Hs N1) as Hs2. pose proof (sees_next _ _ _ Hs2 N2) as Hs3. pose proof (sees_next _ _ _ Hs3 N3) as Hs4.
  unfold parse_hex4. cbn [hex_loop].
  rbind. (eapply rd_exact; [done|]). rewrite E1. cbn [hex_loop Nat.ltb Nat.leb]. rbind. (eapply rd_exact; [done|]). rewrite E2.
  rbind. (eapply rd_exact; [done|]). rewrite E3. rbind. (eapply rd_exact; [done|]). rewrite E4. apply runs_ret.
  rewrite !Z.shiftl_mul_pow2 by lia. change (2 ^ 4) with 16. repeat match goal with |- context [u32 ?x] => lazymatch x with context [u32 _] => fail | _ => rewrite (u32_small x) by lia end end. by rewrite Z.add_0_l.
Qed.

Lemma utf16_single p e h cp s o d l (Q : Z * list byte -> _ -> Prop) : hex4 h cp -> ~ (55296 <= cp <= 57343) -> sees p (x5c :: "u"%byte :: h ++ s) -> p + 6 <= e ->
  Q (6, utf8 cp) (st o d l) -> runs (utf16_literal_to_utf8 p e) (st o d l) Q.
Proof.
  intros Hh Hc Hs He HQ. destruct (hex4_facts h cp Hh) as (_ & _ & Hr). unfold utf16_literal_to_utf8. rewrite (proj2 (Z.ltb_ge _ _)) by lia.
  rbind. eapply parse_hex4_exact; [done| |].
  { replace (p + 2) with (p + 1 + 1) by lia. eapply sees_next; [by eapply sees_next|done]. }
  rewrite (proj2 (andb_false_iff _ _)) by lia. rewrite (proj2 (andb_false_iff (55296 <=? cp) _)) by lia. apply runs_ret. by rewrite utf8_encode_spec by lia.
Qed.

Lemma utf16_pair p e h1 c1 h2 c2 s o d l (Q : Z * list byte -> _ -> Prop) : hex4 h1 c1 -> hex4 h2 c2 -> 55296 <= c1 <= 56319 -> 56320 <= c2 <= 57343 ->
  sees p (x5c :: "u"%byte :: h1 ++ x5c :: "u"%byte :: h2 ++ s) -> p + 12 <= e ->
  Q (12, utf8 (65536 + (c1 - 55296) * 1024 + (c2 - 56320))) (st o d l) -> runs (utf16_literal_to_utf8 p e) (st o d l) Q.
Proof.
  intros Hh1 Hh2 Hc1 Hc2 Hs He HQ. destruct (hex4_facts h1 c1 Hh1) as (Hl1 & Hp1 & _). unfold utf16_literal_to_utf8. rewrite (proj2 (Z.ltb_ge _ _)) by lia.
  assert (sees (p + 2) (h1 ++ x5c :: "u"%byte :: h2 ++ s)) as Hs2.
  { replace (p + 2) with (p + 1 + 1) by lia. eapply sees_next; [by eapply sees_next|done]. }
  pose proof (sees_app _ _ _ Hs2 (plain_printable _ Hp1)) as Hs3. rewrite Hl1 in Hs3. replace (p + 2 + 4) with (p + 6) in Hs3 by lia. pose proof (sees_next _ _ _ Hs3 ltac:(done)) as Hs4.
  rbind. eapply (parse_hex4_exact _ _ _ _ _ _ _ _ Hh1 Hs2). rewrite (proj2 (andb_false_iff _ _)) by lia. rewrite (proj2 (andb_true_iff (55296 <=? c1) _)) by lia.
  rewrite (proj2 (Z.ltb_ge _ _)) by lia. rbind. eapply rd_exact; [done|]. change (Byte.eqb x5c x5c) with true. cbn iota. rbind. eapply rd_exact; [done|]. change (Byte.eqb "u" "u") with true. cbn [negb orb]. rbind.
  eapply parse_hex4_exact; [done| |].
  { replace (p + 6 + 2) with (p + 6 + 1 + 1) by lia. by eapply sees_next. }
  rewrite (proj2 (orb_false_iff _ _)) by lia. apply runs_ret. rewrite surrogates by done. by rewrite utf8_encode_spec by lia.
Qed.

Lemma scan_plain t p k s o d l (Q : option (Z * Z) -> _ -> Prop) : plain t -> sees p (t ++ s) ->
  (forall fuel, runs (scan_string fuel (p + zlen t) k) (st o d l) Q) -> forall fuel, runs (scan_string fuel p k) (st o d l) Q.
Proof.
  intros Ht. revert p. induction Ht as [|b t (H1 & H2 & H3) Ht IH]; intros p Hs HQ fuel; [specialize (HQ fuel); change (zlen (@nil byte)) with 0 in HQ; by rewrite Z.add_0_r in HQ|].
  destruct fuel as [|fuel]; [apply runs_halt|]. cbn [scan_string]. rbind. apply getO_exact. cbn [pb_length]. pose proof Hs as [Hp _]. rewrite (proj2 (Z.leb_gt _ _)) by lia.
  rbind. eapply rd_exact; [done|]. rewrite (proj2 (eqb_byte_false _ _) H1), (proj2 (eqb_byte_false _ _) H2).
  apply IH; [by eapply sees_next|]. intros fuel'. rewrite zlen_cons, Z.add_assoc in HQ. apply HQ.
Qed.

Lemma scan_escape p k c s o d l (Q : option (Z * Z) -> _ -> Prop) : sees p (x5c :: c :: s) ->
  (forall fuel, runs (scan_string fuel (p + 2) (k + 1)) (st o d l) Q) -> forall fuel, runs (scan_string fuel p k) (st o d l) Q.
Proof.
  intros Hs HQ [|fuel]; [apply runs_halt|]. cbn [scan_string]. rbind. apply getO_exact. cbn [pb_length]. pose proof Hs as [Hp _]. rewrite (proj2 (Z.leb_gt _ _)) by lia.
  rbind. eapply rd_exact; [done|]. change (Byte.eqb x5c x22) with false. change (Byte.eqb x5c x5c) with true. cbn iota. pose proof (sees_next _ _ _ Hs ltac:(done)) as [Hp' _]. rewrite (proj2 (Z.leb_gt _ _)) by lia. apply HQ.
Qed.

Lemma scan_exact s v p k r o d l (Q : option (Z * Z) -> _ -> Prop) : chars s v -> sees p (s ++ x22 :: r) ->
  (forall k', Q (Some (p + zlen s, k')) (st o d l)) -> forall fuel, runs (scan_string fuel p k) (st o d l) Q.
Proof.
  intros Hc. revert p k. induction Hc as [|b s v Hb H1 H2 H IH|c e s v He H IH|h cp s v Hh Hc H IH|h1 c1 h2 c2 s v Hh1 Hh2 Hc1 Hc2 H IH]; intros p k Hs HQ; cbn [app] in Hs.
  - intros [|fuel]; [apply runs_halt|]. cbn [scan_string]. rbind. apply getO_exact. cbn [pb_length]. pose proof Hs as [Hp _]. rewrite (proj2 (Z.leb_gt _ _)) by lia.
    rbind. eapply rd_exact; [done|]. apply runs_ret. specialize (HQ k). change (zlen (@nil byte)) with 0 in HQ. by rewrite Z.add_0_r in HQ.
  - apply (scan_plain [b] _ _ (s ++ x22 :: r)); [|done|].
    { apply Forall_cons_2; [|apply Forall_nil_2]. split_and!; [done|done|]. by intros ->. }
    apply IH; [eapply sees_next; [done|by intros ->]|]. intros k'. rewrite zlen_single, <- Z.add_assoc, <- (zlen_cons b). apply HQ.
  - apply escape_table_spec in He as [_ Hc0]. eapply scan_escape; [done|]. apply IH.
    + replace (p + 2) with (p + 1 + 1) by lia. eapply sees_next; [by eapply sees_next|done].
    + intros k'. specialize (HQ k'). rewrite !zlen_cons in HQ. by replace (p + 2 + zlen s) with (p + (1 + (1 + zlen s))) by lia.
  - destruct (hex4_facts h cp Hh) as (Hl & Hp & _). rewrite <- app_assoc in Hs.
    assert (sees (p + 2) (h ++ s ++ x22 :: r)) as Hs2 by (replace (p + 2) with (p + 1 + 1) by lia; eapply sees_next; [by eapply sees_next|done]).
    eapply scan_escape; [done|]. apply (scan_plain h _ _ (s ++ x22 :: r)); [done|done|]. apply IH; [by apply sees_app; [|apply plain_printable]|].
    intros k'. specialize (HQ k'). rewrite !zlen_cons, zlen_app in HQ. by replace (p + 2 + zlen h + zlen s) with (p + (1 + (1 + (zlen h + zlen s)))) by lia.
  - destruct (hex4_facts h1 c1 Hh1) as (Hl1 & Hp1 & _), (hex4_facts h2 c2 Hh2) as (Hl2 & Hp2 & _). rewrite <- app_assoc in Hs. cbn [app] in Hs. rewrite <- app_assoc in Hs.
    assert (sees (p + 2) (h1 ++ x5c :: "u"%byte :: h2 ++ s ++ x22 :: r)) as Hs2 by (replace (p + 2) with (p + 1 + 1) by lia; eapply sees_next; [by eapply sees_next|done]).
    pose proof (sees_app _ _ _ Hs2 (plain_printable _ Hp1)) as Hs3.
    assert (sees (p + 2 + zlen h1 + 2) (h2 ++ s ++ x22 :: r)) as Hs4 by (replace (p + 2 + zlen h1 + 2) with (p + 2 + zlen h1 + 1 + 1) by lia; eapply sees_next; [by eapply sees_next|done]).
    eapply scan_escape; [done|]. apply (scan_plain h1 _ _ (x5c :: "u"%byte :: h2 ++ s ++ x22 :: r)); [done|done|]. eapply scan_escape; [done|].
    apply (scan_plain h2 _ _ (s ++ x22 :: r)); [done|done|]. apply IH; [by apply sees_app; [|apply plain_printable]|].
    intros k'. specialize (HQ k'). rewrite !zlen_cons, zlen_app, !zlen_cons, zlen_app in HQ.
    by replace (p + 2 + zlen h1 + 2 + zlen h2 + zlen s) with (p + (1 + (1 + (zlen h1 + (1 + (1 + (zlen h2 + zlen s))))))) by lia.
Qed.

Lemma put_out_exact size out bs o d l (Q : list byte -> _ -> Prop) : Q (out ++ bs) (st o d l) -> runs (put_out size out bs) (st o d l) Q.
Proof. intros HQ. unfold put_out. by destruct (_ <=? _). Qed.

Lemma unescape_exact s v fuel size q e out r o d l (Q : list byte + Z -> _ -> Prop) : chars s v -> sees q (s ++ r) -> e = q + zlen s ->
  Q (inl (out ++ v)) (st o d l) -> runs (unescape fuel size q e out) (st o d l) Q.
Proof.
  intros Hc. revert fuel q e out. induction Hc as [|b s v Hb H1 H2 H IH|c ec s v He H IH|h cp s v Hh Hc H IH|h1 c1 h2 c2 s v Hh1 Hh2 Hc1 Hc2 H IH];
    intros [|fuel] q e out Hs -> HQ; try apply runs_halt; cbn [unescape]; cbn [app] in Hs.
  { change (zlen (@nil byte)) with 0. rewrite (proj2 (Z.ltb_ge _ _)) by lia. by rewrite app_nil_r in HQ. }
  all: rewrite ?zlen_cons, ?zlen_app, ?zlen_cons, ?zlen_app; pose proof (zlen_nonneg s); rewrite (proj2 (Z.ltb_lt _ _)) by (rewrite ?(proj1 (hex4_facts _ _ Hh)); try pose proof (zlen_nonneg h1); try pose proof (zlen_nonneg h2); lia).
  all: rbind; eapply rd_exact; [done|].
  - rewrite (proj2 (eqb_byte_false _ _) H2). cbn [negb]. rbind. apply put_out_exact. apply IH; [eapply sees_next; [done|by intros ->]|lia|by rewrite <- app_assoc].
  - change (Byte.eqb x5c x5c) with true. cbn [negb]. rewrite (proj2 (Z.ltb_ge _ _)) by lia. destruct (escape_table_spec c ec He) as [Ee Hc0].
    rbind. eapply rd_exact; [by eapply sees_next|]. rewrite Ee. rbind. apply put_out_exact.
    apply IH; [replace (q + 2) with (q + 1 + 1) by lia; eapply sees_next; [by eapply sees_next|done]|lia|by rewrite <- app_assoc].
  - change (Byte.eqb x5c x5c) with true. destruct (hex4_facts h cp Hh) as (Hl & Hp & _). cbn [negb app] in *. rewrite <- app_assoc in Hs. rewrite (proj2 (Z.ltb_ge _ _)) by lia.
    rbind. eapply rd_exact; [by eapply sees_next|]. change (simple_escape "u") with (@None byte). change (Byte.eqb "u" "u") with true. cbn iota. rbind.
    eapply (utf16_single _ _ _ _ _ _ _ _ _ Hh Hc Hs); [lia|]. cbn iota beta. change (6 =? 0) with false. cbn iota. rbind. apply put_out_exact.
    apply IH; [|lia|by rewrite <- app_assoc]. replace (q + 6) with (q + 1 + 1 + zlen h) by lia. apply sees_app; [|by apply plain_printable]. eapply sees_next; [by eapply sees_next|done].
  - change (Byte.eqb x5c x5c) with true. destruct (hex4_facts h1 c1 Hh1) as (Hl1 & Hp1 & _), (hex4_facts h2 c2 Hh2) as (Hl2 & Hp2 & _).
    cbn [negb app] in *. rewrite <- app_assoc in Hs. cbn [app] in Hs. rewrite <- app_assoc in Hs. rewrite (proj2 (Z.ltb_ge _ _)) by lia.
    rbind. eapply rd_exact; [by eapply sees_next|]. change (simple_escape "u") with (@None byte). change (Byte.eqb "u" "u") with true. cbn iota. rbind.
    eapply (utf16_pair _ _ _ _ _ _ _ _ _ _ _ Hh1 Hh2 Hc1 Hc2 Hs); [lia|]. cbn iota beta. change (12 =? 0) with false. cbn iota. rbind. apply put_out_exact.
    pose proof (sees_app _ _ _ (sees_next _ _ _ (sees_next _ _ _ Hs ltac:(done)) ltac:(done)) (plain_printable _ Hp1)) as Hs2.
    pose proof (sees_app _ _ _ (sees_next _ _ _ (sees_next _ _ _ Hs2 ltac:(done)) ltac:(done)) (plain_printable _ Hp2)) as Hs3.
    apply IH; [|lia|by rewrite <- app_assoc]. by replace (q + 12) with (q + 1 + 1 + zlen h1 + 1 + 1 + zlen h2) by lia.
Qed.

(** An allocator that refuses nothing. *)
Definition willing (l : lib) : Prop := l_grants l = [].

Lemma allocate_willing l (Q : option Z -> lib -> Prop) : willing l -> (forall a l', willing l' -> Q (Some a) l') -> runs allocate l Q.
Proof. intros Hw HQ. unfold runs, wpc, allocate. rewrite Hw. simpl. apply HQ. unfold willing, grant_block. simpl. by rewrite Hw. Qed.

Lemma io_exact {A} (c : M lib A) o d l (Q : A -> _ -> Prop) : runs c l (fun a l' => Q a (st o d l')) -> runs (io c) (st o d l) Q.
Proof. exact (wpc_io c _ l Q (fun _ _ => True)). Qed.

Lemma parse_string_exact s v it o r d l (Q : bool * item -> _ -> Prop) : chars s v -> sees o (x22 :: s ++ x22 :: r) -> willing l ->
  (forall a l', willing l' -> Q (true, set_valuestring (Some (a, v)) (set_type cJSON_String it)) (st (o + zlen s + 2) d l')) -> runs (parse_string it) (st o d l) Q.
Proof.
  intros Hc Hs Hl HQ. pose proof (sees_next _ _ _ Hs ltac:(done)) as Hs1. unfold parse_string. rbind. apply getO_exact. rbind. apply getO_exact. cbn [offset].
  rbind. eapply (at_index_exact 0); [by rewrite Z.add_0_r|]. change (negb (Byte.eqb x22 x22)) with false. cbn iota. rbind.
  eapply scan_exact; [done|done|]. intros k. cbn iota beta. rbind. apply io_exact, allocate_willing; [done|]. intros a l' Hl'. cbn iota beta zeta. rbind.
  eapply (unescape_exact s v); [done|done|done|]. cbn iota beta. rbind. apply put_out_exact. rbind. apply modO_exact. apply runs_ret.
  replace (set_offset (o + 1 + zlen s + 1) (MkBuffer m len o d), l') with (st (o + zlen s + 2) d l'); [by apply HQ|].
  unfold CJsonTheorems.st, set_offset. cbn. do 2 f_equal. lia.
Qed.

(** ** Values *)

Lemma copy_number_exact t c r room i o d l (Q : list byte -> _ -> Prop) : Forall (fun b => number_char b = true) t -> number_char c = false -> sees (o + i) (t ++ c :: r) ->
  (length t <= room)%nat -> Q t (st o d l) -> runs (copy_number room i) (st o d l) Q.
Proof.
  intros Ht Hc. revert room i Q. induction Ht as [|b t Hb Ht IH]; intros room i Q Hs Hl HQ; pose proof Hs as [Hp _].
  - destruct room as [|room]; cbn [copy_number]; [done|]. rbind. apply can_access_exact; [lia|]. rbind. eapply at_index_exact; [done|]. by rewrite Hc.
  - destruct room as [|room]; [simpl in Hl; lia|]. cbn [copy_number]. rbind. apply can_access_exact; [lia|]. rbind. eapply at_index_exact; [done|]. rewrite Hb. rbind.
    apply IH; [|simpl in Hl; lia|by apply runs_ret]. rewrite Z.add_assoc. eapply sees_next; [done|by intros ->].
Qed.

Lemma parse_number_exact t x it c r o d l (Q : bool * item -> _ -> Prop) : number_text t x -> number_char c = false -> sees o (t ++ c :: r) ->
  (forall i, Q (true, set_type cJSON_Number (set_valueint i (set_valuedouble x it))) (st (o + zlen t) d l)) -> runs (parse_number it) (st o d l) Q.
Proof.
  intros Ht Hc Hs HQ. destruct (number_chars t x Ht) as (Hch & (b & t' & Et & _) & Hlen). unfold parse_number. rbind.
  eapply (copy_number_exact t c r); [done|done|by rewrite Z.add_0_r|done|]. rewrite (strtod_exact t x Ht). cbn iota beta zeta.
  rewrite (proj2 (Nat.eqb_neq _ _)) by (by subst t). rbind.
  assert (forall i, runs (advance (Z.of_nat (length t));; mret (true, set_type cJSON_Number (set_valueint i (set_valuedouble x it)))) (st o d l) Q) as H.
  { intros i. rbind. apply advance_exact. apply runs_ret, HQ. }
  destruct (ge_INT_MAX x); [apply runs_ret, H|]. destruct (le_INT_MIN x); [apply runs_ret, H|]. destruct (to_int x); [apply runs_ret, H|apply runs_halt].
Qed.

Definition is_closing (c : byte) : Prop := c = ","%byte \/ c = "]"%byte \/ c = "}"%byte.

(** What may follow a value. *)
Definition ends_value (r : list byte) : Prop := match r with c :: _ => number_char c = false | [] => False end.

Lemma ends_after w c r : ws w -> number_char c = false -> ends_value (w ++ c :: r).
Proof.
  intros Hw Hc. destruct Hw as [|b w Hb Hw]; [done|]. simpl. revert Hb. rewrite !elem_of_cons, elem_of_nil. by intros [-> |[-> |[-> |[-> |[]]]]].
Qed.

(** A value is parsed from its text. *)
Definition value_exact (v : json) (t : list byte) : Prop := forall lv it o r d l,
  ends_value r -> sees o (t ++ r) -> blank it -> willing l -> d + Z.of_nat (nesting v) <= CJSON_NESTING_LIMIT ->
  runs (parse_value lv it) (st o d l) (fun res s => exists it' l', res = (true, it') /\ s = st (o + zlen t) d l' /\ willing l' /\ value_of it' = v /\ i_name it' = i_name it).

Lemma ws_printable w : ws w -> printable w.
Proof. apply Forall_impl. intros b Hb. by apply ws_byte in Hb as [_ ?]. Qed.

Lemma number_printable t x : number_text t x -> printable t.
Proof. intros Ht. apply number_chars in Ht as [Ht _]. eapply Forall_impl; [|exact Ht]. by intros b Hb ->. Qed.

Lemma texts_printable : (forall v t, text_of v t -> printable t) /\ (forall l t, elements l t -> printable t) /\ (forall l t, members l t -> printable t).
Proof.
  assert (forall a b, printable a -> printable b -> printable (a ++ b)) as Happ by (intros; by apply Forall_app).
  assert (forall c a, c <> x00 -> printable a -> printable (c :: a)) as Hcons by (intros; by apply Forall_cons_2).
  assert (printable []) as Hnil by apply Forall_nil_2.
  apply text_mutind; intros; repeat first [done | apply Hnil | apply Happ | apply Hcons; [done|] | by apply ws_printable | by eapply chars_printable | by eapply number_printable].
Qed.

(** A text starts with something that is neither white space nor a closing bracket. *)
Lemma text_first v t : text_of v t -> exists c t', t = c :: t' /\ 32 < b2z c /\ (Byte.eqb c "]" = false /\ Byte.eqb c xef = false).
Proof.
  intros H. destruct H; try by (eexists _, _). destruct (number_chars t x H) as (_ & (b & t' & -> & Hb) & _). exists b, t'. split; [done|]. by destruct b.
Qed.

(** The end of a round of either loop. *)
Lemma round_exact v t w c r lv (again : list item -> P (bool * list item)) x head o d l (Q : bool * list item -> _ -> Prop) :
  text_of v t -> value_exact v t -> ws w -> is_closing c -> sees o (t ++ w ++ c :: r) -> blank x -> willing l -> d + Z.of_nat (nesting v) <= CJSON_NESTING_LIMIT ->
  (forall x' l', willing l' -> value_of x' = v -> i_name x' = i_name x ->
    if Byte.eqb c "," then runs (again (head ++ [x'])) (st (o + zlen t + zlen w) d l') Q else Q (true, head ++ [x']) (st (o + zlen t + zlen w) d l')) ->
  runs ('(ok, x) ← parse_value lv x;
        let head := head ++ [x] in
        if ok : bool then
          buffer_skip_whitespace;;
          comma ← next_is ",";
          if comma : bool then again head else mret (true, head)
        else mret (false, head)) (st o d l) Q.
Proof.
  intros Ht Hv Hw Hc Hs Hx Hl Hd HQ. pose proof (sees_app _ _ _ Hs (proj1 texts_printable _ _ Ht)) as Hs1. pose proof (sees_app _ _ _ Hs1 (ws_printable _ Hw)) as Hs2.
  assert (32 < b2z c /\ number_char c = false) as [Hc1 Hc2] by (by destruct Hc as [-> |[-> | ->]]).
  rbind. eapply runs_mono; [by eapply Hv; [by apply ends_after|..]|]. intros res s (x' & l' & -> & -> & Hl' & Hval & Hn). cbn iota beta zeta.
  rbind. eapply skip_exact; [done|done|done|]. rbind. eapply next_is_exact; [done|]. specialize (HQ x' l' Hl' Hval Hn). by destruct (Byte.eqb c ",").
Qed.

Lemma new_item_willing l (Q : option item -> lib -> Prop) : willing l ->
  (forall a l', willing l' -> Q (Some (MkItem a cJSON_Invalid None 0 (S754_zero false) None [])) l') -> runs cJSON_New_Item l Q.
Proof. intros Hl HQ. unfold cJSON_New_Item. rbind. apply allocate_willing; [done|]. intros a l' Hl'. by apply HQ. Qed.

(** The elements of an array are parsed from their text; white space before it is skipped. *)
Definition elements_exact (vs : list json) (ts : list byte) : Prop := forall lv fuel head w o r d l,
  ws w -> sees (o + 1) (w ++ ts ++ "]"%byte :: r) -> willing l -> d + Z.of_nat (max_list (map nesting vs)) <= CJSON_NESTING_LIMIT ->
  runs (array_loop (parse_value lv) fuel head) (st o d l) (fun res s => exists its l',
    res = (true, head ++ its) /\ s = st (o + 1 + zlen w + zlen ts) d l' /\ willing l' /\ map value_of its = vs).

Definition member_of (x : item) : list byte * json := (str_bytes (i_name x), value_of x).

Definition members_exact (vs : list (list byte * json)) (ts : list byte) : Prop := forall lv fuel head w o r d l,
  ws w -> sees (o + 1) (w ++ ts ++ "}"%byte :: r) -> willing l -> d + Z.of_nat (max_list (map (fun p => nesting p.2) vs)) <= CJSON_NESTING_LIMIT ->
  runs (object_loop (parse_value lv) fuel head) (st o d l) (fun res s => exists its l',
    res = (true, head ++ its) /\ s = st (o + 1 + zlen w + zlen ts) d l' /\ willing l' /\ map member_of its = vs).

Lemma max_list_cons n l : max_list (n :: l) = (n `max` max_list l)%nat.
Proof. done. Qed.

(** A round of the array's loop up to the value. *)
Lemma array_round_exact lv fuel head v t w w' c r o d l (Q : bool * list item -> _ -> Prop) :
  ws w -> text_of v t -> value_exact v t -> ws w' -> is_closing c -> sees (o + 1) (w ++ t ++ w' ++ c :: r) -> willing l -> d + Z.of_nat (nesting v) <= CJSON_NESTING_LIMIT ->
  (forall fuel x' l', willing l' -> value_of x' = v ->
    if Byte.eqb c "," then runs (array_loop (parse_value lv) fuel (head ++ [x'])) (st (o + 1 + zlen w + zlen t + zlen w') d l') Q
    else Q (true, head ++ [x']) (st (o + 1 + zlen w + zlen t + zlen w') d l')) ->
  runs (array_loop (parse_value lv) fuel head) (st o d l) Q.
Proof.
  intros Hw Ht Hv Hw' Hc Hs Hl Hd HQ. destruct fuel as [|fuel]; [apply runs_halt|]. cbn [array_loop]. rbind. apply io_exact, new_item_willing; [done|]. intros a l1 Hl1.
  cbn iota beta. rbind. apply advance_exact. rbind. pose proof (sees_app _ _ _ Hs (ws_printable _ Hw)) as Hs1. destruct (text_first v t Ht) as (b & t' & -> & Hb & _).
  eapply (skip_exact w _ b (t' ++ w' ++ c :: r)); [done|done|done|]. eapply (round_exact v); [done|done|done|done|done|by eexists _, _, _; split; [done|left]|done|done|].
  intros x' l' Hl' Hval _. by apply HQ.
Qed.

Lemma object_round_exact lv fuel head s k v t w w1 w2 w' c r o d l (Q : bool * list item -> _ -> Prop) :
  ws w -> chars s k -> ws w1 -> ws w2 -> text_of v t -> value_exact v t -> ws w' -> is_closing c ->
  sees (o + 1) (w ++ x22 :: s ++ x22 :: w1 ++ ":"%byte :: w2 ++ t ++ w' ++ c :: r) -> willing l -> d + Z.of_nat (nesting v) <= CJSON_NESTING_LIMIT ->
  (forall fuel x' l' o', willing l' -> member_of x' = (k, v) -> o' = o + 1 + zlen w + (1 + (zlen s + (1 + (zlen w1 + (1 + (zlen w2 + (zlen t + zlen w')))))))  ->
    if Byte.eqb c "," then runs (object_loop (parse_value lv) fuel (head ++ [x'])) (st o' d l') Q else Q (true, head ++ [x']) (st o' d l')) ->
  runs (object_loop (parse_value lv) fuel head) (st o d l) Q.
Proof.
  intros Hw Hk Hw1 Hw2 Ht Hv Hw' Hc Hs Hl Hd HQ. destruct fuel as [|fuel]; [apply runs_halt|]. cbn [object_loop]. rbind. apply io_exact, new_item_willing; [done|]. intros a l1 Hl1.
  cbn iota beta. rbind. apply advance_exact. rbind. pose proof (sees_app _ _ _ Hs (ws_printable _ Hw)) as Hs1. eapply (skip_exact w); [done|done|done|]. rbind.
  eapply (parse_string_exact s k); [done|done|done|]. intros p l2 Hl2. cbn iota beta zeta. rbind.
  assert (sees (o + 1 + zlen w + zlen s + 2) (w1 ++ ":"%byte :: w2 ++ t ++ w' ++ c :: r)) as Hs2.
  { pose proof (sees_app _ _ _ (sees_next _ _ _ Hs1 ltac:(done)) (chars_printable _ _ Hk)) as H1. pose proof (sees_next _ _ _ H1 ltac:(done)) as H2.
    by replace (o + 1 + zlen w + zlen s + 2) with (o + 1 + zlen w + 1 + zlen s + 1) by lia. }
  pose proof (sees_app _ _ _ Hs2 (ws_printable _ Hw1)) as Hs3. eapply (skip_exact w1); [done|done|done|]. rbind. eapply next_is_exact; [done|].
  change (Byte.eqb ":" ":") with true. cbn iota. rbind. apply advance_exact. rbind. pose proof (sees_next _ _ _ Hs3 ltac:(done)) as Hs4. pose proof (sees_app _ _ _ Hs4 (ws_printable _ Hw2)) as Hs5.
  destruct (text_first v t Ht) as (b & t' & Et & Hb & _).
  eapply (skip_exact w2 _ b (t' ++ w' ++ c :: r)); [done|by rewrite Et in Hs4|done|]. eapply (round_exact v t w' c r); [done|done|done|done|done|by eexists _, _, _; split; [done|right]|done|done|].
  intros x' l' Hl' Hval Hn. cbn in Hn. apply HQ; [done|unfold member_of; by rewrite Hn, Hval|lia].
Qed.

(** The frame of an array or object: without elements, or around a loop that works. *)
Lemma chain_exact opened closing loop type it w rest o d l (Q : bool * item -> _ -> Prop) : 32 < b2z closing -> ws w -> sees (o + 1) (w ++ rest) -> 0 <= o ->
  d < CJSON_NESTING_LIMIT -> (forall l, runs opened (st o (d + 1) l) (fun b s => b = true /\ s = st o (d + 1) l)) ->
  ((exists r, rest = closing :: r) /\ Q (true, set_child [] (set_type type it)) (st (o + 1 + zlen w + 1) d l) \/
   (exists c r, rest = c :: r /\ 32 < b2z c /\ Byte.eqb c closing = false) /\
   (forall n, runs (loop n []) (st (o + zlen w) (d + 1) l) (fun res s => exists its o' r l', res = (true, its) /\ s = st o' (d + 1) l' /\ sees o' (closing :: r) /\
      Q (true, set_child its (set_type type it)) (st (o' + 1) d l')))) ->
  runs (parse_chain opened closing loop type it) (st o d l) Q.
Proof.
  intros Hcl Hw Hs Ho Hd Hopen HQ. unfold parse_chain. rbind. apply getO_exact. cbn [depth]. rewrite (proj2 (Z.leb_gt _ _)) by done. cbn zeta. rbind. apply modO_exact.
  pose proof (sees_app _ _ _ Hs (ws_printable _ Hw)) as Hs1.
  assert (forall its o' l', Q (true, set_child its (set_type type it)) (st (o' + 1) d l') ->
    runs (modO (add_depth (-1));; advance 1;; mret (true, set_child its (set_type type it))) (st o' (d + 1) l') Q) as Hok.
  { intros its o' l' H. rbind. apply modO_exact. unfold add_depth. cbn [content pb_length offset depth]. replace (d + 1 + -1) with d by lia. exact H. }
  rbind. eapply runs_mono; [apply Hopen|]. intros b s [-> ->]. cbn [negb]. rbind. apply advance_exact. rbind.
  destruct HQ as [[(r & ->) HQ]|[(c & r & -> & Hc1 & Hc2) HQ]]; (eapply (skip_exact w); [done|done|done|]); rbind; (eapply next_is_exact; [done|]).
  - rewrite (proj2 (eqb_byte _ _)) by done. by apply Hok.
  - rewrite Hc2. pose proof Hs1 as [Hp _]. rbind. apply can_access_exact; [lia|]. cbn [negb]. rbind. apply advance_exact. rbind. apply getO_exact. rbind.
    replace (o + 1 + zlen w + -1) with (o + zlen w) by lia. eapply runs_mono; [apply HQ|]. intros res s (its & o' & r' & l' & -> & -> & Hs' & H). cbn iota beta.
    rbind. eapply next_is_exact; [done|]. rewrite (proj2 (eqb_byte _ _)) by done. by apply Hok.
Qed.

(** The branches of [parse_value] behind the literals. *)
Lemma dispatch lv it b s o d l (Q : bool * item -> _ -> Prop) : sees o (b :: s) -> Byte.eqb b "n" = false -> Byte.eqb b "f" = false -> Byte.eqb b "t" = false ->
  (if Byte.eqb b x22 then runs (parse_string it) (st o d l) Q
   else if Byte.eqb b "-" || is_digit b then runs (parse_number it) (st o d l) Q
   else if Byte.eqb b "[" then runs (parse_array (parse_value lv) it) (st o d l) Q
   else if Byte.eqb b "{" then runs (parse_object (parse_value lv) it) (st o d l) Q
   else Q (false, it) (st o d l)) -> runs (parse_value (S lv) it) (st o d l) Q.
Proof.
  intros Hs H1 H2 H3 HQ. pose proof Hs as [Hp _]. cbn [parse_value]. rbind. eapply literal_other; [done|done|]. rbind. eapply literal_other; [done|done|].
  rbind. eapply literal_other; [done|done|]. rbind. eapply next_is_exact; [done|]. destruct (Byte.eqb b x22); [done|].
  rbind. apply can_access_exact; [lia|]. rbind. rbind. eapply (at_index_exact 0); [by rewrite Z.add_0_r|]. apply runs_ret. destruct (_ || _); [done|].
  rbind. eapply next_is_exact; [done|]. destruct (Byte.eqb b "["); [done|]. rbind. eapply next_is_exact; [done|]. by destruct (Byte.eqb b "{").
Qed.

Lemma number_first b : Byte.eqb b "-" || is_digit b = true -> Byte.eqb b "n" = false /\ Byte.eqb b "f" = false /\ Byte.eqb b "t" = false /\ Byte.eqb b x22 = false.
Proof. by destruct b. Qed.

(** An array or object of which the loop gives the items. *)
Lemma array_exact v w ts : ws w -> elements v ts -> elements_exact v ts -> value_exact (JArray v) ("["%byte :: w ++ ts ++ ["]"%byte]).
Proof.
  intros Hw Ht Hel [|lv] it o r d l Hr Hs Hb Hl Hd; [apply runs_halt|]. cbn [app] in Hs. rewrite <- !app_assoc in Hs. cbn [app] in Hs. pose proof Hs as [Hp _].
  pose proof (sees_next _ _ _ Hs ltac:(done)) as Hs1. destruct Hb as (a & t & s & -> & _). simpl in Hd. eapply dispatch; [done|done|done|done|]. cbn [Byte.eqb]. simpl.
  assert (exists c r', ts ++ "]"%byte :: r = c :: r' /\ 32 < b2z c /\ Byte.eqb c "]" = false) as Hfirst.
  { destruct Ht as [v t' w' Ht|v t' w1 w2 l' ts Ht]; destruct (text_first _ _ Ht) as (c & t2 & -> & ? & ? & _); by eexists _, _. }
  eapply (chain_exact _ "]" _ _ _ w (ts ++ "]"%byte :: r)); [done|done|done|lia|lia| |right; split; [done|]].
  - intros l0. rbind. eapply (at_index_exact 0); [by rewrite Z.add_0_r|]. done.
  - intros n. eapply runs_mono; [eapply (Hel lv n [] []); [apply Forall_nil_2| |done|lia]|].
    + pose proof (sees_app _ _ _ Hs1 (ws_printable _ Hw)) as H. by replace (o + zlen w + 1) with (o + 1 + zlen w) by lia.
    + intros res s' (its & l' & -> & -> & Hl' & Hits). change (zlen (@nil byte)) with 0. rewrite Z.add_0_r. exists its, (o + zlen w + 1 + zlen ts), r, l'. split_and!; [done|done| |].
      * pose proof (sees_app _ _ _ Hs1 (ws_printable _ Hw)) as H1. pose proof (sees_app _ _ _ H1 (proj1 (proj2 texts_printable) _ _ Ht)) as H2.
        by replace (o + zlen w + 1 + zlen ts) with (o + 1 + zlen w + zlen ts) by lia.
      * eexists _, l'. split; [done|]. split_and!; [|done|simpl; by rewrite Hits|done]. f_equal. zlens. lia.
Qed.

Lemma object_exact v w ts : ws w -> members v ts -> members_exact v ts -> value_exact (JObject v) ("{"%byte :: w ++ ts ++ ["}"%byte]).
Proof.
  intros Hw Ht Hel [|lv] it o r d l Hr Hs Hb Hl Hd; [apply runs_halt|]. cbn [app] in Hs. rewrite <- !app_assoc in Hs. cbn [app] in Hs. pose proof Hs as [Hp _].
  pose proof (sees_next _ _ _ Hs ltac:(done)) as Hs1. destruct Hb as (a & t & s & -> & _). simpl in Hd. eapply dispatch; [done|done|done|done|]. cbn [Byte.eqb]. simpl.
  assert (exists c r', ts ++ "}"%byte :: r = c :: r' /\ 32 < b2z c /\ Byte.eqb c "}" = false) as Hfirst by (destruct Ht; by eexists _, _).
  eapply (chain_exact _ "}" _ _ _ w (ts ++ "}"%byte :: r)); [done|done|done|lia|lia| |right; split; [done|]].
  - intros l0. by eapply next_is_exact.
  - intros n. eapply runs_mono; [eapply (Hel lv n [] []); [apply Forall_nil_2| |done|lia]|].
    + pose proof (sees_app _ _ _ Hs1 (ws_printable _ Hw)) as H. by replace (o + zlen w + 1) with (o + 1 + zlen w) by lia.
    + intros res s' (its & l' & -> & -> & Hl' & Hits). change (zlen (@nil byte)) with 0. rewrite Z.add_0_r. exists its, (o + zlen w + 1 + zlen ts), r, l'. split_and!; [done|done| |].
      * pose proof (sees_app _ _ _ Hs1 (ws_printable _ Hw)) as H1. pose proof (sees_app _ _ _ H1 (proj2 (proj2 texts_printable) _ _ Ht)) as H2.
        by replace (o + zlen w + 1 + zlen ts) with (o + 1 + zlen w + zlen ts) by lia.
      * eexists _, l'. split; [done|]. split_and!; [|done|simpl; by rewrite <- Hits|done]. f_equal. zlens. lia.
Qed.

Lemma scalar_exact v t : match v with JArray _ | JObject _ => False | _ => True end -> text_of v t -> value_exact v t.
Proof.
  intros Hv Ht [|lv] it o r d l Hr Hs Hb Hl Hd; [apply runs_halt|]. destruct Hb as (a & ty & s & -> & _). destruct Ht; try done.
  - cbn [parse_value]. rbind. eapply literal_exact; [by repeat constructor|done|done|]. rbind. apply advance_exact. apply runs_ret. by eexists _, l.
  - cbn [parse_value]. rbind. eapply literal_other; [done|done|]. rbind. eapply literal_exact; [by repeat constructor|done|done|]. rbind. apply advance_exact. apply runs_ret. by eexists _, l.
  - cbn [parse_value]. rbind. eapply literal_other; [done|done|]. rbind. eapply literal_other; [done|done|].
    rbind. eapply literal_exact; [by repeat constructor|done|done|]. rbind. apply advance_exact. apply runs_ret. by eexists _, l.
  - destruct (number_chars t x H) as (_ & (b & t' & Et & Hb) & _). destruct (number_first b Hb) as (N1 & N2 & N3 & N4). destruct r as [|c r]; [done|].
    eapply (dispatch _ _ b (t' ++ c :: r)); [by rewrite Et in Hs|done|done|done|]. rewrite N4, Hb. eapply (parse_number_exact t x); [done|done|done|].
    intros i. by eexists _, l.
  - cbn [app] in Hs. rewrite <- app_assoc in Hs. cbn [app] in Hs. eapply dispatch; [done|done|done|done|]. simpl. eapply (parse_string_exact s0 v); [done|done|done|].
    intros p l' Hl'. eexists _, l'. split; [done|]. split_and!; try done. f_equal. zlens. lia.
Qed.

Lemma empty_array_exact w : ws w -> value_exact (JArray []) ("["%byte :: w ++ ["]"%byte]).
Proof.
  intros Hw [|lv] it o r d l Hr Hs Hb Hl Hd; [apply runs_halt|]. cbn [app] in Hs. rewrite <- !app_assoc in Hs. cbn [app] in Hs. pose proof Hs as [Hp _].
  pose proof (sees_next _ _ _ Hs ltac:(done)) as Hs1. destruct Hb as (a & t & s & -> & _). simpl in Hd. eapply dispatch; [done|done|done|done|]. simpl.
  eapply (chain_exact _ "]" _ _ _ w); [done|done|done|lia|lia| |left; split; [by eexists|]].
  - intros l0. rbind. eapply (at_index_exact 0); [by rewrite Z.add_0_r|]. done.
  - eexists _, l. split; [done|]. split_and!; try done. f_equal. zlens. lia.
Qed.

Lemma empty_object_exact w : ws w -> value_exact (JObject []) ("{"%byte :: w ++ ["}"%byte]).
Proof.
  intros Hw [|lv] it o r d l Hr Hs Hb Hl Hd; [apply runs_halt|]. cbn [app] in Hs. rewrite <- !app_assoc in Hs. cbn [app] in Hs. pose proof Hs as [Hp _].
  pose proof (sees_next _ _ _ Hs ltac:(done)) as Hs1. destruct Hb as (a & t & s & -> & _). simpl in Hd. eapply dispatch; [done|done|done|done|]. simpl.
  eapply (chain_exact _ "}" _ _ _ w); [done|done|done|lia|lia| |left; split; [by eexists|]].
  - intros l0. by eapply next_is_exact.
  - eexists _, l. split; [done|]. split_and!; try done. f_equal. zlens. lia.
Qed.

(** Every text of the grammar is parsed to its value. *)
Lemma texts_exact : (forall v t, text_of v t -> value_exact v t) /\ (forall vs ts, elements vs ts -> elements_exact vs ts) /\ (forall vs ts, members vs ts -> members_exact vs ts).
Proof.
  enough ((forall v t, text_of v t -> text_of v t /\ value_exact v t) /\ (forall vs ts, elements vs ts -> elements vs ts /\ elements_exact vs ts) /\
    (forall vs ts, members vs ts -> members vs ts /\ members_exact vs ts)) as (H1 & H2 & H3).
  { split_and!; intros; [by apply H1|by apply H2|by apply H3]. }
  apply text_mutind.
  1-5: intros; (split; [by constructor|]); by apply scalar_exact; [|constructor].
  - intros w Hw. split; [by constructor|by apply empty_array_exact].
  - intros w vs ts Hw Hel [_ IH]. split; [by constructor|by apply array_exact].
  - intros w Hw. split; [by constructor|by apply empty_object_exact].
  - intros w vs ts Hw Hel [_ IH]. split; [by constructor|by apply object_exact].
  - intros v t w' Ht [_ IH] Hw'. split; [by constructor|]. intros lv fuel head w o r d l Hw Hs Hl Hd. rewrite <- app_assoc in Hs. simpl in Hd.
    eapply (array_round_exact _ _ _ v t w w'); [done|done|done|done|by right; left|done|done|lia|]. intros fuel' x' l' Hl' Hval. simpl.
    exists [x'], l'. split_and!; [done| |done|by rewrite <- Hval]. f_equal. zlens. lia.
  - intros v t w1 w2 vs ts Ht [_ IH] Hw1 Hw2 Hel [_ IHs]. split; [by constructor|]. intros lv fuel head w o r d l Hw Hs Hl Hd. cbn [map] in Hd. rewrite max_list_cons in Hd.
    rewrite <- app_assoc in Hs. rewrite <- app_assoc in Hs. cbn [app] in Hs. rewrite <- app_assoc in Hs.
    eapply (array_round_exact _ _ _ v t w w1 ","); [done|done|done|done|by left|done|done|lia|]. intros fuel' x' l' Hl' Hval. cbn iota. simpl (Byte.eqb "," ","). cbn iota.
    eapply runs_mono; [eapply (IHs lv fuel' _ w2); [done| |done|lia]|].
    { pose proof (sees_app _ _ _ Hs (ws_printable _ Hw)) as H1. pose proof (sees_app _ _ _ H1 (proj1 texts_printable _ _ Ht)) as H2.
      pose proof (sees_app _ _ _ H2 (ws_printable _ Hw1)) as H3. by apply (sees_next _ _ _ H3). }
    intros res s (its & l2 & -> & -> & Hl2 & Hits). exists (x' :: its), l2. split_and!; [by rewrite <- app_assoc| |done|by rewrite <- Hits, <- Hval]. f_equal. zlens. lia.
  - intros s k w1 w2 v t w' Hk Hw1 Hw2 Ht [_ IH] Hw'. split; [by constructor|]. intros lv fuel head w o r d l Hw Hs Hl Hd. simpl in Hd.
    cbn [app] in Hs. repeat (rewrite <- app_assoc in Hs; cbn [app] in Hs).
    eapply (object_round_exact _ _ _ s k v t w w1 w2 w'); [done|done|done|done|done|done|done|by right; right|done|done|lia|]. intros fuel' x' l' o' Hl' Hval ->. simpl.
    exists [x'], l'. split_and!; [done| |done|by rewrite <- Hval]. f_equal. zlens. lia.
  - intros s k w1 w2 v t w3 w4 vs ts Hk Hw1 Hw2 Ht [_ IH] Hw3 Hw4 Hel [_ IHs]. split; [by constructor|]. intros lv fuel head w o r d l Hw Hs Hl Hd.
    cbn [map] in Hd. rewrite max_list_cons in Hd. simpl in Hd. cbn [app] in Hs. repeat (rewrite <- app_assoc in Hs; cbn [app] in Hs).
    eapply (object_round_exact _ _ _ s k v t w w1 w2 w3 ","); [done|done|done|done|done|done|done|by left|done|done|lia|]. intros fuel' x' l' o' Hl' Hval ->. simpl (Byte.eqb "," ","). cbn iota.
    eapply runs_mono; [eapply (IHs lv fuel' _ w4); [done| |done|lia]|].
    { pose proof (sees_next _ _ _ (sees_app _ _ _ Hs (ws_printable _ Hw)) ltac:(done)) as H1. pose proof (sees_next _ _ _ (sees_app _ _ _ H1 (chars_printable _ _ Hk)) ltac:(done)) as H2.
      pose proof (sees_next _ _ _ (sees_app _ _ _ H2 (ws_printable _ Hw1)) ltac:(done)) as H3. pose proof (sees_app _ _ _ H3 (ws_printable _ Hw2)) as H4.
      pose proof (sees_app _ _ _ H4 (proj1 texts_printable _ _ Ht)) as H5. pose proof (sees_next _ _ _ (sees_app _ _ _ H5 (ws_printable _ Hw3)) ltac:(done)) as H6.
      match type of H6 with sees ?p _ => match goal with |- sees ?q _ => by replace q with p by lia end end. }
    intros res s' (its & l2 & -> & -> & Hl2 & Hits). exists (x' :: its), l2. split_and!; [by rewrite <- app_assoc| |done|by rewrite <- Hits, <- Hval]. f_equal. zlens. lia.
Qed.

(** At the end of the text white space is skipped up to the terminator. *)
Lemma skip_end w o r d l (Q : unit -> _ -> Prop) : ws w -> sees o (w ++ x00 :: r) -> Q tt (st (len - 1) d l) -> runs buffer_skip_whitespace (st o d l) Q.
Proof.
  intros Hw Hs HQ. unfold buffer_skip_whitespace. rbind. apply getO_exact. cbn [pb_length]. rbind. generalize (S (Z.to_nat len)). intros fuel.
  revert o fuel Hs. induction Hw as [|b w Hb Hw IH]; intros o [|fuel] Hs; try apply runs_halt; cbn [skip_loop]; pose proof Hs as [Ho _];
    (rbind; apply can_access_exact; [lia|]); rbind; (eapply (at_index_exact 0); [by rewrite Z.add_0_r|]).
  - assert (o = len - 1) as ->.
    { destruct (text_at m len Htext o Ho) as (b & Hb & Hz). rewrite (sees_at _ _ _ Hs) in Hb. apply Hz. congruence. }
    simpl (b2z x00 <=? 32). cbn iota. rbind. apply advance_exact. destruct fuel as [|fuel]; [apply runs_halt|]. cbn [skip_loop]. rbind. apply getO_exact. cbn [offset pb_length].
    rewrite (proj2 (Z.ltb_ge _ _)) by lia. apply runs_ret. rbind. apply getO_exact. cbn [offset pb_length]. rewrite (proj2 (Z.eqb_eq _ _)) by lia.
    apply advance_exact. by replace (len - 1 + 1 + -1) with (len - 1) by lia.
  - destruct (ws_byte b Hb) as [Hb32 Hb0]. rewrite (proj2 (Z.leb_le _ _)) by done. rbind. apply advance_exact. apply IH. by eapply sees_next.
Qed.

Lemma bom_exact (bom : bool) c s l (Q : bool -> _ -> Prop) : c <> x00 -> Byte.eqb c xef = false -> sees 0 ((if bom then [xef; xbb; xbf] else []) ++ c :: s) ->
  Q true (st (if bom then 3 else 0) 0 l) -> runs skip_utf8_bom (st 0 0 l) Q.
Proof.
  intros Hc0 Hc Hs HQ. unfold skip_utf8_bom. rbind. apply getO_exact. cbn [offset Z.eqb negb]. rbind. apply getO_exact. cbn [offset pb_length]. destruct bom.
  - assert (sees 4 s) as [Hp _].
    { pose proof (sees_app _ [xef; xbb; xbf] _ Hs ltac:(by repeat constructor)) as H. exact (sees_next _ _ _ H Hc0). }
    rewrite (proj2 (Z.ltb_lt _ _)) by lia. rbind. rbind. eapply (starts_with_exact [xef; xbb; xbf]); [by repeat constructor|done|]. by apply advance_exact.
  - destruct (_ <? _); [|done]. rbind. rbind. cbn [starts_with]. rbind. eapply rd_exact; [done|]. by rewrite Hc.
Qed.

Lemma document_exact v t (bom b : bool) w w' r it l : text_of v t -> ws w -> ws w' -> Z.of_nat (nesting v) <= CJSON_NESTING_LIMIT -> blank it -> willing l ->
  m = (if bom then [xef; xbb; xbf] else []) ++ w ++ t ++ w' ++ x00 :: r ->
  runs (parse_document b it) (st 0 0 l) (fun res _ => exists it', res = (true, it') /\ value_of it' = v).
Proof.
  intros Ht Hw Hw' Hn Hb Hl Em. pose proof (len_pos m len Htext). destruct (text_first v t Ht) as (c & t' & Et & Hc & Hc1 & Hc2).
  assert (sees 0 ((if bom then [xef; xbb; xbf] else []) ++ w ++ t ++ w' ++ x00 :: r)) as Hs by (split; [lia|by rewrite <- Em]).
  assert (exists c' s', w ++ t ++ w' ++ x00 :: r = c' :: s' /\ c' <> x00 /\ Byte.eqb c' xef = false) as (c' & s' & E' & Hc0' & Hc2').
  { destruct Hw as [|b0 w Hb0 Hw]; [subst t; exists c; eexists; split; [done|]; split; [by intros ->|done]|]. exists b0. eexists. split; [done|].
    revert Hb0. rewrite !elem_of_cons, elem_of_nil. by intros [-> |[-> |[-> |[-> |[]]]]]. }
  unfold parse_document. rbind. eapply (bom_exact bom c' s'); [done|done|by rewrite <- E'|]. cbn iota. rbind. rbind.
  assert (sees (if bom then 3 else 0) (w ++ t ++ w' ++ x00 :: r)) as Hs1.
  { destruct bom; [|done]. apply (sees_app _ [xef; xbb; xbf] _ Hs). by repeat constructor. }
  pose proof (sees_app _ _ _ Hs1 (ws_printable _ Hw)) as Hs2. eapply (skip_exact w _ c (t' ++ w' ++ x00 :: r)); [done|by subst t|done|].
  eapply runs_mono; [eapply (proj1 texts_exact v t Ht); [by apply (ends_after w' x00)|done|done|done|lia]|].
  intros res s (it' & l' & -> & -> & Hl' & Hv & _). cbn [negb]. destruct b; [|by exists it'].
  pose proof (sees_app _ _ _ Hs2 (proj1 texts_printable _ _ Ht)) as Hs3. rbind. eapply skip_end; [done|done|]. rbind. apply can_access_exact; [lia|]. rbind.
  unfold at_index. rbind. apply getO_exact. cbn [offset]. destruct (strlen_spec _ _ Htext) as (_ & Hz & _). rewrite Z.add_0_r. rbind. apply getO_exact. cbn [content]. rewrite Hz.
  apply runs_ret. by exists it'.
Qed.
End exact.

(** ** Documents *)

Lemma strlen_text t r : printable t -> strlen (t ++ x00 :: r) = Some (zlen t).
Proof.
  induction 1 as [|b t Hb Ht IH]; [done|]. cbn [app strlen]. rewrite (proj2 (eqb_byte_false _ _) Hb), IH. simpl. rewrite zlen_cons. f_equal. lia.
Qed.

Lemma parse_text (v : json) (t w w' junk : list byte) (bom b : bool) (l : lib)
  (Ht : text_of v t) (Hw : ws w) (Hw' : ws w') (Hn : Z.of_nat (nesting v) <= CJSON_NESTING_LIMIT) (Hl : l_grants l = []) :
  exists it e l', cJSON_ParseWithOpts (Some ((if bom then [xef; xbb; xbf] else []) ++ w ++ t ++ w' ++ x00 :: junk)) b l = (Ok (Some it, Some e), l') /\
    value_of it = v /\ shape (Z.to_nat CJSON_NESTING_LIMIT) it /\ i_name it = None.
Proof.
  set (m := (if bom then _ else _) ++ _). assert (exists n, strlen m = Some n) as [n Hm].
  { unfold m. exists (zlen ((if bom then [xef; xbb; xbf] else []) ++ w ++ t ++ w')). rewrite <- strlen_text with (r := junk); [by rewrite <- !app_assoc|].
    pose proof (proj1 texts_printable _ _ Ht). apply ws_printable in Hw, Hw'. apply Forall_app; split; [destruct bom; by repeat constructor|]. apply Forall_app; split; [done|]. by apply Forall_app. }
  destruct (parse_total m n b l Hm) as (r & e & l' & E & He & Hr).
  assert (runs (cJSON_ParseWithOpts (Some m) b) l (fun res _ => exists it, res.1 = Some it /\ value_of it = v)) as HR.
  { unfold cJSON_ParseWithOpts. rbind. unfold runs at 1, wpc. cbn -[m]. rbind. rewrite Hm. apply runs_ret. rbind. apply new_item_willing; [done|]. intros a l1 Hl1. cbn iota beta. rbind.
    assert (strlen m = Some (n + 1 - 1)) as Hm' by (by replace (n + 1 - 1) with n by lia).
    pose proof (document_exact m (n + 1) Hm' v t bom b w w' junk (MkItem a cJSON_Invalid None 0 (S754_zero false) None []) l1 Ht Hw Hw' Hn
      ltac:(by eexists _, _, _; split; [done|left]) Hl1 eq_refl) as HD.
    unfold runs, wpc, st in HD |- *. destruct (parse_document _ _ _) as [[[ok it]|e'] [b' l2]]; [|done]. destruct HD as (it' & [= -> ->] & Hv). simpl. by exists it'. }
  pose proof (runs_result _ _ _ _ _ HR E) as (it & Hit & Hv). simpl in Hit. subst r. exists it, e, l'. by destruct Hr as (_ & ? & ? & _).
Qed.


(** A run of plain characters stands for itself. *)
Lemma chars_plain s : Forall (fun b => 32 <= b2z b /\ b <> x22 /\ b <> x5c) s -> chars s s.
Proof. induction 1 as [|b s (H1 & H2 & H3) H IH]; by constructor. Qed.


(** ** What is accepted beyond the grammar *)

(** A \\u escape with digits that are not hexadecimal becomes a zero byte: the name or value
    ends there for everyone who reads it as a C string. *)
Theorem bad_hex_is_accepted :
  exists it l, cJSON_Parse (Some ([x22; "a"; x5c; "u"; "z"; "z"; "z"; "z"; "b"; x22; x00]%byte)) fresh_lib = (Ok (Some it), l) /\
    value_of it = JString ["a"%byte; x00; "b"%byte].
Proof. eexists _, _. split; [vm_compute; reflexivity|reflexivity]. Qed.

(** A number of more than 63 characters is cut off, and the rest of its digits is ignored as
    text behind the document: 64 digits give the number of the first 63. *)
Theorem long_number_is_cut :
  exists it l, cJSON_Parse (Some (repeat "1"%byte 64 ++ [x00])) fresh_lib = (Ok (Some it), l) /\ value_of it = JNumber (strtod (repeat "1"%byte 63)).1 /\
    (strtod (repeat "1"%byte 63)).1 <> (strtod (repeat "1"%byte 64)).1.
Proof. eexists _, _. split_and!; [vm_compute; reflexivity|vm_compute; reflexivity|by vm_compute]. Qed.
