(* ===== verification/CJsonConfig.v ===== *)
(** * Configuration files as JSON texts

    [ParseAccConfig] reads its items from the tree of the JSON parser.  Here the two are put
    together: a configuration that is written as JSON is the configuration that is loaded. *)

From S2P Require Import Prelude Posix Files Quiet Updates Acc CJson CJsonTheorems CJsonGrammar.
From Stdlib Require Import SpecFloat.

(** ** Items as the configuration code sees them *)

(** A heap string read as a C string: up to its first zero byte. *)
Fixpoint c_bytes (bs : list byte) : list byte :=
  match bs with [] => [] | b :: bs => if Byte.eqb b x00 then [] else b :: c_bytes bs end.
Definition c_str (bs : list byte) : string := string_of (c_bytes bs).

Fixpoint to_cJSON (it : item) : cJSON :=
  let 'MkItem _ _ v i _ s c := it in MkJSON (c_str ∘ snd <$> s) (c_str ∘ snd <$> v) i (map to_cJSON c).

(** [cJSON_Parse(str.c_str())] with memory for everything. *)
Definition parse_json (s : string) : option cJSON :=
  match cJSON_Parse (Some (bytes_of s ++ [x00])) fresh_lib with
  | (Ok (Some it), _) => Some (to_cJSON it)
  | _ => None
  end.

Definition int_of (x : spec_float) : Z :=
  if ge_INT_MAX x then INT_MAX else if le_INT_MIN x then INT_MIN else default 0 (to_int x).

(** The node of a value. *)
Fixpoint node_of (name : option string) (v : json) : cJSON :=
  match v with
  | JNull | JFalse => MkJSON name None 0 []
  | JTrue => MkJSON name None 1 []
  | JNumber x => MkJSON name None (int_of x) []
  | JString s => MkJSON name (Some (c_str s)) 0 []
  | JArray l => MkJSON name None 0 (map (node_of None) l)
  | JObject l => MkJSON name None 0 (map (fun p => node_of (Some (c_str p.1)) p.2) l)
  end.

Lemma saturated_int x i : saturated x i -> i = int_of x.
Proof. unfold saturated, int_of. repeat case_match; intros H'; try done. by rewrite H'. Qed.

(** A well-shaped item is the node of its value. *)
Lemma to_cJSON_value n it : shape n it -> to_cJSON it = node_of (c_str ∘ snd <$> i_name it) (value_of it).
Proof.
  revert it. induction n as [|n IH]; intros it H; inversion H as [| | |? ? ? ? ? Hs| |? ? ? ? Hc|? ? ? ? Hc]; subst; simpl; try done; try (by rewrite (saturated_int _ _ Hs)).
  - f_equal. rewrite map_map. apply map_ext_in. intros x Hx. rewrite Forall_forall in Hc. destruct (Hc x Hx) as [Hsh Hn]. by rewrite (IH x Hsh), Hn.
  - f_equal. rewrite map_map. apply map_ext_in. intros x Hx. rewrite Forall_forall in Hc. destruct (Hc x Hx) as [Hsh [[p bs] Hn]]. rewrite (IH x Hsh), Hn. done.
Qed.

Lemma parse_json_text v t w w' : text_of v t -> ws w -> ws w' -> Z.of_nat (nesting v) <= CJSON_NESTING_LIMIT ->
  parse_json (string_of (w ++ t ++ w')) = Some (node_of None v).
Proof.
  intros Ht Hw Hw' Hn. unfold parse_json, cJSON_Parse. rewrite bytes_of_string_of.
  destruct (parse_text v t w w' [] false false fresh_lib Ht Hw Hw' Hn eq_refl) as (it & e & l & E & Hv & Hsh & Hname). cbn [app] in E. rewrite <- !app_assoc.
  rewrite (bind_ok _ _ _ _ _ E). cbn. by rewrite (to_cJSON_value _ _ Hsh), Hname, Hv.
Qed.

(** ** The layout of conf/acc.json *)

Definition key (s : string) : list byte := bytes_of s.

Record limiter_json := MkLimiterJson { lj_skip : spec_float; lj_name : list byte; lj_ms : spec_float; lj_speed : spec_float;
  lj_put : spec_float; lj_get : spec_float; lj_delete : spec_float; lj_scan : spec_float }.

Definition limiter_doc (j : limiter_json) : json :=
  JObject [(key "skip", JNumber (lj_skip j)); (key "name", JString (lj_name j)); (key "type", JString (key "token-bucket"));
           (key "ms", JNumber (lj_ms j)); (key "speed", JNumber (lj_speed j));
           (key "rwt", JObject [(key "put", JNumber (lj_put j)); (key "get", JNumber (lj_get j));
                                (key "delete", JNumber (lj_delete j)); (key "scan", JNumber (lj_scan j))])].

Definition acc_doc (skip : spec_float) (ls : list limiter_json) : json :=
  JObject [(key "acc", JObject [(key "skip", JNumber skip); (key "type", JString (key "simple")); (key "limiters", JArray (map limiter_doc ls))])].

(** What a limiter becomes: of the weights only that of scan is kept, as the weight of put. *)
Definition limiter_conf (j : limiter_json) : LimiterConfig :=
  TokenBucketConf (MkTBConf (c_str (lj_name j)) (int_of (lj_skip j) =? 1) (int_of (lj_ms j)) (int_of (lj_speed j)) (MkRwt (u32 (int_of (lj_scan j))) 0 0 0)).

Lemma limiter_nesting ls : (max_list (map nesting (map limiter_doc ls)) <= 2)%nat.
Proof. induction ls as [|j ls IH]; simpl in *; [lia|]. lia. Qed.

Lemma limiter_type {S} j (s : S) : item_str (Some (node_of None (limiter_doc j))) "type" s = (Ok "token-bucket", s).
Proof. reflexivity. Qed.

Lemma limiter_parse {S} j (s : S) : TokenBucketLimiterConfig_Parse (Some (node_of None (limiter_doc j))) (MkRwt 0 0 0 0) s =
  (Ok (MkTBConf (c_str (lj_name j)) (int_of (lj_skip j) =? 1) (int_of (lj_ms j)) (int_of (lj_speed j)) (MkRwt (u32 (int_of (lj_scan j))) 0 0 0)), s).
Proof. reflexivity. Qed.

Lemma parse_limiters_doc {S} ls (s : S) : parse_limiters (map (node_of None) (map limiter_doc ls)) s = (Ok (map limiter_conf ls), s).
Proof.
  induction ls as [|j ls IH]; [done|]. cbn [map parse_limiters]. rewrite (bind_ok _ _ _ _ _ (limiter_type j s)). cbn [String.eqb Ascii.eqb Bool.eqb].
  rewrite (bind_ok _ _ _ _ _ (limiter_parse j s)), (bind_ok _ _ _ _ _ IH). done.
Qed.

(** A configuration file in a world without faults. *)
Lemma load_acc_config skip ls t w1 w2 path w Q : text_of (acc_doc skip ls) t -> ws w1 -> ws w2 -> wf w -> w_files w !! path = Some (w1 ++ t ++ w2) -> path <> ""%string ->
  (forall w', upd w (w_files w) (w_locking w) w' -> Q (MkRlcConf (int_of skip =? 1) (map limiter_conf ls)) w') -> wp (ParseAccConfig parse_json path) w Q.
Proof.
  intros Ht Hw1 Hw2 Hwf Hfile Hpath HQ. unfold ParseAccConfig. wbind. eapply upd_ReadAllString; [by apply upd_refl|done|]. intros w' Hu. rewrite (proj2 (String.eqb_neq _ _) Hpath).
  rewrite (parse_json_text _ _ _ _ Ht Hw1 Hw2).
  2: { pose proof (limiter_nesting ls). change (nesting (acc_doc skip ls)) with (S (S (S (max_list (map nesting (map limiter_doc ls)))))). unfold CJSON_NESTING_LIMIT. lia. }
  cbn zeta. wbind. eapply wp_eq; [reflexivity|]. cbn [String.eqb Ascii.eqb Bool.eqb]. unfold SimpleRlcConfig_Parse. wbind. eapply wp_eq; [reflexivity|]. cbn zeta.
  wbind. eapply wp_eq; [apply parse_limiters_doc|]. wpure. by apply HQ.
Qed.


(** ** A configuration file *)

(** A world with one file; text with ' for the quotation mark. *)
Definition conf_world (c : list byte) : world := World {["acc.json" := c]} ∅ ∅ 3 0 ∅ ∅ [].
Definition quoted (s : string) : list byte := map (fun b => if Byte.eqb b x27 then x22 else b) (bytes_of s).

Lemma conf_world_wf c : wf (conf_world c).
Proof. split; try done. Qed.

(** A name without special characters between its quotes. *)
Lemma quoted_chars s : forallb (fun b => (32 <=? b2z b) && negb (Byte.eqb b x22) && negb (Byte.eqb b x5c)) s = true -> chars s s.
Proof.
  intros H. rewrite forallb_forall in H. apply chars_plain, Forall_forall. intros b Hb. specialize (H b Hb).
  apply andb_true_iff in H as [[H1 H2]%andb_true_iff H3]. rewrite negb_true_iff in H2, H3. rewrite eqb_byte_false in H2, H3. split; [lia|done].
Qed.

(** Without limiters, switched off: '{"acc":{"skip":1,"type":"simple","limiters":[ ]}}' *)
Definition switched_off : list byte := quoted "{'acc':{'skip':1,'type':'simple','limiters':[ ]}}".

Lemma switched_off_text : text_of (acc_doc (decimal false 1 0) []) switched_off.
Proof.
  apply (tx_object [] _ (quoted "'acc':{'skip':1,'type':'simple','limiters':[ ]}")); [apply Forall_nil_2|].
  apply (mb_last (key "acc") _ [] [] _ (quoted "{'skip':1,'type':'simple','limiters':[ ]}") []); [by apply quoted_chars|apply Forall_nil_2|apply Forall_nil_2| |apply Forall_nil_2].
  apply (tx_object [] _ (quoted "'skip':1,'type':'simple','limiters':[ ]")); [apply Forall_nil_2|].
  apply (mb_more (key "skip") _ [] [] _ (quoted "1") [] [] _ (quoted "'type':'simple','limiters':[ ]")); [by apply quoted_chars|apply Forall_nil_2|apply Forall_nil_2| |apply Forall_nil_2|apply Forall_nil_2|].
  { apply tx_number. apply (nt_intro false (key "1") [] [] [] 0); [split; [done|by repeat constructor]|by intros r [=]|constructor|constructor|simpl; lia]. }
  apply (mb_more (key "type") _ [] [] _ (quoted "'simple'") [] [] _ (quoted "'limiters':[ ]")); [by apply quoted_chars|apply Forall_nil_2|apply Forall_nil_2| |apply Forall_nil_2|apply Forall_nil_2|].
  { apply (tx_string (key "simple")). by apply quoted_chars. }
  apply (mb_last (key "limiters") _ [] [] _ (quoted "[ ]") []); [by apply quoted_chars|apply Forall_nil_2|apply Forall_nil_2| |apply Forall_nil_2].
  apply (tx_array_empty [x20]). repeat constructor.
Qed.


(** conf/acc.json as it is shipped. *)
Definition shipped : list byte := quoted
"{
  'acc' : {
    'skip'     : 0,
    'type'     : 'simple',
    'limiters' : [
      {
        'skip' : 0,
        'name' : 'qps',
        'type' : 'token-bucket',
        'ms'   : 100,
        'speed': 1000,
        'rwt'  : {
          'put'    : 1,
          'get'    : 1,
          'delete'  : 1,
          'scan' : 1
        }
      }
    ]
  }
}
".

(** The shipped configuration gives every kind of request the weight 1; what is loaded gives
    it to put alone. *)
Theorem shipped_weights_are_lost :
  exists w', ParseAccConfig parse_json "acc.json" (conf_world shipped) = (Ok (MkRlcConf false [TokenBucketConf (MkTBConf "qps" false 100 1000 (MkRwt 1 0 0 0))]), w').
Proof. eexists. vm_compute. reflexivity. Qed.
