(* ===== verification/Client.v ===== *)
(** * The client program (src/client/flyingkv-client)

    [FlyingKVClient] puts the rpc client and the socket service together.  Its calls are cut
    at the wait, as in RpcClient: the half that sends, and [rpc_end] with the type of the
    response.  The socket service is the one of the interface of Rpc; how many threads it has
    and its timeouts are part of it. *)

From S2P Require Import Prelude Codec Buffer Posix Files Records Entries MiniKV Timer BlockingQueue Net NetWorker NetRecv NetSend NetTheorems Rpc RpcServe RpcClient RpcCalls KvMap KvContracts KvRecovery KvTheorems RpcKv RpcTheorems.

Module FlyingKVClient.

Record t := Make { m_bStopped : bool; m_pRpcClient : client; m_rpcServerIp : string; m_rpcServerPort : Z }.

Definition set_stopped b (o : t) : t := Make b (m_pRpcClient o) (m_rpcServerIp o) (m_rpcServerPort o).
Definition set_rpcClient x (o : t) : t := Make (m_bStopped o) x (m_rpcServerIp o) (m_rpcServerPort o).

Section defs.
Context `{PbMessage} (host : byte_order) {N : Type} `{ISocketService N}.
Abbreviation FM := (M (t * N)).

(** The constructor; [ServerPort] is an uint16_t. *)
Definition make (ServerIp : string) (ServerPort : Z) : t := Make true client_new ServerIp (u16 ServerPort).

Definition on_rpc {A} (c : M (client * N) A) : FM A := zoom m_pRpcClient set_rpcClient c.

Definition Start : FM bool :=
  stopped ← getO m_bStopped;
  if negb stopped then mret true
  else
    modO (set_stopped false);;
    r ← on_rpc RpcClient.Start;
    if negb r then mret false else io ss_Start.

Definition Stop : FM bool :=
  stopped ← getO m_bStopped;
  if stopped : bool then mret true
  else modO (set_stopped true);; on_rpc RpcClient.Stop.

Definition generate_peer (o : t) : net_peer_info := MkPeer (m_rpcServerIp o) (m_rpcServerPort o) Tcp.

Definition Put (k v : list byte) : FM (rpc_exn + Z) :=
  peer ← getO generate_peer; on_rpc (rpc_begin host RpcPut (PutRequest (Some (MkEntry k v))) peer).
Definition Get (k : list byte) : FM (rpc_exn + Z) :=
  peer ← getO generate_peer; on_rpc (rpc_begin host RpcGet (GetRequest k) peer).
Definition Delete (k : list byte) : FM (rpc_exn + Z) :=
  peer ← getO generate_peer; on_rpc (rpc_begin host RpcDelete (DeleteRequest k) peer).
Definition Scan (startKey : list byte) (containStartKey : bool) (order : SortOrder) (limit : Z) : FM (rpc_exn + Z) :=
  peer ← getO generate_peer; on_rpc (rpc_begin host RpcScan (ScanRequest_ (MkScan startKey containStartKey order (u32 limit))) peer).

Definition on_recv_net_message (sspNM : NotifyMessage) : FM unit :=
  stopped ← getO m_bStopped;
  if stopped : bool then mret tt else on_rpc (HandleMessage sspNM).
End defs.
End FlyingKVClient.

Section client.
Context `{PbMessage} (host : byte_order) {N : Type} `{!ISocketService N, !ISocketServiceLaws N, !ISocketIdLaws N}.
Import FlyingKVClient.

(** The method for a call. *)
Definition issue (x : call) : M (FlyingKVClient.t * N) (rpc_exn + Z) :=
  match x with CPut e => Put host (key e) (value e) | CDelete k => Delete host k | CGet k => Get host k end.

(** What [Start] has to have set up: the names of the calls and the pool of contexts. *)
Definition rpc_names : gmap string Z := {[RpcPut := PUT_RPC_ID; RpcGet := GET_RPC_ID; RpcDelete := DELETE_RPC_ID; RpcScan := SCAN_RPC_ID]}.
Record ready (o : FlyingKVClient.t) : Prop := {
  rd_running : m_bStopped o = false;
  rd_names : m_hmapRpcs (m_pRpcClient o) = rpc_names;
  rd_pool : ResourcePool.m_iCurResCnt (m_rpcCtxPool (m_pRpcClient o)) = 0
}.

Lemma start_spec ip port n : wp ss_Start n (fun r _ => r = true) ->
  wp Start (make ip port, n) (fun r s => r = true /\ ready s.1 /\ generate_peer s.1 = MkPeer ip (u16 port) Tcp).
Proof.
  intros Hn. unfold Start. wbind. apply wp_getO. cbn [make m_bStopped negb]. wbind. apply wp_modO. wbind. apply wp_zoom.
  eapply wp_eq; [reflexivity|]. cbn [negb fst snd]. apply wp_io. eapply wp_mono; [exact Hn|]. intros r n' ->. split; [done|]. split; [|done].
  split; [done| |done]. reflexivity.
Qed.

(** [rpc_begin] on a connection that takes messages. *)
Lemma begin_spec name h req peer q (o : client) (n : N) Q :
  m_hmapRpcs o !! name = Some h -> ResourcePool.m_iCurResCnt (m_rpcCtxPool o) = 0 -> np_sp peer = Tcp ->
  ss_open peer q n -> 0 <= ss_last n < 18446744073709551614 ->
  (forall n', ss_open peer (q ++ [MkSnd (ss_last n + 1) peer (RpcRequest host h (Some req))]) n' ->
    Q (inr (next_ctx o)) (RpcCalls.started o peer (ss_last n + 1), n')) ->
  wp (rpc_begin host name req peer) (o, n) Q.
Proof.
  intros Hname Hcur Htcp Hopen Hlast HQ. unfold rpc_begin, sendMessage, SendMessageAsync. wbind. wbind. wbind. apply wp_getO. rewrite Hname.
  destruct (wp_run _ _ _ (ss_new_law n Hlast)) as (i & n1 & En & -> & Hi).
  pose proof (wp_at _ _ _ _ _ (ss_id_law _ _ _ Hopen) En) as Hopen1. cbn in Hopen1.
  wbind. apply wp_io. eapply wp_eq; [exact En|]. wbind. apply wp_io.
  eapply wp_mono; [apply (ss_send_law q (MkSnd (ss_last n + 1) peer (RpcRequest host h (Some req)))); done|]. intros rc n2 [-> Hopen2]. cbn [negb].
  apply wp_ret. unfold make_ctx. cbn [sr_msgId]. rewrite (proj2 (Z.eqb_neq 0 (ss_last n + 1))) by lia.
  eapply wp_eq.
  { unfold pool_Get, upd_ctx, ctx, mbind, M_bind, getO, modO, of_mem, ResourcePool.Get, mret, M_ret. cbn [fst snd].
    rewrite Hcur. cbn. rewrite lookup_insert, decide_True by done. reflexivity. }
  apply wp_ret. apply HQ. exact Hopen2.
Qed.

End client.

(** ** A client with one connection *)

Section demo.
#[local] Existing Instance demo_pbm.
#[local] Existing Instance one_service.
#[local] Existing Instance one_laws.
#[local] Existing Instance one_ids.

Definition demo_fkv : FlyingKVClient.t := FlyingKVClient.make (np_addr demo_peer) (np_port demo_peer).
Definition demo_running : FlyingKVClient.t := (FlyingKVClient.Start (demo_fkv, demo_conn)).2.1.


(** A start that fails is not tried again: the next [Start] answers true, with nothing
    running. *)
#[local] Instance broken_service : ISocketService unit := {| ss_GetNewId := mret 1; ss_Start := mret false; ss_SendMessage := fun _ => mret false |}.
Theorem failed_start_is_forgotten : ((a ← FlyingKVClient.Start; b ← FlyingKVClient.Start; mret (a, b)) (demo_fkv, tt)).1 = Ok (false, true).
Proof. vm_compute. reflexivity. Qed.

(** A client that was stopped cannot be started again, although it answers so only once. *)
Theorem client_restart_fails :
  ((_ ← FlyingKVClient.Start; b ← FlyingKVClient.Stop; c ← FlyingKVClient.Start; d ← FlyingKVClient.Start; mret (b, c, d)) (demo_fkv, demo_conn)).1 = Ok (true, false, true).
Proof. vm_compute. reflexivity. Qed.
End demo.
