(* ===== verification/Server.v ===== *)
(** * The server program (src/server/flyingkvd-main.cc)

    [startup]: the configuration from the command line's flags, the store by its factory, the
    start of the store and of the rpc server.  What it leads to is put together with the rest
    of the library: a server that is started on the files of an earlier one answers as if
    there had been no interruption. *)

From S2P Require Import Prelude Codec Buffer Posix Files Quiet Updates Records Entries KvEntries KvMap Wal WalSpec WalRestart Checkpoint MiniKV Acc AccTheorems.
From S2P Require Import KvContracts KvRecovery KvTheorems KvFactory BlockingQueue Net NetWorker NetRecv NetSend NetTheorems Rpc RpcServe RpcKv RpcTheorems.
From S2P Require Import CJson CJsonTheorems CJsonGrammar CJsonConfig.

(** ** Flags (src/common/server-gflags-config.cc) *)

Record flags := MkFlags {
  FLAGS_kv_type : string; FLAGS_acc_conf_path : string;
  FLAGS_wal_type : string; FLAGS_wal_dir : string; FLAGS_wal_entry_write_version : Z; FLAGS_wal_max_segment_size : Z; FLAGS_wal_batch_read_size : Z;
  FLAGS_cp_type : string; FLAGS_cp_dir : string; FLAGS_cp_entry_write_version : Z; FLAGS_cp_batch_read_size : Z;
  FLAGS_kv_check_wal_size_tick : Z; FLAGS_kv_do_checkpoint_wal_size : Z;
  FLAGS_rpc_server_threads_cnt : Z
}.

(** [kvConf] *)
Definition kv_config (f : flags) : KVConfig :=
  MkKVConfig (FLAGS_kv_type f) (FLAGS_acc_conf_path f) (FLAGS_wal_type f) (FLAGS_wal_dir f) (u8 (FLAGS_wal_entry_write_version f))
    (FLAGS_wal_max_segment_size f) (FLAGS_wal_batch_read_size f) (FLAGS_cp_type f) (FLAGS_cp_dir f) (u8 (FLAGS_cp_entry_write_version f))
    (FLAGS_cp_batch_read_size f) (FLAGS_kv_check_wal_size_tick f) (FLAGS_kv_do_checkpoint_wal_size f).

Section server.
Context (host : byte_order) `{MemAlloc} `{PbEntry} `{PbMessage} (strerror : Z -> list byte).
Context {N : Type} `{!ISocketService N}.

(** Memory no constructor has set, the clock, the number of processors. *)
Context (junk : nat -> TokenBucketLimiter) (junkId : Z) (clk : clock) (LOGIC_CPUS_CNT : Z).

#[local] Instance server_iwal : IWal LogCleanWal wal_entry := LogCleanWal_IWal host.
#[local] Instance server_icp : ICheckpoint EntryOrderCheckpoint.t := EntryOrderCheckpoint_ICheckpoint host.

Abbreviation store := (MiniKV LogCleanWal EntryOrderCheckpoint.t).
Abbreviation K := (store * world)%type.
#[local] Instance server_operator : IKVOperator K := MiniKV_IKVOperator strerror.
Abbreviation process := (SimpleRlc TokenBucketLimiter * (KVRpcServerSync.t K * (K * N)))%type.

(** A type of store that no class has gives a null pointer, on which [Start] is called; a
    service that does not start ends the process ([LOGFFUN]). *)
Definition startup (f : flags) (n : N) (w : world) : outcome process :=
  match KVFactory_CreateInstance parse_json junk junkId clk (kv_config f) w with
  | (Prelude.Stop e, _) => Prelude.Stop e
  | (Ok None, _) => Prelude.Stop Undefined
  | (Ok (Some (pKV, rlc)), w) =>
      match MiniKV.Start (pKV, w) with
      | (Prelude.Stop e, _) => Prelude.Stop e
      | (Ok false, _) => Prelude.Stop Aborted
      | (Ok true, k) =>
          match KVRpcServerSync.Start (KVRpcServerSync.make (u16 (FLAGS_rpc_server_threads_cnt f)) LOGIC_CPUS_CNT, (k, n)) with
          | (Prelude.Stop e, _) => Prelude.Stop e
          | (Ok false, _) => Prelude.Stop Aborted
          | (Ok true, s) => Ok (rlc, s)
          end
      end
  end.

(** A type no class has. *)
Theorem unknown_kv_type_crashes f n w (Hty : kv_typeMapper !! FLAGS_kv_type f = None) : startup f n w = Prelude.Stop Undefined.
Proof. unfold startup, KVFactory_CreateInstance. cbn [kc_Type kv_config]. by rewrite Hty. Qed.

(** ** The start *)

#[local] Instance server_wal_laws : IWalLaws LogCleanWal wal_entry := LogCleanWal_laws host.
#[local] Instance server_cp_laws : ICheckpointLaws EntryOrderCheckpoint.t := EntryOrderCheckpoint_laws host.

(** The log and the checkpoint the flags name; [rest]: the other files. *)
Definition wal_cfg (f : flags) (rest : string -> option (list byte)) (dirs : gset string) : wcfg (IWalLaws := server_wal_laws) :=
  WalCfg (FLAGS_wal_dir f) (u8 (FLAGS_wal_entry_write_version f)) (FLAGS_wal_max_segment_size f) (FLAGS_wal_batch_read_size f) rest dirs.
Definition cp_cfg (f : flags) : ccfg (ICheckpointLaws := server_cp_laws) :=
  EntryOrderCheckpoint.Make (FLAGS_cp_dir f) false (u8 (FLAGS_cp_entry_write_version f)) (FLAGS_cp_batch_read_size f).

(** Flags that name the classes there are, and a configuration of admission control whose
    limiters have different names, in a file that is not a segment of the log. *)
Record flags_ok (f : flags) (rest : string -> option (list byte)) : Prop := {
  fo_types : FLAGS_kv_type f = "mini"%string /\ FLAGS_wal_type f = "log-clean"%string /\ FLAGS_cp_type f = "entry-order"%string;
  fo_path : FLAGS_acc_conf_path f <> ""%string;
  fo_apart : forall id, FLAGS_acc_conf_path f <> segment_path (FLAGS_wal_dir f) id;
  fo_acc : exists skip ls t w1 w2, text_of (acc_doc skip ls) t /\ ws w1 /\ ws w2 /\ rest (FLAGS_acc_conf_path f) = Some (w1 ++ t ++ w2) /\
    NoDup (map (fun j => c_str (lj_name j)) ls)
}.

Lemma granters_made ls : forall i (rlc : SimpleRlc TokenBucketLimiter) (c : clock),
  NoDup ((m_sName <$> m_vGranters rlc) ++ map (fun j => c_str (lj_name j)) ls) ->
  exists rlc', init_granters 0 junk i (map limiter_conf ls) (rlc, c) = (Ok (inr true), (rlc', c)).
Proof.
  induction ls as [|j ls IH]; intros i rlc c Hnd; [by eexists|]. cbn [map init_granters limiter_conf]. cbn zeta.
  match goal with |- context [contains_granter ?pg _] => set (p := pg) end.
  assert (m_sName p = c_str (lj_name j)) as Hp by done.
  assert (contains_granter (H := TokenBucketLimiter_IGranter 0) p (m_vGranters rlc) = false) as Hc.
  { apply not_true_iff_false. unfold contains_granter. rewrite existsb_exists. intros (x & Hx & E). apply String.eqb_eq in E. cbn in E.
    apply list.NoDup_app in Hnd as (_ & Hd & _). apply (Hd (m_sName x)).
    - apply list_elem_of_fmap. exists x. split; [done|]. by apply list_elem_of_In.
    - change (m_sName x = c_str (lj_name j)) in E. rewrite E. cbn [map]. apply list_elem_of_here. }
  unfold mbind at 1, M_bind, getO. cbn [fst snd]. rewrite Hc. unfold mbind, M_bind, modO. cbn [fst snd].
  apply IH. cbn [m_vGranters]. rewrite fmap_app. cbn [fmap list_fmap]. rewrite Hp, <- app_assoc. exact Hnd.
Qed.

Lemma create_spec f rest dirs snap l w Q : flags_ok f rest ->
  wal_disk (wal_cfg f rest dirs) l w -> cp_disk (cp_cfg f) snap w ->
  (forall wal rlc w', wal_fresh (wal_cfg f rest dirs) wal -> same_disk w w' -> Q (Some (MiniKV_make wal (cp_cfg f) (FLAGS_kv_do_checkpoint_wal_size f) junkId, rlc)) w') ->
  wp (KVFactory_CreateInstance parse_json junk junkId clk (kv_config f)) w Q.
Proof.
  intros [(Ek & Ew & Ec) Hpath Hapart (skip & ls & t & w1 & w2 & Ht & Hw1 & Hw2 & Hrest & Hnd)] Hwd Hcd HQ.
  pose proof (wal_disk_rest _ _ _ Hwd) as (Hwf & _ & _ & Hfiles). destruct Hwd as ((Hb & Hs & _) & _). cbn in Hb, Hs.
  unfold KVFactory_CreateInstance. cbn [kc_Type kv_config]. rewrite Ek. change (kv_typeMapper !! "mini") with (Some 0). wbind. unfold MiniKV_new. cbn [kv_config kc_WalType kc_CheckpointType kc_AccConfPath].
  wbind. unfold WALFactory_CreateInstance. cbn [wc_Type kc_WalType]. rewrite Ew. change (wal_typeMapper !! "log-clean") with (Some 0).
  cbn [wc_RootDirPath wc_WriteEntryVersion wc_MaxSegmentSize wc_ReadBatchSize].
  destruct (LogCleanWal_make _ _ _ _) as [wal|e] eqn:Emk.
  2: { exfalso. unfold LogCleanWal_make in Emk. change LOGCLEAN_WAL_ENTRY_EXTRA_FIELDS_SIZE with 17 in Emk.
       cbn [kc_WalMaxSegmentSize kc_WalReadBatchSize] in Emk. rewrite !(proj2 (Z.ltb_ge _ _)) in Emk by done. done. }
  apply wp_ret. cbn iota beta. wbind. unfold CheckpointFactory_CreateInstance. cbn [ec_Type kc_CheckpointType]. rewrite Ec. change (cp_typeMapper !! "entry-order") with (Some 0).
  apply wp_ret. cbn iota beta. wbind.
  apply (load_acc_config skip ls t w1 w2); [done|done|done|done| |done|].
  { rewrite Hfiles; [done|]. intros [id E]. by apply (Hapart id). }
  intros w' Hu. wbind. destruct (granters_made ls 0 (MkRlc (int_of skip =? 1) [] 0) clk) as [rlc' Eg]; [done|].
  assert (SimpleRlc_Init 0 junk (MkRlcConf (int_of skip =? 1) (map limiter_conf ls)) (MkRlc false [] 0, clk) = (Ok (inr true), (rlc', clk))) as Ei by exact Eg.
  unfold make_granter. rewrite Ei.
  apply wp_ret. apply wp_ret. apply wp_ret. apply HQ.
  - apply (make_fresh (wal_cfg f rest dirs) wal). exact Emk.
  - split; [apply (upd_wf _ _ _ _ Hu)|]. by rewrite (upd_files _ _ _ _ Hu), (upd_dirs _ _ _ _ Hu).
Qed.

Lemma startup_spec f rest dirs snap l n w : flags_ok f rest -> separate (wal_cfg f rest dirs) (cp_cfg f) ->
  wal_disk (wal_cfg f rest dirs) l w -> cp_disk (cp_cfg f) snap w -> (recover snap l).1 < wal_next l -> wp ss_Start n (fun r _ => r = true) ->
  exists rlc o k n', startup f n w = Ok (rlc, (o, (k, n'))) /\ serving strerror o [] /\ running (wal_cfg f rest dirs) (cp_cfg f) snap l k.1 k.2.
Proof.
  intros Hf Hsep Hwd Hcd Hids Hn. unfold startup.
  destruct (wp_run _ _ _ (create_spec f rest dirs snap l w (fun r w' => exists wal rlc, r = Some (MiniKV_make wal (cp_cfg f) (FLAGS_kv_do_checkpoint_wal_size f) junkId, rlc) /\
    wal_fresh (wal_cfg f rest dirs) wal /\ same_disk w w') Hf Hwd Hcd ltac:(by intros; eexists _, _))) as (r & w1 & E & wal & rlc & -> & Hwal & Hsame).
  rewrite E. destruct Hsame as (Hwf1 & Hf1 & Hd1).
  assert (wp MiniKV.Start (MiniKV_make wal (cp_cfg f) (FLAGS_kv_do_checkpoint_wal_size f) junkId, w1) (fun b s =>
    b = true /\ running (wal_cfg f rest dirs) (cp_cfg f) snap l s.1 s.2)) as Hs.
  { eapply (Start_spec (wal_cfg f rest dirs) (cp_cfg f) snap l); [done|by eapply wal_disk_same| |done|done|done|done].
    eapply cp_disk_frame; [exact Hcd|done|done|]. intros p _. by rewrite Hf1. }
  apply wp_run in Hs as (b & k & Ek & -> & Hrun).
  match goal with |- context [MiniKV.Start ?x] => replace (MiniKV.Start x) with (Ok true, k) by (symmetry; exact Ek) end.
  destruct (wp_run _ _ _ (server_start_spec strerror (u16 (FLAGS_rpc_server_threads_cnt f)) LOGIC_CPUS_CNT k n Hn)) as (r & [o [k' n']] & Er & -> & Hserv & Hk).
  cbn [fst snd] in *. subst k'. exists rlc, o, k, n'. split; [|done].
  match goal with |- context [KVRpcServerSync.Start ?x] => replace (KVRpcServerSync.Start x) with (Ok true, (o, (k, n'))) by (symmetry; exact Er) end. done.
Qed.

Context `{!ISocketServiceLaws N}.

End server.

(** ** A server on an empty disk *)

Section demo.
#[local] Existing Instance demo_pool.
#[local] Existing Instance demo_pb.
#[local] Existing Instance demo_pbm.
#[local] Existing Instance one_service.
#[local] Existing Instance one_laws.
#[local] Existing Instance demo_iwal.
#[local] Existing Instance demo_icp.

Definition demo_flags : flags := MkFlags "mini" "acc.json" "log-clean" "/w" 1 64 64 "entry-order" "/c" 1 16 600 1000 4.
Definition demo_rest (p : string) : option (list byte) := if bool_decide (p = "acc.json"%string) then Some switched_off else None.
Definition demo_disk : world := World {["acc.json" := switched_off]} demo_dirs ∅ 3 0 ∅ ∅ [].
Definition demo_startup (n : worker * netw) (w : world) := startup LITTLE_ENDIAN no_text (fun _ => MkTB 0 0 0 0 None 0 0 0 0 "" false) 0 (MkClock 0 []) 8 demo_flags n w.

Lemma demo_flags_ok : flags_ok demo_flags demo_rest.
Proof.
  split; [done|done| |].
  - intros id Heq. discriminate Heq.
  - exists (decimal false 1 0), [], switched_off, [], []. split_and!; [exact switched_off_text|constructor|constructor|done|constructor].
Qed.

Lemma demo_wal_disk : wal_disk (IWalLaws := server_wal_laws LITTLE_ENDIAN) (wal_cfg LITTLE_ENDIAN demo_flags demo_rest demo_dirs) [] demo_disk.
Proof.
  split; [unfold cfg_ok; simpl; lia|]. exists []. split; [|split; [done|done]]. split.
  - split; try done. intros p Hp. simpl. apply lookup_singleton_ne. intros <-. revert Hp. vm_compute. set_solver.
  - intros d. vm_compute. set_solver.
  - simpl. unfold demo_dirs. set_solver.
  - intros s Hs. by apply elem_of_nil in Hs.
  - intros p [y Hp] [x Hx]. simpl in Hx. apply lookup_singleton_Some in Hx as [<- _]. discriminate Hp.
  - intros id. simpl. unfold demo_dirs, segment_path. rewrite !elem_of_union, !elem_of_singleton. intuition discriminate.
  - split; vm_compute; reflexivity.
  - split; [|done]. intros p _. simpl. unfold demo_rest. case_bool_decide as E; [subst; by rewrite lookup_singleton_eq|by rewrite lookup_singleton_ne].
  - constructor.
  - constructor.
Qed.

Lemma demo_cp_disk : cp_disk (ICheckpointLaws := server_cp_laws LITTLE_ENDIAN) (cp_cfg LITTLE_ENDIAN demo_flags) None demo_disk.
Proof.
  eapply (cp_disk_frame (ICheckpointLaws := demo_cp_laws) kv_ccfg None (kv_disk []) demo_disk kv_cp_disk).
  - apply (wal_disk_rest _ _ _ demo_wal_disk).
  - done.
  - intros p (n & _ & ->). done.
Qed.

Lemma demo_separate : separate (wal_cfg LITTLE_ENDIAN demo_flags demo_rest demo_dirs) (cp_cfg LITTLE_ENDIAN demo_flags).
Proof. intros p (n&_&->) [id Heq]. discriminate Heq. Qed.

End demo.
