(* ===== verification/Shutdown.v ===== *)
(** * The end of the server program (src/server/flyingkvd-main.cc)

    [register_signal], [signal_handler], [stop] and [waitStop] as threads in interleaving.  A
    handler is a frame on the stack of the thread that the signal reaches; the code under it
    goes on when it returns.  The first thread is the one of [main].  Threads of the pool of
    the rpc server are left out: [Stop] would wait for its own thread there. *)

From S2P Require Import Prelude Posix Entries KvMap MiniKV Rpc.

(** ** Signals *)

Inductive signal := SIGHUP | SIGINT | SIGTERM | SIGPIPE | SIGQUIT | SIGALRM.
#[global] Instance signal_eq_dec : EqDecision signal.
Proof. solve_decision. Defined.

(** The signals [register_signal] names, in its order. *)
Definition registrations : list signal := [SIGHUP; SIGINT; SIGTERM; SIGPIPE; SIGALRM].

(** The switch of [signal_handler]. *)
Definition stops (sig : signal) : bool :=
  match sig with SIGINT | SIGQUIT | SIGTERM => true | SIGHUP | SIGPIPE | SIGALRM => false end.

(** ** Threads *)

(** A handler: at the switch and the test of [stop]; waiting for the mutex; at the stop of the
    rpc server; of the store; at the assignment; at [notify_all]; at the end of [stop]. *)
Inductive handler_pc := HTest | HLock | HRpc | HKv | HSet | HNotify | HUnlock.
Abbreviation frame := (signal * handler_pc)%type.

(** [main] after [startup]: registering the signals that are left; in [waitStop] at the lock,
    at the test of the loop, in [wait], waking up; after the return of [waitStop]. *)
Inductive main_pc := Registers (rest : list signal) | WLock | WTest | WWait | WWoken | Returned.
#[global] Instance main_pc_eq_dec : EqDecision main_pc.
Proof. solve_decision. Defined.

Inductive service_call := CallRpcStop | CallKvStop.

Section shutdown.
Context {W C : Type} {N : Type}.
Abbreviation store := (MiniKV W C).
Abbreviation K := (store * world)%type.
Abbreviation process := (KVRpcServerSync.t K * (K * N))%type.

Record prog := MkProg {
  g_m : option nat;
  g_bStopped : bool;
  handled : list signal;
  main : main_pc;
  stacks : list (list frame);
  services : process;
  calls : list service_call;
  alive : bool
}.

Definition set_g_m x (s : prog) : prog := MkProg x (g_bStopped s) (handled s) (main s) (stacks s) (services s) (calls s) (alive s).
Definition set_g_bStopped x (s : prog) : prog := MkProg (g_m s) x (handled s) (main s) (stacks s) (services s) (calls s) (alive s).
Definition set_handled x (s : prog) : prog := MkProg (g_m s) (g_bStopped s) x (main s) (stacks s) (services s) (calls s) (alive s).
Definition set_main x (s : prog) : prog := MkProg (g_m s) (g_bStopped s) (handled s) x (stacks s) (services s) (calls s) (alive s).
Definition set_stack t x (s : prog) : prog := MkProg (g_m s) (g_bStopped s) (handled s) (main s) (<[t := x]> (stacks s)) (services s) (calls s) (alive s).
Definition set_alive x (s : prog) : prog := MkProg (g_m s) (g_bStopped s) (handled s) (main s) (stacks s) (services s) (calls s) x.
Definition called c x (s : prog) : prog := MkProg (g_m s) (g_bStopped s) (handled s) (main s) (stacks s) x (calls s ++ [c]) (alive s).

(** After [startup]; [n] threads besides the one of [main]. *)
Definition started (n : nat) (p : process) : prog := MkProg None false [] (Registers registrations) (replicate (S n) []) p [] true.

Definition on_store {A} (c : M K A) : M process A := fun s =>
  match c s.2.1 with (r, k) => (r, (s.1, (k, s.2.2))) end.

(** One statement of the handler on top of the stack of a thread; [None]: it waits.  The
    failure of the rpc server is logged, the one of the store ends the process. *)
Definition handler_step (t : nat) (sig : signal) (pc : handler_pc) (under : list frame) (s : prog) : option prog :=
  let goto pc' := set_stack t ((sig, pc') :: under) in
  let return_ := set_stack t under in
  match pc with
  | HTest => Some (if stops sig && negb (g_bStopped s) then goto HLock s else return_ s)
  | HLock => match g_m s with None => Some (goto HRpc (set_g_m (Some t) s)) | Some _ => None end
  | HRpc => Some (match KVRpcServerSync.Stop (services s) with
                  | (Ok _, p) => goto HKv (called CallRpcStop p s)
                  | (Prelude.Stop _, p) => set_alive false (called CallRpcStop p s)
                  end)
  | HKv => Some (match on_store MiniKV.Stop (services s) with
                 | (Ok true, p) => goto HSet (called CallKvStop p s)
                 | (Ok false, p) | (Prelude.Stop _, p) => set_alive false (called CallKvStop p s)
                 end)
  | HSet => Some (goto HNotify (set_g_bStopped true s))
  | HNotify => Some (goto HUnlock (match main s with WWait => set_main WWoken s | _ => s end))
  | HUnlock => Some (return_ (set_g_m None s))
  end.

(** One statement of [main]. *)
Definition main_step (s : prog) : option prog :=
  match main s with
  | Registers (sig :: rest) => Some (set_handled (sig :: handled s) (set_main (Registers rest) s))
  | Registers [] => Some (set_main WLock s)
  | WLock | WWoken => match g_m s with None => Some (set_main WTest (set_g_m (Some 0%nat) s)) | Some _ => None end
  | WTest => Some (set_g_m None (set_main (if g_bStopped s then Returned else WWait) s))
  | WWait | Returned => None
  end.

(** What happens next: a statement of [main] or of a handler, a signal that reaches a thread,
    a wait that returns without reason. *)
Inductive action := Main | Handler (t : nat) | Signal (t : nat) (sig : signal) | Spurious.

(** While a handler runs its own signal is blocked ([sa_mask] is empty); without a handler all
    of these signals end the process. *)
Definition exec (a : action) (s : prog) : option prog :=
  if negb (alive s) then None else
  match a with
  | Main => match stacks s !! 0%nat with Some [] => main_step s | _ => None end
  | Handler t => match stacks s !! t with Some ((sig, pc) :: under) => handler_step t sig pc under s | _ => None end
  | Signal t sig =>
      match stacks s !! t with
      | Some fs =>
          if bool_decide (sig ∈ handled s) then
            if bool_decide (sig ∈ fs.*1) then None else Some (set_stack t ((sig, HTest) :: fs) s)
          else Some (set_alive false s)
      | None => None
      end
  | Spurious =>
      match main s, stacks s !! 0%nat with WWait, Some [] => Some (set_main WWoken s) | _, _ => None end
  end.

Fixpoint runs (l : list action) (s : prog) : option prog :=
  match l with
  | [] => Some s
  | a :: l => match exec a s with Some s => runs l s | None => None end
  end.

(** ** Invariant *)

Definition inside (x : nat * frame) : bool :=
  match x.2.2 with HTest | HLock => false | HRpc | HKv | HSet | HNotify | HUnlock => true end.
(** All handlers, with their threads, and those inside the mutex. *)
Definition tagged (ss : list (list frame)) : list (nat * frame) := concat (imap (fun t fs => pair t <$> fs) ss).
Definition holders (s : prog) : list (nat * frame) := filter (fun x => inside x) (tagged (stacks s)).

(** What the calls make of the services. *)
Definition call_service (c : service_call) (p : process) : process :=
  match c with CallRpcStop => (KVRpcServerSync.Stop p).2 | CallKvStop => (on_store MiniKV.Stop p).2 end.
Definition after (l : list service_call) (p : process) : process := foldl (fun p c => call_service c p) p l.
Definition rounds (n : nat) : list service_call := concat (replicate n [CallRpcStop; CallKvStop]).

(** Who is inside the mutex, and the calls so far: complete stops, then those of the stop under way. *)
Inductive phase (s : prog) : Prop :=
  | ph_free n : g_m s = None -> main s <> WTest -> holders s = [] -> calls s = rounds n -> (g_bStopped s = true -> (0 < n)%nat) -> (main s = WWait -> g_bStopped s = false) -> phase s
  | ph_main n : g_m s = Some 0%nat -> main s = WTest -> holders s = [] -> calls s = rounds n -> (g_bStopped s = true -> (0 < n)%nat) -> phase s
  | ph_stop n t sig pc part : g_m s = Some t -> main s <> WTest -> holders s = [(t, (sig, pc))] -> calls s = rounds n ++ part ->
      (g_bStopped s = true -> (0 < n)%nat) ->
      match pc with HKv => part = [CallRpcStop] | HRpc => part = [] | _ => part = [] /\ (0 < n)%nat end ->
      match pc with
      | HNotify => g_bStopped s = true
      | HUnlock => g_bStopped s = true /\ main s <> WWait
      | _ => main s = WWait -> g_bStopped s = false
      end -> phase s.

Record inv (p0 : process) (s : prog) : Prop := {
  i_phase : phase s;
  i_returned : main s = Returned -> g_bStopped s = true;
  i_services : services s = after (calls s) p0
}.

Lemma tagged_at t fs : forall ss, ss !! t = Some fs ->
  exists A B, tagged ss = A ++ (pair t <$> fs) ++ B /\ forall fs', tagged (<[t := fs']> ss) = A ++ (pair t <$> fs') ++ B.
Proof.
  intros ss Hs. pose proof (lookup_lt_Some _ _ _ Hs) as Hlt.
  exists (concat (imap (fun t fs => pair t <$> fs) (take t ss))), (concat (imap (fun i fs => pair (S (t + i)) <$> fs) (drop (S t) ss))).
  assert (forall fs', concat (imap (fun t fs => pair t <$> fs) (take t ss ++ fs' :: drop (S t) ss)) =
    concat (imap (fun t fs => pair t <$> fs) (take t ss)) ++ (pair t <$> fs') ++ concat (imap (fun i fs => pair (S (t + i)) <$> fs) (drop (S t) ss))) as Hc.
  { intros fs'. rewrite imap_app, concat_app. f_equal. rewrite imap_cons. cbn [concat]. rewrite length_take, Nat.min_l by lia. f_equal; [by rewrite Nat.add_0_r|].
    f_equal. apply imap_ext. intros i x _. cbn. do 2 f_equal. lia. }
  split.
  - unfold tagged. rewrite <- (take_drop_middle _ _ _ Hs) at 1. apply Hc.
  - intros fs'. unfold tagged. rewrite insert_take_drop by done. apply Hc.
Qed.

Lemma rpc_stops (p : process) : KVRpcServerSync.Stop p = (Ok true, (KVRpcServerSync.Stop p).2).
Proof. destruct p as [[[] [[] wt pool h r]] kn]; reflexivity. Qed.
Lemma kv_stops (p : process) : on_store MiniKV.Stop p = (Ok true, (on_store MiniKV.Stop p).2).
Proof. by destruct p as [o [[k w] n]]. Qed.

Lemma holders_at t fs (s : prog) : stacks s !! t = Some fs ->
  exists A B, holders s = A ++ filter (fun x => inside x) (pair t <$> fs) ++ B /\
    forall fs', filter (fun x => inside x) (tagged (<[t := fs']> (stacks s))) = A ++ filter (fun x => inside x) (pair t <$> fs') ++ B.
Proof.
  intros Hs. destruct (tagged_at t fs _ Hs) as (A & B & E & E').
  exists (filter (fun x => inside x) A), (filter (fun x => inside x) B). split; [|intros fs'].
  - unfold holders. by rewrite E, !list.filter_app.
  - by rewrite E', !list.filter_app.
Qed.

Lemma filter_outside x l : inside x = false -> filter (fun x => inside x) (x :: l) = filter (fun x => inside x) l.
Proof. intros E. apply filter_cons_False. rewrite E. intros []. Qed.
Lemma filter_inside x l : inside x = true -> filter (fun x => inside x) (x :: l) = x :: filter (fun x => inside x) l.
Proof. intros E. apply filter_cons_True. by rewrite E. Qed.

(** A handler on top that is not inside: the others stay as they are. *)
Lemma holders_outside t sig pc pc' under (s : prog) : stacks s !! t = Some ((sig, pc) :: under) -> inside (t, (sig, pc)) = false ->
  filter (fun x => inside x) (tagged (<[t := under]> (stacks s))) = holders s /\
  (inside (t, (sig, pc')) = false -> filter (fun x => inside x) (tagged (<[t := (sig, pc') :: under]> (stacks s))) = holders s) /\
  (holders s = [] -> inside (t, (sig, pc')) = true -> filter (fun x => inside x) (tagged (<[t := (sig, pc') :: under]> (stacks s))) = [(t, (sig, pc'))]).
Proof.
  intros Hs Hpc. destruct (holders_at _ _ _ Hs) as (A & B & E & E'). rewrite !E', E. cbn [fmap list_fmap].
  rewrite (filter_outside _ _ Hpc). split; [done|]. split.
  - intros Hpc'. by rewrite (filter_outside _ _ Hpc').
  - intros [-> [E0 ->]%app_nil]%app_nil Hpc'. by rewrite (filter_inside _ _ Hpc'), E0.
Qed.

(** A handler on top that is inside is the only one there. *)
Lemma holders_inside t sig pc pc' under t0 x (s : prog) : stacks s !! t = Some ((sig, pc) :: under) -> inside (t, (sig, pc)) = true ->
  holders s = [(t0, x)] ->
  t0 = t /\ x = (sig, pc) /\ filter (fun x => inside x) (tagged (<[t := under]> (stacks s))) = [] /\
  (inside (t, (sig, pc')) = true -> filter (fun x => inside x) (tagged (<[t := (sig, pc') :: under]> (stacks s))) = [(t, (sig, pc'))]).
Proof.
  intros Hs Hpc Hh. destruct (holders_at _ _ _ Hs) as (A & B & E & E'). rewrite !E'. rewrite Hh in E. cbn [fmap list_fmap] in *.
  rewrite (filter_inside _ _ Hpc) in E. destruct A as [|a A]; [|by destruct A]. cbn in E. injection E as -> -> [E0 ->]%eq_sym%app_nil. rewrite E0.
  split_and!; [done..|]. intros Hpc'. by rewrite (filter_inside _ _ Hpc'), E0.
Qed.

Lemma inside_held t sig pc under (s : prog) : stacks s !! t = Some ((sig, pc) :: under) -> inside (t, (sig, pc)) = true -> holders s <> [].
Proof.
  intros Hs Hpc Hh. destruct (holders_at _ _ _ Hs) as (A & B & E & _). rewrite Hh in E. cbn [fmap list_fmap] in E.
  rewrite (filter_inside _ _ Hpc) in E. by destruct A.
Qed.

Lemma rounds_S n : rounds n ++ [CallRpcStop; CallKvStop] = rounds (S n).
Proof. unfold rounds. rewrite replicate_S_end, concat_app. done. Qed.

Lemma after_app l c p : after (l ++ [c]) p = call_service c (after l p).
Proof. unfold after. by rewrite foldl_app. Qed.

Lemma phase_same s s' : phase s -> g_m s' = g_m s -> main s' = main s -> holders s' = holders s -> calls s' = calls s -> g_bStopped s' = g_bStopped s -> phase s'.
Proof.
  intros Hph E1 E2 E3 E4 E5.
  destruct Hph as [n|n|n t sig pc part]; [apply (ph_free _ n)|apply (ph_main _ n)|apply (ph_stop _ n t sig pc part)]; by rewrite ?E1, ?E2, ?E3, ?E4, ?E5.
Qed.

Lemma handler_inv p0 t sig pc under s s' : inv p0 s -> stacks s !! t = Some ((sig, pc) :: under) ->
  handler_step t sig pc under s = Some s' -> inv p0 s'.
Proof.
  intros [Hph Hret Hsv] Hs E. destruct pc; cbn in E.
  - (* HTest *) destruct (holders_outside t sig HTest HLock under s Hs eq_refl) as (E1 & E2 & _). specialize (E2 eq_refl).
    destruct (stops sig && negb (g_bStopped s)); injection E as <-; (split; [|done|done]);
      by apply (phase_same s).
  - (* HLock *) destruct (g_m s) eqn:Em; [done|]. injection E as <-.
    destruct Hph as [n Hm Hw Hh Hc Hn Hl|n Hm|n t0 sig0 pc0 part Hm]; [|congruence..].
    destruct (holders_outside t sig HLock HRpc under s Hs eq_refl) as (_ & _ & E3).
    split; [|done|done]. apply (ph_stop _ n t sig HRpc []); cbn; try done; [by apply E3|by rewrite app_nil_r].
  - (* HRpc *) rewrite rpc_stops in E. injection E as <-.
    destruct Hph as [n Hm Hw Hh|n Hm Hw Hh|n t0 sig0 pc0 part Hm Hw Hh Hc Hn Hp Hl]; [by destruct (inside_held _ _ _ _ _ Hs eq_refl)..|].
    destruct (holders_inside t sig HRpc HKv under t0 (sig0, pc0) s Hs eq_refl Hh) as (-> & [= -> ->] & _ & E2).
    split; [|done|cbn [services called set_stack calls]; by rewrite after_app, <- Hsv]. apply (ph_stop _ n t sig HKv [CallRpcStop]); cbn; try done; [by apply E2|]. subst part. rewrite Hc. by rewrite app_nil_r.
  - (* HKv *) rewrite kv_stops in E. injection E as <-.
    destruct Hph as [n Hm Hw Hh|n Hm Hw Hh|n t0 sig0 pc0 part Hm Hw Hh Hc Hn Hp Hl]; [by destruct (inside_held _ _ _ _ _ Hs eq_refl)..|].
    destruct (holders_inside t sig HKv HSet under t0 (sig0, pc0) s Hs eq_refl Hh) as (-> & [= -> ->] & _ & E2).
    split; [|done|cbn [services called set_stack calls]; by rewrite after_app, <- Hsv]. apply (ph_stop _ (S n) t sig HSet []); cbn; try done; [by apply E2| |intros; lia|split; [done|lia]].
    subst part. rewrite Hc, app_nil_r, <- app_assoc. apply rounds_S.
  - (* HSet *) injection E as <-.
    destruct Hph as [n Hm Hw Hh|n Hm Hw Hh|n t0 sig0 pc0 part Hm Hw Hh Hc Hn Hp Hl]; [by destruct (inside_held _ _ _ _ _ Hs eq_refl)..|].
    destruct (holders_inside t sig HSet HNotify under t0 (sig0, pc0) s Hs eq_refl Hh) as (-> & [= -> ->] & _ & E2).
    split; [|done|done]. apply (ph_stop _ n t sig HNotify part); cbn; try done; [by apply E2|]. by intros _; apply Hp.
  - (* HNotify *) injection E as <-.
    destruct Hph as [n Hm Hw Hh|n Hm Hw Hh|n t0 sig0 pc0 part Hm Hw Hh Hc Hn Hp Hl]; [by destruct (inside_held _ _ _ _ _ Hs eq_refl)..|].
    destruct (holders_inside t sig HNotify HUnlock under t0 (sig0, pc0) s Hs eq_refl Hh) as (-> & [= -> ->] & _ & E2).
    split; [|by destruct (main s) eqn:Emain|by destruct (main s) eqn:Emain].
    apply (ph_stop _ n t sig HUnlock part); destruct (main s) eqn:Emain; cbn; try done; try (by apply E2); rewrite Emain; done.
  - (* HUnlock *) injection E as <-.
    destruct Hph as [n Hm Hw Hh|n Hm Hw Hh|n t0 sig0 pc0 part Hm Hw Hh Hc Hn Hp Hl]; [by destruct (inside_held _ _ _ _ _ Hs eq_refl)..|].
    destruct (holders_inside t sig HUnlock HTest under t0 (sig0, pc0) s Hs eq_refl Hh) as (-> & [= -> ->] & E1 & _).
    split; [|done|done]. apply (ph_free _ n); cbn; try done; [rewrite Hc; destruct Hp as [-> _]; apply app_nil_r|]. intros Ew. by destruct Hl.
Qed.

Lemma main_inv p0 s s' : inv p0 s -> main_step s = Some s' -> inv p0 s'.
Proof.
  intros [Hph Hret Hsv] E. unfold main_step in E. destruct (main s) as [[|sig rest]| | | | |] eqn:Emain; try done.
  - injection E as <-. split; [|done|done].
    destruct Hph as [n|n|n t sig pc part]; [apply (ph_free _ n)|congruence|apply (ph_stop _ n t sig pc part)]; try done. destruct pc; cbn; intuition done.
  - injection E as <-. split; [|done|done].
    destruct Hph as [n|n|n t sig0 pc part]; [apply (ph_free _ n)|congruence|apply (ph_stop _ n t sig0 pc part)]; try done. destruct pc; cbn; intuition done.
  - destruct (g_m s) eqn:Em; [done|]. injection E as <-. split; [|done|done].
    destruct Hph as [n|n|n t sig0 pc part]; [apply (ph_main _ n)|congruence..]; done.
  - injection E as <-. split; [| |done].
    + destruct Hph as [n|n Hm Hw Hh Hc Hn|n t sig0 pc part]; [done| |done]. apply (ph_free _ n); cbn; try done; by destruct (g_bStopped s).
    + cbn. by destruct (g_bStopped s).
  - destruct (g_m s) eqn:Em; [done|]. injection E as <-. split; [|done|done].
    destruct Hph as [n|n|n t sig0 pc part]; [apply (ph_main _ n)|congruence..]; done.
Qed.

Lemma signal_holders t sig fs (s : prog) : stacks s !! t = Some fs -> filter (fun x => inside x) (tagged (<[t := (sig, HTest) :: fs]> (stacks s))) = holders s.
Proof. intros Hs. destruct (holders_at _ _ _ Hs) as (A & B & E & E'). rewrite E', E. cbn [fmap list_fmap]. by rewrite (filter_outside (t, (sig, HTest))). Qed.

Lemma exec_inv p0 a s s' : inv p0 s -> exec a s = Some s' -> inv p0 s'.
Proof.
  intros Hinv E. unfold exec in E. destruct (alive s); [|done]. cbn [negb] in E. destruct a as [|t|t sig|].
  - destruct (stacks s !! 0%nat) as [[]|]; [|done..]. by eapply main_inv.
  - destruct (stacks s !! t) as [[|[sig pc] under]|] eqn:Hs; try done. by eapply handler_inv.
  - destruct (stacks s !! t) as [fs|] eqn:Hs; [|done]. case_bool_decide; [case_bool_decide; [done|]|]; injection E as <-; destruct Hinv as [Hph Hret Hsv]; (split; [|done|done]); apply (phase_same s); try done.
    by apply signal_holders.
  - destruct (main s) eqn:Emain; try done. destruct (stacks s !! 0%nat) as [[]|]; [|done..]. injection E as <-. destruct Hinv as [Hph Hret Hsv]. split; [|done|done].
    destruct Hph as [n|n|n t sig0 pc part]; [apply (ph_free _ n)|congruence|apply (ph_stop _ n t sig0 pc part)]; try done. destruct pc; cbn; intuition done.
Qed.

Lemma runs_inv p0 l : forall s s', inv p0 s -> runs l s = Some s' -> inv p0 s'.
Proof.
  induction l as [|a l IH]; intros s s' Hi E; [by injection E as <-|]. cbn in E. destruct (exec a s) as [s1|] eqn:Ea; [|done].
  eapply IH; [|exact E]. by eapply exec_inv.
Qed.

Lemma started_inv n p : inv p (started n p).
Proof.
  split; [|done|done]. apply (ph_free _ 0); try done. unfold holders, started, tagged. cbn [stacks].
  assert (forall k (f : nat -> list frame -> list (nat * frame)), (forall i, f i [] = []) -> concat (imap f (replicate k [])) = []) as H.
  { induction k as [|k IH]; intros f Hf; [done|]. cbn [replicate]. rewrite imap_cons. cbn [concat]. rewrite Hf. cbn [app]. apply IH. intros i. apply Hf. }
  by rewrite H.
Qed.

(** Both services refuse further work. *)
Definition services_stopped (p : process) : Prop :=
  KVRpcServerSync.m_bStopped p.1 = true /\ m_bStopped p.2.1.1 = true.

Lemma stopped_after l : forall p, services_stopped p -> services_stopped (after l p).
Proof.
  induction l as [|c l IH]; intros p Hp; [done|]. apply IH. destruct p as [[b r] [[k w] n]], Hp as [Hb Hk]. cbn in Hb, Hk. subst b.
  by destruct c.
Qed.

(** C38 shutdown_order: when main returns from waitStop, the rpc server has been stopped before
    the store and both refuse further work, whatever signals have reached whatever threads and
    in whatever order the threads have run since startup. *)
Theorem shutdown_order (n : nat) (p : process) (l : list action) (s : prog) (Hrun : runs l (started n p) = Some s) (Hret : main s = Returned) :
  (exists rest, calls s = CallRpcStop :: CallKvStop :: rest) /\ services_stopped (services s).
Proof.
  pose proof (runs_inv p _ _ _ (started_inv n p) Hrun) as [Hph Hst Hsv]. specialize (Hst Hret).
  assert (exists rest, calls s = CallRpcStop :: CallKvStop :: rest) as [rest Hc].
  { destruct Hph as [k ? ? ? Hc Hk|k ? ? ? Hc Hk|k t sig pc part ? ? ? Hc Hk]; specialize (Hk Hst); destruct k; try lia; rewrite Hc; by eexists. }
  split; [by exists rest|]. rewrite Hsv, Hc. change (services_stopped (after rest (after [CallRpcStop; CallKvStop] p))). apply stopped_after.
  by destruct p as [[[] [[] wt pool h r]] [[k w] n']].
Qed.

(** ** The end is reached *)

(** Nobody has been interrupted inside the mutex. *)
Definition calm (s : prog) : Prop := forall t, g_m s = Some t ->
  (t = 0%nat /\ main s = WTest /\ stacks s !! 0%nat = Some []) \/ exists f under, stacks s !! t = Some (f :: under) /\ inside (t, f) = true.

Definition will_stop (f : frame) : bool :=
  match f.2 with HTest => stops f.1 | HLock | HRpc | HKv | HSet => true | HNotify | HUnlock => false end.
Definition stopping (s : prog) : Prop := g_bStopped s = true \/ exists x, x ∈ tagged (stacks s) /\ will_stop x.2 = true.

Definition own_step (a : action) : bool := match a with Main | Handler _ => true | Signal _ _ | Spurious => false end.

Definition frame_weight (f : frame) : nat :=
  match f.2 with HTest => 9 | HLock => 8 | HRpc => 7 | HKv => 6 | HSet => 5 | HNotify => 4 | HUnlock => 1 end.
Definition main_weight (m : main_pc) : nat :=
  match m with Registers rest => 6 + length rest | WLock | WWoken => 5 | WTest => 4 | WWait => 3 | Returned => 0 end.
Definition measure (s : prog) : nat := main_weight (main s) + sum_list_with (frame_weight ∘ snd) (tagged (stacks s)).

Record live (p0 : process) (s : prog) : Prop := {
  lv_inv : inv p0 s;
  lv_alive : alive s = true;
  lv_calm : calm s;
  lv_stopping : stopping s;
  lv_main : is_Some (stacks s !! 0%nat)
}.

Lemma weights_at t f under (ss : list (list frame)) : ss !! t = Some (f :: under) ->
  exists k, sum_list_with (frame_weight ∘ snd) (tagged ss) = (k + frame_weight f)%nat /\
    sum_list_with (frame_weight ∘ snd) (tagged (<[t := under]> ss)) = k /\
    forall f', sum_list_with (frame_weight ∘ snd) (tagged (<[t := f' :: under]> ss)) = (k + frame_weight f')%nat.
Proof.
  intros Hs. destruct (tagged_at _ _ _ Hs) as (A & B & E & E').
  exists (sum_list_with (frame_weight ∘ snd) A + sum_list_with (frame_weight ∘ snd) (pair t <$> under) + sum_list_with (frame_weight ∘ snd) B)%nat.
  rewrite E, E'. split_and!; [| |intros f'; rewrite E']; rewrite !sum_list_with_app; cbn; lia.
Qed.

Lemma step_measure a s s' : own_step a = true -> exec a s = Some s' -> (measure s' < measure s)%nat.
Proof.
  intros Ha E. unfold exec in E. destruct (alive s); [|done]. cbn [negb] in E. destruct a as [|t| |]; [| |done..].
  - destruct (stacks s !! 0%nat) as [[]|]; [|done..]. unfold main_step in E. unfold measure.
    destruct (main s) as [[|]| | | | |]; try done; try (destruct (g_m s); [done|]); injection E as <-; cbn [main set_main set_handled set_g_m stacks main_weight length]; try lia. destruct (g_bStopped s); cbn [main_weight]; lia.
  - destruct (stacks s !! t) as [[|[sig pc] under]|] eqn:Hs; try done. destruct (weights_at _ _ _ _ Hs) as (k & E0 & E1 & E2).
    unfold handler_step in E. unfold measure. rewrite E0. destruct pc; try (rewrite rpc_stops in E); try (rewrite kv_stops in E).
    + destruct (stops sig && negb (g_bStopped s)); injection E as <-; cbn [main stacks set_stack]; rewrite ?E1, ?E2; cbn; lia.
    + destruct (g_m s); [done|]. injection E as <-; cbn [main stacks set_stack set_g_m]; rewrite E2; cbn; lia.
    + injection E as <-; cbn [main stacks set_stack called]; rewrite E2; cbn; lia.
    + injection E as <-; cbn [main stacks set_stack called]; rewrite E2; cbn; lia.
    + injection E as <-; cbn [main stacks set_stack set_g_bStopped]; rewrite E2; cbn; lia.
    + injection E as <-. destruct (main s) eqn:Em; cbn [main stacks set_stack set_main]; rewrite E2, ?Em; cbn; lia.
    + injection E as <-; cbn [main stacks set_stack set_g_m]; rewrite E1; cbn; lia.
Qed.

Lemma elem_tagged t f : forall ss, (t, f) ∈ tagged ss -> exists fs, ss !! t = Some fs /\ f ∈ fs.
Proof.
  intros ss (l & Hin & Hl%list_elem_of_In)%list_elem_of_In%in_concat.
  apply list_elem_of_In, elem_of_lookup_imap in Hin as (i & fs & -> & Hi). exists fs.
  apply list_elem_of_fmap in Hl as (y & [= -> ->] & Hy). done.
Qed.

Lemma calm_elsewhere t x g (s s' : prog) : calm s -> stacks s' = <[t := x]> (stacks s) -> g_m s' = g_m s -> main s' = main s ->
  stacks s !! t = Some g -> (forall f under, g = f :: under -> inside (t, f) = false) -> g <> [] -> calm s'.
Proof.
  intros Hc Es Em Ew Hg Hout Hne u Hu. rewrite Em in Hu. destruct (Hc u Hu) as [(-> & Hw & H0)|(f & under & Hf & Hin)].
  - left. rewrite Ew. split; [done|]. split; [done|]. rewrite Es. destruct (decide (t = 0%nat)) as [->|]; [congruence|]. by rewrite list_lookup_insert_ne.
  - right. destruct (decide (t = u)) as [->|]; [|exists f, under; split; [|done]; rewrite Es; by rewrite list_lookup_insert_ne].
    rewrite Hg in Hf. injection Hf as ->. rewrite (Hout f under eq_refl) in Hin. done.
Qed.

Lemma calm_inside t f under ss (s' : prog) (fs : list frame) : ss !! t = Some fs -> stacks s' = <[t := f :: under]> ss -> g_m s' = Some t -> inside (t, f) = true -> calm s'.
Proof.
  intros Hs Es Em Hf u Hu. rewrite Em in Hu. injection Hu as <-. right. exists f, under. split; [|done]. rewrite Es.
  apply list_lookup_insert_eq. by eapply lookup_lt_Some.
Qed.

Lemma stopping_moves t sig pc pc' under (s s' : prog) : stopping s -> stacks s !! t = Some ((sig, pc) :: under) -> g_bStopped s' = g_bStopped s ->
  stacks s' = <[t := (sig, pc') :: under]> (stacks s) -> (will_stop (sig, pc) = true -> will_stop (sig, pc') = true) -> stopping s'.
Proof.
  intros [Hst|(x & Hx & Hw)] Hs Eb Es Hpc; [left; congruence|right]. destruct (tagged_at _ _ _ Hs) as (A & B & E & E').
  rewrite Es, E'. rewrite E in Hx. cbn [fmap list_fmap] in *. apply elem_of_app in Hx as [Hx|[Hx|Hx]%elem_of_cons].
  - exists x. split; [apply elem_of_app; by left|done].
  - exists (t, (sig, pc')). split; [apply elem_of_app; right; left|]. subst x. by apply Hpc.
  - exists x. split; [apply elem_of_app; right; by right|done].
Qed.

Lemma stopping_pops t sig pc under (s s' : prog) : stopping s -> stacks s !! t = Some ((sig, pc) :: under) -> g_bStopped s' = g_bStopped s ->
  stacks s' = <[t := under]> (stacks s) -> (will_stop (sig, pc) = true -> g_bStopped s = true) -> stopping s'.
Proof.
  intros [Hst|(x & Hx & Hw)] Hs Eb Es Hpc; [left; congruence|]. destruct (tagged_at _ _ _ Hs) as (A & B & E & E').
  rewrite E in Hx. cbn [fmap list_fmap] in *. apply elem_of_app in Hx as [Hx|[Hx|Hx]%elem_of_cons].
  - right. exists x. rewrite Es, E'. split; [apply elem_of_app; by left|done].
  - left. rewrite Eb. apply Hpc. by subst x.
  - right. exists x. rewrite Es, E'. split; [apply elem_of_app; by right|done].
Qed.

Lemma inside_owner t sig pc under (s : prog) : phase s -> stacks s !! t = Some ((sig, pc) :: under) -> inside (t, (sig, pc)) = true -> g_m s = Some t.
Proof.
  intros Hph Hs Hin. destruct Hph as [n Hm Hw Hh|n Hm Hw Hh|n t0 sig0 pc0 part Hm Hw Hh]; [by destruct (inside_held _ _ _ _ _ Hs Hin)..|].
  by destruct (holders_inside t sig pc pc under t0 (sig0, pc0) s Hs Hin Hh) as (-> & _).
Qed.

Lemma live_handler p0 t sig pc under s s' : live p0 s -> stacks s !! t = Some ((sig, pc) :: under) -> handler_step t sig pc under s = Some s' ->
  alive s' = true /\ calm s' /\ stopping s'.
Proof.
  intros [[Hph _ _] Hal Hc Hst _] Hs E. pose proof (inside_owner t sig pc under s Hph Hs) as Hown.
  destruct pc; cbn in E; try specialize (Hown eq_refl).
  - destruct (stops sig && negb (g_bStopped s)) eqn:Et; injection E as <-; (split; [done|]); split.
    1, 3: by eapply (calm_elsewhere t _ _ s); [done|done|done|done|exact Hs|by intros ? ? [= <- _]|done].
    + by eapply (stopping_moves t sig HTest HLock under s).
    + eapply (stopping_pops t sig HTest under s); [done..|]. cbn. intros Hw. rewrite Hw in Et. by destruct (g_bStopped s).
  - destruct (g_m s); [done|]. injection E as <-. split; [done|]. split; [by eapply calm_inside|by eapply (stopping_moves t sig HLock HRpc under s)].
  - rewrite rpc_stops in E. injection E as <-. split; [done|]. split; [by eapply calm_inside|by eapply (stopping_moves t sig HRpc HKv under s)].
  - rewrite kv_stops in E. injection E as <-. split; [done|]. split; [by eapply calm_inside|by eapply (stopping_moves t sig HKv HSet under s)].
  - injection E as <-. split; [done|]. split; [by eapply calm_inside|by left].
  - assert (exists s1, s' = set_stack t ((sig, HUnlock) :: under) s1 /\ alive s1 = true /\ g_m s1 = g_m s /\ g_bStopped s1 = g_bStopped s /\ stacks s1 = stacks s) as (s1 & -> & Ea & Em & Eb & Es).
    { injection E as <-. eexists. split; [done|]. by destruct (main s). }
    split; [done|]. split; [eapply (calm_inside t _ under (stacks s)); [done|cbn; by rewrite Es|cbn; congruence|done]|].
    eapply (stopping_moves t sig HNotify HUnlock under s); [done|done|done|cbn; by rewrite Es|done].
  - injection E as <-. split; [done|]. split; [by intros u Hu|]. by eapply (stopping_pops t sig HUnlock under s).
Qed.

Lemma live_main p0 s s' : live p0 s -> stacks s !! 0%nat = Some [] -> main_step s = Some s' -> alive s' = true /\ calm s' /\ stopping s'.
Proof.
  intros [[Hph _ _] Hal Hc Hst _] Hs E. unfold main_step in E.
  assert (main s <> WTest -> forall t, g_m s = Some t -> exists f under, stacks s !! t = Some (f :: under) /\ inside (t, f) = true) as Hc'.
  { intros Hw t Ht. by destruct (Hc t Ht) as [(_ & ? & _)|?]. }
  destruct (main s) as [[|sig rest]| | | | |] eqn:Emain; try done; try (destruct (g_m s) eqn:Em; [done|]); injection E as <-; (split; [done|]); (split; [|done]).
  - intros t Ht. right. by apply Hc'.
  - intros t Ht. right. by apply Hc'.
  - intros t Ht. left. by injection Ht as <-.
  - by intros t Ht.
  - intros t Ht. left. by injection Ht as <-.
Qed.

Lemma exec_stacks a s s' : exec a s = Some s' -> length (stacks s') = length (stacks s).
Proof.
  intros E. unfold exec in E. destruct (alive s); [|done]. cbn [negb] in E. destruct a as [|t|t sig|].
  - destruct (stacks s !! 0%nat) as [[]|]; [|done..]. unfold main_step in E. destruct (main s) as [[]| | | | |]; try done; try (destruct (g_m s); [done|]); by injection E as <-.
  - destruct (stacks s !! t) as [[|[sig pc] under]|]; try done. unfold handler_step in E.
    destruct pc; try rewrite rpc_stops in E; try rewrite kv_stops in E; try destruct (stops sig && negb (g_bStopped s)); try destruct (main s);
      try destruct (g_m s); try done; injection E as <-; cbn; by rewrite length_insert.
  - destruct (stacks s !! t); [|done]. repeat case_bool_decide; try done; injection E as <-; cbn; by rewrite ?length_insert.
  - destruct (main s); try done. destruct (stacks s !! 0%nat) as [[]|]; try done. by injection E as <-.
Qed.

Lemma live_step p0 a s s' : live p0 s -> own_step a = true -> exec a s = Some s' -> live p0 s'.
Proof.
  intros Hl Ha E. assert (alive s' = true /\ calm s' /\ stopping s') as (H1 & H2 & H3).
  { unfold exec in E. rewrite (lv_alive _ _ Hl) in E. cbn [negb] in E. destruct a as [|t| |]; [| |done..].
    - destruct (stacks s !! 0%nat) as [[]|] eqn:Hs; [|done..]. by eapply live_main.
    - destruct (stacks s !! t) as [[|[sig pc] under]|] eqn:Hs; try done. by eapply live_handler. }
  split; [by eapply exec_inv; [apply Hl|]|done..|].
  apply lookup_lt_is_Some. rewrite (exec_stacks _ _ _ E). apply lookup_lt_is_Some, Hl.
Qed.

Lemma handler_goes t sig pc under s : (pc = HLock -> g_m s = None) -> is_Some (handler_step t sig pc under s).
Proof. intros Hpc. destruct pc; cbn; try rewrite rpc_stops; try rewrite kv_stops; try rewrite (Hpc eq_refl); by eexists. Qed.

(** Someone goes on until [main] has returned. *)
Lemma live_goes p0 s : live p0 s -> main s = Returned \/ exists a s', own_step a = true /\ exec a s = Some s'.
Proof.
  intros [[Hph Hret _] Hal Hc Hst [st0 H0]].
  assert (forall t sig pc under, stacks s !! t = Some ((sig, pc) :: under) -> (pc = HLock -> g_m s = None) -> exists a s', own_step a = true /\ exec a s = Some s') as Hh.
  { intros t sig pc under Hs Hpc. destruct (handler_goes t sig pc under s Hpc) as [s' E]. exists (Handler t), s'. split; [done|].
    unfold exec. by rewrite Hal, Hs. }
  assert (forall s', stacks s !! 0%nat = Some [] -> main_step s = Some s' -> exists a s', own_step a = true /\ exec a s = Some s') as Hm'.
  { intros s' Hs E. exists Main, s'. split; [done|]. unfold exec. by rewrite Hal, Hs. }
  destruct Hph as [n Hm Hw Hhold Hcalls Hn Hl|n Hm Hw Hhold|n t sig pc part Hm Hw Hhold].
  - destruct (tagged (stacks s)) as [|[t f] l] eqn:Et.
    + destruct Hst as [Hst|(x & Hx & _)]; [|rewrite Et in Hx; by apply elem_of_nil in Hx].
      assert (st0 = []) as ->. { destruct st0 as [|f0 r0]; [done|]. destruct (tagged_at _ _ _ H0) as (A & B & E & _). rewrite Et in E. by destruct A. }
      destruct (main s) as [[|sig rest]| | | | |] eqn:Emain; try (by left); try (by exfalso; specialize (Hl eq_refl); congruence); try done; right;
        (eapply Hm'; [done|]; unfold main_step; rewrite Emain, ?Hm; done).
    + right. destruct (elem_tagged t f (stacks s)) as (fs & Hs & Hf); [rewrite Et; left|]. destruct fs as [|[sig pc] under]; [by apply elem_of_nil in Hf|].
      by eapply Hh.
  - right. destruct (Hc 0%nat Hm) as [(_ & _ & Hs)|(f & under & Hs & Hin)]; [|destruct f as [sig pc]; by destruct (inside_held _ _ _ _ _ Hs Hin)].
    eapply Hm'; [done|]. unfold main_step. by rewrite Hw.
  - right. destruct (Hc t Hm) as [(_ & ? & _)|(f & under & Hs & Hin)]; [done|]. destruct f as [sig' pc']. eapply Hh; [done|]. by intros ->.
Qed.

Lemma live_runs p0 l : forall s s', live p0 s -> Forall (fun a => own_step a = true) l -> runs l s = Some s' ->
  live p0 s' /\ (length l + measure s' <= measure s)%nat.
Proof.
  induction l as [|a l IH]; intros s s' Hl Hq E; [injection E as <-; split; [done|cbn; lia]|]. apply list.Forall_cons in Hq as [Ha Hq]. cbn in E.
  destruct (exec a s) as [s1|] eqn:Ea; [|done]. destruct (IH s1 s' (live_step _ _ _ _ Hl Ha Ea) Hq E) as [H1 H2].
  split; [done|]. pose proof (step_measure _ _ _ Ha Ea). cbn. lia.
Qed.

Lemma runs_stacks l : forall s s', runs l s = Some s' -> length (stacks s') = length (stacks s).
Proof.
  induction l as [|a l IH]; intros s s' E; [by injection E as <-|]. cbn in E. destruct (exec a s) as [s1|] eqn:Ea; [|done].
  rewrite (IH _ _ E). by eapply exec_stacks.
Qed.


(** ** Where it does not *)

(** A signal to stop that reaches [main] while it is inside the mutex, before it waits. *)
Definition caught : list action := [Main; Main; Main; Main; Main; Main; Main; Signal 0 SIGTERM; Handler 0].

Record stuck (s : prog) : Prop := {
  sk_m : g_m s = Some 0%nat;
  sk_main : main s = WTest;
  sk_holders : holders s = [];
  sk_calls : calls s = [];
  sk_stack : exists over, stacks s !! 0%nat = Some (over ++ [(SIGTERM, HLock)])
}.

Lemma stuck_stack t f fs x (s : prog) : (exists over, stacks s !! 0%nat = Some (over ++ [(SIGTERM, HLock)])) -> stacks s !! t = Some (f :: fs) ->
  (f.2 <> HLock) -> exists over, (<[t := x ++ fs]> (stacks s)) !! 0%nat = Some (over ++ [(SIGTERM, HLock)]).
Proof.
  intros [over Ho] Hs Hf. destruct (decide (t = 0%nat)) as [->|]; [|exists over; by rewrite list_lookup_insert_ne].
  rewrite list_lookup_insert_eq by (by eapply lookup_lt_Some). rewrite Ho in Hs. injection Hs as Hs. destruct over as [|f0 over]; [by injection Hs as <- _|].
  injection Hs as -> <-. exists (x ++ over). by rewrite app_assoc.
Qed.

Lemma stuck_step a s s' : stuck s -> exec a s = Some s' -> stuck s'.
Proof.
  intros [Hm Hw Hh Hc Hst] E. unfold exec in E. destruct (alive s); [|done]. cbn [negb] in E. destruct a as [|t|t sig|].
  - destruct Hst as [over Ho]. rewrite Ho in E. by destruct over.
  - destruct (stacks s !! t) as [[|[sig pc] under]|] eqn:Hs; try done.
    destruct pc; [|cbn in E; by rewrite Hm in E|by destruct (inside_held _ _ _ _ _ Hs eq_refl)..]. cbn in E.
    destruct (holders_outside t sig HTest HLock under s Hs eq_refl) as (E1 & E2 & _). specialize (E2 eq_refl). rewrite Hh in E1, E2.
    destruct (stops sig && negb (g_bStopped s)); injection E as <-; (split; [done|done|done|done|]).
    + by eapply (stuck_stack t _ under [(sig, HLock)]).
    + by eapply (stuck_stack t _ under []).
  - destruct (stacks s !! t) as [fs|] eqn:Hs; [|done]. case_bool_decide; [case_bool_decide; [done|]|]; injection E as <-; (split; [done|done| |done|]); try done.
    + cbn. rewrite <- Hh. by apply signal_holders.
    + destruct Hst as [over Ho]. cbn. destruct (decide (t = 0%nat)) as [->|]; [|exists over; by rewrite list_lookup_insert_ne].
      rewrite list_lookup_insert_eq by (by eapply lookup_lt_Some). rewrite Ho in Hs. injection Hs as <-. by exists ((sig, HTest) :: over).
  - by rewrite Hw in E.
Qed.

Lemma stuck_runs l : forall s s', stuck s -> runs l s = Some s' -> main s' <> Returned /\ calls s' = [].
Proof.
  induction l as [|a l IH]; intros s s' Hs E.
  - injection E as <-. destruct Hs as [? Hw ? ? ?]. split; [by rewrite Hw|done].
  - cbn in E. destruct (exec a s) as [s1|] eqn:Ea; [|done]. eapply IH; [|done]. by eapply stuck_step.
Qed.

Definition deadlocked (p : process) : prog := MkProg (Some 0%nat) false (rev registrations) WTest [[(SIGTERM, HLock)]] p [] true.

(** Nothing that happens afterwards ends the wait or stops a service. *)
Theorem signal_deadlocks (p : process) : runs caught (started 0 p) = Some (deadlocked p) /\
  forall l s', runs l (deadlocked p) = Some s' -> main s' <> Returned /\ calls s' = [].
Proof.
  split; [reflexivity|]. intros l s'. apply stuck_runs. split; [done..|by exists []].
Qed.

(** Two threads that have both passed the test of [stop] stop the services twice, the second
    after [main] has returned. *)
Theorem stops_twice (p : process) : exists l s, runs l (started 2 p) = Some s /\ main s = Returned /\ calls s = rounds 2.
Proof.
  exists ([Main; Main; Main; Main; Main; Main; Main; Main; Signal 1 SIGINT; Signal 2 SIGTERM; Handler 1; Handler 2] ++
    replicate 6 (Handler 1) ++ [Main; Main] ++ replicate 6 (Handler 2)).
  destruct p as [[[] [[] wt pool h r]] [[k w] n]]; eexists; (split; [vm_compute; reflexivity|done]).
Qed.

Lemma handled_registered l n (p : process) s : runs l (started n p) = Some s -> SIGQUIT ∉ handled s.
Proof.
  intros E. assert (forall l s s', SIGQUIT ∉ handled s /\ (forall r, main s = Registers r -> SIGQUIT ∉ r) -> runs l s = Some s' -> SIGQUIT ∉ handled s') as H.
  2: { eapply H; [|exact E]. split; [apply not_elem_of_nil|]. intros r [= <-]. unfold registrations. set_solver. }
  clear. induction l as [|a l IH]; intros s s' [H1 H2] E; [by injection E as <-|]. cbn in E. destruct (exec a s) as [s1|] eqn:Ea; [|done]. eapply IH; [|exact E].
  unfold exec in Ea. destruct (alive s); [|done]. cbn [negb] in Ea. destruct a as [|t|t sig|].
  - destruct (stacks s !! 0%nat) as [[]|]; [|done..]. unfold main_step in Ea. destruct (main s) as [[|sig r]| | | | |] eqn:Em; try done; try (destruct (g_m s); [done|]); injection Ea as <-; try done.
    + specialize (H2 _ eq_refl). cbn. split; [set_solver|]. intros r' [= <-]. set_solver.
    + split; [done|]. cbn. by destruct (g_bStopped s).
  - destruct (stacks s !! t) as [[|[sig pc] under]|]; try done. unfold handler_step in Ea.
    destruct pc; try rewrite rpc_stops in Ea; try rewrite kv_stops in Ea; try destruct (stops sig && negb (g_bStopped s)); try (destruct (main s) eqn:Em);
      try destruct (g_m s); try done; injection Ea as <-; cbn; try rewrite Em; done.
  - destruct (stacks s !! t); [|done]. repeat case_bool_decide; try done; by injection Ea as <-.
  - destruct (main s) eqn:Em; try done. destruct (stacks s !! 0%nat) as [[]|]; try done. by injection Ea as <-.
Qed.

(** [signal_handler] has a case for SIGQUIT, but nobody registers it: it ends the process. *)
Theorem sigquit_kills l n (p : process) s t (Hrun : runs l (started n p) = Some s) (Hal : alive s = true) (Ht : (t <= n)%nat) :
  exec (Signal t SIGQUIT) s = Some (set_alive false s).
Proof.
  assert (is_Some (stacks s !! t)) as [fs Hs].
  { apply lookup_lt_is_Some. rewrite (runs_stacks _ _ _ Hrun). cbn. rewrite length_replicate. lia. }
  unfold exec. rewrite Hal, Hs. cbn [negb]. by rewrite bool_decide_false by (by eapply handled_registered).
Qed.
End shutdown.

(** ** A run *)

Definition demo_store : MiniKV unit unit := set_stopped false (MiniKV_make tt tt 0 0).
Definition demo_process : KVRpcServerSync.t (MiniKV unit unit * world) * (MiniKV unit unit * world * unit) :=
  (KVRpcServerSync.Make false (RpcServerSync.Make false 4 (Some []) ∅ true), (demo_store, World ∅ ∅ ∅ 3 0 ∅ ∅ [], tt)).
Definition waiting : list action := replicate 8 Main.
Definition asked : list action := waiting ++ [Signal 0 SIGTERM].
Definition ended : list action := asked ++ replicate 7 (Handler 0) ++ [Main; Main].

Lemma shutdown_order_witness : match runs ended (started 0 demo_process) with
  | Some s => main s = Returned /\ (exists rest, calls s = CallRpcStop :: CallKvStop :: rest) /\ services_stopped (services s)
  | None => False
  end.
Proof.
  destruct (runs ended (started 0 demo_process)) as [s|] eqn:E; [|vm_compute in E; discriminate E].
  assert (main s = Returned) as Hret. { vm_compute in E. injection E as <-. reflexivity. }
  split; [exact Hret|]. exact (shutdown_order 0 demo_process ended s E Hret).
Defined.

